(* ===== verification/_CoqProject ===== *)
-Q . S2P
Prelude.v
GoStrings.v
Ids.v
Queue.v
QueueSpec.v
QueueWire.v
Status.v
StatusSpec.v
GoTime.v
Cron.v
CronSpec.v
CronWalk.v
CronMain.v
Memsync.v
MemsyncSpec.v
MemPlan.v
MemSettle.v
MemSettleSpec.v
Json.v
Domain.v
Consumption.v
ConsumptionSpec.v
Log.v
LogSpec.v
ToolQuery.v
ToolSpec.v
ToolFlow.v
ToolSettle.v
FlowSpec.v
Inbound.v
InboundSpec.v
Intake.v
IntakeSpec.v
SendLayout.v
LayoutSpec.v
Outcomes.v
Replay.v
ReplaySpec.v
Threadmsg.v
ThreadmsgSpec.v
Grading.v
GradingSpec.v
Send.v
SendSpec.v
Turn.v
Delegate.v
DelegateSpec.v
TurnSpec.v
Toolset.v
ToolsetSpec.v
EchoSpec.v
AgentSpec.v
Surface.v
SurfaceSpec.v
Pages.v
PagesSpec.v
Wire.v
Memories.v
MemoryStores.v
MemoriesSpec.v
HistorySpec.v
ListSpec.v
Deploy.v
DeploySpec.v
Frame.v
FrameSpec.v
GoNet.v
DialGuard.v
DialGuardSpec.v
Egress.v
EgressSpec.v
Gate.v
GateSpec.v
