(* ===== verification/Prelude.v ===== *)
(** * managed-agent-platform: a verification development

    The platform runs agent sessions.  A control plane stores sessions, threads,
    environments and vault credentials in Postgres; a session is an append-only log of
    events; brains and executors claim work items from a queue under leases, and
    self-hosted workers poll the same queue over HTTP; a client's send is validated,
    routed, settled and appended under one lock; a session's threads move between
    statuses whose rollup is the session's; scheduled deployments fire on cron
    expressions; an executor mirrors memory stores into a sandbox directory and back; a
    per-session gate decides which hosts the sandbox reaches and puts secrets in the
    place of placeholders; and every outbound connection of the platform is dialled
    through an address guard.

    The development models the parts of that with state or decisions of their own.
    Each function of the source is a Rocq function of the same name; a SQL statement
    is a function from the tables it reads to the tables it leaves, the database's clock
    readings an argument; an error is a value ([result]); a handler's early returns are
    its [if]s.

    ** Files and the code they model

    - [Prelude]: results and their [try] notation, bounded loops, automation, list
      lemmas, a stable sort.
    - [GoStrings], [GoTime], [GoNet]: the parts of Go's strings, strconv, unicode, time,
      net and net/netip packages the code uses.  A string is a sequence of bytes; runes
      are decoded as a [range] loop decodes them.  An instant is a count of nanoseconds;
      a zone is a list of offset transitions.
    - [Json]: decoded documents, and what encoding/json and Postgres's [->>] make of them.
    - [Ids] (internal/domain/id.go): minting and validation of identifiers.
    - [Domain] (internal/domain/event.go, session.go, mcpname.go): the event types and
      their classes, usage counters, the names models are offered MCP tools under.

    The queue and the sessions' statuses:
    - [Queue] (internal/queue/queue.go, lifecycle.go, stats.go): the work_items table
      as a map, one function per statement: enqueue, claim, poll, heartbeat, ack,
      stop, settle, requeue, cancel, statistics.  [SKIP LOCKED] is a predicate that
      says which rows other transactions hold.  [QueueSpec]: the table's invariant,
      the state machine, lease fencing, over arbitrary sequences of statements.
      [QueueWire]: the work API's operations one by one.
    - [Status] (internal/events/status.go): thread transitions, the fold of the
      threads' statuses and stop reasons into the session's, the preview.
      [StatusSpec]: the fold against its documented rule, and what is announced.

    The event log and a send:
    - [Log] (internal/events/log.go, usage.go, thinking.go): the events and sessions
      tables, [AppendInTx] with its stamps, usage snapshots, running-time clock,
      consumption and callbacks, [List], thinking blocks.  [LogSpec]: the log's
      invariant, what an append leaves, running time, paging.
    - [Consumption] (internal/events/consumption.go): the order a model reads its log
      in.  [ConsumptionSpec]: the orderer against a rule per thread.
    - [ToolQuery] (internal/events/toolflow.go): the questions asked of the log about
      tool calls: which are unanswered, which a driver runs, which results and
      confirmations a client may send, what an interrupt or a denial answers.
      [ToolSpec]: their contracts.
    - [ToolFlow] (internal/events/orderedtools.go, awaiting.go) and [ToolSettle]: the
      ordered walk of a thread's calls, its settlement, the plan of a send, and the
      refusal of work behind an awaited response.  [FlowSpec]: the plan foresees the
      settlement.
    - [Inbound] (internal/events/inbound.go, route.go, internal/unknownkey): what a
      client may send, and the thread it goes to.  [InboundSpec]: the stored form.
    - [Intake] (internal/api/events.go, threadstate.go): the front half of a send, from
      the raw batch to the threads it reaches.  [IntakeSpec]: what the rest relies on.
    - [SendLayout] (internal/api/events.go): the order a send is written in.
      [LayoutSpec]: nothing is lost, and where each row stands.
    - [Send] (internal/api/events.go): the arms of a send over the live threads, what its
      transaction commits behind the append, and the interrupt from outside a request.
      [SendSpec]: the outside interrupt is a client's, and what an interrupt leaves.

    Turns and outcomes:
    - [Outcomes] (internal/events/outcomes.go, internal/domain/outcome.go): the entries
      of a session's outcomes, and how a definition, a turn and an interrupt move them.
    - [Replay] (internal/brain/replay.go, thinking.go, internal/transcript): the request
      a turn sends, rebuilt from the log, and the thinking blocks that may go back.
      [ReplaySpec]: the conversation's shape and its equality with a reading row by row.
    - [Threadmsg] (internal/events/threadmsg.go): messages between threads, and the wake
      of a coordinator whose child ended.  [ThreadmsgSpec]: who is woken, and once.
    - [Grading] (internal/brain/grader.go, brain.go, delegate.go,
      internal/executor/harvest.go): the end of a turn, the grader's verdict, the
      outputs harvest.  [GradingSpec]: a step relation over a session's transactions.
    - [Turn] (internal/brain/brain.go, toolflow.go, mcptools.go, internal/toolset): a
      turn rendered as events and classed by what its calls' names mean; the claim, the
      commit's common steps, failed, released and suspended turns.
    - [Delegate] (internal/brain/delegate.go, brain.go): the six delegation tools, the
      commit of a turn that called tools, the refusal of a session out of budget.
      [DelegateSpec]: what a run of calls and a settlement preserve.  [TurnSpec]: the
      commit end to end.

    Tools:
    - [Toolset] (internal/toolset/definitions.go, mcp.go, materialize.go): what a toolset
      entry enables and under which policy, read into structs and as a map, its checks,
      and the entry a response shows.  [ToolsetSpec]: an entry with no repeated key
      resolves as its map reads.  [EchoSpec]: the entry shown is the entry that runs.
    - [AgentSpec] (internal/api/wire.go): the tools and MCP servers a request may give an
      agent.
    - [Surface] (internal/brain/mcptools.go): the definitions a turn offers its model and
      the class of each name, the MCP catalog, the report of names no request can carry.
      [SurfaceSpec]: what an accepted agent offers, and what its servers can add.

    Schedules and memory:
    - [Cron] (internal/cron/cron.go): the expression parser with its bit masks in
      64-bit arithmetic, and the walk over wall clocks.  [CronSpec]: the parser;
      [CronWalk]: the walk's invariant and termination; [CronMain]: [Due], [Upcoming]
      and [Next] against the set of scheduled instants.
    - [Deploy] (internal/api/deployments.go, deploymentparse.go, deploymentruns.go,
      deploymentscheduler.go): deployments, their runs and the sweep that fires them.
      [DeploySpec]: the scan against [Cron]'s occurrences, one sweep end to end, and a
      step relation over sweeps, manual runs and management requests.
    - [Memsync] (internal/memsync/memsync.go, tree.go): paths, content, slugs, the
      listing of the directory and the removal commands.  [MemsyncSpec]: round trips
      with a model of the shell's quoting, and of sha256sum's output.
    - [MemPlan] (internal/memsync/plan.go): the three-way reconciliation; its rule
      table and convergence.
    - [MemSettle] (internal/executor/memory.go): the tables of memory stores, memories
      and versions, and the settlement of the plan in them; [MemSettleSpec]: soundness of
      the tables, truth of the baseline.
    - [Pages] (internal/api/page.go, the tail of sessions.go's listSessions): the tokens
      of paged lists, a list's statement as rows in key order behind a position, and the
      two edges of a page.  [PagesSpec]: tokens round-trip; a walk over tables that change
      neither skips nor repeats; prev_page undoes next_page.
    - [Wire] (internal/api/wire.go, auth.go, page.go): a request, its decode, the checks
      of fields, metadata and query parameters the handlers share.
    - [Memories] (internal/api/memories.go) and [MemoryStores] (memorystores.go,
      memoryversions.go, memoryretention.go): every route on memories, stores and
      versions, and the retention sweep.  [MemoriesSpec]: a contract of the tables' steps
      that all three writers keep; [HistorySpec]: versions as a record, the conditioned
      update, the sweep; [ListSpec]: the list of memories page by page.

    The sandbox and the network:
    - [Frame] (internal/sandbox/frame.go): the framing of a platform script's own
      output.  [FrameSpec]: what is cut out, and when its status counts.
    - [DialGuard] (internal/dialguard/dialguard.go, resolvedial.go): the addresses that
      may be dialled, and the dialler, its race of two families a step relation on their
      outcomes.  [DialGuardSpec]: the refused classes, and where the dialler goes.
    - [Egress] (internal/egress/hostset.go): host names, host sets, entries.
      [EgressSpec]: matching, coverage and storage form.
    - [Gate] (internal/egress/engine.go, mcphost.go, registries.go and
      internal/gate/policy.go): substitution, MCP admission, the request policy.
      [GateSpec]: the policy against a reading of the networking block,
      noninterference of secrets.

    ** Interactions

    A send runs [Inbound], [ToolQuery] and [Inbound]'s routing in [Intake], plans with
    [ToolFlow], places with [SendLayout] and writes with [Log]; [FlowSpec.Settle_foresees]
    joins the plan, the append and the settlement that follows it,
    [IntakeSpec.Receive_sound] the checks and the routing, and the layouts of
    [LayoutSpec] are those built from plans of [ToolFlow].  [ToolSettle] moves a thread
    with [Status].  [Send] composes the four with [Outcomes], [Threadmsg] and [Queue] over
    the tables of [Grading], and [SendSpec.interruptSessionInTx_stops] speaks of all of
    them at once.  The outcome entries are [Grading]'s [tb_evals], decoded; those
    components leave [Log]'s raw copy of the column as it was.  [Turn] and [Delegate] work over the same tables with [Threadmsg]'s
    wakes, [ToolFlow]'s walk and [Grading]'s end of turn; [TurnSpec.surface] is what they
    ask of the tools a turn was offered, and [SurfaceSpec.resolveTools_surface] that
    [Surface] gives it.  [Surface] resolves entries with [Toolset], and the API's checks
    of [AgentSpec] are those its theorems assume of an agent.  [Replay] reads the log in
    [Consumption]'s order.  [InboundSpec.sendable] is the interface [ToolSpec] and [FlowSpec] ask
    of a client's event.  [MemSettle] carries out what [MemPlan] plans over the paths
    [Memsync] validates; its theorems use the plan's rule table.  [Memories] and
    [MemoryStores] write the same tables: [MemoriesSpec.table_step] is the interface the
    routes, the settlement and the sweep are each proved against, and the theorems on the
    tables are inductions over it.  The lists of [Memories] and [MemoryStores] are
    [Pages.fetch] under an order of their own.  [Deploy] asks [Cron] for
    what is due, and [DeploySpec] rests on [CronMain.Due_exact] and [Upcoming_first].  [Gate] asks [Egress]'s
    host sets.  [Status], [Log] and [Inbound] name a session's primary thread with [Ids].

    ** What the theorems show

    - Queue: one live item per session, thread and kind; leases that cannot be
      regained once lost; an item never leaves its state machine; claims and polls hand
      out the oldest eligible item; a stop ends even when its worker has crashed.
    - Status: thread rows are authoritative, the fold is the documented precedence, the
      preview agrees with the transition, and the log announces what happened.
    - Log: numbers are dense, creation times and a batch's stamps never run backwards,
      only stamps of unprocessed rows change; running time is the time spent running; a
      request's start stamps exactly the inputs it reads; pages are exhaustive.
    - Tool calls: a driver runs exactly the calls nothing holds back, a call is
      answered at most once, answers are processed in their calls' order, the plan of a
      send is what its settlement does, a settled thread rests where its calls leave it.
    - A send: what is stored is well formed and can be sent again; answers stand where
      their calls do; an interrupt does the same however it is spelled; every row is
      written once, where its processing puts it; an interrupt of the session ends its
      threads' runs, cancels their work and closes its outcomes, and the platform's own
      does what a client's would, except that it reaches a session a live dream owns, where
      every client's send is refused.
    - Turns: the request is the log's conversation, each answer behind its call, and
      signed thinking goes back only to the model that wrote it; a
      turn that schedules a grading cycle and a harvest that settles under one leave a live
      work item for it, and the cycle's verdict or failure ends the evaluation; at most one
      outcome is active, within its budget, and a terminal one never changes; where its
      children end without a report a coordinator is woken once, by the last of them, while
      a report wakes it at once.
    - Delegation: the commit of a turn answers every call the settlement owns, once, and
      answers no other; its thread goes on with a turn of its own, rests, or waits for calls
      still out, and every thread it woke has a turn;
      live threads keep to their cap; turns nobody feeds are cut, and a thread rests only
      for a reason; a child touches nobody but its coordinator; a session out of budget
      starts no turn.
    - Tools: an agent the API accepts always resolves, to distinct names a request can
      carry; an MCP tool runs unconfirmed only where its entry says so; a server's listing
      adds to what the author declared, inside one budget, and takes no name; the entry a
      response shows enables the same tools under the same policies.  These speak of
      entries that repeat no key, as a jsonb column holds them ([EchoSpec.jsonb_unique]);
      [EchoSpec.repeated_key_wedges] is a request that passes the check at create and
      whose stored form no turn can resolve.
    - Cron: the parser accepts and denotes exactly the grammar; the search terminates
      and finds every occurrence and only those, across daylight-saving changes.
    - Deployments: a sweep fires the latest occurrence due, once; nothing fires early, while
      paused, for what fell due during a pause, or after an archive; every run has a session
      or an error; what a reader sees is what will fire.
    - Memory: the plan is its table and converges; whatever writes the tables, no two
      memories of a store overlap, a memory's head is the version of its content, and the
      cap holds; a version is written once and at most redacted; an archived store takes
      no content; an update overwrites nothing it did not name or was not conditioned on;
      the sweep takes exactly the old versions past the kept ones; a list followed by its
      tokens shows every row that stays, once, in order, and ends; the settlement's
      baseline is truthful, and a sync that may not write does not.
    - Framing: a whole frame is cut out exactly, whatever the command prints around it;
      a stream the cap cut yields a prefix; a status counts only with its frame.
    - Dialling: every address the dialler tries was judged; the guard refuses exactly
      the listed classes, embedded IPv4 addresses included; the race returns one
      connection or an error and closes the rest.
    - Egress: a set admits exactly what its entries name; coverage is sound; the gate's
      decision is the reading of the block and fails closed; a secret its host may not
      see has no influence on what is sent.

    ** Bounds and fuel

    [Prelude.loop] iterates a step at most [2^n] times; the cron walk uses it with a
    bound above the number of minutes in the search horizon, and
    [CronWalk.walk_terminates] proves the loop leaves before it.  [GoStrings.runes] and
    [GoStrings.Replace] recurse on the string's length, and their unfolding lemmas
    ([runes_unfold], [Replace_unfold]) show the fuel is enough.  Everything else is
    structural.

    ** Parameters

    The IANA zone database, Unicode normalization (golang.org/x/text), IDNA conversion
    (golang.org/x/net/idna), SHA-256, the random source, the resolver, the standard
    dialler, the collation of id columns, the parsing of RFC 3339 instants, the database's
    clock and unicode's table of printable runes beyond ASCII are not under the repository: they are arguments, and what a theorem needs
    of them is a named hypothesis with an instance in its witness.  Minted ids are an
    argument, and so is the length of a stored schema as a request writes it.  A map's iteration order is that of [map_to_list] where the result does
    not depend on it.

    ** Not modelled, and next

    Network and container I/O, HTTP, telemetry, provider clients and the SQL schema
    itself.  Of the memory routes: authentication, the scope of a session's token, and a
    dream's clone of a store.  Of a send: the rubric's snapshot, its metrics, its echo and its reads.  Of a
    turn: the stream, its system prompt, files and skills, and the grader's own request;
    of the built-in tools, their static schemas and their drivers; the
    transaction and lock around a settlement are its being one function.  Of a spawned
    agent, the stored snapshot. *)
From stdpp Require Export base gmap strings list sorting.
From Stdlib Require Export ZArith.
From Stdlib Require Import Lia.

#[global] Open Scope Z_scope.

(** ** Results: the (value, error) pairs of the source *)

(** A fallible Go function returns a value or an error; [E] is the type of the
    errors the caller can tell apart. *)
Inductive result (E A : Type) : Type :=
| Ok (a : A)
| Err (e : E).
Arguments Ok {E A} a.
Arguments Err {E A} e.

Declare Scope go_scope.
Delimit Scope go_scope with go.
#[global] Open Scope go_scope.

(** [x, err := c; if err != nil { return err }; k] *)
Notation "'try' x <- c ; k" :=
  (match c with Ok x => k | Err e => Err e end)
    (at level 10, x name, c at level 100, k at level 200)
  : go_scope.

Notation "'try' ' p <- c ; k" :=
  (match c with Ok p => k | Err e => Err e end)
    (at level 10, p strict pattern, c at level 100, k at level 200)
  : go_scope.

Definition is_ok {E A} (r : result E A) : bool :=
  match r with Ok _ => true | Err _ => false end.

(** A step of an error monad is as its first computation leaves it. *)
Lemma bind_ok {E A B} (r : result E A) (f : A -> result E B) b : (try x <- r; f x) = Ok b -> exists a, r = Ok a /\ f a = Ok b.
Proof. destruct r as [a|]; [|done]. eauto. Qed.

(** [for _, x := range l { if err := f(&a, x); err != nil { return err } }] *)
Fixpoint fold_result {E A B} (f : A -> B -> result E A) (a : A) (l : list B) : result E A :=
  match l with
  | [] => Ok a
  | x :: l' => try a' <- f a x; fold_result f a' l'
  end.

(** An invariant of every successful step is an invariant of the loop. *)
Lemma fold_result_inv {E A B} (f : A -> B -> result E A) (P : A -> Prop) l a r :
  (forall a x a', P a -> f a x = Ok a' -> P a') ->
  P a -> fold_result f a l = Ok r -> P r.
Proof.
  intros Hf; revert a; induction l as [|x l IH]; intros a Ha; simpl.
  - intros [= <-]; done.
  - destruct (f a x) eqn:E1; [|done]. eauto.
Qed.

(** The same, where a step may rely on its element being one of the list's. *)
Lemma fold_result_in {E A B} (f : A -> B -> result E A) (P : A -> Prop) l : forall a r,
  (forall a x a', x ∈ l -> P a -> f a x = Ok a' -> P a') -> P a -> fold_result f a l = Ok r -> P r.
Proof.
  induction l as [|x l IH]; intros a r Hf Ha; cbn; [by intros [= <-]|]. intros (a' & Hx & Hr)%bind_ok.
  eapply IH; [|by eapply Hf; [left|..]|done]. intros. eapply Hf; [by right|done|done].
Qed.

(** Steps that never fail make a loop that does not. *)
Lemma fold_result_total {E A B} (f : A -> B -> result E A) l : forall a, (forall a x, x ∈ l -> exists a', f a x = Ok a') -> exists r, fold_result f a l = Ok r.
Proof.
  induction l as [|x l IH]; intros a H; [by exists a|]. cbn. destruct (H a x ltac:(left)) as (a' & ->). apply IH. intros. apply H. by right.
Qed.

(** ** [omap] *)

Lemma omap_map {A B C} (f : B -> option C) (g : A -> B) (l : list A) : omap f (map g l) = omap (fun x => f (g x)) l.
Proof. induction l as [|x l IH]; [done|]. cbn. by rewrite <- IH. Qed.

Lemma omap_ext_in {A B} (f g : A -> option B) (l : list A) : (forall x, x ∈ l -> f x = g x) -> omap f l = omap g l.
Proof.
  induction l as [|x l IH]; intros H; [done|]. cbn [omap list_omap]. rewrite (H x) by left.
  by rewrite IH by (intros; apply H; by right).
Qed.

Lemma omap_marked {A B} (P : A -> bool) (f : A -> option B) x l :
  (forall s, s ∈ l -> f s = if P s then Some x else None) -> omap f l = replicate (length (filter (fun s => P s = true) l)) x.
Proof.
  induction l as [|s l IH]; intros H; [done|]. cbn [omap list_omap]. rewrite (H s) by left. specialize (IH (fun s h => H s ltac:(by right))).
  destruct (P s) eqn:E; [rewrite filter_cons_True by done; cbn; by f_equal|by rewrite filter_cons_False by congruence].
Qed.

(** ** Automation *)

(** The hint database of the development: facts that close side conditions. *)
Create HintDb go.

(** Boolean guards become propositions. *)
Ltac bool_prop :=
  repeat match goal with
  | H : _ && _ = true |- _ => apply andb_true_iff in H; destruct H
  | H : _ || _ = false |- _ => apply orb_false_iff in H; destruct H
  | H : negb _ = true |- _ => apply negb_true_iff in H
  | H : negb _ = false |- _ => apply negb_false_iff in H
  | H : (_ <? _) = true |- _ => apply Z.ltb_lt in H
  | H : (_ <? _) = false |- _ => apply Z.ltb_ge in H
  | H : (_ <=? _) = true |- _ => apply Z.leb_le in H
  | H : (_ <=? _) = false |- _ => apply Z.leb_gt in H
  | H : (_ =? _) = true |- _ => apply Z.eqb_eq in H
  | H : (_ =? _) = false |- _ => apply Z.eqb_neq in H
  | H : (_ >? _) = true |- _ => rewrite Z.gtb_ltb in H
  | H : (_ >? _) = false |- _ => rewrite Z.gtb_ltb in H
  | H : bool_decide _ = true |- _ => apply bool_decide_eq_true in H
  | H : bool_decide _ = false |- _ => apply bool_decide_eq_false in H
  end.

(** Split the guards of the goal, one at a time, and turn each into a proposition. *)
Ltac split_ifs :=
  repeat match goal with
  | |- context [if ?b then _ else _] =>
      let H := fresh "Hif" in destruct b eqn:H
  end; bool_prop.

(** ** Bounded iteration

    A Go [for] loop whose number of turns is not structural is a step function
    iterated at most [2^n] times: [inl] is "go round again", [inr] is "leave the
    loop with this value".  The recursion is on the exponent, so a bound in the
    millions costs a few dozen constructors and the definition stays executable. *)
Section loop.
Context {S R : Type} (step : S -> S + R).

Fixpoint loop (n : nat) (s : S) : S + R :=
  match n with
  | O => step s
  | Datatypes.S n' =>
      match loop n' s with
      | inl s' => loop n' s'
      | inr r => inr r
      end
  end.

(** Partial correctness: [P] is a loop invariant, [Q] holds on every exit. *)
Lemma loop_inv (P : S -> Prop) (Q : R -> Prop) n s :
  (forall s s', P s -> step s = inl s' -> P s') ->
  (forall s r, P s -> step s = inr r -> Q r) ->
  P s -> match loop n s with inl s' => P s' | inr r => Q r end.
Proof.
  intros HP HQ; revert s; induction n as [|n IH]; intros s Hs; simpl.
  - destruct (step s) eqn:E1; eauto.
  - specialize (IH s Hs) as H1. destruct (loop n s) eqn:E1; [|done].
    by apply IH.
Qed.

(** A measure that decreases on every turn bounds the number of turns. *)
Lemma loop_measure (P : S -> Prop) (m : S -> Z) n s s' :
  (forall s s', P s -> step s = inl s' -> P s' /\ m s' < m s) ->
  P s -> loop n s = inl s' -> P s' /\ m s' + 2 ^ Z.of_nat n <= m s.
Proof.
  intros Hd; revert s s'; induction n as [|n IH]; intros s s' Hs; simpl.
  - intros E1. destruct (Hd _ _ Hs E1). split; [done|lia].
  - destruct (loop n s) as [s1|] eqn:E1; [|done]. intros E2.
    destruct (IH _ _ Hs E1) as [H1 ?]. destruct (IH _ _ H1 E2) as [? ?].
    split; [done|]. rewrite Nat2Z.inj_succ, Z.pow_succ_r by lia. lia.
Qed.

(** Total correctness: enough fuel for the measure, and the loop exits. *)
Lemma loop_total (P : S -> Prop) (Q : R -> Prop) (m : S -> Z) n s :
  (forall s s', P s -> step s = inl s' -> P s' /\ m s' < m s) ->
  (forall s r, P s -> step s = inr r -> Q r) ->
  (forall s, P s -> 0 <= m s) ->
  P s -> m s < 2 ^ Z.of_nat n ->
  exists r, loop n s = inr r /\ Q r.
Proof.
  intros Hd HQ Hm Hs Hlt.
  pose proof (loop_inv P Q n s (fun s s' H E => proj1 (Hd s s' H E)) HQ Hs) as H.
  destruct (loop n s) as [s'|r] eqn:E1; [|eauto].
  destruct (loop_measure P m n s s' Hd Hs E1) as [Hs' ?].
  specialize (Hm _ Hs'). lia.
Qed.
End loop.

(** ** Lists *)

(** A strictly ascending list repeats nothing. *)
Lemma strictly_sorted_NoDup {A} (R : relation A) `{!Irreflexive R} (l : list A) : StronglySorted R l -> NoDup l.
Proof.
  induction 1 as [|x l _ IH Hx]; constructor; [|done].
  intros Hin. rewrite Forall_forall in Hx. by apply (irreflexivity R x), Hx.
Qed.

(** Two strictly ascending lists with the same members are one list. *)
Lemma strictly_sorted_ext {A} (R : relation A) `{!Irreflexive R, !Transitive R} (l1 l2 : list A) :
  StronglySorted R l1 -> StronglySorted R l2 ->
  (forall x, x ∈ l1 <-> x ∈ l2) -> l1 = l2.
Proof.
  intros H1 H2 Hm. apply (StronglySorted_unique_strong R); [|done..|].
  - intros x y _ _ Hxy Hyx. by destruct (irreflexivity R x); trans y.
  - apply NoDup_Permutation; [by eapply strictly_sorted_NoDup..|done].
Qed.

(** Filtering keeps a list sorted; all of it, or none. *)
Lemma filter_all_true {A} (P : A -> Prop) `{forall x, Decision (P x)} l : Forall P l -> filter P l = l.
Proof. induction 1 as [|x l Hx _ IH]; [done|]. by rewrite filter_cons_True, IH. Qed.

Lemma filter_all_false {A} (P : A -> Prop) `{forall x, Decision (P x)} l : Forall (fun x => ~ P x) l -> filter P l = [].
Proof. induction 1 as [|x l Hx _ IH]; [done|]. by rewrite filter_cons_False. Qed.

Lemma StronglySorted_filter {A} (R : relation A) (P : A -> Prop) `{forall x, Decision (P x)} l :
  StronglySorted R l -> StronglySorted R (filter P l).
Proof.
  induction 1 as [|x l _ IH Hx]; [constructor|].
  rewrite filter_cons. case_decide; [|done]. constructor; [done|].
  rewrite Forall_forall in Hx |- *. intros y [_ Hy]%list_elem_of_filter. auto.
Qed.

Lemma StronglySorted_take {A} (R : relation A) n (l : list A) :
  StronglySorted R l -> StronglySorted R (take n l).
Proof.
  intros H. rewrite <- (take_drop n l) in H. by apply StronglySorted_app_1_l in H.
Qed.

Lemma StronglySorted_sublist {A} (R : relation A) (l1 l2 : list A) :
  l1 `sublist_of` l2 -> StronglySorted R l2 -> StronglySorted R l1.
Proof.
  induction 1 as [|x l1 l2 Hsub IH|x l1 l2 Hsub IH]; inversion 1 as [|? ? ? Hx]; subst; [constructor|..|auto].
  constructor; [auto|]. rewrite Forall_forall in Hx |- *. intros y Hy. apply Hx.
  by eapply sublist_subseteq.
Qed.

(** *** Stable sorting ([slices.SortStableFunc])

    Insertion from the right: an element stops ahead of the first one it is not above, so
    equal elements keep their order.  Every stable sort returns this list. *)
Section sort_stable.
Context {A : Type} (R : relation A) `{forall x y, Decision (R x y)}.

Fixpoint sort_insert (x : A) (l : list A) : list A :=
  match l with
  | [] => [x]
  | y :: l' => if decide (R x y) then x :: l else y :: sort_insert x l'
  end.

Definition sort_stable (l : list A) : list A := foldr sort_insert [] l.

Lemma sort_insert_perm x l : sort_insert x l ≡ₚ x :: l.
Proof.
  induction l as [|y l IH]; [done|]. cbn. case_decide; [done|]. rewrite IH. constructor.
Qed.

Lemma sort_stable_perm l : sort_stable l ≡ₚ l.
Proof. induction l as [|x l IH]; [done|]. cbn. by rewrite sort_insert_perm, IH. Qed.

Lemma sort_stable_sorted `{!Total R, !Transitive R} l : StronglySorted R (sort_stable l).
Proof.
  induction l as [|x l IH]; [constructor|]. cbn. fold (sort_stable l). revert IH.
  generalize (sort_stable l). clear l. intros l. induction 1 as [|y l Hl IH Hy]; cbn; [by repeat constructor|].
  case_decide as Hd.
  - constructor; [by constructor|]. constructor; [done|]. eapply Forall_impl; [exact Hy|]. intros z ?. by trans y.
  - constructor; [done|]. rewrite (sort_insert_perm x l). constructor; [|done].
    by destruct (total R x y).
Qed.

(** Elements that are all below one another keep their order. *)
Lemma sort_stable_filter (P : A -> Prop) `{forall x, Decision (P x)} l :
  (forall x y, P x -> P y -> R x y) -> filter P (sort_stable l) = filter P l.
Proof.
  intros HP. induction l as [|x l IH]; [done|]. cbn. fold (sort_stable l).
  assert (Hins : forall l, filter P (sort_insert x l) = filter P (x :: l)).
  { clear l IH. induction l as [|y l IH]; [done|]. cbn [sort_insert]. case_decide as Hd; [done|].
    rewrite filter_cons, IH, !filter_cons. repeat case_decide; try done. by destruct Hd; apply HP. }
  rewrite Hins, !filter_cons. by rewrite IH.
Qed.

Lemma sort_stable_nil : sort_stable [] = [].
Proof. done. Qed.
End sort_stable.
