(* ===== verification/GoStrings.v ===== *)
(** * GoStrings: the parts of Go's [strings], [strconv], [unicode] and
    [unicode/utf8] packages the modelled code uses.

    A Go string is a sequence of bytes, and so is a Rocq [string] (an [ascii] is
    eight bits), so literals, lengths and byte order agree.  Functions that work on
    runes go through [runes], the decoding a [for _, r := range s] loop performs:
    an invalid byte is the rune U+FFFD of width one. *)
From stdpp Require Import base strings list.
From Stdlib Require Import Ascii Lia.
From Stdlib Require String.
From S2P Require Import Prelude.

#[global] Arguments String.append !_ _ / : simpl nomatch.

Definition ord (c : ascii) : Z := Z.of_N (N_of_ascii c).

(** [len(s)], in bytes. *)
Definition slen (s : string) : Z := Z.of_nat (String.length s).

(** ** Prefixes, suffixes and substrings *)

(** [strings.CutPrefix]: the rest after prefix [p], if [s] has it. *)
Fixpoint CutPrefix (s p : string) : option string :=
  match p, s with
  | EmptyString, _ => Some s
  | String a p', String b s' => if Ascii.eqb a b then CutPrefix s' p' else None
  | String _ _, EmptyString => None
  end.

Definition HasPrefix (s p : string) : bool :=
  match CutPrefix s p with Some _ => true | None => false end.

Definition TrimPrefix (s p : string) : string :=
  match CutPrefix s p with Some r => r | None => s end.

Fixpoint HasSuffix (s t : string) : bool :=
  String.eqb s t ||
  match s with EmptyString => false | String _ s' => HasSuffix s' t end.

Fixpoint TrimSuffix (s t : string) : string :=
  if String.eqb s t then EmptyString
  else match s with EmptyString => EmptyString | String c s' => String c (TrimSuffix s' t) end.

(** [strings.TrimLeft] with a one-byte cutset. *)
Fixpoint TrimLeft (s : string) (c : ascii) : string :=
  match s with
  | EmptyString => EmptyString
  | String a s' => if Ascii.eqb a c then TrimLeft s' c else s
  end.

(** [strings.Contains]. *)
Fixpoint Contains (s sub : string) : bool :=
  HasPrefix s sub ||
  match s with EmptyString => false | String _ s' => Contains s' sub end.

(** [strings.Cut] at a one-byte separator: before, after, found. *)
Fixpoint Cut (s : string) (c : ascii) : string * string * bool :=
  match s with
  | EmptyString => (EmptyString, EmptyString, false)
  | String a s' =>
      if Ascii.eqb a c then (EmptyString, s', true)
      else let '(b, r, f) := Cut s' c in (String a b, r, f)
  end.

(** [strings.Split] at a one-byte separator: never the empty list. *)
Fixpoint Split (s : string) (c : ascii) : list string :=
  match s with
  | EmptyString => [EmptyString]
  | String a s' =>
      if Ascii.eqb a c then EmptyString :: Split s' c
      else match Split s' c with
           | [] => [String a EmptyString]
           | l :: ls => String a l :: ls
           end
  end.

(** [strings.ReplaceAll] of one byte by a string. *)
Fixpoint ReplaceByte (s : string) (c : ascii) (new : string) : string :=
  match s with
  | EmptyString => EmptyString
  | String a s' => (if Ascii.eqb a c then new else String a EmptyString) +:+ ReplaceByte s' c new
  end.

(** [strings.Join]. *)
Fixpoint Join (l : list string) (sep : string) : string :=
  match l with
  | [] => EmptyString
  | [x] => x
  | x :: l' => x +:+ sep +:+ Join l' sep
  end.

(** Every byte of [s] satisfies [p]. *)
Fixpoint all_bytes (p : ascii -> bool) (s : string) : bool :=
  match s with EmptyString => true | String a s' => p a && all_bytes p s' end.

(** [s[:n]] and [s[n:]] on a string at least [n] bytes long. *)
Fixpoint take_bytes (n : nat) (s : string) : string :=
  match n, s with
  | S n', String a s' => String a (take_bytes n' s')
  | _, _ => EmptyString
  end.

Fixpoint drop_bytes (n : nat) (s : string) : string :=
  match n, s with
  | S n', String _ s' => drop_bytes n' s'
  | _, _ => s
  end.

(** [strings.Index] and [strings.LastIndex]: the first and the last offset of [sep]. *)
Fixpoint Index (s sep : string) : option nat :=
  if HasPrefix s sep then Some O
  else match s with EmptyString => None | String _ s' => S <$> Index s' sep end.

Fixpoint LastIndex (s sep : string) : option nat :=
  match s with
  | EmptyString => if HasPrefix s sep then Some O else None
  | String _ s' =>
      match LastIndex s' sep with
      | Some i => Some (S i)
      | None => if HasPrefix s sep then Some O else None
      end
  end.

(** ** UTF-8 *)

Definition in_range (lo hi x : Z) : bool := (lo <=? x) && (x <=? hi).

(** The low six bits of a continuation byte. *)
Definition cont_bits (c : ascii) : Z := Z.land (ord c) 63.
Definition is_cont (c : ascii) : bool := in_range 128 191 (ord c).

Definition RuneError : Z := 65533.

(** [utf8.DecodeRuneInString]: the rune, its bytes and the rest. *)
Definition decode_rune (s : string) : option (Z * string * string) :=
  match s with
  | EmptyString => None
  | String a s1 =>
      let b0 := ord a in
      let bad := Some (RuneError, String a EmptyString, s1) in
      if b0 <? 128 then Some (b0, String a EmptyString, s1)
      else if in_range 194 223 b0 then
        match s1 with
        | String b s2 =>
            if is_cont b
            then Some (Z.lor (Z.shiftl (Z.land b0 31) 6) (cont_bits b), String a (String b EmptyString), s2)
            else bad
        | _ => bad
        end
      else if in_range 224 239 b0 then
        match s1 with
        | String b (String c s3) =>
            let lo := if b0 =? 224 then 160 else 128 in
            let hi := if b0 =? 237 then 159 else 191 in
            if in_range lo hi (ord b) && is_cont c
            then Some (Z.lor (Z.shiftl (Z.land b0 15) 12) (Z.lor (Z.shiftl (cont_bits b) 6) (cont_bits c)),
                       String a (String b (String c EmptyString)), s3)
            else bad
        | _ => bad
        end
      else if in_range 240 244 b0 then
        match s1 with
        | String b (String c (String d s4)) =>
            let lo := if b0 =? 240 then 144 else 128 in
            let hi := if b0 =? 244 then 143 else 191 in
            if in_range lo hi (ord b) && is_cont c && is_cont d
            then Some (Z.lor (Z.shiftl (Z.land b0 7) 18)
                         (Z.lor (Z.shiftl (cont_bits b) 12) (Z.lor (Z.shiftl (cont_bits c) 6) (cont_bits d))),
                       String a (String b (String c (String d EmptyString))), s4)
            else bad
        | _ => bad
        end
      else bad
  end.

(** The runes of [s] in order, each with the bytes it was decoded from. *)
Fixpoint runes_go (fuel : nat) (s : string) : list (Z * string) :=
  match fuel with
  | O => []
  | S fuel' =>
      match decode_rune s with
      | None => []
      | Some (r, b, rest) => (r, b) :: runes_go fuel' rest
      end
  end.

Definition runes (s : string) : list (Z * string) := runes_go (String.length s) s.

(** The bytes of a run of decoded runes. *)
Definition bytes_of (rs : list (Z * string)) : string :=
  foldr (fun rb acc => rb.2 +:+ acc) EmptyString rs.

(** [utf8.ValidString]: no rune is the width-one U+FFFD of an invalid byte. *)
Definition ValidString (s : string) : bool :=
  forallb (fun rb => negb ((rb.1 =? RuneError) && Nat.eqb (String.length rb.2) 1)) (runes s).

(** ** Unicode classes *)

Definition in_table (t : list (Z * Z)) (r : Z) : bool :=
  existsb (fun '(lo, hi) => in_range lo hi r) t.

(** [unicode.IsSpace]. *)
Definition IsSpace (r : Z) : bool :=
  in_table [(9, 13); (32, 32); (133, 133); (160, 160); (5760, 5760); (8192, 8202);
            (8232, 8233); (8239, 8239); (8287, 8287); (12288, 12288)] r.

(** [unicode.Cc] and [unicode.Cf]. *)
Definition unicode_Cc (r : Z) : bool := in_table [(0, 31); (127, 159)] r.
Definition unicode_Cf (r : Z) : bool :=
  in_table [(173, 173); (1536, 1541); (1564, 1564); (1757, 1757); (1807, 1807); (2192, 2193);
            (2274, 2274); (6158, 6158); (8203, 8207); (8234, 8238); (8288, 8292); (8294, 8303);
            (65279, 65279); (65529, 65531); (69821, 69821); (69837, 69837); (78896, 78911);
            (113824, 113827); (119155, 119162); (917505, 917505); (917536, 917631)] r.

(** [strings.TrimSpace]. *)
Fixpoint drop_space (rs : list (Z * string)) : list (Z * string) :=
  match rs with
  | rb :: rs' => if IsSpace rb.1 then drop_space rs' else rs
  | [] => []
  end.

Definition TrimSpace (s : string) : string :=
  bytes_of (rev (drop_space (rev (drop_space (runes s))))).

(** [strings.Fields]: the maximal runs of non-space runes. *)
Fixpoint fields_go (cur : string) (rs : list (Z * string)) : list string :=
  match rs with
  | [] => if String.eqb cur EmptyString then [] else [cur]
  | rb :: rs' =>
      if IsSpace rb.1 then
        if String.eqb cur EmptyString then fields_go EmptyString rs'
        else cur :: fields_go EmptyString rs'
      else fields_go (cur +:+ rb.2) rs'
  end.

Definition Fields (s : string) : list string := fields_go EmptyString (runes s).

(** ** Integers *)

Definition max_int : Z := 2 ^ 63 - 1.
Definition min_int : Z := - 2 ^ 63.

(** Two's complement wrap-around of a 64-bit [int]. *)
Definition wrap64 (z : Z) : Z := (z + 2 ^ 63) mod 2 ^ 64 - 2 ^ 63.

Fixpoint digits (acc : Z) (s : string) : option Z :=
  match s with
  | EmptyString => Some acc
  | String a s' =>
      if in_range 48 57 (ord a) then digits (10 * acc + (ord a - 48)) s' else None
  end.

(** [strconv.Atoi]: an optional sign, at least one digit, in range. *)
Definition Atoi (s : string) : option Z :=
  let signed (sign : Z) (body : string) :=
    match body with
    | EmptyString => None
    | _ =>
        match digits 0 body with
        | Some v => let z := sign * v in if in_range min_int max_int z then Some z else None
        | None => None
        end
    end in
  match s with
  | String "-" body => signed (-1) body
  | String "+" body => signed 1 body
  | _ => signed 1 s
  end.

(** ** Replacing

    [strings.NewReplacer(old1, new1, ...).Replace(s)]: one pass from left to right.
    At each position the first pair whose old string starts there wins, its new
    string is written and the pass goes on behind the old one; what was written is
    never looked at again.  An empty old string matches at every position, but not
    twice in a row at the same one. *)
Fixpoint replacer_lookup (pairs : list (string * string)) (ignoreEmpty : bool) (s : string)
  : option (string * string) :=
  match pairs with
  | [] => None
  | (old, new) :: pairs' =>
      if HasPrefix s old && negb (ignoreEmpty && String.eqb old EmptyString)
      then Some (old, new) else replacer_lookup pairs' ignoreEmpty s
  end.

Fixpoint replacer_go (fuel : nat) (pairs : list (string * string)) (prevEmpty : bool) (s : string)
  : string :=
  match fuel with
  | O => s
  | S fuel' =>
      match replacer_lookup pairs prevEmpty s with
      | Some (old, new) =>
          if String.eqb old EmptyString then new +:+ replacer_go fuel' pairs true s
          else new +:+ replacer_go fuel' pairs false (TrimPrefix s old)
      | None =>
          match s with
          | EmptyString => EmptyString
          | String c s' => String c (replacer_go fuel' pairs false s')
          end
      end
  end.

(** Two turns take at least one byte off, so [2 * len + 2] turns are enough. *)
Definition Replace (pairs : list (string * string)) (s : string) : string :=
  replacer_go (2 * String.length s + 2) pairs false s.

(** ** Lemmas *)

Lemma append_assoc (a b c : string) : (a +:+ b) +:+ c = a +:+ (b +:+ c).
Proof. induction a as [|x a IH]; simpl; [done|by rewrite IH]. Qed.

Lemma append_nil_r (a : string) : a +:+ EmptyString = a.
Proof. induction a as [|x a IH]; simpl; [done|by rewrite IH]. Qed.

Lemma length_append (a b : string) :
  String.length (a +:+ b) = (String.length a + String.length b)%nat.
Proof. induction a as [|x a IH]; simpl; [done|by rewrite IH]. Qed.

Lemma slen_append a b : slen (a +:+ b) = slen a + slen b.
Proof. unfold slen. rewrite length_append. lia. Qed.

Lemma slen_nonneg s : 0 <= slen s.
Proof. unfold slen. lia. Qed.

Lemma append_inj_r (a b c : string) : a +:+ b = a +:+ c -> b = c.
Proof. induction a as [|x a IH]; simpl; [done|intros [=]; auto]. Qed.

Lemma append_inj_l (a b c : string) : a +:+ c = b +:+ c -> a = b.
Proof.
  revert b; induction a as [|x a IH]; intros [|y b]; simpl.
  - done.
  - intros H. apply (f_equal String.length) in H. simpl in H. rewrite length_append in H. lia.
  - intros H. apply (f_equal String.length) in H. simpl in H. rewrite length_append in H. lia.
  - intros [= -> H]. f_equal. auto.
Qed.

Lemma CutPrefix_Some s p r : CutPrefix s p = Some r <-> s = p +:+ r.
Proof.
  revert s; induction p as [|a p IH]; intros s; simpl.
  - destruct s; naive_solver.
  - destruct s as [|b s]; simpl; [split; congruence|].
    destruct (Ascii.eqb_spec a b) as [->|Hne]; [rewrite IH|]; split; congruence.
Qed.

Lemma HasPrefix_spec s p : HasPrefix s p = true <-> exists r, s = p +:+ r.
Proof.
  unfold HasPrefix. destruct (CutPrefix s p) as [r|] eqn:E1.
  - apply CutPrefix_Some in E1. naive_solver.
  - split; [done|]. intros [r Hr]. apply CutPrefix_Some in Hr. congruence.
Qed.

Lemma HasSuffix_spec s t : HasSuffix s t = true <-> exists r, s = r +:+ t.
Proof.
  induction s as [|c s IH]; cbn [HasSuffix]; rewrite orb_true_iff, String.eqb_eq.
  - split; [intros [<-|?]; [by exists EmptyString|done]|].
    intros [[|] Hr]; simpl in Hr; [by left|done].
  - rewrite IH. split.
    + intros [<-|[r ->]]; [by exists EmptyString|by exists (String c r)].
    + intros [[|x r] Hr]; simpl in Hr; [by left|]. injection Hr as -> ->. right; eauto.
Qed.

Lemma TrimSuffix_spec s t :
  (exists r, s = r +:+ t /\ TrimSuffix s t = r) \/
  (HasSuffix s t = false /\ TrimSuffix s t = s).
Proof.
  induction s as [|c s IH]; cbn [TrimSuffix].
  - destruct (String.eqb_spec EmptyString t) as [<-|Hne].
    + left. by exists EmptyString.
    + right. split; [|done]. cbn [HasSuffix].
      by destruct (String.eqb_spec EmptyString t).
  - destruct (String.eqb_spec (String c s) t) as [<-|Hne].
    + left. by exists EmptyString.
    + destruct IH as [(r & -> & Hr)|[IH1 IH2]].
      * left. exists (String c r). simpl. by rewrite Hr.
      * right. cbn [HasSuffix]. rewrite IH1, IH2.
        by destruct (String.eqb_spec (String c s) t).
Qed.

Lemma Contains_spec s sub : Contains s sub = true <-> exists a b, s = a +:+ sub +:+ b.
Proof.
  induction s as [|c s IH]; simpl; rewrite orb_true_iff, HasPrefix_spec.
  - split.
    + intros [[r Hr]|?]; [by exists EmptyString, r|done].
    + intros ([|] & b & Hb); simpl in Hb; [left; eauto|done].
  - rewrite IH. split.
    + intros [[r Hr]|(a & b & ->)]; [by exists EmptyString, r|by exists (String c a), b].
    + intros ([|x a] & b & Hb); simpl in Hb; [left; eauto|].
      injection Hb as -> ->. right; eauto.
Qed.

Lemma Cut_found s c b r : Cut s c = (b, r, true) -> s = b +:+ String c r.
Proof.
  revert b; induction s as [|a s IH]; intros b; simpl; [done|].
  destruct (Ascii.eqb_spec a c) as [->|Hne]; [naive_solver|].
  destruct (Cut s c) as [[b' r'] f']. intros [= <- <- ->]. simpl. by rewrite <- (IH b').
Qed.

Lemma Cut_not_found s c b r : Cut s c = (b, r, false) -> b = s /\ r = EmptyString.
Proof.
  revert b; induction s as [|a s IH]; intros b; simpl; [naive_solver|].
  destruct (Ascii.eqb_spec a c) as [->|Hne]; [naive_solver|].
  destruct (Cut s c) as [[b' r'] f']. intros [= <- <- ->].
  destruct (IH b') as [-> ->]; [done|]. done.
Qed.

Lemma decode_rune_append s r b rest : decode_rune s = Some (r, b, rest) -> s = b +:+ rest.
Proof.
  unfold decode_rune. intros H.
  repeat match goal with
  | H : context [match ?x with _ => _ end] |- _ => destruct x; simplify_eq/=; try done
  end.
Qed.

Lemma decode_rune_shorter s r b rest :
  decode_rune s = Some (r, b, rest) -> (String.length rest < String.length s)%nat.
Proof.
  unfold decode_rune. intros H.
  repeat match goal with
  | H : context [match ?x with _ => _ end] |- _ => destruct x; simplify_eq/=; try lia
  end.
Qed.

Lemma runes_go_bytes n s : (String.length s <= n)%nat -> bytes_of (runes_go n s) = s.
Proof.
  revert s; induction n as [|n IH]; intros s Hn; simpl.
  - destruct s; simpl in *; [done|lia].
  - destruct (decode_rune s) as [[[r b] rest]|] eqn:E1.
    + pose proof (decode_rune_shorter _ _ _ _ E1).
      apply decode_rune_append in E1 as ->. simpl. rewrite IH; [done|].
      rewrite length_append in *. lia.
    + destruct s; [done|]. exfalso. revert E1. unfold decode_rune.
      repeat case_match; done.
Qed.

(** Decoding loses nothing: the runes' bytes are the string. *)
Lemma runes_bytes s : bytes_of (runes s) = s.
Proof. by apply runes_go_bytes. Qed.

(** Splitting loses nothing either. *)
Lemma Split_Join s c : Join (Split s c) (String c EmptyString) = s.
Proof.
  induction s as [|a s IH]; simpl; [done|].
  destruct (Split s c) as [|x l] eqn:E1.
  { exfalso. revert E1. destruct s; simpl; [done|]. repeat case_match; done. }
  destruct (Ascii.eqb_spec a c) as [->|Hne].
  - simpl in *. by rewrite IH.
  - destruct l; simpl in *; by rewrite <- IH.
Qed.

(** No piece of a split holds the separator. *)
Lemma Split_no_sep s c p : p ∈ Split s c -> all_bytes (fun a => negb (Ascii.eqb a c)) p = true.
Proof.
  revert p; induction s as [|a s IH]; intros p; simpl.
  - by intros ->%list_elem_of_singleton.
  - destruct (Ascii.eqb_spec a c) as [->|Hne].
    + rewrite elem_of_cons. naive_solver.
    + destruct (Split s c) as [|x l] eqn:E1.
      * intros ->%list_elem_of_singleton. simpl.
        by destruct (Ascii.eqb_spec a c).
      * rewrite elem_of_cons. intros [->|Hp].
        -- simpl. destruct (Ascii.eqb_spec a c); [done|]. simpl. apply IH. by left.
        -- apply IH. by right.
Qed.

(** ** Bytes *)

Lemma all_bytes_app p a b : all_bytes p (a +:+ b) = all_bytes p a && all_bytes p b.
Proof. induction a as [|c a IH]; simpl; [done|]. by rewrite IH, andb_assoc. Qed.

Lemma all_bytes_impl (p q : ascii -> bool) s :
  (forall a, p a = true -> q a = true) -> all_bytes p s = true -> all_bytes q s = true.
Proof.
  intros H. induction s as [|a s IH]; simpl; [done|]. intros ?. bool_prop.
  rewrite (H a), IH by done. done.
Qed.

(** [s] does not hold the byte [c]. *)
Definition no_byte (c : ascii) (s : string) : Prop := all_bytes (fun a => negb (Ascii.eqb a c)) s = true.

Lemma Cut_at b c r : no_byte c b -> Cut (b +:+ String c r) c = (b, r, true).
Proof.
  unfold no_byte. induction b as [|a b IH]; simpl; intros H.
  - by rewrite Ascii.eqb_refl.
  - bool_prop. rewrite H, IH by done. done.
Qed.

Lemma Cut_none b c : no_byte c b -> Cut b c = (b, EmptyString, false).
Proof.
  unfold no_byte. induction b as [|a b IH]; simpl; intros H; [done|].
  bool_prop. rewrite H, IH by done. done.
Qed.

(** An ASCII string decodes byte by byte. *)
Lemma runes_ascii s :
  all_bytes (fun c => ord c <? 128) s = true ->
  runes s = map (fun c => (ord c, String c EmptyString)) (String.list_ascii_of_string s).
Proof.
  unfold runes. induction s as [|c s IH]; simpl; [done|].
  intros [Hc Hs]%andb_true_iff. rewrite Hc. by rewrite IH.
Qed.

(** Nothing is trimmed off a string of visible ASCII bytes. *)
Lemma TrimSpace_visible s :
  all_bytes (fun c => in_range 33 126 (ord c)) s = true -> TrimSpace s = s.
Proof.
  intros Hv.
  assert (Hns : Forall (fun rb => IsSpace rb.1 = false) (runes s)).
  { rewrite runes_ascii.
    - clear -Hv. induction s as [|c s IH]; simpl; [constructor|].
      simpl in Hv. apply andb_true_iff in Hv as [Hc Hs]. constructor; [|auto]. simpl.
      unfold in_range in Hc. bool_prop. unfold IsSpace, in_table, in_range. simpl.
      repeat (rewrite orb_false_iff; split); try done; apply andb_false_iff; rewrite ?Z.leb_gt; lia.
    - eapply all_bytes_impl; [|done]. intros c. unfold in_range. intros ?; bool_prop. by apply Z.ltb_lt; lia. }
  assert (Hd : forall l, Forall (fun rb : Z * string => IsSpace rb.1 = false) l -> drop_space l = l).
  { intros [|x l] Hl; [done|]. apply Forall_cons in Hl as [Hx _]. simpl. by rewrite Hx. }
  unfold TrimSpace. rewrite (Hd (runes s)) by done.
  rewrite Hd by (by apply Forall_rev). rewrite rev_involutive. apply runes_bytes.
Qed.

(** ** Decoding a part of a string *)

Lemma runes_go_fuel n m s :
  (String.length s <= n)%nat -> (String.length s <= m)%nat -> runes_go n s = runes_go m s.
Proof.
  revert m s; induction n as [|n IH]; intros [|m] s Hn Hm; simpl; [done|..].
  - by destruct s; [|simpl in *; lia].
  - by destruct s; [|simpl in *; lia].
  - destruct (decode_rune s) as [[[r b] rest]|] eqn:E1; [|done].
    apply decode_rune_shorter in E1. f_equal. apply IH; lia.
Qed.

Lemma runes_unfold s :
  runes s = match decode_rune s with
            | None => [] | Some (r, b, rest) => (r, b) :: runes rest end.
Proof.
  unfold runes. rewrite (runes_go_fuel _ (S (String.length s))) by lia. simpl.
  destruct (decode_rune s) as [[[r b] rest]|] eqn:E1; [|done].
  apply decode_rune_shorter in E1. f_equal. apply runes_go_fuel; lia.
Qed.

(** What follows a rune's bytes has no say in how they decode, nor has cutting it short. *)
Lemma decode_rune_cut w v r b rest :
  decode_rune (w +:+ v) = Some (r, b, rest) -> (String.length b <= String.length w)%nat ->
  exists rest', decode_rune w = Some (r, b, rest') /\ rest = rest' +:+ v.
Proof.
  destruct w as [|a w]; simpl.
  { intros E1 Hb. exfalso. revert E1 Hb. destruct v; [done|]. unfold decode_rune.
    repeat case_match; intros ?; simplify_eq/=; lia. }
  unfold decode_rune.
  destruct w as [|a1 [|a2 [|a3 w]]]; simpl; intros H Hb;
  repeat match goal with
  | H : context [match ?x with _ => _ end] |- _ => destruct x eqn:?; simplify_eq/=; try lia
  end; eauto.
Qed.

Lemma runes_parts l1 l2 s :
  runes s = l1 ++ l2 -> runes (bytes_of l1) = l1 /\ runes (bytes_of l2) = l2.
Proof.
  revert s; induction l1 as [|[r b] l1 IH]; intros s Hs.
  - split; [done|]. simpl in Hs. rewrite <- Hs at 1. by rewrite runes_bytes.
  - rewrite runes_unfold in Hs. destruct (decode_rune s) as [[[r' b'] rest]|] eqn:E1; [|done].
    simpl in Hs. injection Hs as -> -> Hs. destruct (IH _ Hs) as [IH1 IH2]. split; [|done].
    pose proof (decode_rune_append _ _ _ _ E1) as ->.
    assert (Hrest : rest = bytes_of l1 +:+ bytes_of l2).
    { rewrite <- (runes_bytes rest), Hs. clear. induction l1 as [|x l1 IH]; simpl; [done|].
      by rewrite IH, append_assoc. }
    rewrite Hrest, <- append_assoc in E1.
    apply decode_rune_cut in E1 as (rest' & E1 & Hr); [|rewrite length_append; lia].
    rewrite runes_unfold. simpl. rewrite E1. apply append_inj_l in Hr as <-. by rewrite IH1.
Qed.

Lemma drop_space_suffix l :
  exists pre, l = pre ++ drop_space l.
Proof.
  induction l as [|x l [pre IH]]; simpl; [by exists []|].
  destruct (IsSpace x.1); [exists (x :: pre); simpl; congruence|by exists []].
Qed.

Lemma drop_space_head l x l' : drop_space l = x :: l' -> IsSpace x.1 = false.
Proof. induction l as [|y l IH]; simpl; [done|]. destruct (IsSpace y.1) eqn:E1; [done|]. by intros [= -> _]. Qed.

Lemma drop_space_fix l : (forall x l', l = x :: l' -> IsSpace x.1 = false) -> drop_space l = l.
Proof. destruct l as [|x l]; [done|]. intros Hl. simpl. by rewrite (Hl x l). Qed.

Lemma TrimSpace_idemp s : TrimSpace (TrimSpace s) = TrimSpace s.
Proof.
  unfold TrimSpace. set (l := drop_space (runes s)). set (m := rev (drop_space (rev l))).
  destruct (drop_space_suffix (runes s)) as [pre Hpre]. fold l in Hpre.
  destruct (drop_space_suffix (rev l)) as [post Hpost].
  assert (Hl : l = m ++ rev post)
    by (rewrite <- (rev_involutive l), Hpost, rev_app_distr; done).
  destruct (runes_parts _ _ _ Hpre) as [_ Hrl]. rewrite Hl in Hrl at 2.
  destruct (runes_parts _ _ _ Hrl) as [-> _].
  rewrite (drop_space_fix m).
  - unfold m at 1. rewrite rev_involutive, drop_space_fix; [done|]. apply drop_space_head.
  - intros x m' Hm. rewrite Hm in Hl. simpl in Hl. by apply (drop_space_head (runes s) x (m' ++ rev post)).
Qed.

(** Trimming only drops bytes. *)
Lemma all_bytes_TrimSpace p s : all_bytes p s = true -> all_bytes p (TrimSpace s) = true.
Proof.
  assert (Happ : forall l1 l2, bytes_of (l1 ++ l2) = bytes_of l1 +:+ bytes_of l2).
  { intros l1 l2. induction l1 as [|x l1 IH]; simpl; [done|]. by rewrite IH, append_assoc. }
  rewrite <- (runes_bytes s) at 1. unfold TrimSpace. set (l := drop_space (runes s)).
  destruct (drop_space_suffix (runes s)) as [pre ->]. fold l.
  destruct (drop_space_suffix (rev l)) as [post Hpost].
  assert (Hl : l = rev (drop_space (rev l)) ++ rev post)
    by (rewrite <- rev_app_distr, <- Hpost; by rewrite rev_involutive).
  rewrite Hl at 1. rewrite !Happ, !all_bytes_app, !andb_true_iff. by intros (_ & ? & _).
Qed.

Lemma all_bytes_TrimSuffix p s t : all_bytes p s = true -> all_bytes p (TrimSuffix s t) = true.
Proof.
  destruct (TrimSuffix_spec s t) as [(r & -> & ->)|[_ ->]]; [|done].
  rewrite all_bytes_app, andb_true_iff. by intros [? _].
Qed.

(** ** The replacer *)

Lemma replacer_lookup_Some pairs ig s old new :
  replacer_lookup pairs ig s = Some (old, new) -> (old, new) ∈ pairs /\ HasPrefix s old = true.
Proof.
  induction pairs as [|[o n] pairs IH]; simpl; [done|].
  destruct (HasPrefix s o) eqn:E1; simpl.
  - destruct (negb _); [|set_solver]. intros [= <- <-]. split; [left|done].
  - set_solver.
Qed.

Lemma TrimPrefix_length s p :
  HasPrefix s p = true -> (String.length (TrimPrefix s p) + String.length p = String.length s)%nat.
Proof.
  unfold HasPrefix, TrimPrefix. destruct (CutPrefix s p) as [r|] eqn:E1; [|done].
  apply CutPrefix_Some in E1 as ->. rewrite length_append. lia.
Qed.

(** With no empty old string every turn takes a byte off, so the fuel does not matter
    beyond the length. *)
Lemma replacer_go_fuel pairs n m s :
  Forall (fun p => p.1 <> EmptyString) pairs ->
  (String.length s < n)%nat -> (String.length s < m)%nat ->
  replacer_go n pairs false s = replacer_go m pairs false s.
Proof.
  intros Hne. revert m s; induction n as [|n IH]; intros [|m] s Hn Hm; try lia.
  simpl. destruct (replacer_lookup pairs false s) as [[old new]|] eqn:E1.
  - apply replacer_lookup_Some in E1 as [Hin Hp].
    rewrite Forall_forall in Hne. specialize (Hne _ Hin). simpl in Hne.
    destruct (String.eqb_spec old EmptyString); [done|]. f_equal.
    apply TrimPrefix_length in Hp. assert (String.length old <> 0)%nat by (by destruct old).
    apply IH; lia.
  - destruct s; [done|]. simpl in *. f_equal. apply IH; lia.
Qed.

Lemma Replace_unfold pairs s :
  Forall (fun p => p.1 <> EmptyString) pairs ->
  Replace pairs s =
  match replacer_lookup pairs false s with
  | Some (old, new) => new +:+ Replace pairs (TrimPrefix s old)
  | None => match s with EmptyString => EmptyString | String c s' => String c (Replace pairs s') end
  end.
Proof.
  intros Hne. unfold Replace at 1.
  rewrite (replacer_go_fuel _ _ (S (String.length s))) by (done || lia). simpl.
  destruct (replacer_lookup pairs false s) as [[old new]|] eqn:E1.
  - apply replacer_lookup_Some in E1 as [Hin Hp].
    pose proof Hne as Hne'. rewrite Forall_forall in Hne'. specialize (Hne' _ Hin). simpl in Hne'.
    destruct (String.eqb_spec old EmptyString); [done|]. f_equal.
    apply TrimPrefix_length in Hp. assert (String.length old <> 0)%nat by (by destruct old).
    unfold Replace. apply replacer_go_fuel; [done|lia..].
  - destruct s; [done|]. f_equal. unfold Replace. apply replacer_go_fuel; [done|simpl; lia..].
Qed.

(** ** Offsets *)

Lemma take_bytes_append n a b :
  n = String.length a -> take_bytes n (a +:+ b) = a.
Proof. intros ->. induction a as [|x a IH]; simpl; [by destruct b|by rewrite IH]. Qed.

Lemma drop_bytes_append n a b :
  n = String.length a -> drop_bytes n (a +:+ b) = b.
Proof. intros ->. by induction a. Qed.

Lemma take_drop_bytes n s : take_bytes n s +:+ drop_bytes n s = s.
Proof. revert s; induction n as [|n IH]; intros [|x s]; simpl; [done..|by rewrite IH]. Qed.

Lemma length_take_bytes n s : String.length (take_bytes n s) = Nat.min n (String.length s).
Proof. revert s; induction n as [|n IH]; intros [|x s]; simpl; [done..|by rewrite IH]. Qed.

Lemma length_drop_bytes n s : String.length (drop_bytes n s) = (String.length s - n)%nat.
Proof. revert s; induction n as [|n IH]; intros [|x s]; simpl; [done..|by rewrite IH]. Qed.

(** Two ways to cut one string: the shorter head is a prefix of the longer. *)
Lemma append_split (a b c d : string) :
  a +:+ b = c +:+ d -> (String.length a <= String.length c)%nat ->
  exists m, c = a +:+ m /\ b = m +:+ d.
Proof.
  revert c; induction a as [|x a IH]; intros c; simpl; [by exists c|].
  destruct c as [|y c]; simpl; [lia|]. intros [= -> H] Hl.
  destruct (IH c H) as (m & -> & ->); [lia|]. by exists m.
Qed.

Lemma Index_Some s sep i :
  Index s sep = Some i ->
  exists a b, s = a +:+ sep +:+ b /\ String.length a = i /\
    forall a' b', s = a' +:+ sep +:+ b' -> (i <= String.length a')%nat.
Proof.
  revert i; induction s as [|x s IH]; intros i; cbn [Index]; destruct (HasPrefix _ sep) eqn:E.
  - intros [= <-]. apply HasPrefix_spec in E as [r Hr]. exists EmptyString, r. split_and!; [done..|lia].
  - done.
  - intros [= <-]. apply HasPrefix_spec in E as [r Hr]. exists EmptyString, r. split_and!; [done..|lia].
  - destruct (Index s sep) as [j|]; [|done]. intros [= <-].
    destruct (IH j eq_refl) as (a & b & Hs & Ha & Hmin). exists (String x a), b.
    split_and!; [by rewrite Hs|by simpl; rewrite Ha|].
    intros [|y a'] b' Hb; [|injection Hb as -> Hb; simpl; apply le_n_S; eauto].
    assert (Ht : HasPrefix (String x s) sep = true) by (apply HasPrefix_spec; eauto). congruence.
Qed.

Lemma Index_None s sep a b : Index s sep = None -> s <> a +:+ sep +:+ b.
Proof.
  revert a; induction s as [|x s IH]; intros a; cbn [Index]; destruct (HasPrefix _ sep) eqn:E; try done.
  - intros _ H. destruct a; [|done].
    assert (Ht : HasPrefix EmptyString sep = true) by (apply HasPrefix_spec; eauto). congruence.
  - destruct (Index s sep) as [j|]; [done|]. intros _ H. destruct a as [|y a].
    + assert (Ht : HasPrefix (String x s) sep = true) by (apply HasPrefix_spec; eauto). congruence.
    + injection H as -> H. by apply (IH a).
Qed.

Lemma LastIndex_None s sep a b : LastIndex s sep = None -> s <> a +:+ sep +:+ b.
Proof.
  revert a; induction s as [|x s IH]; intros a; cbn [LastIndex].
  - destruct (HasPrefix _ sep) eqn:E; [done|]. intros _ H. destruct a; [|done].
    assert (Ht : HasPrefix EmptyString sep = true) by (apply HasPrefix_spec; eauto). congruence.
  - destruct (LastIndex s sep) as [j|]; [done|]. destruct (HasPrefix _ sep) eqn:E; [done|].
    intros _ H. destruct a as [|y a].
    + assert (Ht : HasPrefix (String x s) sep = true) by (apply HasPrefix_spec; eauto). congruence.
    + injection H as -> H. by apply (IH a).
Qed.

Lemma LastIndex_Some s sep i :
  LastIndex s sep = Some i ->
  exists a b, s = a +:+ sep +:+ b /\ String.length a = i /\
    forall a' b', s = a' +:+ sep +:+ b' -> (String.length a' <= i)%nat.
Proof.
  revert i; induction s as [|x s IH]; intros i; cbn [LastIndex].
  - destruct (HasPrefix _ sep) eqn:E; [|done]. intros [= <-].
    apply HasPrefix_spec in E as [r Hr]. exists EmptyString, r. split_and!; [done..|].
    by intros [|? ?] b' Hb.
  - destruct (LastIndex s sep) as [j|] eqn:El.
    + intros [= <-]. destruct (IH j eq_refl) as (a & b & Hs & Ha & Hmax). exists (String x a), b.
      split_and!; [by rewrite Hs|by simpl; rewrite Ha|].
      intros [|y a'] b' Hb; [simpl; lia|injection Hb as -> Hb; simpl; apply le_n_S; eauto].
    + destruct (HasPrefix _ sep) eqn:E; [|done]. intros [= <-].
      apply HasPrefix_spec in E as [r Hr]. exists EmptyString, r. split_and!; [done..|].
      intros [|y a'] b' Hb; [simpl; lia|]. injection Hb as -> Hb. by eapply LastIndex_None in Hb.
Qed.

(** The offset found, from a decomposition no other precedes (or follows). *)
Lemma Index_at a b sep :
  (forall a' b', a +:+ sep +:+ b = a' +:+ sep +:+ b' -> (String.length a <= String.length a')%nat) ->
  Index (a +:+ sep +:+ b) sep = Some (String.length a).
Proof.
  intros Hmin. destruct (Index _ sep) as [i|] eqn:E; [|by eapply Index_None in E].
  apply Index_Some in E as (a' & b' & He & <- & Hmin'). f_equal.
  specialize (Hmin _ _ He). specialize (Hmin' _ _ eq_refl). lia.
Qed.

Lemma LastIndex_at a b sep :
  (forall a' b', a +:+ sep +:+ b = a' +:+ sep +:+ b' -> (String.length a' <= String.length a)%nat) ->
  LastIndex (a +:+ sep +:+ b) sep = Some (String.length a).
Proof.
  intros Hmax. destruct (LastIndex _ sep) as [i|] eqn:E; [|by eapply LastIndex_None in E].
  apply LastIndex_Some in E as (a' & b' & He & <- & Hmax'). f_equal.
  specialize (Hmax _ _ He). specialize (Hmax' _ _ eq_refl). lia.
Qed.

Lemma Index_absent s sep : (forall a b, s <> a +:+ sep +:+ b) -> Index s sep = None.
Proof.
  intros H. destruct (Index s sep) as [i|] eqn:E; [|done].
  apply Index_Some in E as (a & b & He & _). by destruct (H a b).
Qed.

Lemma LastIndex_absent s sep : (forall a b, s <> a +:+ sep +:+ b) -> LastIndex s sep = None.
Proof.
  intros H. destruct (LastIndex s sep) as [i|] eqn:E; [|done].
  apply LastIndex_Some in E as (a & b & He & _). by destruct (H a b).
Qed.
