(* ===== verification/Ids.v ===== *)
(** * Ids: the prefixed identifiers of internal/domain/id.go.

    [NewID] is a function of the 15 bytes the system's generator returns; the
    theorems say that what it mints is what [Valid] and [WellFormedID] accept, that
    distinct random bytes give distinct ids, and that a session's primary thread is
    determined by the session's token and by nothing else. *)
From Stdlib Require Import Ascii Lia.
From S2P Require Import Prelude GoStrings.

Definition PrefixAgent : string := "agent".
Definition PrefixEnvironment : string := "env".
Definition PrefixSession : string := "sesn".
Definition PrefixEvent : string := "sevt".
Definition PrefixWork : string := "work".
Definition PrefixSkillVersion : string := "skver".
Definition PrefixSessionThread : string := "sthr".
Definition PrefixMemory : string := "mem".
Definition PrefixMemoryVersion : string := "memver".
Definition altSessionPrefix : string := "session".
Definition altSkillVersionPrefix : string := "skillver".

Definition idAlphabet : string := "0123456789abcdefghjkmnpqrstvwxyz".

Definition knownPrefixes : list string :=
  [PrefixAgent; PrefixEnvironment; PrefixSession; PrefixEvent; PrefixWork; "vlt"; "vcrd"; "sesrsc";
   "depl"; "drun"; "file"; PrefixSkillVersion; "skill"; "outc"; PrefixSessionThread; "memstore";
   PrefixMemory; PrefixMemoryVersion; "drm"; altSessionPrefix; altSkillVersionPrefix].

Definition underscore : ascii := "_".

Definition PrimaryThreadID (sessionID : string) : string :=
  let '(_, token, _) := Cut sessionID underscore in PrefixSessionThread +:+ "_" +:+ token.

(** [base32.NewEncoding(idAlphabet).WithPadding(NoPadding)]: the bytes' bits, most
    significant first, in groups of five, the last group filled with zeros. *)
Definition byte_bits (b : Z) : list bool := map (Z.testbit b) [7; 6; 5; 4; 3; 2; 1; 0].

Fixpoint group_bits (acc : list bool) (bits : list bool) : list (list bool) :=
  match bits with
  | [] => match acc with [] => [] | _ => [acc ++ replicate (5 - length acc) false] end
  | b :: bits' =>
      if Nat.eqb (length acc) 4 then (acc ++ [b]) :: group_bits [] bits' else group_bits (acc ++ [b]) bits'
  end.

Definition bits_value (bits : list bool) : nat := foldl (fun n b => 2 * n + Nat.b2n b)%nat 0%nat bits.

Definition alphabet_char (bits : list bool) : ascii :=
  default zero (String.get (bits_value bits) idAlphabet).

Definition EncodeToString (b : list Z) : string :=
  String.string_of_list_ascii (map alphabet_char (group_bits [] (concat (map byte_bits b)))).

Definition idRandomBytes : nat := 15.

(** [b] is what [rand.Read] filled the buffer with. *)
Definition NewID (prefix : string) (b : list Z) : string := prefix +:+ "_" +:+ EncodeToString b.

Definition Prefix (id : string) : string :=
  match Cut id underscore with (p, _, true) => p | _ => EmptyString end.

Definition ID_HasPrefix (id prefix : string) : bool :=
  let p := Prefix id in
  if String.eqb p prefix then true
  else if String.eqb prefix PrefixSession then String.eqb p altSessionPrefix
  else if String.eqb prefix PrefixSkillVersion then String.eqb p altSkillVersionPrefix
  else false.

Fixpoint IndexByte (s : string) (c : ascii) : option nat :=
  match s with
  | EmptyString => None
  | String a s' => if Ascii.eqb a c then Some 0%nat else S <$> IndexByte s' c
  end.

Definition validToken (token : string) : bool :=
  negb (String.eqb token "") && all_bytes (fun c => bool_decide (is_Some (IndexByte idAlphabet c))) token.

Definition Valid (id : string) : bool :=
  let '(prefix, token, ok) := Cut id underscore in
  ok && bool_decide (prefix ∈ knownPrefixes) && validToken token.

Definition wellFormedByte (c : ascii) : bool :=
  in_range 48 57 (ord c)
  || in_range 97 122 (ord c) && negb (Ascii.eqb c "l")
  || in_range 65 90 (ord c) && negb (Ascii.eqb c "I") && negb (Ascii.eqb c "O").

Definition WellFormedID (id prefix : string) : bool :=
  match CutPrefix id (prefix +:+ "_") with
  | None => false
  | Some token => negb (String.eqb token "") && all_bytes wellFormedByte token
  end.

Definition IsZero (id : string) : bool := String.eqb id "".

(** ** Lemmas *)

Definition no_underscore (s : string) : bool := all_bytes (fun a => negb (Ascii.eqb a underscore)) s.

Lemma Cut_prefix p t : no_underscore p = true -> Cut (p +:+ String underscore t) underscore = (p, t, true).
Proof.
  induction p as [|a p IH]; cbn; [done|]. unfold no_underscore in *; cbn. intros H. bool_prop.
  rewrite H. by rewrite IH.
Qed.

Lemma knownPrefixes_no_underscore p : p ∈ knownPrefixes -> no_underscore p = true.
Proof.
  assert (H : forallb no_underscore knownPrefixes = true) by (vm_compute; reflexivity).
  rewrite forallb_forall in H. intros Hp. apply H. by apply list_elem_of_In.
Qed.

(** *** The encoding *)

Lemma group_bits_length acc bits :
  (length acc < 5)%nat -> Forall (fun g => length g = 5%nat) (group_bits acc bits).
Proof.
  revert acc; induction bits as [|b bits IH]; intros acc Ha; cbn.
  - destruct acc as [|x acc]; constructor; [|constructor].
    rewrite length_app, length_replicate. lia.
  - destruct (Nat.eqb_spec (length acc) 4).
    + constructor; [rewrite length_app; cbn; lia|]. apply IH. cbn; lia.
    + apply IH. rewrite length_app; cbn; lia.
Qed.

(** The groups hold the bits, in order, followed by the fill. *)
Lemma group_bits_concat acc bits :
  (length acc < 5)%nat -> exists k, concat (group_bits acc bits) = acc ++ bits ++ replicate k false.
Proof.
  revert acc; induction bits as [|b bits IH]; intros acc Ha; cbn.
  - destruct acc as [|x acc]; [by exists 0%nat|]. exists (5 - length (x :: acc))%nat. cbn. by rewrite app_nil_r.
  - destruct (Nat.eqb_spec (length acc) 4).
    + destruct (IH []) as [k Hk]; [cbn; lia|]. exists k. cbn. rewrite Hk. by rewrite <- !app_assoc.
    + destruct (IH (acc ++ [b])) as [k Hk]; [rewrite length_app; cbn; lia|]. exists k.
      rewrite Hk. by rewrite <- app_assoc.
Qed.

(** Every list of five bits is one of 32, so facts about them are decided. *)
Definition all_bits5 : list (list bool) :=
  let bs := [false; true] in
  concat (map (fun a => concat (map (fun b => concat (map (fun c => concat (map (fun d =>
    map (fun e => [a; b; c; d; e]) bs) bs)) bs)) bs)) bs).

Lemma all_bits5_complete g : length g = 5%nat -> g ∈ all_bits5.
Proof.
  intros H. destruct g as [|[] [|[] [|[] [|[] [|[] [|? ?]]]]]]; cbn in H; try lia;
    apply list_elem_of_In; vm_compute; tauto.
Qed.

Lemma alphabet_char_inj g1 g2 :
  length g1 = 5%nat -> length g2 = 5%nat -> alphabet_char g1 = alphabet_char g2 -> g1 = g2.
Proof.
  intros H1%all_bits5_complete H2%all_bits5_complete.
  assert (Hd : forallb (fun a => forallb (fun b => implb (Ascii.eqb (alphabet_char a) (alphabet_char b))
                 (bool_decide (a = b))) all_bits5) all_bits5 = true) by (vm_compute; reflexivity).
  rewrite forallb_forall in Hd. specialize (Hd g1). rewrite forallb_forall in Hd.
  specialize (Hd (proj1 (list_elem_of_In _ _) H1) g2 (proj1 (list_elem_of_In _ _) H2)).
  intros E. rewrite E, Ascii.eqb_refl in Hd. by apply bool_decide_eq_true in Hd.
Qed.

Lemma alphabet_char_ok g :
  length g = 5%nat ->
  is_Some (IndexByte idAlphabet (alphabet_char g)) /\ wellFormedByte (alphabet_char g) = true
  /\ alphabet_char g <> underscore.
Proof.
  intros H%all_bits5_complete.
  assert (Hd : forallb (fun g => bool_decide (is_Some (IndexByte idAlphabet (alphabet_char g)))
                 && wellFormedByte (alphabet_char g) && negb (Ascii.eqb (alphabet_char g) underscore)) all_bits5 = true)
    by (vm_compute; reflexivity).
  rewrite forallb_forall in Hd. specialize (Hd g (proj1 (list_elem_of_In _ _) H)). bool_prop.
  by rewrite <- Ascii.eqb_neq.
Qed.

Definition is_byte (b : Z) : Prop := 0 <= b < 256.

Lemma byte_bits_inj a b : is_byte a -> is_byte b -> byte_bits a = byte_bits b -> a = b.
Proof.
  intros Ha Hb [= H7 H6 H5 H4 H3 H2 H1 H0]. apply Z.bits_inj'. intros n Hn.
  destruct (Z.ltb_spec n 8).
  - assert (n = 0 \/ n = 1 \/ n = 2 \/ n = 3 \/ n = 4 \/ n = 5 \/ n = 6 \/ n = 7) as Hc by lia.
    destruct Hc as [->|[->|[->|[->|[->|[->|[->| ->]]]]]]]; done.
  - rewrite !Z.bits_above_log2; try done; unfold is_byte in *; try lia.
    + destruct (decide (b = 0)) as [->|]; [cbn; lia|]. assert (Z.log2 b < 8) by (apply Z.log2_lt_pow2; lia). lia.
    + destruct (decide (a = 0)) as [->|]; [cbn; lia|]. assert (Z.log2 a < 8) by (apply Z.log2_lt_pow2; lia). lia.
Qed.

Lemma bits_inj l1 l2 :
  Forall is_byte l1 -> Forall is_byte l2 -> length l1 = length l2 ->
  concat (map byte_bits l1) = concat (map byte_bits l2) -> l1 = l2.
Proof.
  revert l2; induction l1 as [|a l1 IH]; intros [|b l2] H1 H2 Hl; try done.
  inversion H1; inversion H2; subst. cbn [map concat]. intros E.
  apply app_inj_1 in E as [E1 E2]; [|done]. f_equal; [by apply byte_bits_inj|]. apply IH; auto.
Qed.

Lemma length_bits l : length (concat (map byte_bits l)) = (8 * length l)%nat.
Proof. induction l as [|a l IH]; [done|]. cbn [map concat]. rewrite length_app, IH. cbn. lia. Qed.

Lemma string_of_list_ascii_inj l1 l2 :
  String.string_of_list_ascii l1 = String.string_of_list_ascii l2 -> l1 = l2.
Proof. revert l2; induction l1 as [|a l1 IH]; intros [|b l2]; cbn; try done. intros [= -> E]. f_equal; auto. Qed.

Lemma EncodeToString_inj b1 b2 :
  Forall is_byte b1 -> Forall is_byte b2 -> length b1 = length b2 ->
  EncodeToString b1 = EncodeToString b2 -> b1 = b2.
Proof.
  intros H1 H2 Hl E. apply bits_inj; [done..|]. unfold EncodeToString in E.
  apply string_of_list_ascii_inj in E.
  assert (Eg : group_bits [] (concat (map byte_bits b1)) = group_bits [] (concat (map byte_bits b2))).
  { pose proof (group_bits_length [] (concat (map byte_bits b1))) as G1.
    pose proof (group_bits_length [] (concat (map byte_bits b2))) as G2.
    specialize (G1 ltac:(cbn; lia)). specialize (G2 ltac:(cbn; lia)).
    revert G1 G2 E. generalize (group_bits [] (concat (map byte_bits b1))) (group_bits [] (concat (map byte_bits b2))).
    intros l1; induction l1 as [|g l1 IH]; intros [|g' l2] G1 G2; cbn; try done.
    inversion G1; inversion G2; subst. intros [= E1 E2]. f_equal; [by apply alphabet_char_inj|auto]. }
  destruct (group_bits_concat [] (concat (map byte_bits b1))) as [k1 K1]; [cbn; lia|].
  destruct (group_bits_concat [] (concat (map byte_bits b2))) as [k2 K2]; [cbn; lia|].
  rewrite Eg, K2 in K1. cbn [app] in K1. apply app_inj_1 in K1 as [K _]; [done|]. by rewrite !length_bits, Hl.
Qed.

Lemma all_bytes_string (p : ascii -> bool) l : all_bytes p (String.string_of_list_ascii l) = forallb p l.
Proof. induction l as [|a l IH]; cbn; [done|]. by rewrite IH. Qed.

Lemma EncodeToString_all (p : ascii -> bool) b :
  (forall g, length g = 5%nat -> p (alphabet_char g) = true) -> all_bytes p (EncodeToString b) = true.
Proof.
  intros Hp. unfold EncodeToString. rewrite all_bytes_string. apply forallb_forall.
  intros c (g & <- & Hg)%in_map_iff. apply Hp.
  pose proof (group_bits_length [] (concat (map byte_bits b)) ltac:(cbn; lia)) as G.
  rewrite Forall_forall in G. apply G. by apply list_elem_of_In.
Qed.

Lemma EncodeToString_nonempty b : b <> [] -> EncodeToString b <> "".
Proof.
  intros Hb E. unfold EncodeToString in E. destruct (group_bits [] (concat (map byte_bits b))) eqn:G; [|done].
  destruct (group_bits_concat [] (concat (map byte_bits b))) as [k K]; [cbn; lia|].
  rewrite G in K. cbn [concat app] in K. symmetry in K. apply app_eq_nil in K as [K _].
  pose proof (length_bits b) as L. rewrite K in L. destruct b; [done|cbn in L; lia].
Qed.

(** ** Theorems *)

(** An identifier the platform mints is one its API accepts: it is valid, well-formed
    for its own prefix, read back with that prefix, never empty; and two ids minted with
    the same prefix are equal only if the generator returned the same bytes. *)
Theorem NewID_accepted prefix b b' :
  prefix ∈ knownPrefixes -> Forall is_byte b -> Forall is_byte b' ->
  length b = idRandomBytes -> length b' = idRandomBytes ->
  Valid (NewID prefix b) = true /\ WellFormedID (NewID prefix b) prefix = true /\
  ID_HasPrefix (NewID prefix b) prefix = true /\ IsZero (NewID prefix b) = false /\
  (NewID prefix b = NewID prefix b' -> b = b').
Proof.
  intros Hp Hb Hb' Hl Hl'.
  assert (Hne : EncodeToString b <> "") by (apply EncodeToString_nonempty; by destruct b).
  assert (Hcut : Cut (NewID prefix b) underscore = (prefix, EncodeToString b, true))
    by (apply Cut_prefix, knownPrefixes_no_underscore, Hp).
  split_and!.
  - unfold Valid. rewrite Hcut, bool_decide_true by done. unfold validToken.
    apply String.eqb_neq in Hne as ->. apply EncodeToString_all. intros g Hg.
    by apply bool_decide_eq_true, alphabet_char_ok.
  - unfold WellFormedID. rewrite (proj2 (CutPrefix_Some _ _ (EncodeToString b))) by (by rewrite append_assoc).
    apply String.eqb_neq in Hne as ->. apply EncodeToString_all. intros g Hg. by apply alphabet_char_ok.
  - unfold ID_HasPrefix, Prefix. by rewrite Hcut, String.eqb_refl.
  - apply String.eqb_neq. unfold NewID. intros E. apply (f_equal String.length) in E.
    rewrite length_append in E. cbn in E. lia.
  - unfold NewID. intros E. apply append_inj_r in E. injection E as E. apply EncodeToString_inj; congruence.
Qed.

Lemma NewID_accepted_witness :
  let b := [0; 1; 2; 3; 4; 5; 6; 7; 8; 9; 10; 11; 12; 13; 255] in
  Valid (NewID PrefixWork b) = true.
Proof.
  intros b. assert (Hb : Forall is_byte b) by (repeat (constructor; [unfold is_byte; lia|]); constructor).
  refine (proj1 (NewID_accepted PrefixWork b b _ Hb Hb eq_refl eq_refl)).
  apply list_elem_of_In. vm_compute. tauto.
Defined.

(** A valid session id, under either spelling of its prefix. *)
Definition session_id (s : string) : bool := Valid s && ID_HasPrefix s PrefixSession.

Lemma session_id_cases s :
  session_id s = true ->
  exists t, validToken t = true /\ Cut s underscore = ((Prefix s), t, true) /\
    (s = PrefixSession +:+ "_" +:+ t \/ s = altSessionPrefix +:+ "_" +:+ t).
Proof.
  unfold session_id, Valid, ID_HasPrefix, Prefix. intros H. bool_prop.
  destruct (Cut s underscore) as [[p t] ok] eqn:E. bool_prop. destruct ok; [|done].
  exists t. split_and!; [done..|]. apply Cut_found in E.
  destruct (String.eqb_spec p PrefixSession) as [->|]; [by left|].
  destruct (String.eqb_spec p altSessionPrefix) as [->|]; [by right|done].
Qed.

(** A session's primary thread is named by a valid thread id, and two sessions share it
    exactly when their ids carry the same token: the [session_] spelling of an id names
    the thread its [sesn_] form does, and no two other sessions collide. *)
Theorem PrimaryThreadID_token s1 s2 :
  session_id s1 = true -> session_id s2 = true ->
  Valid (PrimaryThreadID s1) = true /\ ID_HasPrefix (PrimaryThreadID s1) PrefixSessionThread = true /\
  (PrimaryThreadID s1 = PrimaryThreadID s2 <->
   exists t, (s1 = PrefixSession +:+ "_" +:+ t \/ s1 = altSessionPrefix +:+ "_" +:+ t) /\
             (s2 = PrefixSession +:+ "_" +:+ t \/ s2 = altSessionPrefix +:+ "_" +:+ t)).
Proof.
  intros (t1 & V1 & C1 & D1)%session_id_cases (t2 & V2 & C2 & D2)%session_id_cases.
  assert (P : forall s t, Cut s underscore = (Prefix s, t, true) -> PrimaryThreadID s = PrefixSessionThread +:+ "_" +:+ t).
  { intros s t H. unfold PrimaryThreadID. by rewrite H. }
  assert (C : Cut (PrefixSessionThread +:+ "_" +:+ t1) underscore = (PrefixSessionThread, t1, true)) by reflexivity.
  rewrite (P _ _ C1), (P _ _ C2). split_and!.
  - unfold Valid. rewrite C, V1, bool_decide_true; [done|]. apply list_elem_of_In. vm_compute; tauto.
  - unfold ID_HasPrefix, Prefix. by rewrite C.
  - assert (T : forall s t, (s = PrefixSession +:+ "_" +:+ t \/ s = altSessionPrefix +:+ "_" +:+ t) ->
                  exists p, Cut s underscore = (p, t, true)).
    { intros s t [-> | ->]; eexists; reflexivity. }
    split.
    + intros E. injection E as <-. exists t1. done.
    + intros (t & [p1 E1]%T & [p2 E2]%T). rewrite C1 in E1. rewrite C2 in E2. by simplify_eq.
Qed.

Lemma PrimaryThreadID_token_witness :
  PrimaryThreadID "sesn_abc" = PrimaryThreadID "session_abc" /\ PrimaryThreadID "sesn_abc" <> PrimaryThreadID "sesn_abd".
Proof.
  split.
  - apply (PrimaryThreadID_token "sesn_abc" "session_abc"); [vm_compute; reflexivity..|].
    exists "abc". split; [left|right]; reflexivity.
  - vm_compute. discriminate.
Defined.
