(* ===== verification/Queue.v ===== *)
(** * Queue: the work queue of internal/queue (queue.go, lifecycle.go, stats.go).

    The state is the three tables the statements read and write: [environments]
    (id to kind), [work_items] and [worker_polls].  A statement is a function of the
    transaction's [now()] (microseconds) and the tables; SKIP LOCKED is the [locked]
    argument; [NULL] is [None] and a comparison with it is false.  An id a statement
    mints is an argument.  Postgres's reading of a non-boolean JSON value as a boolean
    is the parameter [as_bool].  The foreign keys to sessions and threads hold by the
    callers' row locks and are not modelled. *)
From Stdlib Require Import Ascii Lia.
From S2P Require Import Prelude GoStrings Ids.

Inductive Kind := ModelTurn | ToolExec | WebExec | OutputsHarvest | MCPExec.
#[global] Instance Kind_eq_dec : EqDecision Kind.
Proof. solve_decision. Defined.

Inductive env_kind := cloud | self_hosted.
#[global] Instance env_kind_eq_dec : EqDecision env_kind.
Proof. solve_decision. Defined.

Inductive work_state := queued | starting | active | stopping | stopped.
#[global] Instance work_state_eq_dec : EqDecision work_state.
Proof. solve_decision. Defined.

(** Values of the metadata column the statements distinguish. *)
Inductive mval := MStr (s : string) | MNum (z : Z) | MBool (b : bool).

(** A [work_items] row. *)
Record row := MkRow {
  w_env : string; w_session : string; w_thread : option string; w_kind : Kind;
  w_state : work_state; w_lease : option Z; w_meta : gmap string mval; w_trace : option string;
  w_created : Z; w_ack : option Z; w_started : option Z; w_stop_requested : option Z;
  w_stopped : option Z; w_heartbeat : option Z; w_updated : Z }.

Record qdb := MkQ {
  q_envs : gmap string env_kind; q_items : gmap string row; q_polls : gmap (string * string) Z }.

Inductive queue_error :=
| ErrLeaseLost | ErrWorkNotFound
| ErrHeartbeatMismatch (item : string * row) (ttl : Z) (expected : string)
| ErrConstraint | ErrCast.

Record Item := MkItem {
  it_id : string; it_env : string; it_session : string; it_thread : string; it_kind : Kind;
  it_lease : Z; it_reclaimed : bool; it_chain : Z; it_chain_grading : bool; it_trace : option string }.

Definition seconds (n : Z) : Z := n * 1000000.
Definition WindDown : Z := seconds 60.
Definition ackStartupLeaseSeconds : Z := 30.
Definition workersPollingWindowSeconds : Z := 30.
Definition NoHeartbeat : string := "NO_HEARTBEAT".

(** ** Rows *)

Definition with_items (q : qdb) m := MkQ (q_envs q) m (q_polls q).

Definition set_state (r : row) s l now := MkRow (w_env r) (w_session r) (w_thread r) (w_kind r) s l (w_meta r)
  (w_trace r) (w_created r) (w_ack r) (w_started r) (w_stop_requested r) (w_stopped r) (w_heartbeat r) now.
Definition set_meta (r : row) m := MkRow (w_env r) (w_session r) (w_thread r) (w_kind r) (w_state r) (w_lease r) m
  (w_trace r) (w_created r) (w_ack r) (w_started r) (w_stop_requested r) (w_stopped r) (w_heartbeat r) (w_updated r).
Definition set_ack (r : row) a := MkRow (w_env r) (w_session r) (w_thread r) (w_kind r) (w_state r) (w_lease r)
  (w_meta r) (w_trace r) (w_created r) a (w_started r) (w_stop_requested r) (w_stopped r) (w_heartbeat r) (w_updated r).
Definition set_started (r : row) s := MkRow (w_env r) (w_session r) (w_thread r) (w_kind r) (w_state r) (w_lease r)
  (w_meta r) (w_trace r) (w_created r) (w_ack r) s (w_stop_requested r) (w_stopped r) (w_heartbeat r) (w_updated r).
Definition set_stop (r : row) req st := MkRow (w_env r) (w_session r) (w_thread r) (w_kind r) (w_state r) (w_lease r)
  (w_meta r) (w_trace r) (w_created r) (w_ack r) (w_started r) req st (w_heartbeat r) (w_updated r).
Definition set_heartbeat (r : row) h := MkRow (w_env r) (w_session r) (w_thread r) (w_kind r) (w_state r) (w_lease r)
  (w_meta r) (w_trace r) (w_created r) (w_ack r) (w_started r) (w_stop_requested r) (w_stopped r) h (w_updated r).

(** [COALESCE(a, b)] *)
Definition coalesce {A} (a b : option A) : option A := match a with Some _ => a | None => b end.

(** [lease_expires_at IS NULL OR lease_expires_at < now()] *)
Definition unreserved (now : Z) (r : row) : bool :=
  match w_lease r with None => true | Some t => t <? now end.
(** [lease_expires_at < now()] *)
Definition lapsed (now : Z) (r : row) : bool :=
  match w_lease r with None => false | Some t => t <? now end.

Definition state_eqb (a b : work_state) : bool :=
  match a, b with
  | queued, queued | starting, starting | active, active | stopping, stopping | stopped, stopped => true
  | _, _ => false
  end.
Definition is_state (s : work_state) (r : row) : bool := state_eqb (w_state r) s.
Definition live (r : row) : bool := is_state queued r || is_state starting r || is_state active r.

(** The key of the unique index over live items (NULLS NOT DISTINCT). *)
Definition live_key (r : row) : string * option string * Kind := (w_session r, w_thread r, w_kind r).

(** [SELECT ... WHERE p ORDER BY created_at LIMIT 1] *)
Definition older (a b : string * row) : bool := w_created a.2 <=? w_created b.2.
Fixpoint oldest (l : list (string * row)) : option (string * row) :=
  match l with
  | [] => None
  | x :: l' => match oldest l' with
               | None => Some x
               | Some y => if older x y then Some x else Some y
               end
  end.
Definition select (q : qdb) (p : string -> row -> bool) : list (string * row) :=
  filter (fun kv => p kv.1 kv.2) (map_to_list (q_items q)).

Definition env_is (q : qdb) (k : env_kind) (e : string) : bool := bool_decide (q_envs q !! e = Some k).

(** [UPDATE work_items SET f WHERE p], every matching row. *)
Definition update_where (q : qdb) (p : row -> bool) (f : row -> row) : qdb :=
  with_items q ((fun r => if p r then f r else r) <$> q_items q).

(** ** Enqueue *)
Definition nullableThread (threadID : string) : option string :=
  if String.eqb threadID "" then None else Some threadID.

(** The insert both enqueues share: nothing when a live item holds the key. *)
Definition insert_item (q : qdb) (id : string) (r : row) : result queue_error (bool * qdb) :=
  if negb (bool_decide (is_Some (q_envs q !! w_env r))) then Err ErrConstraint
  else if existsb (fun kv => live kv.2 && bool_decide (live_key kv.2 = live_key r)) (map_to_list (q_items q))
  then Ok (false, q)
  else if bool_decide (is_Some (q_items q !! id)) then Err ErrConstraint
  else Ok (true, with_items q (<[id := r]> (q_items q))).

(** [traceCtx] is the active span's context; a model_turn does not carry one. *)
Definition EnqueueThread (now : Z) (q : qdb) (id envID sessionID threadID : string) (kind : Kind)
    (traceCtx : option string) : result queue_error (bool * qdb) :=
  let trace := if bool_decide (kind = ModelTurn) then None else traceCtx in
  insert_item q id (MkRow envID sessionID (nullableThread threadID) kind queued None ∅ trace
    now None (Some now) None None None now).

Definition Enqueue (now : Z) (q : qdb) (id envID sessionID : string) (kind : Kind) (traceCtx : option string)
  : result queue_error (bool * qdb) :=
  EnqueueThread now q id envID sessionID "" kind traceCtx.

Definition EnqueueOutputsHarvest (now : Z) (q : qdb) (id envID sessionID : string) (chainGrading : bool)
    (traceCtx : option string) : result queue_error (bool * qdb) :=
  insert_item q id (MkRow envID sessionID None OutputsHarvest queued None {["chain_grading" := MBool chainGrading]}
    traceCtx now None None None None None now).

(** ** Claim *)
Definition claimable (now : Z) (q : qdb) (kind : Kind) (r : row) : bool :=
  bool_decide (w_kind r = kind)
  && (negb (bool_decide (w_kind r = ToolExec)) || env_is q cloud (w_env r))
  && bool_decide (is_Some (q_envs q !! w_env r))
  && ((is_state queued r && unreserved now r) || (is_state active r && lapsed now r)).

Section claim.
Context (as_bool : mval -> option bool).

Definition meta_bool (v : option mval) : option bool :=
  match v with
  | None => Some false
  | Some (MBool b) => Some b
  | Some v => as_bool v
  end.

Definition Claim (now : Z) (locked : string -> bool) (q : qdb) (kind : Kind) (ttl : Z)
  : result queue_error (option Item * qdb) :=
  match oldest (select q (fun id r => negb (locked id) && claimable now q kind r)) with
  | None => Ok (None, q)
  | Some (id, r) =>
      let r' := set_state r active (Some (now + ttl)) now in
      match meta_bool (w_meta r' !! "chain_grading") with
      | None => Err ErrCast
      | Some grading =>
          Ok (Some (MkItem id (w_env r) (w_session r) (default "" (w_thread r)) (w_kind r) (now + ttl)
                (is_state active r)
                (match w_meta r' !! "settlement_chain" with Some (MNum z) => z | _ => 0 end)
                grading (w_trace r)),
              with_items q (<[id := r']> (q_items q)))
      end
  end.
End claim.

(** ** Poll *)
Definition pollable (now : Z) (q : qdb) (envID : string) (r : row) : bool :=
  bool_decide (w_env r = envID) && env_is q self_hosted (w_env r)
  && bool_decide (w_kind r = ToolExec)
  && ((is_state queued r && unreserved now r)
      || ((is_state starting r || is_state active r) && lapsed now r)).

Definition poll_row (now reclaim : Z) (r : row) : row :=
  let started := if is_state queued r then coalesce (w_started r) (Some (w_created r)) else Some now in
  set_started (set_ack (set_heartbeat (set_state r queued (Some (now + reclaim)) now) None) None) started.

(** [PollOn]: a re-hand-out moves the row to the fresh id. *)
Definition PollOn (now : Z) (locked : string -> bool) (q : qdb) (freshID envID : string) (reclaim : Z)
  : result queue_error (option (string * row) * qdb) :=
  match oldest (select q (fun id r => negb (locked id) && pollable now q envID r)) with
  | None => Ok (None, q)
  | Some (id, r) =>
      let r' := poll_row now reclaim r in
      match w_lease r with
      | None => Ok (Some (id, r'), with_items q (<[id := r']> (q_items q)))
      | Some _ =>
          if bool_decide (is_Some (q_items q !! freshID)) then Err ErrConstraint
          else Ok (Some (freshID, r'), with_items q (<[freshID := r']> (delete id (q_items q))))
      end
  end.

(** ** Abandoned wind-downs *)
Definition abandoned (now : Z) (envID : string) (r : row) : bool :=
  bool_decide (w_env r = envID) && bool_decide (w_kind r = ToolExec) && is_state stopping r
  && match w_lease r with
     | None => true
     | Some t => (t <? now)
                 && match w_stop_requested r with None => true | Some s => s <? now - WindDown end
     end.

Definition ListAbandoned (now : Z) (q : qdb) (envID : string) : list (string * string) :=
  map (fun kv => (kv.1, w_session kv.2)) (take 50 (select q (fun _ r => abandoned now envID r))).

Definition FinalizeAbandoned (now : Z) (q : qdb) (envID workID : string) : bool * qdb :=
  match q_items q !! workID with
  | Some r =>
      if abandoned now envID r
      then (true, with_items q (<[workID := set_stop (set_state r stopped None now) (w_stop_requested r) (Some now)]> (q_items q)))
      else (false, q)
  | None => (false, q)
  end.

(** ** The claimant's statements: each matches the lease it was given *)
Definition holds (q : qdb) (it : Item) : option row :=
  match q_items q !! it_id it with
  | Some r => if is_state active r && bool_decide (w_lease r = Some (it_lease it)) then Some r else None
  | None => None
  end.

Definition with_lease (it : Item) l := MkItem (it_id it) (it_env it) (it_session it) (it_thread it) (it_kind it) l
  (it_reclaimed it) (it_chain it) (it_chain_grading it) (it_trace it).

Definition Extend (now : Z) (q : qdb) (it : Item) (ttl : Z) : result queue_error (Item * qdb) :=
  match holds q it with
  | None => Err ErrLeaseLost
  | Some r => Ok (with_lease it (now + ttl),
                  with_items q (<[it_id it := set_state r (w_state r) (Some (now + ttl)) now]> (q_items q)))
  end.

Definition renewLive (now : Z) (q : qdb) (it : Item) (ttl : Z) : result queue_error (Item * qdb) :=
  match holds q it with
  | None => Err ErrLeaseLost
  | Some r =>
      if now <? it_lease it
      then Ok (with_lease it (now + ttl),
               with_items q (<[it_id it := set_state r (w_state r) (Some (now + ttl)) now]> (q_items q)))
      else Err ErrLeaseLost
  end.

Definition requeue (now : Z) (q : qdb) (it : Item) (chain delay : Z) : result queue_error qdb :=
  match holds q it with
  | None => Err ErrLeaseLost
  | Some r =>
      let lease := if 0 <? delay then Some (now + delay) else None in
      let meta := if 0 <? chain then <["settlement_chain" := MNum chain]> (w_meta r)
                  else delete "settlement_chain" (w_meta r) in
      Ok (with_items q (<[it_id it := set_meta (set_state r queued lease now) meta]> (q_items q)))
  end.

Definition Requeue now q it := requeue now q it 0 0.
Definition RequeueAfter now q it delay := requeue now q it 0 delay.
Definition RequeueSettlement now q it chain := requeue now q it chain 0.

Definition RequeueAsGrading (now : Z) (q : qdb) (it : Item) : result queue_error qdb :=
  match holds q it with
  | None => Err ErrLeaseLost
  | Some r =>
      Ok (with_items q (<[it_id it := set_meta (set_state r queued None now)
                                        (<["chain_grading" := MBool true]> (w_meta r))]> (q_items q)))
  end.

Definition Assert (q : qdb) (it : Item) : result queue_error unit :=
  match holds q it with None => Err ErrLeaseLost | Some _ => Ok tt end.

Definition Complete (now : Z) (q : qdb) (it : Item) : result queue_error qdb :=
  match holds q it with
  | None => Err ErrLeaseLost
  | Some r => Ok (with_items q (<[it_id it := set_state r stopped None now]> (q_items q)))
  end.

(** ** Cancels *)
Definition cancel_row (now : Z) (r : row) : row :=
  set_stop (set_state r stopped None now) (coalesce (w_stop_requested r) (Some now)) (Some now).

Definition CancelSession (now : Z) (q : qdb) (sessionID : string) : qdb :=
  update_where q (fun r => bool_decide (w_session r = sessionID) && negb (is_state stopped r)) (cancel_row now).

Definition CancelThread (now : Z) (q : qdb) (sessionID threadID : string) : qdb :=
  update_where q (fun r => bool_decide (w_session r = sessionID) && bool_decide (w_kind r = ModelTurn)
                           && negb (is_state stopped r)
                           && bool_decide (w_thread r = nullableThread threadID)) (cancel_row now).

(** ** The work API's statements (lifecycle.go) *)

(** [WHERE id = $1 AND environment_id = $2] and [workAPIScope]. *)
Definition in_scope (q : qdb) (envID : string) (r : row) : bool :=
  bool_decide (w_env r = envID) && bool_decide (w_kind r = ToolExec) && env_is q self_hosted (w_env r).

Definition HasUndrainedWork (q : qdb) (envID : string) : bool :=
  existsb (fun kv => in_scope q envID kv.2 && negb (is_state stopped kv.2)) (map_to_list (q_items q)).

Definition visible (q : qdb) (envID workID : string) : option row :=
  match q_items q !! workID with
  | Some r => if in_scope q envID r then Some r else None
  | None => None
  end.

Definition GetWork (q : qdb) (envID workID : string) : result queue_error (string * row) :=
  match visible q envID workID with Some r => Ok (workID, r) | None => Err ErrWorkNotFound end.

(** [ORDER BY created_at DESC, id DESC]: [newer_first a b] when [a] comes no later. *)
Definition newer_first (a b : string * row) : Prop :=
  w_created b.2 < w_created a.2 \/ (w_created a.2 = w_created b.2 /\ String.le b.1 a.1).
#[global] Instance newer_first_dec a b : Decision (newer_first a b).
Proof. unfold newer_first. apply _. Defined.

Definition ListWork (q : qdb) (envID : string) (after : option (Z * string)) (fetch : nat) : list (string * row) :=
  let page kv :=
    match after with
    | None => true
    | Some (t, id) => (w_created kv.2 <? t) || ((w_created kv.2 =? t) && String.ltb kv.1 id)
    end in
  take fetch (merge_sort newer_first
    (filter (fun kv => in_scope q envID kv.2 && page kv) (map_to_list (q_items q)))).

Definition Ack (now : Z) (q : qdb) (envID workID : string) : result queue_error ((string * row) * qdb) :=
  match visible q envID workID with
  | None => Err ErrWorkNotFound
  | Some r =>
      let r1 := if is_state queued r
                then set_ack (set_state r starting (Some (now + seconds ackStartupLeaseSeconds)) now) (Some now)
                else set_state r (w_state r) (w_lease r) now in
      let r' := set_started r1 (coalesce (w_started r) (Some (w_created r))) in
      Ok ((workID, r'), with_items q (<[workID := r']> (q_items q)))
  end.

Record HeartbeatResult := MkHB {
  hb_last : option Z; hb_state : work_state; hb_extended : bool; hb_ttl : Z }.

(** [parse] is [time.Parse(time.RFC3339Nano, _)]. *)
Definition Heartbeat (parse : string -> option Z) (now : Z) (q : qdb) (envID workID expected : string) (ttlSeconds : Z)
  : result queue_error (HeartbeatResult * qdb) :=
  let updated :=
    match visible q envID workID with
    | None => None
    | Some r =>
        if String.eqb expected NoHeartbeat then
          if bool_decide (w_heartbeat r = None) && is_state starting r
          then
            let r' := set_started (set_heartbeat (set_state r active (Some (now + seconds ttlSeconds)) now) (Some now))
                        (coalesce (w_started r) (Some (w_created r))) in
            Some (MkHB (Some now) active true ttlSeconds, r')
          else None
        else
          match parse expected with
          | Some ts =>
              if bool_decide (w_heartbeat r = Some ts) then
                let r' := if is_state active r
                          then set_heartbeat (set_state r active (Some (now + seconds ttlSeconds)) now) (Some now)
                          else set_state r (w_state r) (w_lease r) now in
                Some (MkHB (w_heartbeat r') (w_state r') (is_state active r') ttlSeconds, r')
              else None
          | None => None
          end
    end in
  match updated with
  | Some (res, r') => Ok (res, with_items q (<[workID := r']> (q_items q)))
  | None =>
      try w <- GetWork q envID workID;
      if String.eqb expected NoHeartbeat && is_state stopping w.2 && bool_decide (w_heartbeat w.2 = None)
      then Ok (MkHB None (w_state w.2) false ttlSeconds, q)
      else Err (ErrHeartbeatMismatch w ttlSeconds expected)
  end.

(** [StopWith]: the item after the stop, and whether the stop moved it. *)
Definition stop_row (now : Z) (force : bool) (r : row) : option row :=
  if force then
    if is_state stopped r then None
    else Some (set_stop (set_state r stopped None now) (coalesce (w_stop_requested r) (Some now)) (Some now))
  else if live r then
    let held := is_state starting r || is_state active r in
    Some (set_stop (set_state r (if held then stopping else stopped) (if held then w_lease r else None) now)
            (coalesce (w_stop_requested r) (Some now)) (if held then w_stopped r else Some now))
  else None.

Definition StopWith (now : Z) (q : qdb) (envID workID : string) (force : bool)
  : result queue_error ((string * row) * bool * qdb) :=
  match visible q envID workID with
  | None => Err ErrWorkNotFound
  | Some r =>
      match stop_row now force r with
      | Some r' => Ok ((workID, r'), true, with_items q (<[workID := r']> (q_items q)))
      | None => Ok ((workID, r), false, q)
      end
  end.

(** [(metadata || upserts) - deletes] *)
Definition UpdateMetadata (now : Z) (q : qdb) (envID workID : string) (upserts : gmap string string)
    (deletes : list string) : result queue_error ((string * row) * qdb) :=
  match visible q envID workID with
  | None => Err ErrWorkNotFound
  | Some r =>
      let meta := foldl (fun m k => delete k m) ((MStr <$> upserts) ∪ w_meta r) deletes in
      let r' := set_meta (set_state r (w_state r) (w_lease r) now) meta in
      Ok ((workID, r'), with_items q (<[workID := r']> (q_items q)))
  end.

(** ** Statistics (stats.go) *)
Record WorkStats := MkStats { Depth : Z; Pending : Z; OldestQueuedAt : option Z; WorkersPolling : Z }.

Definition queued_items (q : qdb) (envID : string) : list (string * row) :=
  select q (fun _ r => is_state queued r && in_scope q envID r).

Definition min_created (l : list (string * row)) : option Z := (fun kv => w_created kv.2) <$> oldest l.

Definition Stats (now : Z) (q : qdb) (envID : string) : WorkStats :=
  let l := queued_items q envID in
  MkStats
    (Z.of_nat (length (filter (fun kv => unreserved now kv.2) l)))
    (Z.of_nat (length (filter (fun kv => negb (unreserved now kv.2)) l)))
    (min_created l)
    (Z.of_nat (length (filter (fun kv : (string * string) * Z =>
       bool_decide (kv.1.1 = envID) && (now - seconds workersPollingWindowSeconds <? kv.2)
       && env_is q self_hosted envID) (map_to_list (q_polls q))))).

(** [lease_expires_at >= now()] is the complement of the free test on a non-null lease. *)
Definition RecordPoll (now : Z) (q : qdb) (envID workerID : string) : qdb :=
  let kept := filter (fun kv : (string * string) * Z =>
    negb (bool_decide (kv.1.1 = envID) && negb (bool_decide (kv.1.2 = workerID))
          && (kv.2 <? now - seconds workersPollingWindowSeconds))) (q_polls q) in
  MkQ (q_envs q) (q_items q) (<[(envID, workerID) := now]> kept).
