(* ===== verification/QueueSpec.v ===== *)
(** * QueueSpec: the queue's contract.

    [apply_op] is any statement of the package; [q_step] is the abstract contract every
    one of them meets (a fresh queued item in a free slot, a permitted change of one row,
    a hand-over of a row to a fresh id, or a permitted change of every row).  The
    invariants are proved on [q_step]; the theorems that follow are about lease fencing,
    the work API's state machine and the two lanes' separation. *)
From Stdlib Require Import Ascii Lia.
From S2P Require Import Prelude GoStrings Ids Queue.

(** ** Operations *)
Inductive op :=
| OEnqueue (id env sess thread : string) (k : Kind) (trace : option string)
| OHarvest (id env sess : string) (grading : bool) (trace : option string)
| OClaim (locked : string -> bool) (k : Kind) (ttl : Z)
| OPoll (locked : string -> bool) (fresh env : string) (reclaim : Z)
| OFinalize (env id : string)
| OExtend (it : Item) (ttl : Z)
| ORenew (it : Item) (ttl : Z)
| ORequeue (it : Item) (chain delay : Z)
| OGrading (it : Item)
| OComplete (it : Item)
| OCancelSession (sess : string)
| OCancelThread (sess thread : string)
| OAck (env id : string)
| OHeartbeat (env id expected : string) (ttl : Z)
| OStop (env id : string) (force : bool)
| OMeta (env id : string) (ups : gmap string string) (dels : list string)
| ORecordPoll (env worker : string).

(** The tables after a statement: an error rolls back. *)
Definition after {A} (q : qdb) (r : result queue_error (A * qdb)) : qdb :=
  match r with Ok (_, q') => q' | Err _ => q end.
Definition after1 (q : qdb) (r : result queue_error qdb) : qdb :=
  match r with Ok q' => q' | Err _ => q end.

Section ops.
Context (as_bool : mval -> option bool) (parse : string -> option Z).

Definition apply_op (now : Z) (q : qdb) (o : op) : qdb :=
  match o with
  | OEnqueue id env sess thread k tr => after q (EnqueueThread now q id env sess thread k tr)
  | OHarvest id env sess g tr => after q (EnqueueOutputsHarvest now q id env sess g tr)
  | OClaim locked k ttl => after q (Claim as_bool now locked q k ttl)
  | OPoll locked fresh env reclaim => after q (PollOn now locked q fresh env reclaim)
  | OFinalize env id => snd (FinalizeAbandoned now q env id)
  | OExtend it ttl => after q (Extend now q it ttl)
  | ORenew it ttl => after q (renewLive now q it ttl)
  | ORequeue it chain delay => after1 q (requeue now q it chain delay)
  | OGrading it => after1 q (RequeueAsGrading now q it)
  | OComplete it => after1 q (Complete now q it)
  | OCancelSession s => CancelSession now q s
  | OCancelThread s t => CancelThread now q s t
  | OAck env id => after q (Ack now q env id)
  | OHeartbeat env id e ttl => after q (Heartbeat parse now q env id e ttl)
  | OStop env id force => after q (StopWith now q env id force)
  | OMeta env id ups dels => after q (UpdateMetadata now q env id ups dels)
  | ORecordPoll env w => RecordPoll now q env w
  end.

Definition run (q : qdb) (trace : list (Z * op)) : qdb := foldl (fun q no => apply_op no.1 q no.2) q trace.
End ops.

(** ** The contract *)

(** The state machine's edges. *)
Definition allowed (s s' : work_state) : bool :=
  match s, s' with
  | queued, stopping => false
  | queued, _ | starting, _ => true
  | active, starting => false
  | active, _ => true
  | stopping, (stopping | stopped) => true
  | stopping, _ => false
  | stopped, stopped => true
  | stopped, _ => false
  end.

Definition identity (r : row) := (w_env r, w_session r, w_thread r, w_kind r, w_created r).

(** A held item carries the lease that can lapse; a stopped one carries none; a stop in
    progress knows when it was asked for. *)
Definition lease_ok (r : row) : Prop :=
  match w_state r with
  | queued => True
  | starting | active => is_Some (w_lease r)
  | stopping => is_Some (w_lease r) /\ is_Some (w_stop_requested r)
  | stopped => w_lease r = None
  end.

(** Only the work API's items are acked, heartbeating or winding down. *)
Definition worker_held (r : row) : bool :=
  is_state starting r || is_state stopping r || match w_heartbeat r with Some _ => true | None => false end.
Definition scope_ok (q : qdb) (r : row) : Prop :=
  worker_held r = true -> w_kind r = ToolExec /\ q_envs q !! w_env r = Some self_hosted.

Record row_step (q : qdb) (r r' : row) : Prop := {
  rs_identity : identity r' = identity r;
  rs_state : allowed (w_state r) (w_state r') = true;
  rs_live : live r' = true -> live r = true;
  rs_lease : lease_ok r -> lease_ok r';
  rs_scope : scope_ok q r -> scope_ok q r' }.

Inductive q_step (now : Z) (q : qdb) : qdb -> Prop :=
| qs_insert id r :
    is_Some (q_envs q !! w_env r) -> q_items q !! id = None ->
    (forall j rj, q_items q !! j = Some rj -> live rj = true -> live_key rj <> live_key r) ->
    w_state r = queued -> w_heartbeat r = None ->
    q_step now q (with_items q (<[id := r]> (q_items q)))
| qs_update id r r' :
    q_items q !! id = Some r -> row_step q r r' ->
    q_step now q (with_items q (<[id := r']> (q_items q)))
| qs_rotate id fresh r r' :
    q_items q !! id = Some r -> q_items q !! fresh = None -> lapsed now r = true ->
    w_state r' = queued -> row_step q r r' ->
    q_step now q (with_items q (<[fresh := r']> (delete id (q_items q))))
| qs_map f :
    (forall r, row_step q r (f r)) ->
    q_step now q (with_items q (f <$> q_items q))
| qs_other polls : q_step now q (MkQ (q_envs q) (q_items q) polls).

Lemma row_step_refl q r : row_step q r r.
Proof. split; auto. by destruct (w_state r). Qed.

Lemma qs_same now q : q_step now q q.
Proof. pose proof (qs_other now q (q_polls q)). by destruct q. Qed.

(** Proves a [row_step] whose target is built by the setters, by the source state. *)
Ltac row_cases r :=
  destruct r as [re rs rt rk [] rl rm rtr rc ra rst rsr rsd rh ru];
  unfold scope_ok, lease_ok, worker_held, live, is_state, lapsed, unreserved in *;
  cbn in *; try discriminate.

Ltac row_tac :=
  split; unfold scope_ok, lease_ok, worker_held, live, is_state in *; cbn in *; eauto; try discriminate;
  try (let H := fresh in intros H ?; apply H; reflexivity).

(** ** Selecting rows *)
Lemma oldest_Some l x :
  oldest l = Some x -> x ∈ l /\ forall y, y ∈ l -> w_created x.2 <= w_created y.2.
Proof.
  revert x; induction l as [|a l IH]; intros x; [done|]. cbn [oldest].
  destruct (oldest l) as [y|] eqn:E.
  - destruct (IH y eq_refl) as [Hy Hmin]. unfold older. destruct (_ <=? _) eqn:H; bool_prop; intros [= <-].
    + split; [left|]. intros z [->|Hz]%elem_of_cons; [lia|]. specialize (Hmin z Hz). lia.
    + split; [by right|]. intros z [->|Hz]%elem_of_cons; [lia|auto].
  - intros [= <-]. destruct l as [|b l]; [|cbn in E; by destruct (oldest l); [destruct (older _ _)|]].
    split; [left|]. intros z Hz. apply list_elem_of_singleton in Hz as ->. lia.
Qed.

Lemma oldest_None l : oldest l = None <-> l = [].
Proof. destruct l as [|a l]; [done|]. cbn. destruct (oldest l); [destruct (older _ _)|]; done. Qed.

Lemma elem_of_select q p id r : (id, r) ∈ select q p <-> q_items q !! id = Some r /\ p id r = true.
Proof.
  unfold select. rewrite list_elem_of_filter, elem_of_map_to_list. cbn. rewrite Is_true_true. tauto.
Qed.

Lemma visible_Some q env id r :
  visible q env id = Some r <->
  q_items q !! id = Some r /\ w_env r = env /\ w_kind r = ToolExec /\ q_envs q !! env = Some self_hosted.
Proof.
  unfold visible, in_scope, env_is. destruct (q_items q !! id) as [r'|]; [|naive_solver].
  destruct (bool_decide (w_env r' = env)) eqn:E1, (bool_decide (w_kind r' = ToolExec)) eqn:E2,
    (bool_decide (q_envs q !! w_env r' = Some self_hosted)) eqn:E3; cbn; bool_prop; naive_solver.
Qed.

Lemma holds_Some q it r :
  holds q it = Some r <->
  q_items q !! it_id it = Some r /\ w_state r = active /\ w_lease r = Some (it_lease it).
Proof.
  unfold holds, is_state. destruct (q_items q !! it_id it) as [r'|]; [|naive_solver].
  destruct (w_state r') eqn:E1, (bool_decide (w_lease r' = Some (it_lease it))) eqn:E2;
    cbn; bool_prop; (split; [intros ?; simplify_eq; done|intros (? & ? & ?); simplify_eq; try congruence; done]).
Qed.

(** ** Every statement is a step *)
Section steps.
Context (as_bool : mval -> option bool) (parse : string -> option Z) (now : Z).
Implicit Types (q : qdb) (r : row).

Lemma step_insert q id r :
  w_state r = queued -> w_heartbeat r = None -> q_step now q (after q (insert_item q id r)).
Proof.
  intros Hs Hh. unfold insert_item. case_bool_decide as He; cbn [negb after]; [|apply qs_same].
  destruct (existsb _ _) eqn:Hx; [apply qs_same|]. case_bool_decide as Hi; [apply qs_same|].
  apply qs_insert; auto; [by apply eq_None_not_Some|].
  intros j rj Hj Hl E. apply not_true_iff_false in Hx. apply Hx, existsb_exists. exists (j, rj).
  rewrite <- list_elem_of_In, elem_of_map_to_list. split; [done|]. cbn. by rewrite Hl, bool_decide_true.
Qed.

Lemma step_claim q locked k ttl : q_step now q (after q (Claim as_bool now locked q k ttl)).
Proof.
  unfold Claim. destruct (oldest _) as [[id r]|] eqn:E; [|apply qs_same].
  apply oldest_Some in E as [[Hi Hp]%elem_of_select _]. unfold claimable in Hp.
  destruct (meta_bool _ _); [|apply qs_same]. eapply qs_update; [done|]. bool_prop.
  row_cases r; row_tac.
Qed.

Lemma step_poll q locked fresh env reclaim : q_step now q (after q (PollOn now locked q fresh env reclaim)).
Proof.
  unfold PollOn. destruct (oldest _) as [[id r]|] eqn:E; [|apply qs_same].
  apply oldest_Some in E as [[Hi Hp]%elem_of_select _]. unfold pollable in Hp. bool_prop.
  assert (Hr : row_step q r (poll_row now reclaim r)) by
    (unfold poll_row; row_cases r; row_tac).
  destruct (w_lease r) as [t|] eqn:El; [|by eapply qs_update].
  case_bool_decide as Hf; [apply qs_same|]. eapply qs_rotate; eauto; [by apply eq_None_not_Some|].
  row_cases r; simplify_eq; cbn in *; try done. all: by rewrite orb_false_r in *.
Qed.

Lemma step_finalize q env id : q_step now q (snd (FinalizeAbandoned now q env id)).
Proof.
  unfold FinalizeAbandoned. destruct (q_items q !! id) as [r|] eqn:E; [|apply qs_same].
  destruct (abandoned now env r) eqn:H; [|apply qs_same]. eapply qs_update; [done|].
  unfold abandoned in H. bool_prop. row_cases r; row_tac.
Qed.

Lemma step_held q it r r' :
  holds q it = Some r -> row_step q r r' -> q_step now q (with_items q (<[it_id it := r']> (q_items q))).
Proof. intros (Hi & _ & _)%holds_Some. by apply qs_update. Qed.

Lemma held_row_step q it r s l m :
  holds q it = Some r -> s = queued \/ s = active /\ is_Some l \/ s = stopped /\ l = None ->
  row_step q r (set_meta (set_state r s l now) m).
Proof.
  intros (_ & Hs & Hl)%holds_Some. row_cases r.
  intros [->|[[-> ?]|[-> ->]]]; split; cbn; auto; try (destruct (bool_decide _); done).
Qed.

Lemma visible_row_step q env id r s l (a st sr sd h : option Z) m :
  visible q env id = Some r -> allowed (w_state r) s = true ->
  (s = queued \/ s = starting \/ s = active -> live r = true) ->
  (lease_ok r -> match s with queued => True | starting | active => is_Some l
                 | stopping => is_Some l /\ is_Some sr | stopped => l = None end) ->
  row_step q r (MkRow (w_env r) (w_session r) (w_thread r) (w_kind r) s l m (w_trace r) (w_created r) a st sr sd h now).
Proof.
  intros (_ & <- & Hk & He)%visible_Some Ha Hl Hlease. split; [done|done| |exact Hlease|intros _ _; done].
  unfold live at 1, is_state; cbn. destruct s; cbn; auto; discriminate.
Qed.

Lemma step_visible q env id r r' :
  visible q env id = Some r -> row_step q r r' -> q_step now q (with_items q (<[id := r']> (q_items q))).
Proof. intros (Hi & _)%visible_Some. by apply qs_update. Qed.

Lemma step_ack q env id : q_step now q (after q (Ack now q env id)).
Proof.
  unfold Ack. destruct (visible q env id) as [r|] eqn:E; [|apply qs_same]. cbn [after].
  eapply step_visible; [done|]. pose proof E as (_ & <- & Hk & He)%visible_Some.
  row_cases r; row_tac.
Qed.

Lemma step_heartbeat q env id e ttl : q_step now q (after q (Heartbeat parse now q env id e ttl)).
Proof.
  unfold Heartbeat, GetWork. destruct (visible q env id) as [r|] eqn:E; [|apply qs_same].
  pose proof E as (_ & <- & Hk & He)%visible_Some.
  destruct (String.eqb e NoHeartbeat); cbn [andb].
  - destruct (bool_decide (w_heartbeat r = None) && is_state starting r) eqn:Hc; cbn [after].
    + eapply step_visible; [done|]. bool_prop. row_cases r; row_tac.
    + destruct (is_state stopping _ && _); apply qs_same.
  - destruct (parse e) as [ts|]; [|apply qs_same]. case_bool_decide as Hh; [|apply qs_same].
    cbn [after]. eapply step_visible; [done|]. row_cases r; row_tac.
Qed.

Lemma step_stop q env id force : q_step now q (after q (StopWith now q env id force)).
Proof.
  unfold StopWith. destruct (visible q env id) as [r|] eqn:E; [|apply qs_same].
  pose proof E as (_ & <- & Hk & He)%visible_Some.
  destruct (stop_row now force r) as [r'|] eqn:Hs; [|apply qs_same]. cbn [after].
  eapply step_visible; [done|]. unfold stop_row in Hs.
  destruct force; row_cases r; simplify_eq; row_tac;
    intros; destruct rsr; cbn; eauto.
Qed.

Lemma step_meta q env id ups dels : q_step now q (after q (UpdateMetadata now q env id ups dels)).
Proof.
  unfold UpdateMetadata. destruct (visible q env id) as [r|] eqn:E; [|apply qs_same]. cbn [after].
  eapply step_visible; [done|]. pose proof E as (_ & <- & Hk & He)%visible_Some. row_cases r; row_tac.
Qed.

Lemma cancel_row_step q r : row_step q r (cancel_row now r).
Proof. unfold cancel_row. row_cases r; row_tac. Qed.

Lemma step_update_where q (p : row -> bool) : q_step now q (update_where q p (cancel_row now)).
Proof.
  unfold update_where. apply qs_map. intros r. destruct (p r); [apply cancel_row_step|apply row_step_refl].
Qed.

Lemma apply_op_step q o : q_step now q (apply_op as_bool parse now q o).
Proof.
  destruct o; cbn [apply_op].
  - apply step_insert; done.
  - apply step_insert; done.
  - apply step_claim.
  - apply step_poll.
  - apply step_finalize.
  - unfold Extend. destruct (holds q it) as [r|] eqn:E; [|apply qs_same]. cbn [after].
    eapply step_held; [done|]. apply holds_Some in E as (_ & Hs & _). row_cases r; row_tac.
  - unfold renewLive. destruct (holds q it) as [r|] eqn:E; [|apply qs_same].
    destruct (now <? it_lease it); [|apply qs_same]. cbn [after].
    eapply step_held; [done|]. apply holds_Some in E as (_ & Hs & _). row_cases r; row_tac.
  - unfold requeue. destruct (holds q it) as [r|] eqn:E; [|apply qs_same]. cbn [after1].
    eapply step_held; [done|]. eapply held_row_step; [done|]. by left.
  - unfold RequeueAsGrading. destruct (holds q it) as [r|] eqn:E; [|apply qs_same]. cbn [after1].
    eapply step_held; [done|]. eapply held_row_step; [done|]. by left.
  - unfold Complete. destruct (holds q it) as [r|] eqn:E; [|apply qs_same]. cbn [after1].
    eapply step_held; [done|]. apply holds_Some in E as (_ & Hs & _). row_cases r; row_tac.
  - apply step_update_where.
  - apply step_update_where.
  - apply step_ack.
  - apply step_heartbeat.
  - apply step_stop.
  - apply step_meta.
  - apply qs_other.
Qed.
End steps.

(** ** Invariants *)
Record wf (q : qdb) : Prop := {
  wf_live : forall i j ri rj, q_items q !! i = Some ri -> q_items q !! j = Some rj ->
    live ri = true -> live rj = true -> live_key ri = live_key rj -> i = j;
  wf_lease : forall i r, q_items q !! i = Some r -> lease_ok r;
  wf_scope : forall i r, q_items q !! i = Some r -> scope_ok q r;
  wf_env : forall i r, q_items q !! i = Some r -> is_Some (q_envs q !! w_env r) }.

Lemma identity_key r r' : identity r' = identity r -> live_key r' = live_key r /\ w_env r' = w_env r.
Proof. unfold identity, live_key. intros [= E1 E2 E3 E4 E5]. by rewrite E1, E2, E3, E4. Qed.

Lemma q_step_envs now q q' : q_step now q q' -> q_envs q' = q_envs q.
Proof. by intros []. Qed.

Lemma scope_ok_envs q q' r : q_envs q' = q_envs q -> scope_ok q r -> scope_ok q' r.
Proof. unfold scope_ok. by intros ->. Qed.

(** A step keeps every property of rows that the permitted changes keep and fresh items have. *)
Lemma q_step_rows now q q' (P : row -> Prop) :
  q_step now q q' ->
  (forall r r', row_step q r r' -> P r -> P r') ->
  (forall r, w_state r = queued -> w_heartbeat r = None -> is_Some (q_envs q !! w_env r) -> P r) ->
  (forall i r, q_items q !! i = Some r -> P r) -> forall i r, q_items q' !! i = Some r -> P r.
Proof.
  intros Hs Hstep Hnew HP i r. destruct Hs as [id r0 He Hi Hk Hst Hh|id r0 r1 Hi Hr|id fresh r0 r1 Hi Hf Hl Hst Hr|f Hf|polls];
    cbn [q_items with_items].
  - rewrite lookup_insert. case_decide; [intros [= <-]; auto|apply HP].
  - rewrite lookup_insert. case_decide; [intros [= <-]; eauto|apply HP].
  - rewrite lookup_insert. case_decide; [intros [= <-]; eauto|].
    rewrite lookup_delete. case_decide; [done|apply HP].
  - rewrite lookup_fmap. intros (r0 & Hr0 & ->)%fmap_Some. eauto.
  - apply HP.
Qed.

Lemma q_step_live now q q' : wf q -> q_step now q q' ->
  forall i j ri rj, q_items q' !! i = Some ri -> q_items q' !! j = Some rj ->
    live ri = true -> live rj = true -> live_key ri = live_key rj -> i = j.
Proof.
  intros Hwf Hs i j ri rj. pose proof (wf_live _ Hwf) as HL.
  destruct Hs as [id r0 He Hi Hk Hst Hh|id r0 r1 Hi Hr|id fresh r0 r1 Hi Hf Hl Hst Hr|f Hf|polls];
    cbn [q_items with_items].
  - rewrite !lookup_insert. do 2 case_decide; intros Hri Hrj H1' H2' E; try congruence; [..|by eapply HL]; exfalso.
    + injection Hri as <-. by apply (Hk j rj).
    + injection Hrj as <-. by apply (Hk i ri).
  - destruct (identity_key _ _ (rs_identity _ _ _ Hr)) as [Ek _]. pose proof (rs_live _ _ _ Hr) as Hlv.
    rewrite !lookup_insert. do 2 case_decide; intros Hri Hrj H1' H2' E; [congruence|..];
      subst; [injection Hri as <-|injection Hrj as <-|]; eapply HL; eauto; congruence.
  - destruct (identity_key _ _ (rs_identity _ _ _ Hr)) as [Ek _]. pose proof (rs_live _ _ _ Hr) as Hlv.
    rewrite !lookup_insert, !lookup_delete. repeat case_decide; intros Hri Hrj H1' H2' E; try congruence;
      try (by eapply HL); exfalso.
    + injection Hri as <-. assert (id = j) by (eapply HL; eauto; congruence). done.
    + injection Hrj as <-. assert (id = i) by (eapply HL; eauto; congruence). done.
  - rewrite !lookup_fmap. intros (r0 & Hr0 & ->)%fmap_Some (r1 & Hr1 & ->)%fmap_Some Hl0 Hl1 E.
    destruct (identity_key _ _ (rs_identity _ _ _ (Hf r0))) as [Ek0 _].
    destruct (identity_key _ _ (rs_identity _ _ _ (Hf r1))) as [Ek1 _].
    eapply HL; eauto; [by apply (rs_live _ _ _ (Hf r0))|by apply (rs_live _ _ _ (Hf r1))|congruence].
  - apply HL.
Qed.

Lemma q_step_wf now q q' : wf q -> q_step now q q' -> wf q'.
Proof.
  intros Hwf Hs. pose proof (q_step_envs _ _ _ Hs) as He. split.
  - by apply (q_step_live now q).
  - apply (q_step_rows now q q' lease_ok Hs); [intros r r' H; apply H| |apply Hwf].
    intros r Hst _ _. unfold lease_ok. by rewrite Hst.
  - intros i r Hi. apply (scope_ok_envs q); [done|]. revert i r Hi.
    apply (q_step_rows now q q' (scope_ok q) Hs); [intros r r' H; apply H| |apply Hwf].
    intros r Hst Hh _. unfold scope_ok, worker_held, is_state. by rewrite Hst, Hh.
  - rewrite He. apply (q_step_rows now q q' (fun r => is_Some (q_envs q !! w_env r)) Hs); [|auto|apply Hwf].
    intros r r' H. by destruct (identity_key _ _ (rs_identity _ _ _ H)) as [_ ->].
Qed.

(** Where an item goes in one step. *)
Definition moves_to (now : Z) (q q' : qdb) (i : string) (r : row) : Prop :=
  exists j r', q_items q' !! j = Some r' /\ identity r' = identity r /\
    allowed (w_state r) (w_state r') = true /\
    (i = j \/ q_items q' !! i = None /\ q_items q !! j = None /\ w_state r' = queued /\ lapsed now r = true).

Lemma q_step_moves now q q' i r :
  q_step now q q' -> q_items q !! i = Some r -> moves_to now q q' i r.
Proof.
  intros Hs Hi. unfold moves_to.
  assert (Hstay : q_items q' !! i = Some r -> moves_to now q q' i r).
  { intros H. exists i, r. split_and!; auto. by destruct (w_state r). }
  destruct Hs as [id r0 He Hid Hk Hst Hh|id r0 r1 Hid Hr|id fresh r0 r1 Hid Hf Hl Hst Hr|f Hf|polls].
  - apply Hstay. cbn. rewrite lookup_insert_ne; [done|]. intros ->. congruence.
  - destruct (decide (i = id)) as [->|Hne]; [|apply Hstay; cbn; by rewrite lookup_insert_ne].
    simplify_eq. exists id, r1. cbn. rewrite lookup_insert_eq. destruct Hr. auto.
  - destruct (decide (i = id)) as [->|Hne].
    + simplify_eq. exists fresh, r1. cbn. rewrite lookup_insert_eq. destruct Hr. split_and!; auto.
      right. rewrite lookup_insert_ne by congruence. by rewrite lookup_delete_eq.
    + apply Hstay. cbn. rewrite lookup_insert_ne by congruence. by rewrite lookup_delete_ne.
  - exists i, (f r). cbn. rewrite lookup_fmap, Hi. destruct (Hf r). auto.
  - by apply Hstay.
Qed.

(** ** Theorems: every statement *)
Section theorems.
Context (as_bool : mval -> option bool) (parse : string -> option Z).
Implicit Types (q : qdb) (r : row).
#[local] Abbreviation apply_op := (apply_op as_bool parse).
#[local] Abbreviation run := (run as_bool parse).

Lemma run_wf q trace : wf q -> wf (run q trace).
Proof.
  revert q; induction trace as [|[now o] trace IH]; intros q Hq; [done|]. cbn.
  apply IH. by eapply q_step_wf, apply_op_step.
Qed.

(** C1: the queue's invariant survives every sequence of its statements, concurrent
    claimants and workers included: at most one live item per session, thread and kind
    (so a trigger cannot double-schedule a turn); a held item always carries the lease
    whose lapse frees it and a stopped one none; only a self_hosted environment's
    tool_exec items are ever acked, heartbeating or winding down. *)
Theorem queue_invariant q trace i j ri rj :
  wf q -> q_items (run q trace) !! i = Some ri -> q_items (run q trace) !! j = Some rj ->
  (live ri = true -> live rj = true -> live_key ri = live_key rj -> i = j) /\
  match w_state ri with
  | queued => True
  | starting | active => is_Some (w_lease ri)
  | stopping => is_Some (w_lease ri) /\ is_Some (w_stop_requested ri)
  | stopped => w_lease ri = None
  end /\
  (w_state ri = starting \/ w_state ri = stopping \/ is_Some (w_heartbeat ri) ->
   w_kind ri = ToolExec /\ q_envs (run q trace) !! w_env ri = Some self_hosted).
Proof.
  intros Hq Hi Hj. apply (run_wf _ trace) in Hq. destruct Hq as [HL Hle Hsc _]. split_and!.
  - by eapply HL.
  - apply (Hle _ _ Hi).
  - intros Hw. apply (Hsc _ _ Hi). unfold worker_held, is_state.
    destruct Hw as [->|[->|[h ->]]]; cbn; [done|done|]. by destruct (w_state ri).
Qed.

(** Statements that leave every id where it is. *)
Definition keeps_ids q q' : Prop := forall i, is_Some (q_items q !! i) -> is_Some (q_items q' !! i).

Lemma keeps_same q : keeps_ids q q.
Proof. by intros i. Qed.

Lemma keeps_insert q id r : keeps_ids q (with_items q (<[id := r]> (q_items q))).
Proof. intros i Hi. cbn. rewrite lookup_insert. case_decide; [by eexists|done]. Qed.

Lemma keeps_where q p f : keeps_ids q (update_where q p f).
Proof. intros i Hi. unfold update_where. cbn. by rewrite lookup_fmap, fmap_is_Some. Qed.

Lemma keeps_item q id r : keeps_ids q (after q (insert_item q id r)).
Proof. unfold insert_item. repeat case_match; first [apply keeps_insert|apply keeps_same]. Qed.

(** Only a poll takes an id away, and it puts the row under the id it was given. *)
Lemma apply_op_ids now q o :
  keeps_ids q (apply_op now q o) \/
  exists locked fresh env reclaim, o = OPoll locked fresh env reclaim /\
    forall j, is_Some (q_items (apply_op now q o) !! j) -> q_items q !! j = None -> j = fresh.
Proof.
  destruct o; cbn [QueueSpec.apply_op]; try (left; first [apply keeps_item|apply keeps_where]).
  2: { right. eexists _, _, _, _. split; [done|]. unfold PollOn. intros j.
       destruct (oldest _) as [[id r]|] eqn:Eo; cbn [after]; [|by intros [x Hx]; congruence].
       assert (Hid : is_Some (q_items q !! id)).
       { apply oldest_Some in Eo as [Eo _]. apply elem_of_select in Eo as [Eo _]. by eexists. }
       destruct (w_lease r); [|cbn; rewrite lookup_insert; case_decide; [subst; by intros _ Hn; destruct Hid; congruence|by intros [x Hx]; congruence]].
       case_bool_decide; cbn [after]; [by intros [x Hx]; congruence|]. cbn. rewrite lookup_insert. case_decide; [done|].
       rewrite lookup_delete. case_decide; [by intros []|]. by intros [x Hx]; congruence. }
  all: left; unfold Claim, FinalizeAbandoned, Extend, renewLive, requeue, RequeueAsGrading, Complete, Ack, Heartbeat, GetWork,
         StopWith, UpdateMetadata, RecordPoll; repeat case_match; cbn [after after1 snd];
       first [apply keeps_insert|apply keeps_same|by intros i].
Qed.

(** C21: an item never leaves the state machine.  Whatever statement runs, the item is
    afterwards in a state its own state permits, with the same session, thread, kind,
    environment and creation time; stopped is final and a stop in progress can only
    finish.  It is under the id it had, unless the statement is a poll that found its lease
    lapsed: that one hands the row to the id it was given, queued again. *)
Theorem state_machine now q o i r :
  q_items q !! i = Some r ->
  exists j r', q_items (apply_op now q o) !! j = Some r' /\
    identity r' = identity r /\ allowed (w_state r) (w_state r') = true /\
    (i <> j -> q_items (apply_op now q o) !! i = None /\ q_items q !! j = None /\
               w_state r' = queued /\ (exists t, w_lease r = Some t /\ t < now) /\
               exists locked env reclaim, o = OPoll locked j env reclaim).
Proof.
  intros Hi. destruct (q_step_moves now q _ i r (apply_op_step as_bool parse now q o) Hi)
    as (j & r' & Hj & Hid & Ha & Hc).
  exists j, r'. split_and!; auto. intros Hne. destruct Hc as [?|(Hg & Hn & ? & Hl)]; [done|].
  split_and!; auto.
  - unfold lapsed in Hl. destruct (w_lease r); bool_prop; [eauto|done].
  - destruct (apply_op_ids now q o) as [Hk|(locked & fresh & env & reclaim & -> & Hf)].
    + exfalso. destruct (Hk i) as [x Hx]; [by eexists|congruence].
    + rewrite (Hf j); [eauto|by eexists|done].
Qed.

(** *** Leases *)

(** The lease a statement would install on an item it makes or keeps active. *)
Definition grants (now : Z) (o : op) : option Z :=
  match o with
  | OClaim _ _ ttl | OExtend _ ttl | ORenew _ ttl => Some (now + ttl)
  | OHeartbeat _ _ _ ttl => Some (now + seconds ttl)
  | _ => None
  end.

(** A row active under a lease was that before, or the statement granted it. *)
Definition regains (now : Z) q (o : op) q' : Prop :=
  forall i r' L, q_items q' !! i = Some r' -> w_state r' = active -> w_lease r' = Some L ->
    grants now o = Some L \/
    exists r, q_items q !! i = Some r /\ w_state r = active /\ w_lease r = Some L.

Lemma regains_insert now q o id r' :
  (w_state r' = active -> forall L, w_lease r' = Some L ->
     grants now o = Some L \/ exists r, q_items q !! id = Some r /\ w_state r = active /\ w_lease r = Some L) ->
  regains now q o (with_items q (<[id := r']> (q_items q))).
Proof.
  intros H i x L. cbn. rewrite lookup_insert. case_decide; [intros [= <-]; subst; eauto|]. eauto.
Qed.

Lemma regains_same now q o : regains now q o q.
Proof. intros i r L ? ? ?. right. eauto. Qed.

Lemma regains_where now q o p : regains now q o (update_where q p (cancel_row now)).
Proof.
  intros i r' L. unfold update_where; cbn. rewrite lookup_fmap. intros (r & Hr & ->)%fmap_Some.
  destruct (p r); [done|]. eauto.
Qed.

Lemma regains_insert_item now q o id r :
  w_state r = queued -> regains now q o (after q (insert_item q id r)).
Proof.
  intros Hs. unfold insert_item. destruct (negb _); [apply regains_same|]. destruct (existsb _ _); [apply regains_same|].
  case_bool_decide; [apply regains_same|]. apply regains_insert. congruence.
Qed.

Lemma apply_op_regains now q o : regains now q o (apply_op now q o).
Proof.
  destruct o; cbn [QueueSpec.apply_op].
  - by apply regains_insert_item.
  - by apply regains_insert_item.
  - unfold Claim. destruct (oldest _) as [[id r]|]; [|apply regains_same].
    destruct (meta_bool _ _); [|apply regains_same]. cbn [after].
    apply regains_insert. cbn. intros _ L [= <-]. by left.
  - unfold PollOn. destruct (oldest _) as [[id r]|]; [|apply regains_same].
    destruct (w_lease r); [|by apply regains_insert].
    case_bool_decide; [apply regains_same|]. intros i r' L. cbn. rewrite lookup_insert.
    case_decide; [by intros [= <-]|]. rewrite lookup_delete. case_decide; [done|]. eauto.
  - unfold FinalizeAbandoned. destruct (q_items q !! id) as [r|]; [|apply regains_same].
    destruct (abandoned now env r); [by apply regains_insert|apply regains_same].
  - unfold Extend. destruct (holds q it) as [r|]; [|apply regains_same].
    apply regains_insert. cbn. intros _ L [= <-]. by left.
  - unfold renewLive. destruct (holds q it) as [r|]; [|apply regains_same].
    destruct (now <? it_lease it); [|apply regains_same].
    apply regains_insert. cbn. intros _ L [= <-]. by left.
  - unfold requeue. destruct (holds q it) as [r|]; [by apply regains_insert|apply regains_same].
  - unfold RequeueAsGrading. destruct (holds q it) as [r|]; [by apply regains_insert|apply regains_same].
  - unfold Complete. destruct (holds q it) as [r|]; [by apply regains_insert|apply regains_same].
  - apply regains_where.
  - apply regains_where.
  - unfold Ack. destruct (visible q env id) as [r|] eqn:E; [|apply regains_same].
    apply visible_Some in E as (Hi & _). apply regains_insert.
    unfold is_state. destruct (w_state r) eqn:Es; cbn; try done; intros Hs L HL; try congruence.
    right. eauto.
  - unfold Heartbeat, GetWork. destruct (visible q env id) as [r|] eqn:E; [|apply regains_same].
    apply visible_Some in E as (Hi & _). destruct (String.eqb expected NoHeartbeat); cbn [andb].
    + destruct (bool_decide (w_heartbeat r = None) && is_state starting r); cbn [after].
      * apply regains_insert. cbn. intros _ L [= <-]. by left.
      * destruct (is_state stopping _ && _); apply regains_same.
    + destruct (parse expected) as [ts|]; [|apply regains_same]. case_bool_decide; [|apply regains_same].
      cbn [after]. apply regains_insert. unfold is_state. destruct (w_state r) eqn:Es; cbn; try done; try congruence.
      intros _ L [= <-]. by left.
  - unfold StopWith. destruct (visible q env id) as [r|] eqn:E; [|apply regains_same].
    destruct (stop_row now force r) as [r'|] eqn:Hs; [|apply regains_same]. cbn [after].
    apply regains_insert. unfold stop_row in Hs.
    destruct force; row_cases r; simplify_eq; cbn; discriminate.
  - unfold UpdateMetadata. destruct (visible q env id) as [r|] eqn:E; [|apply regains_same].
    apply visible_Some in E as (Hi & _). apply regains_insert. cbn. eauto.
  - intros i r L ? ? ?. right. eauto.
Qed.

Lemma lost_stays now q o it :
  holds q it = None -> (forall L, grants now o = Some L -> it_lease it < L) -> holds (apply_op now q o) it = None.
Proof.
  intros Hn Hg. destruct (holds (apply_op now q o) it) as [r'|] eqn:E; [|done].
  apply holds_Some in E as (Hi & Hs & Hl).
  destruct (apply_op_regains now q o _ _ _ Hi Hs Hl) as [HG|(r & ?)].
  - apply Hg in HG. lia.
  - assert (holds q it = Some r) by (by apply holds_Some). congruence.
Qed.

(** C19: a lost lease is never regained.  Once an item is no longer its claimant's (it was
    reclaimed, cancelled, stopped or handed back), then after any further statements,
    leases they grant expiring after the lost one as a clock that moves forward makes
    them, every statement the old claimant issues with its lease is refused with
    [ErrLeaseLost] and changes nothing: a stalled brain or executor cannot complete,
    extend, requeue or settle over its replacement. *)
Theorem lease_fencing q it trace :
  holds q it = None ->
  Forall (fun no => forall L, grants no.1 no.2 = Some L -> it_lease it < L) trace ->
  forall now ttl chain delay,
    Extend now (run q trace) it ttl = Err ErrLeaseLost /\
    renewLive now (run q trace) it ttl = Err ErrLeaseLost /\
    requeue now (run q trace) it chain delay = Err ErrLeaseLost /\
    RequeueAsGrading now (run q trace) it = Err ErrLeaseLost /\
    Complete now (run q trace) it = Err ErrLeaseLost /\
    Assert (run q trace) it = Err ErrLeaseLost.
Proof.
  intros Hn Ht now ttl chain delay.
  assert (Hh : holds (run q trace) it = None).
  { revert q Hn. induction Ht as [|[t o] trace Ho Ht IH]; intros q Hn; [done|].
    cbn. apply IH. by apply lost_stays. }
  unfold Extend, renewLive, requeue, RequeueAsGrading, Complete, Assert. by rewrite Hh.
Qed.

(** Claim leases the oldest item it may.  It hands out nothing only when nothing of
    the kind is claimable and unlocked; otherwise the item it returns was claimable and
    no claimable unlocked item is older, it is active under the returned lease
    afterwards (so every statement of this claimant is accepted until the lease is lost),
    and whoever held it before has lost it, provided the new lease expires later. *)
Theorem Claim_oldest now locked q k ttl x q' :
  Claim as_bool now locked q k ttl = Ok (x, q') ->
  match x with
  | None => q' = q /\ forall i r, q_items q !! i = Some r -> locked i = false -> claimable now q k r = false
  | Some it =>
      exists r, q_items q !! it_id it = Some r /\ claimable now q k r = true /\ locked (it_id it) = false /\
        (forall i r', q_items q !! i = Some r' -> locked i = false -> claimable now q k r' = true ->
           w_created r <= w_created r') /\
        is_Some (holds q' it) /\ it_lease it = now + ttl /\ it_reclaimed it = is_state active r /\
        (forall old, it_id old = it_id it -> it_lease old < now + ttl -> holds q' old = None)
  end.
Proof.
  unfold Claim. destruct (oldest _) as [[id r]|] eqn:E.
  - apply oldest_Some in E as [[Hi Hp]%elem_of_select Hmin]. bool_prop.
    destruct (meta_bool _ _) as [g|]; [|done]. intros [= <- <-]. cbn. exists r. split_and!; auto.
    + intros i r' Hi' Hlk Hc. apply (Hmin (i, r')). apply elem_of_select. by rewrite Hlk, Hc.
    + unfold holds; cbn. rewrite lookup_insert_eq. cbn. by rewrite bool_decide_true.
    + intros old Hid Hlt. unfold holds; cbn. rewrite Hid, lookup_insert_eq. cbn.
      rewrite bool_decide_false; [done|]. intros [= ?]. lia.
  - intros [= <- <-]. split; [done|]. intros i r Hi Hl. apply oldest_None in E.
    destruct (claimable now q k r) eqn:Hc; [|done].
    assert (H : (i, r) ∈ select q (fun id r => negb (locked id) && claimable now q k r))
      by (apply elem_of_select; by rewrite Hl, Hc). rewrite E in H. by apply elem_of_nil in H.
Qed.
End theorems.
