(* ===== verification/QueueWire.v ===== *)
(** * QueueWire: the work API's statements and the queue's front door.

    Poll and its rotation of ids, the enqueue that never double-schedules, the heartbeat
    protocol, the two-phase stop and the settlement of the wind-downs nobody finished,
    and the statistics; then concrete runs of the queue. *)
From Stdlib Require Import Ascii Lia.
From S2P Require Import Prelude GoStrings Ids Queue QueueSpec.

Section wire.
Implicit Types (q : qdb) (r : row).

(** Poll hands a worker the oldest item it may have, and never one another worker can
    still reach.  It answers nothing only when nothing is pollable and unlocked; the item
    it returns belongs to the polled self_hosted environment and is queued again under a
    new reservation.  A first hand-out keeps the id; a re-hand-out moves the row to a
    fresh id, after which every work API call with the old id (ack, heartbeat, stop,
    metadata) answers [ErrWorkNotFound]. *)
Theorem Poll_hands_out now locked q fresh env reclaim x q' :
  PollOn now locked q fresh env reclaim = Ok (x, q') ->
  match x with
  | None => q' = q /\ forall i r, q_items q !! i = Some r -> locked i = false -> pollable now q env r = false
  | Some (id', r') =>
      exists id r, q_items q !! id = Some r /\ pollable now q env r = true /\ locked id = false /\
        (forall i ri, q_items q !! i = Some ri -> locked i = false -> pollable now q env ri = true ->
           w_created r <= w_created ri) /\
        visible q' env id' = Some r' /\ identity r' = identity r /\
        w_state r' = queued /\ w_lease r' = Some (now + reclaim) /\ w_heartbeat r' = None /\
        match w_lease r with
        | None => id' = id
        | Some _ => id' = fresh /\
            forall parse now' e ttl force ups dels,
              Ack now' q' env id = Err ErrWorkNotFound /\
              Heartbeat parse now' q' env id e ttl = Err ErrWorkNotFound /\
              StopWith now' q' env id force = Err ErrWorkNotFound /\
              UpdateMetadata now' q' env id ups dels = Err ErrWorkNotFound
        end
  end.
Proof.
  unfold PollOn. destruct (oldest _) as [[id r]|] eqn:E.
  - apply oldest_Some in E as [[Hi Hp]%elem_of_select Hmin]. apply andb_true_iff in Hp as [Hlk Hp].
    apply negb_true_iff in Hlk.
    assert (Hpr : w_env r = env /\ w_kind r = ToolExec /\ q_envs q !! env = Some self_hosted).
    { unfold pollable, env_is in Hp. bool_prop. by subst. }
    destruct Hpr as (Henv & Hk & Hsh).
    assert (Hold : forall i ri, q_items q !! i = Some ri -> locked i = false -> pollable now q env ri = true ->
              w_created r <= w_created ri).
    { intros i ri Hri Hl Hpi. apply (Hmin (i, ri)). apply elem_of_select. by rewrite Hl, Hpi. }
    destruct (w_lease r) as [t|] eqn:El.
    + case_bool_decide as Hf; [done|]. intros [= <- <-]. exists id, r. rewrite El.
      split_and!; try done; [apply visible_Some; cbn; by rewrite lookup_insert_eq|].
      intros parse now' e ttl force ups dels.
      assert (Hv : visible (with_items q (<[fresh:=poll_row now reclaim r]> (delete id (q_items q)))) env id = None).
      { unfold visible; cbn. rewrite lookup_insert_ne, lookup_delete_eq; [done|].
        intros <-. apply Hf. by rewrite Hi. }
      unfold Ack, Heartbeat, StopWith, UpdateMetadata, GetWork. by rewrite Hv.
    + intros [= <- <-]. exists id, r. rewrite El.
      split_and!; try done. apply visible_Some; cbn; by rewrite lookup_insert_eq.
  - intros [= <- <-]. split; [done|]. intros i r Hi Hl. apply oldest_None in E.
    destruct (pollable now q env r) eqn:Hc; [|done].
    assert (H : (i, r) ∈ select q (fun id r => negb (locked id) && pollable now q env r))
      by (apply elem_of_select; by rewrite Hl, Hc). rewrite E in H. by apply elem_of_nil in H.
Qed.

(** The two lanes never meet.  No row can be handed out both by Claim and by Poll,
    whatever kinds and environments they are asked for; and Poll never offers anything
    but a tool_exec item. *)
Theorem lanes_disjoint now now' q k env r :
  claimable now q k r && pollable now' q env r = false /\ (pollable now' q env r = true -> w_kind r = ToolExec).
Proof.
  split; [|unfold pollable; intros; by bool_prop].
  apply not_true_iff_false. unfold claimable, pollable, env_is. intros Hc. bool_prop.
  match goal with H : _ || bool_decide (_ = Some cloud) = true |- _ =>
    rewrite bool_decide_true in H by done; cbn in H end. bool_prop. congruence.
Qed.

(** *** Enqueue *)
Lemma live_taken q key :
  existsb (fun kv => live kv.2 && bool_decide (live_key kv.2 = key)) (map_to_list (q_items q)) = true <->
  exists i r, q_items q !! i = Some r /\ live r = true /\ live_key r = key.
Proof.
  rewrite existsb_exists. split.
  - intros ([i r] & Hin & H). rewrite <- list_elem_of_In, elem_of_map_to_list in Hin. cbn in H. bool_prop. eauto.
  - intros (i & r & Hi & Hl & Hk). exists (i, r). rewrite <- list_elem_of_In, elem_of_map_to_list. cbn.
    by rewrite Hl, bool_decide_true.
Qed.

(** Enqueue is idempotent while the work is live.  It reports [true] exactly when no
    queued, starting or active item held the session, thread and kind, and then the item
    is there, queued and unleased, and nothing else changed; [false] exactly when one
    did, and then nothing changed at all.  A stop in progress does not hold the slot. *)
Theorem Enqueue_once now q id env sess thread k tr created q' :
  EnqueueThread now q id env sess thread k tr = Ok (created, q') ->
  let taken := exists i r, q_items q !! i = Some r /\ live r = true /\
                 w_session r = sess /\ w_thread r = nullableThread thread /\ w_kind r = k in
  if created
  then (~ taken) /\ (exists r, q_items q' = <[id := r]> (q_items q) /\ q_items q !! id = None /\
         w_state r = queued /\ w_lease r = None /\ live_key r = (sess, nullableThread thread, k) /\ w_env r = env)
  else taken /\ q' = q.
Proof.
  unfold EnqueueThread, insert_item. destruct (negb _); [done|].
  destruct (existsb _ _) eqn:Hx.
  - intros [= <- <-]. cbv zeta. apply live_taken in Hx as (i & r & Hi & Hl & Hk). split; [|done].
    unfold live_key in Hk; cbn in Hk. exists i, r. by simplify_eq.
  - destruct (bool_decide (is_Some (q_items q !! id))) eqn:Hid; [done|]. bool_prop. intros [= <- <-]. cbv zeta. split.
    + intros (i & r & Hi & Hl & <- & Ht & <-). apply not_true_iff_false in Hx. apply Hx, live_taken.
      exists i, r. split_and!; auto. unfold live_key; cbn. congruence.
    + eexists. split; [done|]. split; [by apply eq_None_not_Some|]. done.
Qed.

(** *** Heartbeat *)

(** A beat's precondition: the claim of an acked item, or the echo of the last beat. *)
Definition beat_matches (parse : string -> option Z) (e : string) r : Prop :=
  if String.eqb e NoHeartbeat then w_heartbeat r = None /\ w_state r = starting
  else exists ts, parse e = Some ts /\ w_heartbeat r = Some ts.

(** The heartbeat protocol, on every branch.  An item the work API cannot see is not
    found.  A beat whose precondition holds is answered: on an item that is (or by this
    claim becomes) active the lease is extended to now + ttl and the beat recorded;
    on one being stopped, or stopped, nothing but the update stamp changes and the
    answer carries that state and no extension, so the worker learns to wind down.  A
    beat whose precondition fails changes nothing: the claim of an item stopped between
    its ack and its claim is answered with the stop, every other one is a mismatch that
    carries the item as the beat found it. *)
Theorem Heartbeat_table parse now q env id e ttl :
  match visible q env id with
  | None => Heartbeat parse now q env id e ttl = Err ErrWorkNotFound
  | Some r =>
      (beat_matches parse e r -> exists res q' r',
         Heartbeat parse now q env id e ttl = Ok (res, q') /\
         q_items q' = <[id := r']> (q_items q) /\ identity r' = identity r /\
         hb_state res = w_state r' /\ hb_last res = w_heartbeat r' /\
         if hb_extended res
         then w_state r' = active /\ w_lease r' = Some (now + seconds ttl) /\ w_heartbeat r' = Some now
         else w_state r <> active /\ w_state r' = w_state r /\ w_lease r' = w_lease r /\ w_heartbeat r' = w_heartbeat r) /\
      (~ beat_matches parse e r ->
         Heartbeat parse now q env id e ttl =
           if String.eqb e NoHeartbeat && is_state stopping r && bool_decide (w_heartbeat r = None)
           then Ok (MkHB None stopping false ttl, q)
           else Err (ErrHeartbeatMismatch (id, r) ttl e))
  end.
Proof.
  unfold Heartbeat, GetWork, beat_matches. destruct (visible q env id) as [r|]; [|done].
  destruct (String.eqb e NoHeartbeat) eqn:He; cbn [andb].
  - split.
    + intros [Hh Hs]. unfold is_state. rewrite Hh, Hs, bool_decide_true by done. cbn. eexists _, _, _. done.
    + intros Hn. destruct (bool_decide (w_heartbeat r = None) && is_state starting r) eqn:Hc.
      { bool_prop. destruct Hn. split; [done|]. unfold is_state in *. by destruct (w_state r). }
      unfold is_state in *. destruct (w_state r) eqn:Es; cbn; rewrite ?Es; done.
  - destruct (parse e) as [ts|]; [|split; [by intros (? & ? & ?)|done]]. case_bool_decide as Hh.
    + split; [intros _|intros Hn; destruct Hn; eauto]. eexists _, _, _. split; [done|].
      split; [done|]. unfold is_state. destruct (w_state r) eqn:Es; cbn; rewrite ?Es; done.
    + split; [by intros (ts' & [= <-] & ?)|]. done.
Qed.

(** *** Stop *)

(** A stop always comes to an end.  For every item the work API can see and that is
    not stopped, a stop is answered with the item; a forced one, or a graceful one of an
    item nobody acked, leaves it stopped at once.  A graceful stop of an acked item leaves
    it stopping under the lease it had, and from the moment that lease has lapsed and
    [WindDown] has passed since the request (and not before) the settlement of abandoned
    wind-downs stops it, so no crashed worker can leave it unfinished. *)
Theorem Stop_terminates now q env id force r :
  wf q -> visible q env id = Some r -> w_state r <> stopped -> (force = false -> w_state r <> stopping) ->
  exists r' q', StopWith now q env id force = Ok ((id, r'), true, q') /\ q_items q' !! id = Some r' /\
    is_Some (w_stop_requested r') /\
    if force || is_state queued r then w_state r' = stopped /\ w_lease r' = None
    else w_state r' = stopping /\ w_lease r' = w_lease r /\
      exists t s, w_lease r' = Some t /\ w_stop_requested r' = Some s /\
        forall now',
          let '(done, q'') := FinalizeAbandoned now' q' env id in
          if (t <? now') && (s + WindDown <? now')
          then done = true /\ exists r'', q_items q'' !! id = Some r'' /\ w_state r'' = stopped /\ w_lease r'' = None
          else done = false /\ q'' = q'.
Proof.
  intros Hwf Hv Hs Hg. pose proof Hv as (Hi & <- & Hk & He)%visible_Some.
  pose proof (wf_lease _ Hwf _ _ Hi) as Hl. unfold StopWith. rewrite Hv. unfold stop_row, live, is_state.
  assert (Hreq : forall o : option Z, is_Some (coalesce o (Some now))) by (intros []; cbn; eauto).
  destruct force; cbn [orb].
  - replace (state_eqb (w_state r) stopped) with false by (by destruct (w_state r)).
    eexists _, _. split; [done|]. cbn. rewrite lookup_insert_eq. auto.
  - specialize (Hg eq_refl). unfold lease_ok in Hl.
    destruct (w_state r) eqn:Est; cbn [state_eqb orb] in *; try done;
      (eexists _, _; split; [done|]; cbn; rewrite lookup_insert_eq; split; [done|]; split; [apply Hreq|]); [done|..];
      (split; [done|]; split; [done|]; destruct Hl as [t Ht]; destruct (Hreq (w_stop_requested r)) as [s Hs'];
       exists t, s; split_and!; [done..|]; intros now'; unfold FinalizeAbandoned; cbn;
       rewrite lookup_insert_eq; unfold abandoned, is_state; cbn;
       rewrite !bool_decide_true by done; cbn; rewrite Ht, Hs';
       replace (s <? now' - WindDown) with (s + WindDown <? now')
         by (apply eq_true_iff_eq; rewrite !Z.ltb_lt; lia);
       destruct (_ && _); [|done]; split; [done|]; eexists; cbn; by rewrite lookup_insert_eq).
Qed.

(** Finalizing settles the item, for good. *)
Definition settles now q env id : Prop :=
  exists q' r', FinalizeAbandoned now q env id = (true, q') /\ q_items q' !! id = Some r' /\
    w_state r' = stopped /\ forall now', abandoned now' env r' = false.

Lemma settles_iff now q env id :
  settles now q env id <-> exists r, (id, r) ∈ select q (fun _ r => abandoned now env r).
Proof.
  unfold settles, FinalizeAbandoned. split.
  - intros (q' & r' & H & _). destruct (q_items q !! id) as [r|] eqn:Hi; [|done].
    destruct (abandoned now env r) eqn:Ha; [|done]. exists r. by apply elem_of_select.
  - intros (r & [Hi Ha]%elem_of_select). rewrite Hi, Ha. eexists _, _. split; [reflexivity|]. cbn.
    split; [apply lookup_insert_eq|]. split; [done|]. intros now'. unfold abandoned, is_state. cbn. by rewrite andb_false_r.
Qed.

(** What the listing of abandoned wind-downs names is what the settlement settles:
    finalizing any listed item succeeds, stops it, and it is never a candidate again;
    and when the listing is short of its bound of fifty, every item that finalizing
    would settle is on it, so polls drain them all. *)
Theorem abandoned_settled now q env id :
  (forall sess, (id, sess) ∈ ListAbandoned now q env -> settles now q env id) /\
  ((length (ListAbandoned now q env) < 50)%nat -> settles now q env id ->
   exists sess, (id, sess) ∈ ListAbandoned now q env).
Proof.
  unfold ListAbandoned. split.
  - intros sess H. apply list_elem_of_In, in_map_iff in H as ([i r] & [= -> _] & H).
    apply list_elem_of_In in H. apply settles_iff. exists r. eapply subseteq_take; eauto.
  - rewrite length_map, length_take. intros Hlen (r & Hr)%settles_iff. exists (w_session r).
    apply list_elem_of_In, in_map_iff. exists (id, r). split; [done|].
    apply list_elem_of_In. rewrite take_ge; [done|]. lia.
Qed.

(** *** Statistics *)
Lemma queued_unreserved_pollable now q env i r :
  (i, r) ∈ queued_items q env -> unreserved now r = true -> pollable now q env r = true.
Proof.
  unfold queued_items. intros [Hi Hp]%elem_of_select Hu. unfold in_scope, pollable in *. bool_prop.
  unfold env_is in *. bool_prop. repeat (rewrite bool_decide_true by done). rewrite H, Hu. done.
Qed.

(** The statistics describe the queue.  Depth and pending partition the environment's
    queued items between the unreserved and the reserved, so they sum to the number of
    queued items; the oldest timestamp is null exactly when there is none and otherwise
    the least creation time; and a positive depth means an unlocked poll hands something
    out. *)
Theorem Stats_partition now q env :
  let s := Stats now q env in
  Depth s + Pending s = Z.of_nat (length (queued_items q env)) /\
  match OldestQueuedAt s with
  | None => Depth s + Pending s = 0
  | Some t => (exists i r, (i, r) ∈ queued_items q env /\ w_created r = t) /\
              forall i r, (i, r) ∈ queued_items q env -> t <= w_created r
  end /\
  (0 < Depth s -> forall fresh reclaim q', PollOn now (fun _ => false) q fresh env reclaim <> Ok (None, q')).
Proof.
  intros s. unfold s, Stats; cbn [Depth Pending OldestQueuedAt].
  assert (Hsum : forall l : list (string * row),
    Z.of_nat (length (filter (fun kv => unreserved now kv.2) l)) +
    Z.of_nat (length (filter (fun kv => negb (unreserved now kv.2)) l)) = Z.of_nat (length l)).
  { induction l as [|a l IH]; [done|]. rewrite !filter_cons.
    destruct (unreserved now a.2) eqn:E; cbn [negb];
      [rewrite decide_True, decide_False by (done || by intros [])|
       rewrite decide_False, decide_True by (done || by intros [])]; cbn [length]; lia. }
  split_and!.
  - apply Hsum.
  - unfold min_created. destruct (oldest (queued_items q env)) as [[i r]|] eqn:E; cbn.
    + apply oldest_Some in E as [Hin Hmin]. split; [eauto|]. intros j rj Hj. apply (Hmin (j, rj) Hj).
    + apply oldest_None in E. rewrite E. done.
  - intros Hd fresh reclaim q'. unfold PollOn. destruct (oldest _) as [[i r]|] eqn:E.
    { destruct (w_lease r); [case_bool_decide|]; done. }
    apply oldest_None in E. destruct (filter _ (queued_items q env)) as [|[i r] l] eqn:F; [cbn in Hd; lia|].
    assert (Hin : (i, r) ∈ filter (fun kv => unreserved now kv.2) (queued_items q env)) by (rewrite F; left).
    apply list_elem_of_filter in Hin as [Hu%Is_true_true Hin].
    assert (H : (i, r) ∈ select q (fun id r => negb false && pollable now q env r)).
    { apply elem_of_select. pose proof Hin as [Hi _]%elem_of_select. split; [done|].
      by apply (queued_unreserved_pollable now q env i r). }
    rewrite E in H. by apply elem_of_nil in H.
Qed.
End wire.

(** ** Runs *)

Definition ex_env : qdb := MkQ (list_to_map [("env_c", cloud); ("env_s", self_hosted)]) ∅ ∅.
Definition no_bool (v : mval) : option bool := None.
Definition no_parse (s : string) : option Z := None.
Definition nobody (id : string) : bool := false.

Lemma ex_env_wf : wf ex_env.
Proof. split; intros; cbn in *; rewrite lookup_empty in *; discriminate. Qed.

(** A worker polls, acks and claims an item by heartbeat; a graceful stop follows. *)
Definition ex_trace : list (Z * op) :=
  [(1, OEnqueue "work_1" "env_s" "sesn_1" "" ToolExec None); (2, OEnqueue "work_2" "env_c" "sesn_2" "" ModelTurn None);
   (3, OPoll nobody "work_9" "env_s" 5000000); (4, OAck "env_s" "work_1");
   (5, OHeartbeat "env_s" "work_1" NoHeartbeat 30); (6, OClaim nobody ModelTurn 60000000)].
Definition ex_held : qdb := run no_bool no_parse ex_env ex_trace.
Definition ex_stopping : qdb := run no_bool no_parse ex_held [(7, OStop "env_s" "work_1" false)].

Definition row_of (q : qdb) (id : string) : row :=
  default (MkRow "" "" None ModelTurn stopped None ∅ None 0 None None None None None 0) (q_items q !! id).

Lemma queue_invariant_witness :
  w_state (row_of ex_stopping "work_1") = stopping /\ is_Some (w_lease (row_of ex_stopping "work_1")) /\
  w_kind (row_of ex_stopping "work_1") = ToolExec.
Proof.
  assert (Hi : q_items (run no_bool no_parse ex_env (ex_trace ++ [(7, OStop "env_s" "work_1" false)])) !! "work_1"
               = Some (row_of ex_stopping "work_1")) by (vm_compute; reflexivity).
  pose proof (queue_invariant no_bool no_parse ex_env (ex_trace ++ [(7, OStop "env_s" "work_1" false)])
    "work_1" "work_1" (row_of ex_stopping "work_1") (row_of ex_stopping "work_1") ex_env_wf Hi Hi) as (_ & Hl & Hs).
  assert (E : w_state (row_of ex_stopping "work_1") = stopping) by (vm_compute; reflexivity).
  rewrite E in Hl. destruct Hl. split_and!; [done..|]. apply Hs. auto.
Defined.

Lemma state_machine_witness :
  exists j r', q_items (apply_op no_bool no_parse 7 ex_held (OStop "env_s" "work_1" false)) !! j = Some r' /\
    allowed active (w_state r') = true.
Proof.
  assert (Hi : q_items ex_held !! "work_1" = Some (row_of ex_held "work_1")) by (vm_compute; reflexivity).
  assert (Hs : w_state (row_of ex_held "work_1") = active) by (vm_compute; reflexivity).
  destruct (state_machine no_bool no_parse 7 ex_held (OStop "env_s" "work_1" false) "work_1" (row_of ex_held "work_1") Hi)
    as (j & r' & Hj & _ & Ha & _). rewrite Hs in Ha.
  exists j, r'. split; [exact Hj|exact Ha].
Defined.

(** The brain's item is cancelled and its slot taken by a fresh turn another brain claims. *)
Definition ex_item : Item := MkItem "work_2" "env_c" "sesn_2" "" ModelTurn 60000006 false 0 false None.
Definition ex_cancelled : qdb := CancelSession 7 ex_held "sesn_2".

Lemma lease_fencing_witness :
  is_Some (holds ex_held ex_item) /\
  Complete 70000000 (run no_bool no_parse ex_cancelled
    [(8, OEnqueue "work_3" "env_c" "sesn_2" "" ModelTurn None); (9, OClaim nobody ModelTurn 60000000)]) ex_item
  = Err ErrLeaseLost.
Proof.
  split; [vm_compute; eauto|].
  assert (Hn : holds ex_cancelled ex_item = None) by (vm_compute; reflexivity).
  refine (proj1 (proj2 (proj2 (proj2 (proj2 (lease_fencing no_bool no_parse ex_cancelled ex_item
    [(8, OEnqueue "work_3" "env_c" "sesn_2" "" ModelTurn None); (9, OClaim nobody ModelTurn 60000000)]
    Hn _ 70000000 0 0 0)))))).
  constructor; [done|]. constructor; [|constructor]. intros L [= <-]. reflexivity.
Defined.

Lemma Claim_oldest_witness :
  exists it q', Claim no_bool 70000000 nobody ex_held ModelTurn 60000000 = Ok (Some it, q') /\
    it_reclaimed it = true /\ holds q' ex_item = None.
Proof.
  destruct (Claim no_bool 70000000 nobody ex_held ModelTurn 60000000) as [[[it|] q']|e] eqn:E;
    [|vm_compute in E; discriminate..].
  pose proof (Claim_oldest no_bool 70000000 nobody ex_held ModelTurn 60000000 (Some it) q' E)
    as (r & Hr & _ & _ & _ & _ & Hlease & _ & Hold).
  exists it, q'. split; [done|]. vm_compute in E. injection E as <- <-. split; [done|].
  apply (Hold ex_item); vm_compute; reflexivity.
Defined.

(** The worker dies; a poll after its lease rotates the item's id. *)
Lemma Poll_hands_out_witness :
  exists r' q', PollOn 40000000 nobody ex_held "work_9" "env_s" 5000000 = Ok (Some ("work_9", r'), q') /\
    StopWith 40000001 q' "env_s" "work_1" true = Err ErrWorkNotFound.
Proof.
  destruct (PollOn 40000000 nobody ex_held "work_9" "env_s" 5000000) as [[[[id' r']|] q']|e] eqn:E;
    [|vm_compute in E; discriminate..].
  pose proof (Poll_hands_out 40000000 nobody ex_held "work_9" "env_s" 5000000 (Some (id', r')) q' E)
    as (id & r & Hi & _ & _ & _ & _ & _ & _ & _ & _ & Hrot).
  vm_compute in E. injection E as <- <- <-. eexists _, _. split; [reflexivity|]. vm_compute. reflexivity.
Defined.

Lemma Enqueue_once_witness :
  exists q', EnqueueThread 8 ex_held "work_7" "env_s" "sesn_1" "" ToolExec None = Ok (false, q') /\ q' = ex_held.
Proof.
  destruct (EnqueueThread 8 ex_held "work_7" "env_s" "sesn_1" "" ToolExec None) as [[[] q']|e] eqn:E;
    [vm_compute in E; discriminate| |vm_compute in E; discriminate].
  exists q'. split; [done|]. apply (Enqueue_once 8 ex_held "work_7" "env_s" "sesn_1" "" ToolExec None false q' E).
Defined.

Lemma Stop_terminates_witness :
  exists r' q', StopWith 7 ex_held "env_s" "work_1" false = Ok ("work_1", r', true, q') /\
    w_state r' = stopping /\ exists q'', FinalizeAbandoned 61000000 q' "env_s" "work_1" = (true, q'').
Proof.
  assert (Hwf : wf ex_held) by apply (run_wf no_bool no_parse ex_env ex_trace ex_env_wf).
  assert (Hv : visible ex_held "env_s" "work_1" = Some (row_of ex_held "work_1")) by (vm_compute; reflexivity).
  assert (Hs : w_state (row_of ex_held "work_1") = active) by (vm_compute; reflexivity).
  assert (Hn : w_state (row_of ex_held "work_1") <> stopped) by (rewrite Hs; discriminate).
  assert (Hg : false = false -> w_state (row_of ex_held "work_1") <> stopping) by (intros _; rewrite Hs; discriminate).
  pose proof (Stop_terminates 7 ex_held "env_s" "work_1" false (row_of ex_held "work_1") Hwf Hv Hn Hg) as H.
  unfold is_state in H. rewrite Hs in H. destruct H as (r' & q' & E & _ & _ & H1 & _).
  exists r', q'. split; [exact E|]. split; [exact H1|].
  assert (Hx : fst (FinalizeAbandoned 61000000 (after ex_held (StopWith 7 ex_held "env_s" "work_1" false))
                      "env_s" "work_1") = true) by (vm_compute; reflexivity).
  rewrite E in Hx. cbn [after] in Hx.
  destruct (FinalizeAbandoned 61000000 q' "env_s" "work_1") as [b q'']. cbn in Hx. subst b. by exists q''.
Defined.
