(* ===== verification/Status.v ===== *)
(** * Status: the session status machine of internal/events/status.go.

    Thread rows are authoritative and the session's status is a fold over them.  The
    tables are [session_threads] and the status column of [sessions]; [log] holds, per
    session, the ids of the events on the append-only log in seq order.  JSON payloads
    are records of the keys the code sets, and a Go string type with named constants is
    an inductive type with one constructor for every other string.  What follows a
    transition in its transaction (the append of internal/events/log.go) is outside this
    file: [AppendTransition] returns the batch it hands over. *)
From Stdlib Require Import Ascii Lia.
From S2P Require Import Prelude GoStrings Ids.

Inductive SessionStatus := SessionIdle | SessionRunning | SessionRescheduling | SessionTerminated | OtherStatus (s : string).
#[global] Instance SessionStatus_eq_dec : EqDecision SessionStatus.
Proof. solve_decision. Defined.

Inductive StopReasonType := StopRequiresAction | StopEndTurn | StopRetriesExhausted | OtherStop (s : string).
#[global] Instance StopReasonType_eq_dec : EqDecision StopReasonType.
Proof. solve_decision. Defined.

Record StopReason := MkStop { sr_type : StopReasonType; sr_ids : list string }.

Inductive EventType :=
| ThreadStatusRunning | ThreadStatusIdle | ThreadStatusRescheduled | ThreadStatusTerminated
| SessionStatusRunning | SessionStatusIdle | SessionStatusRescheduled | SessionStatusTerminated
| OtherEvent (s : string).

Record payload := MkPayload {
  p_thread : option string; p_agent : option string; p_stop : option StopReason }.

Record NewEvent := MkEvent {
  ev_type : EventType; ev_payload : payload; ev_thread : string; ev_cross : bool; ev_restated : bool }.

Record thread_row := MkThread {
  t_session : string; t_status : SessionStatus; t_stop : option StopReason; t_transitioned : bool;
  t_agent : string; t_archived : option Z; t_created : Z }.

Record sdb := MkS {
  s_threads : gmap string thread_row; s_status : gmap string SessionStatus; s_log : gmap string (list string) }.

Record ThreadTransition := MkTransition {
  tr_thread : string; tr_status : SessionStatus; tr_stop : option StopReason; tr_reemit : bool; tr_force : bool }.

Inductive status_error := ErrNoStatusEvent | ErrThreadNotFound | ErrSessionNotFound.

(** The two tables from status to event. *)
Definition threadStatusOf (s : SessionStatus) : option EventType :=
  match s with
  | SessionRunning => Some ThreadStatusRunning
  | SessionIdle => Some ThreadStatusIdle
  | SessionRescheduling => Some ThreadStatusRescheduled
  | _ => None
  end.

Definition sessionStatusOf (s : SessionStatus) : option EventType :=
  match s with
  | SessionRunning => Some SessionStatusRunning
  | SessionIdle => Some SessionStatusIdle
  | SessionRescheduling => Some SessionStatusRescheduled
  | SessionTerminated => Some SessionStatusTerminated
  | OtherStatus _ => None
  end.

Definition thread_of (sessionID threadID : string) : string :=
  if String.eqb threadID "" then PrimaryThreadID sessionID else threadID.

Definition stopRank (t : StopReasonType) : Z :=
  match t with
  | StopRequiresAction => 3
  | StopRetriesExhausted => 2
  | StopEndTurn => 1
  | OtherStop _ => 0
  end.

(** [idsInSeqOrder]: the ids on the log in its order, then the others as given. *)
Definition idsInSeqOrder (s : sdb) (sessionID : string) (ids : list string) : list string :=
  let log := default [] (s_log s !! sessionID) in
  filter (fun i => i ∈ ids) log ++ filter (fun i => i ∉ log) ids.

(** ** The fold *)

(** [ORDER BY created_at, id] *)
Definition row_before (a b : string * thread_row) : Prop :=
  t_created a.2 < t_created b.2 \/ (t_created a.2 = t_created b.2 /\ String.le a.1 b.1).
#[global] Instance row_before_dec a b : Decision (row_before a b).
Proof. unfold row_before. apply _. Defined.

Definition live_rows (s : sdb) (sessionID : string) : list (string * thread_row) :=
  merge_sort row_before
    (filter (fun kv => t_session kv.2 = sessionID /\ t_archived kv.2 = None /\ t_status kv.2 <> SessionTerminated)
       (map_to_list (s_threads s))).

(** A thread as the fold sees it: the transition stands in for its own row. *)
Definition fold_thread (tid : string) (t : ThreadTransition) (kv : string * thread_row)
  : SessionStatus * option StopReason :=
  if String.eqb kv.1 tid then (tr_status t, tr_stop t) else (t_status kv.2, t_stop kv.2).

Record fold_acc := MkAcc { anyResched : bool; pick : option StopReason; askIDs : list string; askThreads : nat }.

(** The switch over one thread's status; [None] is the early return of running. *)
Definition fold_step (a : fold_acc) (th : SessionStatus * option StopReason) : option fold_acc :=
  match th.1 with
  | SessionRunning => None
  | SessionRescheduling => Some (MkAcc true (pick a) (askIDs a) (askThreads a))
  | SessionIdle =>
      match th.2 with
      | None => Some a
      | Some stop =>
          let better := match pick a with None => true | Some p => stopRank (sr_type p) <? stopRank (sr_type stop) end in
          let a := if better then MkAcc (anyResched a) (Some stop) (askIDs a) (askThreads a) else a in
          Some (if bool_decide (sr_type stop = StopRequiresAction)
                then MkAcc (anyResched a) (pick a) (askIDs a ++ sr_ids stop) (S (askThreads a)) else a)
      end
  | _ => Some a
  end.

Fixpoint fold_loop (a : fold_acc) (l : list (SessionStatus * option StopReason)) : option fold_acc :=
  match l with
  | [] => Some a
  | th :: l' => match fold_step a th with None => None | Some a' => fold_loop a' l' end
  end.

Definition foldSession (s : sdb) (sessionID : string) (t : ThreadTransition) (rowFound : bool)
  : SessionStatus * option StopReason :=
  if String.eqb (tr_thread t) "" && bool_decide (tr_status t = SessionTerminated) then (SessionTerminated, None)
  else
    let tid := thread_of sessionID (tr_thread t) in
    let threads := filter (fun th => th.1 <> SessionTerminated) (map (fold_thread tid t) (live_rows s sessionID)) in
    if negb rowFound || bool_decide (threads = []) then (tr_status t, tr_stop t)
    else match fold_loop (MkAcc false None [] 0) threads with
         | None => (SessionRunning, None)
         | Some a =>
             if anyResched a then (SessionRescheduling, None)
             else match pick a with
                  | Some p =>
                      if bool_decide (sr_type p = StopRequiresAction)
                      then let ids := if Nat.ltb 1 (askThreads a) then idsInSeqOrder s sessionID (askIDs a) else askIDs a in
                           (SessionIdle, Some (MkStop StopRequiresAction ids))
                      else (SessionIdle, Some p)
                  | None => (SessionIdle, None)
                  end
         end.

Definition PreviewTransition (s : sdb) (sessionID : string) (t : ThreadTransition) :=
  foldSession s sessionID t true.

(** ** The transition *)

(** [UPDATE session_threads ... WHERE id = $1 AND session_id = $4 RETURNING agent_name] *)
Definition move_thread (s : sdb) (sessionID tid : string) (t : ThreadTransition) : option (string * sdb) :=
  match s_threads s !! tid with
  | Some r =>
      if String.eqb (t_session r) sessionID then
        let stop := if bool_decide (tr_status t = SessionIdle) then tr_stop t else None in
        let r' := MkThread (t_session r) (tr_status t) stop
                    (t_transitioned r || negb (bool_decide (t_status r = tr_status t)))
                    (t_agent r) (t_archived r) (t_created r) in
        Some (t_agent r, MkS (<[tid := r']> (s_threads s)) (s_status s) (s_log s))
      else None
  | None => None
  end.

Definition thread_event (tid agent : string) (t : ThreadTransition) : option NewEvent :=
  let child := negb (String.eqb (tr_thread t) "") in
  let ty := if bool_decide (tr_status t = SessionTerminated) && child then Some ThreadStatusTerminated
            else threadStatusOf (tr_status t) in
  let stop := if bool_decide (tr_status t = SessionIdle) then tr_stop t else None in
  (fun ty => MkEvent ty (MkPayload (Some tid) (if child then Some agent else None) stop) (tr_thread t) child false) <$> ty.

Definition session_event (emit : SessionStatus) (stop : option StopReason) (current : SessionStatus) : option NewEvent :=
  (fun ty => MkEvent ty (MkPayload None None (if bool_decide (emit = SessionIdle) then stop else None)) "" false
     (negb (bool_decide (emit = SessionRunning)) && negb (bool_decide (current = SessionRunning))))
  <$> sessionStatusOf emit.

Definition TransitionThread (s : sdb) (sessionID : string) (t : ThreadTransition)
  : result status_error (list NewEvent * option SessionStatus * sdb) :=
  match sessionStatusOf (tr_status t) with
  | None => Err ErrNoStatusEvent
  | Some _ =>
      let tid := thread_of sessionID (tr_thread t) in
      let moved_row := move_thread s sessionID tid t in
      let rowFound := bool_decide (is_Some moved_row) in
      let agent := match moved_row with Some (a, _) => a | None => "" end in
      let s1 := match moved_row with Some (_, s') => s' | None => s end in
      if negb rowFound && negb (String.eqb (tr_thread t) "") then Err ErrThreadNotFound
      else
        let thread := thread_event tid agent t in
        let '(folded, foldedStop) := foldSession s1 sessionID t rowFound in
        match s_status s1 !! sessionID with
        | None => Err ErrSessionNotFound
        | Some current =>
            let changed := negb (bool_decide (folded = current)) in
            let s2 := if changed then MkS (s_threads s1) (<[sessionID := folded]> (s_status s1)) (s_log s1) else s1 in
            let moved := if changed then Some folded else None in
            if changed || tr_force t || (tr_reemit t && bool_decide (folded = tr_status t)) then
              let own := negb changed && negb (bool_decide (folded = tr_status t)) in
              let emit := if own then tr_status t else folded in
              let stop := if own then tr_stop t else foldedStop in
              let session := session_event emit stop current in
              Ok (if bool_decide (emit = SessionRunning) then option_list session ++ option_list thread
                  else option_list thread ++ option_list session, moved, s2)
            else Ok (option_list thread, moved, s2)
        end
  end.

(** ** AppendTransition *)
Definition threadWakes (s : sdb) (sessionID threadID : string) (sessionStatus : SessionStatus) : bool :=
  let status := match s_threads s !! thread_of sessionID threadID with
                | Some r => if String.eqb (t_session r) sessionID then t_status r else sessionStatus
                | None => sessionStatus
                end in
  negb (bool_decide (status = SessionRunning)).

Fixpoint run_transitions (s : sdb) (sessionID : string) (before : SessionStatus) (woke : bool)
    (emitted : list NewEvent) (l : list ThreadTransition) : result status_error (bool * list NewEvent * sdb) :=
  match l with
  | [] => Ok (woke, emitted, s)
  | t :: l' =>
      let woke := if bool_decide (tr_status t = SessionRunning) && negb (tr_force t) && negb woke
                  then threadWakes s sessionID (tr_thread t) before else woke in
      try '(out, _, s') <- TransitionThread s sessionID t;
      run_transitions s' sessionID before woke (emitted ++ out) l'
  end.

(** The batch to append, the session's net move, and the tables. *)
Definition AppendTransition (s : sdb) (sessionID : string) (evs : list NewEvent) (transitions : list ThreadTransition)
  : result status_error (list NewEvent * option SessionStatus * sdb) :=
  match s_status s !! sessionID with
  | None => Err ErrSessionNotFound
  | Some before =>
      try '(woke, emitted, s') <- run_transitions s sessionID before false [] transitions;
      let batch := if (woke : bool) then emitted ++ evs else evs ++ emitted in
      match s_status s' !! sessionID with
      | None => Err ErrSessionNotFound
      | Some after => Ok (batch, if bool_decide (after = before) then None else Some after, s')
      end
  end.
