(* ===== verification/StatusSpec.v ===== *)
(** * StatusSpec: the session's status is its threads'.

    The loop of [foldSession] is shown equal to a declarative rollup; a transition leaves
    the session's column equal to that rollup of the rows it wrote, announces every move
    it makes and no other, and does what its preview said.  A single-thread session
    moves exactly as its thread does. *)
From Stdlib Require Import Ascii Lia.
From S2P Require Import Prelude GoStrings Ids Status.

Abbreviation view := (SessionStatus * option StopReason)%type.

(** ** The rollup *)
Definition some_thread (st : SessionStatus) (l : list view) : bool := existsb (fun th => bool_decide (th.1 = st)) l.

Definition rollup (l : list view) : SessionStatus :=
  if some_thread SessionRunning l then SessionRunning
  else if some_thread SessionRescheduling l then SessionRescheduling
  else SessionIdle.

(** The stop reasons of the idle threads, in order. *)
Definition idle_stops (l : list view) : list StopReason :=
  omap (fun th : view => if bool_decide (th.1 = SessionIdle) then th.2 else None) l.
Definition asks (l : list view) : list StopReason :=
  filter (fun s => sr_type s = StopRequiresAction) (idle_stops l).

(** The best of a list of stop reasons, the first of equal rank. *)
Definition better (p s : StopReason) : StopReason := if stopRank (sr_type p) <? stopRank (sr_type s) then s else p.
Definition best (p : option StopReason) (l : list StopReason) : option StopReason :=
  foldl (fun p s => Some (match p with None => s | Some p => better p s end)) p l.

Lemma idle_stops_app l1 l2 : idle_stops (l1 ++ l2) = idle_stops l1 ++ idle_stops l2.
Proof. apply omap_app. Qed.
Lemma asks_app l1 l2 : asks (l1 ++ l2) = asks l1 ++ asks l2.
Proof. unfold asks. by rewrite idle_stops_app, filter_app. Qed.
Lemma best_app p l1 l2 : best p (l1 ++ l2) = best (best p l1) l2.
Proof. apply foldl_app. Qed.

(** The accumulator after a list of threads none of which is running. *)
Definition gather (a : fold_acc) (l : list view) : fold_acc :=
  MkAcc (anyResched a || some_thread SessionRescheduling l) (best (pick a) (idle_stops l))
    (askIDs a ++ concat (map sr_ids (asks l))) (askThreads a + length (asks l)).

Lemma gather_nil a : gather a [] = a.
Proof. unfold gather. destruct a; cbn. by rewrite orb_false_r, app_nil_r, Nat.add_0_r. Qed.

Lemma gather_app a l1 l2 : gather a (l1 ++ l2) = gather (gather a l1) l2.
Proof.
  unfold gather. cbn [anyResched pick askIDs askThreads]. rewrite idle_stops_app, asks_app, best_app.
  unfold some_thread. rewrite existsb_app, map_app, concat_app, length_app.
  by rewrite orb_assoc, app_assoc, Nat.add_assoc.
Qed.

Lemma idle_one st stop :
  idle_stops [(st, stop)] = match st, stop with SessionIdle, Some s => [s] | _, _ => [] end.
Proof. unfold idle_stops. by destruct st, stop. Qed.

Lemma asks_one st stop :
  asks [(st, stop)] = match st, stop with
                      | SessionIdle, Some s => if decide (sr_type s = StopRequiresAction) then [s] else []
                      | _, _ => []
                      end.
Proof. unfold asks. rewrite idle_one. destruct st, stop; try done. Qed.

Lemma fold_step_spec a th :
  fold_step a th = if bool_decide (th.1 = SessionRunning) then None else Some (gather a [th]).
Proof.
  destruct th as [st stop], a as [ar pk ai an]. unfold fold_step, gather. rewrite idle_one, asks_one.
  cbn [fst snd anyResched pick askIDs askThreads some_thread existsb].
  destruct st as [| | | |]; rewrite ?(bool_decide_true (SessionRunning = _)), ?(bool_decide_false (_ = SessionRunning)) by done; try done.
  all: unfold some_thread; cbn [existsb fst];
    rewrite ?(bool_decide_false (_ = SessionRescheduling)), ?(bool_decide_true (SessionRescheduling = _)) by done;
    cbn [orb map concat length app]; rewrite ?orb_false_r, ?orb_true_r.
  - destruct stop as [stop|]; cbn [map concat length]; [|by rewrite app_nil_r, Nat.add_0_r].
    case_bool_decide as Ht; [rewrite decide_True by done|rewrite decide_False by done]; cbn;
      rewrite ?app_nil_r; (destruct pk as [p|]; [unfold better; destruct (_ <? _)|]); cbn; do 2 f_equal; lia.
  - by rewrite app_nil_r, Nat.add_0_r.
  - by rewrite app_nil_r, Nat.add_0_r.
  - by rewrite app_nil_r, Nat.add_0_r.
Qed.

Lemma fold_loop_spec l a :
  fold_loop a l = if some_thread SessionRunning l then None else Some (gather a l).
Proof.
  revert a; induction l as [|th l IH]; intros a; cbn [fold_loop]; [by rewrite gather_nil|].
  rewrite fold_step_spec. unfold some_thread; cbn [existsb].
  destruct (bool_decide (th.1 = SessionRunning)); cbn [orb]; [done|].
  rewrite IH. pose proof (gather_app a [th] l) as G. cbn [app] in G. by rewrite G.
Qed.

(** The best of a list is in it and none outranks it. *)
Lemma best_spec l p :
  best None l = Some p -> p ∈ l /\ forall s, s ∈ l -> stopRank (sr_type s) <= stopRank (sr_type p).
Proof.
  assert (H : forall l p0 p, best (Some p0) l = Some p ->
    (p = p0 \/ p ∈ l) /\ stopRank (sr_type p0) <= stopRank (sr_type p) /\
    forall s, s ∈ l -> stopRank (sr_type s) <= stopRank (sr_type p)).
  { intros l'. induction l' as [|s l' IH]; intros p0 p1; cbn.
    - intros [= <-]. split; [by left|]. split; [lia|]. by intros s ?%elem_of_nil.
    - intros Hb. apply IH in Hb as (Hin & Hle & Hall). unfold better in *.
      destruct (_ <? _) eqn:E; bool_prop.
      + split; [right; destruct Hin as [->|?]; [left|by right]|]. split; [lia|].
        intros s' [->|?]%elem_of_cons; auto.
      + split; [destruct Hin as [->|?]; [by left|right; by right]|]. split; [lia|].
        intros s' [->|?]%elem_of_cons; [lia|auto]. }
  destruct l as [|s l]; [done|]. cbn. intros Hb. apply H in Hb as (Hin & Hle & Hall). split.
  - destruct Hin as [->|?]; [left|by right].
  - intros s' [->|?]%elem_of_cons; auto.
Qed.

Lemma best_None l : best None l = None <-> l = [].
Proof.
  destruct l as [|s l]; [done|]. cbn. split; [|done].
  assert (H : forall l p, best (Some p) l <> None).
  { intros l'. induction l' as [|s' l' IH]; intros p; cbn; [done|apply IH]. }
  intros Hb. by apply H in Hb.
Qed.

(** ** The fold is the rollup *)
Definition fold_views (s : sdb) (sid : string) (t : ThreadTransition) : list view :=
  filter (fun th : view => th.1 <> SessionTerminated)
    (map (fold_thread (thread_of sid (tr_thread t)) t) (live_rows s sid)).

Definition ends_session (t : ThreadTransition) : bool :=
  String.eqb (tr_thread t) "" && bool_decide (tr_status t = SessionTerminated).

Definition rollup_stop (s : sdb) (sid : string) (l : list view) : option StopReason :=
  match best None (idle_stops l) with
  | None => None
  | Some p =>
      if bool_decide (sr_type p = StopRequiresAction)
      then let ids := concat (map sr_ids (asks l)) in
           Some (MkStop StopRequiresAction (if Nat.ltb 1 (length (asks l)) then idsInSeqOrder s sid ids else ids))
      else Some p
  end.

Lemma foldSession_eq s sid t :
  ends_session t = false -> fold_views s sid t <> [] ->
  foldSession s sid t true =
    (rollup (fold_views s sid t),
     if bool_decide (rollup (fold_views s sid t) = SessionIdle) then rollup_stop s sid (fold_views s sid t) else None).
Proof.
  unfold ends_session, foldSession. intros -> Hne. fold (fold_views s sid t). cbn [negb orb].
  rewrite bool_decide_false by done. rewrite fold_loop_spec. unfold rollup.
  destruct (some_thread SessionRunning _); [done|]. cbn [gather anyResched pick askIDs askThreads orb].
  destruct (some_thread SessionRescheduling _); [done|]. cbn [app Nat.add]. unfold rollup_stop.
  destruct (best None _) as [p|]; [|done]. by destruct (bool_decide (sr_type p = StopRequiresAction)).
Qed.

Lemma elem_of_idsInSeqOrder s sid ids i : i ∈ idsInSeqOrder s sid ids <-> i ∈ ids.
Proof.
  unfold idsInSeqOrder. rewrite elem_of_app, !list_elem_of_filter.
  destruct (decide (i ∈ default [] (s_log s !! sid))); tauto.
Qed.

Lemma elem_of_asks l q : q ∈ asks l <-> sr_type q = StopRequiresAction /\ q ∈ idle_stops l.
Proof. unfold asks. by rewrite list_elem_of_filter. Qed.

Lemma elem_of_concat_ids (l : list StopReason) i : i ∈ concat (map sr_ids l) <-> exists q, q ∈ l /\ i ∈ sr_ids q.
Proof.
  induction l as [|a l IH]; cbn.
  - split; [by intros ?%elem_of_nil|]. by intros (q & ?%elem_of_nil & _).
  - rewrite elem_of_app, IH. split.
    + intros [H|(q & Hq & Hi)]; [exists a; split; [left|done]|exists q; split; [by right|done]].
    + intros (q & [->|Hq]%elem_of_cons & Hi); [by left|right; eauto].
Qed.

(** The session's status is the documented rollup of its threads'.  Over the live
    threads, the moving one counted at its new status: running if any runs, else
    rescheduling if any is, else idle; a stop reason only when idle, and then one no idle
    thread's outranks (requires_action over retries_exhausted over end_turn).  When it is
    requires_action its event ids are those of every waiting thread, and no others;
    otherwise it is one of the threads' own.  None only when no idle thread has one. *)
Theorem foldSession_rollup s sid t :
  ends_session t = false -> fold_views s sid t <> [] ->
  let l := fold_views s sid t in
  let '(st, stop) := foldSession s sid t true in
  st = (if some_thread SessionRunning l then SessionRunning
        else if some_thread SessionRescheduling l then SessionRescheduling else SessionIdle) /\
  match stop with
  | None => st = SessionIdle -> idle_stops l = []
  | Some p =>
      st = SessionIdle /\ (forall q, q ∈ idle_stops l -> stopRank (sr_type q) <= stopRank (sr_type p)) /\
      (sr_type p = StopRequiresAction ->
         forall i, i ∈ sr_ids p <-> exists q, q ∈ idle_stops l /\ sr_type q = StopRequiresAction /\ i ∈ sr_ids q) /\
      (sr_type p <> StopRequiresAction -> p ∈ idle_stops l)
  end.
Proof.
  intros He Hne l. rewrite foldSession_eq by done. fold l. split; [done|].
  case_bool_decide as Hr; [|done]. unfold rollup_stop.
  destruct (best None (idle_stops l)) as [p|] eqn:Hb; [|intros _; by apply best_None].
  apply best_spec in Hb as [Hin Hmax]. case_bool_decide as Hp.
  - split_and!; [done| | |done]; cbn [sr_type sr_ids].
    + intros q Hq. rewrite Hp in Hmax. auto.
    + intros _ i.
      assert (Hi : i ∈ concat (map sr_ids (asks l)) <-> exists q, q ∈ idle_stops l /\ sr_type q = StopRequiresAction /\ i ∈ sr_ids q).
      { rewrite elem_of_concat_ids. split; intros (q & Hq); exists q; rewrite elem_of_asks in *; tauto. }
      destruct (Nat.ltb _ _); [rewrite elem_of_idsInSeqOrder|]; exact Hi.
  - split_and!; auto. done.
Qed.

(** ** Transitions *)
Definition row_view (kv : string * thread_row) : view := (t_status kv.2, t_stop kv.2).
Definition row_views (s : sdb) (sid : string) : list view := map row_view (live_rows s sid).

Lemma rollup_ext l1 l2 : map fst l1 = map fst l2 -> rollup l1 = rollup l2.
Proof.
  intros H. assert (E : forall st, some_thread st l1 = some_thread st l2).
  { intros st. unfold some_thread. revert l2 H. induction l1 as [|a l1 IH]; intros [|b l2] H; try done.
    cbn in *. injection H as H1 H2. by rewrite H1, (IH l2). }
  unfold rollup. by rewrite !E.
Qed.

Lemma elem_of_live_rows s sid i r :
  (i, r) ∈ live_rows s sid <->
  s_threads s !! i = Some r /\ t_session r = sid /\ t_archived r = None /\ t_status r <> SessionTerminated.
Proof.
  unfold live_rows. rewrite merge_sort_Permutation, list_elem_of_filter, elem_of_map_to_list. cbn. tauto.
Qed.

(** After the row was moved, the fold's view of the threads is the rows' own. *)
Lemma fold_views_rows s sid t tid r :
  tid = thread_of sid (tr_thread t) -> s_threads s !! tid = Some r -> t_status r = tr_status t ->
  map fst (fold_views s sid t) = map fst (row_views s sid).
Proof.
  intros Htid Hr Hs. unfold fold_views, row_views.
  assert (H : forall i r', (i, r') ∈ live_rows s sid ->
            (fold_thread tid t (i, r')).1 = t_status r' /\ t_status r' <> SessionTerminated).
  { intros i r' (Hi & _ & _ & Hn)%elem_of_live_rows. split; [|done]. unfold fold_thread; cbn.
    destruct (String.eqb_spec i tid) as [->|]; [|done]. cbn. congruence. }
  rewrite <- Htid. induction (live_rows s sid) as [|[i r'] l IH]; [done|]. cbn [map]. rewrite filter_cons.
  destruct (H i r') as [E1 E2]; [left|]. rewrite decide_True by congruence. cbn [map]. f_equal; [done|].
  apply IH. intros. apply H. by right.
Qed.

Lemma fold_views_nil s sid t tid r :
  tid = thread_of sid (tr_thread t) -> s_threads s !! tid = Some r -> t_status r = tr_status t ->
  fold_views s sid t = [] <-> live_rows s sid = [].
Proof.
  intros H1 H2 H3. pose proof (fold_views_rows s sid t tid r H1 H2 H3) as E.
  unfold row_views in E. split; intros H; rewrite H in E; cbn in E.
  - by destruct (live_rows s sid).
  - by destruct (fold_views s sid t).
Qed.

Lemma move_thread_Some s sid tid t a s1 :
  move_thread s sid tid t = Some (a, s1) ->
  exists r r', s_threads s !! tid = Some r /\ t_session r = sid /\
    s_threads s1 = <[tid := r']> (s_threads s) /\ t_status r' = tr_status t /\ t_created r' = t_created r /\
    t_session r' = sid /\ t_archived r' = t_archived r /\ s_status s1 = s_status s /\ s_log s1 = s_log s.
Proof.
  unfold move_thread. destruct (s_threads s !! tid) as [r|]; [|done].
  destruct (String.eqb_spec (t_session r) sid); [|done]. intros [= <- <-]. eexists _, _. done.
Qed.

(** What [TransitionThread] returns, in terms of the fold over the moved rows. *)
Lemma TransitionThread_Ok s sid t out moved s' a s1 :
  move_thread s sid (thread_of sid (tr_thread t)) t = Some (a, s1) ->
  TransitionThread s sid t = Ok (out, moved, s') ->
  exists current,
    s_status s !! sid = Some current /\ s_threads s' = s_threads s1 /\ s_log s' = s_log s /\
    let '(folded, fstop) := foldSession s1 sid t true in
    s_status s' = <[sid := folded]> (s_status s) /\
    moved = (if bool_decide (folded = current) then None else Some folded) /\
    let same := bool_decide (folded = current) in
    let emit := if same && negb (bool_decide (folded = tr_status t)) then tr_status t else folded in
    let th := option_list (thread_event (thread_of sid (tr_thread t)) a t) in
    exists se, option_list (session_event emit se current) <> [] /\ out =
      if negb same || tr_force t || (tr_reemit t && bool_decide (folded = tr_status t))
      then if bool_decide (emit = SessionRunning) then option_list (session_event emit se current) ++ th
           else th ++ option_list (session_event emit se current)
      else th.
Proof.
  intros Hm. unfold TransitionThread. destruct (sessionStatusOf (tr_status t)) as [ty|] eqn:Hty; [|done].
  rewrite Hm, bool_decide_true by done. cbn [negb andb].
  destruct (move_thread_Some _ _ _ _ _ _ Hm) as (r & r' & _ & _ & _ & _ & _ & _ & _ & Hst & Hlog).
  rewrite Hst. destruct (foldSession s1 sid t true) as [folded fstop] eqn:Hf.
  destruct (s_status s !! sid) as [current|] eqn:Hc; [|done]. intros H. exists current.
  assert (Hv : is_Some (sessionStatusOf folded)).
  { unfold foldSession in Hf. destruct (_ && _); [injection Hf as <- _; done|].
    destruct (_ || _); [injection Hf as <- _; rewrite Hty; done|].
    destruct (fold_loop _ _) as [acc|]; [|injection Hf as <- _; done].
    destruct (anyResched acc); [injection Hf as <- _; done|].
    destruct (pick acc) as [p|]; [destruct (bool_decide _)|]; injection Hf as <- _; done. }
  assert (Hse : forall e x, is_Some (sessionStatusOf e) -> option_list (session_event e x current) <> []).
  { intros e x [y Hy]. unfold session_event. by rewrite Hy. }
  assert (Hem : forall b : bool, is_Some (sessionStatusOf (if b then tr_status t else folded)))
    by (intros []; [rewrite Hty|]; done).
  destruct (bool_decide (folded = current)) eqn:Hsame; cbn [negb orb andb] in *.
  - assert (Hid : <[sid := folded]> (s_status s) = s_status s) by (bool_prop; subst; by rewrite insert_id).
    destruct (tr_force t || _) eqn:Hemit; injection H as <- <- <-.
    + split_and!; try done; [congruence|]. eexists. split; [apply Hse, Hem|done].
    + split_and!; try done; [congruence|]. exists None. split; [apply Hse, Hem|done].
  - injection H as <- <- <-. split_and!; try done. eexists. split; [by apply Hse|done].
Qed.

Lemma ends_session_fold s sid t b : ends_session t = true -> foldSession s sid t b = (SessionTerminated, None).
Proof. unfold foldSession, ends_session. by intros ->. Qed.

Lemma foldSession_alone s sid t :
  ends_session t = false -> fold_views s sid t = [] -> foldSession s sid t true = (tr_status t, tr_stop t).
Proof.
  unfold foldSession, ends_session. intros -> H. fold (fold_views s sid t). rewrite H. by rewrite orb_true_r.
Qed.

(** The session's status as the stored rows determine it. *)
Definition derived (s : sdb) (sid : string) (t : ThreadTransition) : SessionStatus :=
  if ends_session t then SessionTerminated
  else if bool_decide (live_rows s sid = []) then tr_status t
  else rollup (row_views s sid).

Lemma foldSession_derived s sid t a s1 :
  move_thread s sid (thread_of sid (tr_thread t)) t = Some (a, s1) ->
  (foldSession s1 sid t true).1 = derived s1 sid t.
Proof.
  intros Hm. destruct (move_thread_Some _ _ _ _ _ _ Hm) as (r & r' & _ & _ & Ht & Hs & _).
  assert (Hr : s_threads s1 !! thread_of sid (tr_thread t) = Some r') by (by rewrite Ht, lookup_insert_eq).
  unfold derived. destruct (ends_session t) eqn:He; [by rewrite ends_session_fold|].
  pose proof (fold_views_nil s1 sid t _ r' eq_refl Hr Hs) as Hn.
  case_bool_decide as Hl.
  - rewrite foldSession_alone; [done..|]. by apply Hn.
  - rewrite foldSession_eq; [|done|tauto]. cbn. apply rollup_ext. by apply (fold_views_rows s1 sid t (thread_of sid (tr_thread t)) r').
Qed.

(** The primary's row says the session ended. *)
Definition primary_ended (s : sdb) (sid : string) : Prop :=
  exists r, s_threads s !! PrimaryThreadID sid = Some r /\ t_status r = SessionTerminated.

Lemma ends_session_rows s s' sid t r :
  s_threads s' = <[thread_of sid (tr_thread t) := r]> (s_threads s) -> t_status r = tr_status t ->
  ~ primary_ended s sid -> tr_thread t <> PrimaryThreadID sid -> ends_session t = true <-> primary_ended s' sid.
Proof.
  intros Ht Hst Hlive Hne. unfold ends_session, primary_ended, thread_of in *. rewrite Ht.
  destruct (String.eqb_spec (tr_thread t) "") as [He|He]; cbn [andb].
  - rewrite bool_decide_eq_true, lookup_insert_eq, <- Hst. naive_solver.
  - rewrite lookup_insert_ne by done. split; [done|]. intros Hp. by destruct Hlive.
Qed.


(** A child that moves after the primary ended folds the session back to running. *)
Example fold_forgets_an_ended_primary :
  let row st := MkThread "sesn_x" st None true "lead" None 1 in
  let s := MkS (list_to_map [("sthr_x", row SessionTerminated); ("sthr_c", row SessionIdle)]) {["sesn_x" := SessionTerminated]} ∅ in
  primary_ended s "sesn_x" /\
  exists out s', TransitionThread s "sesn_x" (MkTransition "sthr_c" SessionRunning None false false) = Ok (out, Some SessionRunning, s').
Proof. split; [eexists; split; vm_compute; reflexivity|]. eexists _, _. vm_compute. reflexivity. Qed.

Definition is_session_event (e : NewEvent) : bool :=
  match ev_type e with
  | SessionStatusRunning | SessionStatusIdle | SessionStatusRescheduled | SessionStatusTerminated => true
  | _ => false
  end.

Lemma thread_event_own tid a t :
  Forall (fun e => is_session_event e = false) (option_list (thread_event tid a t)).
Proof.
  unfold thread_event. destruct (bool_decide (tr_status t = SessionTerminated) && _); [by constructor|].
  destruct (tr_status t); by constructor.
Qed.

(** The log tells the session's story.  A transition emits one session event exactly when
    the session moved, or it was forced, or it re-announces an unchanged status; unless
    forced, that event announces the status the session has afterwards, and it comes
    ahead of the thread's own event exactly when it announces running.  Every other
    event emitted is the thread's, and there is at most one. *)
Theorem TransitionThread_announces s sid t out moved s' :
  TransitionThread s sid t = Ok (out, moved, s') ->
  is_Some (move_thread s sid (thread_of sid (tr_thread t)) t) ->
  exists after th, s_status s' !! sid = Some after /\
    Forall (fun e => is_session_event e = false) th /\ (length th <= 1)%nat /\
    if bool_decide (moved <> None) || tr_force t || (tr_reemit t && bool_decide (after = tr_status t))
    then exists se, is_session_event se = true /\ (tr_force t = false -> sessionStatusOf after = Some (ev_type se)) /\
           (out = se :: th /\ ev_type se = SessionStatusRunning \/ out = th ++ [se] /\ ev_type se <> SessionStatusRunning)
    else out = th.
Proof.
  intros HT [[a s1] Hm]. destruct (TransitionThread_Ok _ _ _ _ _ _ _ _ Hm HT) as (cur & Hc & Hth & Hlog & H).
  destruct (foldSession s1 sid t true) as [folded fstop]. destruct H as (Hs' & -> & se0 & Hne & ->).
  exists folded, (option_list (thread_event (thread_of sid (tr_thread t)) a t)).
  rewrite Hs', lookup_insert_eq. split; [done|]. split; [|split].
  { apply thread_event_own. }
  { destruct (thread_event _ _ _); cbn; lia. }
  set (emit := if bool_decide (folded = cur) && negb (bool_decide (folded = tr_status t)) then tr_status t else folded) in *.
  replace (bool_decide ((if bool_decide (folded = cur) then None else Some folded) <> None))
    with (negb (bool_decide (folded = cur))) by (destruct (bool_decide (folded = cur)); done).
  destruct (_ || _) eqn:Hemits; [|done].
  destruct (session_event emit se0 cur) as [se|] eqn:Hse; [|done].
  assert (Hty : sessionStatusOf emit = Some (ev_type se)).
  { unfold session_event in Hse. destruct (sessionStatusOf emit) as [ty|]; [|done]. by injection Hse as <-. }
  exists se. split_and!.
  - unfold is_session_event. destruct emit; cbn in Hty; try done; injection Hty as <-; done.
  - intros Hforce. rewrite <- Hty. f_equal. unfold emit. rewrite Hforce, orb_false_r in Hemits.
    destruct (bool_decide (folded = cur)); [|done]. cbn in *. apply andb_true_iff in Hemits as [_ ->]. done.
  - case_bool_decide as Hr; [left|right]; (split; [done|]); rewrite ?Hr in Hty; cbn in Hty; [congruence|].
    intros E. rewrite E in Hty. by destruct emit.
Qed.

(** ** The preview *)
Definition tag (tid : string) (t : ThreadTransition) (kv : string * thread_row) : (Z * string) * view :=
  ((t_created kv.2, kv.1), fold_thread tid t kv).

Definition tag_before (a b : (Z * string) * view) : Prop :=
  a.1.1 < b.1.1 \/ (a.1.1 = b.1.1 /\ String.le a.1.2 b.1.2).

Definition tagged (s : sdb) (sid tid : string) (t : ThreadTransition) :=
  filter (fun x : (Z * string) * view => x.2.1 <> SessionTerminated) (map (tag tid t) (live_rows s sid)).

#[global] Instance row_before_total : Total row_before.
Proof.
  intros a b. unfold row_before. destruct (total String.le a.1 b.1);
    destruct (Z.lt_trichotomy (t_created a.2) (t_created b.2)) as [?|[?|?]]; auto.
Qed.
#[global] Instance row_before_trans : Transitive row_before.
Proof. intros a b c [H1|[H1 H1']] [H2|[H2 H2']]; unfold row_before; [left; lia..|right; split; [lia|by etrans]]. Qed.

Lemma tagged_views s sid t : fold_views s sid t = map snd (tagged s sid (thread_of sid (tr_thread t)) t).
Proof.
  unfold fold_views, tagged. induction (live_rows s sid) as [|kv l IH]; [done|]. cbn [map]. rewrite !filter_cons.
  destruct (decide ((fold_thread (thread_of sid (tr_thread t)) t kv).1 <> SessionTerminated)) as [H|H];
    [rewrite (decide_True _ _ (P := (tag _ t kv).2.1 <> _)) by done|
     rewrite (decide_False _ _ (P := (tag _ t kv).2.1 <> _)) by done]; cbn [map]; by rewrite IH.
Qed.

Lemma tagged_sorted s sid tid t : StronglySorted tag_before (tagged s sid tid t).
Proof.
  apply StronglySorted_filter.
  assert (H : StronglySorted row_before (live_rows s sid)) by (apply StronglySorted_merge_sort; apply _).
  induction H as [|kv l _ IH Hx]; [constructor|]. cbn. constructor; [done|].
  rewrite Forall_forall in Hx. apply Forall_forall. intros x (y & <- & Hy)%list_elem_of_In%in_map_iff.
  apply (Hx y), list_elem_of_In, Hy.
Qed.

Lemma elem_of_tagged s sid tid t x :
  x ∈ tagged s sid tid t <->
  exists i r, (i, r) ∈ live_rows s sid /\ x = tag tid t (i, r) /\ x.2.1 <> SessionTerminated.
Proof.
  unfold tagged. rewrite list_elem_of_filter, list_elem_of_In, in_map_iff. split.
  - intros [Hn ([i r] & <- & Hi)]. exists i, r. rewrite list_elem_of_In. done.
  - intros (i & r & Hi & -> & Hn). split; [done|]. exists (i, r). by rewrite <- list_elem_of_In.
Qed.

Lemma tagged_unique s sid tid t x y :
  x ∈ tagged s sid tid t -> y ∈ tagged s sid tid t -> x.1.2 = y.1.2 -> x = y.
Proof.
  intros (i & r & [Hi _]%elem_of_live_rows & -> & _)%elem_of_tagged
         (j & r' & [Hj _]%elem_of_live_rows & -> & _)%elem_of_tagged. cbn. intros ->. congruence.
Qed.

Lemma NoDup_tagged s sid tid t : NoDup (tagged s sid tid t).
Proof.
  apply NoDup_filter. apply (NoDup_fmap_1 (fun x : (Z * string) * view => x.1.2)).
  assert (E : (fun x : (Z * string) * view => x.1.2) <$> map (tag tid t) (live_rows s sid) = (live_rows s sid).*1).
  { induction (live_rows s sid) as [|kv l IH]; [done|]. cbn. by f_equal. }
  rewrite E. unfold live_rows. rewrite merge_sort_Permutation.
  eapply sublist_NoDup; [apply (NoDup_fst_map_to_list (s_threads s))|].
  apply fmap_sublist, sublist_filter.
Qed.

Lemma tagged_moved s sid t a s1 r :
  s_threads s !! thread_of sid (tr_thread t) = Some r -> t_status r <> SessionTerminated ->
  move_thread s sid (thread_of sid (tr_thread t)) t = Some (a, s1) ->
  tagged s1 sid (thread_of sid (tr_thread t)) t = tagged s sid (thread_of sid (tr_thread t)) t.
Proof.
  set (tid := thread_of sid (tr_thread t)). intros Hr Hn Hm.
  destruct (move_thread_Some _ _ _ _ _ _ Hm) as (r0 & r' & Hr0 & Hses & Ht & Hst & Hcr & Hses' & Har & _).
  rewrite Hr in Hr0. injection Hr0 as <-.
  assert (Hmem : forall x, x ∈ tagged s1 sid tid t <-> x ∈ tagged s sid tid t).
  { intros x. rewrite !elem_of_tagged.
    assert (Htag : tag tid t (tid, r') = tag tid t (tid, r)).
    { unfold tag, fold_thread; cbn. by rewrite String.eqb_refl, Hcr. }
    split; intros (i & q & Hi & -> & Hx); rewrite elem_of_live_rows in Hi; destruct Hi as (Hi & H1 & H2 & H3).
    - rewrite Ht, lookup_insert in Hi. case_decide as Hd; [|exists i, q; by rewrite elem_of_live_rows].
      injection Hi as <-. subst i. exists tid, r. rewrite elem_of_live_rows, <- Htag. split_and!; auto. congruence.
    - destruct (decide (i = tid)) as [->|Hd].
      + rewrite Hr in Hi. injection Hi as <-. exists tid, r'. rewrite Htag, elem_of_live_rows. split; [|done].
        rewrite Ht, lookup_insert_eq. split_and!; auto; [congruence|]. rewrite Hst. intros E. apply Hx.
        unfold tag, fold_thread; cbn. by rewrite String.eqb_refl.
      + exists i, q. rewrite elem_of_live_rows, Ht, lookup_insert_ne by done. done. }
  apply (StronglySorted_unique_strong tag_before); [|apply tagged_sorted..|].
  - intros x y Hx%Hmem Hy Hxy Hyx. apply (tagged_unique s sid tid t); [done..|].
    unfold tag_before in *. destruct Hxy as [?|[? H1]], Hyx as [?|[? H2]]; try lia. by apply (anti_symm String.le).
  - apply NoDup_Permutation; [apply NoDup_tagged..|done].
Qed.

(** A preview is the transition it previews.  For a thread of the session that has not
    terminated, the status [PreviewTransition] reports before anything is written is the
    status the session has once the transition has run. *)
Theorem PreviewTransition_agrees s sid t r out moved s' :
  s_threads s !! thread_of sid (tr_thread t) = Some r -> t_session r = sid -> t_status r <> SessionTerminated ->
  TransitionThread s sid t = Ok (out, moved, s') ->
  s_status s' !! sid = Some (PreviewTransition s sid t).1.
Proof.
  intros Hr Hses Hn HT.
  destruct (move_thread s sid (thread_of sid (tr_thread t)) t) as [[a s1]|] eqn:Hm.
  2: { unfold move_thread in Hm. rewrite Hr, Hses, String.eqb_refl in Hm. done. }
  destruct (TransitionThread_Ok _ _ _ _ _ _ _ _ Hm HT) as (cur & Hc & _ & _ & H).
  assert (E : foldSession s1 sid t true = foldSession s sid t true).
  { destruct (move_thread_Some _ _ _ _ _ _ Hm) as (_ & _ & _ & _ & _ & _ & _ & _ & _ & _ & Hlog).
    destruct (ends_session t) eqn:He; [by rewrite !ends_session_fold|].
    assert (Hv : fold_views s1 sid t = fold_views s sid t)
      by (rewrite !tagged_views; f_equal; by eapply tagged_moved).
    destruct (decide (fold_views s sid t = [])) as [Hz|Hz].
    - rewrite !foldSession_alone; auto. congruence.
    - rewrite !foldSession_eq by (done || by rewrite Hv). rewrite Hv. unfold rollup_stop, idsInSeqOrder. by rewrite Hlog. }
  unfold PreviewTransition. rewrite <- E. destruct (foldSession s1 sid t true) as [folded fstop].
  destruct H as (-> & _). by rewrite lookup_insert_eq.
Qed.

(** ** A run: the primary comes to rest beside a child that is already waiting. *)
Definition ex_sessions : sdb :=
  MkS (list_to_map [("sthr_x", MkThread "sesn_x" SessionRunning None false "lead" None 1);
                    ("sthr_c", MkThread "sesn_x" SessionIdle (Some (MkStop StopRequiresAction ["sevt_2"])) true "helper" None 2)])
    {["sesn_x" := SessionRunning]} {["sesn_x" := ["sevt_1"; "sevt_2"; "sevt_3"]]}.
Definition ex_idle : ThreadTransition :=
  MkTransition "" SessionIdle (Some (MkStop StopRequiresAction ["sevt_1"; "sevt_9"])) false false.

Lemma foldSession_rollup_witness :
  foldSession ex_sessions "sesn_x" ex_idle true =
    (SessionIdle, Some (MkStop StopRequiresAction ["sevt_1"; "sevt_2"; "sevt_9"])) /\
  forall q, q ∈ idle_stops (fold_views ex_sessions "sesn_x" ex_idle) -> stopRank (sr_type q) <= 3.
Proof.
  assert (E : foldSession ex_sessions "sesn_x" ex_idle true =
    (SessionIdle, Some (MkStop StopRequiresAction ["sevt_1"; "sevt_2"; "sevt_9"]))) by (vm_compute; reflexivity).
  split; [exact E|].
  assert (Hne : fold_views ex_sessions "sesn_x" ex_idle <> []) by (vm_compute; discriminate).
  pose proof (foldSession_rollup ex_sessions "sesn_x" ex_idle eq_refl Hne) as H. cbv zeta in H. rewrite E in H.
  apply H.
Defined.


Lemma TransitionThread_announces_witness :
  exists out moved s' after, TransitionThread ex_sessions "sesn_x" ex_idle = Ok (out, moved, s') /\
    map ev_type out = [ThreadStatusIdle; SessionStatusIdle] /\ s_status s' !! "sesn_x" = Some after.
Proof.
  destruct (TransitionThread ex_sessions "sesn_x" ex_idle) as [[[out moved] s']|] eqn:E; [|vm_compute in E; discriminate].
  destruct (TransitionThread_announces ex_sessions "sesn_x" ex_idle out moved s' E) as (after & th & Ha & _);
    [vm_compute; eauto|].
  exists out, moved, s', after. split; [done|]. split; [|exact Ha].
  vm_compute in E. injection E as <- _ _. reflexivity.
Defined.

Lemma PreviewTransition_agrees_witness :
  exists out moved s', TransitionThread ex_sessions "sesn_x" ex_idle = Ok (out, moved, s') /\
    s_status s' !! "sesn_x" = Some (PreviewTransition ex_sessions "sesn_x" ex_idle).1.
Proof.
  destruct (TransitionThread ex_sessions "sesn_x" ex_idle) as [[[out moved] s']|] eqn:E; [|vm_compute in E; discriminate].
  exists out, moved, s'. split; [done|].
  refine (PreviewTransition_agrees ex_sessions "sesn_x" ex_idle
            (MkThread "sesn_x" SessionRunning None false "lead" None 1) out moved s' _ eq_refl _ E);
    [vm_compute; reflexivity|discriminate].
Defined.
