(* ===== verification/GoTime.v ===== *)
(** * GoTime: the part of Go's [time] package the cron engine uses.

    An instant is its Unix time in nanoseconds (a Go [time.Time] is a 64-bit
    second count with a nanosecond part; the model does not bound it).  A location
    is what the zone database answers, the offset east of UTC in effect at an
    instant: a function from Unix seconds to seconds.  The calendar is the
    proleptic Gregorian one, with days counted from 0001-01-01. *)
From stdpp Require Import base list.
From Stdlib Require Import Lia.
From S2P Require Import Prelude.

Definition second : Z := 1000000000.
Definition minute : Z := 60 * second.
Definition hour : Z := 60 * minute.

(** [time.Time{}], 0001-01-01T00:00:00Z, the value [IsZero] recognizes. *)
Definition zero_time : Z := -62135596800 * second.
Definition IsZero (t : Z) : bool := t =? zero_time.

(** ** The calendar *)

Definition is_leap (y : Z) : bool :=
  (y mod 4 =? 0) && (negb (y mod 100 =? 0) || (y mod 400 =? 0)).

Definition leap_day (y : Z) : Z := if is_leap y then 1 else 0.

Definition days_in_month (y m : Z) : Z :=
  match m with
  | 2 => 28 + leap_day y
  | 4 | 6 | 9 | 11 => 30
  | _ => 31
  end.

(** Days from 0001-01-01 to January 1 of year [y]. *)
Definition days_before_year (y : Z) : Z :=
  365 * (y - 1) + (y - 1) / 4 - (y - 1) / 100 + (y - 1) / 400.

(** Days from January 1 to the first of month [m]; month 13 is the year's end. *)
Definition days_before_month (y m : Z) : Z :=
  match m with
  | 1 => 0
  | 2 => 31
  | 3 => 59 + leap_day y
  | 4 => 90 + leap_day y
  | 5 => 120 + leap_day y
  | 6 => 151 + leap_day y
  | 7 => 181 + leap_day y
  | 8 => 212 + leap_day y
  | 9 => 243 + leap_day y
  | 10 => 273 + leap_day y
  | 11 => 304 + leap_day y
  | 12 => 334 + leap_day y
  | _ => 365 + leap_day y
  end.

Definition days_of_civil (y m d : Z) : Z :=
  days_before_year y + days_before_month y m + (d - 1).

Definition year_of_days (n : Z) : Z :=
  let g := (400 * n) / 146097 + 1 in
  if n <? days_before_year g then g - 1
  else if days_before_year (g + 1) <=? n then g + 1
  else g.

Fixpoint month_search (fuel : nat) (y yd m : Z) : Z :=
  match fuel with
  | O => m
  | S fuel' => if yd <? days_before_month y (m + 1) then m else month_search fuel' y yd (m + 1)
  end.

Definition civil_of_days (n : Z) : Z * Z * Z :=
  let y := year_of_days n in
  let yd := n - days_before_year y in
  let m := month_search 11 y yd 1 in
  (y, m, yd - days_before_month y m + 1).

(** Days from 0001-01-01 to 1970-01-01. *)
Definition unix_epoch_days : Z := 719162.

(** ** Wall clocks *)

(** A wall clock to the minute, which is what the cron fields see. *)
Record wall := Wall { wY : Z; wMo : Z; wD : Z; wH : Z; wMi : Z }.

#[global] Instance wall_eq_dec : EqDecision wall.
Proof. solve_decision. Defined.

(** The number of the minute a wall clock names, counted from the Unix epoch as
    if the wall clock were UTC: [time.Date(y, mo, d, h, mi, 0, 0, time.UTC)]. *)
Definition minute_of (w : wall) : Z :=
  (days_of_civil (wY w) (wMo w) (wD w) - unix_epoch_days) * 1440 + wH w * 60 + wMi w.

Definition wall_of (n : Z) : wall :=
  let '(y, m, d) := civil_of_days (n / 1440 + unix_epoch_days) in
  Wall y m d ((n mod 1440) / 60) (n mod 60).

(** [time.Date(y, mo, d, h, mi, 0, 0, time.UTC)] for a month possibly past
    December and a day possibly before the first: months carry into years, days
    are counted from the first of the month. *)
Definition Date_days (y m d : Z) : Z :=
  days_of_civil (y + (m - 1) / 12) ((m - 1) mod 12 + 1) d.

(** [Weekday]: 0001-01-01 was a Monday, and Sunday is 0. *)
Definition Weekday (days : Z) : Z := (days + 1) mod 7.

Definition valid_wall (w : wall) : Prop :=
  1 <= wMo w <= 12 /\ 1 <= wD w <= days_in_month (wY w) (wMo w) /\
  0 <= wH w <= 23 /\ 0 <= wMi w <= 59.

(** ** Locations *)

Definition location := Z -> Z.

(** The wall clock [t.In(loc)] shows, in nanoseconds as if it were UTC. *)
Definition local (loc : location) (t : Z) : Z := t + loc (t / second) * second.

(** [t.In(loc)]'s date, hour and minute. *)
Definition wall_in (loc : location) (t : Z) : wall := wall_of (local loc t / minute).

(** [_, off := t.In(loc).Zone()] *)
Definition Zone (loc : location) (t : Z) : Z := loc (t / second).

(** ** Lemmas: years *)

Lemma leap_day_range y : 0 <= leap_day y <= 1.
Proof. unfold leap_day. case_match; lia. Qed.

Lemma days_before_year_succ y :
  days_before_year (y + 1) = days_before_year y + 365 + leap_day y.
Proof.
  unfold days_before_year, leap_day, is_leap.
  replace (y + 1 - 1) with y by lia.
  destruct (Z.eqb_spec (y mod 4) 0), (Z.eqb_spec (y mod 100) 0), (Z.eqb_spec (y mod 400) 0);
    cbn [negb andb orb]; Z.div_mod_to_equations; lia.
Qed.

Lemma days_before_year_mono y k : 0 <= k -> days_before_year y + 365 * k <= days_before_year (y + k).
Proof.
  revert k. apply natlike_ind; [replace (y + 0) with y; lia|].
  intros k Hk IH. replace (y + Z.succ k) with (y + k + 1) by lia.
  rewrite days_before_year_succ. pose proof (leap_day_range (y + k)). lia.
Qed.

Lemma year_of_days_spec n :
  days_before_year (year_of_days n) <= n < days_before_year (year_of_days n + 1).
Proof.
  unfold year_of_days. set (g := (400 * n) / 146097 + 1).
  assert (days_before_year (g - 1) <= n < days_before_year (g + 2)).
  { unfold days_before_year, g. Z.div_mod_to_equations. lia. }
  split_ifs; replace (g - 1 + 1) with g by lia; replace (g + 1 + 1) with (g + 2) by lia; lia.
Qed.

Lemma year_unique y y' n :
  days_before_year y <= n < days_before_year (y + 1) ->
  days_before_year y' <= n < days_before_year (y' + 1) -> y = y'.
Proof.
  intros [H1 H2] [H3 H4].
  destruct (Z.lt_trichotomy y y') as [Hlt|[->|Hlt]]; [exfalso|done|exfalso].
  - pose proof (days_before_year_mono (y + 1) (y' - (y + 1))) as Hm.
    replace (y + 1 + (y' - (y + 1))) with y' in Hm by lia. lia.
  - pose proof (days_before_year_mono (y' + 1) (y - (y' + 1))) as Hm.
    replace (y' + 1 + (y - (y' + 1))) with y in Hm by lia. lia.
Qed.

(** ** Lemmas: months *)

Lemma month_cases m : 1 <= m <= 12 ->
  m = 1 \/ m = 2 \/ m = 3 \/ m = 4 \/ m = 5 \/ m = 6 \/
  m = 7 \/ m = 8 \/ m = 9 \/ m = 10 \/ m = 11 \/ m = 12.
Proof. lia. Qed.

Ltac case_month H :=
  apply month_cases in H;
  destruct H as [->|[->|[->|[->|[->|[->|[->|[->|[->|[->|[->| ->]]]]]]]]]]].

Lemma days_before_month_succ y m : 1 <= m <= 12 ->
  days_before_month y (m + 1) = days_before_month y m + days_in_month y m.
Proof. intros H. case_month H; simpl; lia. Qed.

Lemma days_in_month_range y m : 28 <= days_in_month y m <= 31.
Proof.
  pose proof (leap_day_range y). unfold days_in_month.
  repeat case_match; lia.
Qed.

Lemma month_search_spec y yd :
  0 <= yd < 365 + leap_day y ->
  1 <= month_search 11 y yd 1 <= 12 /\
  days_before_month y (month_search 11 y yd 1) <= yd <
    days_before_month y (month_search 11 y yd 1 + 1).
Proof.
  pose proof (leap_day_range y). intros Hyd.
  cbn [month_search Z.add Pos.add Pos.succ Pos.add_carry].
  repeat (match goal with |- context [if ?b then _ else _] => destruct b eqn:? end;
          [bool_prop; simpl in *; lia|]).
  bool_prop. simpl in *. lia.
Qed.

Lemma month_unique y m m' yd :
  1 <= m <= 12 -> 1 <= m' <= 12 ->
  days_before_month y m <= yd < days_before_month y (m + 1) ->
  days_before_month y m' <= yd < days_before_month y (m' + 1) -> m = m'.
Proof.
  pose proof (leap_day_range y). intros Hm Hm'.
  case_month Hm; case_month Hm'; simpl; lia.
Qed.

(** ** Lemmas: dates *)

Definition valid_date (y m d : Z) : Prop := 1 <= m <= 12 /\ 1 <= d <= days_in_month y m.

Lemma days_before_month_nonneg y m : 1 <= m <= 12 -> 0 <= days_before_month y m.
Proof. pose proof (leap_day_range y). intros H0. case_month H0; simpl; lia. Qed.

Lemma days_before_month_le y m : 1 <= m <= 12 -> days_before_month y (m + 1) <= 365 + leap_day y.
Proof. pose proof (leap_day_range y). intros H0. case_month H0; simpl; lia. Qed.

Lemma civil_of_days_valid n :
  let '(y, m, d) := civil_of_days n in valid_date y m d /\ days_of_civil y m d = n.
Proof.
  unfold civil_of_days, valid_date, days_of_civil.
  pose proof (year_of_days_spec n) as Hy. rewrite days_before_year_succ in Hy.
  set (y := year_of_days n) in *. set (yd := n - days_before_year y).
  destruct (month_search_spec y yd) as [Hm Hd]; [unfold yd; lia|].
  set (m := month_search 11 y yd 1) in *.
  rewrite days_before_month_succ in Hd by done. lia.
Qed.

(** A date is recovered from its day number. *)
Lemma civil_of_days_of_civil y m d :
  valid_date y m d -> civil_of_days (days_of_civil y m d) = (y, m, d).
Proof.
  intros [Hm Hd]. set (n := days_of_civil y m d).
  pose proof (civil_of_days_valid n) as Hc.
  destruct (civil_of_days n) as [[y' m'] d']. destruct Hc as [[Hm' Hd'] Hn].
  pose proof (days_before_month_nonneg y m Hm). pose proof (days_before_month_le y m Hm).
  pose proof (days_before_month_nonneg y' m' Hm'). pose proof (days_before_month_le y' m' Hm').
  pose proof (days_before_month_succ y m Hm). pose proof (days_before_month_succ y' m' Hm').
  unfold days_of_civil in *.
  assert (y' = y) as ->.
  { apply (year_unique _ _ n); rewrite days_before_year_succ; unfold n, days_of_civil in *; lia. }
  assert (m' = m) as ->.
  { apply (month_unique y _ _ (n - days_before_year y)); [done..| |];
      unfold n, days_of_civil in *; lia. }
  f_equal. unfold n, days_of_civil in *. lia.
Qed.

(** ** Lemmas: wall clocks and minutes are in bijection *)

Lemma wall_of_valid n : valid_wall (wall_of n).
Proof.
  unfold wall_of. pose proof (civil_of_days_valid (n / 1440 + unix_epoch_days)) as Hc.
  destruct (civil_of_days _) as [[y m] d]. destruct Hc as [[Hm Hd] _].
  unfold valid_wall; cbn [wY wMo wD wH wMi]. repeat split; try lia; Z.div_mod_to_equations; lia.
Qed.

Lemma minute_of_wall_of n : minute_of (wall_of n) = n.
Proof.
  unfold wall_of, minute_of.
  pose proof (civil_of_days_valid (n / 1440 + unix_epoch_days)) as Hc.
  destruct (civil_of_days _) as [[y m] d]. destruct Hc as [_ Hn].
  cbn [wY wMo wD wH wMi]. rewrite Hn. Z.div_mod_to_equations; lia.
Qed.

Lemma wall_of_minute_of w : valid_wall w -> wall_of (minute_of w) = w.
Proof.
  destruct w as [y m d h mi]. intros (Hm & Hd & Hh & Hmi). cbn [wY wMo wD wH wMi] in *.
  unfold wall_of, minute_of; cbn [wY wMo wD wH wMi].
  set (n := days_of_civil y m d - unix_epoch_days).
  assert ((n * 1440 + h * 60 + mi) / 1440 = n) as -> by (Z.div_mod_to_equations; lia).
  replace (n + unix_epoch_days) with (days_of_civil y m d) by (unfold n; lia).
  rewrite civil_of_days_of_civil by done.
  f_equal; Z.div_mod_to_equations; lia.
Qed.

Lemma minute_of_inj w w' :
  valid_wall w -> valid_wall w' -> minute_of w = minute_of w' -> w = w'.
Proof.
  intros Hw Hw' E1. by rewrite <- (wall_of_minute_of w), <- (wall_of_minute_of w'), E1.
Qed.

#[global] Hint Resolve wall_of_valid : go.

(** The last day of a month is day zero of the next: [daysIn]'s arithmetic. *)
Lemma civil_of_day_zero y m : 1 <= m <= 12 ->
  civil_of_days (Date_days y (m + 1) 0) = (y, m, days_in_month y m).
Proof.
  intros Hm. rewrite <- (civil_of_days_of_civil y m (days_in_month y m)).
  - f_equal. unfold Date_days, days_of_civil.
    destruct (decide (m = 12)) as [->|Hne].
    + change ((12 + 1 - 1) / 12) with 1. change ((12 + 1 - 1) mod 12 + 1) with 1.
      rewrite days_before_year_succ. simpl. lia.
    + replace ((m + 1 - 1) / 12) with 0 by (Z.div_mod_to_equations; lia).
      replace ((m + 1 - 1) mod 12 + 1) with (m + 1) by (Z.div_mod_to_equations; lia).
      rewrite days_before_month_succ, Z.add_0_r by done. lia.
  - split; [done|]. pose proof (days_in_month_range y m). lia.
Qed.
