(* ===== verification/Cron.v ===== *)
(** * Cron: the schedule engine of internal/cron/cron.go.

    The 5-field parser ([parse], [parseField], [parseValue]), the day matcher,
    the field-stepping [walk] with its two daylight-saving rules, and the three
    entry points [Due], [Next] and [Upcoming].  The zone database is a parameter:
    [LoadLocation] maps a name to the offset function of its zone. *)
From stdpp Require Import base strings list sorting.
From Stdlib Require Import Ascii Lia.
From S2P Require Import Prelude GoStrings GoTime.

(** The two sentinel errors, and the run-time panic of an index out of range,
    which the theorems show no input reaches. *)
Inductive cron_error := ErrExpression | ErrTimezone | IndexPanic.

Definition SearchYears : Z := 12.
Definition ambiguityMargin : Z := 3 * hour.

(** ** The parser *)

(** A [64]bool array. *)
Abbreviation mask := (list bool).
Definition empty_mask : mask := replicate 64 false.

(** [mask[v] = true] *)
Definition mask_set (m : mask) (v : Z) : result cron_error mask :=
  if in_range 0 63 v then Ok (<[Z.to_nat v := true]> m) else Err IndexPanic.

(** [mask[v]]; every read is in range (see [valid_wall]). *)
Definition mask_get (m : mask) (v : Z) : bool :=
  in_range 0 63 v && default false (m !! Z.to_nat v).

Record fieldSpec := FieldSpec { fs_name : string; fs_min : Z; fs_max : Z }.

Definition fMinute : fieldSpec := FieldSpec "minute" 0 59.
Definition fHour : fieldSpec := FieldSpec "hour" 0 23.
Definition fDom : fieldSpec := FieldSpec "day-of-month" 1 31.
Definition fMonth : fieldSpec := FieldSpec "month" 1 12.
Definition fDow : fieldSpec := FieldSpec "day-of-week" 0 7.

Definition fields : list fieldSpec := [fMinute; fHour; fDom; fMonth; fDow].

Definition parseValue (s : string) (f : fieldSpec) : result cron_error Z :=
  match Atoi s with
  | None => Err ErrExpression
  | Some v => if (v <? fs_min f) || (fs_max f <? v) then Err ErrExpression else Ok v
  end.

(** The range and step one comma-separated element selects. *)
Definition parseElem (elem : string) (f : fieldSpec) : result cron_error (Z * Z * Z) :=
  let '(rng, stepStr, hasStep) := Cut elem "/" in
  try step <-
    (if hasStep then
       match Atoi stepStr with
       | Some n => if n <? 1 then Err ErrExpression else Ok n
       | None => Err ErrExpression
       end
     else Ok 1);
  if String.eqb rng "*" then Ok (fs_min f, fs_max f, step)
  else
    let '(loStr, hiStr, isRange) := Cut rng "-" in
    try lo <- parseValue loStr f;
    if isRange then
      try hi <- parseValue hiStr f;
      if hi <? lo then Err ErrExpression else Ok (lo, hi, step)
    else Ok (lo, if hasStep then fs_max f else lo, step).

(** [for v := lo; v <= hi; v += step { mask[v] = true; if hi-v < step { break } }],
    the increment in 64-bit arithmetic.  A field holds at most 60 values, so 64
    turns are enough ([fill_spec]). *)
Fixpoint fill (fuel : nat) (v hi step : Z) (m : mask) : result cron_error mask :=
  match fuel with
  | O => Ok m
  | S fuel' =>
      if v <=? hi then
        try m' <- mask_set m v;
        if hi - v <? step then Ok m' else fill fuel' (wrap64 (v + step)) hi step m'
      else Ok m
  end.

Definition parseField (part : string) (f : fieldSpec) (m : mask) : result cron_error mask :=
  fold_result (fun m elem =>
    if String.eqb elem "" then Err ErrExpression
    else try '(lo, hi, step) <- parseElem elem f; fill 64 lo hi step m)
  m (Split part ",").

Record schedule := Schedule {
  sMinute : mask; sHour : mask; sDom : mask; sMonth : mask; sDow : mask;
  domRestricted : bool; dowRestricted : bool }.

(** 7 is Sunday's other spelling. *)
Definition foldSunday (dow : mask) : mask :=
  if mask_get dow 7 then <[0%nat := true]> dow else dow.

Definition parse (expr : string) : result cron_error schedule :=
  match Fields expr with
  | [p0; p1; p2; p3; p4] =>
      try mi <- parseField p0 fMinute empty_mask;
      try h <- parseField p1 fHour empty_mask;
      try dom <- parseField p2 fDom empty_mask;
      try mo <- parseField p3 fMonth empty_mask;
      try dow <- parseField p4 fDow empty_mask;
      Ok (Schedule mi h dom mo (foldSunday dow) (negb (String.eqb p2 "*")) (negb (String.eqb p4 "*")))
  | _ => Err ErrExpression
  end.

Definition RestrictsBothDays (expr : string) : result cron_error bool :=
  try s <- parse expr; Ok (domRestricted s && dowRestricted s).

(** ** Matching *)

Definition matchesDay (s : schedule) (y mo d : Z) : bool :=
  let dom := mask_get (sDom s) d in
  let dow := mask_get (sDow s) (Weekday (days_of_civil y mo d)) in
  if domRestricted s && dowRestricted s then dom || dow
  else if domRestricted s then dom
  else if dowRestricted s then dow
  else true.

(** The wall clock satisfies all five fields. *)
Definition matches (s : schedule) (w : wall) : bool :=
  mask_get (sMonth s) (wMo w) && matchesDay s (wY w) (wMo w) (wD w) &&
  mask_get (sHour s) (wH w) && mask_get (sMinute s) (wMi w).

(** ** Stepping *)

(** [time.Date(y, mo+1, 0, ...).Day()] *)
Definition daysIn (y mo : Z) : Z := (civil_of_days (Date_days y (mo + 1) 0)).2.

Definition nextMonth (w : wall) : wall :=
  if 12 <? wMo w + 1 then Wall (wY w + 1) 1 1 0 0 else Wall (wY w) (wMo w + 1) 1 0 0.

Definition nextDay (w : wall) : wall :=
  if daysIn (wY w) (wMo w) <? wD w + 1 then nextMonth w
  else Wall (wY w) (wMo w) (wD w + 1) 0 0.

Definition nextHour (w : wall) : wall :=
  if 23 <? wH w + 1 then nextDay w else Wall (wY w) (wMo w) (wD w) (wH w + 1) 0.

Definition nextMinute (w : wall) : wall :=
  if 59 <? wMi w + 1 then nextHour w else Wall (wY w) (wMo w) (wD w) (wH w) (wMi w + 1).

(** [time.Date(y, mo, d, h, mi, 0, 0, time.UTC)] as an instant. *)
Definition naive (w : wall) : Z := minute_of w * minute.

(** ** Instants *)

Definition containsInt (xs : list Z) (v : Z) : bool := existsb (Z.eqb v) xs.

Definition add_unique (xs : list Z) (v : Z) : list Z :=
  if containsInt xs v then xs else xs ++ [v].

(** The offsets in effect a day and a half before noon, at noon and after. *)
Definition probe_offsets (loc : location) (w : wall) : list Z :=
  let probe := naive (Wall (wY w) (wMo w) (wD w) 12 0) in
  foldl (fun offs p => add_unique offs (Zone loc p)) [] [probe - 36 * hour; probe; probe + 36 * hour].

Definition instantsFor (loc : location) (w : wall) : list Z :=
  let keep (out : list Z) (off : Z) :=
    let u := naive w - off * second in
    if bool_decide (wall_in loc u = w) then add_unique out u else out in
  merge_sort Z.le (foldl keep [] (probe_offsets loc w)).

(** ** The walk *)

Fixpoint dedup_adjacent (prev : option Z) (ts : list Z) : list Z :=
  match ts with
  | [] => []
  | t :: ts' =>
      if bool_decide (prev = Some t) then dedup_adjacent (Some t) ts'
      else t :: dedup_adjacent (Some t) ts'
  end.

Definition sortUnique (ts : list Z) : list Z := dedup_adjacent None (merge_sort Z.le ts).

(** The loop's variables: the cursor, the instants so far and the wall clock past
    which no candidate can still land in the answer ([zero_time]: not known yet). *)
Record walk_state := WalkState { cursor : wall; found : list Z; stopAt : Z }.

Definition in_window (after until u : Z) : bool :=
  (after <? u) && (IsZero until || (u <=? until)).

Definition walk_step (s : schedule) (loc : location) (after until n lastYear : Z)
    (st : walk_state) : walk_state + list Z :=
  let w := cursor st in
  let goto w' := inl (WalkState w' (found st) (stopAt st)) in
  if negb (wY w <=? lastYear) then inr (found st)
  else if negb (mask_get (sMonth s) (wMo w)) then goto (nextMonth w)
  else if negb (matchesDay s (wY w) (wMo w) (wD w)) then goto (nextDay w)
  else if negb (mask_get (sHour s) (wH w)) then goto (nextHour w)
  else if negb (mask_get (sMinute s) (wMi w)) then goto (nextMinute w)
  else if negb (IsZero (stopAt st)) && (stopAt st <? naive w) then inr (found st)
  else
    let out := found st ++ base.filter (fun u => in_window after until u = true) (instantsFor loc w) in
    let stop := if (0 <? n) && IsZero (stopAt st) && (n <=? Z.of_nat (length out))
                then naive w + ambiguityMargin else stopAt st in
    inl (WalkState (nextMinute w) out stop).

Definition last_year (loc : location) (after : Z) : Z := wY (wall_in loc after) + SearchYears.

(** Minutes left before the search bound: what the loop decreases. *)
Definition walk_measure (lastYear : Z) (st : walk_state) : Z :=
  Z.max 0 (minute_of (Wall (lastYear + 1) 1 1 0 0) - minute_of (cursor st)).

Definition walk_start (loc : location) (after until : Z) : walk_state :=
  WalkState (wall_in loc (after - ambiguityMargin)) []
    (if IsZero until then zero_time else naive (wall_in loc until) + ambiguityMargin).

Definition walk (s : schedule) (loc : location) (after until n : Z) : list Z :=
  let lastYear := last_year loc after in
  let st := walk_start loc after until in
  let fuel := Z.to_nat (Z.log2_up (walk_measure lastYear st + 2)) in
  match loop (walk_step s loc after until n lastYear) fuel st with
  | inr out =>
      let out := sortUnique out in
      if (0 <? n) && (n <? Z.of_nat (length out)) then take (Z.to_nat n) out else out
  | inl _ => []
  end.

(** ** The entry points *)

Section entry.
(** [time.LoadLocation] over the embedded zone database. *)
Context (LoadLocation : string -> option location).

Definition loadLocation (timezone : string) : result cron_error location :=
  if String.eqb timezone "" then Err ErrTimezone
  else if String.eqb timezone "Local" then Err ErrTimezone
  else match LoadLocation timezone with
       | Some loc => Ok loc
       | None => Err ErrTimezone
       end.

Definition compile (expr timezone : string) : result cron_error (schedule * location) :=
  try s <- parse expr; try loc <- loadLocation timezone; Ok (s, loc).

Definition Due (expr timezone : string) (from to : Z) : result cron_error (list Z) :=
  if to <? from then Err ErrExpression
  else try '(s, loc) <- compile expr timezone; Ok (walk s loc from to (-1)).

Definition Upcoming (expr timezone : string) (after n : Z) : result cron_error (list Z) :=
  if n <? 0 then Err ErrExpression
  else
    try '(s, loc) <- compile expr timezone;
    if n =? 0 then Ok [] else Ok (walk s loc after zero_time n).

Definition Next (expr timezone : string) (after : Z) : result cron_error (option Z) :=
  try got <- Upcoming expr timezone after 1; Ok (head got).
End entry.
