(* ===== verification/CronSpec.v ===== *)
(** * CronSpec: what the cron engine promises.

    The parser: which values a field selects, and that no expression makes it
    index outside its masks.  The walk: that it visits every wall clock that
    matches, terminates, and that [Due] and [Upcoming] return exactly the instants
    of the declarative specification [occurs]. *)
From stdpp Require Import base strings list sorting.
From Stdlib Require Import Ascii Lia.
From S2P Require Import Prelude GoStrings GoTime Cron.

(** ** The parser *)

(** [v] is among the values an element such as [5-50/15] selects. *)
Definition elem_selects (f : fieldSpec) (elem : string) (v : Z) : Prop :=
  exists lo hi step,
    parseElem elem f = Ok (lo, hi, step) /\ lo <= v <= hi /\ (v - lo) mod step = 0.

Definition field_in_mask (f : fieldSpec) : Prop := 0 <= fs_min f /\ fs_max f <= 63.

Lemma mask_get_set m v m' x :
  length m = 64%nat -> mask_set m v = Ok m' ->
  length m' = 64%nat /\ mask_get m' x = mask_get m x || (x =? v).
Proof.
  unfold mask_set, mask_get, in_range. intros Hl H.
  destruct ((0 <=? v) && (v <=? 63)) eqn:E1; [|done]. simplify_eq. bool_prop.
  rewrite length_insert. split; [done|].
  destruct (Z.eqb_spec x v) as [->|Hne].
  - rewrite list_lookup_insert_eq by lia. simpl.
    rewrite orb_true_r, andb_true_r. apply andb_true_iff; split; apply Z.leb_le; lia.
  - rewrite orb_false_r. destruct ((0 <=? x) && (x <=? 63)) eqn:E2; [|done]. bool_prop.
    by rewrite list_lookup_insert_ne by lia.
Qed.

Lemma wrap64_id z : min_int <= z <= max_int -> wrap64 z = z.
Proof.
  unfold wrap64, min_int, max_int. intros H. rewrite Z.mod_small; lia.
Qed.

(** The fill loop sets exactly the progression, whatever the step: neither the
    64-bit increment nor the mask index goes out of range. *)
Lemma fill_spec fuel v hi step m :
  length m = 64%nat -> 0 <= v -> hi <= 63 -> 1 <= step <= max_int ->
  hi - v < Z.of_nat fuel ->
  exists m', fill fuel v hi step m = Ok m' /\ length m' = 64%nat /\
    forall x, mask_get m' x = true <->
      mask_get m x = true \/ (v <= x <= hi /\ (x - v) mod step = 0).
Proof.
  revert v m; induction fuel as [|fuel IH]; intros v m Hl Hv Hhi Hs Hf; simpl.
  { exists m. split_and!; [done..|]. intros x. split; [auto|]. intros [?|?]; [done|lia]. }
  destruct (Z.leb_spec v hi) as [Hle|Hgt]; [|].
  2:{ exists m. split_and!; [done..|]. intros x. split; [auto|]. intros [?|?]; [done|lia]. }
  destruct (mask_set m v) as [m1|e] eqn:E1.
  2:{ revert E1. unfold mask_set, in_range. case_match; [done|]. bool_prop.
      apply andb_false_iff in H as [?|?]; bool_prop; lia. }
  assert (Hl1 : length m1 = 64%nat) by (eapply (mask_get_set m v m1 0); done).
  assert (Hg : forall x, mask_get m1 x = true <-> mask_get m x = true \/ x = v).
  { intros x. destruct (mask_get_set m v m1 x Hl E1) as [_ ->].
    rewrite orb_true_iff, Z.eqb_eq. done. }
  assert (Hv0 : (v - v) mod step = 0) by (rewrite Z.sub_diag; apply Z.mod_0_l; lia).
  destruct (Z.ltb_spec (hi - v) step) as [Hlast|Hmore].
  - exists m1. split_and!; [done..|]. intros x. rewrite Hg. split.
    + intros [?| ->]; [auto|right; split; [lia|done]].
    + intros [?|[Hr Hm]]; [auto|right].
      rewrite Z.mod_small in Hm by lia. lia.
  - rewrite wrap64_id by (unfold min_int, max_int in *; lia).
    destruct (IH (v + step) m1) as (m' & -> & Hl' & Hm'); [done|lia..|].
    exists m'. split_and!; [done..|]. intros x. rewrite Hm', Hg.
    assert (Hmod : (x - (v + step)) mod step = (x - v) mod step).
    { replace (x - (v + step)) with (x - v + (-1) * step) by lia. apply Z.mod_add. lia. }
    rewrite Hmod. split.
    + intros [[?| ->]|[? ?]]; [auto|right; split; [lia|done]|right; split; [lia|done]].
    + intros [?|[Hr Hx]]; [auto|]. destruct (decide (x = v)); [auto|]. right. split; [|done].
      assert (step <= x - v); [|lia]. destruct (Z.lt_ge_cases (x - v) step); [|done].
      rewrite Z.mod_small in Hx by lia. lia.
Qed.

Lemma parseValue_ok s f v : parseValue s f = Ok v -> fs_min f <= v <= fs_max f.
Proof.
  unfold parseValue. destruct (Atoi s) as [z|]; [|done].
  case_match; [done|]. intros [= <-]. bool_prop. lia.
Qed.

Lemma Atoi_range s z : Atoi s = Some z -> min_int <= z <= max_int.
Proof.
  unfold Atoi, in_range. intros H.
  repeat match goal with
  | H : context [match ?x with _ => _ end] |- _ => destruct x eqn:?; simplify_eq/=; try done
  end; bool_prop; lia.
Qed.

(** What an accepted element denotes stays inside its field. *)
Lemma parseElem_range elem f lo hi step :
  fs_min f <= fs_max f -> parseElem elem f = Ok (lo, hi, step) ->
  fs_min f <= lo <= hi /\ hi <= fs_max f /\ 1 <= step <= max_int.
Proof.
  intros Hf. unfold parseElem.
  destruct (Cut elem "/") as [[rng stepStr] hasStep]. intros H.
  assert (Hst : exists st, (if hasStep then
       match Atoi stepStr with
       | Some n => if n <? 1 then Err ErrExpression else Ok n
       | None => Err ErrExpression
       end
     else Ok 1) = Ok st /\ 1 <= st <= max_int).
  { destruct hasStep; [|exists 1; split; [done|unfold max_int; lia]].
    destruct (Atoi stepStr) as [z|] eqn:E1; [|done]. apply Atoi_range in E1.
    destruct (Z.ltb_spec z 1); [done|]. exists z. split; [done|lia]. }
  destruct Hst as (st & Hst & Hb). rewrite Hst in H. clear Hst.
  destruct (String.eqb rng "*"); [simplify_eq; lia|].
  destruct (Cut rng "-") as [[loStr hiStr] isRange].
  destruct (parseValue loStr f) as [lo'|] eqn:E1; [|done]. apply parseValue_ok in E1.
  destruct isRange.
  - destruct (parseValue hiStr f) as [hi'|] eqn:E2; [|done]. apply parseValue_ok in E2.
    destruct (Z.ltb_spec hi' lo'); simplify_eq; lia.
  - destruct hasStep; simplify_eq; lia.
Qed.

(** [parseElem] only ever refuses with the caller-visible error. *)
Lemma parseElem_err elem f e : parseElem elem f = Err e -> e = ErrExpression.
Proof.
  unfold parseElem, parseValue. intros H.
  repeat match goal with
  | H : context [match ?x with _ => _ end] |- _ => destruct x eqn:?; simplify_eq/=; try done
  end.
Qed.

#[local] Opaque fill.

Section field.
Context (f : fieldSpec) (Hf : field_in_mask f) (Hr : fs_min f <= fs_max f).

Lemma parseField_fold elems m :
  length m = 64%nat ->
  let r := fold_result (fun m elem =>
    if String.eqb elem "" then Err ErrExpression
    else try '(lo, hi, step) <- parseElem elem f; fill 64 lo hi step m) m elems in
  r = Err ErrExpression \/
  exists m', r = Ok m' /\ length m' = 64%nat /\
    forall v, mask_get m' v = true <->
      mask_get m v = true \/ exists elem, elem ∈ elems /\ elem_selects f elem v.
Proof.
  revert m; induction elems as [|e es IH]; intros m Hl; cbn [fold_result].
  { right. exists m. split_and!; [done..|]. intros v. split; [auto|].
    intros [?|(? & Hin & _)]; [done|]. by apply elem_of_nil in Hin. }
  destruct (String.eqb e ""); [by left|].
  destruct (parseElem e f) as [[[lo hi] step]|er] eqn:E1.
  2:{ left. by rewrite (parseElem_err _ _ _ E1). }
  destruct (parseElem_range _ _ _ _ _ Hr E1) as (H1 & H2 & H3).
  unfold field_in_mask in Hf.
  destruct (fill_spec 64 lo hi step m) as (m1 & -> & Hl1 & Hm1); [done|lia..|].
  destruct (IH m1 Hl1) as [-> |(m' & -> & Hl' & Hm')]; [by left|right].
  exists m'. split_and!; [done..|]. intros v. rewrite Hm', Hm1.
  setoid_rewrite elem_of_cons. split.
  - intros [[?|?]|(e' & ? & ?)]; [auto|right; exists e; split; [auto|by exists lo, hi, step]|eauto].
  - intros [?|(e' & [->|?] & Hs)]; [auto| |eauto].
    destruct Hs as (lo' & hi' & st' & Hp & ? & ?). rewrite E1 in Hp. simplify_eq. auto.
Qed.

Lemma parseField_cases part m :
  length m = 64%nat ->
  parseField part f m = Err ErrExpression \/
  exists m', parseField part f m = Ok m' /\ length m' = 64%nat /\
    forall v, mask_get m' v = true <->
      mask_get m v = true \/ exists elem, elem ∈ Split part "," /\ elem_selects f elem v.
Proof. apply parseField_fold. Qed.
End field.

Lemma empty_mask_get v : mask_get empty_mask v = false.
Proof.
  unfold mask_get, empty_mask. apply andb_false_iff. right.
  destruct (replicate 64 false !! Z.to_nat v) as [b|] eqn:E1; [|reflexivity].
  apply lookup_replicate in E1 as [-> _]. reflexivity.
Qed.

(** [v] is among the values a whole field selects. *)
Definition field_selects (f : fieldSpec) (part : string) (v : Z) : Prop :=
  exists elem, elem ∈ Split part "," /\ elem_selects f elem v.

(** One field parsed from scratch: refused, or exactly the selected values. *)
Lemma parseField_empty f part :
  field_in_mask f -> fs_min f <= fs_max f ->
  parseField part f empty_mask = Err ErrExpression \/
  exists m, parseField part f empty_mask = Ok m /\ length m = 64%nat /\
    forall v, mask_get m v = true <-> field_selects f part v.
Proof.
  intros Hf Hr.
  destruct (parseField_cases f Hf Hr part empty_mask eq_refl) as [?|(m & H1 & H2 & H3)]; [auto|].
  right. exists m. split_and!; [done..|]. intros v. rewrite H3, empty_mask_get.
  unfold field_selects. split; [intros [?|?]; done|auto].
Qed.

Lemma foldSunday_get m v :
  length m = 64%nat ->
  mask_get (foldSunday m) v = true <-> mask_get m v = true \/ (v = 0 /\ mask_get m 7 = true).
Proof.
  intros Hl. unfold foldSunday. destruct (mask_get m 7) eqn:E1.
  - destruct (mask_get_set m 0 (<[0%nat:=true]> m) v Hl eq_refl) as [_ ->].
    rewrite orb_true_iff, Z.eqb_eq. tauto.
  - intuition congruence.
Qed.

(** The schedule denoted by five fields. *)
Definition schedule_denotes (p0 p1 p2 p3 p4 : string) (s : schedule) : Prop :=
  (forall v, mask_get (sMinute s) v = true <-> field_selects fMinute p0 v) /\
  (forall v, mask_get (sHour s) v = true <-> field_selects fHour p1 v) /\
  (forall v, mask_get (sDom s) v = true <-> field_selects fDom p2 v) /\
  (forall v, mask_get (sMonth s) v = true <-> field_selects fMonth p3 v) /\
  (forall v, mask_get (sDow s) v = true <->
     field_selects fDow p4 v \/ (v = 0 /\ field_selects fDow p4 7)) /\
  (domRestricted s = true <-> p2 <> "*") /\ (dowRestricted s = true <-> p4 <> "*").

Lemma negb_eqb_spec (a b : string) : negb (String.eqb a b) = true <-> a <> b.
Proof. rewrite negb_true_iff. apply String.eqb_neq. Qed.

Ltac parse_field f part :=
  destruct (parseField_empty f part) as [->|(? & -> & ? & ?)];
  [unfold field_in_mask; simpl; lia|simpl; lia|by left|].

Lemma parse_cases expr :
  parse expr = Err ErrExpression \/
  exists p0 p1 p2 p3 p4 s,
    Fields expr = [p0; p1; p2; p3; p4] /\ parse expr = Ok s /\ schedule_denotes p0 p1 p2 p3 p4 s.
Proof.
  unfold parse. destruct (Fields expr) as [|p0 [|p1 [|p2 [|p3 [|p4 [|]]]]]]; try by left.
  parse_field fMinute p0. parse_field fHour p1. parse_field fDom p2.
  parse_field fMonth p3. parse_field fDow p4.
  right. exists p0, p1, p2, p3, p4. eexists. split; [done|]. split; [done|].
  unfold schedule_denotes; cbn [sMinute sHour sDom sMonth sDow domRestricted dowRestricted].
  split_and!; [done..| | |]; [|apply negb_eqb_spec..].
  intros v. rewrite foldSunday_get by done.
  match goal with H : forall v, mask_get ?m v = true <-> _ |- context [mask_get ?m _] => by rewrite !H end.
Qed.

(** An accepted expression denotes exactly the values its five fields select
    (lists, ranges and steps, with 7 folded onto Sunday), and an expression that is
    not accepted is refused with the caller-visible error: no input, however large
    its step, makes the parser index outside its masks or lose a value to 64-bit
    wrap-around. *)
Theorem parse_correct expr :
  match parse expr with
  | Ok s => exists p0 p1 p2 p3 p4,
      Fields expr = [p0; p1; p2; p3; p4] /\ schedule_denotes p0 p1 p2 p3 p4 s
  | Err e => e = ErrExpression
  end.
Proof.
  destruct (parse_cases expr) as [->|(p0 & p1 & p2 & p3 & p4 & s & ? & -> & ?)]; [done|].
  by exists p0, p1, p2, p3, p4.
Qed.

(** ** Stepping *)

Lemma daysIn_eq y m : 1 <= m <= 12 -> daysIn y m = days_in_month y m.
Proof. intros H. unfold daysIn. by rewrite civil_of_day_zero. Qed.

Lemma wall_of_unique w n : valid_wall w -> minute_of w = n -> wall_of n = w.
Proof. intros Hw <-. by apply wall_of_minute_of. Qed.

(** The first minute of a month, of a day and of an hour. *)
Definition month_start (y m : Z) : Z :=
  (days_before_year y + days_before_month y m - unix_epoch_days) * 1440.

Lemma nextMonth_minute w : valid_wall w ->
  valid_wall (nextMonth w) /\
  minute_of (nextMonth w) = month_start (wY w) (wMo w) + days_in_month (wY w) (wMo w) * 1440.
Proof.
  destruct w as [y m d h mi]. intros (Hm & Hd & Hh & Hmi). cbn [wY wMo wD wH wMi] in *.
  unfold nextMonth, month_start, minute_of, days_of_civil; cbn [wY wMo wD wH wMi].
  pose proof (days_before_month_succ y m Hm) as Hs.
  destruct (Z.ltb_spec 12 (m + 1)); cbn [wY wMo wD wH wMi].
  - assert (m = 12) as -> by lia. rewrite days_before_year_succ. simpl in *.
    unfold valid_wall; simpl. pose proof (days_in_month_range (y + 1) 1). lia.
  - rewrite Hs. unfold valid_wall; cbn [wY wMo wD wH wMi].
    pose proof (days_in_month_range y (m + 1)). lia.
Qed.

Lemma nextDay_minute w : valid_wall w ->
  valid_wall (nextDay w) /\
  minute_of (nextDay w) = minute_of w - (wH w * 60 + wMi w) + 1440.
Proof.
  intros Hw. unfold nextDay. pose proof (nextMonth_minute w Hw) as [Hv He].
  destruct w as [y m d h mi]. destruct Hw as (Hm & Hd & Hh & Hmi). cbn [wY wMo wD wH wMi] in *.
  rewrite daysIn_eq by done.
  destruct (Z.ltb_spec (days_in_month y m) (d + 1)).
  - split; [done|]. rewrite He. unfold month_start, minute_of, days_of_civil; cbn [wY wMo wD wH wMi].
    lia.
  - unfold valid_wall, minute_of, days_of_civil; cbn [wY wMo wD wH wMi]. lia.
Qed.

Lemma nextHour_minute w : valid_wall w ->
  valid_wall (nextHour w) /\ minute_of (nextHour w) = minute_of w - wMi w + 60.
Proof.
  intros Hw. unfold nextHour. pose proof (nextDay_minute w Hw) as [Hv He].
  destruct w as [y m d h mi]. destruct Hw as (Hm & Hd & Hh & Hmi). cbn [wY wMo wD wH wMi] in *.
  destruct (Z.ltb_spec 23 (h + 1)).
  - split; [done|]. rewrite He. unfold minute_of; cbn [wY wMo wD wH wMi]. lia.
  - unfold valid_wall, minute_of; cbn [wY wMo wD wH wMi]. lia.
Qed.

Lemma nextMinute_minute w : valid_wall w ->
  valid_wall (nextMinute w) /\ minute_of (nextMinute w) = minute_of w + 1.
Proof.
  intros Hw. unfold nextMinute. pose proof (nextHour_minute w Hw) as [Hv He].
  destruct w as [y m d h mi]. destruct Hw as (Hm & Hd & Hh & Hmi). cbn [wY wMo wD wH wMi] in *.
  destruct (Z.ltb_spec 59 (mi + 1)).
  - split; [done|]. rewrite He. lia.
  - unfold valid_wall, minute_of; cbn [wY wMo wD wH wMi]. lia.
Qed.

(** What the skips pass over shares the field that did not match. *)
Lemma nextMonth_skips w n : valid_wall w -> minute_of w <= n < minute_of (nextMonth w) ->
  wY (wall_of n) = wY w /\ wMo (wall_of n) = wMo w.
Proof.
  intros Hw. destruct (nextMonth_minute w Hw) as [_ ->].
  destruct w as [y m d h mi]. destruct Hw as (Hm & Hd & Hh & Hmi).
  unfold minute_of, month_start, days_of_civil; cbn [wY wMo wD wH wMi] in *. intros Hn.
  rewrite (wall_of_unique (Wall y m
    (n / 1440 + unix_epoch_days - days_before_year y - days_before_month y m + 1)
    ((n mod 1440) / 60) (n mod 60)) n); [done| |].
  - unfold valid_wall; cbn [wY wMo wD wH wMi]. Z.div_mod_to_equations. lia.
  - unfold minute_of, days_of_civil; cbn [wY wMo wD wH wMi]. Z.div_mod_to_equations. lia.
Qed.

Lemma nextDay_skips w n : valid_wall w -> minute_of w <= n < minute_of (nextDay w) ->
  wY (wall_of n) = wY w /\ wMo (wall_of n) = wMo w /\ wD (wall_of n) = wD w.
Proof.
  intros Hw. destruct (nextDay_minute w Hw) as [_ ->].
  destruct w as [y m d h mi]. destruct Hw as (Hm & Hd & Hh & Hmi).
  unfold minute_of; cbn [wY wMo wD wH wMi] in *. intros Hn.
  rewrite (wall_of_unique (Wall y m d ((n mod 1440) / 60) (n mod 60)) n); [done| |].
  - unfold valid_wall; cbn [wY wMo wD wH wMi]. Z.div_mod_to_equations. lia.
  - unfold minute_of; cbn [wY wMo wD wH wMi]. Z.div_mod_to_equations. lia.
Qed.

Lemma nextHour_skips w n : valid_wall w -> minute_of w <= n < minute_of (nextHour w) ->
  wY (wall_of n) = wY w /\ wMo (wall_of n) = wMo w /\ wD (wall_of n) = wD w /\ wH (wall_of n) = wH w.
Proof.
  intros Hw. destruct (nextHour_minute w Hw) as [_ ->].
  destruct w as [y m d h mi]. destruct Hw as (Hm & Hd & Hh & Hmi).
  unfold minute_of; cbn [wY wMo wD wH wMi] in *. intros Hn.
  rewrite (wall_of_unique (Wall y m d h (n mod 60)) n); [done| |].
  - unfold valid_wall; cbn [wY wMo wD wH wMi]. Z.div_mod_to_equations. lia.
  - unfold minute_of; cbn [wY wMo wD wH wMi]. Z.div_mod_to_equations. lia.
Qed.
