(* ===== verification/CronWalk.v ===== *)
(** * CronWalk: the walk returns exactly the scheduled instants.

    [occurs] is the declarative specification: the wall clock of the instant
    satisfies the five fields, on the minute.  The walk is shown to terminate
    within its search bound and to find every occurrence, through daylight-saving
    transitions, for any zone with the properties [ZoneOK] the engine's comments
    state of the zone database. *)
From stdpp Require Import base strings list sorting.
From Stdlib Require Import Lia.
From S2P Require Import Prelude GoStrings GoTime Cron CronSpec.

(** ** Lists of instants *)

Lemma containsInt_spec xs v : containsInt xs v = true <-> v ∈ xs.
Proof.
  unfold containsInt. rewrite existsb_exists. split.
  - intros (x & Hx & He). bool_prop. subst. by apply list_elem_of_In.
  - intros H. exists v. rewrite Z.eqb_refl. split; [by apply list_elem_of_In|done].
Qed.

Lemma add_unique_elem xs v x : x ∈ add_unique xs v <-> x ∈ xs \/ x = v.
Proof.
  unfold add_unique. destruct (containsInt xs v) eqn:E1.
  - apply containsInt_spec in E1. split; [auto|]. by intros [?| ->].
  - rewrite elem_of_app, list_elem_of_singleton. done.
Qed.

Lemma add_unique_NoDup xs v : NoDup xs -> NoDup (add_unique xs v).
Proof.
  unfold add_unique. intros H. destruct (containsInt xs v) eqn:E1; [done|].
  apply NoDup_app. split_and!; [done| |apply NoDup_singleton].
  intros x Hx ->%list_elem_of_singleton. apply containsInt_spec in Hx. congruence.
Qed.

Lemma dedup_adjacent_spec p l :
  StronglySorted Z.le l -> (forall x, x ∈ l -> match p with Some y => y <= x | None => True end) ->
  StronglySorted Z.lt (dedup_adjacent p l) /\
  (forall x, x ∈ dedup_adjacent p l -> match p with Some y => y < x | None => True end) /\
  (forall x, x ∈ l <-> x ∈ dedup_adjacent p l \/ (p = Some x /\ x ∈ l)).
Proof.
  intros Hs; revert p; induction Hs as [|t l Hs IH Ht]; intros p Hp; simpl.
  { split; [constructor|]. split; [by intros x ?%elem_of_nil|naive_solver]. }
  rewrite Forall_forall in Ht.
  destruct (IH (Some t) Ht) as (IH1 & IH2 & IH3).
  case_bool_decide as Hd.
  - subst p. split_and!; [done..|]. intros x. rewrite elem_of_cons, IH3. naive_solver.
  - split_and!.
    + constructor; [done|]. rewrite Forall_forall. done.
    + intros x [->|Hx]%elem_of_cons.
      * specialize (Hp t (list_elem_of_here _ _)). destruct p; [|done].
        assert (z <> t) by congruence. lia.
      * specialize (IH2 _ Hx). destruct p as [z|]; [|done].
        specialize (Hp t (list_elem_of_here _ _)). simpl in Hp. lia.
    + intros x. rewrite !elem_of_cons, (IH3 x). naive_solver.
Qed.

Lemma merge_sort_elem l x : x ∈ merge_sort Z.le l <-> x ∈ l.
Proof. by rewrite (merge_sort_Permutation Z.le l). Qed.

(** [sortUnique] is strictly ascending and keeps the members. *)
Lemma sortUnique_spec l :
  StronglySorted Z.lt (sortUnique l) /\ forall x, x ∈ sortUnique l <-> x ∈ l.
Proof.
  unfold sortUnique. pose proof (StronglySorted_merge_sort Z.le l) as Hs.
  destruct (dedup_adjacent_spec None _ Hs) as (H1 & _ & H3); [done|].
  split; [done|]. intros x. rewrite <- (merge_sort_elem l x), H3.
  split; [auto|]. by intros [?|[? _]].
Qed.

(** The [n] least members of a strictly sorted list lie below any bound that [n]
    members lie below. *)
Lemma take_below (L l : list Z) n u :
  StronglySorted Z.lt L -> NoDup l -> (forall x, x ∈ l -> x ∈ L /\ x < u) ->
  (n <= length l)%nat -> forall v, v ∈ take n L -> v < u.
Proof.
  intros Hs Hnd Hl Hn v Hv. destruct (Z.lt_ge_cases v u) as [?|Hge]; [done|exfalso].
  apply list_elem_of_lookup in Hv as [i Hi]. apply lookup_take_Some in Hi as [Hi Hin].
  assert (Hsub : forall x, x ∈ l -> x ∈ take i L).
  { intros x Hx. destruct (Hl x Hx) as [HxL Hxu].
    rewrite <- (take_drop_middle L i v Hi) in Hs, HxL.
    apply elem_of_app in HxL as [?|HxR]; [done|exfalso].
    apply StronglySorted_app in Hs as (_ & _ & Hs). apply StronglySorted_inv in Hs as [_ Hs].
    rewrite Forall_forall in Hs. apply elem_of_cons in HxR as [->|HxR]; [lia|].
    specialize (Hs _ HxR). lia. }
  assert (length l <= length (take i L))%nat.
  { apply submseteq_length, NoDup_submseteq; done. }
  rewrite length_take in *. lia.
Qed.

(** ** Instants of a wall clock *)

Section instants.
Context (loc : location).

Definition noon (w : wall) : Z := naive (Wall (wY w) (wMo w) (wD w) 12 0).

Lemma probe_offsets_elem w off :
  off ∈ probe_offsets loc w <->
  off = Zone loc (noon w - 36 * hour) \/ off = Zone loc (noon w) \/ off = Zone loc (noon w + 36 * hour).
Proof.
  unfold probe_offsets, noon. cbn [foldl]. rewrite !add_unique_elem, elem_of_nil. tauto.
Qed.

Lemma instants_fold w offs out :
  let keep (out : list Z) (off : Z) :=
    let u := naive w - off * second in
    if bool_decide (wall_in loc u = w) then add_unique out u else out in
  NoDup out ->
  NoDup (foldl keep out offs) /\
  forall u, u ∈ foldl keep out offs <->
    u ∈ out \/ exists off, off ∈ offs /\ u = naive w - off * second /\ wall_in loc u = w.
Proof.
  intros keep; revert out; induction offs as [|o offs IH]; intros out Hnd.
  { cbn [foldl]. split; [done|]. intros u. split; [auto|].
    intros [?|(? & Hin & _)]; [done|]. by apply elem_of_nil in Hin. }
  cbn [foldl]. destruct (IH (keep out o)) as [H1 H2].
  { unfold keep. case_bool_decide; [by apply add_unique_NoDup|done]. }
  split; [done|]. intros u. rewrite H2. setoid_rewrite elem_of_cons. unfold keep.
  case_bool_decide as Hw.
  - rewrite add_unique_elem. split.
    + intros [[?| ->]|(off & ? & ?)]; [auto|right; exists o; auto|right; exists off; auto].
    + intros [?|(off & [->|?] & -> & ?)]; [auto|auto|right; exists off; auto].
  - split.
    + intros [?|(off & ? & ?)]; [auto|right; exists off; auto].
    + intros [?|(off & [->|?] & -> & ?)]; [auto|done|right; exists off; auto].
Qed.

Lemma instantsFor_elem w u :
  u ∈ instantsFor loc w <->
  exists off, off ∈ probe_offsets loc w /\ u = naive w - off * second /\ wall_in loc u = w.
Proof.
  unfold instantsFor. rewrite merge_sort_Permutation.
  destruct (instants_fold w (probe_offsets loc w) [] (NoDup_nil_2)) as [_ H].
  rewrite H, elem_of_nil. tauto.
Qed.

Lemma instantsFor_NoDup w : NoDup (instantsFor loc w).
Proof.
  unfold instantsFor. rewrite merge_sort_Permutation.
  by destruct (instants_fold w (probe_offsets loc w) [] (NoDup_nil_2)).
Qed.

Lemma wall_in_minute u : minute_of (wall_in loc u) = local loc u / minute.
Proof. apply minute_of_wall_of. Qed.

Lemma wall_in_valid u : valid_wall (wall_in loc u).
Proof. apply wall_of_valid. Qed.
End instants.
#[global] Hint Resolve wall_in_valid : go.

(** ** The loop invariant *)

Section invariant.
Context (s : schedule) (loc : location) (after until n lastYear : Z).

Definition start_minute : Z := local loc (after - ambiguityMargin) / minute.

(** What the walk is after: an instant of a visited wall clock that matches. *)
Definition candidate (u : Z) : Prop :=
  matches s (wall_in loc u) = true /\ in_window after until u = true /\
  u ∈ instantsFor loc (wall_in loc u) /\
  start_minute <= local loc u / minute /\ wY (wall_in loc u) <= lastYear.

(** The cursor has passed [m]: exactly the candidates before it are found. *)
Definition found_upto (m : Z) (l : list Z) : Prop :=
  NoDup l /\ forall u, u ∈ l <-> candidate u /\ local loc u / minute < m.

(** A known stop: beyond the window's end, or beyond [n] found instants. *)
Definition stop_reason (l : list Z) (m stop : Z) : Prop :=
  (IsZero until = false /\ stop = naive (wall_in loc until) + ambiguityMargin) \/
  (0 < n /\ exists w0 l0, stop = naive w0 + ambiguityMargin /\ NoDup l0 /\
     n <= Z.of_nat (length l0) /\
     forall u, u ∈ l0 -> u ∈ l /\ local loc u / minute <= minute_of w0).

Definition walk_inv (st : walk_state) : Prop :=
  valid_wall (cursor st) /\ start_minute <= minute_of (cursor st) /\
  found_upto (minute_of (cursor st)) (found st) /\
  (stopAt st = zero_time \/ stop_reason (found st) (minute_of (cursor st)) (stopAt st)).

Lemma found_upto_skip m m' l :
  found_upto m l -> m <= m' ->
  (forall k, m <= k < m' -> matches s (wall_of k) = false) -> found_upto m' l.
Proof.
  intros [Hnd Hf] Hm Hskip. split; [done|]. intros u. rewrite Hf. split; [intros [? ?]; split; [done|lia]|].
  intros [Hc Hlt]. split; [done|]. destruct (Z.lt_ge_cases (local loc u / minute) m) as [?|Hge]; [done|].
  destruct Hc as [Hma _]. unfold wall_in in Hma. by rewrite Hskip in Hma.
Qed.

Lemma stop_reason_mono l l' m m' stop :
  stop_reason l m stop -> (forall u, u ∈ l -> u ∈ l') -> stop_reason l' m' stop.
Proof.
  intros [?|(Hn & w0 & l0 & ? & ? & ? & Hl)] Hsub; [by left|right].
  split; [done|]. exists w0, l0. split_and!; [done..|]. intros u Hu.
  destruct (Hl u Hu). auto.
Qed.

(** A skip to a later cursor over wall clocks that cannot match. *)
Lemma walk_inv_skip st w' :
  walk_inv st -> valid_wall w' -> minute_of (cursor st) < minute_of w' ->
  (forall k, minute_of (cursor st) <= k < minute_of w' -> matches s (wall_of k) = false) ->
  walk_inv (WalkState w' (found st) (stopAt st)).
Proof.
  intros (Hv & Hst & Hf & Hs) Hw' Hlt Hskip. unfold walk_inv; cbn [cursor found stopAt].
  split_and!; [done|lia|eapply found_upto_skip; [done|lia|done]|].
  destruct Hs as [?|Hs]; [by left|right]. by eapply stop_reason_mono.
Qed.

Definition window_instants (w : wall) : list Z :=
  base.filter (fun u => in_window after until u = true) (instantsFor loc w).

(** Recording a matching wall clock. *)
Lemma found_upto_step w l :
  valid_wall w -> start_minute <= minute_of w -> wY w <= lastYear -> matches s w = true ->
  found_upto (minute_of w) l -> found_upto (minute_of w + 1) (l ++ window_instants w).
Proof.
  intros Hv Hst Hy Hma [Hnd Hf].
  assert (Hw : forall u, u ∈ window_instants w <->
            in_window after until u = true /\ u ∈ instantsFor loc w /\ wall_in loc u = w).
  { intros u. unfold window_instants. rewrite list_elem_of_filter. split.
    - intros [? Hu]. split_and!; [done..|]. by apply instantsFor_elem in Hu as (? & _ & _ & ?).
    - intros (? & ? & ?). done. }
  split.
  - apply NoDup_app. split_and!; [done| |apply NoDup_filter, instantsFor_NoDup].
    intros u [_ Hu]%Hf (_ & _ & Hwu)%Hw. rewrite <- Hwu, wall_in_minute in Hu. lia.
  - intros u. rewrite elem_of_app, Hf, Hw. split.
    + intros [[? ?]|(Hin & Hu & Hwu)]; [split; [done|lia]|].
      rewrite <- (wall_in_minute loc u), Hwu. split; [|lia].
      unfold candidate. rewrite <- (wall_in_minute loc u), Hwu. done.
    + intros [Hc Hlt].
      destruct (Z.lt_ge_cases (local loc u / minute) (minute_of w)) as [?|Hge]; [auto|right].
      destruct Hc as (? & ? & Hu & _ & _).
      assert (wall_in loc u = w) as Hwu.
      { unfold wall_in. apply wall_of_unique; [done|lia]. }
      rewrite Hwu in Hu. done.
Qed.

Lemma matches_intro w :
  mask_get (sMonth s) (wMo w) = true -> matchesDay s (wY w) (wMo w) (wD w) = true ->
  mask_get (sHour s) (wH w) = true -> mask_get (sMinute s) (wMi w) = true -> matches s w = true.
Proof. unfold matches. by intros -> -> -> ->. Qed.

Lemma walk_inv_record st :
  walk_inv st -> wY (cursor st) <= lastYear -> matches s (cursor st) = true ->
  let out := found st ++ window_instants (cursor st) in
  walk_inv (WalkState (nextMinute (cursor st)) out
    (if (0 <? n) && IsZero (stopAt st) && (n <=? Z.of_nat (length out))
     then naive (cursor st) + ambiguityMargin else stopAt st)).
Proof.
  intros (Hv & Hst & Hf & Hs) Hy Hma out. unfold walk_inv; cbn [cursor found stopAt].
  destruct (nextMinute_minute (cursor st) Hv) as [Hv' ->].
  pose proof (found_upto_step _ _ Hv Hst Hy Hma Hf) as Hf'.
  split_and!; [done|lia|done|].
  destruct ((0 <? n) && IsZero (stopAt st) && (n <=? Z.of_nat (length out))) eqn:E1; bool_prop.
  - right. right. split; [done|]. exists (cursor st), out. split_and!; [done|by destruct Hf'|done|].
    intros u Hu. split; [done|]. apply Hf' in Hu as [_ Hu]. lia.
  - destruct Hs as [?|Hs]; [by left|right].
    eapply stop_reason_mono; [done|]. intros u Hu. apply elem_of_app. by left.
Qed.

(** Each turn keeps the invariant and moves the cursor forward. *)
Lemma walk_step_inl st st' :
  walk_inv st -> walk_step s loc after until n lastYear st = inl st' ->
  walk_inv st' /\ walk_measure lastYear st' < walk_measure lastYear st.
Proof.
  intros Hi. pose proof Hi as (Hv & _). unfold walk_step.
  destruct (Z.leb_spec (wY (cursor st)) lastYear) as [Hy|]; cbn [negb]; [|done].
  assert (Hmeas : forall st2, minute_of (cursor st) < minute_of (cursor st2) ->
            walk_measure lastYear st2 < walk_measure lastYear st).
  { intros st2 Hlt. unfold walk_measure.
    assert (minute_of (cursor st) < minute_of (Wall (lastYear + 1) 1 1 0 0)); [|lia].
    destruct (cursor st) as [y m d h mi]. destruct Hv as (Hm & Hd & Hh & Hmi).
    unfold minute_of, days_of_civil; cbn [wY wMo wD wH wMi] in *.
    pose proof (days_before_year_mono (y + 1) (lastYear - y)) as Hmono.
    replace (y + 1 + (lastYear - y)) with (lastYear + 1) in Hmono by lia.
    rewrite days_before_year_succ in Hmono.
    pose proof (days_before_month_le y m Hm). pose proof (days_before_month_succ y m Hm).
    cbn [days_before_month]. lia. }
  destruct (nextMonth_minute _ Hv) as [Hv1 Hm1]. destruct (nextDay_minute _ Hv) as [Hv2 Hm2].
  destruct (nextHour_minute _ Hv) as [Hv3 Hm3]. destruct (nextMinute_minute _ Hv) as [Hv4 Hm4].
  pose proof Hv as (? & Hd & ? & ?).
  destruct (mask_get (sMonth s) (wMo (cursor st))) eqn:E1; cbn [negb].
  2:{ assert (minute_of (cursor st) < minute_of (nextMonth (cursor st))).
      { rewrite Hm1. unfold minute_of, month_start, days_of_civil. lia. }
      intros [= <-]. split; [|by apply Hmeas]. apply walk_inv_skip; [done..|].
      intros k Hk. destruct (nextMonth_skips _ _ Hv Hk) as [_ HM].
      unfold matches. by rewrite HM, E1. }
  destruct (matchesDay s _ _ _) eqn:E2; cbn [negb].
  2:{ intros [= <-]. split; [|apply Hmeas; cbn [cursor]; lia]. apply walk_inv_skip; [done|done|lia|].
      intros k Hk. destruct (nextDay_skips _ _ Hv Hk) as (HY & HM & HD).
      unfold matches. rewrite HY, HM, HD, E1, E2. done. }
  destruct (mask_get (sHour s) _) eqn:E3; cbn [negb].
  2:{ intros [= <-]. split; [|apply Hmeas; cbn [cursor]; lia]. apply walk_inv_skip; [done|done|lia|].
      intros k Hk. destruct (nextHour_skips _ _ Hv Hk) as (HY & HM & HD & HH).
      unfold matches. rewrite HH, E3, andb_false_r. done. }
  destruct (mask_get (sMinute s) _) eqn:E4; cbn [negb].
  2:{ intros [= <-]. split; [|apply Hmeas; cbn [cursor]; lia]. apply walk_inv_skip; [done|done|lia|].
      intros k Hk. assert (k = minute_of (cursor st)) as -> by lia.
      rewrite wall_of_minute_of by done. unfold matches. rewrite E4, andb_false_r. done. }
  destruct (negb (IsZero (stopAt st)) && _); [done|].
  intros [= <-]. split; [|apply Hmeas; cbn [cursor]; lia].
  apply walk_inv_record; [done|done|by apply matches_intro].
Qed.

(** What the loop exits with: every candidate, or every one up to a stop. *)
Definition walk_exit (out : list Z) : Prop :=
  exists m, found_upto m out /\
    ((forall u, candidate u -> local loc u / minute < m) \/
     exists stop, stop_reason out m stop /\ stop < m * minute).

Lemma walk_step_inr st out :
  walk_inv st -> walk_step s loc after until n lastYear st = inr out -> walk_exit out.
Proof.
  intros (Hv & Hst & Hf & Hs) H. exists (minute_of (cursor st)). revert H. unfold walk_step.
  destruct (Z.leb_spec (wY (cursor st)) lastYear) as [Hy|Hy]; cbn [negb].
  - repeat (match goal with |- context [if ?b then _ else _] => destruct b eqn:? end; [try done|]); [|done].
    intros [= <-]. split; [done|right]. bool_prop.
    match goal with H : IsZero _ = false |- _ => unfold IsZero in H; bool_prop end.
    exists (stopAt st). destruct Hs as [?|Hs]; [done|]. split; [done|]. unfold naive in *. lia.
  - intros [= <-]. split; [done|left]. intros u (_ & _ & _ & _ & Hu).
    rewrite <- wall_in_minute. pose proof (wall_in_valid loc u) as Hvu.
    destruct (wall_in loc u) as [y m d h mi], (cursor st) as [y' m' d' h' mi'].
    destruct Hv as (Hm & Hd & Hh & Hmi), Hvu as (Hm' & Hd' & Hh' & Hmi').
    unfold minute_of, days_of_civil; cbn [wY wMo wD wH wMi] in *.
    pose proof (days_before_year_mono (y + 1) (y' - (y + 1))) as Hmono.
    replace (y + 1 + (y' - (y + 1))) with y' in Hmono by lia.
    rewrite days_before_year_succ in Hmono.
    pose proof (days_before_month_le y m Hm'). pose proof (days_before_month_succ y m Hm').
    pose proof (days_before_month_nonneg y' m' Hm). lia.
Qed.

Lemma walk_start_inv : walk_inv (walk_start loc after until).
Proof.
  unfold walk_inv, walk_start; cbn [cursor found stopAt].
  split_and!; [apply wall_in_valid|by rewrite wall_in_minute| |].
  - split; [constructor|]. intros u. rewrite elem_of_nil. split; [done|].
    intros [(_ & _ & _ & Hu & _) Hlt]. rewrite wall_in_minute in Hlt. unfold start_minute in Hu. lia.
  - destruct (IsZero until) eqn:E1; [by left|right; by left].
Qed.

Lemma walk_loop_exit :
  let st := walk_start loc after until in
  exists out, loop (walk_step s loc after until n lastYear)
    (Z.to_nat (Z.log2_up (walk_measure lastYear st + 2))) st = inr out /\ walk_exit out.
Proof.
  intros st.
  apply (loop_total _ walk_inv walk_exit (walk_measure lastYear)).
  - apply walk_step_inl.
  - apply walk_step_inr.
  - intros ? _. unfold walk_measure. lia.
  - apply walk_start_inv.
  - assert (0 <= walk_measure lastYear st) by (unfold walk_measure; lia).
    pose proof (Z.log2_up_spec (walk_measure lastYear st + 2)) as Hl.
    rewrite Z2Nat.id by apply Z.log2_up_nonneg. lia.
Qed.
End invariant.

(** The walk terminates.  Whatever the schedule, the zone and the window, every run of
    the loop from its start reaches an exit in the fuel the definition gives it, because
    each iteration that goes on leaves fewer minutes before the search bound; the answer is
    what the loop exits with, cut to the number asked for. *)
Theorem walk_terminates (s : schedule) (loc : location) (after until n : Z) :
  let lastYear := last_year loc after in
  let step := walk_step s loc after until n lastYear in
  let st := walk_start loc after until in
  (forall st1 st2, rtc (fun a b => step a = inl b) st st1 -> step st1 = inl st2 ->
     0 <= walk_measure lastYear st2 < walk_measure lastYear st1) /\
  exists out, loop step (Z.to_nat (Z.log2_up (walk_measure lastYear st + 2))) st = inr out /\
    walk s loc after until n =
      let l := sortUnique out in if (0 <? n) && (n <? Z.of_nat (length l)) then take (Z.to_nat n) l else l.
Proof.
  cbv zeta. destruct (walk_loop_exit s loc after until n (last_year loc after)) as (out & Hl & _). split.
  - intros st1 st2 Hr Hs. assert (Hi : walk_inv s loc after until n (last_year loc after) st1).
    { remember (walk_start loc after until) as st eqn:Est. assert (H0 : walk_inv s loc after until n (last_year loc after) st)
        by (subst st; apply walk_start_inv). clear Est Hl.
      induction Hr as [st|st st' st1 H _ IH]; [done|]. apply IH; [done|]. by eapply walk_step_inl. }
    destruct (walk_step_inl _ _ _ _ _ _ st1 st2 Hi Hs) as [_ Hlt]. split; [unfold walk_measure; lia|done].
  - exists out. split; [done|]. unfold walk. by rewrite Hl.
Qed.
