(* ===== verification/CronMain.v ===== *)
(** * CronMain: Due, Upcoming and Next against the declarative specification. *)
From stdpp Require Import base strings list sorting.
From Stdlib Require Import Lia.
From S2P Require Import Prelude GoStrings GoTime Cron CronSpec CronWalk.

(** ** What the engine relies on of a zone *)

(** From Unix second [since] on: offsets are whole minutes within a day, a window
    of three days holds at most one transition (so the offset inside it is the
    offset at one of its ends), and no later offset is more than the ambiguity
    margin below an earlier one. *)
Class ZoneOK (loc : location) (since : Z) : Prop := {
  zone_bound t : since <= t -> -86400 <= loc t <= 86400;
  zone_single a t b : since <= a -> a <= t <= b -> b - a <= 259200 -> loc t = loc a \/ loc t = loc b;
  zone_drop a b : since <= a -> a <= b -> loc a - loc b <= 10800;
  zone_minutes t : since <= t -> loc t mod 60 = 0 }.

(** The specification: the wall clock satisfies the fields, on the minute. *)
Definition occurs (s : schedule) (loc : location) (u : Z) : Prop :=
  matches s (wall_in loc u) = true /\ local loc u mod minute = 0.

Lemma naive_eq w : naive w = minute_of w * minute.
Proof. reflexivity. Qed.

Lemma margin_eq : ambiguityMargin = 180 * minute.
Proof. reflexivity. Qed.

Lemma minute_pos : 0 < minute.
Proof. reflexivity. Qed.

(** Comparing two wall clocks a margin of 180 minutes apart. *)
Lemma minutes_before lu lt a b m :
  a * minute = lu -> lu <= lt + 180 * minute -> lt < b * minute + minute ->
  b * minute + 180 * minute < m * minute -> a < m.
Proof.
  assert (H : 0 < minute) by (unfold minute, second; lia). revert H. generalize minute.
  intros k Hk H1 H2 H3 H4.
  assert (a < b + 181) by (apply (Z.mul_lt_mono_pos_r k); lia).
  assert (b + 180 < m) by (apply (Z.mul_lt_mono_pos_r k); lia). lia.
Qed.

Section zone.
Context (loc : location) (since : Z) `{!ZoneOK loc since}.

(** Four days of margin before the first instant of interest. *)
Definition recent (u : Z) : Prop := since + 345600 <= u / second.

Ltac unfold_time := unfold noon, naive, hour, minute, second in *; cbn [wY wMo wD wH wMi] in *.

Lemma noon_near w : valid_wall w -> -43200 * second <= naive w - noon w < 43200 * second.
Proof.
  destruct w as [y m d h mi]. intros (_ & _ & Hh & Hmi).
  unfold_time. unfold minute_of; cbn [wY wMo wD wH wMi] in *. lia.
Qed.

Lemma noon_second w : noon w mod second = 0.
Proof.
  unfold noon, naive, minute. rewrite Z.mul_assoc. apply Z.mod_mul. unfold second; lia.
Qed.

Lemma div_second_shift t k : (t + k * second) / second = t / second + k.
Proof. apply Z.div_add. unfold second; lia. Qed.

Lemma naive_local u : local loc u mod minute = 0 -> naive (wall_in loc u) = local loc u.
Proof.
  intros H. unfold naive. rewrite wall_in_minute.
  pose proof (Z.div_mod (local loc u) minute) as Hd. unfold minute, second in *. lia.
Qed.

Lemma naive_floor u : naive (wall_in loc u) <= local loc u < naive (wall_in loc u) + minute.
Proof.
  unfold naive. rewrite wall_in_minute.
  pose proof (Z.div_mod (local loc u) minute). pose proof (Z.mod_pos_bound (local loc u) minute).
  unfold minute, second in *. lia.
Qed.

(** The probes around a recent instant's wall clock are themselves recent. *)
Lemma probes_recent u : recent u ->
  since <= (noon (wall_in loc u) - 36 * hour) / second.
Proof.
  intros Hu. unfold recent in Hu.
  pose proof (zone_bound (u / second)) as Hb. pose proof (naive_floor u) as Hf.
  pose proof (noon_near _ (wall_in_valid loc u)) as Hn.
  replace (noon (wall_in loc u) - 36 * hour) with (noon (wall_in loc u) + (-129600) * second)
    by (unfold hour, minute; lia).
  rewrite div_second_shift. unfold local in Hf.
  assert (u / second - 86400 - 43200 - 60 <= noon (wall_in loc u) / second); [|lia].
  apply Z.div_le_lower_bound; [unfold second; lia|].
  pose proof (Z.mul_div_le u second). unfold minute in *.
  assert (0 < second) by (unfold second; lia). nia.
Qed.

Lemma probe_offset_zone u off :
  recent u -> off ∈ probe_offsets loc (wall_in loc u) -> off mod 60 = 0.
Proof.
  intros Hu Hoff. pose proof (probes_recent u Hu) as Hp.
  assert (Hle : forall k, 0 <= k -> since <= (noon (wall_in loc u) - 36 * hour + k) / second).
  { intros k Hk. etrans; [exact Hp|]. apply Z.div_le_mono; unfold second; lia. }
  apply probe_offsets_elem in Hoff as [->|[->| ->]]; unfold Zone; apply zone_minutes; [done| |].
  - replace (noon (wall_in loc u)) with (noon (wall_in loc u) - 36 * hour + 36 * hour) by lia.
    apply Hle. unfold hour, minute, second; lia.
  - replace (noon (wall_in loc u) + 36 * hour) with (noon (wall_in loc u) - 36 * hour + 72 * hour) by lia.
    apply Hle. unfold hour, minute, second; lia.
Qed.

Lemma Zone_shift t :
  Zone loc (t - 36 * hour) = loc (t / second - 129600) /\
  Zone loc (t + 36 * hour) = loc (t / second + 129600).
Proof.
  unfold Zone.
  replace (t - 36 * hour) with (t + (-129600) * second) by (unfold hour, minute; lia).
  replace (t + 36 * hour) with (t + 129600 * second) by (unfold hour, minute; lia).
  by rewrite !div_second_shift.
Qed.

Lemma probes_since u : recent u -> since <= noon (wall_in loc u) / second - 129600.
Proof.
  intros Hu. pose proof (probes_recent u Hu) as Hp.
  replace (noon (wall_in loc u) - 36 * hour) with (noon (wall_in loc u) + (-129600) * second) in Hp
    by (unfold hour, minute; lia).
  rewrite div_second_shift in Hp. lia.
Qed.

(** The instant lies in the window the probes span. *)
Lemma probe_window u : recent u -> local loc u mod minute = 0 ->
  noon (wall_in loc u) / second - 129600 <= u / second <= noon (wall_in loc u) / second + 129600.
Proof.
  intros Hu Hm. pose proof (naive_local u Hm) as Hn. unfold local in Hn. unfold recent in Hu.
  pose proof (noon_near _ (wall_in_valid loc u)) as Hnear.
  pose proof (Z.div_mod (noon (wall_in loc u)) second) as Hpd.
  rewrite (noon_second (wall_in loc u)) in Hpd.
  pose proof (zone_bound (u / second)) as Hb. rewrite Hn in Hnear.
  assert (Hpos : 0 < second) by (unfold second; lia).
  generalize dependent (noon (wall_in loc u)). intros p Hnear Hpd.
  split; [apply Z.div_le_lower_bound|apply Z.div_le_upper_bound]; [done| |done|]; nia.
Qed.

Lemma single_at u p : since <= p - 129600 -> p - 129600 <= u / second <= p + 129600 ->
  loc (u / second) = loc (p - 129600) \/ loc (u / second) = loc (p + 129600).
Proof. intros. apply zone_single; lia. Qed.

Lemma on_minute u w off l :
  u = naive w - off * second -> off mod 60 = 0 -> l mod 60 = 0 -> (u + l * second) mod minute = 0.
Proof.
  unfold naive, minute. generalize (minute_of w), second. intros k sec -> H1 H2.
  apply Z.mod_divide in H1 as [a ->]; [|done]. apply Z.mod_divide in H2 as [b ->]; [|done].
  replace (k * (60 * sec) - a * 60 * sec + b * 60 * sec) with ((k - a + b) * (60 * sec)) by lia.
  apply Z_mod_mult.
Qed.

Lemma instants_of_wall u : recent u ->
  (u ∈ instantsFor loc (wall_in loc u) <-> local loc u mod minute = 0).
Proof.
  intros Hu. rewrite instantsFor_elem. split.
  - intros (off & Hoff & Heq & _). pose proof (probe_offset_zone u off Hu Hoff) as H1.
    assert (H2 : loc (u / second) mod 60 = 0) by (apply zone_minutes; unfold recent in Hu; lia).
    exact (on_minute _ _ _ _ Heq H1 H2).
  - intros Hm. exists (loc (u / second)). pose proof (naive_local u Hm) as Hn. unfold local in Hn.
    split_and!; [|lia|done]. apply probe_offsets_elem.
    destruct (Zone_shift (noon (wall_in loc u))) as [-> ->].
    destruct (probe_window u Hu Hm). destruct (single_at u (noon (wall_in loc u) / second)) as [Hz|Hz];
      [by apply probes_since|lia|by left|right; by right].
Qed.

(** The instants found for a wall clock are exactly the recent instants that
    render as it, on the minute: none when a spring-forward skips it, both when a
    fall-back repeats it. *)
Theorem instantsFor_exact w u : recent u ->
  (u ∈ instantsFor loc w <-> wall_in loc u = w /\ local loc u mod minute = 0).
Proof.
  intros Hu. split.
  - intros H. pose proof H as (_ & _ & _ & Hw)%instantsFor_elem.
    split; [done|]. apply (instants_of_wall u Hu). by rewrite Hw.
  - intros [<- Hm]. by apply instants_of_wall.
Qed.

(** Wall clocks lag an earlier instant's by the margin at most. *)
Lemma local_drop a b : since <= a / second -> a <= b -> local loc a <= local loc b + ambiguityMargin - (b - a).
Proof.
  intros Ha Hab. unfold local, ambiguityMargin, hour, minute.
  assert (a / second <= b / second) by (apply Z.div_le_mono; unfold second; lia).
  pose proof (zone_drop (a / second) (b / second) Ha ltac:(done)). unfold second in *. lia.
Qed.

(** An instant no later than [v] has a wall clock before any stop set a margin
    past [v]'s. *)
Lemma before_stop u v w0 m :
  since <= u / second -> u <= v -> local loc u mod minute = 0 ->
  local loc v / minute <= minute_of w0 -> naive w0 + ambiguityMargin < m * minute ->
  local loc u / minute < m.
Proof.
  intros Hu Huv Hm Hv Hst.
  pose proof (local_drop u v Hu Huv) as Hd. pose proof (naive_local u Hm) as Hn.
  pose proof (naive_floor v) as Hfl. rewrite <- wall_in_minute in Hv |- *.
  rewrite margin_eq in Hd, Hst. rewrite naive_eq in Hn, Hst. rewrite !naive_eq in Hfl.
  pose proof minute_pos as Hpos.
  revert Hd Hn Hfl Hst Hv. generalize (minute_of (wall_in loc u)) (minute_of (wall_in loc v)) (minute_of w0).
  generalize (local loc u) (local loc v). intros lu lv a b c Hd Hn Hfl Hst Hv.
  apply (minutes_before lu lv _ c); [done|lia| |done].
  apply (Z.lt_le_trans _ _ _ (proj2 Hfl)), Z.add_le_mono_r, Z.mul_le_mono_nonneg_r; lia.
Qed.

Lemma recent_mono a b : recent a -> a <= b -> recent b.
Proof.
  unfold recent. intros H Hab. assert (a / second <= b / second); [|lia].
  apply Z.div_le_mono; unfold second; lia.
Qed.

Context (s : schedule) (after : Z) (Hafter : recent after).

(** After a recent instant, candidates are the occurrences in the window. *)
Lemma candidate_occurs until ly u :
  in_window after until u = true ->
  (candidate s loc after until ly u <-> occurs s loc u /\ wY (wall_in loc u) <= ly).
Proof.
  intros Hw. pose proof Hw as Hw'. unfold in_window in Hw'. bool_prop.
  assert (Hu : recent u) by (eapply recent_mono; [exact Hafter|lia]).
  unfold candidate, occurs. rewrite instants_of_wall by done. split; [tauto|].
  intros [[? ?] ?]. split_and!; [done..| |done].
  unfold start_minute. apply Z.div_le_mono; [unfold minute, second; lia|].
  pose proof (local_drop (after - ambiguityMargin) u) as Hd.
  assert (since <= (after - ambiguityMargin) / second).
  { replace (after - ambiguityMargin) with (after + (-10800) * second)
      by (unfold ambiguityMargin, hour, minute; lia).
    rewrite div_second_shift. unfold recent in Hafter. lia. }
  unfold ambiguityMargin, hour, minute, second in *. lia.
Qed.
End zone.

(** ** The entry points *)

Section main.
Context (LoadLocation : string -> option location).
Context (expr tz : string) (s : schedule) (loc : location) (since : Z).
Context (Hparse : parse expr = Ok s) (Hloc : loadLocation LoadLocation tz = Ok loc).
Context `{!ZoneOK loc since}.

(** The instants the engine promises after [after]: occurrences inside the
    search bound. *)
Definition scheduled (after u : Z) : Prop :=
  after < u /\ occurs s loc u /\ wY (wall_in loc u) <= last_year loc after.

Lemma walk_due from to : recent since from -> IsZero to = false ->
  let l := walk s loc from to (-1) in
  StronglySorted Z.lt l /\ forall u, u ∈ l <-> scheduled from u /\ u <= to.
Proof.
  intros Hr Hz. unfold walk. cbv zeta.
  destruct (walk_loop_exit s loc from to (-1) (last_year loc from))
    as (out & -> & m & [Hnd Hf] & Hx). cbn [andb Z.ltb Z.compare].
  destruct (sortUnique_spec out) as [Hs He]. split; [done|]. intros u. rewrite He, Hf.
  assert (Hwin : in_window from to u = true <-> from < u <= to).
  { unfold in_window. rewrite Hz. cbn [orb]. rewrite andb_true_iff, Z.ltb_lt, Z.leb_le. done. }
  unfold scheduled. split.
  - intros [Hc _]. pose proof Hc as (_ & Hw & _).
    apply (candidate_occurs loc since s from Hr) in Hc as [? ?]; [|done]. apply Hwin in Hw. split_and!; [lia|done|done|lia].
  - intros [(Hu1 & Ho & Hy) Hu2].
    assert (Hc : candidate s loc from to (last_year loc from) u).
    { apply (candidate_occurs loc since s from Hr); [apply Hwin; lia|done]. }
    split; [done|]. destruct Hx as [Hx|(stop & [[_ ->]|[? _]] & Hlt)]; [by apply Hx| |lia].
    destruct Ho as [_ Hm]. pose proof (recent_mono since from u Hr ltac:(lia)) as Hru.
    unfold recent in Hru.
    apply (before_stop loc since u to (wall_in loc to)); [lia|done|done|by rewrite wall_in_minute|done].
Qed.

Lemma Due_walk from to : from <= to ->
  Due LoadLocation expr tz from to = Ok (walk s loc from to (-1)).
Proof.
  intros H. unfold Due, compile. rewrite Hparse, Hloc.
  by destruct (Z.ltb_spec to from); [lia|].
Qed.

(** C34: [Due] returns, in strictly ascending order, exactly the occurrences in
    the half-open window (from, to] inside the search bound: none is missed and
    none is invented, across daylight-saving transitions. *)
Theorem Due_exact from to :
  recent since from -> from <= to -> to <> zero_time ->
  exists l, Due LoadLocation expr tz from to = Ok l /\ StronglySorted Z.lt l /\
    forall u, u ∈ l <-> scheduled from u /\ u <= to.
Proof.
  intros Hr Hle Hz. exists (walk s loc from to (-1)). split; [by apply Due_walk|].
  apply walk_due; [done|]. unfold IsZero. by apply Z.eqb_neq.
Qed.

Lemma walk_upcoming after n : recent since after -> 0 < n ->
  let l := walk s loc after zero_time n in
  StronglySorted Z.lt l /\ Z.of_nat (length l) <= n /\
  (forall u, u ∈ l -> scheduled after u) /\
  (forall u, scheduled after u -> u ∉ l -> Z.of_nat (length l) = n /\ forall v, v ∈ l -> v < u).
Proof.
  intros Hr Hn. unfold walk. cbv zeta.
  destruct (walk_loop_exit s loc after zero_time n (last_year loc after))
    as (out & -> & m & [Hnd Hf] & Hx).
  destruct (sortUnique_spec out) as [Hs He]. set (L := sortUnique out) in *.
  assert (Hwin : forall u, in_window after zero_time u = true <-> after < u).
  { intros u. unfold in_window. cbn [IsZero]. unfold IsZero. rewrite Z.eqb_refl. cbn [orb].
    rewrite andb_true_r. apply Z.ltb_lt. }
  assert (Hcand : forall u, candidate s loc after zero_time (last_year loc after) u <-> scheduled after u).
  { intros u. unfold scheduled. split.
    - intros Hc. pose proof Hc as (_ & Hw & _).
      apply (candidate_occurs loc since s after Hr) in Hc; [|done]. apply Hwin in Hw. done.
    - intros (Hu & Ho). apply (candidate_occurs loc since s after Hr); [by apply Hwin|done]. }
  assert (Hr' : exists r, r = take (Z.to_nat n) L /\
    (if (0 <? n) && (n <? Z.of_nat (length L)) then take (Z.to_nat n) L else L) = r).
  { eexists. split; [done|]. destruct ((0 <? n) && (n <? Z.of_nat (length L))) eqn:E1; [done|].
    apply andb_false_iff in E1 as [?|?]; bool_prop; [lia|]. rewrite take_ge; [done|lia]. }
  destruct Hr' as (r & Hreq & ->). subst r.
  assert (Hsched : forall u, u ∈ L -> scheduled after u).
  { intros u Hu%He. by apply Hcand, Hf. }
  split; [by apply StronglySorted_take|]. split; [rewrite length_take; lia|].
  split.
  { intros u Hu. apply Hsched. rewrite <- (take_drop (Z.to_nat n) L). apply elem_of_app. by left. }
  intros u Hu Hnin.
  destruct (decide (u ∈ L)) as [HuL|HuL].
  - rewrite <- (take_drop (Z.to_nat n) L) in HuL, Hs.
    apply elem_of_app in HuL as [?|HuL]; [done|]. split.
    + assert (length (drop (Z.to_nat n) L) <> 0)%nat.
      { intros Hz. apply nil_length_inv in Hz. rewrite Hz in HuL. by apply elem_of_nil in HuL. }
      rewrite length_drop in H. rewrite length_take. lia.
    + intros v Hv. by eapply StronglySorted_app_1_elem_of.
  - assert (Hout : ~ local loc u / minute < m).
    { intros Hlt. apply HuL, He, Hf. split; [by apply Hcand|done]. }
    destruct Hx as [Hx|(stop & [[? _]|(_ & w0 & l0 & -> & Hl0 & Hlen & Hsub)] & Hlt)];
      [by destruct Hout; apply Hx, Hcand|done|].
    assert (Hbelow : forall v, v ∈ l0 -> v ∈ L /\ v < u).
    { intros v Hv. destruct (Hsub v Hv) as [Hvo Hvw]. split; [by apply He|].
      destruct (Z.lt_ge_cases v u) as [?|Hge]; [done|exfalso].
      destruct Hu as (Hau & [_ Hm] & _).
      pose proof (recent_mono since after u Hr ltac:(lia)) as Hru.
      unfold recent in Hru. apply Hout.
      apply (before_stop loc since u v w0); [lia|lia|done..]. }
    assert (Z.to_nat n <= length l0)%nat by lia.
    assert (length l0 <= length L)%nat.
    { apply submseteq_length, NoDup_submseteq; [done|]. intros x Hx. by apply Hbelow. }
    split; [rewrite length_take; lia|].
    by apply (take_below L l0).
Qed.
Lemma Upcoming_walk after n : 0 < n ->
  Upcoming LoadLocation expr tz after n = Ok (walk s loc after zero_time n).
Proof.
  intros H. unfold Upcoming, compile. rewrite Hparse, Hloc.
  destruct (Z.ltb_spec n 0); [lia|]. by destruct (Z.eqb_spec n 0); [lia|].
Qed.

(** [Upcoming] returns the [n] earliest occurrences after an instant, in
    strictly ascending order: all it returns is scheduled, and anything scheduled
    that it leaves out comes after a full answer. *)
Theorem Upcoming_first after n :
  recent since after -> 0 < n ->
  exists l, Upcoming LoadLocation expr tz after n = Ok l /\
    StronglySorted Z.lt l /\ Z.of_nat (length l) <= n /\
    (forall u, u ∈ l -> scheduled after u) /\
    (forall u, scheduled after u -> u ∉ l -> Z.of_nat (length l) = n /\ forall v, v ∈ l -> v < u).
Proof.
  intros Hr Hn. exists (walk s loc after zero_time n).
  split; [by apply Upcoming_walk|by apply walk_upcoming].
Qed.

(** The list a user reads and the instants the scheduler fires cannot
    disagree: [Due] over the window up to the last upcoming occurrence is the
    upcoming list itself. *)
Theorem Upcoming_Due_agree after n l t :
  recent since after -> zero_time <= after ->
  Upcoming LoadLocation expr tz after n = Ok l -> last l = Some t ->
  Due LoadLocation expr tz after t = Ok l.
Proof.
  intros Hr Hz HU Ht.
  assert (0 < n) as Hn.
  { revert HU. unfold Upcoming, compile. rewrite Hparse, Hloc.
    destruct (Z.ltb_spec n 0); [done|]. destruct (Z.eqb_spec n 0); [by intros [= <-]|lia]. }
  rewrite Upcoming_walk in HU by done. injection HU as Hl.
  destruct (walk_upcoming after n Hr Hn) as (Hs & _ & Hin & Hout). rewrite Hl in Hs, Hin, Hout.
  assert (Htl : t ∈ l) by (by apply last_Some_elem_of).
  pose proof (Hin t Htl) as (Hat & _).
  rewrite Due_walk by lia. f_equal.
  destruct (walk_due after t Hr) as [Hs' Hin']; [apply Z.eqb_neq; lia|].
  apply (strictly_sorted_ext Z.lt); [done..|]. intros u. rewrite Hin'. split.
  - intros [Hu Hle]. destruct (decide (u ∈ l)) as [?|Hnin]; [done|].
    destruct (Hout u Hu Hnin) as [_ Hlt]. specialize (Hlt t Htl). lia.
  - intros Hu. split; [by apply Hin|].
    apply last_Some in Ht as [l' ->]. apply elem_of_app in Hu as [Hu| ->%list_elem_of_singleton]; [|lia].
    pose proof (StronglySorted_app_1_elem_of _ _ _ u t Hs Hu (list_elem_of_here _ _)). lia.
Qed.

(** [Next] is the earliest occurrence, and it reports none exactly when the
    schedule has none inside the search bound. *)
Theorem Next_earliest after :
  recent since after ->
  match Next LoadLocation expr tz after with
  | Ok (Some u) => scheduled after u /\ forall v, scheduled after v -> u <= v
  | Ok None => forall v, ~ scheduled after v
  | Err _ => False
  end.
Proof.
  intros Hr. unfold Next. rewrite Upcoming_walk by lia.
  destruct (walk_upcoming after 1 Hr ltac:(lia)) as (Hs & Hlen & Hin & Hout).
  destruct (walk s loc after zero_time 1) as [|u l]; simpl.
  - intros v Hv. destruct (Hout v Hv) as [? _]; [apply not_elem_of_nil|done].
  - split; [apply Hin, list_elem_of_here|]. intros v Hv.
    destruct (decide (v ∈ u :: l)) as [Hvl|Hvl].
    + apply elem_of_cons in Hvl as [->|Hvl]; [lia|]. apply StronglySorted_inv in Hs as [_ Hs].
      rewrite Forall_forall in Hs. specialize (Hs _ Hvl). lia.
    + destruct (Hout v Hv Hvl) as [_ Hlt]. specialize (Hlt u (list_elem_of_here _ _)). lia.
Qed.
End main.

(** Every refusal of [Due] names what is wrong: the expression error for a
    reversed window or a bad expression, the timezone error, only once the
    expression is accepted, for an empty, host-local or unknown zone. *)
Theorem Due_refusals LoadLocation expr tz from to e :
  Due LoadLocation expr tz from to = Err e ->
  (e = ErrExpression /\ (to < from \/ is_ok (parse expr) = false)) \/
  (e = ErrTimezone /\ from <= to /\ is_ok (parse expr) = true /\
   (tz = "" \/ tz = "Local" \/ LoadLocation tz = None)).
Proof.
  unfold Due, compile, loadLocation. destruct (Z.ltb_spec to from); [intros [= <-]; auto|].
  destruct (parse expr) as [s|e'] eqn:E1.
  - destruct (String.eqb_spec tz ""); [intros [= <-]; right; split_and!; auto|].
    destruct (String.eqb_spec tz "Local"); [intros [= <-]; right; split_and!; auto|].
    destruct (LoadLocation tz); [discriminate|]. intros [= <-]; right; split_and!; auto.
  - destruct (parse_cases expr) as [Hp|(? & ? & ? & ? & ? & ? & _ & Hp & _)]; [|congruence].
    rewrite E1 in Hp. injection Hp as ->. intros [= <-]. auto.
Qed.

(** ** Witnesses: New York, 2026 *)

(** Eastern time from 2026 on, with the two transitions of that year. *)
Definition eastern : location := fun t =>
  if t <? 1772953200 then -18000 else if t <? 1793512800 then -14400 else -18000.

Definition eastern_db (name : string) : option location :=
  if String.eqb name "America/New_York" then Some eastern else None.

Lemma eastern_ok : ZoneOK eastern 1767225600.
Proof.
  split; unfold eastern; intros;
    repeat match goal with |- context [?a <? ?b] => destruct (Z.ltb_spec a b) end;
    first [lia|reflexivity|auto].
Qed.

(** 01:30 on the first of November, which 2026 repeats. *)
Definition fall_back : string := "30 1 1 11 *".
Definition fall_back_schedule : schedule :=
  match parse fall_back with
  | Ok s => s
  | Err _ => Schedule [] [] [] [] [] false false
  end.

(** 2026-03-01T00:00:00Z and 2026-12-31T00:00:00Z. *)
Definition march : Z := 1772323200 * second.
Definition december : Z := 1798675200 * second.

Lemma instantsFor_exact_witness :
  instantsFor eastern (Wall 2026 11 1 1 30) = [1793511000 * second; 1793514600 * second] /\
  instantsFor eastern (Wall 2026 3 8 2 30) = [] /\
  (1793514600 * second ∈ instantsFor eastern (Wall 2026 11 1 1 30)).
Proof.
  split; [vm_compute; reflexivity|]. split; [vm_compute; reflexivity|].
  apply (instantsFor_exact eastern 1767225600 (ZoneOK0 := eastern_ok)); [vm_compute; discriminate|].
  split; vm_compute; reflexivity.
Defined.

Lemma Due_exact_witness :
  Due eastern_db fall_back "America/New_York" march december
    = Ok [1793511000 * second; 1793514600 * second] /\
  exists l, Due eastern_db fall_back "America/New_York" march december = Ok l /\
    StronglySorted Z.lt l /\
    forall u, u ∈ l <-> scheduled fall_back_schedule eastern march u /\ u <= december.
Proof.
  split; [vm_compute; reflexivity|].
  apply (Due_exact eastern_db fall_back "America/New_York" fall_back_schedule eastern 1767225600);
    [vm_compute; reflexivity|reflexivity|apply eastern_ok|vm_compute; discriminate..].
Defined.

Lemma Upcoming_first_witness :
  exists l, Upcoming eastern_db fall_back "America/New_York" march 3 = Ok l /\
    StronglySorted Z.lt l /\ Z.of_nat (length l) <= 3 /\
    (forall u, u ∈ l -> scheduled fall_back_schedule eastern march u) /\
    (forall u, scheduled fall_back_schedule eastern march u -> u ∉ l ->
       Z.of_nat (length l) = 3 /\ forall v, v ∈ l -> v < u).
Proof.
  apply (Upcoming_first eastern_db fall_back "America/New_York" fall_back_schedule eastern 1767225600);
    [vm_compute; reflexivity|reflexivity|apply eastern_ok|vm_compute; discriminate|lia].
Defined.

Lemma Upcoming_Due_agree_witness :
  Due eastern_db fall_back "America/New_York" march (1793514600 * second)
    = Ok [1793511000 * second; 1793514600 * second].
Proof.
  apply (Upcoming_Due_agree eastern_db fall_back "America/New_York" fall_back_schedule eastern
           1767225600 ltac:(vm_compute; reflexivity) ltac:(reflexivity)
           (ZoneOK0 := eastern_ok) march 2);
    [vm_compute; discriminate|vm_compute; discriminate|vm_compute; reflexivity|reflexivity].
Defined.

Lemma Next_earliest_witness :
  match Next eastern_db fall_back "America/New_York" march with
  | Ok (Some u) => scheduled fall_back_schedule eastern march u /\
      forall v, scheduled fall_back_schedule eastern march v -> u <= v
  | Ok None => forall v, ~ scheduled fall_back_schedule eastern march v
  | Err _ => False
  end.
Proof.
  apply (Next_earliest eastern_db fall_back "America/New_York" fall_back_schedule eastern 1767225600);
    [vm_compute; reflexivity|reflexivity|apply eastern_ok|vm_compute; discriminate].
Defined.

Lemma Due_refusals_witness :
  Due eastern_db fall_back "Local" march december = Err ErrTimezone /\
  ((ErrTimezone = ErrExpression /\ (december < march \/ is_ok (parse fall_back) = false)) \/
   (ErrTimezone = ErrTimezone /\ march <= december /\ is_ok (parse fall_back) = true /\
    ("Local" = "" \/ "Local" = "Local" \/ eastern_db "Local" = None))).
Proof.
  split; [vm_compute; reflexivity|]. apply Due_refusals. vm_compute; reflexivity.
Defined.
