(* ===== verification/Memsync.v ===== *)
(** * Memsync: the text rules of internal/memsync (memsync.go and tree.go).

    Path and content validation, the mount slug, the marker file, the shell
    commands the sync runs in a sandbox and the parser of their listing.  Unicode
    normalization is the one thing decided outside the repository
    (golang.org/x/text): [IsNormalString] is a parameter. *)
From stdpp Require Import base gmap strings list.
From Stdlib Require Import Ascii Lia.
From Stdlib Require String.
From S2P Require Import Prelude GoStrings.

Definition MaxPathBytes : Z := 1024.
Definition MaxContentBytes : Z := 102400.
Definition MaxMemoriesPerStore : Z := 2000.

Definition MarkerName : string := ".anthropic-memory-store".

Definition newline : string := String (ascii_of_nat 10) EmptyString.
Definition slash : ascii := "/".

(** [MarkerBytes] *)
Definition MarkerBytes (storeID : string) : string := "version 1" +:+ newline +:+ storeID.

Definition IsMarkerPath (path : string) : bool := String.eqb (TrimLeft path slash) MarkerName.

Definition ShadowsMarker (path : string) : bool :=
  IsMarkerPath path || HasPrefix (TrimLeft path slash) (MarkerName +:+ "/").

(** ** Paths and contents *)

(** Each refusal of [ValidatePath], in the order the code tries them. *)
Inductive path_error :=
| PathRequired | PathNotRooted | PathTooLong | PathNoSegment | PathEmptySegment
| PathDotSegment | PathNotUTF8 | PathControl | PathSeparator | PathNotNFC.

(** [for _, segment := range strings.Split(path[1:], "/") { switch segment ... }] *)
Fixpoint check_segments (segs : list string) : option path_error :=
  match segs with
  | [] => None
  | s :: segs' =>
      if String.eqb s "" then Some PathEmptySegment
      else if String.eqb s "." || String.eqb s ".." then Some PathDotSegment
      else check_segments segs'
  end.

(** [for _, r := range path { ... }] *)
Fixpoint check_runes (rs : list (Z * string)) : option path_error :=
  match rs with
  | [] => None
  | rb :: rs' =>
      if unicode_Cc rb.1 || unicode_Cf rb.1 then Some PathControl
      else if (rb.1 =? 8232) || (rb.1 =? 8233) then Some PathSeparator
      else check_runes rs'
  end.

Section validate.
Context (IsNormalString : string -> bool).

(** [ValidatePath]: [None] is acceptance. *)
Definition ValidatePath (path : string) : option path_error :=
  if String.eqb path "" then Some PathRequired
  else if negb (HasPrefix path "/") then Some PathNotRooted
  else if MaxPathBytes <? slen path then Some PathTooLong
  else if String.eqb path "/" then Some PathNoSegment
  else match check_segments (Split (drop_bytes 1 path) slash) with
  | Some e => Some e
  | None =>
      if negb (ValidString path) then Some PathNotUTF8
      else match check_runes (runes path) with
      | Some e => Some e
      | None => if negb (IsNormalString path) then Some PathNotNFC else None
      end
  end.
End validate.

Inductive content_error := ContentTooLong | ContentNotUTF8 | ContentNUL.

Definition is_nul (a : ascii) : bool := ord a =? 0.

Definition ValidateContent (content : string) : option content_error :=
  if MaxContentBytes <? slen content then Some ContentTooLong
  else if negb (ValidString content) then Some ContentNotUTF8
  else if negb (all_bytes (fun a => negb (is_nul a)) content) then Some ContentNUL
  else None.

(** ** The mount slug *)

Definition is_slug_rune (r : Z) : bool := in_range 97 122 r || in_range 48 57 r.

(** [unicode.ToLower] as far as [Slug] can tell: the ASCII capitals, and the two
    other runes whose lower case is ASCII (U+0130 and the Kelvin sign).  Every
    other rune maps to one that is not ASCII, which the switch treats alike. *)
Definition lower_rune (r : Z) : Z :=
  if in_range 65 90 r then r + 32 else if r =? 304 then 105 else if r =? 8490 then 107 else r.

Definition byte_of_rune (r : Z) : string := String (ascii_of_N (Z.to_N r)) EmptyString.

Fixpoint slug_go (b : string) (rs : list (Z * string)) : string :=
  match rs with
  | [] => b
  | rb :: rs' =>
      let r := lower_rune rb.1 in
      if is_slug_rune r then slug_go (b +:+ byte_of_rune r) rs'
      else if negb (String.eqb b "") && negb (HasSuffix b "-") then slug_go (b +:+ "-") rs'
      else slug_go b rs'
  end.

Definition Slug (name fallback : string) : string :=
  let slug := TrimSuffix (slug_go "" (runes name)) "-" in
  if negb (String.eqb slug "") then slug else fallback.

(** ** Shell commands *)

Definition quote : ascii := "'".

Definition shellQuote (s : string) : string :=
  "'" +:+ ReplaceByte s quote "'\''" +:+ "'".

Definition dquote : string := String (ascii_of_nat 34) EmptyString.

(** Decimal rendering of the two statuses the preludes use. *)
Definition mountPrelude (mount : string) (status : string) : string :=
  let m := shellQuote mount in
  "[ -d " +:+ m +:+ " ] || exit 0; cd -P " +:+ m +:+ " && [ " +:+ dquote +:+ "$PWD" +:+ dquote +:+ " = "
  +:+ m +:+ " ] || exit " +:+ status +:+ "; ".

Definition HashTreeCommand (mount : string) : string :=
  mountPrelude mount "3" +:+ "set -o pipefail; find . -type f ! -path " +:+ shellQuote ("./" +:+ MarkerName)
  +:+ " -print0 | LC_ALL=C sort -z | xargs -0r sha256sum -z".

(** *** path.Dir *)

(** [path.Clean] by segments: empty and "." segments go, ".." removes the segment
    before it, and is kept only where there is none in a relative path. *)
Fixpoint clean_segs (rooted : bool) (acc segs : list string) : list string :=
  match segs with
  | [] => rev acc
  | s :: segs' =>
      if String.eqb s "" || String.eqb s "." then clean_segs rooted acc segs'
      else if String.eqb s ".." then
        match acc with
        | [] => clean_segs rooted (if rooted then [] else [".."]) segs'
        | a :: acc' =>
            if String.eqb a ".." then clean_segs rooted (".." :: acc) segs'
            else clean_segs rooted acc' segs'
        end
      else clean_segs rooted (s :: acc) segs'
  end.

Definition path_Clean (p : string) : string :=
  let rooted := HasPrefix p "/" in
  let body := Join (clean_segs rooted [] (Split p slash)) "/" in
  if rooted then "/" +:+ body else if String.eqb body "" then "." else body.

(** [path.Dir]: everything up to the last slash, cleaned. *)
Definition path_Dir (p : string) : string :=
  match rev (Split p slash) with
  | [] | [_] => "."
  | _ :: dirs => path_Clean (Join (rev dirs) "/" +:+ "/")
  end.

Definition removeCommandBytes : Z := 32768.

(** The batch under construction: quoted files, quoted directories and the size
    of both as emitted. *)
Record rm_batch := RmBatch { rb_files : list string; rb_dirs : list string; rb_size : Z }.

Definition empty_batch : rm_batch := RmBatch [] [] 0.

Definition render_batch (mount : string) (b : rm_batch) : string :=
  mountPrelude mount "1" +:+ "rm -f -- " +:+ Join (rb_files b) " " +:+ " || exit 1" +:+
  match rb_dirs b with
  | [] => ""
  | ds => "; rmdir -p --ignore-fail-on-non-empty -- " +:+ Join ds " " +:+ " 2>/dev/null; exit 0"
  end.

(** [flush] *)
Definition flush (done : list rm_batch) (b : rm_batch) : list rm_batch :=
  match rb_files b with [] => done | _ => done ++ [b] end.

Definition rel_path (p : string) : string := TrimPrefix p "/".

Definition dir_token (p : string) : string :=
  let d := path_Dir (rel_path p) in if String.eqb d "." then "" else shellQuote d.

(** One turn of the loop over the paths. *)
Definition rm_step (st : list rm_batch * rm_batch) (p : string) : list rm_batch * rm_batch :=
  let '(done, b) := st in
  let file := shellQuote (rel_path p) in
  let dir := dir_token p in
  let '(done, b) :=
    if removeCommandBytes <? rb_size b + slen file + slen dir + 2
    then (flush done b, empty_batch) else (done, b) in
  let b := RmBatch (rb_files b ++ [file]) (rb_dirs b) (rb_size b + slen file + 1) in
  if negb (String.eqb dir "") && negb (bool_decide (last (rb_dirs b) = Some dir))
  then (done, RmBatch (rb_files b) (rb_dirs b ++ [dir]) (rb_size b + slen dir + 1))
  else (done, b).

Definition rm_batches (paths : list string) : list rm_batch :=
  let '(done, b) := foldl rm_step ([], empty_batch) paths in flush done b.

Definition RemoveCommands (mount : string) (paths : list string) : list string :=
  map (render_batch mount) (rm_batches paths).

(** ** The listing *)

Definition is_hex (a : ascii) : bool := in_range 48 57 (ord a) || in_range 97 102 (ord a).

Definition IsDigest (b : string) : bool := (slen b =? 64) && all_bytes is_hex b.

Inductive tree_error := EndsMidRecord | MalformedRecord | ListedTwice.

(** [rec[64] ... rec[67]] are a space, a space or an asterisk, a dot, a slash. *)
Definition record_head_ok (tail : string) : bool :=
  match tail with
  | String a (String b (String c (String d _))) =>
      Ascii.eqb a " " && (Ascii.eqb b " " || Ascii.eqb b "*") && Ascii.eqb c "." && Ascii.eqb d "/"
  | _ => false
  end.

(** One NUL-terminated record: the path it names and its digest. *)
Definition parse_record (rec : string) : result tree_error (string * string) :=
  if (slen rec <? 64 + 2 + 2) || negb (IsDigest (take_bytes 64 rec))
     || negb (record_head_ok (drop_bytes 64 rec)) || (slen rec =? 68)
  then Err MalformedRecord
  else Ok (drop_bytes 67 rec, take_bytes 64 rec).

Definition nul : ascii := ascii_of_nat 0.

Fixpoint parse_tree (fuel : nat) (stdout : string) (files : gmap string string)
    : result tree_error (gmap string string) :=
  match fuel with
  | O => Ok files
  | S fuel' =>
      if String.eqb stdout "" then Ok files
      else
        let '(rec, rest, found) := Cut stdout nul in
        if negb found then Err EndsMidRecord
        else
          try '(path, digest) <- parse_record rec;
          match files !! path with
          | Some _ => Err ListedTwice
          | None => parse_tree fuel' rest (<[path := digest]> files)
          end
  end.

(** Every record consumes its NUL, so the length bounds the turns. *)
Definition ParseHashTree (stdout : string) : result tree_error (gmap string string) :=
  parse_tree (S (String.length stdout)) stdout ∅.
