(* ===== verification/MemsyncSpec.v ===== *)
(** * MemsyncSpec: what the memory text rules promise.

    Quoting survives a shell, removal commands cover every path within their
    budget, the tree listing round-trips and a cut-off one is refused, an accepted
    path is lexically clean, and a slug is a safe directory name. *)
From stdpp Require Import base gmap strings list.
From Stdlib Require Import Ascii Lia.
From Stdlib Require String.
From S2P Require Import Prelude GoStrings Memsync.

(** ** A shell reader *)

(** The quoting rules of the POSIX shell for one word: a blank ends an unquoted
    word, a single quote starts a literal run up to the next single quote, and a
    backslash outside quotes makes the next byte literal. *)
Fixpoint sh_word (inq : bool) (s : string) : option (string * string) :=
  match s with
  | EmptyString => if inq then None else Some (EmptyString, EmptyString)
  | String c s' =>
      if inq then
        if Ascii.eqb c quote then sh_word false s'
        else match sh_word true s' with Some (w, r) => Some (String c w, r) | None => None end
      else if Ascii.eqb c " " then Some (EmptyString, s)
      else if Ascii.eqb c quote then sh_word true s'
      else if Ascii.eqb c "\" then
        match s' with
        | String d s2 => match sh_word false s2 with Some (w, r) => Some (String d w, r) | None => None end
        | EmptyString => None
        end
      else match sh_word false s' with Some (w, r) => Some (String c w, r) | None => None end
  end.

Fixpoint sh_words (fuel : nat) (s : string) : option (list string) :=
  match fuel with
  | O => None
  | S fuel' =>
      match sh_word false s with
      | None => None
      | Some (w, EmptyString) => Some [w]
      | Some (w, String _ rest) =>
          match sh_words fuel' rest with Some ws => Some (w :: ws) | None => None end
      end
  end.

(** What may follow a quoted word: nothing, or a blank. *)
Definition word_end (rest : string) : Prop :=
  rest = EmptyString \/ exists r, rest = String " " r.

Lemma sh_word_body s rest : word_end rest ->
  sh_word true (ReplaceByte s quote "'\''" +:+ String quote rest) = Some (s, rest).
Proof.
  intros Hr. induction s as [|c s IH].
  - cbn. destruct Hr as [->|[r ->]]; reflexivity.
  - cbn [ReplaceByte]. destruct (Ascii.eqb_spec c quote) as [->|Hne].
    + rewrite append_assoc. cbn. cbn in IH. by rewrite IH.
    + rewrite append_assoc. cbn [String.append sh_word].
      destruct (Ascii.eqb_spec c quote); [done|]. by rewrite IH.
Qed.

Lemma sh_word_quote s rest : word_end rest ->
  sh_word false (shellQuote s +:+ rest) = Some (s, rest).
Proof.
  intros Hr. unfold shellQuote. rewrite !append_assoc. cbn [String.append sh_word].
  change (Ascii.eqb quote " ") with false. change (Ascii.eqb quote quote) with true.
  by apply sh_word_body.
Qed.

Lemma sh_words_cons n x rest :
  sh_words (S n) (shellQuote x +:+ String " " rest) =
  match sh_words n rest with Some ws => Some (x :: ws) | None => None end.
Proof. cbn [sh_words]. by rewrite sh_word_quote by (right; eauto). Qed.

(** Whatever bytes a path holds, quotes included, the words a shell reads back
    from the quoted, blank-joined list are the paths themselves. *)
Theorem shellQuote_words l : l <> [] ->
  sh_words (length l) (Join (map shellQuote l) " ") = Some l.
Proof.
  induction l as [|x [|y l] IH]; intros Hl; [done| |].
  - cbn [map Join length sh_words]. rewrite <- (append_nil_r (shellQuote x)).
    rewrite sh_word_quote by (by left). done.
  - change (Join (map shellQuote (x :: y :: l)) " ")
      with (shellQuote x +:+ String " " (Join (map shellQuote (y :: l)) " ")).
    change (length (x :: y :: l)) with (S (length (y :: l))).
    rewrite sh_words_cons, IH; done.
Qed.

Lemma shellQuote_words_witness :
  sh_words 2 (Join (map shellQuote ["it's"; "a b"]) " ") = Some ["it's"; "a b"].
Proof. apply (shellQuote_words ["it's"; "a b"]). discriminate. Defined.

(** ** Removal batches *)

Definition tokens_size (l : list string) : Z := foldr (fun t n => slen t + 1 + n) 0 l.

Lemma tokens_size_app l1 l2 : tokens_size (l1 ++ l2) = tokens_size l1 + tokens_size l2.
Proof. induction l1 as [|t l IH]; simpl; lia. Qed.

(** The size a batch accounts for is what it emits, and it is within the budget
    unless the batch is a single path. *)
Definition batch_ok (b : rm_batch) : Prop :=
  rb_size b = tokens_size (rb_files b) + tokens_size (rb_dirs b) /\
  (rb_size b <= removeCommandBytes \/ (length (rb_files b) <= 1)%nat).

Definition rm_inv (paths : list string) (st : list rm_batch * rm_batch) : Prop :=
  concat (map rb_files st.1) ++ rb_files st.2 = map (fun p => shellQuote (rel_path p)) paths /\
  Forall batch_ok st.1 /\ batch_ok st.2 /\ Forall (fun b => rb_files b <> []) st.1.

Lemma flush_inv done b :
  Forall batch_ok done -> batch_ok b -> Forall (fun b => rb_files b <> []) done ->
  Forall batch_ok (flush done b) /\ Forall (fun b => rb_files b <> []) (flush done b) /\
  concat (map rb_files (flush done b)) = concat (map rb_files done) ++ rb_files b.
Proof.
  intros H1 H2 H3. unfold flush. destruct (rb_files b) as [|f fs] eqn:E1.
  - rewrite app_nil_r. done.
  - rewrite map_app, concat_app. cbn [map concat]. rewrite app_nil_r, E1.
    split_and!; [|apply Forall_app; split; [done|]; constructor; [by rewrite E1|constructor]|done].
    apply Forall_app. split; [done|]. by constructor.
Qed.

Lemma rm_step_inv paths st p : rm_inv paths st -> rm_inv (paths ++ [p]) (rm_step st p).
Proof.
  destruct st as [done b]. intros (Hf & Hd & Hb & Hn). cbn [fst snd] in *.
  unfold rm_step. set (file := shellQuote (rel_path p)). set (dir := dir_token p).
  pose proof (slen_nonneg file) as Hp1. pose proof (slen_nonneg dir) as Hp2.
  destruct (flush_inv done b Hd Hb Hn) as (F1 & F2 & F3).
  assert (Hstart : exists done' b',
    (if removeCommandBytes <? rb_size b + slen file + slen dir + 2
     then (flush done b, empty_batch) else (done, b)) = (done', b') /\
    concat (map rb_files done') ++ rb_files b' = map (fun p => shellQuote (rel_path p)) paths /\
    Forall batch_ok done' /\ Forall (fun b => rb_files b <> []) done' /\
    rb_size b' = tokens_size (rb_files b') + tokens_size (rb_dirs b') /\
    (b' = empty_batch \/ rb_size b' + slen file + slen dir + 2 <= removeCommandBytes)).
  { case_match eqn:E1; bool_prop; eexists _, _; split; [done| |done|].
    - split_and!; [by rewrite F3, app_nil_r|done..|by left].
    - destruct Hb. split_and!; [done..|by right]. }
  destruct Hstart as (done' & b' & -> & Hf' & Hd' & Hn' & Hs' & Hlim).
  assert (Hfiles : concat (map rb_files done') ++ (rb_files b' ++ [file])
                   = map (fun p => shellQuote (rel_path p)) (paths ++ [p])).
  { rewrite map_app, app_assoc, Hf'. done. }
  assert (Hlen : b' = empty_batch -> length (rb_files b' ++ [file]) = 1%nat) by (by intros ->).
  unfold rm_inv, batch_ok. cbn [rb_files rb_dirs rb_size].
  case_match; cbn [fst snd rb_files rb_dirs rb_size]; rewrite ?tokens_size_app; cbn [tokens_size foldr];
    (split_and!; [done..|lia| |done]);
    (destruct Hlim as [He|Hlim]; [right; rewrite (Hlen He); lia|left; lia]).
Qed.

Lemma rm_fold_inv paths : rm_inv paths (foldl rm_step ([], empty_batch) paths).
Proof.
  induction paths as [|p paths IH] using rev_ind.
  - repeat split; [constructor|by left|constructor].
  - rewrite foldl_app. by apply rm_step_inv.
Qed.

(** The removal commands unlink every path, in order and each exactly once, and
    no command's arguments exceed the 32 KiB budget unless a single path does. *)
Theorem RemoveCommands_cover mount paths :
  exists bs, RemoveCommands mount paths = map (render_batch mount) bs /\
    concat (map rb_files bs) = map (fun p => shellQuote (rel_path p)) paths /\
    Forall (fun b => rb_files b <> [] /\
      (tokens_size (rb_files b) + tokens_size (rb_dirs b) <= removeCommandBytes \/
       length (rb_files b) = 1%nat)) bs.
Proof.
  exists (rm_batches paths). split; [done|]. unfold rm_batches.
  pose proof (rm_fold_inv paths) as Hi.
  destruct (foldl rm_step ([], empty_batch) paths) as [done b].
  destruct Hi as (Hf & Hd & Hb & Hn). cbn [fst snd] in *.
  destruct (flush_inv done b Hd Hb Hn) as (F1 & F2 & F3). rewrite F3. split; [done|].
  rewrite Forall_forall in F1, F2 |- *. intros x Hx. split; [by apply F2|].
  destruct (F1 x Hx) as [Hs [Hle|Hle]]; [left; lia|right].
  specialize (F2 x Hx). destruct (rb_files x) as [|? [|]]; simpl in *; [done|done|lia].
Qed.

(** ** The tree listing *)

Lemma take_bytes_app a b : take_bytes (String.length a) (a +:+ b) = a.
Proof. induction a as [|c a IH]; simpl; [by destruct b|by rewrite IH]. Qed.

Lemma drop_bytes_app a b : drop_bytes (String.length a) (a +:+ b) = b.
Proof. induction a as [|c a IH]; simpl; [by destruct b|done]. Qed.

Lemma drop_bytes_add n a b : drop_bytes (String.length a + n) (a +:+ b) = drop_bytes n b.
Proof. induction a as [|c a IH]; simpl; [done|done]. Qed.

(** A file under the mount and its digest, as sha256sum prints them. *)
Definition file_ok (f : string * string) : Prop :=
  (exists x, f.1 = "/" +:+ x /\ x <> "") /\ no_byte nul f.1 /\ IsDigest f.2 = true.

Definition render_file (f : string * string) : string :=
  f.2 +:+ "  ." +:+ f.1 +:+ String nul EmptyString.

Definition render_tree (fs : list (string * string)) : string :=
  foldr (fun f acc => render_file f +:+ acc) EmptyString fs.

Lemma IsDigest_length d : IsDigest d = true -> String.length d = 64%nat.
Proof. unfold IsDigest, slen. intros H. bool_prop. lia. Qed.

Lemma is_hex_not_nul a : is_hex a = true -> negb (Ascii.eqb a nul) = true.
Proof. intros H. destruct (Ascii.eqb_spec a nul) as [->|]; [discriminate H|done]. Qed.

Lemma parse_record_render f : file_ok f -> parse_record (f.2 +:+ "  ." +:+ f.1) = Ok f.
Proof.
  destruct f as [p d]. intros ((x & Hp & Hx) & _ & Hd). cbn [fst snd] in *.
  pose proof (IsDigest_length d Hd) as Hl. unfold parse_record.
  assert (Ht : take_bytes 64 (d +:+ "  ." +:+ p) = d) by (rewrite <- Hl; apply take_bytes_app).
  assert (H64 : drop_bytes 64 (d +:+ "  ." +:+ p) = "  ." +:+ p) by (rewrite <- Hl; apply drop_bytes_app).
  assert (H67 : drop_bytes 67 (d +:+ "  ." +:+ p) = p).
  { change 67%nat with (64 + 3)%nat. rewrite <- Hl, drop_bytes_add. by destruct p. }
  rewrite Ht, H64, H67, Hd, Hp. rewrite !slen_append.
  assert (slen d = 64) as -> by (unfold slen; lia).
  assert (1 <= slen x) by (destruct x; [done|unfold slen; simpl; lia]).
  assert (Hs : slen "  ." + (slen "/" + slen x) = 4 + slen x) by (unfold slen; simpl; lia).
  rewrite Hs.
  destruct (Z.ltb_spec (64 + (4 + slen x)) (64 + 2 + 2)); [lia|].
  destruct (Z.eqb_spec (64 + (4 + slen x)) 68); [lia|]. reflexivity.
Qed.

Lemma parse_tree_render fs : forall fuel t files,
  Forall file_ok fs -> NoDup fs.*1 -> (forall p, p ∈ fs.*1 -> files !! p = None) ->
  exists files',
    parse_tree (length fs + fuel) (render_tree fs +:+ t) files = parse_tree fuel t files' /\
    forall p d, files' !! p = Some d <-> files !! p = Some d \/ (p, d) ∈ fs.
Proof.
  induction fs as [|f fs IH]; intros fuel t files Hok Hnd Hfresh.
  - exists files. split; [done|]. intros p d. rewrite elem_of_nil. tauto.
  - apply Forall_cons in Hok as [Hf Hok]. cbn [fmap list_fmap] in Hnd. apply NoDup_cons in Hnd as [Hnin Hnd].
    destruct (IH fuel t (<[f.1 := f.2]> files) Hok Hnd) as (files' & He & Hl).
    { intros p Hp. rewrite lookup_insert_ne; [apply Hfresh; by right|]. by intros <-. }
    exists files'. split.
    + rewrite <- He. cbn [length Nat.add render_tree foldr]. fold (render_tree fs).
      unfold render_file. rewrite !append_assoc. cbn [parse_tree].
      pose proof Hf as (_ & Hnul & Hd).
      assert (Hcut : Cut (f.2 +:+ "  ." +:+ f.1 +:+ String nul EmptyString +:+ render_tree fs +:+ t) nul
                     = (f.2 +:+ "  ." +:+ f.1, render_tree fs +:+ t, true)).
      { assert (f.2 +:+ "  ." +:+ f.1 +:+ String nul EmptyString +:+ render_tree fs +:+ t
                = (f.2 +:+ "  ." +:+ f.1) +:+ String nul (render_tree fs +:+ t)) as ->
          by (by rewrite !append_assoc).
        apply Cut_at. unfold no_byte. rewrite !all_bytes_app. fold (no_byte nul f.1). rewrite Hnul.
        rewrite andb_true_r. unfold IsDigest in Hd. bool_prop.
        eapply all_bytes_impl; [apply is_hex_not_nul|done]. }
      rewrite Hcut. cbn [negb]. rewrite parse_record_render by done. destruct f as [p d]. cbn [fst snd] in *.
      rewrite Hfresh by (by left). destruct (String.eqb_spec
        (d +:+ "  ." +:+ p +:+ String nul EmptyString +:+ render_tree fs +:+ t) "") as [He0|]; [|done].
      apply IsDigest_length in Hd. by destruct d.
    + intros p d. rewrite Hl, elem_of_cons. destruct f as [p0 d0]; cbn [fst snd].
      destruct (decide (p0 = p)) as [->|Hne].
      * rewrite lookup_insert_eq, (Hfresh p) by (by left). split.
        -- intros [[= ->]|?]; auto.
        -- intros [?|[?|?]]; simplify_eq; auto.
      * rewrite lookup_insert_ne by done. split; [tauto|]. intros [?|[?|?]]; simplify_eq; auto.
Qed.

Lemma render_tree_length fs : (length fs <= String.length (render_tree fs))%nat.
Proof.
  induction fs as [|f fs IH]; simpl; [lia|]. unfold render_file. rewrite !length_append. simpl. lia.
Qed.

(** The parser on a rendered tree followed by [t], with fuel to spare. *)
Lemma ParseHashTree_render fs t : Forall file_ok fs -> NoDup fs.*1 ->
  exists files n,
    ParseHashTree (render_tree fs +:+ t) = parse_tree (S n) t files /\
    forall p d, files !! p = Some d <-> (p, d) ∈ fs.
Proof.
  intros Hok Hnd. unfold ParseHashTree. rewrite length_append.
  pose proof (render_tree_length fs) as Hlen.
  replace (S (String.length (render_tree fs) + String.length t))
    with (length fs + S (String.length (render_tree fs) + String.length t - length fs))%nat by lia.
  destruct (parse_tree_render fs (S (String.length (render_tree fs) + String.length t - length fs)) t ∅)
    as (files & He & Hl); [done|done|intros; apply lookup_empty|].
  exists files, (String.length (render_tree fs) + String.length t - length fs)%nat.
  split; [exact He|]. intros p d. rewrite Hl, lookup_empty. naive_solver.
Qed.

(** A whole listing parses back to exactly the files it lists, whatever bytes
    but NUL their names hold. *)
Theorem ParseHashTree_roundtrip fs :
  Forall file_ok fs -> NoDup fs.*1 ->
  exists files, ParseHashTree (render_tree fs) = Ok files /\
    forall p d, files !! p = Some d <-> (p, d) ∈ fs.
Proof.
  intros Hok Hnd. destruct (ParseHashTree_render fs "" Hok Hnd) as (files & n & He & Hl).
  rewrite append_nil_r in He. exists files. split; [exact He|done].
Qed.

(** A capture cut off inside a record is refused, never read as a smaller
    tree (whose missing files the sync would take for deletions). *)
Theorem ParseHashTree_truncated fs t :
  Forall file_ok fs -> NoDup fs.*1 -> t <> "" -> no_byte nul t ->
  ParseHashTree (render_tree fs +:+ t) = Err EndsMidRecord.
Proof.
  intros Hok Hnd Ht Hnul. destruct (ParseHashTree_render fs t Hok Hnd) as (files & n & -> & _).
  cbn [parse_tree]. rewrite Cut_none by done. destruct (String.eqb_spec t ""); done.
Qed.

Definition zero_digest : string :=
  "0000000000000000000000000000000000000000000000000000000000000000".

Definition two_files : list (string * string) := [("/a", zero_digest); ("/b c", zero_digest)].

Lemma two_files_ok : Forall file_ok two_files /\ NoDup two_files.*1.
Proof.
  split.
  - repeat constructor; cbn; try reflexivity; [by exists "a"|by exists "b c"].
  - apply (bool_decide_eq_true_1 _). vm_compute. reflexivity.
Qed.

Lemma ParseHashTree_roundtrip_witness :
  exists files, ParseHashTree (render_tree two_files) = Ok files /\
    forall p d, files !! p = Some d <-> (p, d) ∈ two_files.
Proof. apply ParseHashTree_roundtrip; apply two_files_ok. Defined.

Lemma ParseHashTree_truncated_witness :
  ParseHashTree (render_tree two_files +:+ "0000") = Err EndsMidRecord.
Proof. apply ParseHashTree_truncated; [apply two_files_ok..|discriminate|reflexivity]. Defined.

(** ** Paths *)

(** A segment that names an entry of its directory and nothing else. *)
Definition plain_segment (s : string) : Prop :=
  s <> "" /\ s <> "." /\ s <> ".." /\ no_byte slash s.

Lemma check_segments_ok segs :
  check_segments segs = None -> Forall (fun s => s <> "" /\ s <> "." /\ s <> "..") segs.
Proof.
  induction segs as [|s segs IH]; cbn [check_segments]; [constructor|].
  destruct (String.eqb_spec s ""); [done|].
  destruct (String.eqb_spec s "."); [done|]. destruct (String.eqb_spec s ".."); [done|].
  cbn [orb]. intros H. constructor; auto.
Qed.

Lemma clean_segs_plain segs acc :
  Forall (fun s => s <> "" /\ s <> "." /\ s <> "..") segs ->
  clean_segs true acc segs = rev acc ++ segs.
Proof.
  intros H; revert acc; induction H as [|s segs (H1 & H2 & H3) _ IH]; intros acc; cbn [clean_segs].
  - by rewrite app_nil_r.
  - destruct (String.eqb_spec s ""); [done|]. destruct (String.eqb_spec s "."); [done|].
    destruct (String.eqb_spec s ".."); [done|]. cbn [orb]. rewrite IH. cbn [rev].
    by rewrite <- app_assoc.
Qed.

Lemma check_runes_ok rs : check_runes rs = None ->
  Forall (fun rb => unicode_Cc rb.1 = false /\ unicode_Cf rb.1 = false /\ rb.1 <> 8232 /\ rb.1 <> 8233) rs.
Proof.
  induction rs as [|rb rs IH]; cbn [check_runes]; [constructor|].
  destruct (unicode_Cc rb.1) eqn:E1, (unicode_Cf rb.1) eqn:E2; cbn [orb]; try done.
  destruct (Z.eqb_spec rb.1 8232), (Z.eqb_spec rb.1 8233); cbn [orb]; try done.
  intros H. constructor; auto.
Qed.

(** An accepted path is a rooted, non-empty sequence of plain segments within
    1,024 bytes of valid, normalized UTF-8 with no control, format or separator
    rune, and it is its own [path.Clean]: appended to a mount it cannot name
    anything outside it. *)
Theorem ValidatePath_sound IsNormalString p :
  ValidatePath IsNormalString p = None ->
  exists segs, p = "/" +:+ Join segs "/" /\ segs <> [] /\ Forall plain_segment segs /\
    path_Clean p = p /\ slen p <= MaxPathBytes /\ ValidString p = true /\ IsNormalString p = true /\
    Forall (fun rb => unicode_Cc rb.1 = false /\ unicode_Cf rb.1 = false /\
                      rb.1 <> 8232 /\ rb.1 <> 8233) (runes p).
Proof.
  unfold ValidatePath. destruct (String.eqb_spec p ""); [done|].
  destruct (HasPrefix p "/") eqn:Hpre; cbn [negb]; [|done].
  destruct (Z.ltb_spec MaxPathBytes (slen p)); [done|].
  destruct (String.eqb_spec p "/"); [done|].
  destruct (check_segments (Split (drop_bytes 1 p) slash)) eqn:E1; [done|].
  destruct (ValidString p) eqn:E2; cbn [negb]; [|done].
  destruct (check_runes (runes p)) eqn:E3; [done|].
  destruct (IsNormalString p) eqn:E4; cbn [negb]; [|done]. intros _.
  pose proof Hpre as [r Hp]%HasPrefix_spec. cbn in Hp. rewrite Hp in E1 |- *. cbn [drop_bytes] in E1.
  assert (Hd : drop_bytes 0 r = r) by (by destruct r). rewrite ?Hd in E1.
  exists (Split r slash). pose proof (check_segments_ok _ E1) as Hs.
  pose proof (Split_Join r slash) as HJ. change (String slash "") with "/" in HJ.
  split_and!; [by rewrite HJ| | | |by subst p|by subst p|by subst p|by apply check_runes_ok; subst p].
  - intros Hn. rewrite Hn in HJ. cbn in HJ. subst r. done.
  - rewrite Forall_forall in Hs |- *. intros s Hin. destruct (Hs s Hin) as (? & ? & ?).
    split_and!; [done..|]. by eapply Split_no_sep.
  - unfold path_Clean. rewrite <- Hp, Hpre. rewrite Hp.
    change (Split (String "/" r) slash) with ("" :: Split r slash).
    change (clean_segs true [] ("" :: Split r slash)) with (clean_segs true [] (Split r slash)).
    rewrite clean_segs_plain by done. cbn [rev app]. by rewrite HJ.
Qed.

Lemma ValidatePath_sound_witness :
  ValidatePath (fun _ => true) "/notes/to do.md" = None /\
  exists segs, "/notes/to do.md" = "/" +:+ Join segs "/" /\ segs <> [] /\ Forall plain_segment segs /\
    path_Clean "/notes/to do.md" = "/notes/to do.md" /\ slen "/notes/to do.md" <= MaxPathBytes /\
    ValidString "/notes/to do.md" = true /\ (fun _ => true) "/notes/to do.md" = true /\
    Forall (fun rb => unicode_Cc rb.1 = false /\ unicode_Cf rb.1 = false /\
                      rb.1 <> 8232 /\ rb.1 <> 8233) (runes "/notes/to do.md").
Proof.
  split; [vm_compute; reflexivity|].
  apply (ValidatePath_sound (fun _ => true)). vm_compute; reflexivity.
Defined.

(** ** Slugs *)

Definition slug_byte (a : ascii) : bool := is_slug_rune (ord a) || Ascii.eqb a "-".

Definition hyphen_free_ends (s : string) : Prop := HasPrefix s "-" = false /\ Contains s "--" = false.

(** A directory name: non-empty, lower-case ASCII letters, digits and single
    hyphens between them. *)
Definition slug_safe (s : string) : Prop :=
  s <> "" /\ all_bytes slug_byte s = true /\ hyphen_free_ends s /\ HasSuffix s "-" = false.

Lemma string_snoc s : s = "" \/ exists s' c, s = s' +:+ String c EmptyString.
Proof.
  induction s as [|a s [->|(s' & c & ->)]]; [by left|right..].
  - by exists "", a.
  - by exists (String a s'), c.
Qed.

Lemma snoc_inj a b c d : a +:+ String c "" = b +:+ String d "" -> a = b /\ c = d.
Proof.
  revert b; induction a as [|x a IH]; intros [|y b]; simpl; intros H; simplify_eq; try done.
  - by destruct b.
  - by destruct a.
  - destruct (IH b) as [-> ->]; done.
Qed.

(** Appending a byte creates a double hyphen only after a hyphen. *)
Lemma Contains_snoc b c :
  Contains (b +:+ String c "") "--" = true ->
  Contains b "--" = true \/ (HasSuffix b "-" = true /\ c = "-"%char).
Proof.
  intros (x & y & H)%Contains_spec. destruct (string_snoc y) as [->|(y' & d & ->)].
  - rewrite append_nil_r in H. change "--" with ("-" +:+ "-") in H.
    rewrite <- append_assoc in H. apply snoc_inj in H as [-> ->]. right. split; [|done].
    apply HasSuffix_spec. eauto.
  - left. rewrite <- !append_assoc in H. apply snoc_inj in H as [-> _].
    apply Contains_spec. exists x, y'. by rewrite append_assoc.
Qed.

Lemma HasPrefix_snoc b c : b <> "" -> HasPrefix (b +:+ String c "") "-" = HasPrefix b "-".
Proof.
  destruct b as [|x b]; [done|]. intros _. unfold HasPrefix. cbn [String.append CutPrefix].
  destruct (Ascii.eqb "-" x); [|done]. by destruct b.
Qed.

Lemma HasSuffix_snoc b c : HasSuffix (b +:+ String c "") "-" = Ascii.eqb c "-".
Proof.
  apply eq_bool_prop_intro. rewrite !Is_true_true. rewrite HasSuffix_spec, Ascii.eqb_eq. split.
  - intros [r Hr]. by apply snoc_inj in Hr as [_ ->].
  - intros ->. by exists b.
Qed.

Definition slug_inv (b : string) : Prop := all_bytes slug_byte b = true /\ hyphen_free_ends b.

Lemma byte_of_rune_slug r : is_slug_rune r = true ->
  exists a, byte_of_rune r = String a "" /\ ord a = r /\ a <> "-"%char.
Proof.
  intros H. unfold byte_of_rune. eexists. split; [done|].
  assert (Hr : 0 <= r < 256).
  { unfold is_slug_rune, in_range in H. apply orb_true_iff in H as [H|H]; bool_prop; lia. }
  assert (Ho : ord (ascii_of_N (Z.to_N r)) = r).
  { unfold ord. rewrite N_ascii_embedding by lia. lia. }
  split; [done|]. intros Hd. rewrite Hd in Ho. subst r. discriminate H.
Qed.

Lemma slug_inv_snoc b c :
  slug_inv b -> slug_byte c = true ->
  (c = "-"%char -> b <> "" /\ HasSuffix b "-" = false) -> slug_inv (b +:+ String c "").
Proof.
  intros (Hb & Hp & Hc) Hs Hd. split; [|split].
  - rewrite all_bytes_app, Hb. cbn. by rewrite Hs.
  - destruct (decide (b = "")) as [->|Hne]; [|by rewrite HasPrefix_snoc].
    unfold HasPrefix. cbn [String.append CutPrefix]. destruct (Ascii.eqb_spec "-" c) as [<-|]; [|done].
    by destruct (Hd eq_refl).
  - apply not_true_is_false. intros [?|[? ->]]%Contains_snoc; [congruence|].
    destruct (Hd eq_refl). congruence.
Qed.

Lemma slug_go_inv rs b : slug_inv b -> slug_inv (slug_go b rs).
Proof.
  revert b; induction rs as [|rb rs IH]; intros b Hb; cbn [slug_go]; [done|].
  destruct (is_slug_rune (lower_rune rb.1)) eqn:E1.
  - apply IH. destruct (byte_of_rune_slug _ E1) as (a & -> & Ha & Hne).
    apply slug_inv_snoc; [done| |done]. unfold slug_byte. by rewrite Ha, E1.
  - destruct (String.eqb_spec b ""); cbn [negb andb]; [by apply IH|].
    destruct (HasSuffix b "-") eqn:E2; cbn [negb]; [by apply IH|].
    apply IH. by apply slug_inv_snoc.
Qed.

Lemma TrimSuffix_safe b : slug_inv b -> TrimSuffix b "-" <> "" -> slug_safe (TrimSuffix b "-").
Proof.
  intros (Hb & Hp & Hc) Hne.
  destruct (TrimSuffix_spec b "-") as [(r & -> & Hr)|[Hs Ht]].
  - rewrite Hr in *. rewrite all_bytes_app in Hb. bool_prop.
    split_and!; [done|done|split|].
    + by rewrite HasPrefix_snoc in Hp.
    + apply not_true_is_false. intros (x & y & ->)%Contains_spec.
      apply not_true_iff_false in Hc. apply Hc, Contains_spec. exists x, (y +:+ "-").
      by rewrite !append_assoc.
    + apply not_true_is_false. intros [x ->]%HasSuffix_spec.
      apply not_true_iff_false in Hc. apply Hc, Contains_spec. exists x, "".
      by rewrite append_nil_r, append_assoc.
  - rewrite Ht in *. done.
Qed.

(** A slug is the fallback, or a directory name of lower-case ASCII letters,
    digits and single inner hyphens, whatever the store's display name. *)
Theorem Slug_safe name fallback :
  slug_safe (Slug name fallback) \/ Slug name fallback = fallback.
Proof.
  unfold Slug. set (b := slug_go "" (runes name)).
  destruct (String.eqb_spec (TrimSuffix b "-") ""); cbn [negb]; [by right|left].
  apply TrimSuffix_safe; [|done]. by apply slug_go_inv.
Qed.
