(* ===== verification/MemPlan.v ===== *)
(** * MemPlan: the reconciliation plan of internal/memsync/plan.go.

    [Plan] decides, path by path over the union of the directory, the baseline and
    the store, what one sync does; Go maps are [gmap]s from strings.  The theorems:
    the loop is a per-path decision table, a pull-only sync writes nothing to the
    store, nothing changed since the baseline is ever destroyed, and a plan carried
    out in full leaves directory, store and baseline in agreement, so that the next
    plan is empty. *)
From stdpp Require Import base gmap strings list sorting.
From Stdlib Require Import Lia.
From S2P Require Import Prelude GoStrings Memsync.

Record Head := MkHead { hID : string; hSHA : string }.

Inductive Kind := Pull | Push | DeleteRemote | RemoveLocal.
#[global] Instance Kind_eq_dec : EqDecision Kind.
Proof. solve_decision. Defined.

Record Action := MkAction {
  aKind : Kind; aPath : string; aID : string;
  aBaselineSHA : string; aLocalSHA : string; aRemoteSHA : string; aConflict : bool }.

Record Baseline := MkBaseline { Synced : gmap string string; Refused : gmap string string }.

Record Input := MkInput {
  iLocal : gmap string string; iBaseline : Baseline; iRemote : gmap string Head;
  iPullOnly : bool; iUnmarked : bool }.

Record Result := MkResult {
  rRebuild : bool; rActions : list Action; rNext : Baseline;
  rSkipped : list string; rWithheld : Z }.

Definition empty_result : Result := MkResult false [] (MkBaseline ∅ ∅) [] 0.

(** The four shapes of action the code builds. *)
Definition pull (path : string) (h : Head) (conflict : bool) : Action :=
  MkAction Pull path (hID h) "" "" (hSHA h) conflict.
Definition push_create (path local : string) : Action := MkAction Push path "" "" local "" false.
Definition push_update (path : string) (h : Head) (base local : string) : Action :=
  MkAction Push path (hID h) base local "" false.
Definition delete_remote (path : string) (h : Head) (base : string) : Action :=
  MkAction DeleteRemote path (hID h) base "" "" false.
Definition remove_local (path : string) : Action := MkAction RemoveLocal path "" "" "" "" false.

(** Appending to the result's fields. *)
Definition add_action (res : Result) (a : Action) : Result :=
  MkResult (rRebuild res) (rActions res ++ [a]) (rNext res) (rSkipped res) (rWithheld res).
Definition add_skipped (res : Result) (p : string) : Result :=
  MkResult (rRebuild res) (rActions res) (rNext res) (rSkipped res ++ [p]) (rWithheld res).
Definition add_withheld (res : Result) : Result :=
  MkResult (rRebuild res) (rActions res) (rNext res) (rSkipped res) (rWithheld res + 1).
Definition set_refused (res : Result) (p sha : string) : Result :=
  MkResult (rRebuild res) (rActions res)
    (MkBaseline (Synced (rNext res)) (<[p := sha]> (Refused (rNext res)))) (rSkipped res) (rWithheld res).
Definition set_synced (res : Result) (p sha : string) : Result :=
  MkResult (rRebuild res) (rActions res)
    (MkBaseline (<[p := sha]> (Synced (rNext res))) (Refused (rNext res))) (rSkipped res) (rWithheld res).

(** [m[k]] of a Go map of strings: the empty string when absent. *)
Definition map_get (m : gmap string string) (k : string) : string := default "" (m !! k).

Lemma map_get_Some (m : gmap string string) k v : m !! k = Some v -> map_get m k = v.
Proof. unfold map_get. by intros ->. Qed.

Definition sortedKeys (a b : gmap string string) (c : gmap string Head) : list string :=
  merge_sort String.le (elements (dom a ∪ dom b ∪ dom c)).

Section plan.
Context (IsNormalString : string -> bool).

(** The [push] closure. *)
Definition push (inp : Input) (path local : string) (res : Result) (act : Action) : Result :=
  if iPullOnly inp then add_withheld res
  else if String.eqb (map_get (Refused (rNext res)) path) local then add_skipped res path
  else if String.eqb (aID act) "" && negb (bool_decide (ValidatePath IsNormalString path = None))
  then add_skipped (set_refused res path local) path
  else add_action res act.

(** [if refused, ok := in.Baseline.Refused[path]; ok && localPresent && refused == local] *)
Definition carry_refusal (inp : Input) (res : Result) (path : string) : Result :=
  match Refused (iBaseline inp) !! path with
  | Some refused =>
      if bool_decide (is_Some (iLocal inp !! path)) && String.eqb refused (map_get (iLocal inp) path)
      then set_refused res path refused else res
  | None => res
  end.

(** The loop body. *)
Definition plan_path (inp : Input) (res : Result) (path : string) : Result :=
  let local := map_get (iLocal inp) path in
  let localPresent := bool_decide (is_Some (iLocal inp !! path)) in
  let base := map_get (Synced (iBaseline inp)) path in
  let hasBase := bool_decide (is_Some (Synced (iBaseline inp) !! path)) in
  let remotePresent := bool_decide (is_Some (iRemote inp !! path)) in
  let head := default (MkHead "" "") (iRemote inp !! path) in
  let res := carry_refusal inp res path in
  if negb remotePresent && negb localPresent then res
  else if negb remotePresent && negb hasBase then push inp path local res (push_create path local)
  else if negb remotePresent && String.eqb local base then add_action res (remove_local path)
  else if negb remotePresent then push inp path local res (push_create path local)
  else if negb localPresent && negb hasBase then add_action res (pull path head false)
  else if negb localPresent && negb (String.eqb (hSHA head) base)
  then add_action res (pull path head true)
  else if negb localPresent && iPullOnly inp then set_synced res path base
  else if negb localPresent then add_action res (delete_remote path head base)
  else if String.eqb local (hSHA head) then set_synced res path (hSHA head)
  else if negb hasBase || negb (String.eqb (hSHA head) base)
  then add_action res (pull path head (negb hasBase || negb (String.eqb local base)))
  else
    let res := if iPullOnly inp || String.eqb (map_get (Refused (rNext res)) path) local
               then set_synced res path base else res in
    push inp path local res (push_update path head base local).

(** [len(in.Local) == 0 && (len(in.Baseline.Synced) > 1 || in.Unmarked)] *)
Definition rebuilds (inp : Input) : bool :=
  Nat.eqb (size (iLocal inp)) 0 && ((Nat.ltb 1 (size (Synced (iBaseline inp)))) || iUnmarked inp).

Definition Plan (inp : Input) : Result :=
  if rebuilds inp then
    MkResult true
      (map (fun p => pull p (default (MkHead "" "") (iRemote inp !! p)) false)
           (sortedKeys ∅ ∅ (iRemote inp)))
      (MkBaseline ∅ ∅) [] 0
  else
    foldl (plan_path inp) empty_result
      (sortedKeys (iLocal inp) (Synced (iBaseline inp)) (iRemote inp)).
End plan.

(** ** The decision table *)

(** What one path contributes to the plan. *)
Record outcome := MkOutcome {
  oAction : option Action; oSynced : option string; oRefused : option string;
  oSkipped : bool; oWithheld : bool }.

(** The contributions of the paths, added to a result. *)
Definition record_outcome (res : Result) (path : string) (o : outcome) : Result :=
  MkResult (rRebuild res) (rActions res ++ option_list (oAction o))
    (MkBaseline (match oSynced o with Some s => <[path := s]> (Synced (rNext res)) | None => Synced (rNext res) end)
                (match oRefused o with Some s => <[path := s]> (Refused (rNext res)) | None => Refused (rNext res) end))
    (if oSkipped o then rSkipped res ++ [path] else rSkipped res)
    (if oWithheld o then rWithheld res + 1 else rWithheld res).

Section table.
Context (IsNormalString : string -> bool).
Implicit Types (inp : Input) (p : string).

(** The refusal that still stands: recorded for exactly the bytes the directory holds. *)
Definition standing inp p : option string :=
  match Refused (iBaseline inp) !! p, iLocal inp !! p with
  | Some r, Some l => if String.eqb r l then Some r else None
  | _, _ => None
  end.

(** A push of the bytes [l]: dropped by pull-only mode, skipped under a refusal
    (standing, or new because a create's path is illegal), else the action. [keep]
    is the baseline a dropped push leaves. *)
Definition try_push inp p (l : string) (create : bool) (keep : option string) (a : Action) : outcome :=
  if iPullOnly inp then MkOutcome None keep (standing inp p) false true
  else if String.eqb (default "" (standing inp p)) l then MkOutcome None keep (standing inp p) true false
  else if create && negb (bool_decide (ValidatePath IsNormalString p = None))
  then MkOutcome None None (Some l) true false
  else MkOutcome (Some a) None (standing inp p) false false.

Definition act inp p (a : Action) : outcome := MkOutcome (Some a) None (standing inp p) false false.
Definition keep inp p (s : option string) : outcome := MkOutcome None s (standing inp p) false false.

(** The table, on the directory's digest, the baseline's and the store's head. *)
Definition decide_path inp p : outcome :=
  match iLocal inp !! p, Synced (iBaseline inp) !! p, iRemote inp !! p with
  | None, _, None => keep inp p None
  | Some l, None, None => try_push inp p l true None (push_create p l)
  | Some l, Some b, None =>
      if String.eqb l b then act inp p (remove_local p)
      else try_push inp p l true None (push_create p l)
  | None, None, Some h => act inp p (pull p h false)
  | None, Some b, Some h =>
      if String.eqb (hSHA h) b
      then if iPullOnly inp then keep inp p (Some b) else act inp p (delete_remote p h b)
      else act inp p (pull p h true)
  | Some l, b, Some h =>
      if String.eqb l (hSHA h) then keep inp p (Some (hSHA h))
      else if bool_decide (b = Some (hSHA h))
      then try_push inp p l (String.eqb (hID h) "") b (push_update p h (hSHA h) l)
      else act inp p (pull p h (negb (bool_decide (b = Some l))))
  end.

Section body.
Context (inp : Input) (res : Result) (p : string) (Hfresh : Refused (rNext res) !! p = None).

Lemma carry_refusal_eq : carry_refusal inp res p = record_outcome res p (keep inp p None).
Proof.
  unfold carry_refusal, keep, standing, record_outcome, map_get. destruct res as [rb ac [sy rf] sk wi].
  destruct (Refused (iBaseline inp) !! p), (iLocal inp !! p);
    rewrite ?bool_decide_true, ?bool_decide_false by (first [done|by intros [??]]); cbn;
    rewrite ?app_nil_r; try destruct (String.eqb _ _); done.
Qed.

Lemma carried_refusal : map_get (Refused (rNext (carry_refusal inp res p))) p = default "" (standing inp p).
Proof.
  rewrite carry_refusal_eq. unfold record_outcome, keep, map_get; cbn.
  destruct (standing inp p); [by rewrite lookup_insert_eq|by rewrite Hfresh].
Qed.

Lemma carry_act a : add_action (carry_refusal inp res p) a = record_outcome res p (act inp p a).
Proof. rewrite carry_refusal_eq. unfold add_action, record_outcome; cbn. by rewrite app_nil_r. Qed.

Lemma carry_keep s : set_synced (carry_refusal inp res p) p s = record_outcome res p (keep inp p (Some s)).
Proof. by rewrite carry_refusal_eq. Qed.

Lemma standing_local r : standing inp p = Some r -> iLocal inp !! p = Some r.
Proof.
  unfold standing. destruct (Refused (iBaseline inp) !! p) as [r'|], (iLocal inp !! p) as [l|]; cbn; try done.
  destruct (String.eqb_spec r' l); congruence.
Qed.

(** The [push] closure on the carried result, with the baseline it leaves when the
    push is dropped. *)
Lemma push_outcome l a keepb :
  iLocal inp !! p = Some l ->
  push IsNormalString inp p l
    (if iPullOnly inp || String.eqb (map_get (Refused (rNext (carry_refusal inp res p))) p) l
     then match keepb with Some b => set_synced (carry_refusal inp res p) p b
          | None => carry_refusal inp res p end
     else carry_refusal inp res p) a
  = record_outcome res p (try_push inp p l (String.eqb (aID a) "") keepb a).
Proof.
  intros Hl. unfold push, try_push. rewrite carried_refusal, carry_refusal_eq.
  destruct (iPullOnly inp) eqn:Ho; cbn [orb].
  { destruct keepb; unfold add_withheld, set_synced, record_outcome; cbn; done. }
  destruct (String.eqb_spec (default "" (standing inp p)) l) as [Hs|Hs].
  - replace (map_get _ _) with l.
    2: { rewrite <- Hs, <- carried_refusal, carry_refusal_eq. by destruct keepb. }
    rewrite String.eqb_refl. destruct keepb; unfold add_skipped, set_synced, record_outcome; cbn; done.
  - rewrite <- carry_refusal_eq, carried_refusal. apply String.eqb_neq in Hs as ->.
    rewrite carry_refusal_eq. destruct (_ && _); unfold add_skipped, set_refused, add_action, record_outcome; cbn.
    + destruct (standing inp p) as [r|] eqn:E; [|done].
      apply standing_local in E. rewrite Hl in E. injection E as <-.
      by rewrite insert_insert_eq.
    + by rewrite app_nil_r.
Qed.
(** The loop body adds the path's outcome, whatever came before. *)
Lemma plan_path_outcome : plan_path IsNormalString inp res p = record_outcome res p (decide_path inp p).
Proof.
  pose proof carry_refusal_eq as Hc.
  assert (Hpush : forall l, iLocal inp !! p = Some l ->
    push IsNormalString inp p l (carry_refusal inp res p) (push_create p l)
    = record_outcome res p (try_push inp p l true None (push_create p l))).
  { intros l Hl. pose proof (push_outcome l (push_create p l) None Hl) as H.
    by destruct (_ || _) in H. }
  unfold plan_path, decide_path.
  destruct (iLocal inp !! p) as [l|] eqn:El, (Synced (iBaseline inp) !! p) as [b|] eqn:Eb,
    (iRemote inp !! p) as [h|] eqn:Eh;
    rewrite ?(map_get_Some _ _ _ El), ?(map_get_Some _ _ _ Eb),
      ?bool_decide_true, ?bool_decide_false by (first [done|by intros [??]]);
    cbn [negb andb orb default from_option id]; rewrite ?carry_act, ?Hpush by done; try done.
  - rewrite (push_outcome l (push_update p h b l) (Some b) El). cbn [aID push_update].
    rewrite carry_keep. destruct (String.eqb l _); [done|]. destruct (String.eqb_spec (hSHA h) b) as [<-|?]; cbn [negb].
    + by rewrite bool_decide_true.
    + rewrite bool_decide_false by congruence. do 3 f_equal.
      destruct (String.eqb_spec l b); [rewrite bool_decide_true|rewrite bool_decide_false]; congruence.
  - by destruct (String.eqb l b).
  - rewrite carry_keep. by destruct (String.eqb l _).
  - rewrite carry_keep. destruct (String.eqb (hSHA h) b); [|done]. by destruct (iPullOnly inp).
Qed.
End body.
End table.

(** ** The loop *)
Section loop.
Context (IsNormalString : string -> bool).
Implicit Types (inp : Input) (p q : string) (res : Result).
#[local] Abbreviation decide_path := (decide_path IsNormalString).
#[local] Abbreviation plan_path := (plan_path IsNormalString).
#[local] Abbreviation Plan := (Plan IsNormalString).

Lemma decide_cons_ne {B} (x p : string) l (a b : B) :
  p <> x -> (if decide (p ∈ x :: l) then a else b) = (if decide (p ∈ l) then a else b).
Proof.
  intros Hne. destruct (decide (p ∈ l)); [rewrite decide_True by (by right); done|].
  rewrite decide_False; [done|]. by intros [?|?]%elem_of_cons.
Qed.

Lemma foldl_plan_path inp l res :
  NoDup l -> (forall p, p ∈ l -> Refused (rNext res) !! p = None /\ Synced (rNext res) !! p = None) ->
  let r := foldl (plan_path inp) res l in
  rRebuild r = rRebuild res /\
  rActions r = rActions res ++ omap (fun p => oAction (decide_path inp p)) l /\
  (forall p, Synced (rNext r) !! p = if decide (p ∈ l) then oSynced (decide_path inp p) else Synced (rNext res) !! p) /\
  (forall p, Refused (rNext r) !! p = if decide (p ∈ l) then oRefused (decide_path inp p) else Refused (rNext res) !! p) /\
  rSkipped r = rSkipped res ++ filter (fun p => oSkipped (decide_path inp p)) l /\
  rWithheld r = rWithheld res + Z.of_nat (length (filter (fun p => oWithheld (decide_path inp p)) l)).
Proof.
  intros Hnd; revert res; induction Hnd as [|x l Hx Hnd IH]; intros res Hf; cbn [foldl].
  { cbn. rewrite !app_nil_r. repeat split; try lia; intros; by rewrite decide_False by apply not_elem_of_nil. }
  destruct (Hf x) as [Hfr Hfs]; [by left|].
  rewrite plan_path_outcome by done.
  destruct (IH (record_outcome res x (decide_path inp x))) as (-> & -> & Hs & Hr & -> & ->).
  { intros p Hp. assert (x <> p) by congruence. destruct (Hf p) as [??]; [by right|].
    unfold record_outcome; cbn. split; case_match; rewrite ?lookup_insert_ne by done; done. }
  unfold record_outcome in *; cbn [rRebuild rActions rNext Synced Refused rSkipped rWithheld] in *. split_and!.
  - done.
  - rewrite <- app_assoc. f_equal. cbn. by destruct (oAction _).
  - intros p. rewrite Hs. destruct (decide (p = x)) as [->|Hne].
    + rewrite decide_False by done. rewrite decide_True by left.
      destruct (oSynced _); by rewrite ?lookup_insert_eq.
    + rewrite (decide_cons_ne _ _ _ _ _ Hne).
      destruct (oSynced (decide_path inp x)); by rewrite ?lookup_insert_ne by done.
  - intros p. rewrite Hr. destruct (decide (p = x)) as [->|Hne].
    + rewrite decide_False by done. rewrite decide_True by left.
      destruct (oRefused _); by rewrite ?lookup_insert_eq.
    + rewrite (decide_cons_ne _ _ _ _ _ Hne).
      destruct (oRefused (decide_path inp x)); by rewrite ?lookup_insert_ne by done.
  - rewrite filter_cons. destruct (oSkipped _); [rewrite decide_True by done|rewrite decide_False by naive_solver];
      by rewrite <- ?app_assoc.
  - rewrite filter_cons. destruct (oWithheld _); [rewrite decide_True by done|rewrite decide_False by naive_solver];
      cbn; lia.
Qed.

Lemma elem_of_sortedKeys a b (c : gmap string Head) p :
  p ∈ sortedKeys a b c <-> is_Some (a !! p) \/ is_Some (b !! p) \/ is_Some (c !! p).
Proof.
  unfold sortedKeys. rewrite merge_sort_Permutation, elem_of_elements, !elem_of_union, !elem_of_dom. tauto.
Qed.

Lemma NoDup_sortedKeys a b (c : gmap string Head) : NoDup (sortedKeys a b c).
Proof. unfold sortedKeys. rewrite merge_sort_Permutation. apply NoDup_elements. Qed.

Lemma sorted_sortedKeys a b (c : gmap string Head) : StronglySorted String.le (sortedKeys a b c).
Proof. apply StronglySorted_merge_sort; apply _. Qed.

(** A path none of the three maps names decides nothing. *)
Lemma decide_path_absent inp p :
  p ∉ sortedKeys (iLocal inp) (Synced (iBaseline inp)) (iRemote inp) ->
  oAction (decide_path inp p) = None /\ oSynced (decide_path inp p) = None /\ oRefused (decide_path inp p) = None
  /\ oSkipped (decide_path inp p) = false.
Proof.
  rewrite elem_of_sortedKeys. intros H. unfold decide_path, keep, standing.
  destruct (iLocal inp !! p) eqn:E1; [naive_solver|]. destruct (iRemote inp !! p) eqn:E2; [naive_solver|].
  destruct (Synced _ !! p), (Refused _ !! p); cbn; done.
Qed.

Definition plan_keys inp := sortedKeys (iLocal inp) (Synced (iBaseline inp)) (iRemote inp).

(** The plan, field by field, from the table. *)
Lemma Plan_fields inp :
  rebuilds inp = false ->
  rRebuild (Plan inp) = false /\
  rActions (Plan inp) = omap (fun p => oAction (decide_path inp p)) (plan_keys inp) /\
  (forall p, Synced (rNext (Plan inp)) !! p = oSynced (decide_path inp p)) /\
  (forall p, Refused (rNext (Plan inp)) !! p = oRefused (decide_path inp p)) /\
  (forall p, p ∈ rSkipped (Plan inp) <-> oSkipped (decide_path inp p) = true).
Proof.
  intros Hr. unfold MemPlan.Plan. rewrite Hr.
  destruct (foldl_plan_path inp (plan_keys inp) empty_result) as (H1 & H2 & H3 & H4 & H5 & _).
  { apply NoDup_sortedKeys. } { intros p _. cbn [empty_result rNext Refused Synced]. by rewrite !lookup_empty. }
  fold (plan_keys inp). split_and!; [done|done|..]; intros p.
  - rewrite H3. case_decide as Hp; [done|]. by destruct (decide_path_absent inp p Hp) as (_ & -> & _).
  - rewrite H4. case_decide as Hp; [done|]. by destruct (decide_path_absent inp p Hp) as (_ & _ & -> & _).
  - rewrite H5. cbn [empty_result rSkipped app]. rewrite list_elem_of_filter.
    split; [by intros [?%Is_true_true _]|]. intros Hs. split; [by rewrite Hs|]. destruct (decide (p ∈ plan_keys inp)) as [|Hp]; [done|].
    destruct (decide_path_absent inp p Hp) as (_ & _ & _ & ?). congruence.
Qed.

(** One path's action, in either mode. *)
Definition path_action inp p : option Action :=
  if rebuilds inp then (fun h => pull p h false) <$> iRemote inp !! p else oAction (decide_path inp p).

Definition action_keys inp : list string :=
  if rebuilds inp then sortedKeys ∅ ∅ (iRemote inp) else plan_keys inp.

Lemma Plan_actions inp : rActions (Plan inp) = omap (path_action inp) (action_keys inp).
Proof.
  unfold path_action, action_keys. destruct (rebuilds inp) eqn:Hr.
  - unfold MemPlan.Plan. rewrite Hr; cbn [rActions].
    assert (Hk : forall p, p ∈ sortedKeys ∅ ∅ (iRemote inp) -> is_Some (iRemote inp !! p)).
    { intros p. rewrite elem_of_sortedKeys, !lookup_empty. by intros [[??]|[[??]|?]]. }
    induction (sortedKeys ∅ ∅ (iRemote inp)) as [|x l IH]; [done|]. cbn.
    destruct (Hk x) as [h Hh]; [by left|]. rewrite Hh; cbn. f_equal. apply IH. intros. apply Hk. by right.
  - by destruct (Plan_fields inp Hr) as (_ & -> & _).
Qed.

Lemma action_keys_complete inp p : is_Some (path_action inp p) -> p ∈ action_keys inp.
Proof.
  unfold path_action, action_keys. destruct (rebuilds inp) eqn:Hr; intros [a Ha].
  - rewrite elem_of_sortedKeys. right; right. by destruct (iRemote inp !! p).
  - destruct (decide (p ∈ plan_keys inp)) as [|Hp]; [done|].
    destruct (decide_path_absent inp p Hp) as (? & _). congruence.
Qed.

Lemma NoDup_action_keys inp : NoDup (action_keys inp).
Proof. unfold action_keys, plan_keys. destruct (rebuilds inp); apply NoDup_sortedKeys. Qed.

(** Unfold a path's decision into the rows of the table. *)
Ltac table :=
  intros; unfold MemPlan.decide_path, try_push, act, keep in *;
  repeat (case_match; simplify_eq/=; bool_prop);
  repeat match goal with
  | H : String.eqb _ _ = true |- _ => apply String.eqb_eq in H
  | H : String.eqb _ _ = false |- _ => apply String.eqb_neq in H
  end.

Lemma path_action_path inp p a : path_action inp p = Some a -> aPath a = p.
Proof.
  unfold path_action. destruct (rebuilds inp); [|table; done].
  destruct (iRemote inp !! p); cbn; [|done]. by intros [= <-].
Qed.

Lemma elem_of_actions inp a : a ∈ rActions (Plan inp) <-> path_action inp (aPath a) = Some a.
Proof.
  rewrite Plan_actions, list_elem_of_omap. split.
  - intros (p & _ & Hp). pose proof (path_action_path _ _ _ Hp) as <-. done.
  - intros H. exists (aPath a). split; [|done]. by apply action_keys_complete; rewrite H.
Qed.

Lemma action_paths_sublist inp : (aPath <$> rActions (Plan inp)) `sublist_of` action_keys inp.
Proof.
  rewrite Plan_actions. induction (action_keys inp) as [|x l IH]; [done|]. cbn.
  destruct (path_action inp x) as [a|] eqn:E; [|by constructor].
  cbn. rewrite (path_action_path _ _ _ E). by constructor.
Qed.

Lemma NoDup_action_paths inp : NoDup (aPath <$> rActions (Plan inp)).
Proof. eapply sublist_NoDup; [apply NoDup_action_keys|apply action_paths_sublist]. Qed.

(** A plan names each path at most once, and its actions are in ascending byte
    order of their paths: the order the settlement carries them out in is the plan's. *)
Theorem Plan_ordered inp :
  StronglySorted String.le (aPath <$> rActions (Plan inp)) /\ NoDup (aPath <$> rActions (Plan inp)).
Proof.
  split; [|apply NoDup_action_paths]. apply (StronglySorted_sublist _ _ _ (action_paths_sublist inp)).
  unfold action_keys, plan_keys. destruct (rebuilds inp); apply sorted_sortedKeys.
Qed.

(** The actions a sync may take, as rules on what the directory, the baseline and the
    store hold at the path. *)
Inductive planned inp p : Action -> Prop :=
| planned_pull h :
    iRemote inp !! p = Some h ->
    iLocal inp !! p <> Some (hSHA h) -> Synced (iBaseline inp) !! p <> Some (hSHA h) ->
    planned inp p (pull p h (negb (bool_decide (iLocal inp !! p = Synced (iBaseline inp) !! p))))
| planned_create l :
    iPullOnly inp = false -> iLocal inp !! p = Some l -> iRemote inp !! p = None ->
    Synced (iBaseline inp) !! p <> Some l ->
    l <> "" -> Refused (iBaseline inp) !! p <> Some l -> ValidatePath IsNormalString p = None ->
    planned inp p (push_create p l)
| planned_update l h :
    iPullOnly inp = false -> iLocal inp !! p = Some l -> iRemote inp !! p = Some h ->
    l <> hSHA h -> Synced (iBaseline inp) !! p = Some (hSHA h) ->
    l <> "" -> Refused (iBaseline inp) !! p <> Some l ->
    (hID h = "" -> ValidatePath IsNormalString p = None) ->
    planned inp p (push_update p h (hSHA h) l)
| planned_delete h :
    iPullOnly inp = false -> iLocal inp !! p = None -> iRemote inp !! p = Some h ->
    Synced (iBaseline inp) !! p = Some (hSHA h) ->
    planned inp p (delete_remote p h (hSHA h))
| planned_remove b :
    iLocal inp !! p = Some b -> Synced (iBaseline inp) !! p = Some b -> iRemote inp !! p = None ->
    planned inp p (remove_local p).

Lemma standing_iff inp p l :
  iLocal inp !! p = Some l ->
  String.eqb (default "" (standing inp p)) l = false <-> l <> "" /\ Refused (iBaseline inp) !! p <> Some l.
Proof.
  unfold standing. intros Hl. rewrite Hl, String.eqb_neq.
  destruct (Refused _ !! p) as [r|]; cbn; [|naive_solver].
  destruct (String.eqb_spec r l); cbn; naive_solver.
Qed.

Lemma try_push_action inp p l create keep a a' :
  iLocal inp !! p = Some l ->
  oAction (try_push IsNormalString inp p l create keep a) = Some a' <->
  a' = a /\ iPullOnly inp = false /\ (l <> "" /\ Refused (iBaseline inp) !! p <> Some l) /\
  (create = true -> ValidatePath IsNormalString p = None).
Proof.
  intros Hl. rewrite <- (standing_iff _ _ _ Hl). unfold try_push.
  destruct (iPullOnly inp), (String.eqb _ l), create; cbn;
    try (case_bool_decide; cbn); naive_solver.
Qed.

Lemma planned_pull_flag inp p h c :
  iRemote inp !! p = Some h -> iLocal inp !! p <> Some (hSHA h) ->
  Synced (iBaseline inp) !! p <> Some (hSHA h) ->
  (c = false <-> iLocal inp !! p = Synced (iBaseline inp) !! p) ->
  planned inp p (pull p h c).
Proof.
  intros H1 H2 H3 Hc. replace c with (negb (bool_decide (iLocal inp !! p = Synced (iBaseline inp) !! p)));
    [by apply planned_pull|]. destruct c; case_bool_decide; naive_solver.
Qed.

Lemma decide_path_sound inp p a : oAction (decide_path inp p) = Some a -> planned inp p a.
Proof.
  unfold MemPlan.decide_path.
  destruct (iLocal inp !! p) as [l|] eqn:El, (Synced (iBaseline inp) !! p) as [b|] eqn:Eb,
    (iRemote inp !! p) as [h|] eqn:Eh; try done.
  - destruct (String.eqb_spec l (hSHA h)); [done|]. case_bool_decide; simplify_eq.
    + rewrite try_push_action by done. intros (-> & ? & [? ?] & Hv). constructor; auto.
      by rewrite String.eqb_eq in Hv.
    + cbn. intros [= <-]. apply planned_pull_flag; rewrite ?El, ?Eb; [congruence..|].
      rewrite negb_false_iff, bool_decide_eq_true. naive_solver.
  - destruct (String.eqb_spec l b); [intros [= <-]; subst; by eapply planned_remove|].
    rewrite try_push_action by done. intros (-> & ? & [? ?] & Hv). constructor; naive_solver.
  - destruct (String.eqb_spec l (hSHA h)); [done|]. case_bool_decide; simplify_eq.
    cbn. intros [= <-]. apply planned_pull_flag; rewrite ?El, ?Eb; naive_solver.
  - rewrite try_push_action by done. intros (-> & ? & [? ?] & Hv). constructor; naive_solver.
  - destruct (String.eqb_spec (hSHA h) b) as [<-|].
    + destruct (iPullOnly inp) eqn:?; [done|]. intros [= <-]. by constructor.
    + intros [= <-]. apply planned_pull_flag; rewrite ?El, ?Eb; naive_solver.
  - intros [= <-]. apply planned_pull_flag; rewrite ?El, ?Eb; naive_solver.
Qed.

Lemma decide_path_complete inp p a : planned inp p a -> oAction (decide_path inp p) = Some a.
Proof.
  unfold MemPlan.decide_path.
  intros [h Hr Hl Hs|l Ho Hl Hr Hb Hn Hf Hv|l h Ho Hl Hr Hlh Hb Hn Hf Hv|h Ho Hl Hr Hb|b Hl Hb Hr]; rewrite ?Hl, ?Hr, ?Hb.
  - destruct (iLocal inp !! p) as [l|] eqn:El; [rewrite (proj2 (String.eqb_neq l (hSHA h))) by congruence|].
    + destruct (Synced _ !! p) as [b|] eqn:Eb; rewrite ?bool_decide_false by done; [|done].
      unfold act; cbn. do 3 f_equal. by apply bool_decide_ext.
    + destruct (Synced _ !! p) as [b|] eqn:Eb; [|done].
      rewrite (proj2 (String.eqb_neq (hSHA h) b)) by congruence. done.
  - destruct (Synced _ !! p) as [b|] eqn:Eb; [rewrite (proj2 (String.eqb_neq l b)) by congruence|];
      by rewrite try_push_action by done.
  - rewrite (proj2 (String.eqb_neq l (hSHA h))), bool_decide_true by done.
    rewrite try_push_action by done. by rewrite String.eqb_eq.
  - by rewrite String.eqb_refl, Ho.
  - by rewrite String.eqb_refl.
Qed.

(** What the plan records without an action is what the store holds. *)
Lemma decide_path_synced inp p s :
  oSynced (decide_path inp p) = Some s ->
  oAction (decide_path inp p) = None /\ exists h, iRemote inp !! p = Some h /\ hSHA h = s.
Proof.
  unfold MemPlan.decide_path.
  assert (Hp : forall l c k a, oSynced (try_push IsNormalString inp p l c k a) = Some s ->
                 oAction (try_push IsNormalString inp p l c k a) = None /\ k = Some s).
  { intros l c k a. unfold try_push. destruct (iPullOnly inp); [done|].
    destruct (String.eqb _ l); [done|]. by destruct (c && _). }
  destruct (iLocal inp !! p) as [l|] eqn:El, (Synced (iBaseline inp) !! p) as [b|] eqn:Eb,
    (iRemote inp !! p) as [h|] eqn:Eh; try done.
  - destruct (String.eqb l (hSHA h)); [naive_solver|]. case_bool_decide; [|done]. intros [? ?]%Hp. naive_solver.
  - destruct (String.eqb l b); [done|]. intros [? ?]%Hp. done.
  - destruct (String.eqb l (hSHA h)); [naive_solver|]. done.
  - intros [? ?]%Hp. done.
  - destruct (String.eqb_spec (hSHA h) b); [|done]. destruct (iPullOnly inp); naive_solver.
Qed.

Lemma Plan_synced inp p s :
  Synced (rNext (Plan inp)) !! p = Some s ->
  (p ∉ (aPath <$> rActions (Plan inp))) /\ exists h, iRemote inp !! p = Some h /\ hSHA h = s.
Proof.
  destruct (rebuilds inp) eqn:Hr.
  { unfold MemPlan.Plan at 1. rewrite Hr. cbn. by rewrite lookup_empty. }
  destruct (Plan_fields inp Hr) as (_ & _ & -> & _). intros [Ha Hh]%decide_path_synced. split; [|done].
  intros (a & -> & Hin)%list_elem_of_fmap. apply elem_of_actions in Hin.
  unfold path_action in Hin. rewrite Hr in Hin. congruence.
Qed.

Lemma actions_planned inp a :
  a ∈ rActions (Plan inp) ->
  (exists h, iRemote inp !! aPath a = Some h /\ a = pull (aPath a) h false) \/ planned inp (aPath a) a.
Proof.
  rewrite elem_of_actions. unfold path_action. destruct (rebuilds inp).
  - rewrite fmap_Some. naive_solver.
  - right. by apply decide_path_sound.
Qed.

(** The plan is the reconciliation table, rule for rule.  An action is in the plan
    exactly when its rule applies at its path ([planned]): a file is removed only when
    the store dropped the memory and the file still holds the baseline's bytes; a
    memory is deleted or updated only while the store holds the digest the action is
    conditioned on, and never by a pull-only sync; a create is pushed only at a legal
    path the store does not hold, and never bytes the store refused; a pull happens
    where the store's head is news to directory and baseline, flagged as a conflict
    exactly when the directory had changed the file.  A wiped or unmarked empty
    directory is the exception: every memory is pulled and nothing else happens. *)
Theorem Plan_table inp a :
  a ∈ rActions (Plan inp) <->
  if rebuilds inp
  then exists h, iRemote inp !! aPath a = Some h /\ a = pull (aPath a) h false
  else planned inp (aPath a) a.
Proof.
  rewrite elem_of_actions. unfold path_action. destruct (rebuilds inp).
  - rewrite fmap_Some. naive_solver.
  - split; [apply decide_path_sound|apply decide_path_complete].
Qed.
End loop.

(** ** Carrying a plan out

    What the doc of [Result] asks of an applier when the store accepts every action:
    a pull writes the file and takes the store's digest, a push takes the directory's,
    and a deletion on either side drops the path. [mint] names the memories a create
    makes. *)
Section settle.
Context (IsNormalString : string -> bool) (mint : string -> string).
Implicit Types (inp : Input) (p : string).

Definition land inp (a : Action) : Input :=
  let '(MkInput l (MkBaseline s f) r po um) := inp in
  let p := aPath a in
  match aKind a with
  | Pull => MkInput (<[p := aRemoteSHA a]> l) (MkBaseline (<[p := aRemoteSHA a]> s) f) r po um
  | Push => MkInput l (MkBaseline (<[p := aLocalSHA a]> s) f)
              (<[p := MkHead (if String.eqb (aID a) "" then mint p else aID a) (aLocalSHA a)]> r) po um
  | DeleteRemote => MkInput l (MkBaseline s f) (delete p r) po um
  | RemoveLocal => MkInput (delete p l) (MkBaseline s f) r po um
  end.

(** The next sync's input: the marker stands after a sync, so the directory is marked. *)
Definition settled inp : Input :=
  let res := Plan IsNormalString inp in
  let inp' := foldl land (MkInput (iLocal inp) (rNext res) (iRemote inp) (iPullOnly inp) false) (rActions res) in
  inp'.

Definition view inp p : option string * option string * option Head :=
  (iLocal inp !! p, Synced (iBaseline inp) !! p, iRemote inp !! p).

Definition land_at (a : option Action) p (v : option string * option string * option Head) :=
  let '(l, s, r) := v in
  match a with
  | None => v
  | Some a =>
      match aKind a with
      | Pull => (Some (aRemoteSHA a), Some (aRemoteSHA a), r)
      | Push => (l, Some (aLocalSHA a), Some (MkHead (if String.eqb (aID a) "" then mint p else aID a) (aLocalSHA a)))
      | DeleteRemote => (l, s, None)
      | RemoveLocal => (None, s, r)
      end
  end.

Lemma land_view inp a p :
  view (land inp a) p = if decide (aPath a = p) then land_at (Some a) p (view inp p) else view inp p.
Proof.
  destruct inp as [l [s f] r po um]. unfold land, view, land_at.
  destruct (aKind a); cbn; case_decide as Hp; subst; cbn;
    rewrite ?lookup_insert_eq, ?lookup_delete_eq, ?lookup_insert_ne, ?lookup_delete_ne by done; done.
Qed.

Lemma land_rest inp a :
  Refused (iBaseline (land inp a)) = Refused (iBaseline inp) /\
  iPullOnly (land inp a) = iPullOnly inp /\ iUnmarked (land inp a) = iUnmarked inp.
Proof. destruct inp as [l [s f] r po um]. unfold land. by destruct (aKind a). Qed.

Lemma foldl_land f keys inp p :
  NoDup keys -> (forall q a, f q = Some a -> aPath a = q) ->
  view (foldl land inp (omap f keys)) p =
    (if decide (p ∈ keys) then land_at (f p) p (view inp p) else view inp p) /\
  Refused (iBaseline (foldl land inp (omap f keys))) = Refused (iBaseline inp) /\
  iPullOnly (foldl land inp (omap f keys)) = iPullOnly inp /\
  iUnmarked (foldl land inp (omap f keys)) = iUnmarked inp.
Proof.
  intros Hnd Hf. revert inp. induction Hnd as [|q keys Hq Hnd IH]; intros inp.
  { cbn. by rewrite decide_False by apply not_elem_of_nil. }
  cbn. destruct (f q) as [a|] eqn:E; cbn.
  - destruct (IH (land inp a)) as (-> & -> & -> & ->). destruct (land_rest inp a) as (-> & -> & ->).
    rewrite land_view. rewrite (Hf _ _ E). split; [|done].
    destruct (decide (q = p)) as [->|Hne].
    + by rewrite decide_False, decide_True, E by (done || left).
    + by rewrite decide_cons_ne by done.
  - destruct (IH inp) as (-> & -> & -> & ->). split; [|done].
    destruct (decide (q = p)) as [->|Hne].
    + rewrite decide_False, decide_True, E by (done || left). unfold view; done.
    + by rewrite decide_cons_ne by done.
Qed.

Lemma settled_view inp p :
  view (settled inp) p =
    land_at (path_action IsNormalString inp p) p
      (iLocal inp !! p, Synced (rNext (Plan IsNormalString inp)) !! p, iRemote inp !! p) /\
  Refused (iBaseline (settled inp)) = Refused (rNext (Plan IsNormalString inp)) /\
  iPullOnly (settled inp) = iPullOnly inp /\ iUnmarked (settled inp) = false.
Proof.
  unfold settled. rewrite Plan_actions.
  edestruct (foldl_land (path_action IsNormalString inp) (action_keys inp)) as (-> & -> & -> & ->).
  { apply NoDup_action_keys. } { apply path_action_path. }
  split; [|done]. unfold view; cbn [iLocal iBaseline iRemote]. case_decide as Hp; [done|].
  destruct (path_action IsNormalString inp p) eqn:E; [|done].
  destruct Hp. by apply (action_keys_complete IsNormalString); rewrite E.
Qed.

#[local] Abbreviation decide_path := (decide_path IsNormalString).

(** Directory, baseline and store hold the same digest, or nothing. *)
Definition agreed (v : option string * option string * option Head) : Prop :=
  let '(l, s, r) := v in l = hSHA <$> r /\ s = l.

Lemma try_push_skipped inp p l create kept a :
  iPullOnly inp = false -> iLocal inp !! p = Some l ->
  let o := try_push IsNormalString inp p l create kept a in
  oSkipped o = false /\ oAction o = Some a /\ oSynced o = None \/
  oSkipped o = true /\ oAction o = None /\ (l = "" \/ oRefused o = Some l) /\
    (oSynced o = kept \/ create = true /\ oSynced o = None).
Proof.
  intros Ho Hl. unfold try_push. rewrite Ho.
  destruct (String.eqb_spec (default "" (standing inp p)) l) as [Hs|Hs]; cbn.
  - right. split_and!; auto. destruct (standing inp p); cbn in Hs; subst; auto.
  - destruct create; cbn; [|by left]. case_bool_decide; cbn; [by left|]. right; split_and!; auto.
Qed.

Lemma decide_path_lands inp p :
  iPullOnly inp = false -> oSkipped (decide_path inp p) = false ->
  agreed (land_at (oAction (decide_path inp p)) p
            (iLocal inp !! p, oSynced (decide_path inp p), iRemote inp !! p)).
Proof.
  intros Ho. unfold MemPlan.decide_path.
  destruct (iLocal inp !! p) as [l|] eqn:El, (Synced (iBaseline inp) !! p) as [b|] eqn:Eb,
    (iRemote inp !! p) as [h|] eqn:Eh; try done; rewrite ?Ho.
  - destruct (String.eqb_spec l (hSHA h)); [cbn; subst; done|]. case_bool_decide; [|done].
    destruct (try_push_skipped inp p l (String.eqb (hID h) "") (Some b) (push_update p h (hSHA h) l))
      as [(-> & -> & ->)|(-> & _)]; done.
  - destruct (String.eqb l b); [done|].
    destruct (try_push_skipped inp p l true None (push_create p l)) as [(-> & -> & ->)|(-> & _)]; done.
  - destruct (String.eqb_spec l (hSHA h)); [cbn; subst; done|]. done.
  - destruct (try_push_skipped inp p l true None (push_create p l)) as [(-> & -> & ->)|(-> & _)]; done.
  - destruct (String.eqb (hSHA h) b); done.
Qed.

Lemma decide_path_skips inp p :
  iPullOnly inp = false -> oSkipped (decide_path inp p) = true ->
  oAction (decide_path inp p) = None /\
  exists l, iLocal inp !! p = Some l /\ (l = "" \/ oRefused (decide_path inp p) = Some l) /\
    (iRemote inp !! p = None /\ oSynced (decide_path inp p) = None \/
     exists h, iRemote inp !! p = Some h /\ l <> hSHA h /\
       (hID h = "" \/ oSynced (decide_path inp p) = Some (hSHA h))).
Proof.
  intros Ho. unfold MemPlan.decide_path.
  destruct (iLocal inp !! p) as [l|] eqn:El, (Synced (iBaseline inp) !! p) as [b|] eqn:Eb,
    (iRemote inp !! p) as [h|] eqn:Eh; try done; rewrite ?Ho.
  - destruct (String.eqb_spec l (hSHA h)); [done|]. case_bool_decide; simplify_eq; [|done].
    destruct (try_push_skipped inp p l (String.eqb (hID h) "") (Some (hSHA h)) (push_update p h (hSHA h) l))
      as [(-> & _)|(_ & -> & ? & [->|[?%String.eqb_eq ->]])]; try done; eauto 10.
  - destruct (String.eqb l b); [done|].
    destruct (try_push_skipped inp p l true None (push_create p l))
      as [(-> & _)|(_ & -> & ? & [->|[_ ->]])]; try done; eauto 10.
  - destruct (String.eqb l (hSHA h)); done.
  - destruct (try_push_skipped inp p l true None (push_create p l))
      as [(-> & _)|(_ & -> & ? & [->|[_ ->]])]; try done; eauto 10.
  - destruct (String.eqb (hSHA h) b); done.
Qed.

Lemma agreed_idle inp p : agreed (view inp p) -> oAction (decide_path inp p) = None.
Proof.
  unfold agreed, view. intros [Hl Hs]. destruct (oAction _) eqn:E; [|done].
  apply decide_path_sound in E. destruct E; simplify_option_eq; naive_solver.
Qed.

Lemma rebuild_fields inp :
  rebuilds inp = true ->
  iLocal inp = ∅ /\ Synced (rNext (Plan IsNormalString inp)) = ∅ /\ rSkipped (Plan IsNormalString inp) = [].
Proof.
  intros Hr. unfold Plan. rewrite Hr. split; [|done].
  unfold rebuilds in Hr. bool_prop. apply map_size_empty_inv, Nat.eqb_eq. done.
Qed.

(** After a sync that may write, every path agrees unless its push was refused. *)
Lemma settled_path inp p :
  iPullOnly inp = false ->
  agreed (view (settled inp) p) \/
  p ∈ rSkipped (Plan IsNormalString inp) /\ rebuilds inp = false /\ oSkipped (decide_path inp p) = true /\
  view (settled inp) p = (iLocal inp !! p, oSynced (decide_path inp p), iRemote inp !! p).
Proof.
  intros Ho. destruct (settled_view inp p) as (-> & _). unfold path_action.
  destruct (rebuilds inp) eqn:Hr.
  - left. destruct (rebuild_fields inp Hr) as (-> & -> & _). rewrite !lookup_empty.
    by destruct (iRemote inp !! p).
  - destruct (Plan_fields IsNormalString inp Hr) as (_ & _ & -> & _ & Hsk).
    destruct (oSkipped (decide_path inp p)) eqn:Es.
    + right. destruct (decide_path_skips inp p Ho Es) as (-> & _). by rewrite Hsk.
    + left. by apply decide_path_lands.
Qed.

Lemma settled_idle inp p :
  iPullOnly inp = false -> (forall q h, iRemote inp !! q = Some h -> hID h <> "") ->
  oAction (decide_path (settled inp) p) = None.
Proof.
  intros Ho Hid. destruct (settled_path inp p Ho) as [Ha|(_ & Hr & Hs & Hv)]; [by apply agreed_idle|].
  destruct (oAction _) as [a|] eqn:E; [|done]. apply decide_path_sound in E. exfalso.
  destruct (settled_view inp p) as (_ & Hf & _).
  destruct (Plan_fields IsNormalString inp Hr) as (_ & _ & _ & HR & _).
  destruct (decide_path_skips inp p Ho Hs) as (_ & l & Hl & Hlr & Hrem).
  injection Hv as Hv1 Hv2 Hv3.
  assert (Hre : forall l', iLocal (settled inp) !! p = Some l' -> l' <> "" ->
                  Refused (iBaseline (settled inp)) !! p <> Some l' -> False).
  { intros l' Hl' Hne. rewrite Hf, HR. destruct Hlr as [->|Hlr]; congruence. }
  assert (Hsy : forall h, iRemote inp !! p = Some h -> oSynced (decide_path inp p) = Some (hSHA h)).
  { intros h Hh. destruct Hrem as [[? ?]|(h' & ? & ? & [?|?])]; [congruence| |congruence].
    simplify_eq. by destruct (Hid p h'). }
  destruct E as [h|l' ? ?|l' h ? ?|h|b]; eauto; try congruence.
  - rewrite (Hsy h) in Hv2; congruence.
  - destruct Hrem as [[? ?]|(h' & ? & _)]; congruence.
Qed.

Lemma settled_no_rebuild inp :
  iPullOnly inp = false -> rebuilds (settled inp) = false.
Proof.
  intros Ho. destruct (rebuilds (settled inp)) eqn:Hr; [exfalso|done].
  destruct (rebuild_fields _ Hr) as (Hl & _). unfold rebuilds in Hr.
  destruct (settled_view inp "") as (_ & _ & _ & Hu). rewrite Hu, orb_false_r in Hr. bool_prop.
  assert (Synced (iBaseline (settled inp)) = ∅) as E.
  { apply map_empty. intros p. destruct (settled_path inp p Ho) as [Ha|(_ & Hr' & Hs & Hv)].
    - unfold agreed, view in Ha. rewrite Hl, lookup_empty in Ha. naive_solver.
    - destruct (decide_path_skips inp p Ho Hs) as (_ & l & Hloc & _). injection Hv as Hv1 _ _.
      rewrite Hl, lookup_empty in Hv1. congruence. }
  rewrite E, map_size_empty in *. done.
Qed.

(** C33: a sync converges.  When a sync that may write to the store has its whole plan
    carried out, the directory, the baseline and the store hold the same digest at
    every path except the ones whose push was refused, and the next sync of that state
    has nothing to do: no action, and no rebuild. *)
Theorem Plan_converges inp :
  iPullOnly inp = false -> (forall p h, iRemote inp !! p = Some h -> hID h <> "") ->
  (forall p, p ∉ rSkipped (Plan IsNormalString inp) -> agreed (view (settled inp) p)) /\
  rActions (Plan IsNormalString (settled inp)) = [] /\ rRebuild (Plan IsNormalString (settled inp)) = false.
Proof.
  intros Ho Hid. pose proof (settled_no_rebuild inp Ho) as Hr. split_and!.
  - intros p Hp. by destruct (settled_path inp p Ho) as [?|(? & _)].
  - apply elem_of_nil_inv. intros a. rewrite elem_of_actions. unfold path_action. rewrite Hr.
    by rewrite settled_idle.
  - by destruct (Plan_fields IsNormalString (settled inp) Hr) as (-> & _).
Qed.
End settle.

(** A memory edited in the sandbox, one edited in the store, one deleted in each, one
    created here: a sync with every kind of action. *)
Definition sync_example : Input :=
  MkInput (list_to_map [("/a.md", "a1"); ("/b.md", "b0"); ("/d.md", "d0"); ("/e.md", "e1")])
    (MkBaseline (list_to_map [("/a.md", "a0"); ("/b.md", "b0"); ("/c.md", "c0"); ("/d.md", "d0")]) ∅)
    (list_to_map [("/a.md", MkHead "mem_a" "a0"); ("/b.md", MkHead "mem_b" "b1"); ("/c.md", MkHead "mem_c" "c0")])
    false false.

Lemma Plan_converges_witness :
  map (fun a => (aKind a, aPath a)) (rActions (Plan (fun _ => true) sync_example)) =
    [(Push, "/a.md"); (Pull, "/b.md"); (DeleteRemote, "/c.md"); (RemoveLocal, "/d.md"); (Push, "/e.md")] /\
  rActions (Plan (fun _ => true) (settled (fun _ => true) (fun p => p) sync_example)) = [].
Proof.
  split; [vm_compute; reflexivity|].
  apply (Plan_converges (fun _ => true) (fun p => p) sync_example); [reflexivity|].
  intros p h Hp. cbn in Hp.
  apply lookup_insert_Some in Hp as [[_ <-]|[_ Hp]]; [done|].
  apply lookup_insert_Some in Hp as [[_ <-]|[_ Hp]]; [done|].
  apply lookup_insert_Some in Hp as [[_ <-]|[_ Hp]]; [done|].
  by rewrite lookup_empty in Hp.
Defined.
