(* ===== verification/MemSettle.v ===== *)
(** * MemSettle: the settlement of a memory sync, internal/executor/memory.go.

    The read phase's choice of bytes to carry ([readChanged]), the settlement inside
    the run's transaction ([settleStore], [pushMemory], [insertSessionVersion],
    [settleMemory]) and the file writes the apply phase makes of it ([applyMemory]).
    The database is the three tables the code touches (migrations 0028 and 0029): a
    statement is a function on them, an error rolls the store's savepoint back.
    Parameters: the sandbox's file reads, SHA-256, Unicode normalization, the random bytes
    of fresh ids and the database's clock. *)
From Stdlib Require Import Ascii Lia.
From S2P Require Import Prelude GoStrings Ids Memsync MemPlan.

(** ** Tables *)
(** Who wrote a row: a key, a person, or a session. *)
Inductive actor := SessionActor (sid : string) | ApiActor (key : string) | UserActor (user : string).
#[global] Instance actor_eq_dec : EqDecision actor.
Proof. solve_decision. Defined.

Record store := MkStore {
  s_name : string; s_description : string; s_metadata : gmap string string;
  s_created_by : option string; s_created : Z; s_updated : Z; s_archived : option Z }.

Record memory := MkMemory {
  m_store : string; m_path : string; m_content : string; m_sha : string; m_size : Z; m_version : string;
  m_created : Z; m_updated : Z }.

Inductive operation := created | modified | deleted.
#[global] Instance operation_eq_dec : EqDecision operation.
Proof. solve_decision. Defined.

Record version := MkVersion {
  v_store : string; v_memory : string; v_operation : operation; v_path : option string;
  v_content : option string; v_sha : option string; v_size : option Z; v_created_by : option actor;
  v_created : Z; v_redacted : option (Z * option actor) }.

(** [db_fresh] counts the ids drawn and the clock readings taken. *)
Record db := MkDb {
  db_stores : gmap string store; db_memories : gmap string memory;
  db_versions : gmap string version; db_fresh : nat }.

(** What a transaction is given: the random bytes of its ids and the readings of the
    database's clock, in the order they are asked for. *)
Record supply := MkSupply { bytes :> nat -> list Z; clock : nat -> Z }.

Inductive settle_error := ErrNoContent | ErrNoBytes | ErrDuplicateKey.

(** ** The sync of one store *)
Inductive access := read_write | read_only.
#[global] Instance access_eq_dec : EqDecision access.
Proof. solve_decision. Defined.

Record memoryRef := MkRef { ref_store : string; ref_mount : string; ref_access : access }.

(** [path.Join] of two elements. *)
Definition path_Join (a b : string) : string := path_Clean (a +:+ "/" +:+ b).

Definition MemoryMountRoot : string := "/mnt/memory".
Definition memorySyncDir : string := MemoryMountRoot +:+ "/.sync".
Definition memoryFileMode : Z := 438.

Definition baselinePath (storeID : string) : string := path_Join memorySyncDir storeID.

Record FileWrite := MkWrite { fw_path : string; fw_data : string; fw_mode : Z }.

Record syncCounts := MkCounts { pulled : Z; pushed : Z; c_deleted : Z; conflict : Z; refused : Z; withheld : Z }.

Record storeSync := MkSync {
  ref : memoryRef; raw : string; markerOK : bool; markerAbsent : bool;
  local : gmap string string; baseline : Baseline; contents : gmap string string;
  skipped : bool; restamp : bool;
  writes : list FileWrite; removals : list string; next : Baseline; counts : syncCounts }.

Section settle.
Context (IsNormalString : string -> bool) (sha256hex : string -> string) (rnd : supply).

(** *** Read phase *)
Inductive read_result := ReadOk (data : string) | ErrFileTooLarge | ErrRead.

Definition set_local (st : storeSync) l := MkSync (ref st) (raw st) (markerOK st) (markerAbsent st) l (baseline st)
  (contents st) (skipped st) (restamp st) (writes st) (removals st) (next st) (counts st).
Definition refuse (st : storeSync) p sha := MkSync (ref st) (raw st) (markerOK st) (markerAbsent st) (local st)
  (MkBaseline (Synced (baseline st)) (<[p := sha]> (Refused (baseline st))))
  (contents st) (skipped st) (restamp st) (writes st) (removals st) (next st) (counts st).
Definition set_content (st : storeSync) p data := MkSync (ref st) (raw st) (markerOK st) (markerAbsent st) (local st)
  (baseline st) (<[p := data]> (contents st))
  (skipped st) (restamp st) (writes st) (removals st) (next st) (counts st).

Definition clear_contents (st : storeSync) := MkSync (ref st) (raw st) (markerOK st) (markerAbsent st) (local st)
  (baseline st) ∅ (skipped st) (restamp st) (writes st) (removals st) (next st) (counts st).

Definition changed (st : storeSync) (p sha : string) : bool :=
  negb (String.eqb (map_get (Synced (baseline st)) p) sha) && negb (String.eqb (map_get (Refused (baseline st)) p) sha).

Inductive read_error := ErrTooManyChanged | ErrReadFile.

(** One turn of the loop that reads the changed files. *)
Definition read_one (readCapped : string -> read_result) (st : storeSync) (kv : string * string)
  : result read_error storeSync :=
  let '(p, sha) := kv in
  if negb (changed st p sha) then Ok st
  else match readCapped p with
       | ErrFileTooLarge => Ok (refuse st p sha)
       | ErrRead => Err ErrReadFile
       | ReadOk data =>
           let sum := sha256hex data in
           let st := if negb (String.eqb sum sha) then set_local st (<[p := sum]> (local st)) else st in
           if bool_decide (ValidateContent data = None) then Ok (set_content st p data)
           else Ok (refuse st p sum)
       end.

Definition readChanged (readCapped : string -> read_result) (st : storeSync) : result read_error storeSync :=
  let st := clear_contents st in
  let files := map_to_list (local st) in
  if MaxMemoriesPerStore <? Z.of_nat (length (filter (fun kv => changed st kv.1 kv.2) files))
  then Err ErrTooManyChanged
  else fold_result (read_one readCapped) st files.

(** *** Statements *)
Definition NewMemoryID (d : db) : string * db :=
  (NewID PrefixMemory (rnd (db_fresh d)), MkDb (db_stores d) (db_memories d) (db_versions d) (S (db_fresh d))).
Definition NewVersionID (d : db) : string * db :=
  (NewID PrefixMemoryVersion (rnd (db_fresh d)), MkDb (db_stores d) (db_memories d) (db_versions d) (S (db_fresh d))).

Definition set_memories (d : db) m := MkDb (db_stores d) m (db_versions d) (db_fresh d).

(** [statement_timestamp()] of a statement, or [clock_timestamp()] within it. *)
Definition now (d : db) : Z * db :=
  (clock rnd (db_fresh d), MkDb (db_stores d) (db_memories d) (db_versions d) (S (db_fresh d))).

Definition insertSessionVersion (d : db) (versionID storeID memoryID : string) (op : operation) (p : string)
    (content : option string) (sid : string) : result settle_error db :=
  let '(at_, d) := now d in
  match db_versions d !! versionID with
  | Some _ => Err ErrDuplicateKey
  | None =>
      Ok (MkDb (db_stores d) (db_memories d)
            (<[versionID := MkVersion storeID memoryID op (Some p) content (sha256hex <$> content) (slen <$> content)
                              (Some (SessionActor sid)) at_ None]>
               (db_versions d)) (db_fresh d))
  end.

(** [path = $2 OR left(path, length($2)+1) = $2 || '/' OR left($2, length(path)+1) = path || '/'] *)
Definition occupies (path other : string) : bool :=
  String.eqb other path || HasPrefix other (path +:+ "/") || HasPrefix path (other +:+ "/").

Definition store_memories (d : db) (storeID : string) : list (string * memory) :=
  filter (fun kv => m_store kv.2 = storeID) (map_to_list (db_memories d)).

(** [SELECT EXISTS (...)]: some memory of the store occupies the path. *)
Definition occupied (d : db) (storeID path : string) : bool :=
  existsb (fun kv => occupies path (m_path kv.2)) (store_memories d storeID).

Inductive push_outcome := PushOK | PushConflict | PushOverCap.

(** [pushMemory]: the outcome, the tables and [held] after it. *)
Definition pushMemory (d : db) (storeID : string) (a : Action) (data sid : string) (held : Z)
  : result settle_error (push_outcome * db * Z) :=
  let '(versionID, d) := NewVersionID d in
  if String.eqb (aID a) "" then
    if occupied d storeID (aPath a) then Ok (PushConflict, d, held)
    else if MaxMemoriesPerStore <=? held then Ok (PushOverCap, d, held)
    else
      let '(memoryID, d) := NewMemoryID d in
      (* ON CONFLICT DO NOTHING: the primary key, or UNIQUE (memory_store_id, path) *)
      if bool_decide (is_Some (db_memories d !! memoryID))
         || existsb (fun kv => String.eqb (m_path kv.2) (aPath a)) (store_memories d storeID)
      then Ok (PushConflict, d, held)
      else
        let '(at_, d) := now d in
        let d := set_memories d
          (<[memoryID := MkMemory storeID (aPath a) data (aLocalSHA a) (slen data) versionID at_ at_]> (db_memories d)) in
        try d <- insertSessionVersion d versionID storeID memoryID created (aPath a) (Some data) sid;
        Ok (PushOK, d, held + 1)
  else
    match db_memories d !! aID a with
    | Some m =>
        if String.eqb (m_sha m) (aBaselineSHA a) then
          let '(at_, d) := now d in
          let d := set_memories d
            (<[aID a := MkMemory (m_store m) (m_path m) data (aLocalSHA a) (slen data) versionID (m_created m) at_]>
               (db_memories d)) in
          try d <- insertSessionVersion d versionID storeID (aID a) modified (aPath a) (Some data) sid;
          Ok (PushOK, d, held)
        else Ok (PushConflict, d, held)
    | None => Ok (PushConflict, d, held)
    end.

(** *** One action *)
Definition set_next (st : storeSync) p sha := MkSync (ref st) (raw st) (markerOK st) (markerAbsent st) (local st) (baseline st)
  (contents st) (skipped st) (restamp st) (writes st) (removals st)
  (MkBaseline (<[p := sha]> (Synced (next st))) (Refused (next st))) (counts st).
Definition add_write (st : storeSync) w := MkSync (ref st) (raw st) (markerOK st) (markerAbsent st) (local st) (baseline st)
  (contents st) (skipped st) (restamp st) (writes st ++ [w]) (removals st) (next st) (counts st).
Definition add_removal (st : storeSync) p := MkSync (ref st) (raw st) (markerOK st) (markerAbsent st) (local st) (baseline st)
  (contents st) (skipped st) (restamp st) (writes st) (removals st ++ [p]) (next st) (counts st).
Definition set_counts (st : storeSync) c := MkSync (ref st) (raw st) (markerOK st) (markerAbsent st) (local st) (baseline st)
  (contents st) (skipped st) (restamp st) (writes st) (removals st) (next st) c.
Definition set_skipped (st : storeSync) := MkSync (ref st) (raw st) (markerOK st) (markerAbsent st) (local st) (baseline st)
  (contents st) true (restamp st) (writes st) (removals st) (next st) (counts st).

Definition count_pulled (c : syncCounts) (cf : bool) :=
  MkCounts (pulled c + 1) (pushed c) (c_deleted c) (conflict c + Z.b2z cf) (refused c) (withheld c).
Definition count_pushed (c : syncCounts) := MkCounts (pulled c) (pushed c + 1) (c_deleted c) (conflict c) (refused c) (withheld c).
Definition count_deleted (c : syncCounts) := MkCounts (pulled c) (pushed c) (c_deleted c + 1) (conflict c) (refused c) (withheld c).
Definition count_conflict (c : syncCounts) := MkCounts (pulled c) (pushed c) (c_deleted c) (conflict c + 1) (refused c) (withheld c).
Definition count_refused (c : syncCounts) (n : Z) := MkCounts (pulled c) (pushed c) (c_deleted c) (conflict c) (refused c + n) (withheld c).

Definition settle_state : Type := db * storeSync * Z.

(** The body of the loop over the ordered actions. *)
Definition settle_action (sid : string) (s : settle_state) (a : Action) : result settle_error settle_state :=
  let '(d, st, held) := s in
  let id := ref_store (ref st) in
  match aKind a with
  | Pull =>
      match db_memories d !! aID a with
      | None => Err ErrNoContent
      | Some m =>
          let st := add_write st (MkWrite (ref_mount (ref st) +:+ aPath a) (m_content m) memoryFileMode) in
          let st := set_next st (aPath a) (aRemoteSHA a) in
          Ok (d, set_counts st (count_pulled (counts st) (aConflict a)), held)
      end
  | RemoveLocal =>
      let st := add_removal st (aPath a) in
      Ok (d, set_counts st (count_deleted (counts st)), held)
  | DeleteRemote =>
      match db_memories d !! aID a with
      | Some m =>
          if String.eqb (m_sha m) (aBaselineSHA a) then
            let d := set_memories d (delete (aID a) (db_memories d)) in
            let '(versionID, d) := NewVersionID d in
            try d <- insertSessionVersion d versionID id (aID a) deleted (aPath a) None sid;
            Ok (d, set_counts st (count_deleted (counts st)), held - 1)
          else let st := set_next st (aPath a) (aBaselineSHA a) in
               Ok (d, set_counts st (count_conflict (counts st)), held)
      | None => let st := set_next st (aPath a) (aBaselineSHA a) in
                Ok (d, set_counts st (count_conflict (counts st)), held)
      end
  | Push =>
      match contents st !! aPath a with
      | None => Err ErrNoBytes
      | Some data =>
          try '(outcome, d, held) <- pushMemory d id a data sid held;
          match outcome with
          | PushOK =>
              let st := set_next st (aPath a) (aLocalSHA a) in
              Ok (d, set_counts st (count_pushed (counts st)), held)
          | PushConflict =>
              let st := if String.eqb (aID a) "" then add_removal st (aPath a)
                        else set_next st (aPath a) (aBaselineSHA a) in
              Ok (d, set_counts st (count_conflict (counts st)), held)
          | PushOverCap => Ok (d, set_counts st (count_refused (counts st) 1), held)
          end
      end
  end.

(** Deletions first, then the rest in the plan's order. *)
Definition is_delete (a : Action) : bool := bool_decide (aKind a = DeleteRemote).
Definition settle_order (l : list Action) : list Action :=
  filter (fun a => is_delete a) l ++ filter (fun a => negb (is_delete a)) l.

(** The store's heads, by path; a memory under the marker's name is never planned. *)
Definition remote_heads (d : db) (storeID : string) : gmap string Head :=
  list_to_map (map (fun kv => (m_path kv.2, MkHead kv.1 (m_sha kv.2)))
    (filter (fun kv => negb (ShadowsMarker (m_path kv.2))) (store_memories d storeID))).

Definition settle_input (archived : option Z) (remote : gmap string Head) (st : storeSync) : Input :=
  MkInput (local st) (baseline st) remote
    (bool_decide (ref_access (ref st) = read_only) || bool_decide (is_Some archived) || negb (markerOK st))
    (markerAbsent st).

Definition plan_into (st : storeSync) (r : Result) : storeSync :=
  MkSync (ref st) (raw st) (markerOK st) (markerAbsent st) (local st) (baseline st) (contents st) (skipped st)
    (rRebuild r) (writes st) (removals st) (rNext r)
    (MkCounts (pulled (counts st)) (pushed (counts st)) (c_deleted (counts st)) (conflict (counts st))
       (refused (counts st) + Z.of_nat (length (rSkipped r))) (rWithheld r)).

Definition settleStore (d : db) (sid : string) (st : storeSync) : result settle_error (db * storeSync) :=
  let id := ref_store (ref st) in
  match db_stores d !! id with
  | None => Ok (d, set_skipped st)
  | Some row =>
      let rows := store_memories d id in
      let held := Z.of_nat (length rows) in
      let r := Plan IsNormalString (settle_input (s_archived row) (remote_heads d id) st) in
      try '(d, st, _) <- fold_result (settle_action sid) (d, plan_into st r, held) (settle_order (rActions r));
      Ok (d, st)
  end.

End settle.

(** Each store settles inside a savepoint: a failed settlement is rolled back and the
    store is left for the next run. [rnds n] is what the [n]-th store is given. *)
Definition settle_one IsNormalString sha256hex (rnds : nat -> supply) (sid : string)
    (acc : db * list storeSync) (st : storeSync) : db * list storeSync :=
  let '(d, done) := acc in
  if skipped st then (d, done ++ [st])
  else match settleStore IsNormalString sha256hex (rnds (length done)) d sid st with
       | Ok (d', st') => (d', done ++ [st'])
       | Err _ => (d, done ++ [set_skipped st])
       end.

Definition settleMemory IsNormalString sha256hex rnds (d : db) (sid : string) (stores : list storeSync)
  : db * list storeSync :=
  foldl (settle_one IsNormalString sha256hex rnds sid) (d, []) stores.

(** *** Apply phase

    What the sandbox is asked to do for one store: the removal commands, stopping at the
    first that fails, then one batch of writes ([encode] is the baseline file's JSON). *)
Fixpoint run_removals (exec : string -> bool) (cmds : list string) : list string * bool :=
  match cmds with
  | [] => ([], true)
  | c :: cmds' =>
      if exec c then let '(ran, ok) := run_removals exec cmds' in (c :: ran, ok) else ([c], false)
  end.

Definition apply_writes (encode : Baseline -> string) (st : storeSync) : option (list FileWrite) :=
  let id := ref_store (ref st) in
  let next_raw := encode (next st) in
  if bool_decide (writes st = []) && negb (restamp st) && String.eqb next_raw (raw st) then None
  else Some (writes st
    ++ (if restamp st then [MkWrite (path_Join (ref_mount (ref st)) MarkerName) (MarkerBytes id) 0] else [])
    ++ [MkWrite (baselinePath id) next_raw 0]).

(** The commands run and the batch written, if any. *)
Definition applyStore (exec : string -> bool) (encode : Baseline -> string) (st : storeSync)
  : list string * option (list FileWrite) :=
  if skipped st then ([], None)
  else
    let '(ran, removed) := run_removals exec (RemoveCommands (ref_mount (ref st)) (removals st)) in
    (ran, if removed then apply_writes encode st else None).

Definition applyMemory (exec : string -> bool) (encode : Baseline -> string) (stores : list storeSync)
  : list (list string * option (list FileWrite)) :=
  map (applyStore exec encode) stores.
