(* ===== verification/MemSettleSpec.v ===== *)
(** * MemSettleSpec: what a settlement may do to a store, and that it does no more.

    [store_step] is the abstract contract: a create in free room, an update of a row
    that holds the expected digest, in place or to a free path, a deletion of one, each
    with its version row.
    [settle_refines] shows every settlement is a sequence of such steps; the invariants
    of the store (no two memories in each other's way, the cap, every head a version
    that exists, an append-only history, other stores untouched) are proved by rule
    induction on the steps. *)
From Stdlib Require Import Ascii Lia.
From S2P Require Import Prelude GoStrings Ids Memsync MemPlan MemSettle.

Set Default Proof Using "Type".

(** ** The contract *)
Section contract.
Context (sha256hex : string -> string) (id : string).

Definition written (mid : string) (op : operation) (p : string) (content : option string) (who : option actor) (at_ : Z) :=
  MkVersion id mid op (Some p) content (sha256hex <$> content) (slen <$> content) who at_ None.

(** Rows of a store, by path. *)
Definition row_at (d : db) (i p sha : string) : Prop :=
  exists m, db_memories d !! i = Some m /\ m_store m = id /\ m_path m = p /\ m_sha m = sha.

Definition count (d : db) : Z := Z.of_nat (length (store_memories d id)).

Inductive store_step (who : option actor) : db -> db -> Prop :=
| step_draw d n : store_step who d (MkDb (db_stores d) (db_memories d) (db_versions d) n)
| step_create d i p data v cr at_ n :
    i <> EmptyString -> db_memories d !! i = None -> db_versions d !! v = None ->
    occupied d id p = false -> count d < MaxMemoriesPerStore ->
    store_step who d (MkDb (db_stores d)
      (<[i := MkMemory id p data (sha256hex data) (slen data) v cr cr]> (db_memories d))
      (<[v := written i created p (Some data) who at_]> (db_versions d)) n)
| step_update d i p sha p' data v cr up at_ n :
    row_at d i p sha -> m_created <$> db_memories d !! i = Some cr -> db_versions d !! v = None ->
    (p' = p \/ forall j m, j <> i -> db_memories d !! j = Some m -> m_store m = id -> occupies p' (m_path m) = false) ->
    store_step who d (MkDb (db_stores d)
      (<[i := MkMemory id p' data (sha256hex data) (slen data) v cr up]> (db_memories d))
      (<[v := written i modified p' (Some data) who at_]> (db_versions d)) n)
| step_delete d i p sha v at_ n :
    row_at d i p sha -> db_versions d !! v = None ->
    store_step who d (MkDb (db_stores d) (delete i (db_memories d))
      (<[v := written i deleted p None who at_]> (db_versions d)) n).

End contract.

(** ** Rows *)
Section rows.
Context (id : string).
#[local] Abbreviation count := (count id).
Lemma elem_of_store_memories d i m :
  (i, m) ∈ store_memories d id <-> db_memories d !! i = Some m /\ m_store m = id.
Proof. unfold store_memories. rewrite list_elem_of_filter, elem_of_map_to_list. cbn. tauto. Qed.

Lemma occupied_false d p :
  occupied d id p = false <->
  forall i m, db_memories d !! i = Some m -> m_store m = id -> occupies p (m_path m) = false.
Proof.
  unfold occupied. rewrite <- not_true_iff_false, existsb_exists. split.
  - intros H i m Hi Hm. apply not_true_iff_false. intros Ho. apply H. exists (i, m).
    rewrite <- list_elem_of_In, elem_of_store_memories. done.
  - intros H ([i m] & Hin & Ho). rewrite <- list_elem_of_In, elem_of_store_memories in Hin.
    destruct Hin as [Hi Hm]. cbn in Ho. rewrite (H i m) in Ho; done.
Qed.

Definition b2z (b : bool) : Z := if b then 1 else 0.
Definition mine (m : memory) : bool := bool_decide (m_store m = id).

Lemma count_insert d m' i vs n x :
  db_memories d !! i = None -> m' = <[i := x]> (db_memories d) ->
  count (MkDb (db_stores d) m' vs n) = count d + b2z (mine x).
Proof.
  intros Hi ->. unfold count, store_memories; cbn [db_memories].
  rewrite (filter_Permutation _ _ _ (map_to_list_insert _ i x Hi)), filter_cons.
  unfold mine. case_decide; cbn in *; [rewrite bool_decide_true by done|rewrite bool_decide_false by done]; cbn [b2z length]; lia.
Qed.

Lemma count_delete d i x vs n :
  db_memories d !! i = Some x ->
  count (MkDb (db_stores d) (delete i (db_memories d)) vs n) = count d - b2z (mine x).
Proof.
  intros Hi.
  pose proof (count_insert (MkDb (db_stores d) (delete i (db_memories d)) vs n) (db_memories d) i vs n x) as H.
  cbn [db_memories db_stores] in H. rewrite lookup_delete_eq in H. specialize (H eq_refl).
  rewrite insert_delete_id in H by done. specialize (H eq_refl).
  unfold count, store_memories in *. cbn [db_memories] in *. lia.
Qed.

Lemma count_replace d i x y vs n :
  db_memories d !! i = Some x -> m_store y = m_store x ->
  count (MkDb (db_stores d) (<[i := y]> (db_memories d)) vs n) = count d.
Proof.
  intros Hi Hs. rewrite <- insert_delete_eq.
  pose proof (count_insert (MkDb (db_stores d) (delete i (db_memories d)) vs n) _ i vs n y
                (lookup_delete_eq _ _) eq_refl) as H. cbn [db_memories db_stores] in H. rewrite H.
  rewrite (count_delete d i x) by done. unfold mine. rewrite Hs. lia.
Qed.
End rows.

(** ** Invariants of the tables *)

(** No memory is at, above or below another of its store. *)
Definition tree_ok (d : db) : Prop :=
  forall i j mi mj, db_memories d !! i = Some mi -> db_memories d !! j = Some mj ->
    i <> j -> m_store mi = m_store mj -> occupies (m_path mi) (m_path mj) = false.

(** A memory's digest and size are its content's, and its head pointer names a version
    row of the same memory, store, path and content. *)
Definition heads_ok (sha256hex : string -> string) (d : db) : Prop :=
  forall i m, db_memories d !! i = Some m ->
    m_sha m = sha256hex (m_content m) /\ m_size m = slen (m_content m) /\
    exists v, db_versions d !! m_version m = Some v /\ v_operation v <> deleted /\
      v_store v = m_store m /\ v_memory v = i /\ v_path v = Some (m_path m) /\
      v_content v = Some (m_content m) /\ v_sha v = Some (m_sha m).

Lemma occupies_sym a b : occupies a b = occupies b a.
Proof.
  unfold occupies. rewrite (String.eqb_sym a b).
  destruct (String.eqb b a), (HasPrefix b _), (HasPrefix a _); done.
Qed.

Section invariants.
Context (sha256hex : string -> string) (id : string) (who : option actor).
Implicit Types d : db.
#[local] Abbreviation steps := (rtc (store_step sha256hex id who)).

Lemma steps_inv (P : db -> Prop) d d' :
  (forall d d', P d -> store_step sha256hex id who d d' -> P d') -> P d -> steps d d' -> P d'.
Proof. intros HP Hd Hs. induction Hs; eauto. Qed.

Lemma step_tree_ok d d' : tree_ok d -> store_step sha256hex id who d d' -> tree_ok d'.
Proof.
  intros Ht Hs. destruct Hs as [d n|d i p data v cr at_ n Hne Hi Hv Ho Hc|d i p sha p' data v cr up at_ n (m & Hm & Hst & Hp & Hsh) Hcr Hv Hfree
                               |d i p sha v at_ n Hr Hv]; [exact Ht|..];
    intros k j mk mj; cbn [db_memories]; rewrite ?lookup_insert, ?lookup_delete.
  - rewrite occupied_false in Ho.
    do 2 case_decide; intros; simplify_eq; cbn in *; subst; eauto.
    rewrite occupies_sym. eauto.
  - do 2 case_decide; intros; simplify_eq; cbn in *; subst.
    + destruct Hfree as [->|Hfree]; [apply (Ht k j m mj); auto|by eapply Hfree].
    + destruct Hfree as [->|Hfree]; [apply (Ht k j mk m); auto|]. rewrite occupies_sym. by eapply Hfree.
    + eauto.
  - do 2 case_decide; intros; simplify_eq. eauto.
Qed.

Lemma step_versions d d' : store_step sha256hex id who d d' -> db_versions d ⊆ db_versions d'.
Proof. intros []; cbn; [done|by apply insert_subseteq..]. Qed.

Lemma step_heads_ok d d' : heads_ok sha256hex d -> store_step sha256hex id who d d' -> heads_ok sha256hex d'.
Proof.
  intros Hh Hs. pose proof (step_versions _ _ Hs) as Hsub.
  assert (Hold : forall i m, db_memories d !! i = Some m ->
    m_sha m = sha256hex (m_content m) /\ m_size m = slen (m_content m) /\
    exists v, db_versions d' !! m_version m = Some v /\ v_operation v <> deleted /\
      v_store v = m_store m /\ v_memory v = i /\ v_path v = Some (m_path m) /\
      v_content v = Some (m_content m) /\ v_sha v = Some (m_sha m)).
  { intros i m Hm. destruct (Hh i m Hm) as (? & ? & v & Hv & ?). split_and!; [done..|].
    exists v. split; [|done]. by eapply lookup_weaken. }
  destruct Hs; [exact Hh|..]; intros k mk; cbn [db_memories db_versions] in *;
    rewrite ?(lookup_insert (db_memories d)), ?(lookup_delete (db_memories d)).
  - case_decide; [|apply Hold]. intros; simplify_eq; cbn. split_and!; [done..|].
    eexists. rewrite lookup_insert_eq. split; [done|]. split; [discriminate|done].
  - case_decide; [|apply Hold]. intros; simplify_eq; cbn. split_and!; [done..|].
    eexists. rewrite lookup_insert_eq. split; [done|]. split; [discriminate|done].
  - case_decide; [done|]. apply Hold.
Qed.

Lemma step_count d d' :
  store_step sha256hex id who d d' -> count id d' <= Z.max (count id d) MaxMemoriesPerStore.
Proof.
  intros [d0 n|d0 i p data v cr at_ n Hne Hi Hv Ho Hc|d0 i p sha p' data v cr up at_ n (m & Hm & Hst & Hp & Hsh) Hcr Hv Hfree
         |d0 i p sha v at_ n (m & Hm & Hst & Hp & Hsh) Hv].
  - unfold count, store_memories; cbn [db_memories]. lia.
  - erewrite count_insert by done. unfold mine. rewrite bool_decide_true by done. cbn [b2z]. lia.
  - rewrite (count_replace id d0 i m) by (cbn; done). lia.
  - rewrite (count_delete id d0 i m) by done. unfold mine. rewrite bool_decide_true by done. cbn [b2z]. lia.
Qed.

(** A row of another store is where it was, and no row of another store appears. *)
Lemma step_others d d' i m :
  store_step sha256hex id who d d' -> m_store m <> id ->
  db_memories d' !! i = Some m <-> db_memories d !! i = Some m.
Proof.
  intros Hs Hm. destruct Hs as [| |? ? ? ? ? ? ? ? ? ? ? (x & ? & ? & ? & ?)|? ? ? ? ? ? ? (x & ? & ? & ? & ?)];
    cbn [db_memories]; [done|..]; rewrite ?lookup_insert, ?lookup_delete; case_decide; naive_solver.
Qed.

Lemma steps_others d d' i m :
  steps d d' -> m_store m <> id -> db_memories d' !! i = Some m <-> db_memories d !! i = Some m.
Proof. intros Hs Hm. induction Hs as [|d1 d2 d3 H _ IH]; [done|]. rewrite IH. by apply step_others. Qed.

Lemma steps_versions d d' : steps d d' -> db_versions d ⊆ db_versions d'.
Proof. induction 1 as [|d1 d2 d3 H _ IH]; [done|]. etrans; [by apply step_versions|done]. Qed.

Lemma steps_count d d' : steps d d' -> count id d' <= Z.max (count id d) MaxMemoriesPerStore.
Proof. induction 1 as [|d1 d2 d3 H _ IH]; [lia|]. pose proof (step_count _ _ H). lia. Qed.
End invariants.

(** ** The settlement is a sequence of steps *)
Section simulation.
Context (sha256hex : string -> string) (rnd : supply) (id sid : string).
Implicit Types (d : db) (a : Action) (st : storeSync).
#[local] Abbreviation step := (store_step sha256hex id (Some (SessionActor sid))).
#[local] Abbreviation row_at := (row_at id).
#[local] Abbreviation count := (count id).

(** Rows at other paths are kept. *)
Definition keeps (p : string) d d' : Prop :=
  forall i q s, row_at d i q s -> q <> p -> row_at d' i q s.

Lemma insertSessionVersion_Ok d v mid op p content d' :
  insertSessionVersion sha256hex rnd d v id mid op p content sid = Ok d' ->
  db_versions d !! v = None /\ exists at_,
  d' = MkDb (db_stores d) (db_memories d)
         (<[v := written sha256hex id mid op p content (Some (SessionActor sid)) at_]> (db_versions d)) (S (db_fresh d)).
Proof. unfold insertSessionVersion. cbn. destruct (db_versions d !! v); [done|]. intros [= <-]. eauto. Qed.

Lemma push_create_spec d a data held o d' held' :
  held = count d -> aID a = "" -> aLocalSHA a = sha256hex data ->
  pushMemory sha256hex rnd d id a data sid held = Ok (o, d', held') ->
  step d d' /\ held' = count d' /\ keeps (aPath a) d d' /\
  (o = PushOK -> exists i, row_at d' i (aPath a) (aLocalSHA a)) /\ (o = PushOK \/ db_memories d' = db_memories d).
Proof.
  intros -> Hid Hsha. unfold pushMemory, NewVersionID, NewMemoryID, now. rewrite Hid. cbn [String.eqb].
  set (v := NewID PrefixMemoryVersion _). cbn [db_memories db_stores db_versions db_fresh].
  change (occupied (MkDb _ _ _ _) id (aPath a)) with (occupied d id (aPath a)).
  assert (Hdraw : forall n, let d1 := MkDb (db_stores d) (db_memories d) (db_versions d) n in
    step d d1 /\ count d = count d1 /\ keeps (aPath a) d d1 /\ db_memories d1 = db_memories d).
  { intros n d1. split; [apply step_draw|]. split; [done|]. split; [|done]. by intros i q s. }
  destruct (occupied d id (aPath a)) eqn:Ho; [intros [= <- <- <-]; naive_solver|].
  destruct (MaxMemoriesPerStore <=? count d) eqn:Hc; [intros [= <- <- <-]; naive_solver|].
  bool_prop. set (i := NewID PrefixMemory _).
  destruct (bool_decide (is_Some (db_memories d !! i)) || _) eqn:Hi; [intros [= <- <- <-]; naive_solver|].
  clear Hdraw. bool_prop. rewrite <- eq_None_not_Some in *.
  destruct (insertSessionVersion _ _ _ _ _ _ _ _ _ _) as [d2|] eqn:Hv; [|done]. intros [= <- <- <-].
  apply insertSessionVersion_Ok in Hv as (Hv & at_ & ->). cbn [db_stores db_memories db_versions db_fresh set_memories] in *.
  rewrite Hsha. split_and!; [by constructor| |..].
  - erewrite count_insert by done. unfold mine. by rewrite bool_decide_true.
  - intros j q s (m & Hj & Hm) Hq. exists m. cbn [db_memories]. split; [|done].
    rewrite lookup_insert_ne; [done|]. intros <-. congruence.
  - intros _. exists i. eexists. cbn [db_memories]. by rewrite lookup_insert_eq.
  - by left.
Qed.

Lemma push_update_spec d a data held o d' held' :
  held = count d -> row_at d (aID a) (aPath a) (aBaselineSHA a) -> aID a <> "" -> aLocalSHA a = sha256hex data ->
  pushMemory sha256hex rnd d id a data sid held = Ok (o, d', held') ->
  step d d' /\ held' = count d' /\ keeps (aPath a) d d' /\ o = PushOK /\
  exists i, row_at d' i (aPath a) (aLocalSHA a).
Proof.
  intros -> (m & Hm & Hst & Hp & Hs) Hid Hsha. unfold pushMemory, NewVersionID, now.
  apply String.eqb_neq in Hid. rewrite Hid. cbn [db_memories]. rewrite Hm, Hs, String.eqb_refl.
  set (v := NewID _ _). destruct (insertSessionVersion _ _ _ _ _ _ _ _ _ _) as [d2|] eqn:Hv; [|done]. intros [= <- <- <-].
  apply insertSessionVersion_Ok in Hv as (Hv & at_ & ->). cbn [db_stores db_memories db_versions db_fresh set_memories] in *.
  rewrite Hsha, Hst, Hp. split_and!; [| |..].
  - eapply step_update; [exists m; eauto|by rewrite Hm|done|by left].
  - by rewrite (count_replace id d (aID a) m) by (cbn; congruence).
  - intros j q s (m' & Hj & Hm') Hq. exists m'. cbn [db_memories]. split; [|done].
    rewrite lookup_insert_ne; [done|]. intros <-. naive_solver.
  - done.
  - exists (aID a). eexists. cbn [db_memories]. by rewrite lookup_insert_eq.
Qed.

(** The row an action was planned against. *)
Definition named d a : Prop :=
  match aKind a with
  | Pull => row_at d (aID a) (aPath a) (aRemoteSHA a)
  | DeleteRemote => row_at d (aID a) (aPath a) (aBaselineSHA a)
  | Push => aID a = "" \/ row_at d (aID a) (aPath a) (aBaselineSHA a)
  | RemoveLocal => True
  end.

(** What the baseline gains: nothing, or the digest the store holds at the path. *)
Definition records (p : string) d' st st' : Prop :=
  Synced (next st') = Synced (next st) \/
  exists s i, Synced (next st') = <[p := s]> (Synced (next st)) /\ row_at d' i p s.

Lemma keeps_refl p d n : keeps p d (MkDb (db_stores d) (db_memories d) (db_versions d) n).
Proof. by intros i q s. Qed.

Lemma settle_delete_spec d v m a d' :
  row_at d (aID a) (aPath a) (aBaselineSHA a) -> db_memories d !! aID a = Some m ->
  insertSessionVersion sha256hex rnd
    (MkDb (db_stores d) (delete (aID a) (db_memories d)) (db_versions d) (S (db_fresh d)))
    v id (aID a) deleted (aPath a) None sid = Ok d' ->
  step d d' /\ count d - 1 = count d' /\ keeps (aPath a) d d'.
Proof.
  intros Hrow Hm (Hv & at_ & ->)%insertSessionVersion_Ok. cbn [db_stores db_memories db_versions db_fresh] in *.
  split_and!.
  - eapply step_delete; eauto.
  - rewrite (count_delete id d (aID a) m) by done. unfold mine. rewrite bool_decide_true; [done|].
    destruct Hrow as (m' & ? & ? & ?). congruence.
  - intros j q s (m' & Hj & Hm') Hq. exists m'. cbn [db_memories]. split; [|done].
    rewrite lookup_delete_ne; [done|]. intros <-. destruct Hrow as (m2 & ? & ? & ? & ?).
    destruct Hm' as (? & ? & ?). congruence.
Qed.

Lemma settle_action_spec d st held a d' st' held' :
  id = ref_store (ref st) -> held = count d -> named d a ->
  (forall data, aKind a = Push -> contents st !! aPath a = Some data -> aLocalSHA a = sha256hex data) ->
  settle_action sha256hex rnd sid (d, st, held) a = Ok (d', st', held') ->
  step d d' /\ held' = count d' /\ keeps (aPath a) d d' /\
  ref st' = ref st /\ contents st' = contents st /\ records (aPath a) d' st st'.
Proof.
  intros Hid -> Hn Hdata. unfold settle_action, named in *. rewrite <- Hid.
  assert (Hsame : step d d /\ count d = count d /\ keeps (aPath a) d d).
  { split_and!; [|done|by intros ? ? ?]. pose proof (step_draw sha256hex id (Some (SessionActor sid)) d (db_fresh d)) as H. by destruct d. }
  destruct (aKind a) eqn:Hk.
  - destruct Hn as (m & Hm & Hrow). rewrite Hm. intros [= <- <- <-].
    split_and!; try apply Hsame; try done. right. exists (aRemoteSHA a), (aID a). split; [done|]. by exists m.
  - destruct (contents st !! aPath a) as [data|] eqn:Hc; [|done].
    destruct (pushMemory _ _ _ _ _ _ _ _) as [[[o d2] held2]|] eqn:Hp; [|done].
    destruct (decide (aID a = "")) as [E|E].
    + apply push_create_spec in Hp as (? & -> & ? & HOK & _); auto.
      rewrite E. cbn [String.eqb].
      destruct o; intros [= <- <- <-]; split_and!; try done; try (by left).
      right. destruct HOK as [i Hi]; [done|]. by exists (aLocalSHA a), i.
    + destruct Hn as [|Hn]; [done|].
      apply push_update_spec in Hp as (? & -> & ? & -> & [i Hi]); auto.
      intros [= <- <- <-]; split_and!; try done. right. by exists (aLocalSHA a), i.
  - pose proof Hn as (m & Hm & Hst & Hpa & Hsh). rewrite Hm, Hsh, String.eqb_refl. unfold NewVersionID.
    cbn [set_memories db_stores db_memories db_versions db_fresh].
    destruct (insertSessionVersion _ _ _ _ _ _ _ _ _ _) as [d2|] eqn:Hv; [|done]. intros [= <- <- <-].
    destruct (settle_delete_spec _ _ _ _ _ Hn Hm Hv) as (? & ? & ?). split_and!; try done. by left.
  - intros [= <- <- <-]. split_and!; try apply Hsame; try done. by left.
Qed.

Lemma named_keeps d d' a b :
  keeps (aPath a) d d' -> aPath b <> aPath a -> named d b -> named d' b.
Proof. unfold named, keeps. intros Hk Hne. destruct (aKind b); auto. intros [?|?]; auto. Qed.

(** The baseline claims only digests the store holds. *)
Definition truthful d st : Prop :=
  forall p s, Synced (next st) !! p = Some s -> exists i, row_at d i p s.

Lemma settle_fold_spec l d st held d' st' held' :
  id = ref_store (ref st) -> held = count d -> Forall (named d) l -> NoDup (aPath <$> l) ->
  (forall a data, a ∈ l -> aKind a = Push -> contents st !! aPath a = Some data -> aLocalSHA a = sha256hex data) ->
  truthful d st -> (forall p, is_Some (Synced (next st) !! p) -> p ∉ (aPath <$> l)) ->
  fold_result (settle_action sha256hex rnd sid) (d, st, held) l = Ok (d', st', held') ->
  rtc step d d' /\ held' = count d' /\ truthful d' st' /\ ref st' = ref st.
Proof.
  revert d st held. induction l as [|a l IH]; intros d st held Hid Hheld Hn Hnd Hdata Ht Hfr.
  { cbn. intros [= <- <- <-]. split_and!; done. }
  cbn [fold_result fmap list_fmap] in *. apply NoDup_cons in Hnd as [Ha Hnd]. apply Forall_cons in Hn as [Hn Hns].
  destruct (settle_action _ _ _ _ a) as [[[d1 st1] held1]|] eqn:E; [|done].
  apply settle_action_spec in E as (Hs & -> & Hk & Hr & Hc & Hrec); [|done..|].
  2: { intros data Hp. by apply Hdata; [left|]. }
  intros Hf. destruct (IH d1 st1 (count d1)) as (Hss & -> & Ht' & Hr'); try done.
  - congruence.
  - rewrite Forall_forall in Hns |- *. intros b Hb. apply (named_keeps d d1 a); [done| |auto].
    intros E. apply Ha. rewrite <- E. by apply list_elem_of_fmap_2.
  - intros b data Hb Hp. rewrite Hc. apply Hdata; [by right|done].
  - intros p s Hp. destruct Hrec as [Hrec|(s1 & i & Hrec & Hrow)]; rewrite Hrec in Hp.
    + destruct (Ht p s Hp) as [j Hj]. exists j. apply Hk; [done|].
      intros ->. apply (Hfr (aPath a)); [by rewrite Hp|]. left.
    + rewrite lookup_insert in Hp. case_decide; [simplify_eq; eauto|].
      destruct (Ht p s Hp) as [j Hj]. exists j. apply Hk; auto.
  - intros p [s Hp] Hin. destruct Hrec as [Hrec|(s1 & i & Hrec & Hrow)]; rewrite Hrec in Hp.
    + apply (Hfr p); [by rewrite Hp|by right].
    + rewrite lookup_insert in Hp. case_decide; [simplify_eq; done|].
      apply (Hfr p); [by rewrite Hp|by right].
  - split_and!; [by eapply rtc_l|done|done|congruence].
Qed.

End simulation.

(** ** The plan's actions name rows of the listing *)
Section plan_rows.
Context (IsNormalString : string -> bool) (sha256hex : string -> string) (rnd : supply) (id sid : string).
Implicit Types (d : db) (a : Action) (st : storeSync).
#[local] Abbreviation step := (store_step sha256hex id (Some (SessionActor sid))).
#[local] Abbreviation row_at := (row_at id).
#[local] Abbreviation named := (named id).
#[local] Abbreviation truthful := (truthful id).

Lemma remote_heads_row d p h : remote_heads d id !! p = Some h -> row_at d (hID h) p (hSHA h).
Proof.
  unfold remote_heads. intros H%elem_of_list_to_map_2. apply list_elem_of_In, in_map_iff in H as ([i m] & [= <- <-] & H).
  rewrite <- list_elem_of_In, list_elem_of_filter in H. destruct H as [_ H%elem_of_store_memories].
  destruct H. by exists m.
Qed.

Lemma actions_named d inp a :
  iRemote inp = remote_heads d id -> a ∈ rActions (Plan IsNormalString inp) -> named d a.
Proof.
  intros Hr [(h & Hh & ->)|Hp]%actions_planned; unfold named.
  - rewrite Hr in Hh. cbn. by apply remote_heads_row.
  - destruct Hp as [h Hh|l ? ? ?|l h ? ? Hh|h ? ? Hh|b]; cbn; rewrite ?Hr in *;
      try apply remote_heads_row in Hh; auto.
Qed.

Lemma push_local inp a :
  a ∈ rActions (Plan IsNormalString inp) -> aKind a = Push -> iLocal inp !! aPath a = Some (aLocalSHA a).
Proof. intros [(h & Hh & ->)|Hp]%actions_planned Hk; [done|].
  remember (aPath a) as p. destruct Hp; cbn in *; done. Qed.

Lemma settle_order_Permutation l : settle_order l ≡ₚ l.
Proof.
  unfold settle_order. induction l as [|a l IH]; [done|]. rewrite !filter_cons.
  destruct (is_delete a); cbn [negb];
    [rewrite decide_True, decide_False by (done || by intros [])|
     rewrite decide_False, decide_True by (done || by intros [])].
  - cbn [app]. by rewrite IH.
  - rewrite <- Permutation_middle. by rewrite IH.
Qed.

Lemma elem_of_settle_order a l : a ∈ settle_order l <-> a ∈ l.
Proof. by rewrite settle_order_Permutation. Qed.

(** The bytes read for a file have the digest the plan decides from. *)
Definition coherent st : Prop :=
  forall p data, contents st !! p = Some data -> local st !! p = Some (sha256hex data).

Lemma settleStore_steps d st d' st' :
  id = ref_store (ref st) -> coherent st ->
  settleStore IsNormalString sha256hex rnd d sid st = Ok (d', st') ->
  rtc step d d' /\ (skipped st' = false -> truthful d' st') /\ ref st' = ref st.
Proof.
  intros Hid Hco. unfold settleStore. rewrite <- Hid.
  destruct (db_stores d !! id) as [arow|]; [|intros [= <- <-]; done].
  set (inp := settle_input (s_archived arow) (remote_heads d id) st). set (r := Plan IsNormalString inp).
  destruct (fold_result _ _ _) as [[[d1 st1] held1]|] eqn:E; [|done]. intros [= <- <-].
  apply (settle_fold_spec sha256hex rnd id) in E as (Hs & _ & Ht & Hr); [split_and!; auto|done|done|..].
  - apply Forall_forall. intros a Ha. rewrite elem_of_settle_order in Ha. exact (actions_named d inp a eq_refl Ha).
  - rewrite settle_order_Permutation. apply NoDup_action_paths.
  - intros a data Ha Hk Hc. rewrite elem_of_settle_order in Ha. apply (push_local inp a) in Ha; [|done].
    apply Hco in Hc. cbn in Ha. congruence.
  - intros p s Hp. destruct (Plan_synced _ inp p s Hp) as (_ & h & Hh & <-).
    exists (hID h). by apply remote_heads_row.
  - intros p [s Hp]. destruct (Plan_synced _ inp p s Hp) as (Hn & _). by rewrite settle_order_Permutation.
Qed.
End plan_rows.

(** ** The read phase *)
Section read.
Context (sha256hex : string -> string) (readCapped : string -> read_result).
Implicit Types st : storeSync.

(** The path needs no bytes, or they were read. *)
Definition carried st (p : string) : Prop :=
  forall sha, local st !! p = Some sha ->
    map_get (Synced (baseline st)) p = sha \/ map_get (Refused (baseline st)) p = sha \/ is_Some (contents st !! p).

Lemma read_one_spec st p sha st' :
  local st !! p = Some sha -> contents st !! p = None ->
  read_one sha256hex readCapped st (p, sha) = Ok st' ->
  carried st' p /\
  (forall data, contents st' !! p = Some data -> local st' !! p = Some (sha256hex data)) /\
  forall q, q <> p ->
    local st' !! q = local st !! q /\ contents st' !! q = contents st !! q /\
    map_get (Synced (baseline st')) q = map_get (Synced (baseline st)) q /\
    map_get (Refused (baseline st')) q = map_get (Refused (baseline st)) q.
Proof.
  intros Hl Hc. unfold read_one. destruct (changed st p sha) eqn:Hch; cbn [negb].
  - destruct (readCapped p) as [data| |]; [|intros [= <-]|done].
    + set (sum := sha256hex data).
      assert (Hst : exists st1, (if negb (String.eqb sum sha) then set_local st (<[p := sum]> (local st)) else st) = st1 /\
        local st1 !! p = Some sum /\ contents st1 = contents st /\ baseline st1 = baseline st /\
        forall q, q <> p -> local st1 !! q = local st !! q).
      { eexists. split; [done|]. destruct (String.eqb_spec sum sha) as [->|]; cbn [negb]; [done|].
        cbn. rewrite lookup_insert_eq. split_and!; [done..|]. intros q Hq. by rewrite lookup_insert_ne. }
      destruct Hst as (st1 & -> & Hl1 & Hc1 & Hb1 & Hq1).
      case_bool_decide as Hv; intros [= <-]; unfold carried, map_get; cbn.
      * rewrite Hb1, Hc1, lookup_insert_eq. split_and!; [eauto|by intros ? [= <-]|].
        intros q Hq. rewrite lookup_insert_ne by done. auto.
      * rewrite Hb1, Hc1, lookup_insert_eq. split_and!; [|congruence|].
        -- intros s Hs. right; left. cbn. congruence.
        -- intros q Hq. rewrite lookup_insert_ne by done. auto.
    + unfold carried, map_get; cbn. rewrite lookup_insert_eq. split_and!; [|congruence|].
      * intros s Hs. right; left. cbn. congruence.
      * intros q Hq. by rewrite lookup_insert_ne.
  - intros [= <-]. split_and!; [|congruence|done].
    intros s Hs. rewrite Hl in Hs. injection Hs as <-. unfold changed in Hch.
    rewrite andb_false_iff, !negb_false_iff, !String.eqb_eq in Hch. tauto.
Qed.

Lemma read_fold_spec l st st' :
  NoDup l.*1 -> (forall p sha, (p, sha) ∈ l -> local st !! p = Some sha /\ contents st !! p = None) ->
  (forall p, p ∉ l.*1 -> carried st p) -> coherent sha256hex st ->
  fold_result (read_one sha256hex readCapped) st l = Ok st' ->
  (forall p, carried st' p) /\ coherent sha256hex st'.
Proof.
  revert st; induction l as [|[p sha] l IH]; intros st Hnd Hl Hok Hco.
  { cbn. intros [= <-]. split; [|done]. intros p. apply Hok. apply not_elem_of_nil. }
  cbn [fold_result fmap list_fmap fst] in *. apply NoDup_cons in Hnd as [Hp Hnd].
  destruct (read_one _ _ _ _) as [st1|] eqn:E; [|done].
  destruct (Hl p sha) as [Hl1 Hc1]; [left|].
  destruct (read_one_spec _ _ _ _ Hl1 Hc1 E) as (Hcar & Hdat & Hq). apply IH; [done|..].
  - intros q s Hin. destruct (Hl q s) as [? ?]; [by right|].
    assert (q <> p) as Hne by (intros ->; apply Hp; by apply (list_elem_of_fmap_2' _ _ (p, s))).
    destruct (Hq q Hne) as (-> & -> & _). done.
  - intros q Hin. destruct (decide (q = p)) as [->|Hne]; [done|].
    unfold carried. destruct (Hq q Hne) as (-> & -> & -> & ->). apply Hok. cbn. by intros [?|?]%elem_of_cons.
  - intros q data Hd. destruct (decide (q = p)) as [->|Hne]; [auto|].
    destruct (Hq q Hne) as (E1 & E2 & _). rewrite E1. rewrite E2 in Hd. auto.
Qed.

Lemma readChanged_spec st st' :
  readChanged sha256hex readCapped st = Ok st' -> (forall p, carried st' p) /\ coherent sha256hex st'.
Proof.
  unfold readChanged. destruct (_ <? _); [done|]. cbn [clear_contents local].
  apply read_fold_spec.
  - apply NoDup_fst_map_to_list.
  - intros p sha Hin. apply elem_of_map_to_list in Hin. cbn. by rewrite lookup_empty.
  - intros p Hp sha Hl. cbn in Hl. destruct Hp.
    apply (list_elem_of_fmap_2' _ _ (p, sha)); [by apply elem_of_map_to_list|done].
  - intros p data. cbn. by rewrite lookup_empty.
Qed.
End read.

(** ** Errors *)
Section errors.
Context (IsNormalString : string -> bool) (sha256hex : string -> string) (rnd : supply) (id sid : string).
Implicit Types (d : db) (a : Action) (st : storeSync).

Lemma insertSessionVersion_Err d v store mid op p content e :
  insertSessionVersion sha256hex rnd d v store mid op p content sid = Err e -> e = ErrDuplicateKey.
Proof. unfold insertSessionVersion. cbn. destruct (db_versions d !! v); [by intros [= <-]|done]. Qed.

Lemma pushMemory_Err d a data held e :
  pushMemory sha256hex rnd d id a data sid held = Err e -> e = ErrDuplicateKey.
Proof.
  unfold pushMemory, NewVersionID, NewMemoryID, now. intros H.
  repeat (case_match; simplify_eq); eauto using insertSessionVersion_Err.
Qed.

Lemma settle_action_Err d st held a e :
  id = ref_store (ref st) -> named id d a -> (aKind a = Push -> is_Some (contents st !! aPath a)) ->
  settle_action sha256hex rnd sid (d, st, held) a = Err e -> e = ErrDuplicateKey.
Proof.
  intros Hid Hn Hc. unfold settle_action, named in *. rewrite <- Hid.
  destruct (aKind a).
  - destruct Hn as (m & Hm & _). by rewrite Hm.
  - destruct Hc as [data ->]; [done|]. destruct (pushMemory _ _ _ _ _ _ _ _) as [[[o d2] h2]|] eqn:E.
    + by destruct o.
    + intros [= <-]. by eapply pushMemory_Err.
  - destruct Hn as (m & Hm & _ & _ & Hs). rewrite Hm, Hs, String.eqb_refl. unfold NewVersionID.
    destruct (insertSessionVersion _ _ _ _ _ _ _ _ _ _) as [d2|] eqn:E; [done|].
    intros [= <-]. by eapply insertSessionVersion_Err.
  - done.
Qed.

Lemma settle_fold_Err l d st held e :
  id = ref_store (ref st) -> held = count id d -> Forall (named id d) l -> NoDup (aPath <$> l) ->
  (forall a data, a ∈ l -> aKind a = Push -> contents st !! aPath a = Some data -> aLocalSHA a = sha256hex data) ->
  (forall a, a ∈ l -> aKind a = Push -> is_Some (contents st !! aPath a)) ->
  fold_result (settle_action sha256hex rnd sid) (d, st, held) l = Err e -> e = ErrDuplicateKey.
Proof.
  revert d st held. induction l as [|a l IH]; intros d st held Hid Hheld Hn Hnd Hdata Hc; [done|].
  cbn [fold_result fmap list_fmap] in *. apply NoDup_cons in Hnd as [Ha Hnd]. apply Forall_cons in Hn as [Hn Hns].
  destruct (settle_action _ _ _ _ a) as [[[d1 st1] held1]|] eqn:E.
  2: { intros [= <-]. eapply settle_action_Err in E; eauto. apply Hc. left. }
  apply (settle_action_spec sha256hex rnd id) in E as (_ & -> & Hk & Hr & Hct & _); [|done..|].
  2: { intros data Hp. by apply Hdata; [left|]. }
  apply IH; try done.
  - congruence.
  - rewrite Forall_forall in Hns |- *. intros b Hb. apply (named_keeps id d d1 a); [done| |auto].
    intros E. apply Ha. rewrite <- E. by apply list_elem_of_fmap_2.
  - intros b data Hb. rewrite Hct. apply Hdata. by right.
  - intros b Hb. rewrite Hct. apply Hc. by right.
Qed.

(** A planned push is of bytes the read phase carried. *)
Lemma push_carried inp st a :
  iLocal inp = local st -> iBaseline inp = baseline st -> (forall p, carried st p) ->
  a ∈ rActions (Plan IsNormalString inp) -> aKind a = Push -> is_Some (contents st !! aPath a).
Proof.
  intros Hl Hb Hc [(h & Hh & ->)|Hp]%actions_planned Hk; [done|].
  assert (Hg : forall m p l, l <> "" -> m !! p <> Some l -> map_get m p <> l).
  { intros m p l Hne Hm. unfold map_get. destruct (m !! p); cbn; congruence. }
  remember (aPath a) as p.
  destruct Hp as [|l Ho Hloc Hr Hs Hne Hf|l h Ho Hloc Hr Hlh Hs Hne Hf|h|b]; cbn in Hk; try done;
    rewrite ?Hl, ?Hb in *; destruct (Hc p l Hloc) as [E|[E|E]]; try done; exfalso; revert E; apply Hg; congruence.
Qed.

Lemma settleStore_Err d st e :
  id = ref_store (ref st) -> coherent sha256hex st -> (forall p, carried st p) ->
  settleStore IsNormalString sha256hex rnd d sid st = Err e -> e = ErrDuplicateKey.
Proof.
  intros Hid Hco Hc. unfold settleStore. rewrite <- Hid.
  destruct (db_stores d !! id) as [arow|]; [|done].
  set (inp := settle_input (s_archived arow) (remote_heads d id) st).
  destruct (fold_result _ _ _) as [[[d1 st1] held1]|e'] eqn:E; [done|]. intros [= <-].
  apply settle_fold_Err in E; [done|done|done|..].
  - apply Forall_forall. intros a Ha. rewrite elem_of_settle_order in Ha. exact (actions_named _ id d inp a eq_refl Ha).
  - rewrite settle_order_Permutation. apply NoDup_action_paths.
  - intros a data Ha Hk Hd. rewrite elem_of_settle_order in Ha. apply (push_local _ inp a) in Ha; [|done].
    apply Hco in Hd. cbn in Ha. congruence.
  - intros a Ha Hk. rewrite elem_of_settle_order in Ha. exact (push_carried inp st a eq_refl eq_refl Hc Ha Hk).
Qed.
End errors.

(** ** Theorems *)
Section theorems.
Context (IsNormalString : string -> bool) (sha256hex : string -> string).
Implicit Types (d : db) (st : storeSync).

(** What holds of the tables across any number of settlements. *)
Record preserved d d' : Prop := {
  kept_tree : tree_ok d -> tree_ok d';
  kept_heads : heads_ok sha256hex d -> heads_ok sha256hex d';
  kept_versions : db_versions d ⊆ db_versions d';
  kept_cap : forall id, count id d' <= Z.max (count id d) MaxMemoriesPerStore }.

Lemma preserved_trans d1 d2 d3 : preserved d1 d2 -> preserved d2 d3 -> preserved d1 d3.
Proof.
  intros [] []. split; auto; [by etrans|].
  intros id. specialize (kept_cap0 id). specialize (kept_cap1 id). lia.
Qed.

Lemma count_others id id' d d' :
  (forall i m, m_store m <> id -> db_memories d' !! i = Some m <-> db_memories d !! i = Some m) ->
  id' <> id -> count id' d' = count id' d.
Proof.
  intros Ho Hne. unfold count. f_equal. apply Permutation_length, NoDup_Permutation.
  1, 2: apply NoDup_filter, NoDup_map_to_list.
  intros [i m]. rewrite !elem_of_store_memories. split; intros [H <-]; split; try done; by apply (Ho i m).
Qed.

Lemma steps_preserved id who d d' : rtc (store_step sha256hex id who) d d' -> preserved d d'.
Proof.
  intros Hs. split.
  - intros H. eapply steps_inv; [apply step_tree_ok|done|done].
  - intros H. eapply steps_inv; [apply step_heads_ok|done|done].
  - by eapply steps_versions.
  - intros id'. destruct (decide (id' = id)) as [->|Hne]; [by eapply steps_count|].
    rewrite (count_others id id' d d'); [lia| |done]. intros i m. by eapply steps_others.
Qed.

(** The settlement keeps the store's tables sound, whatever the directories hold and
    whichever stores fail and are rolled back.  No two memories of a store are ever at,
    above or below one another's path; every memory's digest, size and head pointer
    agree with its content and with a version row of that very write; versions are only
    added; no store grows past the cap; and a store the run does not mount keeps every
    row as it was. *)
Theorem settleMemory_sound rnds d sid stores d' out :
  Forall (coherent sha256hex) stores ->
  settleMemory IsNormalString sha256hex rnds d sid stores = (d', out) ->
  preserved d d' /\
  (forall i m, m_store m ∉ map (fun st => ref_store (ref st)) stores ->
     db_memories d' !! i = Some m <-> db_memories d !! i = Some m).
Proof.
  unfold settleMemory. generalize (@nil storeSync). intros done Hco. revert d done.
  induction Hco as [|st stores Hst Hco IH]; intros d done; cbn [foldl map].
  { intros [= <- <-]. split; [|done]. split; auto. intros id. lia. }
  unfold settle_one at 2. destruct (skipped st).
  { intros [Hp Ho]%IH. split; [done|]. intros i m Hm. apply Ho. by intros ?; apply Hm; right. }
  destruct (settleStore _ _ _ _ _ _) as [[d1 st1]|e] eqn:E.
  2: { intros [Hp Ho]%IH. split; [done|]. intros i m Hm. apply Ho. by intros ?; apply Hm; right. }
  destruct (settleStore_steps _ _ _ _ _ _ _ _ _ eq_refl Hst E) as (Hs & _ & _).
  intros [Hp Ho]%IH. split.
  - eapply preserved_trans; [by eapply steps_preserved|done].
  - intros i m Hm. rewrite Ho by (intros ?; apply Hm; by right).
    eapply steps_others; [done|]. intros E'. apply Hm. rewrite E'. left.
Qed.

(** The baseline a settlement leaves claims agreement only where there is agreement:
    every digest it records is the digest the store holds at that path when the
    transaction commits, whether it was pulled, pushed, or kept through a refusal or a
    pull-only sync.  A deletion or an update the plan conditioned on a head is therefore
    never conditioned on a head the store did not have. *)
Theorem settleStore_truthful rnd d sid st d' st' :
  coherent sha256hex st ->
  settleStore IsNormalString sha256hex rnd d sid st = Ok (d', st') -> skipped st' = false ->
  forall p sha, Synced (next st') !! p = Some sha ->
    exists i m, db_memories d' !! i = Some m /\ m_store m = ref_store (ref st) /\ m_path m = p /\ m_sha m = sha.
Proof.
  intros Hco E Hs p sha Hp. destruct (settleStore_steps _ _ _ _ _ _ _ _ _ eq_refl Hco E) as (_ & Ht & _).
  destruct (Ht Hs p sha Hp) as (i & m & ?). by exists i, m.
Qed.

(** What the read phase carried is what the settlement needs: once the changed files
    have been read, a settlement cannot fail for a push without bytes or a pull without
    a memory; the only error left is a version id already taken. *)
Theorem readChanged_settles readCapped rnd d sid st0 st e :
  readChanged sha256hex readCapped st0 = Ok st ->
  settleStore IsNormalString sha256hex rnd d sid st = Err e -> e = ErrDuplicateKey.
Proof. intros [Hc Hco]%readChanged_spec. by eapply settleStore_Err. Qed.

Lemma settle_fold_pulls rnd sid l d st held d' st' held' :
  Forall (fun a => aKind a = Pull \/ aKind a = RemoveLocal) l ->
  fold_result (settle_action sha256hex rnd sid) (d, st, held) l = Ok (d', st', held') -> d' = d.
Proof.
  intros Hl. revert d st held. induction Hl as [|a l Ha Hl IH]; intros d st held; cbn [fold_result].
  { by intros [= <- _ _]. }
  destruct (settle_action _ _ _ _ a) as [[[d1 st1] h1]|] eqn:E; [|done]. intros H%IH. subst d1.
  unfold settle_action in E. destruct Ha as [Ha|Ha]; rewrite Ha in E.
  - destruct (db_memories d !! aID a); [|done]. by injection E as <- _ _.
  - by injection E as <- _ _.
Qed.

(** A sync that may not write writes nothing.  For a read_only attachment, an archived
    store, or a directory whose marker is not this store's, the settlement leaves every
    table as it found it. *)
Theorem settleStore_pull_only rnd d sid st d' st' row :
  db_stores d !! ref_store (ref st) = Some row ->
  ref_access (ref st) = read_only \/ is_Some (s_archived row) \/ markerOK st = false ->
  settleStore IsNormalString sha256hex rnd d sid st = Ok (d', st') -> d' = d.
Proof.
  intros Hs Hro. unfold settleStore. rewrite Hs.
  set (inp := settle_input (s_archived row) (remote_heads d (ref_store (ref st))) st).
  assert (Hpo : iPullOnly inp = true).
  { unfold inp, settle_input; cbn. destruct Hro as [->|[Ha| ->]].
    - by rewrite bool_decide_true.
    - rewrite (bool_decide_true (is_Some (s_archived row))) by done. by rewrite orb_true_r.
    - by rewrite orb_true_r. }
  destruct (fold_result _ _ _) as [[[d1 st1] h1]|] eqn:E; [|done]. intros [= <- <-].
  eapply settle_fold_pulls; [|done]. apply Forall_forall. intros a Ha. rewrite elem_of_settle_order in Ha.
  apply actions_planned in Ha as [(h & Hh & ->)|Ha]; [by left|].
  destruct Ha; cbn; auto; congruence.
Qed.
End theorems.

(** ** A run: one file edited, one created, one deleted in the directory. *)
Definition ex_sha (s : string) : string := s.
Definition ex_rnd : supply :=
  MkSupply (fun n => [Z.of_nat n; 0; 0; 0; 0; 0; 0; 0; 0; 0; 0; 0; 0; 0; 0]) (fun n => 100 + Z.of_nat n).

Definition ex_store : store := MkStore "notes" "" ∅ None 1 1 None.

Definition ex_db : db :=
  MkDb {["memstore_1" := ex_store]}
    (list_to_map [("mem_a", MkMemory "memstore_1" "/a.md" "a0" "a0" 2 "memver_a" 1 1);
                  ("mem_c", MkMemory "memstore_1" "/c.md" "c0" "c0" 2 "memver_c" 1 1)])
    ∅ 0.

Definition ex_sync (acc : access) : storeSync :=
  MkSync (MkRef "memstore_1" "/mnt/memory/notes" acc) "" true false
    (list_to_map [("/a.md", "a1"); ("/b/x.md", "b0")])
    (MkBaseline (list_to_map [("/a.md", "a0"); ("/c.md", "c0")]) ∅)
    (list_to_map [("/a.md", "a1"); ("/b/x.md", "b0")])
    false false [] [] (MkBaseline ∅ ∅) (MkCounts 0 0 0 0 0 0).

Lemma ex_coherent acc : coherent ex_sha (ex_sync acc).
Proof.
  assert (H : bool_decide (map_Forall (fun p data => local (ex_sync acc) !! p = Some (ex_sha data))
                (contents (ex_sync acc))) = true) by (vm_compute; reflexivity).
  apply bool_decide_eq_true in H. exact H.
Qed.

Lemma settleMemory_sound_witness :
  let r := settleMemory (fun _ => true) ex_sha (fun _ => ex_rnd) ex_db "sesn_1" [ex_sync read_write] in
  map (fun kv => (m_path kv.2, m_content kv.2)) (map_to_list (db_memories r.1)) = [("/a.md", "a1"); ("/b/x.md", "b0")] /\
  preserved ex_sha ex_db r.1.
Proof.
  intros r. split; [vm_compute; reflexivity|].
  refine (proj1 (settleMemory_sound (fun _ => true) ex_sha (fun _ => ex_rnd) ex_db "sesn_1" [ex_sync read_write]
                   r.1 r.2 _ _)); [|apply surjective_pairing].
  constructor; [apply ex_coherent|constructor].
Defined.

Lemma settleStore_truthful_witness :
  exists d' st', settleStore (fun _ => true) ex_sha ex_rnd ex_db "sesn_1" (ex_sync read_write) = Ok (d', st') /\
    exists i m, db_memories d' !! i = Some m /\ m_store m = "memstore_1" /\ m_path m = "/b/x.md" /\ m_sha m = "b0".
Proof.
  eexists _, _. split; [vm_compute; reflexivity|].
  refine (settleStore_truthful (fun _ => true) ex_sha ex_rnd ex_db "sesn_1" (ex_sync read_write) _ _
            (ex_coherent read_write) _ _ "/b/x.md" "b0" _); [vm_compute; reflexivity..|].
  vm_compute. reflexivity.
Defined.

Lemma settleStore_pull_only_witness :
  exists st', settleStore (fun _ => true) ex_sha ex_rnd ex_db "sesn_1" (ex_sync read_only) = Ok (ex_db, st').
Proof.
  destruct (settleStore (fun _ => true) ex_sha ex_rnd ex_db "sesn_1" (ex_sync read_only)) as [[d' st']|e] eqn:E;
    [|vm_compute in E; discriminate].
  exists st'. do 2 f_equal.
  exact (settleStore_pull_only (fun _ => true) ex_sha ex_rnd ex_db "sesn_1" (ex_sync read_only) d' st' ex_store
           eq_refl (or_introl eq_refl) E).
Defined.

(** Both ids the create needs are taken: the one way left to fail. *)
Definition ex_taken : db :=
  MkDb {["memstore_1" := ex_store]} ∅
    {[NewID PrefixMemoryVersion (ex_rnd 0%nat) := MkVersion "memstore_1" "mem_a" created (Some "/a.md") None None None None 1 None]} 0.

Definition ex_read (p : string) : read_result := if String.eqb p "/a.md" then ReadOk "a1" else ReadOk "b0".

Lemma readChanged_settles_witness :
  exists st e, readChanged ex_sha ex_read (ex_sync read_write) = Ok st /\
    settleStore (fun _ => true) ex_sha ex_rnd ex_taken "sesn_1" st = Err e /\ e = ErrDuplicateKey.
Proof.
  destruct (readChanged ex_sha ex_read (ex_sync read_write)) as [st|] eqn:E1; [|vm_compute in E1; discriminate].
  exists st. destruct (settleStore (fun _ => true) ex_sha ex_rnd ex_taken "sesn_1" st) as [x|e] eqn:E2.
  { exfalso. vm_compute in E1. injection E1 as <-. vm_compute in E2. discriminate. }
  exists e. split_and!; [done..|].
  exact (readChanged_settles (fun _ => true) ex_sha ex_read ex_rnd ex_taken "sesn_1" (ex_sync read_write) st e E1 E2).
Defined.
