(* ===== verification/Json.v ===== *)
(** * Json: decoded JSON documents, and what [encoding/json] makes of them.

    A document is its decoded value; a number keeps its literal.  An object is the
    list of its members in the order they are written, and a key written twice holds
    its last value, as [json.Unmarshal] into a map leaves it. *)
From Stdlib Require Import Ascii Lia.
From S2P Require Import Prelude GoStrings.

Inductive json :=
| JNull
| JBool (b : bool)
| JNumber (lit : string)
| JString (s : string)
| JArray (items : list json)
| JObject (members : list (string * json)).

(** Members as a map would hold them. *)
Fixpoint obj_get (members : list (string * json)) (k : string) : option json :=
  match members with
  | [] => None
  | (k', v) :: rest =>
      match obj_get rest k with
      | Some w => Some w
      | None => if String.eqb k' k then Some v else None
      end
  end.

(** [json.Unmarshal] into a [map[string]json.RawMessage]: null leaves the map nil. *)
Definition decode_map (v : json) : option (list (string * json)) :=
  match v with JObject ms => Some ms | JNull => Some [] | _ => None end.

(** [json.Unmarshal] into a string: null leaves it empty.  A key the object does not
    have is no document at all, which is an error. *)
Definition decode_string (v : option json) : option string :=
  match v with Some (JString s) => Some s | Some JNull => Some "" | _ => None end.

Definition decode_bool (v : option json) : option bool :=
  match v with Some (JBool b) => Some b | Some JNull => Some false | _ => None end.

(** *** Decoding into a struct

    A member is matched to a field by its name, or by its name without regard to case
    (the runes K and s have a third spelling each, the Kelvin sign and the long s). *)
Definition fold_rune (r : Z) : Z :=
  if in_range 65 90 r then r + 32 else if r =? 0x212A then 107 else if r =? 0x17F then 115 else r.

Definition key_matches (k field : string) : bool :=
  String.eqb k field || bool_decide (map (fun rb => fold_rune rb.1) (runes k) = map (fun rb => fold_rune rb.1) (runes field)).

(** The members that match a field, one after another, over its zero value. *)
Fixpoint decode_field {A} (dec : A -> json -> option A) (field : string) (cur : A) (members : list (string * json)) : option A :=
  match members with
  | [] => Some cur
  | (k, v) :: rest =>
      if key_matches k field
      then match dec cur v with Some cur => decode_field dec field cur rest | None => None end
      else decode_field dec field cur rest
  end.

(** A field of the document; null leaves every field at its zero value. *)
Definition body_field {A} (dec : A -> json -> option A) (zero : A) (body : option json) (field : string) : option A :=
  match body with
  | Some (JObject ms) => decode_field dec field zero ms
  | Some JNull => Some zero
  | _ => None
  end.

Definition dec_string (cur : string) (v : json) : option string :=
  match v with JString s => Some s | JNull => Some cur | _ => None end.

(** A [*string] field: null leaves it nil. *)
Definition dec_string_ptr (cur : option string) (v : json) : option (option string) :=
  match v with JString s => Some (Some s) | JNull => Some None | _ => None end.

(** A [json.RawMessage] takes whatever is there, null included. *)
Definition dec_raw (cur : option json) (v : json) : option (option json) := Some (Some v).

Definition dec_int (cur : Z) (v : json) : option Z :=
  match v with JNumber lit => Atoi lit | JNull => Some cur | _ => None end.

Definition dec_bool_ptr (cur : option bool) (v : json) : option (option bool) :=
  match v with JBool b => Some (Some b) | JNull => Some None | _ => None end.

(** A string field: each member that matches it sets it in turn; null, and a value of
    another type, leave it as it is. *)
Fixpoint field_string_go (members : list (string * json)) (field cur : string) : string :=
  match members with
  | [] => cur
  | (k, v) :: rest =>
      field_string_go rest field
        (if key_matches k field then match v with JString s => s | _ => cur end else cur)
  end.

Definition field_string (v : json) (field : string) : string :=
  match v with JObject ms => field_string_go ms field EmptyString | _ => EmptyString end.

(** The document decodes into a struct whose fields are the strings [fields]. *)
Definition struct_ok (v : json) (fields : list string) : bool :=
  match v with
  | JNull => true
  | JObject ms =>
      forallb (fun kv => negb (existsb (key_matches kv.1) fields) ||
                         match kv.2 with JString _ | JNull => true | _ => false end) ms
  | _ => false
  end.

(** *** Postgres's [->>] on a stored document: the member's text, none for null or an
    absent key.  An array or an object renders as text that starts with its bracket; the
    bracket stands for it, since the code compares the text with names and ids alone. *)
Definition json_text (v : json) : option string :=
  match v with
  | JNull => None
  | JBool true => Some "true"
  | JBool false => Some "false"
  | JNumber lit => Some lit
  | JString s => Some s
  | JArray _ => Some "["
  | JObject _ => Some "{"
  end.

Definition text_at (v : json) (k : string) : option string :=
  match v with
  | JObject ms => match obj_get ms k with Some w => json_text w | None => None end
  | _ => None
  end.

(** *** [json.Number]: the literal grammar [encoding/json] checks a string against. *)
Definition json_digit (c : ascii) : bool := in_range 48 57 (ord c).

Fixpoint skip_digits (s : string) : string :=
  match s with String c s' => if json_digit c then skip_digits s' else s | EmptyString => s end.

Definition skip_exponent (s : string) : option string :=
  match s with
  | String e (String c s' as s1) =>
      if Ascii.eqb e "e" || Ascii.eqb e "E" then
        if Ascii.eqb c "+" || Ascii.eqb c "-"
        then match s' with EmptyString => None | _ => Some (skip_digits s') end
        else Some (skip_digits s1)
      else Some s
  | _ => Some s
  end.

Definition isValidNumber (s : string) : bool :=
  let s := match s with String "-" s' => s' | _ => s end in
  match (match s with
         | String c s' => if Ascii.eqb c "0" then Some s' else if json_digit c then Some (skip_digits s') else None
         | EmptyString => None
         end) with
  | None => false
  | Some s =>
      let s := match s with
               | String "." (String d s') => if json_digit d then skip_digits s' else s
               | _ => s
               end in
      match skip_exponent s with Some s => String.eqb s EmptyString | None => false end
  end.

(** [json.Unmarshal] into a [json.Number] that is not null. *)
Definition decode_number (v : json) : option string :=
  match v with
  | JNumber lit => Some lit
  | JString s => if isValidNumber s then Some s else None
  | _ => None
  end.

Definition has_nul (s : string) : bool := negb (all_bytes (fun c => negb (Ascii.eqb c zero)) s).

(** A string of the decoded document, a key included, holds a NUL; of a key that repeats
    the decoder keeps the last value, and that alone is read. *)
Fixpoint json_nul (v : json) : bool :=
  match v with
  | JString s => has_nul s
  | JArray items => existsb json_nul items
  | JObject ms =>
      (fix members (ms : list (string * json)) : bool :=
         match ms with
         | [] => false
         | (k, w) :: rest => has_nul k || negb (existsb (fun kv => String.eqb kv.1 k) rest) && json_nul w || members rest
         end) ms
  | _ => false
  end.

Definition is_null (v : json) : bool := match v with JNull => true | _ => false end.

(** Recursion into the elements of arrays and the members of objects. *)
Section json_ind.
Variable P : json -> Prop.
Hypothesis Hnull : P JNull.
Hypothesis Hbool : forall b, P (JBool b).
Hypothesis Hnumber : forall n, P (JNumber n).
Hypothesis Hstring : forall s, P (JString s).
Hypothesis Harray : forall l, Forall P l -> P (JArray l).
Hypothesis Hobject : forall ms, Forall (fun kv => P kv.2) ms -> P (JObject ms).

Fixpoint json_nested_ind (v : json) : P v :=
  match v with
  | JNull => Hnull
  | JBool b => Hbool b
  | JNumber n => Hnumber n
  | JString s => Hstring s
  | JArray l =>
      Harray l ((fix go (l : list json) : Forall P l :=
        match l with
        | [] => Forall_nil_2 P
        | x :: l' => Forall_cons_2 P x l' (json_nested_ind x) (go l')
        end) l)
  | JObject ms =>
      Hobject ms ((fix go (ms : list (string * json)) : Forall (fun kv => P kv.2) ms :=
        match ms with
        | [] => Forall_nil_2 _
        | x :: ms' => Forall_cons_2 (fun kv => P kv.2) x ms' (json_nested_ind x.2) (go ms')
        end) ms)
  end.
End json_ind.

Lemma obj_get_In ms k v : obj_get ms k = Some v -> (k, v) ∈ ms.
Proof.
  induction ms as [|[k' w] ms IH]; simpl; [done|].
  destruct (obj_get ms k) as [u|] eqn:E1.
  - intros [= <-]. right. by apply IH.
  - destruct (String.eqb_spec k' k) as [->|]; [|done]. intros [= <-]. left.
Qed.

Lemma obj_get_None ms k : obj_get ms k = None <-> k ∉ ms.*1.
Proof.
  induction ms as [|[k' w] ms IH]; simpl; [split; [intros _; apply not_elem_of_nil|done]|].
  rewrite not_elem_of_cons, <- IH. destruct (obj_get ms k) as [u|] eqn:E1; [naive_solver|].
  destruct (String.eqb_spec k' k) as [->|]; naive_solver.
Qed.

(** Equality of decoded documents. *)
Fixpoint json_eqb (a b : json) : bool :=
  match a, b with
  | JNull, JNull => true
  | JBool x, JBool y => Bool.eqb x y
  | JNumber x, JNumber y => String.eqb x y
  | JString x, JString y => String.eqb x y
  | JArray l, JArray k =>
      (fix go l k := match l, k with [], [] => true | x :: l', y :: k' => json_eqb x y && go l' k' | _, _ => false end) l k
  | JObject l, JObject k =>
      (fix go l k :=
         match l, k with
         | [], [] => true
         | (n, x) :: l', (m, y) :: k' => String.eqb n m && json_eqb x y && go l' k'
         | _, _ => false
         end) l k
  | _, _ => false
  end.

Lemma json_eqb_eq a b : json_eqb a b = true <-> a = b.
Proof.
  revert b. induction a as [| x| x| x| l IH| l IH] using json_nested_ind; intros [| y| y| y| k| k]; cbn; try done.
  - rewrite Bool.eqb_true_iff. split; congruence.
  - rewrite String.eqb_eq. split; congruence.
  - rewrite String.eqb_eq. split; congruence.
  - transitivity (l = k); [|split; congruence]. revert k. induction IH as [|x l Hx _ IHl]; intros [|y k]; try done.
    rewrite andb_true_iff, Hx, IHl. split; [by intros [-> ->]|by intros [= -> ->]].
  - transitivity (l = k); [|split; congruence]. revert k. induction IH as [|[n x] l Hx _ IHl]; intros [|[m y] k]; try done.
    cbn in Hx. rewrite !andb_true_iff, Hx, IHl, String.eqb_eq. split; [by intros [[-> ->] ->]|by intros [= -> -> ->]].
Qed.
