(* ===== verification/Domain.v ===== *)
(** * Domain: the event vocabulary (internal/domain/event.go).

    An event type is the string the log stores; its classes are predicates on it. *)
From Stdlib Require Import Ascii.
From S2P Require Import Prelude GoStrings Json.

Definition EventType := string.

Definition EventUserMessage : EventType := "user.message".
Definition EventUserInterrupt : EventType := "user.interrupt".
Definition EventUserToolConfirm : EventType := "user.tool_confirmation".
Definition EventUserCustomToolRes : EventType := "user.custom_tool_result".
Definition EventUserToolResult : EventType := "user.tool_result".
Definition EventUserDefineOutcome : EventType := "user.define_outcome".
Definition EventSystemMessage : EventType := "system.message".
Definition EventAgentToolUse : EventType := "agent.tool_use".
Definition EventAgentToolResult : EventType := "agent.tool_result".
Definition EventAgentMCPToolUse : EventType := "agent.mcp_tool_use".
Definition EventAgentMCPToolResult : EventType := "agent.mcp_tool_result".
Definition EventAgentCustomToolUse : EventType := "agent.custom_tool_use".
Definition EventAgentThreadMessageReceived : EventType := "agent.thread_message_received".
Definition EventAgentThreadMessageSent : EventType := "agent.thread_message_sent".
Definition EventAgentMessage : EventType := "agent.message".
Definition EventAgentThinking : EventType := "agent.thinking".
Definition EventSessionStatusRunning : EventType := "session.status_running".
Definition EventSessionStatusIdle : EventType := "session.status_idle".
Definition EventSessionStatusRescheduled : EventType := "session.status_rescheduled".
Definition EventSessionStatusTerminated : EventType := "session.status_terminated".
Definition EventSessionError : EventType := "session.error".
Definition EventSessionUsage : EventType := "session.usage".
Definition EventSessionThreadStatusRunning : EventType := "session.thread_status_running".
Definition EventSessionThreadStatusIdle : EventType := "session.thread_status_idle".
Definition EventSessionThreadCreated : EventType := "session.thread_created".
Definition EventSessionThreadStatusRescheduled : EventType := "session.thread_status_rescheduled".
Definition EventSessionThreadStatusTerminated : EventType := "session.thread_status_terminated".
Definition EventSpanModelRequestStart : EventType := "span.model_request_start".
Definition EventSpanModelRequestEnd : EventType := "span.model_request_end".
Definition EventSpanOutcomeEvalStart : EventType := "span.outcome_evaluation_start".
Definition EventSpanOutcomeEvalEnd : EventType := "span.outcome_evaluation_end".
Definition EventStart : EventType := "event_start".
Definition EventDelta : EventType := "event_delta".

(** [slices.Contains]. *)
Definition mem_string (x : string) (l : list string) : bool := existsb (String.eqb x) l.

(** [Domain]: the part before the first dot, the whole string without one. *)
Definition event_domain (t : EventType) : string :=
  let '(before, _, found) := Cut t "." in if (found : bool) then before else t.

Definition Inbound (t : EventType) : bool :=
  String.eqb (event_domain t) "user" || String.eqb (event_domain t) "system".

Definition ConsumedInputs : list EventType :=
  [EventUserMessage; EventUserDefineOutcome; EventAgentThreadMessageReceived].

Definition StampedOnConsumption (t : EventType) : bool := Inbound t || mem_string t ConsumedInputs.

Definition StartsNewWork (t : EventType) : bool :=
  mem_string t [EventUserMessage; EventUserDefineOutcome; EventUserToolConfirm; EventSystemMessage].

Definition Persisted (t : EventType) : bool :=
  negb (String.eqb t EventStart) && negb (String.eqb t EventDelta).

(** ** Usage (internal/domain/session.go) *)

Record CacheCreation := MkCache { Ephemeral1h : Z; Ephemeral5m : Z }.

Record Usage := MkUsage {
  InputTokens : Z;
  OutputTokens : Z;
  CacheReadInputTokens : Z;
  CacheCreated : CacheCreation;
}.

(** One turn's flat counters. *)
Record ModelUsage := MkModelUsage {
  mu_cacheCreation : Z;
  mu_cacheRead : Z;
  mu_input : Z;
  mu_output : Z;
}.

(** [Usage.Add], on 64-bit counters. *)
Definition Usage_Add (u : Usage) (m : ModelUsage) : Usage :=
  MkUsage (wrap64 (InputTokens u + mu_input m)) (wrap64 (OutputTokens u + mu_output m))
    (wrap64 (CacheReadInputTokens u + mu_cacheRead m))
    (MkCache (Ephemeral1h (CacheCreated u)) (wrap64 (Ephemeral5m (CacheCreated u) + mu_cacheCreation m))).

(** ** The name a model is offered an MCP tool under (internal/domain/mcpname.go) *)

Definition model_name_byte (c : ascii) : bool :=
  in_range 97 122 (ord c) || in_range 65 90 (ord c) || in_range 48 57 (ord c) || Ascii.eqb c "_" || Ascii.eqb c "-".

Fixpoint appendModelName (b s : string) : string :=
  match s with
  | EmptyString => b
  | String c s' => appendModelName (b +:+ String (if model_name_byte c then c else "_"%char) EmptyString) s'
  end.

Definition MCPModelName (server tool : string) : string :=
  appendModelName (appendModelName ("mcp__") server +:+ "__") tool.

(** The stored envelope.  [Body] is the decoded document, [None] when it does not
    decode, and [BodyLen] its length as stored; the timestamps of the row are not read
    by the code modelled here. *)
Record Event := MkEvent {
  ID : string;
  ThreadID : string;
  Seq : Z;
  Type_ : EventType;
  Body : option json;
  BodyLen : Z;
}.

Lemma mem_string_spec x l : mem_string x l = true <-> x ∈ l.
Proof.
  unfold mem_string. rewrite existsb_exists. split.
  - intros (y & Hy & ->%String.eqb_eq). by apply list_elem_of_In.
  - intros Hx. exists x. split; [by apply list_elem_of_In|apply String.eqb_refl].
Qed.
