(* ===== verification/Consumption.v ===== *)
(** * Consumption: the order a model reads its log in (internal/events/consumption.go).

    [Push] takes the rows of a log in seq order and emits them in consumption order:
    an input that lands while a call is in flight on its thread is held and comes out
    right ahead of the thread's next start. *)
From Stdlib Require Import Lia.
From S2P Require Import Prelude GoStrings Json Domain.

Definition ConsumedInput (t : EventType) : bool := mem_string t ConsumedInputs.

Definition RequestInputTypes : list EventType := ConsumedInputs ++ [EventSystemMessage].

Record window := MkWindow { w_start : string; w_end : EventType; w_key : string }.

Record ConsumptionOrderer := MkOrderer {
  o_open : gmap string window;
  o_held : gmap string (list Event);
  o_heldBytes : Z;
}.

(** The zero value. *)
Definition new_orderer : ConsumptionOrderer := MkOrderer ∅ ∅ 0.

Definition windowOf (ev : Event) : option window :=
  if String.eqb (Type_ ev) EventSpanModelRequestStart
  then Some (MkWindow (ID ev) EventSpanModelRequestEnd "model_request_start_id")
  else if String.eqb (Type_ ev) EventSpanOutcomeEvalStart
  then Some (MkWindow (ID ev) EventSpanOutcomeEvalEnd "outcome_evaluation_start_id")
  else None.

Definition closes (ev : Event) (w : window) : bool :=
  match Body ev with
  | None => true
  | Some v =>
      match decode_map v with
      | None => true
      | Some p =>
          match decode_string (obj_get p (w_key w)) with
          | None => true
          | Some startID => String.eqb startID "" || String.eqb startID (w_start w)
          end
      end
  end.

Definition heldRowOverhead : Z := 256.
Definition heldWeight (ev : Event) : Z := BodyLen ev + heldRowOverhead.

Definition held_of (o : ConsumptionOrderer) (t : string) : list Event := default [] (o_held o !! t).

Definition sum_weights (l : list Event) : Z := foldr (fun ev n => heldWeight ev + n) 0 l.

(** [release]: thread [t]'s held inputs, which are forgotten. *)
Definition release (o : ConsumptionOrderer) (t : string) : list Event * ConsumptionOrderer :=
  (held_of o t,
   MkOrderer (o_open o) (delete t (o_held o)) (o_heldBytes o - sum_weights (held_of o t))).

(** [Push]: the rows appended to [out], and the orderer left. *)
Definition Push (o : ConsumptionOrderer) (ev : Event) : list Event * ConsumptionOrderer :=
  let t := ThreadID ev in
  match windowOf ev with
  | Some opened =>
      let '(out, o1) := release o t in
      (out ++ [ev], MkOrderer (<[t := opened]> (o_open o1)) (o_held o1) (o_heldBytes o1))
  | None =>
      if (bool_decide (is_Some (o_open o !! t)) || negb (Nat.eqb (length (held_of o t)) 0))
           && ConsumedInput (Type_ ev)
      then ([], MkOrderer (o_open o) (<[t := held_of o t ++ [ev]]> (o_held o))
                  (o_heldBytes o + heldWeight ev))
      else match o_open o !! t with
           | Some w =>
               if String.eqb (Type_ ev) (w_end w) && closes ev w
               then ([ev], MkOrderer (delete t (o_open o)) (o_held o) (o_heldBytes o))
               else ([ev], o)
           | None => ([ev], o)
           end
  end.

Definition seq_le (a b : Event) : Prop := Seq a <= Seq b.
#[global] Instance seq_le_dec : RelDecision seq_le.
Proof. intros a b. unfold seq_le. apply _. Defined.

(** [Flush]: every held input, all threads merged by seq; the orderer starts afresh. *)
Definition Flush (o : ConsumptionOrderer) : list Event * ConsumptionOrderer :=
  (merge_sort seq_le (concat (map_to_list (o_held o)).*2), new_orderer).

Definition HeldBytes (o : ConsumptionOrderer) : Z := o_heldBytes o.

(** The loop over a log: rows emitted so far, and the orderer. *)
Fixpoint push_all (o : ConsumptionOrderer) (rows : list Event) : list Event * ConsumptionOrderer :=
  match rows with
  | [] => ([], o)
  | ev :: rows' =>
      let '(out, o1) := Push o ev in
      let '(out', o2) := push_all o1 rows' in (out ++ out', o2)
  end.

Definition ConsumptionOrder (history : list Event) : list Event :=
  let '(out, o) := push_all new_orderer history in out ++ (Flush o).1.
