(* ===== verification/ConsumptionSpec.v ===== *)
(** * ConsumptionSpec: what the consumption order is.

    [thread_order] says it without a state: a thread's log is cut at the starts of its
    calls, and a piece whose call was in flight when an input landed has its inputs
    moved to its end, right ahead of the next start.  The streaming code computes it
    for every thread of a session at once. *)
From Stdlib Require Import Lia.
From S2P Require Import Prelude GoStrings Json Domain Consumption.

(** ** The rule, per thread *)

Definition is_input (ev : Event) : Prop := ConsumedInput (Type_ ev) = true.
#[global] Instance is_input_dec ev : Decision (is_input ev).
Proof. unfold is_input. apply _. Defined.

Definition of_thread (t : string) (ev : Event) : Prop := ThreadID ev = t.
#[global] Instance of_thread_dec t ev : Decision (of_thread t ev).
Proof. unfold of_thread. apply _. Defined.

Definition seq_lt (a b : Event) : Prop := Seq a < Seq b.

(** The row that closes the call [w]. *)
Definition closing (w : window) (ev : Event) : bool :=
  String.eqb (Type_ ev) (w_end w) && closes ev w.

(** The rows of a piece written while the call that opened it was in flight. *)
Fixpoint in_flight (w : window) (seg : list Event) : list Event :=
  match seg with
  | [] => []
  | ev :: seg' => if closing w ev then [] else ev :: in_flight w seg'
  end.

(** Did an input land while the piece's call was in flight? *)
Definition missed (w : option window) (seg : list Event) : bool :=
  match w with
  | None => false
  | Some w => existsb (fun ev => ConsumedInput (Type_ ev)) (in_flight w seg)
  end.

Definition kept (w : option window) (seg : list Event) : list Event :=
  if missed w seg then filter (fun ev => ~ is_input ev) seg else seg.

Definition delayed (w : option window) (seg : list Event) : list Event :=
  if missed w seg then filter is_input seg else [].

(** One piece, in consumption order. *)
Definition settle (w : option window) (seg : list Event) : list Event := kept w seg ++ delayed w seg.

(** [seg] is the piece read so far, opened by [w]. *)
Fixpoint order_from (w : option window) (seg h : list Event) : list Event :=
  match h with
  | [] => settle w seg
  | ev :: h' =>
      match windowOf ev with
      | Some w' => settle w seg ++ ev :: order_from (Some w') [] h'
      | None => order_from w (seg ++ [ev]) h'
      end
  end.

Definition thread_order (h : list Event) : list Event := order_from None [] h.

(** ** The code's state, one thread at a time *)

(** A window the code can hold: its end is no consumed input. *)
Definition window_ok (w : option window) : Prop :=
  match w with None => True | Some w => ConsumedInput (w_end w) = false end.

Definition still_open (w : option window) (seg : list Event) : option window :=
  match w with
  | None => None
  | Some w => if existsb (closing w) seg then None else Some w
  end.

Definition sim (o : ConsumptionOrderer) (t : string) (w : option window) (seg : list Event) : Prop :=
  o_open o !! t = still_open w seg /\ held_of o t = delayed w seg.

Definition held_ok (o : ConsumptionOrderer) : Prop :=
  forall t l, o_held o !! t = Some l -> Forall (of_thread t) l /\ Forall is_input l.

Definition held_all (o : ConsumptionOrderer) : list Event := concat (map_to_list (o_held o)).*2.

Lemma windowOf_ok ev w : windowOf ev = Some w -> window_ok (Some w).
Proof. unfold windowOf. repeat case_match; intros [= <-]; vm_compute; done. Qed.

Lemma closing_not_input w ev : window_ok (Some w) -> closing w ev = true -> ~ is_input ev.
Proof.
  unfold closing, is_input. cbn [window_ok]. intros Hw [->%String.eqb_eq _]%andb_true_iff. congruence.
Qed.

Lemma in_flight_closed w seg ev :
  existsb (closing w) seg = true -> in_flight w (seg ++ [ev]) = in_flight w seg.
Proof.
  induction seg as [|x seg IH]; cbn [existsb app in_flight]; [done|].
  destruct (closing w x); cbn; [done|]. intros H. by rewrite IH.
Qed.

Lemma in_flight_open w seg :
  existsb (closing w) seg = false -> in_flight w seg = seg.
Proof.
  induction seg as [|x seg IH]; cbn [existsb app in_flight]; [done|].
  destruct (closing w x); cbn; [done|]. intros H. by rewrite IH.
Qed.

Lemma missed_false_open w seg :
  missed (Some w) seg = false -> existsb (closing w) seg = false ->
  Forall (fun ev => ~ is_input ev) seg.
Proof.
  unfold missed. intros Hm Ho. rewrite (in_flight_open _ _ Ho) in Hm.
  apply Forall_forall. intros ev Hev Hin.
  assert (existsb (fun ev => ConsumedInput (Type_ ev)) seg = true); [|congruence].
  apply existsb_exists. exists ev. split; [by apply list_elem_of_In|done].
Qed.

Lemma filter_none {A} (P : A -> Prop) `{forall x, Decision (P x)} l :
  Forall (fun x => ~ P x) l -> filter P l = [].
Proof.
  induction 1 as [|x l Hx _ IH]; [done|]. by rewrite filter_cons_False.
Qed.

Lemma filter_every {A} (P : A -> Prop) `{forall x, Decision (P x)} l :
  Forall P l -> filter P l = l.
Proof.
  induction 1 as [|x l Hx _ IH]; [done|]. by rewrite filter_cons_True, IH.
Qed.

(** A row of a piece either waits for the next start or comes out where it stands. *)
Lemma missed_app w seg ev :
  missed w seg = true -> missed w (seg ++ [ev]) = true.
Proof.
  destruct w as [w|]; [|done]. unfold missed.
  destruct (existsb (closing w) seg) eqn:Ho.
  - by rewrite in_flight_closed.
  - rewrite (in_flight_open _ _ Ho). intros H.
    assert (Hp : forall r, exists s, in_flight w (seg ++ r) = seg ++ s).
    { clear H. intros r. induction seg as [|x seg IH]; [by eexists|].
      cbn [existsb] in Ho. apply orb_false_iff in Ho as [Hx Ho]. cbn [app in_flight]. rewrite Hx.
      destruct (IH Ho) as [s ->]. by exists s. }
    destruct (Hp [ev]) as [s ->]. by rewrite existsb_app, H.
Qed.

Lemma missed_delayed w seg : missed w seg = true -> delayed w seg <> [].
Proof.
  intros Hm. unfold delayed. rewrite Hm. destruct w as [w|]; [|done].
  apply existsb_exists in Hm as (ev & Hev & Hin). intros Hf.
  assert (Hs : ev ∈ seg).
  { clear Hf Hin. apply list_elem_of_In in Hev. induction seg as [|x seg IH]; [done|]. cbn [in_flight] in Hev.
    destruct (closing w x); [by apply not_elem_of_nil in Hev|].
    apply elem_of_cons in Hev as [->|Hev]; [apply list_elem_of_here|].
    apply list_elem_of_further, IH, Hev. }
  assert (Hx : ev ∈ filter is_input seg) by (by apply list_elem_of_filter).
  rewrite Hf in Hx. by apply not_elem_of_nil in Hx.
Qed.

Lemma piece_holds w seg ev :
  window_ok w -> is_input ev -> (is_Some (still_open w seg) \/ delayed w seg <> []) ->
  kept w (seg ++ [ev]) = kept w seg /\ delayed w (seg ++ [ev]) = delayed w seg ++ [ev] /\
  still_open w (seg ++ [ev]) = still_open w seg.
Proof.
  intros Hw Hin Hor.
  destruct w as [w|]; [|by destruct Hor as [[? ?]|?]].
  assert (Hnc : closing w ev = false).
  { destruct (closing w ev) eqn:E; [|done]. by apply closing_not_input in E. }
  assert (Hso : still_open (Some w) (seg ++ [ev]) = still_open (Some w) seg).
  { unfold still_open. rewrite existsb_app. cbn. by rewrite Hnc, !orb_false_r. }
  rewrite Hso. destruct (missed (Some w) seg) eqn:Hm.
  - unfold kept, delayed. rewrite (missed_app _ _ _ Hm), Hm, !filter_app.
    rewrite (filter_cons_True is_input), (filter_cons_False (fun e => ~ is_input e)) by auto.
    by rewrite app_nil_r.
  - assert (Hd : delayed (Some w) seg = []) by (unfold delayed; by rewrite Hm).
    destruct Hor as [[w' Hs]|]; [|done]. cbn [still_open] in Hs.
    destruct (existsb (closing w) seg) eqn:Ho; [done|].
    pose proof (missed_false_open _ _ Hm Ho) as Hnone.
    assert (Hm' : missed (Some w) (seg ++ [ev]) = true).
    { cbn [missed]. rewrite in_flight_open by (rewrite existsb_app; cbn; by rewrite Ho, Hnc).
      rewrite existsb_app. cbn [existsb]. unfold is_input in Hin. rewrite Hin. by rewrite orb_true_r. }
    unfold kept, delayed. rewrite Hm', Hm, !filter_app, (filter_none is_input seg Hnone).
    rewrite (filter_every (fun e => ~ is_input e) seg Hnone).
    rewrite (filter_cons_True is_input), (filter_cons_False (fun e => ~ is_input e)) by auto.
    by rewrite app_nil_r.
Qed.

Lemma piece_emits w seg ev :
  (is_input ev -> still_open w seg = None /\ delayed w seg = []) ->
  kept w (seg ++ [ev]) = kept w seg ++ [ev] /\ delayed w (seg ++ [ev]) = delayed w seg.
Proof.
  intros Hin. destruct (missed w seg) eqn:Hm.
  - assert (Hn : ~ is_input ev) by (intros H; by apply Hin in H as [_ ?%missed_delayed]).
    unfold kept, delayed. rewrite (missed_app _ _ _ Hm), Hm, !filter_app.
    rewrite (filter_cons_False is_input), (filter_cons_True (fun e => ~ is_input e)) by auto.
    by rewrite app_nil_r.
  - assert (Hm' : missed w (seg ++ [ev]) = false); [|unfold kept, delayed; by rewrite Hm', Hm].
    destruct w as [w|]; [|done]. cbn [missed still_open] in *.
    destruct (existsb (closing w) seg) eqn:Ho; [by rewrite in_flight_closed|].
    assert (Hn : ConsumedInput (Type_ ev) = false).
    { destruct (ConsumedInput (Type_ ev)) eqn:E; [|done]. by destruct (Hin E). }
    rewrite in_flight_open in Hm by done.
    assert (Hp : in_flight w (seg ++ [ev]) = seg ++ in_flight w [ev]).
    { clear Hm Hin. induction seg as [|x seg IH]; [done|].
      cbn [existsb] in Ho. apply orb_false_iff in Ho as [Hx Ho]. cbn [app in_flight]. rewrite Hx.
      f_equal. by apply IH. }
    rewrite Hp, existsb_app, Hm. cbn [in_flight]. destruct (closing w ev); cbn [existsb]; by rewrite ?Hn.
Qed.

(** ** One push *)

Lemma still_open_app w seg ev :
  still_open w (seg ++ [ev]) =
    match still_open w seg with
    | Some w' => if closing w' ev then None else Some w'
    | None => None
    end.
Proof.
  destruct w as [w|]; [|done]. cbn. rewrite existsb_app. cbn.
  destruct (existsb (closing w) seg); cbn; [done|]. by destruct (closing w ev).
Qed.

Lemma Push_same o t w seg ev out o' :
  window_ok w -> sim o t w seg -> ThreadID ev = t -> windowOf ev = None -> Push o ev = (out, o') ->
  kept w (seg ++ [ev]) = kept w seg ++ out /\ sim o' t w (seg ++ [ev]).
Proof.
  intros Hw [Hopen Hheld] Ht Hno. unfold Push. rewrite Hno, Ht, Hheld, Hopen.
  destruct (bool_decide _ || _) eqn:Hb; cbn [andb].
  - assert (Hor : is_Some (still_open w seg) \/ delayed w seg <> []).
    { apply orb_true_iff in Hb as [H%bool_decide_eq_true|H]; [by left|right].
      intros E. by rewrite E in H. }
    destruct (ConsumedInput (Type_ ev)) eqn:Hin.
    + intros [= <- <-]. destruct (piece_holds w seg ev Hw Hin Hor) as (-> & Hd & Hs).
      rewrite app_nil_r. split; [done|]. split; [by rewrite Hs|].
      unfold held_of. cbn. by rewrite lookup_insert, decide_True, Hd.
    + destruct (piece_emits w seg ev) as (Hk & Hd); [unfold is_input; by rewrite Hin|].
      pose proof (still_open_app w seg ev) as Hs. unfold closing in Hs.
      destruct (still_open w seg) as [w'|] eqn:Ew; [destruct (String.eqb _ _ && _) eqn:Ec|];
        intros [= <- <-]; (split; [done|]); (split; [rewrite Hs|rewrite Hd; exact Hheld]);
        [cbn; by rewrite lookup_delete_eq|exact Hopen..].
  - apply orb_false_iff in Hb as [Hn%bool_decide_eq_false Hl%negb_false_iff%Nat.eqb_eq%nil_length_inv].
    apply eq_None_not_Some in Hn. rewrite Hn. intros [= <- <-].
    destruct (piece_emits w seg ev) as (Hk & Hd); [done|]. split; [done|].
    split; [by rewrite Hopen, still_open_app, Hn|by rewrite Hd].
Qed.

Lemma Push_start o t w seg ev w' out o' :
  sim o t w seg -> ThreadID ev = t -> windowOf ev = Some w' -> Push o ev = (out, o') ->
  kept w seg ++ out = settle w seg ++ [ev] /\ sim o' t (Some w') [].
Proof.
  intros [_ Hheld] Ht Hw. unfold Push, release. rewrite Hw, Ht. intros [= <- <-].
  split; [by rewrite Hheld, app_assoc|]. split; cbn; [by rewrite lookup_insert_eq|].
  unfold held_of. cbn. by rewrite lookup_delete_eq.
Qed.

(** A push moves nothing of another thread. *)
Lemma Push_other o t w seg ev out o' :
  held_ok o -> sim o t w seg -> ThreadID ev <> t -> Push o ev = (out, o') ->
  filter (of_thread t) out = [] /\ sim o' t w seg.
Proof.
  intros Hok Hsim Ht. unfold Push, release.
  assert (Hev : filter (of_thread t) [ev] = []) by (by rewrite filter_cons_False).
  destruct (windowOf ev) as [w'|].
  - intros [= <- <-]. split.
    + rewrite filter_app, Hev, app_nil_r. unfold held_of. apply filter_none.
      destruct (o_held o !! ThreadID ev) as [l|] eqn:El; cbn; [|constructor].
      destruct (Hok _ _ El) as [Hl _]. eapply Forall_impl; [exact Hl|]. unfold of_thread. congruence.
    + destruct Hsim as [Ho Hh]. unfold sim, held_of. cbn.
      rewrite lookup_insert_ne, lookup_delete_ne by done. done.
  - destruct Hsim as [Ho Hh].
    repeat case_match; intros [= <- <-]; (split; [done|]); unfold sim, held_of; cbn;
      rewrite ?lookup_insert_ne, ?lookup_delete_ne by done; done.
Qed.

Lemma Push_held_ok o ev out o' : held_ok o -> Push o ev = (out, o') -> held_ok o'.
Proof.
  intros Hok. unfold Push, release.
  destruct (windowOf ev); [|case_match eqn:Hb; [|repeat case_match]]; intros [= <- <-]; try exact Hok.
  - intros t l. cbn. intros [_ Hl]%lookup_delete_Some. eauto.
  - apply andb_true_iff in Hb as [_ Hin]. intros t l. cbn. rewrite lookup_insert_Some.
    intros [[<- <-]|[_ Hl]]; [|eauto]. unfold held_of.
    destruct (o_held o !! ThreadID ev) as [l'|] eqn:El; cbn; [destruct (Hok _ _ El)|];
      split; repeat (apply Forall_app_2 || constructor || done).
Qed.

Lemma new_held_ok : held_ok new_orderer.
Proof. intros t l. cbn. by rewrite lookup_empty. Qed.

(** ** The end of the log *)

Lemma concat_filter_thread (t : string) (m : gmap string (list Event)) :
  (forall t' l, m !! t' = Some l -> Forall (of_thread t') l) ->
  filter (of_thread t) (concat (map_to_list m).*2) ≡ₚ default [] (m !! t).
Proof.
  induction m as [|t' l m Hno IH] using map_ind; intros Hok;
    [by rewrite map_to_list_empty, lookup_empty|].
  rewrite map_to_list_insert by done. cbn [fmap list_fmap snd concat]. rewrite filter_app, IH.
  - destruct (decide (t' = t)) as [->|Hne].
    + rewrite lookup_insert_eq, Hno. cbn. rewrite app_nil_r, filter_every; [done|].
      apply (Hok t). by rewrite lookup_insert_eq.
    + rewrite lookup_insert_ne by done. rewrite (filter_none _ l); [done|].
      eapply Forall_impl; [apply (Hok t'); by rewrite lookup_insert_eq|].
      unfold of_thread. congruence.
  - intros t'' l' Hl'. apply Hok. rewrite lookup_insert_ne; [done|]. congruence.
Qed.

#[global] Instance seq_le_total : Total seq_le.
Proof. intros a b. unfold seq_le. lia. Qed.
#[global] Instance seq_le_trans : Transitive seq_le.
Proof. intros a b c. unfold seq_le. lia. Qed.

Lemma Flush_thread o t :
  held_ok o -> StronglySorted seq_lt (held_of o t) -> filter (of_thread t) (Flush o).1 = held_of o t.
Proof.
  intros Hok Hs. unfold Flush. cbn [fst].
  assert (Hp : filter (of_thread t) (merge_sort seq_le (held_all o)) ≡ₚ held_of o t).
  { rewrite merge_sort_Permutation. apply concat_filter_thread. intros t' l Hl. by destruct (Hok _ _ Hl). }
  apply (StronglySorted_unique_strong seq_le); [| | |exact Hp].
  - intros a b Ha Hb Hab Hba. rewrite Hp in Ha.
    assert (Heq : Seq a = Seq b) by (unfold seq_le in *; lia).
    clear -Ha Hb Hs Heq. induction Hs as [|x l _ IH Hx]; [by apply not_elem_of_nil in Ha|].
    rewrite Forall_forall in Hx. apply elem_of_cons in Ha, Hb. unfold seq_lt in Hx.
    destruct Ha as [->|Ha], Hb as [->|Hb]; auto; exfalso;
      [pose proof (Hx _ Hb)|pose proof (Hx _ Ha)]; lia.
  - apply StronglySorted_filter, StronglySorted_merge_sort; apply _.
  - clear Hp. induction Hs as [|x l _ IH Hx]; [constructor|]. constructor; [done|].
    eapply Forall_impl; [exact Hx|]. unfold seq_lt, seq_le. lia.
Qed.

Lemma settle_sorted w seg : StronglySorted seq_lt seg -> StronglySorted seq_lt (delayed w seg).
Proof. intros H. unfold delayed. case_match; [by apply StronglySorted_filter|constructor]. Qed.

(** The simulation, along a log. *)
Lemma push_all_thread t rows : forall o w seg out o',
  window_ok w -> held_ok o -> sim o t w seg ->
  StronglySorted seq_lt (seg ++ filter (of_thread t) rows) ->
  push_all o rows = (out, o') ->
  kept w seg ++ filter (of_thread t) (out ++ (Flush o').1)
    = order_from w seg (filter (of_thread t) rows).
Proof.
  induction rows as [|ev rows IH]; intros o w seg out o' Hw Hok Hsim Hs.
  - cbn [push_all]. intros [= <- <-]. cbn [filter list_filter order_from app].
    rewrite app_nil_r in Hs. destruct Hsim as [_ Hh].
    rewrite Flush_thread; [by rewrite Hh|done|]. rewrite Hh. by apply settle_sorted.
  - cbn [push_all]. destruct (Push o ev) as [out1 o1] eqn:Ep.
    destruct (push_all o1 rows) as [out2 o2] eqn:Ea. intros [= <- <-].
    assert (Hok1 : held_ok o1) by (by eapply Push_held_ok).
    rewrite <- app_assoc, filter_app.
    destruct (decide (ThreadID ev = t)) as [Ht|Ht].
    + assert (Hout : filter (of_thread t) out1 = out1).
      { apply filter_every. revert Ep. unfold Push, release.
        assert (Hhe : Forall (of_thread t) (held_of o (ThreadID ev))).
        { unfold held_of. destruct (o_held o !! ThreadID ev) as [l|] eqn:El; cbn; [|constructor].
          rewrite Ht in El. by destruct (Hok _ _ El). }
        repeat case_match; intros [= <- <-]; rewrite ?Forall_app; repeat constructor; done. }
      rewrite Hout. rewrite filter_cons_True by done. rewrite filter_cons_True in Hs by done.
      cbn [order_from]. destruct (windowOf ev) as [w'|] eqn:Hwo.
      * destruct (Push_start _ _ _ _ _ _ _ _ Hsim Ht Hwo Ep) as [He Hsim1].
        rewrite app_assoc, He, <- app_assoc. f_equal. cbn [app]. f_equal.
        rewrite <- (IH o1 (Some w') [] out2 o2); try done; [by eapply windowOf_ok|].
        apply StronglySorted_app_1_r in Hs. by inversion Hs.
      * destruct (Push_same _ _ _ _ _ _ _ Hw Hsim Ht Hwo Ep) as [He Hsim1].
        rewrite app_assoc, <- He. apply (IH o1 _ _ _ o2); try done. by rewrite <- app_assoc.
    + destruct (Push_other _ _ _ _ _ _ _ Hok Hsim Ht Ep) as [-> Hsim1].
      rewrite filter_cons_False by done. rewrite filter_cons_False in Hs by done.
      by apply (IH o1 _ _ _ o2).
Qed.

(** ** Rows are neither lost nor invented *)

Lemma held_all_insert t l (m : gmap string (list Event)) :
  (concat (map_to_list (<[t := l]> m)).*2 : list Event) ≡ₚ l ++ concat (map_to_list (delete t m)).*2.
Proof.
  rewrite <- insert_delete_eq, map_to_list_insert by apply lookup_delete_eq. done.
Qed.

Lemma held_all_split o t :
  held_all o ≡ₚ held_of o t ++ concat (map_to_list (delete t (o_held o))).*2.
Proof.
  unfold held_all, held_of. destruct (o_held o !! t) as [l|] eqn:El; cbn.
  - rewrite <- (insert_id _ _ _ El) at 1. apply held_all_insert.
  - by rewrite delete_id.
Qed.

Lemma sum_weights_app l1 l2 : sum_weights (l1 ++ l2) = sum_weights l1 + sum_weights l2.
Proof.
  unfold sum_weights. induction l1 as [|x l1 IH]; cbn [app foldr]; [done|]. rewrite IH. lia.
Qed.

#[global] Instance sum_weights_Perm : Proper ((≡ₚ) ==> (=)) sum_weights.
Proof. unfold sum_weights. induction 1; cbn [foldr]; lia. Qed.

Lemma Push_rows o ev out o' :
  held_ok o -> Push o ev = (out, o') ->
  out ++ held_all o' ≡ₚ held_all o ++ [ev] /\
  o_heldBytes o' - sum_weights (held_all o') = o_heldBytes o - sum_weights (held_all o) /\
  filter (fun e => ~ is_input e) out = filter (fun e => ~ is_input e) [ev].
Proof.
  intros Hok.
  assert (Hnone : filter (fun e => ~ is_input e) (held_of o (ThreadID ev)) = []).
  { unfold held_of. destruct (o_held o !! ThreadID ev) as [l|] eqn:El; cbn; [|done].
    apply filter_none. destruct (Hok _ _ El) as [_ Hl]. eapply Forall_impl; [exact Hl|]. tauto. }
  pose proof (held_all_split o (ThreadID ev)) as Hsplit.
  assert (Hsame : forall op, [ev] ++ held_all (MkOrderer op (o_held o) (o_heldBytes o)) ≡ₚ held_all o ++ [ev]).
  { intros op. unfold held_all. cbn. apply Permutation_cons_append. }
  unfold Push, release. destruct (windowOf ev) as [w'|]; [|case_match eqn:Hb].
  - intros [= <- <-]. cbn. rewrite filter_app, Hnone. split; [|split; [|done]].
    + rewrite Hsplit, <- !app_assoc. f_equiv. unfold held_all. cbn. apply Permutation_cons_append.
    + rewrite Hsplit, sum_weights_app. unfold held_all. cbn. lia.
  - intros [= <- <-]. apply andb_true_iff in Hb as [_ Hin].
    assert (Hp : held_all (MkOrderer (o_open o) (<[ThreadID ev:=held_of o (ThreadID ev) ++ [ev]]> (o_held o))
        (o_heldBytes o + heldWeight ev)) ≡ₚ held_all o ++ [ev]).
    { unfold held_all at 1. cbn. rewrite held_all_insert, Hsplit, <- !app_assoc. f_equiv.
      apply Permutation_app_comm. }
    split; [by rewrite Hp|]. split.
    + rewrite Hp, sum_weights_app. cbn. lia.
    + rewrite filter_cons_False; [done|]. unfold is_input. tauto.
  - repeat case_match; intros [= <- <-]; (split; [by destruct o|done]).
Qed.

Lemma push_all_rows rows : forall o out o',
  held_ok o -> push_all o rows = (out, o') ->
  held_ok o' /\
  out ++ held_all o' ≡ₚ held_all o ++ rows /\
  o_heldBytes o' - sum_weights (held_all o') = o_heldBytes o - sum_weights (held_all o) /\
  filter (fun e => ~ is_input e) out = filter (fun e => ~ is_input e) rows.
Proof.
  induction rows as [|ev rows IH]; intros o out o' Hok; cbn [push_all].
  - intros [= <- <-]. by rewrite app_nil_r.
  - destruct (Push o ev) as [out1 o1] eqn:Ep.
    destruct (push_all o1 rows) as [out2 o2] eqn:Ea. intros [= <- <-].
    destruct (Push_rows _ _ _ _ Hok Ep) as (Hp1 & Hb1 & Hf1).
    destruct (IH _ _ _ (Push_held_ok _ _ _ _ Hok Ep) Ea) as (Hok2 & Hp2 & Hb2 & Hf2).
    split; [done|]. split; [|split; [lia|]].
    + rewrite <- app_assoc, Hp2, app_assoc, Hp1, <- app_assoc. done.
    + rewrite filter_app, Hf1, Hf2, <- filter_app. done.
Qed.

(** C24: the consumption order of a session's log, read one thread at a time, is the
    rule applied to that thread's rows alone: an input that landed while a call of its
    thread was in flight, and every input of that thread after it up to the next start,
    comes out right ahead of that start in receipt order; every other row stays where
    it stands.  No thread's rows or calls affect another's order. *)
Theorem ConsumptionOrder_thread (h : list Event) (t : string)
    (Hseq : StronglySorted seq_lt (filter (of_thread t) h)) :
  filter (of_thread t) (ConsumptionOrder h) = thread_order (filter (of_thread t) h).
Proof.
  unfold ConsumptionOrder, thread_order. destruct (push_all new_orderer h) as [out o] eqn:Ea.
  rewrite <- (push_all_thread t h new_orderer None [] out o); [done|done|apply new_held_ok| |done|done].
  split; [apply lookup_empty|]. unfold held_of. cbn. by rewrite lookup_empty.
Qed.

(** The orderer never appends a row before it has read it, so a log can be
    reordered in place: after any prefix of a log, what was appended and what is held
    back are together exactly the rows pushed, at most as many appended as pushed; the
    rows that are no inputs were appended in the order of the log; and [HeldBytes] is the
    weight of what is held.  The whole order is a permutation of the log. *)
Theorem push_all_in_place (prefix rest : list Event) :
  let '(out, o) := push_all new_orderer prefix in
  out ++ held_all o ≡ₚ prefix /\ (length out <= length prefix)%nat /\
  filter (fun e => ~ is_input e) out = filter (fun e => ~ is_input e) prefix /\
  HeldBytes o = sum_weights (held_all o) /\
  ConsumptionOrder (prefix ++ rest) ≡ₚ prefix ++ rest.
Proof.
  destruct (push_all new_orderer prefix) as [out o] eqn:Ea.
  destruct (push_all_rows _ _ _ _ new_held_ok Ea) as (_ & Hp & Hb & Hf).
  assert (Hnew : held_all new_orderer = []) by done. rewrite Hnew in Hp, Hb. cbn in Hb, Hp.
  split; [done|]. split; [apply Permutation_length in Hp; rewrite length_app in Hp; lia|].
  split; [done|]. split; [unfold HeldBytes; lia|].
  unfold ConsumptionOrder. destruct (push_all new_orderer (prefix ++ rest)) as [out' o'] eqn:Ea'.
  destruct (push_all_rows _ _ _ _ new_held_ok Ea') as (_ & Hp' & _).
  rewrite Hnew in Hp'. unfold Flush. cbn [fst]. by rewrite merge_sort_Permutation.
Qed.

(** A session with two threads: a message lands on the primary while its request is in
    flight, and another while the first is held; the coordinator's thread is untouched. *)
Definition sample_row (id t : string) (s : Z) (ty : EventType) : Event :=
  MkEvent id t s ty (Some (JObject [])) 2.

Definition sample_log : list Event :=
  [sample_row "e1" "a" 1 EventUserMessage;
   sample_row "e2" "a" 2 EventSpanModelRequestStart;
   sample_row "e3" "b" 3 EventUserMessage;
   sample_row "e4" "a" 4 EventUserMessage;
   sample_row "e5" "a" 5 EventAgentToolUse;
   sample_row "e6" "a" 6 EventSpanModelRequestEnd;
   sample_row "e7" "a" 7 EventUserMessage;
   sample_row "e8" "a" 8 EventAgentToolResult;
   sample_row "e9" "a" 9 EventSpanModelRequestStart].

Lemma ConsumptionOrder_thread_witness :
  ID <$> ConsumptionOrder sample_log = ["e1"; "e2"; "e3"; "e5"; "e6"; "e8"; "e4"; "e7"; "e9"] /\
  filter (of_thread "a") (ConsumptionOrder sample_log) = thread_order (filter (of_thread "a") sample_log).
Proof.
  split; [vm_compute; reflexivity|].
  apply ConsumptionOrder_thread.
  apply StronglySorted_filter.
  repeat (constructor; [|repeat constructor; unfold seq_lt; cbn; lia]). constructor.
Defined.
