(* ===== verification/Log.v ===== *)
(** * Log: the append-only event log (internal/events/log.go, usage.go, thinking.go).

    The tables are [events] in insertion order, the columns of [sessions] an append reads
    and writes, the usage column of [session_threads], and [thinking_blocks].  An instant
    is a count of nanoseconds, and so is the running time the source keeps as a float of
    seconds.  A statement's reading of a clock, and the id [domain.NewID] draws for a row,
    are arguments.  Postgres delivers the notifications; they are no state. *)
From stdpp Require Import pretty.
From Stdlib Require Import Ascii Lia.
From S2P Require Import Prelude GoStrings Json Domain Consumption Ids.

Definition microsecond : Z := 1000.
Definition millisecond : Z := 1000000.
Definition second : Z := 1000000000.

Record NewEvent := MkNewEvent {
  n_id : string;                 (* generated when empty *)
  n_type : EventType;
  n_payload : option json;       (* [None]: no bytes *)
  n_processed : option Z;
  n_thread : string;             (* empty for the primary *)
  n_cross : bool;
  n_restated : bool;
}.

(** A row of [events]; a NULL thread is the empty one. *)
Record erow := MkErow {
  e_id : string;
  e_session : string;
  e_seq : Z;
  e_type : EventType;
  e_payload : json;
  e_processed : option Z;
  e_created : Z;
  e_thread : string;
  e_cross : bool;
}.

Record thinking_block := MkThinking {
  tb_event : string; tb_model : string; tb_digest : string; tb_block : string }.

Record srow := MkSrow {
  s_archived : option Z;
  s_agent : option string;
  s_usage : Usage;
  s_active : Z;
  s_since : option Z;
  s_delegation : Z;
  s_status : string;
  s_outcomes : list json;
}.

Record ldb := MkLdb {
  l_events : list erow;
  l_sessions : gmap string srow;
  l_thread_usage : gmap string (string * Usage);
  l_thinking : list (string * thinking_block);
}.

Definition with_events (db : ldb) (es : list erow) : ldb :=
  MkLdb es (l_sessions db) (l_thread_usage db) (l_thinking db).

(** [UPDATE sessions ... WHERE id = sid]. *)
Definition update_session (db : ldb) (sid : string) (f : srow -> srow) : ldb :=
  MkLdb (l_events db) (alter f sid (l_sessions db)) (l_thread_usage db) (l_thinking db).

Definition set_processed (e : erow) (at_ : Z) : erow :=
  MkErow (e_id e) (e_session e) (e_seq e) (e_type e) (e_payload e) (Some at_) (e_created e) (e_thread e) (e_cross e).

(** [UPDATE events SET processed_at = ... WHERE processed_at IS NULL AND p]. *)
Definition stamp_where (db : ldb) (p : erow -> bool) (at_ : erow -> Z) : ldb :=
  with_events db
    (map (fun e => if bool_decide (e_processed e = None) && p e then set_processed e (at_ e) else e) (l_events db)).

(** ** Running time (usage.go) *)

Definition sessionStatusTypes : list EventType :=
  [EventSessionStatusRunning; EventSessionStatusIdle; EventSessionStatusRescheduled; EventSessionStatusTerminated].

Definition primaryStatusEvents : list EventType :=
  [EventSessionThreadStatusRunning; EventSessionThreadStatusIdle;
   EventSessionThreadStatusRescheduled; EventSessionThreadStatusTerminated].

Definition is_idle (ev : NewEvent) : bool := String.eqb (n_type ev) EventSessionStatusIdle.

(** The snapshot placed before an idle. *)
Definition usage_before (ev : NewEvent) : NewEvent :=
  MkNewEvent EmptyString EventSessionUsage None (n_processed ev) EmptyString false (n_restated ev).

Fixpoint withUsageSnapshots (evs : list NewEvent) : list NewEvent :=
  match evs with
  | [] => []
  | ev :: evs' =>
      if is_idle ev then usage_before ev :: ev :: withUsageSnapshots evs' else ev :: withUsageSnapshots evs'
  end.

Definition ActiveSecondsAt (active : Z) (since : option Z) (at_ : Z) : Z :=
  match since with None => active | Some s => active + Z.max 0 (at_ - s) end.

Record sessionClock := MkClock { c_active : Z; c_since : option Z; c_changed : bool }.

Definition clock_step (c : sessionClock) (typ : EventType) (at_ : Z) (restated : bool) : sessionClock :=
  if String.eqb typ EventSessionStatusRunning then MkClock (c_active c) (Some at_) true
  else if mem_string typ [EventSessionStatusIdle; EventSessionStatusRescheduled; EventSessionStatusTerminated] then
    match c_since c with
    | Some _ =>
        MkClock (if restated then c_active c else ActiveSecondsAt (c_active c) (c_since c) at_) None true
    | None => c
    end
  else c.

Definition usageAfter (stored : Usage) (addUsage : option ModelUsage) : Usage :=
  match addUsage with Some m => Usage_Add stored m | None => stored end.

(** A count of milliseconds as a JSON number of seconds, without trailing zeros. *)
Definition seconds_lit (ms : Z) : string :=
  let frac := ms mod 1000 in
  pretty (ms / 1000) +:+
  (if frac =? 0 then EmptyString
   else if frac mod 100 =? 0 then "." +:+ pretty (frac / 100)
   else if frac mod 10 =? 0 then "." +:+ (if frac <? 100 then "0" else EmptyString) +:+ pretty (frac / 10)
   else "." +:+ (if frac <? 100 then "0" else EmptyString) +:+ (if frac <? 10 then "0" else EmptyString) +:+ pretty frac).

(** [usageSnapshot]: the running time rounded to the millisecond, half away from zero
    (it is never negative). *)
Definition usageSnapshot (u : Usage) (active : Z) : json :=
  let num (z : Z) := JNumber (pretty z) in
  JObject [("usage", JObject [
    ("input_tokens", num (InputTokens u)); ("output_tokens", num (OutputTokens u));
    ("cache_read_input_tokens", num (CacheReadInputTokens u));
    ("cache_creation", JObject [("ephemeral_1h_input_tokens", num (Ephemeral1h (CacheCreated u)));
                                ("ephemeral_5m_input_tokens", num (Ephemeral5m (CacheCreated u)))]);
    ("active_seconds", JNumber (seconds_lit ((active + millisecond / 2) / millisecond)))])].

(** [withAgentName] (status.go); a payload that is no object is its error. *)
Definition withAgentName (payload : json) (name : string) : option json :=
  match payload with
  | JObject ms =>
      match obj_get ms "agent_name" with
      | Some _ => Some payload
      | None => Some (JObject (ms ++ [("agent_name", JString name)]))
      end
  | _ => None
  end.

(** ** Appending *)

Inductive append_error :=
| ErrEmpty                    (* "append requires at least one event" *)
| ErrConsumeStart             (* Consume without a span.model_request_start first *)
| ErrStreamOnly (t : EventType)
| ErrSessionNotFound
| ErrSessionArchived
| ErrPayload                  (* a thread event's payload is no object *)
| ErrCallback (e : string).   (* an error MutateOutcomes or Then returned *)

Record AppendOptions := MkOptions {
  o_thread : string;
  o_status : option string;
  o_usage : option ModelUsage;
  o_mark : Z;
  o_consume : bool;
  o_mutate : option (list json -> result append_error (list json));
  o_thinking : list thinking_block;
  o_then : option (ldb -> result append_error ldb);
}.

Definition no_options : AppendOptions := MkOptions EmptyString None None 0 false None [] None.

(** What an append reads from outside: this process's clock for the row at a seq, its
    clock once the lock is held, the database's for the statement and for a stamp, and
    the ids drawn. *)
Record readings := MkReadings {
  r_now : Z -> Z;
  r_consume : Z;
  r_statement : Z;
  r_stamp : erow -> Z;
  r_id : Z -> string;
}.

(** The session's last row: its seq and created_at, 0 and none before the first. *)
Definition session_rows (db : ldb) (sid : string) : list erow :=
  filter (fun e => e_session e = sid) (l_events db).

Definition last_row (db : ldb) (sid : string) : Z * option Z :=
  fold_left (fun acc e => if fst acc <? e_seq e then (e_seq e, Some (e_created e)) else acc)
    (session_rows db sid) (0, None).

(** [GREATEST(statement_timestamp(), $1 + interval '1 microsecond')]; NULL is ignored. *)
Definition created_of (statement : Z) (lastCreated : option Z) : Z :=
  match lastCreated with Some l => Z.max statement (l + microsecond) | None => statement end.

(** The stamp of one row of a batch: [over] is the stamp its usage snapshot passed on,
    [opens] that it is the row a [Consume] opens, [lastStamp] the stamp before it. *)
Definition stamp_of (rd : readings) (seq : Z) (opens : bool) (over lastStamp : option Z) (ev : NewEvent)
  : option Z :=
  let p := match n_processed ev with None => over | p => p end in
  let p := if opens then Some (r_consume rd) else p in
  let p := match p with
           | None => if StampedOnConsumption (n_type ev) then None else Some (r_now rd seq)
           | p => p
           end in
  match p, lastStamp with
  | Some t, Some l => if t <? l then Some l else Some t
  | p, _ => p
  end.

(** The loop over the batch: the rows to insert and the clock they leave. *)
Fixpoint build_rows (rd : readings) (sid agent : string) (usage : Usage) (created : Z) (consume : bool)
    (seq : Z) (over lastStamp : option Z) (clock : option sessionClock) (evs : list NewEvent)
  : result append_error (list erow * option sessionClock) :=
  match evs with
  | [] => Ok ([], clock)
  | ev :: evs' =>
      let seq := seq + 1 in
      let id := if String.eqb (n_id ev) EmptyString then r_id rd seq else n_id ev in
      let payload := match n_payload ev with None => JObject [] | Some v => v end in
      match (if String.eqb (n_thread ev) EmptyString && mem_string (n_type ev) primaryStatusEvents
             then withAgentName payload agent else Some payload) with
      | None => Err ErrPayload
      | Some payload =>
          let p := stamp_of rd seq consume over lastStamp ev in
          let lastStamp := match p with Some _ => p | None => lastStamp end in
          let is_usage := String.eqb (n_type ev) EventSessionUsage in
          let over := if is_usage then p else None in
          let payload :=
            match clock, p with
            | Some c, Some t =>
                if is_usage
                then usageSnapshot usage (if n_restated ev then c_active c else ActiveSecondsAt (c_active c) (c_since c) t)
                else payload
            | _, _ => payload
            end in
          let clock := match clock, p with
                       | Some c, Some t => Some (clock_step c (n_type ev) t (n_restated ev))
                       | c, _ => c
                       end in
          try '(rows, clock) <- build_rows rd sid agent usage created false seq over lastStamp clock evs';
          Ok (MkErow id sid seq (n_type ev) payload p created (n_thread ev) (n_cross ev) :: rows, clock)
      end
  end.

(** A tool call's reference, as the queries read it. *)
Definition result_ref (v : json) : option string :=
  match text_at v "tool_use_id" with
  | Some r => Some r
  | None => match text_at v "custom_tool_use_id" with
            | Some r => Some r
            | None => text_at v "mcp_tool_use_id"
            end
  end.

Definition toolResultTypes : list EventType :=
  [EventUserToolResult; EventUserCustomToolRes; EventAgentToolResult; EventAgentMCPToolResult].

Definition answerTypes : list EventType := [EventUserToolResult; EventUserCustomToolRes; EventUserToolConfirm].

(** The rows a [Consume] whose first row is [first] stamps. *)
Definition consumed_by (db : ldb) (sid thread : string) (first : Z) (e : erow) : bool :=
  String.eqb (e_session e) sid && (e_seq e <? first) && String.eqb (e_thread e) thread &&
  (mem_string (e_type e) RequestInputTypes || String.eqb (e_type e) EventUserInterrupt ||
   (mem_string (e_type e) answerTypes &&
    existsb (fun r =>
      String.eqb (e_session r) sid && (e_seq r <? first) && bool_decide (e_processed r <> None) &&
      mem_string (e_type r) toolResultTypes &&
      match result_ref (e_payload r), result_ref (e_payload e) with
      | Some a, Some b => String.eqb a b
      | _, _ => false
      end) (l_events db))).

(** [UPDATE session_threads SET usage ...] of the append's thread, if it has a row. *)
Definition add_thread_usage (db : ldb) (sid tid : string) (m : ModelUsage) : ldb :=
  match l_thread_usage db !! tid with
  | Some (s, u) =>
      if String.eqb s sid
      then MkLdb (l_events db) (l_sessions db) (<[tid := (s, Usage_Add u m)]> (l_thread_usage db)) (l_thinking db)
      else db
  | None => db
  end.

Definition resets_delegation (evs : list NewEvent) : bool := existsb (fun ev => StartsNewWork (n_type ev)) evs.

Definition set_clock (c : sessionClock) (r : srow) : srow :=
  MkSrow (s_archived r) (s_agent r) (s_usage r) (c_active c) (c_since c) (s_delegation r) (s_status r) (s_outcomes r).
Definition set_delegation (r : srow) : srow :=
  MkSrow (s_archived r) (s_agent r) (s_usage r) (s_active r) (s_since r)
    (if 0 <? s_delegation r then 0 else s_delegation r) (s_status r) (s_outcomes r).
Definition set_status (st : string) (r : srow) : srow :=
  MkSrow (s_archived r) (s_agent r) (s_usage r) (s_active r) (s_since r) (s_delegation r) st (s_outcomes r).
Definition set_usage (u : Usage) (r : srow) : srow :=
  MkSrow (s_archived r) (s_agent r) u (s_active r) (s_since r) (s_delegation r) (s_status r) (s_outcomes r).
Definition set_outcomes (os : list json) (r : srow) : srow :=
  MkSrow (s_archived r) (s_agent r) (s_usage r) (s_active r) (s_since r) (s_delegation r) (s_status r) os.

(** What follows the insert, in the order of the transaction. *)
Definition append_effects (rd : readings) (db : ldb) (sid : string) (sess : srow) (evs : list NewEvent)
    (clock : option sessionClock) (out : list erow) (o : AppendOptions) : result append_error ldb :=
  let db := MkLdb (l_events db) (l_sessions db) (l_thread_usage db)
              (l_thinking db ++ map (fun b => (sid, b)) (o_thinking o)) in
  let db := match clock with
            | Some c => if c_changed c then update_session db sid (set_clock c) else db
            | None => db
            end in
  let db := if resets_delegation evs then update_session db sid set_delegation else db in
  let db := match o_status o with Some st => update_session db sid (set_status st) | None => db end in
  let db := match o_usage o with
            | Some m =>
                let db := update_session db sid (set_usage (usageAfter (s_usage sess) (Some m))) in
                add_thread_usage db sid
                  (if String.eqb (o_thread o) EmptyString then PrimaryThreadID sid else o_thread o) m
            | None => db
            end in
  try db <- (match o_mutate o with
             | None => Ok db
             | Some f =>
                 try os <- f (match l_sessions db !! sid with Some r => s_outcomes r | None => [] end);
                 Ok (update_session db sid (set_outcomes os))
             end);
  let db := if 0 <? o_mark o
            then stamp_where db
                   (fun e => String.eqb (e_session e) sid && (e_seq e <=? o_mark o) &&
                             String.eqb (e_thread e) (o_thread o) && mem_string (e_type e) RequestInputTypes)
                   (r_stamp rd)
            else db in
  let db := match o_consume o, out with
            | true, first :: _ =>
                stamp_where db (consumed_by db sid (o_thread o) (e_seq first)) (fun _ => r_consume rd - microsecond)
            | _, _ => db
            end in
  match o_then o with Some f => f db | None => Ok db end.

(** [AppendInTx]: the rows inserted, and the tables. *)
Definition AppendInTx (rd : readings) (db : ldb) (sid : string) (evs : list NewEvent) (o : AppendOptions)
  : result append_error (list erow * ldb) :=
  let no_effect :=
    bool_decide (o_status o = None) && bool_decide (o_usage o = None) && (o_mark o =? 0) &&
    match o_mutate o with None => true | _ => false end && match o_then o with None => true | _ => false end in
  if Nat.eqb (length evs) 0 && no_effect then Err ErrEmpty
  else if o_consume o && match evs with ev :: _ => negb (String.eqb (n_type ev) EventSpanModelRequestStart) | [] => true end
  then Err ErrConsumeStart
  else
    match find (fun ev => negb (Persisted (n_type ev))) evs with
    | Some ev => Err (ErrStreamOnly (n_type ev))
    | None =>
        match l_sessions db !! sid with
        | None => Err ErrSessionNotFound
        | Some sess =>
            if bool_decide (is_Some (s_archived sess)) then Err ErrSessionArchived
            else
              let evs := withUsageSnapshots evs in
              let clock := if existsb (fun ev => mem_string (n_type ev) sessionStatusTypes) evs
                           then Some (MkClock (s_active sess) (s_since sess) false) else None in
              let '(seq, lastCreated) := last_row db sid in
              try '(out, clock) <- build_rows rd sid (default EmptyString (s_agent sess))
                (usageAfter (s_usage sess) (o_usage o)) (created_of (r_statement rd) lastCreated)
                (o_consume o) seq None None clock evs;
              try db <- append_effects rd (with_events db (l_events db ++ out)) sid sess evs clock out o;
              Ok (out, db)
        end
    end.

(** ** Reading *)

Inductive Scope := ScopeAll | ScopeSession | ScopeThread.

Record ListQuery := MkQuery {
  Types : list EventType;
  CreatedGT : option Z; CreatedGTE : option Z; CreatedLT : option Z; CreatedLTE : option Z;
  AfterSeq : option Z;
  BeforeSeq : option Z;
  Desc : bool;
  Limit : nat;
  q_Scope : Scope;
  q_ThreadID : string;
  ThreadToolCalls : bool;
  HideTools : list string;
}.

Definition threadToolCallTypes : list EventType :=
  [EventAgentToolUse; EventUserToolResult; EventAgentToolResult].

Definition in_scope (q : ListQuery) (e : erow) : bool :=
  match q_Scope q with
  | ScopeAll => true
  | ScopeSession =>
      String.eqb (e_thread e) EmptyString || e_cross e ||
      (ThreadToolCalls q && mem_string (e_type e) threadToolCallTypes)
  | ScopeThread => String.eqb (e_thread e) (q_ThreadID q)
  end.

(** A call of a hidden tool, or the result answering one. *)
Definition hidden (db : ldb) (q : ListQuery) (e : erow) : bool :=
  negb (Nat.eqb (length (HideTools q)) 0) &&
  ((String.eqb (e_type e) EventAgentToolUse &&
    mem_string (default EmptyString (text_at (e_payload e) "name")) (HideTools q)) ||
   (String.eqb (e_type e) EventAgentToolResult &&
    existsb (fun tu =>
      match text_at (e_payload e) "tool_use_id" with Some r => String.eqb (e_id tu) r | None => false end &&
      String.eqb (e_session tu) (e_session e) && String.eqb (e_type tu) EventAgentToolUse &&
      match text_at (e_payload tu) "name" with Some n => mem_string n (HideTools q) | None => false end)
      (l_events db))).

Definition opt_test (o : option Z) (f : Z -> bool) : bool := match o with Some z => f z | None => true end.

Definition list_where (db : ldb) (sid : string) (q : ListQuery) (e : erow) : bool :=
  String.eqb (e_session e) sid && in_scope q e && negb (hidden db q e) &&
  (Nat.eqb (length (Types q)) 0 || mem_string (e_type e) (Types q)) &&
  opt_test (CreatedGT q) (fun t => t <? e_created e) && opt_test (CreatedGTE q) (fun t => t <=? e_created e) &&
  opt_test (CreatedLT q) (fun t => e_created e <? t) && opt_test (CreatedLTE q) (fun t => e_created e <=? t) &&
  opt_test (AfterSeq q) (fun s => if Desc q then e_seq e <? s else s <? e_seq e) &&
  opt_test (BeforeSeq q) (fun s => e_seq e <? s).

Definition row_le (a b : erow) : Prop := e_seq a <= e_seq b.
#[global] Instance row_le_dec : RelDecision row_le.
Proof. intros a b. unfold row_le. apply _. Defined.

Definition row_ge (a b : erow) : Prop := e_seq b <= e_seq a.
#[global] Instance row_ge_dec : RelDecision row_ge.
Proof. intros a b. unfold row_ge. apply _. Defined.

Definition List_ (db : ldb) (sid : string) (q : ListQuery) : list erow :=
  let rows := filter (fun e => list_where db sid q e = true) (l_events db) in
  let rows := if Desc q then merge_sort row_ge rows else merge_sort row_le rows in
  if Nat.eqb (Limit q) 0 then rows else take (Limit q) rows.

(** [ThinkingBlocks]: one thread's, by event id. *)
Definition ThinkingBlocks (db : ldb) (sid thread : string) : gmap string thinking_block :=
  foldl (fun m (b : string * thinking_block) => <[tb_event b.2 := b.2]> m) ∅
    (filter (fun b => b.1 = sid /\
       existsb (fun e => String.eqb (e_id e) (tb_event b.2) && String.eqb (e_thread e) thread) (l_events db) = true)
       (l_thinking db)).

Definition DropThinking (db : ldb) (sid : string) : ldb :=
  MkLdb (l_events db) (l_sessions db) (l_thread_usage db) (filter (fun b => b.1 <> sid) (l_thinking db)).
