(* ===== verification/LogSpec.v ===== *)
(** * LogSpec: what an append leaves in the log, and what a read of it returns. *)
From Stdlib Require Import Ascii Lia.
From S2P Require Import Prelude GoStrings Json Domain Consumption Log.

(** ** The table's invariant *)

(** A session's rows in insertion order: seqs from 1 without a gap, created_at never
    falling back. *)
Definition created_le (a b : erow) : Prop := e_created a <= e_created b.

Definition rows_ok (rows : list erow) : Prop :=
  map e_seq rows = seqZ 1 (Z.of_nat (length rows)) /\ StronglySorted created_le rows.

Definition log_ok (db : ldb) : Prop := forall sid, rows_ok (session_rows db sid).

(** The same table but for stamps put on unstamped rows. *)
Definition stamped_row (a b : erow) : Prop :=
  b = a \/ (e_processed a = None /\ exists t, b = set_processed a t).

Definition stamped (es es' : list erow) : Prop := Forall2 stamped_row es es'.

#[export] Instance stamped_refl : Reflexive stamped.
Proof. intros es. unfold stamped. induction es; constructor; [by left|done]. Qed.

#[export] Instance stamped_trans : Transitive stamped.
Proof.
  intros l1 l2 l3 H. revert l3. induction H as [|a b l1 l2 Hab _ IH]; intros l3 H3; inversion H3; subst; constructor.
  - destruct Hab as [->|(Hn & t & ->)]; [done|].
    match goal with H : stamped_row (set_processed _ _) _ |- _ => destruct H as [->|(Hn' & _)] end; [right; eauto|done].
  - by apply IH.
Qed.

Lemma stamped_row_same a b : stamped_row a b ->
  e_id b = e_id a /\ e_session b = e_session a /\ e_seq b = e_seq a /\ e_type b = e_type a /\
  e_payload b = e_payload a /\ e_created b = e_created a /\ e_thread b = e_thread a /\ e_cross b = e_cross a.
Proof. intros [->|(_ & t & ->)]; done. Qed.

Lemma stamped_filter (P : erow -> Prop) `{forall e, Decision (P e)} es es' :
  (forall a b, stamped_row a b -> P a <-> P b) -> stamped es es' -> stamped (filter P es) (filter P es').
Proof.
  intros HP. unfold stamped. induction 1 as [|a b es es' Hab _ IH]; [constructor|].
  rewrite !filter_cons. specialize (HP _ _ Hab). repeat case_decide; try tauto. by constructor.
Qed.

Lemma stamped_session es es' sid :
  stamped es es' -> stamped (filter (fun e => e_session e = sid) es) (filter (fun e => e_session e = sid) es').
Proof.
  apply stamped_filter. intros a b (_ & -> & _)%stamped_row_same. done.
Qed.

Lemma stamped_map {A} (f : erow -> A) es es' :
  (forall a b, stamped_row a b -> f b = f a) -> stamped es es' -> map f es' = map f es.
Proof. intros Hf. induction 1 as [|a b es es' Hab _ IH]; cbn; [done|]. rewrite IH, (Hf a b) by done. done. Qed.

Lemma StronglySorted_map_iff {A B} (R : relation B) (f : A -> B) l :
  StronglySorted (fun a b => R (f a) (f b)) l <-> StronglySorted R (map f l).
Proof.
  induction l as [|x l IH]; cbn; [split; constructor|].
  split; intros [Hs Hx]%StronglySorted_inv; constructor; try (by apply IH).
  - by apply Forall_fmap.
  - apply (proj1 (Forall_fmap f _ l)) in Hx. exact Hx.
Qed.

Lemma rows_ok_stamped es es' : stamped es es' -> rows_ok es -> rows_ok es'.
Proof.
  intros Hst [Hseq Hs]. pose proof (Forall2_length _ _ _ Hst) as Hl.
  assert (H1 : map e_seq es' = map e_seq es) by (apply stamped_map; [by intros a b (?&?&?&?&?&?&?&?)%stamped_row_same|done]).
  assert (H2 : map e_created es' = map e_created es) by (apply stamped_map; [by intros a b (?&?&?&?&?&?&?&?)%stamped_row_same|done]).
  split; [by rewrite H1, Hseq, Hl|]. apply (StronglySorted_map_iff Z.le e_created). rewrite H2.
  apply (proj1 (StronglySorted_map_iff Z.le e_created es)). exact Hs.
Qed.

Lemma stamp_where_stamped db p at_ : stamped (l_events db) (l_events (stamp_where db p at_)).
Proof.
  unfold stamp_where, with_events, stamped. cbn. induction (l_events db) as [|e es IH]; cbn; [constructor|].
  constructor; [|done]. destruct (bool_decide (e_processed e = None) && p e) eqn:E; [|by left].
  bool_prop. right. eauto.
Qed.

(** ** The batch *)

(** The rows a batch became. *)
Definition row_of (sid : string) (created : Z) (ev : NewEvent) (r : erow) : Prop :=
  e_session r = sid /\ e_created r = created /\ e_type r = n_type ev /\ e_thread r = n_thread ev /\
  e_cross r = n_cross ev /\ (n_id ev <> EmptyString -> e_id r = n_id ev).

Lemma build_rows_shape rd sid agent usage created : forall evs consume seq over last clock rows clock',
  build_rows rd sid agent usage created consume seq over last clock evs = Ok (rows, clock') ->
  Forall2 (row_of sid created) evs rows /\ map e_seq rows = seqZ (seq + 1) (Z.of_nat (length rows)).
Proof.
  induction evs as [|ev evs IH]; intros consume seq over last clock rows clock'; cbn [build_rows].
  { intros [= <- <-]. by split; [constructor|]. }
  destruct (if String.eqb (n_thread ev) EmptyString && _ then withAgentName _ _ else _) as [payload|]; [|done].
  destruct (build_rows rd sid agent usage created false _ _ _ _ evs) as [[rows1 clock1]|] eqn:E; [|done].
  intros [= <- <-]. apply IH in E as [Hf Hs]. split.
  - constructor; [|done]. unfold row_of. cbn. split_and!; try done.
    intros Hne. destruct (String.eqb_spec (n_id ev) EmptyString); done.
  - cbn [map length e_seq]. rewrite Hs, Nat2Z.inj_succ, (seqZ_cons (seq + 1)) by lia. by rewrite Z.pred_succ.
Qed.

(** The last row of well-formed rows, read by seq. *)
Lemma last_row_ok db sid :
  rows_ok (session_rows db sid) ->
  last_row db sid = (Z.of_nat (length (session_rows db sid)), e_created <$> last (session_rows db sid)).
Proof.
  intros [Hseq _]. unfold last_row. generalize dependent (session_rows db sid). intros rows Hseq.
  assert (Hgen : forall rows n c, map e_seq rows = seqZ (n + 1) (Z.of_nat (length rows)) ->
    fold_left (fun acc e => if fst acc <? e_seq e then (e_seq e, Some (e_created e)) else acc) rows (n, c)
    = (n + Z.of_nat (length rows), match last rows with Some e => Some (e_created e) | None => c end)).
  { clear. induction rows as [|e rows IH]; intros n c Hs; cbn [fold_left length].
    - f_equal. lia.
    - cbn [map length] in Hs. rewrite seqZ_cons in Hs by lia. injection Hs as He Hs.
      cbn [fst]. rewrite (proj2 (Z.ltb_lt n (e_seq e))) by lia.
      rewrite (IH (e_seq e) (Some (e_created e))); [|rewrite He, Hs; f_equal; lia].
      rewrite last_cons. f_equal; [lia|]. by destruct (last rows). }
  by rewrite (Hgen rows 0 None Hseq).
Qed.

Lemma append_effects_stamped rd db sid sess evs clock out o db' :
  o_then o = None -> append_effects rd db sid sess evs clock out o = Ok db' ->
  stamped (l_events db) (l_events db').
Proof.
  intros Hthen. unfold append_effects. rewrite Hthen.
  assert (Hu : forall d f, l_events (update_session d sid f) = l_events d) by done.
  assert (Ht : forall d t m, l_events (add_thread_usage d sid t m) = l_events d).
  { intros d t m. unfold add_thread_usage. by repeat case_match. }
  set (d1 := MkLdb _ _ _ _). set (d2 := match clock with Some _ => _ | None => _ end).
  assert (H2 : l_events d2 = l_events db) by (unfold d2; by repeat case_match).
  set (d3 := if resets_delegation evs then _ else _).
  assert (H3 : l_events d3 = l_events db) by (unfold d3; by case_match).
  set (d4 := match o_status o with Some _ => _ | None => _ end).
  assert (H4 : l_events d4 = l_events db) by (unfold d4; by case_match).
  set (d5 := match o_usage o with Some _ => _ | None => _ end).
  assert (H5 : l_events d5 = l_events db) by (unfold d5; case_match; [by rewrite Ht, Hu|done]).
  destruct (match o_mutate o with Some _ => _ | None => _ end) as [d6|] eqn:E6; [|done].
  assert (H6 : l_events d6 = l_events db).
  { destruct (o_mutate o) as [f|]; [|by injection E6 as <-]. destruct (f _); [|done]. by injection E6 as <-. }
  clearbody d1 d2 d3 d4 d5. rewrite <- H6. clear.
  destruct (0 <? o_mark o).
  - intros H. etransitivity; [apply stamp_where_stamped|].
    destruct (o_consume o), out as [|first out]; injection H as <-; try done; apply stamp_where_stamped.
  - destruct (o_consume o), out as [|first out]; intros [= <-]; try done; apply stamp_where_stamped.
Qed.

Lemma row_of_Forall sid created evs rows :
  Forall2 (row_of sid created) evs rows -> Forall (fun e => e_session e = sid /\ e_created e = created) rows.
Proof. induction 1 as [|ev r evs rows (?&?&_) _ IH]; constructor; auto. Qed.

Lemma session_rows_app db sid out :
  Forall (fun e => e_session e = sid) out ->
  forall sid', session_rows (with_events db (l_events db ++ out)) sid' =
    session_rows db sid' ++ (if String.eqb sid' sid then out else []).
Proof.
  intros Hout sid'. unfold session_rows, with_events. cbn [l_events]. rewrite filter_app. f_equal.
  destruct (String.eqb_spec sid' sid) as [->|Hne]; [by apply filter_all_true|].
  apply filter_all_false. eapply Forall_impl; [exact Hout|]. cbn. congruence.
Qed.

Lemma created_past rows statement e :
  StronglySorted created_le rows -> e ∈ rows ->
  e_created e + microsecond <= created_of statement (e_created <$> last rows).
Proof.
  intros Hs He. destruct (last rows) as [l|] eqn:El.
  - assert (Hel : e_created e <= e_created l).
    { apply last_Some in El as [rows' ->]. apply elem_of_app in He as [He| ->%list_elem_of_singleton]; [|done].
      apply StronglySorted_app in Hs as (H & _ & _). by apply (H e l He), list_elem_of_singleton. }
    cbn. lia.
  - apply last_None in El. subst. by apply not_elem_of_nil in He.
Qed.

Lemma rows_ok_app rows out created :
  rows_ok rows -> map e_seq out = seqZ (Z.of_nat (length rows) + 1) (Z.of_nat (length out)) ->
  Forall (fun e => e_created e = created) out -> Forall (fun e => e_created e <= created) rows ->
  rows_ok (rows ++ out).
Proof.
  intros [Hseq Hs] Hseq' Hc Hle. split.
  - rewrite map_app, Hseq, Hseq', length_app, Nat2Z.inj_add, seqZ_app, Z.add_comm by lia. done.
  - rewrite Forall_forall in Hc, Hle. apply StronglySorted_app. split_and!.
    + intros a b Ha Hb. unfold created_le. rewrite (Hc _ Hb). auto.
    + done.
    + clear -Hc. induction out as [|x out IH]; [constructor|].
      constructor; [apply IH; intros; apply Hc; by apply list_elem_of_further|].
      apply Forall_forall. intros y Hy. unfold created_le.
      rewrite (Hc x), (Hc y); [done|by apply list_elem_of_further|by apply list_elem_of_here].
Qed.

(** What an append inserted, and the tables its statements then leave. *)
Lemma AppendInTx_inv rd db sid evs o out db' :
  AppendInTx rd db sid evs o = Ok (out, db') ->
  exists sess clock0 clock agent,
    l_sessions db !! sid = Some sess /\ s_archived sess = None /\
    Forall (fun ev => Persisted (n_type ev) = true) evs /\
    clock0 = (if existsb (fun ev => mem_string (n_type ev) sessionStatusTypes) (withUsageSnapshots evs)
              then Some (MkClock (s_active sess) (s_since sess) false) else None) /\
    build_rows rd sid agent (usageAfter (s_usage sess) (o_usage o))
      (created_of (r_statement rd) (snd (last_row db sid))) (o_consume o) (fst (last_row db sid)) None None clock0
      (withUsageSnapshots evs) = Ok (out, clock) /\
    append_effects rd (with_events db (l_events db ++ out)) sid sess (withUsageSnapshots evs) clock out o = Ok db' /\
    (o_consume o = true -> exists ev rest, evs = ev :: rest /\ n_type ev = EventSpanModelRequestStart).
Proof.
  unfold AppendInTx. destruct (Nat.eqb (length evs) 0 && _); [done|].
  destruct (o_consume o && _) eqn:Hc; [done|].
  destruct (find _ evs) as [bad|] eqn:Hf; [done|].
  destruct (l_sessions db !! sid) as [sess|] eqn:Hs; [|done].
  destruct (bool_decide (is_Some (s_archived sess))) eqn:Ha; [done|].
  destruct (last_row db sid) as [seq lc]. cbn [fst snd].
  destruct (build_rows _ _ _ _ _ _ _ _ _ _ _) as [[out' clock]|] eqn:Eb; [|done].
  destruct (append_effects _ _ _ _ _ _ _ _) as [db1|] eqn:Ee; [|done]. intros [= <- <-].
  eexists sess, _, clock, _. split; [done|].
  split. { apply bool_decide_eq_false in Ha. by apply eq_None_not_Some. }
  split. { apply Forall_forall. intros ev Hev. eapply find_none in Hf; [|by apply list_elem_of_In]. by apply negb_false_iff. }
  split; [reflexivity|]. split; [exact Eb|]. split; [exact Ee|].
  intros Ht. rewrite Ht in Hc. cbn [andb] in Hc. destruct evs as [|ev rest]; [done|].
  apply negb_false_iff, String.eqb_eq in Hc. eauto.
Qed.

(** C2: an append, on any clock, keeps the log a log: a session's seqs run from 1 without
    a gap and its created_at never falls back.  What is there stays there, but for the
    stamp of a row not yet processed; the batch's rows follow it in the batch's order, a
    usage snapshot before each idle, under one created_at at least a microsecond past
    every earlier row's. *)
Theorem AppendInTx_log (rd : readings) (db db' : ldb) (sid : string) (evs : list NewEvent) (o : AppendOptions)
    (out : list erow) (Hok : log_ok db) (Hthen : o_then o = None)
    (Happ : AppendInTx rd db sid evs o = Ok (out, db')) :
  log_ok db' /\ stamped (l_events db ++ out) (l_events db') /\
  exists created, Forall2 (row_of sid created) (withUsageSnapshots evs) out /\
    Forall (fun e => e_created e + microsecond <= created) (session_rows db sid) /\
    map e_seq out = seqZ (Z.of_nat (length (session_rows db sid)) + 1) (Z.of_nat (length out)).
Proof.
  apply AppendInTx_inv in Happ as (sess & clock0 & clock & agent & Hs & Ha & Hp & _ & Hb & He & _).
  pose proof (Hok sid) as Hrows. rewrite (last_row_ok db sid Hrows) in Hb. cbn [fst snd] in Hb.
  apply build_rows_shape in Hb as [Hf Hseq].
  set (created := created_of _ _) in Hf.
  assert (Hpast : Forall (fun e => e_created e + microsecond <= created) (session_rows db sid)).
  { apply Forall_forall. intros e Hin. by apply created_past; [destruct Hrows|]. }
  pose proof (row_of_Forall _ _ _ _ Hf) as Hall.
  apply append_effects_stamped in He; [|done]. cbn [l_events with_events] in He.
  split; [|split; [done|exists created; done]].
  assert (Hmid : log_ok (with_events db (l_events db ++ out))).
  { intros sid'. rewrite (session_rows_app db sid out) by (eapply Forall_impl; [exact Hall|]; cbn; tauto).
    destruct (String.eqb_spec sid' sid) as [->|]; [|rewrite app_nil_r; apply Hok].
    apply (rows_ok_app _ _ created); [done|done|eapply Forall_impl; [exact Hall|]; cbn; tauto|].
    eapply Forall_impl; [exact Hpast|]. intros e. assert (Hm : microsecond = 1000) by reflexivity. cbn. lia. }
  intros sid'. eapply rows_ok_stamped; [|apply (Hmid sid')]. by apply stamped_session.
Qed.

(** ** Stamps and running time *)

Definition step_at (c : option sessionClock) (ev : NewEvent) (p : option Z) : option sessionClock :=
  match c, p with
  | Some c, Some t => Some (clock_step c (n_type ev) t (n_restated ev))
  | c, _ => c
  end.

(** How a batch without snapshots of its own is laid out from the running time [c]:
    every row is processed but an input received, an idle's snapshot shares its stamp
    and reports the running time the idle leaves, and [c'] is what the batch leaves. *)
Fixpoint laid (usage : Usage) (opens : bool) (c : option sessionClock) (evs : list NewEvent)
    (rows : list erow) (c' : option sessionClock) : Prop :=
  match evs with
  | [] => rows = [] /\ c' = c
  | ev :: evs' =>
      if is_idle ev then
        match rows with
        | u :: r :: rows' =>
            exists t, e_type u = EventSessionUsage /\ e_processed u = Some t /\ e_processed r = Some t /\
              (forall c0, c = Some c0 ->
                 e_payload u = usageSnapshot usage (c_active (clock_step c0 (n_type ev) t (n_restated ev)))) /\
              laid usage false (step_at c ev (Some t)) evs' rows' c'
        | _ => False
        end
      else
        match rows with
        | r :: rows' =>
            (e_processed r = None <->
               n_processed ev = None /\ StampedOnConsumption (n_type ev) = true /\ opens = false) /\
            laid usage false (step_at c ev (e_processed r)) evs' rows' c'
        | [] => False
        end
  end.

Lemma stamp_of_None rd seq opens over last ev :
  stamp_of rd seq opens over last ev = None <->
    n_processed ev = None /\ over = None /\ StampedOnConsumption (n_type ev) = true /\ opens = false.
Proof.
  unfold stamp_of. destruct (n_processed ev), over, opens, (StampedOnConsumption (n_type ev)), last;
    repeat case_match; split; naive_solver.
Qed.

Lemma stamp_of_ge rd seq opens over l ev t :
  stamp_of rd seq opens over (Some l) ev = Some t -> l <= t.
Proof.
  unfold stamp_of. intros H. destruct (n_processed ev), over, opens, (StampedOnConsumption (n_type ev));
    repeat match type of H with context [?a <? ?b] => destruct (a <? b) eqn:?; bool_prop end; simplify_eq/=; lia.
Qed.

(** The idle after a snapshot takes its stamp, whether given or passed on. *)
Lemma stamp_of_idle rd seq seq' last ev t :
  StampedOnConsumption (n_type ev) = false ->
  stamp_of rd seq false None last (usage_before ev) = Some t ->
  stamp_of rd seq' false (Some t) (Some t) ev = Some t.
Proof.
  intros Hs. unfold stamp_of, usage_before. cbn [n_processed n_type]. rewrite Hs.
  assert (Hu : StampedOnConsumption EventSessionUsage = false) by (vm_compute; reflexivity). rewrite Hu.
  destruct (n_processed ev) as [q|].
  - destruct last as [l|]; [destruct (q <? l) eqn:E|]; intros [= <-]; bool_prop.
    + by rewrite (proj2 (Z.ltb_lt q l)).
    + by rewrite Z.ltb_irrefl.
    + by rewrite Z.ltb_irrefl.
  - intros _. by rewrite Z.ltb_irrefl.
Qed.

Lemma build_rows_laid rd sid agent usage created : forall evs consume seq last clock rows clock',
  Forall (fun ev => n_type ev <> EventSessionUsage) evs ->
  (consume = true -> exists ev rest, evs = ev :: rest /\ is_idle ev = false) ->
  build_rows rd sid agent usage created consume seq None last clock (withUsageSnapshots evs) = Ok (rows, clock') ->
  laid usage consume clock evs rows clock' /\ StronglySorted Z.le (option_list last ++ omap e_processed rows).
Proof.
  assert (Hsort : forall (p last : option Z) l,
    (forall t l0, p = Some t -> last = Some l0 -> l0 <= t) ->
    StronglySorted Z.le (option_list (match p with Some _ => p | None => last end) ++ l) ->
    StronglySorted Z.le (option_list last ++ option_list p ++ l)).
  { intros [t|] [l0|] l Hle Hs; cbn in *; try done. constructor; [done|].
    apply StronglySorted_inv in Hs as [_ Hx]. specialize (Hle t l0 eq_refl eq_refl). constructor; [done|].
    eapply Forall_impl; [exact Hx|]. intros z. lia. }
  induction evs as [|ev evs IH]; intros consume seq last clock rows clock' Hus Hco; cbn [withUsageSnapshots laid].
  { cbn. intros [= <- <-]. split; [done|]. destruct last; repeat constructor. }
  apply Forall_cons in Hus as [Hu Hus].
  destruct (is_idle ev) eqn:Hi.
  - assert (Hc : consume = false) by (destruct consume; [destruct (Hco eq_refl) as (? & ? & [= <- <-] & ?); congruence|done]).
    subst consume. cbn [build_rows n_type usage_before n_thread n_payload]. change (String.eqb EmptyString EmptyString) with true.
    assert (Hp : mem_string EventSessionUsage primaryStatusEvents = false) by (vm_compute; reflexivity).
    rewrite Hp. cbn [andb].
    assert (Hidle : n_type ev = EventSessionStatusIdle) by (by apply String.eqb_eq).
    assert (Hp' : mem_string (n_type ev) primaryStatusEvents = false) by (rewrite Hidle; vm_compute; reflexivity).
    assert (Hsoc : StampedOnConsumption (n_type ev) = false) by (rewrite Hidle; vm_compute; reflexivity).
    rewrite Hp', andb_false_r.
    set (pu := stamp_of rd (seq + 1) false None last (usage_before ev)).
    destruct pu as [t|] eqn:Epu; [|apply stamp_of_None in Epu as (_ & _ & H & _); by vm_compute in H].
    change (String.eqb EventSessionUsage EventSessionUsage) with true.
    rewrite (stamp_of_idle _ _ _ _ _ _ Hsoc Epu).
    destruct (String.eqb_spec (n_type ev) EventSessionUsage) as [|_]; [done|].
    destruct (build_rows rd sid agent usage created false _ None _ _ _) as [[rows1 clock1]|] eqn:Eb; [|done].
    intros [= <- <-]. apply IH in Eb as [Hl Hs]; [|done|done].
    split.
    + exists t. cbn [e_type e_processed e_payload]. split_and!; try done.
      * intros c0 ->. f_equal. rewrite Hidle. unfold clock_step. cbn.
        destruct (c_since c0) as [s|]; cbn; destruct (n_restated ev); done.
      * destruct clock as [c0|]; [|done]. exact Hl.
    + cbn [omap list_omap e_processed]. cbn in Hs |- *.
      apply (Hsort (Some t) last). { intros t' l0 [= <-] ->. by eapply stamp_of_ge. }
      cbn. constructor; [done|]. constructor; [done|]. by apply StronglySorted_inv in Hs as [_ ?].
  - cbn [build_rows].
    destruct (if String.eqb (n_thread ev) EmptyString && _ then withAgentName _ _ else _) as [payload|]; [|done].
    set (p := stamp_of rd (seq + 1) consume None last ev).
    destruct (String.eqb_spec (n_type ev) EventSessionUsage) as [|_]; [done|].
    destruct (build_rows rd sid agent usage created false _ None _ _ _) as [[rows1 clock1]|] eqn:Eb; [|done].
    intros [= <- <-]. apply IH in Eb as [Hl Hs]; [|done|done]. split.
    + cbn [e_processed]. split; [|by destruct clock, p].
      unfold p. rewrite stamp_of_None. tauto.
    + assert (Ho : omap e_processed (MkErow (if String.eqb (n_id ev) EmptyString then r_id rd (seq + 1) else n_id ev) sid
        (seq + 1) (n_type ev) (match clock, p with Some _, Some _ => payload | _, _ => payload end) p created (n_thread ev)
        (n_cross ev) :: rows1) = option_list p ++ omap e_processed rows1) by (by destruct p).
      change (StronglySorted Z.le (option_list last ++ omap e_processed
        (MkErow (if String.eqb (n_id ev) EmptyString then r_id rd (seq + 1) else n_id ev) sid
        (seq + 1) (n_type ev) (match clock, p with Some _, Some _ => payload | _, _ => payload end) p created (n_thread ev)
        (n_cross ev) :: rows1))).
      rewrite Ho. apply Hsort; [|done]. intros t l0 Et ->. by eapply stamp_of_ge.
Qed.

Lemma clock_step_changed c ty t r :
  clock_step c ty t r = c \/ c_changed (clock_step c ty t r) = true.
Proof. unfold clock_step. destruct (String.eqb _ _); [by right|]. case_match; [|by left]. case_match; [by right|by left]. Qed.

Lemma build_rows_clock rd sid agent usage created : forall evs consume seq over last c rows clock',
  build_rows rd sid agent usage created consume seq over last (Some c) evs = Ok (rows, clock') ->
  exists c', clock' = Some c' /\ (c' = c \/ c_changed c' = true).
Proof.
  induction evs as [|ev evs IH]; intros consume seq over last c rows clock'; cbn [build_rows].
  { intros [= <- <-]. eauto. }
  destruct (if String.eqb (n_thread ev) EmptyString && _ then withAgentName _ _ else _) as [payload|]; [|done].
  set (p := stamp_of _ _ _ _ _ _).
  destruct p as [t|].
  - destruct (build_rows _ _ _ _ _ _ _ _ _ _ evs) as [[rows1 clock1]|] eqn:Eb; [|done].
    intros [= <- <-]. apply IH in Eb as (c' & -> & Hc'). exists c'. split; [done|].
    destruct Hc' as [->|Hc']; [apply clock_step_changed|by right].
  - destruct (build_rows _ _ _ _ _ _ _ _ _ _ evs) as [[rows1 clock1]|] eqn:Eb; [|done].
    intros [= <- <-]. by apply IH in Eb.
Qed.

Lemma append_effects_clock rd db sid sess evs clock out o db' :
  o_then o = None -> l_sessions db !! sid = Some sess ->
  append_effects rd db sid sess evs clock out o = Ok db' ->
  exists r, l_sessions db' !! sid = Some r /\
    (s_active r, s_since r) = match clock with
                              | Some c => if c_changed c then (c_active c, c_since c) else (s_active sess, s_since sess)
                              | None => (s_active sess, s_since sess)
                              end.
Proof.
  intros Hthen Hs. unfold append_effects. rewrite Hthen.
  set (want := match clock with
    | Some c => if c_changed c then (c_active c, c_since c) else (s_active sess, s_since sess)
    | None => (s_active sess, s_since sess) end).
  set (kept := fun d : ldb => exists r, l_sessions d !! sid = Some r /\ (s_active r, s_since r) = want).
  assert (Hup : forall d f, (forall r, (s_active (f r), s_since (f r)) = (s_active r, s_since r)) ->
    kept d -> kept (update_session d sid f)).
  { intros d f Hf (r & Hr & Hw). exists (f r). unfold update_session. cbn. rewrite lookup_alter_eq, Hr. cbn.
    by rewrite Hf. }
  assert (Hst : forall d p a, kept d -> kept (stamp_where d p a)) by done.
  assert (Htu : forall d t m, kept d -> kept (add_thread_usage d sid t m)).
  { intros d t m Hk. unfold add_thread_usage. by repeat case_match. }
  set (d1 := MkLdb _ _ _ _). set (d2 := match clock with Some _ => _ | None => d1 end).
  assert (H2 : kept d2).
  { unfold d2, kept, want. destruct clock as [c|]; [|by exists sess].
    destruct (c_changed c); [|by exists sess]. eexists. unfold update_session, d1. cbn.
    rewrite lookup_alter_eq, Hs. done. }
  set (d3 := if resets_delegation evs then _ else _).
  assert (H3 : kept d3) by (unfold d3; case_match; [by apply Hup|done]).
  set (d4 := match o_status o with Some _ => _ | None => _ end).
  assert (H4 : kept d4) by (unfold d4; case_match; [by apply Hup|done]).
  set (d5 := match o_usage o with Some _ => _ | None => _ end).
  assert (H5 : kept d5) by (unfold d5; case_match; [by apply Htu, Hup|done]).
  clearbody d5.
  destruct (match o_mutate o with Some _ => _ | None => _ end) as [d6|] eqn:E6; [|done].
  assert (H6 : kept d6).
  { destruct (o_mutate o) as [f|]; [|by injection E6 as <-]. destruct (f _); [|done]. injection E6 as <-. by apply Hup. }
  intros [= <-]. repeat case_match; try apply Hst; done.
Qed.

(** A batch's stamps never run backwards, only an input received is left unprocessed,
    and each idle is preceded by a usage snapshot with the idle's own stamp, which reports
    exactly the running time the idle leaves; the session row ends with the running time
    the whole batch leaves. *)
Theorem AppendInTx_running_time (rd : readings) (db db' : ldb) (sid : string) (sess : srow) (evs : list NewEvent)
    (o : AppendOptions) (out : list erow)
    (Hs : l_sessions db !! sid = Some sess) (Hthen : o_then o = None)
    (Hus : Forall (fun ev => n_type ev <> EventSessionUsage) evs)
    (Hst : existsb (fun ev => mem_string (n_type ev) sessionStatusTypes) evs = true)
    (Happ : AppendInTx rd db sid evs o = Ok (out, db')) :
  StronglySorted Z.le (omap e_processed out) /\
  exists c r, laid (usageAfter (s_usage sess) (o_usage o)) (o_consume o)
      (Some (MkClock (s_active sess) (s_since sess) false)) evs out (Some c) /\
    l_sessions db' !! sid = Some r /\ s_active r = c_active c /\ s_since r = c_since c.
Proof.
  apply AppendInTx_inv in Happ as (sess' & clock0 & clock & agent & Hs' & _ & _ & Hc0 & Hb & He & Hco).
  rewrite Hs in Hs'. injection Hs' as <-.
  assert (Hst' : existsb (fun ev => mem_string (n_type ev) sessionStatusTypes) (withUsageSnapshots evs) = true).
  { clear -Hst. induction evs as [|ev evs IH]; [done|]. cbn [existsb withUsageSnapshots] in *.
    destruct (is_idle ev); cbn [existsb]; apply orb_true_iff in Hst as [->|H]; rewrite ?IH by done; by rewrite ?orb_true_r. }
  rewrite Hst' in Hc0. subst clock0.
  destruct (build_rows_clock _ _ _ _ _ _ _ _ _ _ _ _ _ Hb) as (c & -> & Hc).
  apply build_rows_laid in Hb as [Hl Hso]; [|done|].
  2:{ intros H. destruct (Hco H) as (ev & rest & -> & Ht). exists ev, rest. split; [done|].
      unfold is_idle. rewrite Ht. vm_compute. reflexivity. }
  split; [exact Hso|].
  destruct (append_effects_clock rd (with_events db (l_events db ++ out)) sid sess _ _ _ _ _ Hthen Hs He) as (r & Hr & Hw).
  exists c, r. split_and!; [done|done|..]; destruct Hc as [->|Hc]; try rewrite Hc in Hw; cbn in Hw |- *; congruence.
Qed.

(** ** What a request's start consumes *)

Lemma find_seq_below db sid e :
  rows_ok (session_rows db sid) -> e ∈ l_events db -> e_session e = sid ->
  e_seq e <= Z.of_nat (length (session_rows db sid)).
Proof.
  intros [Hseq _] He Hs.
  assert (H : e_seq e ∈ map e_seq (session_rows db sid)).
  { apply list_elem_of_fmap_2. by apply list_elem_of_filter. }
  rewrite Hseq in H. apply elem_of_seqZ in H. lia.
Qed.

(** The statements between the insert and the stamps leave the events alone. *)
Lemma append_effects_consume rd db sid sess evs clock first rest o db' :
  o_then o = None -> o_mark o <= 0 -> o_consume o = true ->
  append_effects rd db sid sess evs clock (first :: rest) o = Ok db' ->
  l_events db' = map (fun e => if bool_decide (e_processed e = None) && consumed_by db sid (o_thread o) (e_seq first) e
                               then set_processed e (r_consume rd - microsecond) else e) (l_events db).
Proof.
  intros Hthen Hmark Hc. unfold append_effects. rewrite Hthen, Hc, (proj2 (Z.ltb_ge 0 (o_mark o))) by done.
  assert (Hu : forall d f, l_events (update_session d sid f) = l_events d) by done.
  assert (Ht : forall d t m, l_events (add_thread_usage d sid t m) = l_events d).
  { intros d t m. unfold add_thread_usage. by repeat case_match. }
  set (d5 := match o_usage o with Some _ => _ | None => _ end).
  assert (H5 : l_events d5 = l_events db).
  { unfold d5. destruct (o_usage o); rewrite ?Ht, ?Hu; destruct (o_status o), (resets_delegation evs), clock as [c|];
      rewrite ?Hu; try done; by destruct (c_changed c). }
  clearbody d5.
  destruct (match o_mutate o with Some _ => _ | None => _ end) as [d6|] eqn:E6; [|done].
  assert (H6 : l_events d6 = l_events db).
  { destruct (o_mutate o) as [f|]; [|by injection E6 as <-]. destruct (f _); [|done]. by injection E6 as <-. }
  intros [= <-]. unfold stamp_where, with_events. cbn [l_events]. unfold consumed_by. by rewrite H6.
Qed.

(** The start of a model request consumes its thread's inputs, all of them and nothing
    else of the kind: every input of the thread still unprocessed when the start is
    appended is stamped a microsecond before the start, which is stamped at the instant
    its lock was held; a row of another thread or session, and any processed row, is
    left as it was; a tool's answer is stamped only where its call already has a
    processed result.  So no input below a start is ever left for a later one. *)
Theorem AppendInTx_consume (rd : readings) (db db' : ldb) (sid : string) (evs : list NewEvent) (o : AppendOptions)
    (out : list erow) (Hok : log_ok db) (Hthen : o_then o = None) (Hmark : o_mark o <= 0) (Hco : o_consume o = true)
    (Happ : AppendInTx rd db sid evs o = Ok (out, db')) :
  (exists first rest, out = first :: rest /\ e_type first = EventSpanModelRequestStart /\
     e_processed first = Some (r_consume rd)) /\
  forall i e, l_events db !! i = Some e -> exists e', l_events db' !! i = Some e' /\
    (e' = e \/ (e_processed e = None /\ e' = set_processed e (r_consume rd - microsecond) /\
                e_session e = sid /\ e_thread e = o_thread o)) /\
    (e_session e = sid -> e_thread e = o_thread o ->
     mem_string (e_type e) RequestInputTypes = true \/ e_type e = EventUserInterrupt -> e_processed e' <> None) /\
    (mem_string (e_type e) RequestInputTypes = false -> e_type e <> EventUserInterrupt -> e' <> e ->
     mem_string (e_type e) answerTypes = true /\
     exists r ref, r ∈ l_events db ++ out /\ e_session r = sid /\ e_processed r <> None /\
       mem_string (e_type r) toolResultTypes = true /\
       result_ref (e_payload r) = Some ref /\ result_ref (e_payload e) = Some ref).
Proof.
  apply AppendInTx_inv in Happ as (sess & clock0 & clock & agent & _ & _ & _ & _ & Hb & He & Hc).
  destruct (Hc Hco) as (ev & evs' & -> & Hty).
  rewrite (last_row_ok db sid (Hok sid)) in Hb. cbn [fst snd] in Hb.
  pose proof (build_rows_shape _ _ _ _ _ _ _ _ _ _ _ _ _ Hb) as [Hf Hseq].
  assert (Hi : is_idle ev = false) by (unfold is_idle; rewrite Hty; vm_compute; reflexivity).
  cbn [withUsageSnapshots] in Hf, Hb. rewrite Hi in Hf, Hb.
  inversion Hf as [|? first ? rest Hfirst Hrest]; subst.
  assert (Hp : e_processed first = Some (r_consume rd)).
  { rewrite Hco in Hb. cbn [build_rows] in Hb.
    destruct (if String.eqb (n_thread ev) EmptyString && _ then withAgentName _ _ else _) as [payload|]; [|done].
    destruct (build_rows _ _ _ _ _ _ _ _ _ _ (withUsageSnapshots evs')) as [[rows1 clock1]|]; [|done].
    injection Hb as <- _ _. cbn. unfold stamp_of. destruct (n_processed ev); done. }
  split. { exists first, rest. destruct Hfirst as (_ & _ & Ht & _). split_and!; [done|congruence|done]. }
  apply append_effects_consume in He; [|done..]. cbn [l_events with_events] in He.
  intros i e Hie.
  assert (Hie' : (l_events db ++ first :: rest) !! i = Some e) by (by apply lookup_app_l_Some).
  eexists. split; [rewrite He; apply list_lookup_fmap_Some; exists e; split; [reflexivity|exact Hie']|].
  assert (Hin : e ∈ l_events db) by (by eapply list_elem_of_lookup_2).
  cbn [map length] in Hseq. rewrite seqZ_cons in Hseq by lia. injection Hseq as Hfs _.
  assert (Hbelow : e_session e = sid -> (e_seq e <? e_seq first) = true).
  { intros Hs. pose proof (find_seq_below db sid e (Hok sid) Hin Hs). apply Z.ltb_lt. lia. }
  destruct (bool_decide (e_processed e = None)) eqn:Hn; cbn [andb]; bool_prop.
  2:{ split; [by left|]. split; [done|]. by intros. }
  destruct (consumed_by _ _ _ _ e) eqn:Hcb.
  - unfold consumed_by in Hcb. rewrite !andb_true_iff in Hcb. destruct Hcb as [[[Hs _] Hth] Hwhy].
    apply String.eqb_eq in Hs, Hth. split; [by right|]. split; [done|].
    intros Hm Hni _. rewrite Hm in Hwhy. cbn [orb] in Hwhy.
    destruct (String.eqb_spec (e_type e) EventUserInterrupt) as [|_]; [done|]. cbn [orb] in Hwhy.
    apply andb_true_iff in Hwhy as [Ha Hex]. split; [done|].
    apply existsb_exists in Hex as (r & Hr & Hpr). apply list_elem_of_In in Hr. bool_prop.
    destruct (result_ref (e_payload r)) as [ra|] eqn:Era; [|done].
    destruct (result_ref (e_payload e)) as [rb|] eqn:Erb; [|done].
    repeat match goal with H : String.eqb _ _ = true |- _ => apply String.eqb_eq in H end. subst.
    exists r, rb. split_and!; done.
  - split; [by left|]. split; [|by intros]. intros Hs Hth Hty'. exfalso.
    unfold consumed_by in Hcb. rewrite Hbelow in Hcb by done. rewrite Hs, Hth, !String.eqb_refl in Hcb. cbn [andb] in Hcb.
    destruct Hty' as [Hm|Hint]; [by rewrite Hm in Hcb|].
    by rewrite Hint, String.eqb_refl, orb_true_r in Hcb.
Qed.

(** ** Paging *)

Definition with_page (q : ListQuery) (after : option Z) (limit : nat) : ListQuery :=
  MkQuery (Types q) (CreatedGT q) (CreatedGTE q) (CreatedLT q) (CreatedLTE q) after (BeforeSeq q) (Desc q) limit
    (q_Scope q) (q_ThreadID q) (ThreadToolCalls q) (HideTools q).

(** One row after another, in the direction of the sort. *)
Definition later (q : ListQuery) (a b : erow) : Prop :=
  if Desc q then e_seq b < e_seq a else e_seq a < e_seq b.
#[export] Instance later_dec q a b : Decision (later q a b).
Proof. unfold later. destruct (Desc q); apply _. Defined.

Lemma seqs_sorted rows n :
  map e_seq rows = seqZ n (Z.of_nat (length rows)) -> StronglySorted (fun a b => e_seq a < e_seq b) rows.
Proof.
  revert n. induction rows as [|e rows IH]; intros n; [constructor|]. cbn [map length].
  rewrite Nat2Z.inj_succ, seqZ_cons by lia. rewrite Z.pred_succ. intros [= He Hs]. constructor; [by eapply IH|].
  apply Forall_forall. intros x Hx. assert (Hin : e_seq x ∈ map e_seq rows) by (by apply list_elem_of_fmap_2).
  rewrite Hs in Hin. apply elem_of_seqZ in Hin. lia.
Qed.

Lemma merge_sort_id {A} (R S : relation A) `{!RelDecision R, !Total R, !Transitive R} l :
  (forall a b, S a b -> R a b) -> (forall a b, R a b -> ~ S b a) -> (forall a b, a ∈ l -> b ∈ l -> R a b -> R b a -> a = b) ->
  StronglySorted S l -> merge_sort R l = l.
Proof.
  intros HSR HRS Hanti Hs. apply (StronglySorted_unique_strong R).
  - intros a b Ha Hb. rewrite merge_sort_Permutation in Ha. by apply Hanti.
  - apply StronglySorted_merge_sort; apply _.
  - clear -HSR Hs. induction Hs as [|x l _ IH Hx]; constructor; [done|]. eapply Forall_impl; [exact Hx|]. auto.
  - apply merge_sort_Permutation.
Qed.

#[export] Instance row_le_total : Total row_le.
Proof. intros a b. unfold row_le. lia. Qed.
#[export] Instance row_le_trans : Transitive row_le.
Proof. intros a b c. unfold row_le. lia. Qed.
#[export] Instance row_ge_total : Total row_ge.
Proof. intros a b. unfold row_ge. lia. Qed.
#[export] Instance row_ge_trans : Transitive row_ge.
Proof. intros a b c. unfold row_ge. lia. Qed.

Lemma sorted_inj l a b :
  StronglySorted (fun a b => e_seq a < e_seq b) l -> a ∈ l -> b ∈ l -> e_seq a = e_seq b -> a = b.
Proof.
  induction 1 as [|x l _ IH Hx]; [by intros ?%not_elem_of_nil|]. rewrite Forall_forall in Hx.
  intros [->|Ha]%elem_of_cons [->|Hb]%elem_of_cons Heq; auto; exfalso;
    [pose proof (Hx _ Hb)|pose proof (Hx _ Ha)]; lia.
Qed.

Lemma StronglySorted_reverse {A} (R : relation A) l : StronglySorted R l -> StronglySorted (flip R) (reverse l).
Proof.
  induction 1 as [|x l _ IH Hx]; [constructor|]. rewrite reverse_cons. apply StronglySorted_app. split_and!.
  - intros a b Ha ->%list_elem_of_singleton. rewrite elem_of_reverse in Ha. rewrite Forall_forall in Hx. by apply Hx.
  - done.
  - repeat constructor.
Qed.

Lemma filter_reverse {A} (P : A -> Prop) `{forall x, Decision (P x)} l : filter P (reverse l) = reverse (filter P l).
Proof.
  induction l as [|x l IH]; [done|]. rewrite reverse_cons, filter_app, IH, !filter_cons.
  case_decide; [by rewrite reverse_cons|]. by rewrite app_nil_r.
Qed.

(** A session's matching rows, before the limit. *)
Lemma List_unlimited db sid q :
  log_ok db -> Limit q = O ->
  let rows := filter (fun e => list_where db sid q e = true) (l_events db) in
  StronglySorted (fun a b => e_seq a < e_seq b) rows /\
  List_ db sid q = (if Desc q then reverse rows else rows) /\ StronglySorted (later q) (List_ db sid q).
Proof.
  intros Hok Hl rows.
  assert (Hsub : rows = filter (fun e => list_where db sid q e = true) (session_rows db sid)).
  { unfold rows, session_rows. rewrite list_filter_filter_l; [done|].
    intros e. unfold list_where. rewrite !andb_true_iff, String.eqb_eq. tauto. }
  assert (Hs : StronglySorted (fun a b => e_seq a < e_seq b) rows).
  { rewrite Hsub. apply StronglySorted_filter. destruct (Hok sid) as [H _]. by eapply seqs_sorted. }
  split; [done|]. unfold List_. rewrite Hl. cbn [Nat.eqb]. fold rows. unfold later.
  assert (Hinj : forall a b, a ∈ rows -> b ∈ rows -> e_seq a = e_seq b -> a = b) by (intros; by eapply sorted_inj).
  destruct (Desc q).
  - assert (Hr : merge_sort row_ge rows = reverse rows).
    { assert (Hp : merge_sort row_ge rows = merge_sort row_ge (reverse rows)).
      { apply (StronglySorted_unique_strong row_ge).
        - intros a b Ha Hb. rewrite merge_sort_Permutation in Ha, Hb. rewrite elem_of_reverse in Hb.
          unfold row_ge. intros ? ?. apply Hinj; [done..|lia].
        - apply StronglySorted_merge_sort; apply _.
        - apply StronglySorted_merge_sort; apply _.
        - by rewrite !merge_sort_Permutation, reverse_Permutation. }
      rewrite Hp. apply (merge_sort_id _ (fun a b => e_seq b < e_seq a)); try (unfold row_ge; intros; lia).
      - intros a b Ha Hb. rewrite elem_of_reverse in Ha, Hb. unfold row_ge. intros ? ?. apply Hinj; [done..|lia].
      - by apply StronglySorted_reverse in Hs. }
    rewrite Hr. split; [done|]. by apply StronglySorted_reverse in Hs.
  - rewrite (merge_sort_id _ (fun a b => e_seq a < e_seq b)); try (unfold row_le; intros; lia); [done| |done].
    intros a b Ha Hb. unfold row_le. intros ? ?. apply Hinj; [done..|lia].
Qed.

Lemma later_irrefl q a : ~ later q a a.
Proof. unfold later. destruct (Desc q); lia. Qed.

Lemma later_asym q a b : later q a b -> ~ later q b a.
Proof. unfold later. destruct (Desc q); lia. Qed.

Lemma later_after q pre e rest :
  StronglySorted (later q) (pre ++ e :: rest) -> filter (later q e) (pre ++ e :: rest) = rest.
Proof.
  intros (Hpe & _ & [_ Hx]%StronglySorted_inv)%StronglySorted_app.
  rewrite filter_app, filter_cons_False by apply later_irrefl.
  rewrite (filter_all_false (later q e) pre), (filter_all_true (later q e) rest); [done|done|].
  apply Forall_forall. intros a Ha. by apply later_asym, Hpe; [|apply list_elem_of_here].
Qed.

(** Reading a session's log page by page, each page after the last row of the one
    before it and in either direction, reads what one unlimited read returns: a page is
    the first [Limit] rows, the next starts right after it, none is skipped or read
    twice, and only an empty page has nothing after it. *)
Theorem List_page (db : ldb) (sid : string) (q : ListQuery) (Hok : log_ok db) (Hlim : Limit q <> O) :
  let full := List_ db sid (with_page q (AfterSeq q) 0) in
  let page := List_ db sid q in
  length page = Nat.min (Limit q) (length full) /\
  match last page with
  | None => full = []
  | Some e => full = page ++ List_ db sid (with_page q (Some (e_seq e)) 0)
  end.
Proof.
  intros full page. set (q0 := with_page q (AfterSeq q) 0) in *.
  destruct (List_unlimited db sid q0 Hok eq_refl) as (Hs & Hfull & Hsort). fold full in Hfull, Hsort.
  assert (Hpage : page = take (Limit q) full).
  { unfold page, full, List_. rewrite (proj2 (Nat.eqb_neq _ _) Hlim). done. }
  split; [by rewrite Hpage, length_take|].
  destruct (last page) as [e|] eqn:El.
  2:{ apply last_None in El. rewrite El in Hpage. destruct full; [done|]. by destruct (Limit q). }
  rewrite <- (take_drop (Limit q) full) at 1. rewrite Hpage. f_equal.
  apply last_Some in El as [pre Hpre].
  set (rest := drop (Limit q) full).
  assert (Hf : full = pre ++ e :: rest).
  { rewrite <- (take_drop (Limit q) full). rewrite <- Hpage, Hpre, <- app_assoc. done. }
  set (q1 := with_page q (Some (e_seq e)) 0).
  destruct (List_unlimited db sid q1 Hok eq_refl) as (_ & Hnext & _). rewrite Hnext.
  set (rows := filter (fun e => list_where db sid q0 e = true) (l_events db)) in *.
  assert (He : e ∈ rows).
  { assert (H : e ∈ full) by (rewrite Hf; set_solver). rewrite Hfull in H. destruct (Desc q0); [by rewrite elem_of_reverse in H|done]. }
  assert (Hwhere : filter (fun e' => list_where db sid q1 e' = true) (l_events db) = filter (later q0 e) rows).
  { unfold rows. rewrite list_filter_filter. apply list_filter_iff. intros x.
    apply list_elem_of_filter in He as [He _].
    unfold list_where, later, q1, q0, with_page in *. cbn in *.
    rewrite !andb_true_iff in *. destruct He as [[_ Ha] _].
    destruct (AfterSeq q) as [s|], (Desc q); cbn in *; bool_prop; rewrite ?Z.ltb_lt; split; intuition lia. }
  assert (Hlater : filter (later q0 e) full = rest) by (rewrite Hf in Hsort |- *; by apply later_after).
  rewrite Hwhere, <- Hlater. clear Hlater. rewrite Hfull.
  change (Desc q1) with (Desc q0). destruct (Desc q0); [apply filter_reverse|done].
Qed.

(** ** A session to try them on: a message waits on a running primary. *)

Definition sample_readings (t : Z) : readings :=
  MkReadings (fun seq => t + seq) t t (fun _ => t) (fun seq => "sevt_" +:+ pretty.pretty seq).

Definition sample_event (ty : EventType) : NewEvent := MkNewEvent EmptyString ty None None EmptyString false false.

Definition sample_sess : srow :=
  MkSrow None (Some "agent") (MkUsage 0 0 0 (MkCache 0 0)) 0 (Some (10 * second)) 0 "running" [].

Definition sample_db : ldb :=
  MkLdb [MkErow "sevt_1" "s" 1 EventUserMessage (JObject []) None (11 * second) EmptyString false;
         MkErow "sevt_2" "s" 2 EventUserMessage (JObject []) None (12 * second) "child" false]
    {["s" := sample_sess]} ∅ [].

Definition consuming : AppendOptions := MkOptions EmptyString None None 0 true None [] None.

Lemma sample_log_ok : log_ok sample_db.
Proof.
  intros sid. unfold session_rows, sample_db. cbn [l_events].
  destruct (String.eqb_spec sid "s") as [->|Hne].
  - rewrite !filter_cons_True, filter_nil by done. split; [vm_compute; reflexivity|].
    apply SSorted_cons; [apply SSorted_cons; [apply SSorted_nil|by apply Forall_nil]|].
    apply Forall_singleton. unfold created_le. cbn. unfold second. lia.
  - rewrite !filter_cons_False by (cbn; congruence). split; [reflexivity|constructor].
Qed.

(** The clock has stepped back to before the rows there; the batch is still past them. *)
Lemma AppendInTx_log_witness :
  exists out db', AppendInTx (sample_readings second) sample_db "s" [sample_event EventSessionStatusIdle] no_options = Ok (out, db') /\
    map e_seq out = [3; 4] /\ map e_created out = [12 * second + microsecond; 12 * second + microsecond] /\
    map e_type out = [EventSessionUsage; EventSessionStatusIdle] /\ log_ok db'.
Proof.
  eexists _, _. split; [vm_compute; reflexivity|]. split_and!; [vm_compute; reflexivity..|].
  refine (proj1 (AppendInTx_log (sample_readings second) sample_db _ "s" [sample_event EventSessionStatusIdle] no_options _
    sample_log_ok eq_refl _)). vm_compute. reflexivity.
Defined.

Lemma AppendInTx_running_time_witness :
  exists out db' r, AppendInTx (sample_readings (15 * second)) sample_db "s" [sample_event EventSessionStatusIdle] no_options = Ok (out, db') /\
    l_sessions db' !! "s" = Some r /\ s_active r = 5 * second + 3 /\ s_since r = None /\
    StronglySorted Z.le (omap e_processed out).
Proof.
  eexists _, _, _. split; [vm_compute; reflexivity|]. split_and!; [vm_compute; reflexivity..|].
  refine (proj1 (AppendInTx_running_time (sample_readings (15 * second)) sample_db _ "s" sample_sess
    [sample_event EventSessionStatusIdle] no_options _ eq_refl eq_refl _ _ _)).
  - repeat constructor. vm_compute. discriminate.
  - vm_compute. reflexivity.
  - vm_compute. reflexivity.
Defined.

(** The primary's message is consumed; the child's stays. *)
Lemma AppendInTx_consume_witness :
  exists out db', AppendInTx (sample_readings (20 * second)) sample_db "s" [sample_event EventSpanModelRequestStart] consuming = Ok (out, db') /\
    map e_processed (l_events db') = [Some (20 * second - microsecond); None; Some (20 * second)] /\
    exists first rest, out = first :: rest /\ e_type first = EventSpanModelRequestStart /\ e_processed first = Some (20 * second).
Proof.
  eexists _, _. split; [vm_compute; reflexivity|]. split; [vm_compute; reflexivity|].
  refine (proj1 (AppendInTx_consume (sample_readings (20 * second)) sample_db _ "s" [sample_event EventSpanModelRequestStart]
    consuming _ sample_log_ok eq_refl _ eq_refl _)).
  - vm_compute. discriminate.
  - vm_compute. reflexivity.
Defined.

Definition sample_query : ListQuery := MkQuery [] None None None None None None true 1 ScopeAll EmptyString false [].

Lemma List_page_witness :
  map e_id (List_ sample_db "s" sample_query) = ["sevt_2"] /\
  map e_id (List_ sample_db "s" (with_page sample_query None 0)) = ["sevt_2"; "sevt_1"] /\
  length (List_ sample_db "s" sample_query)
    = Nat.min 1 (length (List_ sample_db "s" (with_page sample_query None 0))).
Proof.
  split; [vm_compute; reflexivity|]. split; [vm_compute; reflexivity|].
  apply (List_page sample_db "s" sample_query sample_log_ok). discriminate.
Defined.
