(* ===== verification/ToolQuery.v ===== *)
(** * ToolQuery: the questions asked of the log about tool calls
    (internal/events/toolflow.go).

    Receipt of a result prevents a second answer and a second execution; its processing
    releases the thread.  A query is a function of the log's tables; a list argument the
    source may leave nil is the empty list. *)
From Stdlib Require Import Ascii Lia.
From S2P Require Import Prelude GoStrings Json Domain Consumption Log.

Definition toolUseTypes : list EventType :=
  [EventAgentToolUse; EventAgentMCPToolUse; EventAgentCustomToolUse].

Definition confirmableToolUseTypes : list EventType := [EventAgentToolUse; EventAgentMCPToolUse].

Definition EvalPermAllow : string := "allow".
Definition EvalPermAsk : string := "ask".
Definition EvalPermDeny : string := "deny".
Definition EnvSelfHosted : string := "self_hosted".

(** The columns a query reads through [->>]. *)
Definition names (e : erow) (key id : string) : bool :=
  match text_at (e_payload e) key with Some t => String.eqb t id | None => false end.

Definition text_or (e : erow) (key dflt : string) : string := default dflt (text_at (e_payload e) key).

(** ** Answers *)

(** A result of the session that references the call [id]. *)
Definition answers (sid id : string) (r : erow) : bool :=
  String.eqb (e_session r) sid && mem_string (e_type r) toolResultTypes &&
  match result_ref (e_payload r) with Some t => String.eqb t id | None => false end.

Definition answeredBy (db : ldb) (sid : string) (tu : erow) : bool :=
  existsb (answers sid (e_id tu)) (l_events db).

Definition processedAnswerBy (db : ldb) (sid : string) (tu : erow) : bool :=
  existsb (fun r => answers sid (e_id tu) r && bool_decide (e_processed r <> None)) (l_events db).

(** A confirmation of the session that names the call [id]. *)
Definition confirms (sid id : string) (c : erow) : bool :=
  String.eqb (e_session c) sid && String.eqb (e_type c) EventUserToolConfirm && names c "tool_use_id" id.

Definition allows (sid id : string) (c : erow) : bool := confirms sid id c && names c "result" EvalPermAllow.

(** [toolUseScope], [unansweredToolUse], [unsettledToolUse]. *)
Definition toolUseScope (sid : string) (types : list EventType) (extra : list string) (tu : erow) : bool :=
  String.eqb (e_session tu) sid && mem_string (e_type tu) types && negb (mem_string (e_id tu) extra).

Definition unansweredToolUse (db : ldb) (sid : string) (types : list EventType) (extra : list string) (tu : erow) : bool :=
  toolUseScope sid types extra tu && negb (answeredBy db sid tu).

Definition unsettledToolUse (db : ldb) (sid : string) (types : list EventType) (extra : list string) (tu : erow) : bool :=
  toolUseScope sid types extra tu && negb (processedAnswerBy db sid tu).

Definition runnableToolUse (db : ldb) (sid : string) (types : list EventType) (extra allowed : list string) (tu : erow) : bool :=
  unansweredToolUse db sid types extra tu &&
  (String.eqb (text_or tu "evaluated_permission" EvalPermAllow) EvalPermAllow ||
   mem_string (e_id tu) allowed ||
   existsb (allows sid (e_id tu)) (l_events db)).

Definition orderedToolHead (db : ldb) (sid : string) (extra : list string) (tu : erow) : bool :=
  negb (existsb (fun prior =>
    String.eqb (e_session prior) (e_session tu) && String.eqb (e_thread prior) (e_thread tu) &&
    (e_seq prior <? e_seq tu) && mem_string (e_type prior) toolUseTypes &&
    negb (mem_string (e_id prior) extra) && negb (processedAnswerBy db (e_session prior) prior))
    (l_events db)).

Definition processedPermission (db : ldb) (allowed : list string) (tu : erow) : bool :=
  String.eqb (text_or tu "evaluated_permission" EvalPermAllow) EvalPermAllow ||
  mem_string (e_id tu) allowed ||
  existsb (fun c => allows (e_session tu) (e_id tu) c && bool_decide (e_processed c <> None)) (l_events db).

Definition orderedRunnableToolUse (db : ldb) (sid : string) (types : list EventType) (extra allowed : list string) (tu : erow) : bool :=
  unansweredToolUse db sid types extra tu && orderedToolHead db sid extra tu && processedPermission db allowed tu.

Definition on_thread (tid : string) (tu : erow) : bool := String.eqb (e_thread tu) tid.

(** [SELECT ... WHERE p ORDER BY seq]. *)
Definition select_by_seq (db : ldb) (p : erow -> bool) : list erow :=
  merge_sort row_le (filter (fun e => p e = true) (l_events db)).

Definition hasUnansweredToolUse (db : ldb) (sid : string) (types : list EventType) (extra : list string) : bool :=
  existsb (unansweredToolUse db sid types extra) (l_events db).

Definition HasUnansweredToolUse (db : ldb) (sid : string) (extra : list string) : bool :=
  hasUnansweredToolUse db sid toolUseTypes extra.

Definition HasUnansweredThreadToolUse (db : ldb) (sid tid : string) (extra : list string) : bool :=
  existsb (fun tu => unansweredToolUse db sid toolUseTypes extra tu && on_thread tid tu) (l_events db).

Record ToolUseRef := MkRef { ref_ID : string; ref_Type : EventType; ref_ThreadID : string; ref_CrossPosted : bool }.

Definition ref_of (tu : erow) : ToolUseRef := MkRef (e_id tu) (e_type tu) (e_thread tu) (e_cross tu).

Definition UnansweredToolUses (db : ldb) (sid : string) (extra : list string) : list ToolUseRef :=
  map ref_of (select_by_seq db (unansweredToolUse db sid toolUseTypes extra)).

Definition UnansweredThreadToolUses (db : ldb) (sid tid : string) (extra : list string) : list ToolUseRef :=
  map ref_of (select_by_seq db (fun tu => unansweredToolUse db sid toolUseTypes extra tu && on_thread tid tu)).

Definition HasUnansweredPlatformToolUse (db : ldb) (sid : string) (extra : list string) : bool :=
  hasUnansweredToolUse db sid [EventAgentToolUse] extra.

Definition HasRunnableMCPToolUse (db : ldb) (sid : string) (extra allowed : list string) : bool :=
  existsb (orderedRunnableToolUse db sid [EventAgentMCPToolUse] extra allowed) (l_events db).

Definition platformToolNames (db : ldb) (p : erow -> bool) : list string :=
  map (fun tu => text_or tu "name" EmptyString) (select_by_seq db p).

Definition UnansweredPlatformToolNames (db : ldb) (sid : string) (extra : list string) : list string :=
  platformToolNames db (unansweredToolUse db sid [EventAgentToolUse] extra).

Definition RunnablePlatformToolNames (db : ldb) (sid : string) (extra allowed : list string) : list string :=
  platformToolNames db (orderedRunnableToolUse db sid [EventAgentToolUse] extra allowed).

(** ** What the exec drivers run *)

Inductive ExecClass := ExecNone | ExecMCP | ExecWeb | ExecTool.

Definition class_rank (c : ExecClass) : Z :=
  match c with ExecNone => 0 | ExecMCP => 1 | ExecWeb => 2 | ExecTool => 3 end.

(** One row of the scan. *)
Definition exec_class_step (db : ldb) (sid kind : string) (answered allowed : list string)
    (isWebTool isSettlementTool : string -> bool) (class : ExecClass) (tu : erow) : ExecClass :=
  let name := text_or tu "name" EmptyString in
  if String.eqb (e_type tu) EventAgentToolUse && isSettlementTool name then class
  else
    let worker := String.eqb kind EnvSelfHosted && String.eqb (e_type tu) EventAgentToolUse && negb (isWebTool name) in
    if negb worker && (negb (orderedToolHead db sid answered tu) || negb (processedPermission db allowed tu)) then class
    else
      let next := if String.eqb (e_type tu) EventAgentMCPToolUse then ExecMCP
                  else if isWebTool name then ExecWeb else ExecTool in
      match class with
      | ExecNone => next
      | _ => if class_rank next <? class_rank class then next else class
      end.

(** [RunnableExecClass]; [kind] is the session's environment's. *)
Definition RunnableExecClass (db : ldb) (sid kind : string) (answered allowed : list string)
    (isWebTool isSettlementTool : string -> bool) : ExecClass :=
  fold_left (exec_class_step db sid kind answered allowed isWebTool isSettlementTool)
    (select_by_seq db (runnableToolUse db sid confirmableToolUseTypes answered allowed)) ExecNone.

Record RunnableToolUse := MkRunnable {
  ru_ID : string; ru_Payload : json; ru_ThreadID : string; ru_CrossPosted : bool }.

(** [errors.New]s of this package, by the message they carry. *)
Inductive flow_error :=
| ErrDecode                                       (* a payload does not decode *)
| ErrNoAnswerFor (t : EventType)                  (* no result event answers the type *)
| ErrDeniedUnknown (id : string)                  (* a denied call names no event *)
| ErrRefused (index : nat) (why : string)         (* the client's 400 *)
| ErrNoPending (index : nat) (id why : string)    (* [NoPendingConfirmationError] *)
| ErrNoWait (tid : string)                        (* unsettled without a wait *)
| ErrNoThread
| ErrAppend (e : append_error).

(** The scan's two maps: the threads it may not go on in, and each one's lane. *)
Record lanes := MkLanes { blocked : gset string; lane_of : gmap string string }.

Definition run_lane (isWebTool : string -> bool) (tu : erow) : string :=
  if String.eqb (e_type tu) EventAgentToolUse && isWebTool (field_string (e_payload tu) "name")
  then e_type tu +:+ "/web" else e_type tu.

Fixpoint runnable_scan (db : ldb) (sid : string) (useType : EventType) (isWebTool : string -> bool)
    (s : lanes) (rows : list erow) : result flow_error (list RunnableToolUse) :=
  match rows with
  | [] => Ok []
  | tu :: rows' =>
      let t := e_thread tu in
      let block := MkLanes ({[t]} ∪ blocked s) (lane_of s) in
      if bool_decide (t ∈ blocked s) then runnable_scan db sid useType isWebTool s rows'
      else if String.eqb (e_type tu) EventAgentCustomToolUse || answeredBy db sid tu || negb (processedPermission db [] tu)
      then runnable_scan db sid useType isWebTool block rows'
      else if negb (struct_ok (e_payload tu) ["name"]) then Err ErrDecode
      else
        let lane := run_lane isWebTool tu in
        let previous := default EmptyString (lane_of s !! t) in
        if negb (String.eqb previous EmptyString) && negb (String.eqb previous lane)
        then runnable_scan db sid useType isWebTool block rows'
        else
          try out <- runnable_scan db sid useType isWebTool (MkLanes (blocked s) (<[t := lane]> (lane_of s))) rows';
          Ok (if String.eqb (e_type tu) useType
              then MkRunnable (e_id tu) (e_payload tu) t (e_cross tu) :: out else out)
  end.

(** The calls it scans: every unsettled one, in log order. *)
Definition RunnableToolUses (db : ldb) (sid : string) (useType : EventType) (isWebTool : string -> bool)
  : result flow_error (list RunnableToolUse) :=
  runnable_scan db sid useType isWebTool (MkLanes ∅ ∅)
    (select_by_seq db (unsettledToolUse db sid toolUseTypes [])).

Definition Answered (db : ldb) (sid useID : string) : bool :=
  match find (fun tu => String.eqb (e_session tu) sid && String.eqb (e_id tu) useID) (l_events db) with
  | Some tu => answeredBy db sid tu
  | None => false
  end.

Definition AnsweredSet (db : ldb) (sid : string) (ids : list string) : gset string :=
  let strs := filter (fun i => i <> EmptyString) ids in
  list_to_set (map e_id (filter (fun tu => String.eqb (e_session tu) sid && mem_string (e_id tu) strs && answeredBy db sid tu = true)
    (l_events db))).

(** A thread row, the primary's id the empty one, and whether its session's threads have
    rows at all; [threads] is in no order. *)
Record thread_state := MkThreadState { ts_id : string; ts_status : string; ts_created : Z }.

Definition thread_first (a b : thread_state) : Prop :=
  (ts_id a = EmptyString) \/
  (ts_id b <> EmptyString /\ (ts_created a < ts_created b \/ (ts_created a = ts_created b /\ String.le (ts_id a) (ts_id b)))).
#[global] Instance thread_first_dec : RelDecision thread_first.
Proof. intros a b. unfold thread_first. apply _. Defined.

(** [ResumableThreads], of the threads its first select reads. *)
Definition ResumableThreads (db : ldb) (sid : string) (threads : list thread_state) : list string :=
  map ts_id (merge_sort thread_first
    (filter (fun t => ts_status t = "running" /\
       existsb (fun tu => unsettledToolUse db sid toolUseTypes [] tu && on_thread (ts_id t) tu) (l_events db) = false) threads)).

(** ** Validating what a client sends *)

Definition resultRefKey (t : EventType) : string :=
  if String.eqb t EventUserToolResult then "tool_use_id"
  else if String.eqb t EventUserCustomToolRes then "custom_tool_use_id" else EmptyString.

Definition payload_of (ev : NewEvent) : json := default (JObject []) (n_payload ev).

(** [payloadString]; no bytes are no document. *)
Definition payloadString (payload : option json) (key : string) : option string :=
  match payload with
  | None => None
  | Some v => match decode_map v with Some ms => decode_string (obj_get ms key) | None => None end
  end.

Definition ToolResultRefs (evs : list NewEvent) : list string :=
  omap (fun ev =>
    if String.eqb (resultRefKey (n_type ev)) EmptyString then None
    else payloadString (n_payload ev) (resultRefKey (n_type ev))) evs.

Record ResultDrops := MkDrops { d_Answered : list nat; d_Doubled : gmap nat nat }.

(** What the log, and the send so far, said of a call: its type, and where the send first
    answers it, none when the log already answers it. *)
Record seen_call := MkSeen { sc_use : EventType; sc_at : option nat }.

Definition find_event (db : ldb) (sid id : string) : option erow :=
  find (fun tu => String.eqb (e_session tu) sid && String.eqb (e_id tu) id) (l_events db).

Fixpoint validate_results (db : ldb) (sid : string) (platformOwned : string -> bool) (i : nat)
    (seen : gmap string seen_call) (drops : ResultDrops) (evs : list NewEvent) : result flow_error ResultDrops :=
  match evs with
  | [] => Ok drops
  | ev :: evs' =>
      let refKey := resultRefKey (n_type ev) in
      if String.eqb refKey EmptyString then validate_results db sid platformOwned (S i) seen drops evs'
      else
        let wantUse := if String.eqb (n_type ev) EventUserCustomToolRes then EventAgentCustomToolUse else EventAgentToolUse in
        match payloadString (n_payload ev) refKey with
        | None => Err (ErrRefused i "must be a string")
        | Some ref =>
            let again := bool_decide (is_Some (seen !! ref)) in
            let row := find_event db sid ref in
            match (match seen !! ref with
                   | Some c => Some (c, None)
                   | None => match row with
                             | None => None
                             | Some tu => Some (MkSeen (e_type tu) (if answeredBy db sid tu then None else Some i), Some tu)
                             end
                   end) with
            | None => Err (ErrRefused i "does not name a tool use in this session")
            | Some (c, fresh) =>
                let seen := <[ref := c]> seen in
                if negb (String.eqb (sc_use c) wantUse) then Err (ErrRefused i "references another event")
                else
                  match sc_at c with
                  | None =>
                      validate_results db sid platformOwned (S i) seen
                        (MkDrops (d_Answered drops ++ [i]) (d_Doubled drops)) evs'
                  | Some at_ =>
                      if again then
                        validate_results db sid platformOwned (S i) seen
                          (MkDrops (d_Answered drops) (<[i := at_]> (d_Doubled drops))) evs'
                      else
                        let name := match fresh with Some tu => text_or tu "name" EmptyString | None => EmptyString end in
                        let perm := match fresh with Some tu => text_or tu "evaluated_permission" EmptyString | None => EmptyString end in
                        let confirmed := existsb (allows sid ref) (l_events db) in
                        if String.eqb wantUse EventAgentToolUse && platformOwned name
                        then Err (ErrRefused i "is platform-executed")
                        else if String.eqb perm EvalPermAsk && negb confirmed
                        then Err (ErrRefused i "is awaiting confirmation")
                        else validate_results db sid platformOwned (S i) seen drops evs'
                  end
            end
        end
  end.

(** [ValidateToolResults]; a nil [platformOwned] owns nothing. *)
Definition ValidateToolResults (db : ldb) (sid : string) (evs : list NewEvent) (platformOwned : string -> bool)
  : result flow_error ResultDrops :=
  validate_results db sid platformOwned 0 ∅ (MkDrops [] ∅) evs.

Definition ToolConfirmationRefs (evs : list NewEvent) : list string :=
  omap (fun ev => if String.eqb (n_type ev) EventUserToolConfirm then payloadString (n_payload ev) "tool_use_id" else None) evs.

Fixpoint validate_confirmations (db : ldb) (sid : string) (i : nat) (seen : list string) (evs : list NewEvent)
  : result flow_error unit :=
  match evs with
  | [] => Ok tt
  | ev :: evs' =>
      if negb (String.eqb (n_type ev) EventUserToolConfirm) then validate_confirmations db sid (S i) seen evs'
      else
        match payloadString (n_payload ev) "tool_use_id" with
        | None => Err (ErrRefused i "must be a string")
        | Some ref =>
            if mem_string ref seen then Err (ErrRefused i "duplicate confirmation")
            else
              match find (fun tu => String.eqb (e_session tu) sid && String.eqb (e_id tu) ref &&
                                    mem_string (e_type tu) confirmableToolUseTypes) (l_events db) with
              | None => Err (ErrNoPending i ref "names no confirmable tool use in this session")
              | Some tu =>
                  if negb (String.eqb (text_or tu "evaluated_permission" EmptyString) EvalPermAsk)
                  then Err (ErrNoPending i ref "tool use was not gated for confirmation")
                  else if existsb (confirms sid ref) (l_events db) then Err (ErrRefused i "is already confirmed")
                  else if answeredBy db sid tu then Err (ErrRefused i "was already answered")
                  else validate_confirmations db sid (S i) (ref :: seen) evs'
              end
        end
  end.

Definition ValidateToolConfirmations (db : ldb) (sid : string) (evs : list NewEvent) : result flow_error unit :=
  validate_confirmations db sid 0 [] evs.

(** [unconfirmedAskEvents], [scope] the thread clause. *)
Definition unconfirmedAskEvents (db : ldb) (sid : string) (extraConfirmed : list string) (scope : erow -> bool) : list string :=
  map e_id (select_by_seq db (fun tu =>
    toolUseScope sid confirmableToolUseTypes extraConfirmed tu && names tu "evaluated_permission" EvalPermAsk &&
    negb (existsb (confirms sid (e_id tu)) (l_events db)) && negb (answeredBy db sid tu) && scope tu)).

Definition UnconfirmedAskEvents (db : ldb) (sid : string) (extraConfirmed : list string) : list string :=
  unconfirmedAskEvents db sid extraConfirmed (fun _ => true).

Definition UnconfirmedThreadAskEvents (db : ldb) (sid tid : string) (extraConfirmed : list string) : list string :=
  unconfirmedAskEvents db sid extraConfirmed (on_thread tid).

(** ** Answers the platform writes itself *)

Record use_answer := MkAnswer { ua_result : EventType; ua_refKey : string; ua_thread : bool }.

Definition toolUseAnswer (t : EventType) : option use_answer :=
  if String.eqb t EventAgentToolUse then Some (MkAnswer EventAgentToolResult "tool_use_id" false)
  else if String.eqb t EventAgentCustomToolUse then Some (MkAnswer EventUserCustomToolRes "custom_tool_use_id" true)
  else if String.eqb t EventAgentMCPToolUse then Some (MkAnswer EventAgentMCPToolResult "mcp_tool_use_id" false)
  else None.

Definition InterruptResultText : string :=
  "Tool execution was interrupted before completion. Please retry.".

Definition text_content (text : string) : json :=
  JArray [JObject [("type", JString "text"); ("text", JString text)]].

(** One abandoned call's result, stamped at [now]. *)
Definition interrupt_result (now : Z) (use : ToolUseRef) : option NewEvent :=
  match toolUseAnswer (ref_Type use) with
  | None => None
  | Some answer =>
      Some (MkNewEvent EmptyString (ua_result answer)
        (Some (JObject ([(ua_refKey answer, JString (ref_ID use)); ("content", text_content InterruptResultText);
                         ("is_error", JBool true)] ++
                        (if ua_thread answer then [("session_thread_id", JNull)] else []))))
        (Some now) (ref_ThreadID use) (ref_CrossPosted use) false)
  end.

Fixpoint InterruptResults (now : Z) (uses : list ToolUseRef) : result flow_error (list NewEvent) :=
  match uses with
  | [] => Ok []
  | use :: uses' =>
      match interrupt_result now use with
      | None => Err (ErrNoAnswerFor (ref_Type use))
      | Some ev => try out <- InterruptResults now uses'; Ok (ev :: out)
      end
  end.

Definition denialText (name denyMessage : string) : string :=
  let text := "Permission to use " +:+ name +:+ " has been rejected." in
  if String.eqb denyMessage EmptyString then text else text +:+ " Rejection message: " +:+ denyMessage.

Record deniedUse := MkDenied { du_ref : ToolUseRef; du_name : string; du_server : string }.

Definition modelName (u : deniedUse) : string :=
  if String.eqb (ref_Type (du_ref u)) EventAgentMCPToolUse then MCPModelName (du_server u) (du_name u) else du_name u.

(** [toolUsesByID]: a session's event by its id, the last row the query returns. *)
Definition toolUsesByID (db : ldb) (sid : string) (ids : list string) : gmap string deniedUse :=
  fold_left (fun m tu =>
    if String.eqb (e_session tu) sid && mem_string (e_id tu) ids
    then <[e_id tu := MkDenied (ref_of tu) (text_or tu "name" EmptyString) (text_or tu "mcp_server_name" EmptyString)]> m
    else m) (l_events db) ∅.

(** The denials among the confirmations: the call and the message. *)
Fixpoint denials_of (evs : list NewEvent) : result flow_error (list (string * string)) :=
  match evs with
  | [] => Ok []
  | ev :: evs' =>
      if negb (String.eqb (n_type ev) EventUserToolConfirm) then denials_of evs'
      else
        match n_payload ev with
        | None => Err ErrDecode
        | Some v =>
            if negb (struct_ok v ["result"; "tool_use_id"; "deny_message"]) then Err ErrDecode
            else
              try ds <- denials_of evs';
              Ok (if String.eqb (field_string v "result") "deny"
                  then (field_string v "tool_use_id", field_string v "deny_message") :: ds else ds)
        end
  end.

Fixpoint denial_results (uses : gmap string deniedUse) (ds : list (string * string))
  : result flow_error (list NewEvent * list string) :=
  match ds with
  | [] => Ok ([], [])
  | (id, msg) :: ds' =>
      match uses !! id with
      | None => Err (ErrDeniedUnknown id)
      | Some use =>
          match toolUseAnswer (ref_Type (du_ref use)) with
          | None => Err (ErrNoAnswerFor (ref_Type (du_ref use)))
          | Some answer =>
              try '(results, answered) <- denial_results uses ds';
              Ok (MkNewEvent EmptyString (ua_result answer)
                    (Some (JObject [(ua_refKey answer, JString id);
                                    ("content", text_content (denialText (modelName use) msg));
                                    ("is_error", JBool true)]))
                    None (ref_ThreadID (du_ref use)) (ref_CrossPosted (du_ref use)) false :: results,
                  id :: answered)
          end
      end
  end.

Definition DenialResults (db : ldb) (sid : string) (evs : list NewEvent) : result flow_error (list NewEvent * list string) :=
  try ds <- denials_of evs;
  match ds with
  | [] => Ok ([], [])
  | _ => denial_results (toolUsesByID db sid (map fst ds)) ds
  end.
