(* ===== verification/ToolSpec.v ===== *)
(** * ToolSpec: what the drivers run, what a client may answer, and what an interrupt
    answers for it. *)
From Stdlib Require Import Ascii Lia.
From S2P Require Import Prelude GoStrings Json Domain Consumption Log LogSpec ToolQuery.

(** ** Selecting in log order *)

Definition seq_lt (a b : erow) : Prop := e_seq a < e_seq b.

Lemma elem_of_select_by_seq db p e : e ∈ select_by_seq db p <-> e ∈ l_events db /\ p e = true.
Proof. unfold select_by_seq. rewrite merge_sort_Permutation, list_elem_of_filter. naive_solver. Qed.

(** The rows of one session, selected, are in strict order. *)
Lemma select_sorted db sid p : log_ok db -> (forall e, p e = true -> e_session e = sid) ->
  StronglySorted seq_lt (select_by_seq db p).
Proof.
  intros Hok Hp. unfold select_by_seq.
  assert (Hf : filter (fun e => p e = true) (l_events db) = filter (fun e => p e = true) (session_rows db sid)).
  { unfold session_rows. rewrite list_filter_filter. apply list_filter_iff. intros e. naive_solver. }
  assert (Hs : StronglySorted seq_lt (filter (fun e => p e = true) (session_rows db sid))).
  { destruct (Hok sid) as [Hseq _]. by eapply StronglySorted_filter, seqs_sorted. }
  rewrite Hf, (merge_sort_id row_le seq_lt); [done| | | |done]; unfold row_le, seq_lt; [lia|lia|].
  intros a b Ha Hb H1 H2. eapply (sorted_inj _ a b Hs Ha Hb). lia.
Qed.

(** What comes before a row of a sorted list is what its seq is behind. *)
Lemma sorted_before l1 e l2 r : StronglySorted seq_lt (l1 ++ e :: l2) ->
  r ∈ l1 ++ e :: l2 -> (e_seq r < e_seq e <-> r ∈ l1).
Proof.
  unfold seq_lt. intros (Hc & _ & H2)%StronglySorted_app Hr. apply StronglySorted_inv in H2 as [_ H2].
  rewrite Forall_forall in H2. split; [|intros H; apply (Hc r e); [done|left]].
  intros Hlt. apply elem_of_app in Hr as [Hr | [-> | Hr]%elem_of_cons]; [done|lia|]. specialize (H2 _ Hr). lia.
Qed.

(** ** The drivers' scan *)

(** A call a driver may run, as far as the call itself goes. *)
Ltac app_elem := repeat split; try done; apply elem_of_app; first [by left | right; by apply list_elem_of_singleton].

Definition row_ok (db : ldb) (sid : string) (tu : erow) : bool :=
  negb (String.eqb (e_type tu) EventAgentCustomToolUse) && negb (answeredBy db sid tu) && processedPermission db [] tu.

(** A driver may drain [tu]: no earlier unsettled call of its thread is for another
    driver, waits, or has an answer not yet processed. *)
Definition drains (db : ldb) (sid : string) (web : string -> bool) (tu : erow) : bool :=
  row_ok db sid tu &&
  forallb (fun prior =>
    negb (unsettledToolUse db sid toolUseTypes [] prior && String.eqb (e_thread prior) (e_thread tu) && (e_seq prior <? e_seq tu)) ||
    (row_ok db sid prior && String.eqb (run_lane web prior) (run_lane web tu))) (l_events db).

Definition drains_in (db : ldb) (sid : string) (web : string -> bool) (pre : list erow) (tu : erow) : Prop :=
  row_ok db sid tu = true /\
  forall r, r ∈ pre -> e_thread r = e_thread tu -> row_ok db sid r = true /\ run_lane web r = run_lane web tu.

Definition scan_inv (db : ldb) (sid : string) (web : string -> bool) (pre : list erow) (s : lanes) : Prop :=
  forall t,
    if bool_decide (t ∈ blocked s)
    then (exists r, r ∈ pre /\ e_thread r = t /\ row_ok db sid r = false) \/
         (exists r r', r ∈ pre /\ r' ∈ pre /\ e_thread r = t /\ e_thread r' = t /\ run_lane web r <> run_lane web r')
    else (forall r, r ∈ pre -> e_thread r = t -> row_ok db sid r = true /\ lane_of s !! t = Some (run_lane web r)) /\
         (forall l, lane_of s !! t = Some l -> exists r, r ∈ pre /\ e_thread r = t /\ run_lane web r = l).

Lemma scan_inv_app db sid web pre s tu :
  scan_inv db sid web pre s -> e_thread tu ∈ blocked s -> scan_inv db sid web (pre ++ [tu]) s.
Proof.
  intros H Hb t. specialize (H t). case_bool_decide as Ht.
  - destruct H as [(r & Hr & ? & ?)|(r & r' & Hr & Hr' & ?)]; [left; exists r|right; exists r, r'; destruct_and?]; app_elem.
  - destruct H as [H1 H2]. split.
    + intros r [Hr|Hr%list_elem_of_singleton]%elem_of_app Htr; [by apply H1|]. by subst.
    + intros l Hl. destruct (H2 l Hl) as (r & Hr & ? & ?). exists r. app_elem.
Qed.

Lemma scan_inv_block db sid web pre s tu :
  scan_inv db sid web pre s ->
  row_ok db sid tu = false \/ (exists r, r ∈ pre /\ e_thread r = e_thread tu /\ run_lane web r <> run_lane web tu) ->
  scan_inv db sid web (pre ++ [tu]) (MkLanes ({[e_thread tu]} ∪ blocked s) (lane_of s)).
Proof.
  intros H Hbad t. specialize (H t). cbn [blocked lane_of].
  destruct (decide (t = e_thread tu)) as [->|Hne].
  - rewrite bool_decide_true by set_solver. destruct Hbad as [Hbad|(r & Hr & Ht & Hl)].
    + left. exists tu. app_elem.
    + right. exists r, tu. app_elem.
  - rewrite (bool_decide_ext (t ∈ {[e_thread tu]} ∪ blocked s) (t ∈ blocked s)) by set_solver.
    case_bool_decide as Ht.
    + destruct H as [(r & Hr & ? & ?)|(r & r' & Hr & Hr' & ?)]; [left; exists r|right; exists r, r'; destruct_and?]; app_elem.
    + destruct H as [H1 H2]. split.
      * intros r [Hr|Hr%list_elem_of_singleton]%elem_of_app Htr; [by apply H1|]. by subst.
      * intros l Hl. destruct (H2 l Hl) as (r & Hr & ? & ?). exists r. app_elem.
Qed.

Lemma run_lane_ne web tu : mem_string (e_type tu) toolUseTypes = true -> run_lane web tu <> EmptyString.
Proof.
  unfold run_lane. intros H%mem_string_spec. destruct (_ && _).
  - destruct (e_type tu); [vm_compute in H; set_solver|done].
  - destruct (e_type tu); [|done]. vm_compute in H. set_solver.
Qed.

Definition ru_of (tu : erow) : RunnableToolUse := MkRunnable (e_id tu) (e_payload tu) (e_thread tu) (e_cross tu).

Lemma scan_spec db sid ty web (Q : erow -> bool) rest : forall pre s out,
  (forall l1 tu l2, pre ++ rest = l1 ++ tu :: l2 -> Q tu = true <-> drains_in db sid web l1 tu) ->
  Forall (fun tu => mem_string (e_type tu) toolUseTypes = true) (pre ++ rest) ->
  scan_inv db sid web pre s -> runnable_scan db sid ty web s rest = Ok out ->
  out = map ru_of (filter (fun tu => String.eqb (e_type tu) ty && Q tu = true) rest).
Proof.
  induction rest as [|tu rest IH]; intros pre s out HQ Hty Hinv; cbn [runnable_scan]; [by intros [= <-]|].
  assert (Hty' : Forall (fun tu => mem_string (e_type tu) toolUseTypes = true) ((pre ++ [tu]) ++ rest)) by (by rewrite <- app_assoc).
  assert (Hlane : forall r, r ∈ pre ++ [tu] -> run_lane web r <> EmptyString).
  { intros r Hr. apply run_lane_ne. rewrite Forall_forall in Hty'. apply Hty'. set_solver. }
  assert (HQ' : forall l1 tu' l2, (pre ++ [tu]) ++ rest = l1 ++ tu' :: l2 -> Q tu' = true <-> drains_in db sid web l1 tu')
    by (intros l1 tu' l2; rewrite <- app_assoc; apply HQ).
  pose proof (HQ pre tu rest eq_refl) as HQtu. pose proof (Hinv (e_thread tu)) as Ht.
  assert (Hskip : ~ drains_in db sid web pre tu -> filter (fun tu => String.eqb (e_type tu) ty && Q tu = true) (tu :: rest)
     = filter (fun tu => String.eqb (e_type tu) ty && Q tu = true) rest).
  { intros Hn. rewrite filter_cons_False; [done|]. rewrite andb_true_iff. tauto. }
  destruct (bool_decide (e_thread tu ∈ blocked s)) eqn:Eb.
  { intros Hs. rewrite Hskip.
    - eapply IH; [exact HQ'|exact Hty'| |exact Hs]. apply scan_inv_app; [done|by bool_prop].
    - intros [_ Hd]. destruct Ht as [(r & Hr & Hrt & Hrok)|(r & r' & Hr & Hr' & Hrt & Hrt' & Hne)].
      + destruct (Hd r Hr Hrt). congruence.
      + destruct (Hd r Hr Hrt) as [_ ?], (Hd r' Hr' Hrt') as [_ ?]. congruence. }
  destruct (String.eqb (e_type tu) EventAgentCustomToolUse || answeredBy db sid tu || negb (processedPermission db [] tu)) eqn:Ebad.
  { assert (Hrow : row_ok db sid tu = false) by (unfold row_ok; rewrite <- negb_orb, <- (negb_involutive (processedPermission _ _ _)), <- negb_orb, Ebad; done).
    intros Hs. rewrite Hskip; [|intros [? _]; congruence].
    eapply IH; [exact HQ'|exact Hty'| |exact Hs]. apply scan_inv_block; [done|by left]. }
  assert (Hrow : row_ok db sid tu = true) by (unfold row_ok; rewrite <- negb_orb, <- (negb_involutive (processedPermission _ _ _)), <- negb_orb, Ebad; done).
  destruct (struct_ok _ _); cbn [negb]; [|done]. destruct Ht as [Ht1 Ht2].
  destruct (negb (String.eqb (default EmptyString (lane_of s !! e_thread tu)) EmptyString) && _) eqn:Elane.
  { destruct (lane_of s !! e_thread tu) as [l|] eqn:El; [|done]. cbn [default from_option id] in Elane. bool_prop.
    destruct (Ht2 l eq_refl) as (r & Hr & Hrt & Hrl). apply String.eqb_neq in H0.
    intros Hs. rewrite Hskip; [|intros [_ Hd]; destruct (Hd r Hr Hrt) as [_ ?]; congruence].
    eapply IH; [exact HQ'|exact Hty'| |exact Hs]. apply scan_inv_block; [done|]. right. exists r. split_and!; try done. congruence. }
  destruct (runnable_scan _ _ _ _ (MkLanes _ _) rest) as [out'|] eqn:Es; [|done]. intros [= <-].
  assert (Hsame : forall r, r ∈ pre -> e_thread r = e_thread tu -> run_lane web r = run_lane web tu).
  { intros r Hr Hrt. destruct (Ht1 r Hr Hrt) as [_ Hl]. rewrite Hl in Elane. cbn [default from_option id] in Elane.
    apply andb_false_iff in Elane as [E|E]; bool_prop; [|by apply String.eqb_eq in E].
    apply String.eqb_eq in E. exfalso. apply (Hlane r); [set_solver|done]. }
  assert (Hdr : drains_in db sid web pre tu).
  { split; [done|]. intros r Hr Hrt. split; [by apply Ht1|auto]. }
  assert (Hout' : out' = map ru_of (filter (fun tu => String.eqb (e_type tu) ty && Q tu = true) rest)).
  { eapply IH; [exact HQ'|exact Hty'| |exact Es]. intros t. specialize (Hinv t). cbn [blocked lane_of].
    destruct (decide (t = e_thread tu)) as [->|Hne].
    - rewrite Eb in *. split.
      + intros r Hr Hrt. rewrite lookup_insert_eq. apply elem_of_app in Hr as [Hr| ->%list_elem_of_singleton]; [|done].
        split; [by apply Ht1|]. by rewrite (Hsame r).
      + intros l. rewrite lookup_insert_eq. intros [= <-]. exists tu. app_elem.
    - rewrite lookup_insert_ne by done. destruct (decide (t ∈ blocked s)) as [Hb|Hb];
        [rewrite bool_decide_true in Hinv |- * by done|rewrite bool_decide_false in Hinv |- * by done].
      + destruct Hinv as [(r & Hr & ? & ?)|(r & r' & Hr & Hr' & ?)]; [left; exists r|right; exists r, r'; destruct_and?]; app_elem.
      + destruct Hinv as [H1 H2]. split.
        * intros r [Hr|Hr%list_elem_of_singleton]%elem_of_app Htr; [by apply H1|]. by subst.
        * intros l Hl. destruct (H2 l Hl) as (r & Hr & ? & ?). exists r. app_elem. }
  rewrite Hout'. destruct (String.eqb (e_type tu) ty) eqn:Ety.
  - rewrite filter_cons_True; [done|]. rewrite Ety. by apply HQtu.
  - rewrite filter_cons_False; [done|]. by rewrite Ety.
Qed.

Lemma unsettled_session db sid types extra tu : unsettledToolUse db sid types extra tu = true ->
  e_session tu = sid /\ mem_string (e_type tu) types = true.
Proof. unfold unsettledToolUse, toolUseScope. intros H. bool_prop. by rewrite <- String.eqb_eq. Qed.

Lemma drains_position db sid web l1 tu l2 :
  log_ok db -> select_by_seq db (unsettledToolUse db sid toolUseTypes []) = l1 ++ tu :: l2 ->
  drains db sid web tu = true <-> drains_in db sid web l1 tu.
Proof.
  intros Hok Hsel. unfold drains, drains_in. rewrite andb_true_iff, forallb_forall. apply and_iff_compat_l.
  assert (Hsort : StronglySorted seq_lt (l1 ++ tu :: l2)).
  { rewrite <- Hsel. eapply select_sorted; [done|]. intros e He. by apply unsettled_session in He as [? _]. }
  assert (Hin : forall r, r ∈ l1 ++ tu :: l2 <-> r ∈ l_events db /\ unsettledToolUse db sid toolUseTypes [] r = true)
    by (intros r; rewrite <- Hsel; apply elem_of_select_by_seq).
  split.
  - intros H r Hr Hrt. assert (Hr' : r ∈ l1 ++ tu :: l2) by set_solver.
    pose proof (proj2 (sorted_before _ _ _ r Hsort Hr') Hr) as Hlt. apply Hin in Hr' as [Hev Hun].
    apply list_elem_of_In, H in Hev. rewrite Hun, Hrt, String.eqb_refl, (proj2 (Z.ltb_lt _ _) Hlt) in Hev. cbn in Hev.
    bool_prop. split; [done|]. by apply String.eqb_eq.
  - intros H r Hr%list_elem_of_In.
    destruct (unsettledToolUse db sid toolUseTypes [] r) eqn:Hun; [|done].
    destruct (String.eqb_spec (e_thread r) (e_thread tu)) as [Ht|]; [|done].
    destruct (e_seq r <? e_seq tu) eqn:Hlt; [|done]. apply Z.ltb_lt in Hlt. cbn [andb negb orb].
    assert (Hr' : r ∈ l1 ++ tu :: l2) by by apply Hin.
    apply (sorted_before _ _ _ r Hsort Hr') in Hlt. destruct (H r Hlt Ht) as [-> ->]. by rewrite String.eqb_refl.
Qed.

Lemma scan_eq db sid ty web out : log_ok db -> RunnableToolUses db sid ty web = Ok out ->
  out = map ru_of (filter (fun tu => String.eqb (e_type tu) ty && drains db sid web tu = true)
          (select_by_seq db (unsettledToolUse db sid toolUseTypes []))).
Proof.
  intros Hok Hrun. unfold RunnableToolUses in Hrun. eapply (scan_spec db sid ty web (drains db sid web) _ [] _ _); [| | |exact Hrun].
  - intros l1 tu l2 Hsel. by eapply drains_position.
  - apply Forall_forall. intros e He. cbn in He. apply elem_of_select_by_seq in He as [_ He]. by apply unsettled_session in He as [_ ?].
  - intros t. cbn [blocked lane_of]. rewrite bool_decide_false by set_solver. split; [by intros r ?%not_elem_of_nil|].
    intros l. by rewrite lookup_empty.
Qed.

(** A driver drains exactly the calls of its type that it may: allowed or approved,
    unanswered, and with no earlier unsettled call of their thread that waits, is another
    driver's, or has an answer still to be processed.  They come in log order. *)
Theorem RunnableToolUses_drains (db : ldb) (sid : string) (ty : EventType) (web : string -> bool) (out : list RunnableToolUse)
    (Hok : log_ok db) (Hrun : RunnableToolUses db sid ty web = Ok out) :
  out = map ru_of (filter (fun tu => String.eqb (e_type tu) ty && drains db sid web tu = true)
          (select_by_seq db (unsettledToolUse db sid toolUseTypes []))).
Proof. by apply scan_eq. Qed.

(** ** Arming the MCP driver *)

Lemma class_fold db sid kind answered allowed web settle rows : forall class,
  fold_left (exec_class_step db sid kind answered allowed web settle) rows class = ExecMCP <->
  class = ExecMCP \/ exists tu, tu ∈ rows /\ e_type tu = EventAgentMCPToolUse /\
    orderedToolHead db sid answered tu = true /\ processedPermission db allowed tu = true.
Proof.
  induction rows as [|tu rows IH]; intros class; cbn [fold_left].
  { split; [by left|]. intros [H|(tu & Hin & _)]; [done|by apply not_elem_of_nil in Hin]. }
  rewrite IH. clear IH.
  assert (Hstep : exec_class_step db sid kind answered allowed web settle class tu = ExecMCP <->
    class = ExecMCP \/ (e_type tu = EventAgentMCPToolUse /\ orderedToolHead db sid answered tu = true /\
                        processedPermission db allowed tu = true)).
  { unfold exec_class_step. cbv zeta. destruct (String.eqb_spec (e_type tu) EventAgentMCPToolUse) as [->|Hne].
    - change (String.eqb EventAgentMCPToolUse EventAgentToolUse) with false. rewrite andb_false_r. cbn [andb negb].
      destruct (orderedToolHead db sid answered tu), (processedPermission db allowed tu); cbn [negb orb];
        destruct class; vm_compute; split; try (by left); try tauto; intros [?|(?&?&?)]; congruence.
    - assert (Hnot : forall c, c <> ExecMCP -> c <> ExecNone -> (match class with ExecNone => c | _ => if class_rank c <? class_rank class then c else class end) = ExecMCP <-> class = ExecMCP).
      { intros c Hc Hc'. destruct class, c; vm_compute; split; congruence. }
      destruct (String.eqb (e_type tu) EventAgentToolUse && settle (text_or tu "name" EmptyString)); [naive_solver|].
      match goal with |- context [if ?b then class else _] => destruct b end; [naive_solver|].
      rewrite Hnot; [naive_solver|by destruct (web _)..]. }
  rewrite Hstep. split.
  - intros [[->|H]|(x & Hx & H)]; [by left|right; exists tu; split; [left|exact H]|right; exists x; split; [by right|exact H]].
  - intros [->|(x & [-> | Hx]%elem_of_cons & H)]; [left; by left|left; by right|right; eauto].
Qed.

Lemma head_of_thread l t tu : tu ∈ l -> e_thread tu = t -> StronglySorted seq_lt l ->
  exists h, h ∈ l /\ e_thread h = t /\ e_seq h <= e_seq tu /\ forall r, r ∈ l -> e_thread r = t -> e_seq h <= e_seq r.
Proof.
  intros Hin Ht Hs. induction Hs as [|x l _ IH Hx]; [by apply not_elem_of_nil in Hin|]. rewrite Forall_forall in Hx.
  destruct (decide (e_thread x = t)) as [E|E].
  - exists x. assert (Hle : forall r, r ∈ x :: l -> e_seq x <= e_seq r).
    { intros r [-> | Hr]%elem_of_cons; [done|]. specialize (Hx r Hr). unfold seq_lt in Hx. lia. }
    split_and!; [left|done|by apply Hle|auto].
  - apply elem_of_cons in Hin as [-> | Hin]; [done|]. destruct (IH Hin) as (h & Hh & ? & ? & Hmin).
    exists h. split_and!; [by right|done|done|]. intros r [-> | Hr]%elem_of_cons Hrt; [done|auto].
Qed.

Lemma existsb_same {A} (f g : A -> bool) l : (forall x, f x = g x) -> existsb f l = existsb g l.
Proof. intros H. induction l as [|x l IH]; [done|]. cbn. by rewrite H, IH. Qed.

Lemma orderedToolHead_iff db sid tu : e_session tu = sid ->
  orderedToolHead db sid [] tu = true <->
  forall r, r ∈ l_events db -> unsettledToolUse db sid toolUseTypes [] r = true -> e_thread r = e_thread tu -> e_seq tu <= e_seq r.
Proof.
  intros Hsid. unfold orderedToolHead. rewrite Hsid, negb_true_iff.
  rewrite (existsb_same _ (fun r => unsettledToolUse db sid toolUseTypes [] r && String.eqb (e_thread r) (e_thread tu) &&
    (e_seq r <? e_seq tu))).
  - rewrite <- not_true_iff_false, existsb_exists. split.
    + intros H r Hr Hun Ht. destruct (Z.le_gt_cases (e_seq tu) (e_seq r)) as [|Hlt]; [done|]. exfalso. apply H.
      exists r. split; [by apply list_elem_of_In|]. by rewrite Hun, Ht, String.eqb_refl, (proj2 (Z.ltb_lt _ _) Hlt).
    + intros H (r & Hr%list_elem_of_In & Hc). bool_prop. apply String.eqb_eq in H2. specialize (H r Hr H0 H2). lia.
  - intros r. unfold unsettledToolUse, toolUseScope. destruct (String.eqb_spec (e_session r) sid) as [->|]; [|done]. cbn [andb].
    destruct (mem_string (e_type r) toolUseTypes), (mem_string (e_id r) []), (processedAnswerBy db sid r),
      (String.eqb (e_thread r) (e_thread tu)), (e_seq r <? e_seq tu); done.
Qed.

(** A receipt is what processing comes after. *)
Lemma unanswered_unsettled db sid types extra tu :
  unansweredToolUse db sid types extra tu = true -> unsettledToolUse db sid types extra tu = true.
Proof.
  unfold unansweredToolUse, unsettledToolUse. intros [-> H]%andb_true_iff. cbn [andb]. apply negb_true_iff in H.
  apply negb_true_iff. unfold answeredBy, processedAnswerBy in *. rewrite <- not_true_iff_false, existsb_exists in *.
  intros (r & Hr & Ha). apply H. exists r. by apply andb_true_iff in Ha as [? _].
Qed.

(** A processed permission is one received. *)
Lemma processed_allows db sid tu : e_session tu = sid -> processedPermission db [] tu = true ->
  String.eqb (text_or tu "evaluated_permission" EvalPermAllow) EvalPermAllow || mem_string (e_id tu) [] ||
  existsb (allows sid (e_id tu)) (l_events db) = true.
Proof.
  intros <-. unfold processedPermission. intros [H|H]%orb_true_iff; [by rewrite H|].
  apply orb_true_iff. right. rewrite existsb_exists in *. destruct H as (c & Hc & Ha). exists c.
  by apply andb_true_iff in Ha as [? _].
Qed.

(** The driver has something to run exactly when a call of its type drains. *)
Lemma run_nonempty db sid ty web out : log_ok db -> RunnableToolUses db sid ty web = Ok out ->
  out <> [] <-> exists tu, tu ∈ l_events db /\ unsettledToolUse db sid toolUseTypes [] tu = true /\
    e_type tu = ty /\ drains db sid web tu = true.
Proof.
  intros Hok Hrun. rewrite (scan_eq db sid ty web out Hok Hrun). split.
  - intros Hne. destruct (filter _ _) as [|tu l] eqn:E; [done|].
    assert (Hin : tu ∈ tu :: l) by left. rewrite <- E in Hin. apply list_elem_of_filter in Hin as [Hp Hin].
    apply elem_of_select_by_seq in Hin as [Hin Hun]. bool_prop. exists tu. by rewrite <- String.eqb_eq.
  - intros (tu & Hin & Hun & Ht & Hd) Hnil. assert (H : tu ∈ []); [|by apply not_elem_of_nil in H].
    apply map_eq_nil in Hnil. rewrite <- Hnil. apply list_elem_of_filter.
    split; [by rewrite Ht, Hd, String.eqb_refl|]. by apply elem_of_select_by_seq.
Qed.

(** A settlement arms the MCP driver exactly when that driver's own scan finds a call
    to run: no MCP call is left without a driver, and none is armed for nothing. *)
Theorem RunnableExecClass_MCP (db : ldb) (sid kind : string) (web settle : string -> bool) (out : list RunnableToolUse)
    (Hok : log_ok db) (Hrun : RunnableToolUses db sid EventAgentMCPToolUse web = Ok out) :
  RunnableExecClass db sid kind [] [] web settle = ExecMCP <-> out <> [].
Proof.
  pose proof (run_nonempty db sid _ web out Hok Hrun) as Hout.
  rewrite Hout. unfold RunnableExecClass. rewrite class_fold. setoid_rewrite elem_of_select_by_seq. split.
  - intros [|(tu & (Hin & Hrunb) & Hty & Hhead & Hperm)]; [done|].
    unfold runnableToolUse, unansweredToolUse in Hrunb. bool_prop.
    unfold toolUseScope in H. bool_prop. apply String.eqb_eq in H as Hs.
    exists tu. rewrite orderedToolHead_iff in Hhead by done.
    assert (Hun : unsettledToolUse db sid toolUseTypes [] tu = true).
    { apply unanswered_unsettled. unfold unansweredToolUse, toolUseScope. by rewrite Hs, String.eqb_refl, Hty, H1. }
    split_and!; [done|done|done|]. unfold drains, row_ok. rewrite Hty, H1, Hperm.
    change (String.eqb EventAgentMCPToolUse EventAgentCustomToolUse) with false. cbn [negb andb].
    rewrite forallb_forall. intros r Hr%list_elem_of_In.
    destruct (unsettledToolUse db sid toolUseTypes [] r) eqn:Er; [|done].
    destruct (String.eqb_spec (e_thread r) (e_thread tu)) as [Ht|]; [|done].
    destruct (e_seq r <? e_seq tu) eqn:El; [|done]. apply Z.ltb_lt in El. specialize (Hhead r Hr Er Ht). lia.
  - intros (tu & Hin & Hun & Hty & Hd). right.
    set (l := select_by_seq db (unsettledToolUse db sid toolUseTypes [])).
    assert (Hl : tu ∈ l) by by apply elem_of_select_by_seq.
    assert (Hs : StronglySorted seq_lt l).
    { eapply select_sorted; [done|]. intros e He. by apply unsettled_session in He as [? _]. }
    destruct (head_of_thread l (e_thread tu) tu Hl eq_refl Hs) as (h & Hh & Hht & Hle & Hmin).
    apply elem_of_select_by_seq in Hh as [Hhin Hhun]. destruct (unsettled_session _ _ _ _ _ Hhun) as [Hsid _].
    assert (Hhok : row_ok db sid h = true /\ run_lane web h = run_lane web tu).
    { unfold drains in Hd. apply andb_true_iff in Hd as [Hrow Hd]. rewrite forallb_forall in Hd.
      destruct (Z.eq_dec (e_seq h) (e_seq tu)) as [Heq|Hneq].
      - assert (h = tu) as -> by (eapply (sorted_inj l); [exact Hs|by apply elem_of_select_by_seq|done|done]). done.
      - apply list_elem_of_In, Hd in Hhin. rewrite Hhun, Hht, String.eqb_refl, (proj2 (Z.ltb_lt _ _)) in Hhin by lia.
        cbn in Hhin. bool_prop. by rewrite <- String.eqb_eq. }
    destruct Hhok as [Hhok Hlane]. unfold row_ok in Hhok. bool_prop.
    assert (Hhty : e_type h = EventAgentMCPToolUse).
    { unfold run_lane in Hlane. rewrite Hty in Hlane. change (String.eqb EventAgentMCPToolUse EventAgentToolUse) with false in Hlane.
      cbn [andb] in Hlane. destruct (String.eqb_spec (e_type h) EventAgentToolUse) as [E|E]; [|done].
      rewrite E in Hlane. by destruct (web _). }
    exists h. split_and!; [done| |done| |done].
    + unfold runnableToolUse, unansweredToolUse, toolUseScope. rewrite Hsid, String.eqb_refl, Hhty, H1.
      cbn. by apply processed_allows.
    + apply orderedToolHead_iff; [done|]. intros r Hr Hrun' Hrt. apply Hmin; [by apply elem_of_select_by_seq|congruence].
Qed.

(** ** A batch no clock reads *)

(** An event that is neither a status nor a usage event becomes a row as it is. *)
Definition plain_event (ev : NewEvent) : bool :=
  negb (is_idle ev) && negb (mem_string (n_type ev) primaryStatusEvents) && negb (String.eqb (n_type ev) EventSessionUsage).

Definition plain_row (sid : string) (ev : NewEvent) (r : erow) : Prop :=
  e_session r = sid /\ e_type r = n_type ev /\ e_payload r = payload_of ev /\ e_thread r = n_thread ev /\
  (n_id ev <> EmptyString -> e_id r = n_id ev) /\
  (n_processed ev <> None -> e_processed r <> None) /\
  (n_processed ev = None -> StampedOnConsumption (n_type ev) = true -> e_processed r = None).

Lemma stamp_of_plain rd seq last ev :
  (n_processed ev <> None -> stamp_of rd seq false None last ev <> None) /\
  (n_processed ev = None -> StampedOnConsumption (n_type ev) = true -> stamp_of rd seq false None last ev = None).
Proof.
  unfold stamp_of. cbv zeta. split.
  - intros Hp. destruct (n_processed ev) as [p|]; [|done]. destruct last as [l|]; [|done]. by destruct (p <? l).
  - by intros -> ->.
Qed.

Lemma build_rows_plain rd sid agent usage created : forall evs seq last clock rows clock',
  Forall (fun ev => plain_event ev = true) evs ->
  build_rows rd sid agent usage created false seq None last clock evs = Ok (rows, clock') ->
  Forall2 (plain_row sid) evs rows.
Proof.
  induction evs as [|ev evs IH]; intros seq last clock rows clock' Hok; cbn [build_rows].
  { intros [= <- _]. constructor. }
  apply Forall_cons in Hok as [Hev Hok]. unfold plain_event in Hev. bool_prop.
  rewrite H1, andb_false_r, H0.
  destruct (build_rows _ _ _ _ _ _ _ _ _ _ evs) as [[rows1 clock1]|] eqn:E; [|done].
  intros [= <- _]. constructor; [|by eapply IH].
  unfold plain_row. cbn [e_session e_type e_payload e_thread e_id e_processed]. split_and!; try done.
  - by destruct clock, (stamp_of rd (seq + 1) false None last ev).
  - intros Hne. by destruct (String.eqb_spec (n_id ev) EmptyString).
  - apply stamp_of_plain.
  - apply stamp_of_plain.
Qed.

Lemma append_effects_plain rd db sid sess evs clock out db' :
  append_effects rd db sid sess evs clock out no_options = Ok db' -> l_events db' = l_events db.
Proof.
  unfold append_effects, no_options.
  cbn [o_thinking o_status o_usage o_mutate o_mark o_consume o_then].
  change (0 <? 0) with false. cbn [app]. cbv iota. intros [= <-].
  destruct (resets_delegation evs), clock as [c|]; try destruct (c_changed c); done.
Qed.

Lemma AppendInTx_plain rd db sid evs out db' :
  Forall (fun ev => plain_event ev = true) evs -> AppendInTx rd db sid evs no_options = Ok (out, db') ->
  l_events db' = l_events db ++ out /\ Forall2 (plain_row sid) evs out.
Proof.
  intros Hok (sess & clock0 & clock & agent & _ & _ & _ & _ & Hb & He & _)%AppendInTx_inv.
  apply append_effects_plain in He. split; [exact He|].
  replace (withUsageSnapshots evs) with evs in Hb; [by eapply build_rows_plain|].
  clear -Hok. induction Hok as [|ev evs Hev _ IH]; [done|]. cbn [withUsageSnapshots].
  unfold plain_event in Hev. bool_prop. by rewrite H, <- IH.
Qed.

(** ** What an interrupt answers *)

Lemma interrupt_result_shape now use ev : interrupt_result now use = Some ev ->
  plain_event ev = true /\ n_processed ev = Some now /\ n_thread ev = ref_ThreadID use /\
  mem_string (n_type ev) toolResultTypes = true /\ result_ref (payload_of ev) = Some (ref_ID use).
Proof.
  unfold interrupt_result, toolUseAnswer.
  destruct (String.eqb (ref_Type use) EventAgentToolUse); [by intros [= <-]|].
  destruct (String.eqb (ref_Type use) EventAgentCustomToolUse); [by intros [= <-]|].
  destruct (String.eqb (ref_Type use) EventAgentMCPToolUse); [by intros [= <-]|done].
Qed.

Lemma InterruptResults_Ok now uses : Forall (fun u => mem_string (ref_Type u) toolUseTypes = true) uses ->
  exists evs, InterruptResults now uses = Ok evs /\ Forall2 (fun u ev => interrupt_result now u = Some ev) uses evs.
Proof.
  induction 1 as [|u uses Hu _ (evs & IH & Hf)]; [by exists []|]. cbn [InterruptResults].
  destruct (interrupt_result now u) as [ev|] eqn:E.
  - exists (ev :: evs). rewrite IH. split; [done|]. by constructor.
  - exfalso. unfold interrupt_result, toolUseAnswer in E. cbn in Hu.
    destruct (String.eqb (ref_Type u) EventAgentToolUse), (String.eqb (ref_Type u) EventAgentCustomToolUse),
      (String.eqb (ref_Type u) EventAgentMCPToolUse); done.
Qed.

Lemma answeredBy_app db db' sid out tu : l_events db' = l_events db ++ out ->
  answeredBy db' sid tu = answeredBy db sid tu || existsb (answers sid (e_id tu)) out.
Proof. unfold answeredBy. intros ->. apply existsb_app. Qed.

(** What an interrupt writes can always be written, and answers the thread: once it is
    on the log no call of the thread is left unanswered but the ones the caller answers
    itself, and each call it answered counts as processed, so the thread can resume. *)
Theorem InterruptResults_answer (rd : readings) (db : ldb) (sid tid : string) (extra : list string) (now : Z) :
  exists evs, InterruptResults now (UnansweredThreadToolUses db sid tid extra) = Ok evs /\
    forall out db', AppendInTx rd db sid evs no_options = Ok (out, db') ->
      HasUnansweredThreadToolUse db' sid tid extra = false /\
      forall tu, tu ∈ l_events db -> unansweredToolUse db sid toolUseTypes extra tu = true -> on_thread tid tu = true ->
        processedAnswerBy db' sid tu = true.
Proof.
  set (uses := UnansweredThreadToolUses db sid tid extra).
  assert (Hin : forall tu, tu ∈ l_events db -> unansweredToolUse db sid toolUseTypes extra tu = true -> on_thread tid tu = true ->
    ref_of tu ∈ uses).
  { intros tu Htu Hun Hth. unfold uses, UnansweredThreadToolUses. apply list_elem_of_fmap_2, elem_of_select_by_seq.
    by rewrite Hun, Hth. }
  destruct (InterruptResults_Ok now uses) as (evs & Hevs & Hf).
  { apply Forall_forall. intros u Hu. unfold uses, UnansweredThreadToolUses in Hu.
    apply list_elem_of_fmap in Hu as (tu & -> & Htu). apply elem_of_select_by_seq in Htu as [_ Htu].
    unfold unansweredToolUse, toolUseScope in Htu. by bool_prop. }
  exists evs. split; [exact Hevs|]. intros out db' Happ.
  assert (Hplain : Forall (fun ev => plain_event ev = true) evs).
  { clear -Hf. induction Hf as [|u ev uses evs Hu _ IH]; constructor; [|done]. by apply interrupt_result_shape in Hu as [? _]. }
  apply AppendInTx_plain in Happ as [Hev Hrows]; [|done].
  assert (Hans : forall u, u ∈ uses -> exists r, r ∈ out /\ answers sid (ref_ID u) r = true /\ e_processed r <> None).
  { clear -Hf Hrows. revert out Hrows. induction Hf as [|u ev uses evs Hu _ IH]; intros out Hrows v Hv; [by apply not_elem_of_nil in Hv|].
    inversion Hrows as [|? r ? out' Hr Hrows']; subst. apply elem_of_cons in Hv as [-> | Hv].
    - exists r. split; [left|]. apply interrupt_result_shape in Hu as (_ & Hp & _ & Hty & Href).
      destruct Hr as (Hs & Ht & Hpl & _ & _ & Hproc & _). split; [|apply Hproc; by rewrite Hp].
      unfold answers. by rewrite Hs, Ht, Hpl, Href, !String.eqb_refl, Hty.
    - destruct (IH out' Hrows' v Hv) as (r' & ? & ?). exists r'. split; [by right|done]. }
  assert (Hnot : Forall (fun r => mem_string (e_type r) toolUseTypes = false) out).
  { clear -Hf Hrows. revert out Hrows. induction Hf as [|u ev uses evs Hu _ IH]; intros out Hrows;
      inversion Hrows as [|? r ? out' Hr Hrows']; subst; constructor; [|by apply IH].
    apply interrupt_result_shape in Hu as (_ & _ & _ & Hty & _). destruct Hr as (_ & -> & _).
    apply mem_string_spec in Hty. clear -Hty. unfold toolResultTypes in Hty.
    repeat (apply elem_of_cons in Hty as [-> | Hty]; [by vm_compute|]). by apply not_elem_of_nil in Hty. }
  split.
  - apply not_true_iff_false. unfold HasUnansweredThreadToolUse. rewrite existsb_exists. intros (tu & Htu & Hun).
    bool_prop. unfold unansweredToolUse in H. bool_prop. apply list_elem_of_In in Htu. rewrite Hev in Htu.
    rewrite (answeredBy_app db db' sid out tu Hev) in H1. bool_prop.
    apply elem_of_app in Htu as [Htu|Htu].
    + destruct (Hans (ref_of tu)) as (r & Hr & Ha & _).
      { apply Hin; [done| |done]. unfold unansweredToolUse. by rewrite H, H1. }
      apply not_true_iff_false in H2. apply H2, existsb_exists. exists r. split; [by apply list_elem_of_In|done].
    + rewrite Forall_forall in Hnot. unfold toolUseScope in H. bool_prop. rewrite (Hnot tu Htu) in *. done.
  - intros tu Htu Hun Hth. destruct (Hans (ref_of tu) (Hin tu Htu Hun Hth)) as (r & Hr & Ha & Hp).
    unfold processedAnswerBy. apply existsb_exists. exists r. split.
    + apply list_elem_of_In. rewrite Hev. apply elem_of_app. by right.
    + cbn [ref_of ref_ID] in Ha. rewrite Ha. by apply bool_decide_eq_true.
Qed.

(** ** One answer per call *)

Definition dropped (d : ResultDrops) (i : nat) : bool :=
  bool_decide (i ∈ d_Answered d) || bool_decide (is_Some (d_Doubled d !! i)).

(** The batch less the results that must not reach the log. *)
Fixpoint kept (d : ResultDrops) (i : nat) (evs : list NewEvent) : list NewEvent :=
  match evs with
  | [] => []
  | ev :: evs' => if dropped d i then kept d (S i) evs' else ev :: kept d (S i) evs'
  end.

Definition use_of (ev : NewEvent) : EventType :=
  if String.eqb (n_type ev) EventUserCustomToolRes then EventAgentCustomToolUse else EventAgentToolUse.

Definition is_tool_result (ev : NewEvent) : bool := negb (String.eqb (resultRefKey (n_type ev)) EmptyString).

Definition ref_opt (ev : NewEvent) : option string :=
  if is_tool_result ev then payloadString (n_payload ev) (resultRefKey (n_type ev)) else None.

(** A result that may land: it names a call of its own kind that nothing answers, that the
    platform does not run itself ([po]), and that a human has let run where it asked. *)
Definition lands (db : ldb) (sid : string) (po : string -> bool) (ev : NewEvent) (ref : string) : Prop :=
  exists tu, find_event db sid ref = Some tu /\ e_type tu = use_of ev /\ answeredBy db sid tu = false /\
    (use_of ev = EventAgentToolUse -> po (text_or tu "name" EmptyString) = false) /\
    (text_or tu "evaluated_permission" EmptyString = EvalPermAsk -> existsb (allows sid ref) (l_events db) = true).

Definition drops_below (d : ResultDrops) (i : nat) : Prop := forall j, dropped d j = true -> (j < i)%nat.

Lemma dropped_answered d i j :
  dropped (MkDrops (d_Answered d ++ [i]) (d_Doubled d)) j = bool_decide (j = i) || dropped d j.
Proof.
  unfold dropped. cbn [d_Answered d_Doubled]. rewrite orb_assoc. f_equal.
  rewrite <- bool_decide_or. apply bool_decide_ext. rewrite elem_of_app, list_elem_of_singleton. tauto.
Qed.

Lemma dropped_doubled d i at_ j :
  dropped (MkDrops (d_Answered d) (<[i := at_]> (d_Doubled d))) j = bool_decide (j = i) || dropped d j.
Proof.
  unfold dropped. cbn [d_Answered d_Doubled]. rewrite orb_assoc, (orb_comm (bool_decide (j = i))), <- orb_assoc. f_equal.
  rewrite <- bool_decide_or. apply bool_decide_ext. destruct (decide (j = i)) as [->|Hne].
  - rewrite lookup_insert_eq. split; [by left|by eexists].
  - rewrite lookup_insert_ne by done. tauto.
Qed.

Lemma validate_results_spec db sid po evs : forall i seen drops d,
  drops_below drops i -> validate_results db sid po i seen drops evs = Ok d ->
  (forall j, (j < i)%nat -> dropped d j = dropped drops j) /\
  NoDup (omap ref_opt (kept d i evs)) /\
  (forall ev, ev ∈ kept d i evs -> is_tool_result ev = true ->
     exists ref, ref_opt ev = Some ref /\ seen !! ref = None /\ lands db sid po ev ref).
Proof.
  induction evs as [|ev evs IH]; intros i seen drops d Hbelow; cbn [validate_results kept].
  { intros [= <-]. split_and!; [done|constructor|]. by intros ev ?%not_elem_of_nil. }
  fold (use_of ev).
  (* the event's own index, and the rest *)
  assert (Hrest : forall seen' drops', drops_below drops' (S i) ->
    (forall j, (j < i)%nat -> dropped drops' j = dropped drops j) ->
    validate_results db sid po (S i) seen' drops' evs = Ok d ->
    (forall j, (j < i)%nat -> dropped d j = dropped drops j) /\ dropped d i = dropped drops' i /\
    NoDup (omap ref_opt (kept d (S i) evs)) /\
    (forall ev, ev ∈ kept d (S i) evs -> is_tool_result ev = true ->
       exists ref, ref_opt ev = Some ref /\ seen' !! ref = None /\ lands db sid po ev ref)).
  { intros seen' drops' Hb Hj Hv. destruct (IH _ _ _ _ Hb Hv) as (H1 & H2 & H3). split_and!; [|apply H1; lia|done|done].
    intros j Hlt. rewrite H1 by lia. by apply Hj. }
  assert (Hself : dropped drops i = false).
  { apply not_true_iff_false. intros H%Hbelow. lia. }
  assert (HbelowS : drops_below drops (S i)) by (intros j H%Hbelow; lia).
  destruct (String.eqb (resultRefKey (n_type ev)) EmptyString) eqn:Ekey.
  { intros Hv. destruct (Hrest seen drops HbelowS (fun j _ => eq_refl) Hv) as (H1 & H2 & H3 & H4).
    rewrite H2, Hself. assert (Hno : is_tool_result ev = false) by (unfold is_tool_result; by rewrite Ekey).
    split; [done|]. split.
    - cbn [omap list_omap]. unfold ref_opt at 1. by rewrite Hno.
    - intros e [-> | He]%elem_of_cons Hr; [congruence|auto]. }
  assert (Hyes : is_tool_result ev = true) by (unfold is_tool_result; by rewrite Ekey).
  destruct (payloadString (n_payload ev) (resultRefKey (n_type ev))) as [ref|] eqn:Eref; [|done].
  assert (Hopt : ref_opt ev = Some ref) by (unfold ref_opt; by rewrite Hyes).
  (* what happens to a dropped result *)
  assert (Hdrop : forall c drops', (forall j, dropped drops' j = bool_decide (j = i) || dropped drops j) ->
    validate_results db sid po (S i) (<[ref := c]> seen) drops' evs = Ok d ->
    (forall j, (j < i)%nat -> dropped d j = dropped drops j) /\
    NoDup (omap ref_opt (if dropped d i then kept d (S i) evs else ev :: kept d (S i) evs)) /\
    (forall e, e ∈ (if dropped d i then kept d (S i) evs else ev :: kept d (S i) evs) -> is_tool_result e = true ->
       exists ref, ref_opt e = Some ref /\ seen !! ref = None /\ lands db sid po e ref)).
  { intros c drops' Hd' Hv. destruct (Hrest (<[ref := c]> seen) drops') as (H1 & H2 & H3 & H4); [| |exact Hv|].
    - intros j. rewrite Hd'. intros [H|H]%orb_true_iff; [bool_prop; lia|apply Hbelow in H; lia].
    - intros j Hj. rewrite Hd', bool_decide_false by lia. done.
    - rewrite H2, Hd', bool_decide_true by done. cbn [orb]. split; [done|]. split; [done|].
      intros e He Hr. destruct (H4 e He Hr) as (r & ? & Hs & ?). exists r. split_and!; [done| |done].
      apply lookup_insert_None in Hs. by destruct Hs. }
  destruct (seen !! ref) as [c|] eqn:Eseen.
  - rewrite (bool_decide_true (is_Some (Some c))) by done.
    destruct (negb (String.eqb (sc_use c) (use_of ev))); [done|].
    destruct (sc_at c) as [at_|]; apply Hdrop; intros j; [apply dropped_doubled|apply dropped_answered].
  - rewrite (bool_decide_false (is_Some None)) by (by intros [? ?]).
    destruct (find_event db sid ref) as [tu|] eqn:Ef; [|done]. cbn [sc_use sc_at].
    destruct (negb (String.eqb (e_type tu) (use_of ev))) eqn:Euse; [done|]. bool_prop. apply String.eqb_eq in Euse.
    destruct (answeredBy db sid tu) eqn:Ea; [apply Hdrop; intros j; apply dropped_answered|].
    destruct (String.eqb (use_of ev) EventAgentToolUse && po _) eqn:Eown; [done|].
    destruct (String.eqb _ EvalPermAsk && negb _) eqn:Eask; [done|].
    intros Hv. destruct (Hrest _ drops HbelowS (fun j _ => eq_refl) Hv) as (H1 & H2 & H3 & H4).
    rewrite H2, Hself. split; [done|]. split.
    + cbn [omap list_omap]. rewrite Hopt. constructor; [|done].
      intros (e & He & Hre)%list_elem_of_omap.
      assert (Hre' : is_tool_result e = true) by (unfold ref_opt in Hre; by destruct (is_tool_result e)).
      destruct (H4 e He Hre') as (r & Hr & Hs & _). rewrite Hre in Hr. injection Hr as <-. by rewrite lookup_insert_eq in Hs.
    + intros e [-> | He]%elem_of_cons Hr.
      * exists ref. split_and!; [done|done|]. exists tu. split_and!; try done.
        -- intros Hu. by rewrite Hu, String.eqb_refl in Eown.
        -- intros Hp. rewrite Hp, String.eqb_refl in Eask. by apply negb_false_iff in Eask.
      * destruct (H4 e He Hr) as (r & ? & Hs & ?). exists r. split_and!; [done| |done].
        apply lookup_insert_None in Hs. by destruct Hs.
Qed.

Definition one_answer (db : ldb) (sid : string) : Prop :=
  forall id, (length (filter (fun r => answers sid id r = true) (l_events db)) <= 1)%nat.

(** A client's event; a result's call is the one its own kind's key names. *)
Definition client_event (ev : NewEvent) : Prop :=
  Inbound (n_type ev) = true /\
  (is_tool_result ev = true -> result_ref (payload_of ev) = text_at (payload_of ev) (resultRefKey (n_type ev))).

Lemma inbound_plain ev : Inbound (n_type ev) = true -> plain_event ev = true.
Proof.
  intros Hi. unfold plain_event, is_idle.
  assert (Hne : forall x, Inbound x = false -> String.eqb (n_type ev) x = false)
    by (intros x Hx; apply String.eqb_neq; intros H; rewrite H in Hi; congruence).
  unfold mem_string, primaryStatusEvents. cbn [existsb]. by rewrite !Hne by done.
Qed.

Lemma inbound_result ev : Inbound (n_type ev) = true -> mem_string (n_type ev) toolResultTypes = true -> is_tool_result ev = true.
Proof.
  unfold is_tool_result. generalize (n_type ev). intros t Hi Hm%mem_string_spec. unfold toolResultTypes in Hm.
  repeat (apply elem_of_cons in Hm as [-> | Hm]; [by vm_compute in Hi |- *|]). by apply not_elem_of_nil in Hm.
Qed.

Lemma text_at_payload ev key id : text_at (payload_of ev) key = Some id -> is_Some (payloadString (n_payload ev) key) ->
  payloadString (n_payload ev) key = Some id.
Proof.
  unfold payload_of, payloadString. destruct (n_payload ev) as [v|]; cbn [default from_option]; [|done].
  destruct v as [| | | | |ms]; try done. cbn [Datatypes.id text_at decode_map].
  destruct (obj_get ms key) as [[| | | | |]|]; cbn; try done; by intros _ [? ?].
Qed.

Lemma NoDup_omap_count {A B} `{EqDecision B} (f : A -> option B) (y : B) l :
  NoDup (omap f l) -> (length (filter (fun x => f x = Some y) l) <= 1)%nat.
Proof.
  induction l as [|x l IH]; [cbn; lia|]. cbn [omap list_omap]. rewrite filter_cons.
  destruct (f x) as [z|] eqn:E.
  - intros [Hn Hd]%NoDup_cons. case_decide as Hz; [|by apply IH]. injection Hz as ->.
    replace (filter (fun x => f x = Some y) l) with (@nil A); [cbn; lia|]. symmetry. apply filter_all_false.
    apply Forall_forall. intros w Hw Hfw. apply Hn. apply list_elem_of_omap. by exists w.
  - intros Hd. case_decide; [done|]. by apply IH.
Qed.

Lemma kept_sub d evs : forall i ev, ev ∈ kept d i evs -> ev ∈ evs.
Proof.
  induction evs as [|e evs IH]; intros i ev; cbn [kept]; [done|]. destruct (dropped d i).
  - intros H. right. by eapply IH.
  - intros [-> | H]%elem_of_cons; [left|right; by eapply IH].
Qed.

(** C12: a tool call never has two answers.  A send that [ValidateToolResults] accepts, less
    the results it drops, can be appended to a log with at most one answer per call and
    leaves at most one; each result kept answers a call of the session, of its own kind,
    that had none, that the platform does not run itself and that, if it asked a human, was
    allowed. *)
Theorem ValidateToolResults_one_answer (rd : readings) (db db' : ldb) (sid : string) (evs : list NewEvent)
    (po : string -> bool) (d : ResultDrops) (out : list erow)
    (Hclient : Forall client_event evs) (Hone : one_answer db sid)
    (Hvalid : ValidateToolResults db sid evs po = Ok d)
    (Happend : AppendInTx rd db sid (kept d 0 evs) no_options = Ok (out, db')) :
  one_answer db' sid /\
  forall ev, ev ∈ kept d 0 evs -> is_tool_result ev = true -> exists ref, ref_opt ev = Some ref /\ lands db sid po ev ref.
Proof.
  destruct (validate_results_spec db sid po evs 0 ∅ (MkDrops [] ∅) d) as (_ & Hnd & Hland); [| exact Hvalid|].
  { intros j H. unfold dropped in H. cbn [d_Answered d_Doubled] in H. rewrite lookup_empty in H.
    by rewrite bool_decide_false in H by (by apply not_elem_of_nil). }
  split; [|intros ev He Hr; destruct (Hland ev He Hr) as (ref & ? & _ & ?); eauto].
  assert (Hck : Forall client_event (kept d 0 evs)).
  { apply Forall_forall. intros ev He. rewrite Forall_forall in Hclient. by eapply Hclient, kept_sub. }
  apply AppendInTx_plain in Happend as [Hev Hrows].
  2:{ eapply Forall_impl; [exact Hck|]. intros ev [Hi _]. by apply inbound_plain. }
  intros id. rewrite Hev, filter_app, length_app.
  (* a row that answers is a kept result that names the call *)
  assert (Hrow : forall l o, Forall2 (plain_row sid) l o -> Forall client_event l ->
    (forall ev, ev ∈ l -> is_tool_result ev = true -> is_Some (ref_opt ev)) ->
    (length (filter (fun r => answers sid id r = true) o) <= length (filter (fun ev => ref_opt ev = Some id) l))%nat).
  { clear. intros l o H. induction H as [|ev r l o Hr _ IH]; intros Hc Hsome; [done|].
    apply Forall_cons in Hc as [[Hi Hown] Hc]. rewrite !filter_cons.
    assert (Hle : (length (filter (fun r => answers sid id r = true) o) <= length (filter (fun ev => ref_opt ev = Some id) l))%nat).
    { apply IH; [done|]. intros e He. apply Hsome. by right. }
    case_decide as Ha; [|case_decide; cbn [length]; lia].
    rewrite decide_True; [cbn [length]; lia|]. unfold answers in Ha. destruct Hr as (_ & Ht & Hpl & _).
    rewrite Ht, Hpl in Ha. bool_prop. destruct (result_ref (payload_of ev)) as [t|] eqn:Er; [|done].
    apply String.eqb_eq in H0 as ->. pose proof (inbound_result ev Hi H1) as Hyes.
    destruct (Hsome ev (list_elem_of_here _ _) Hyes) as [x Hx]. unfold ref_opt in *. rewrite Hyes in *.
    apply text_at_payload; [exact (eq_sym (Hown eq_refl))|]. exists x. exact Hx. }
  specialize (Hrow _ _ Hrows Hck).
  assert (Hsome : forall ev, ev ∈ kept d 0 evs -> is_tool_result ev = true -> is_Some (ref_opt ev)).
  { intros ev He Hr. destruct (Hland ev He Hr) as (ref & -> & _). eauto. }
  specialize (Hrow Hsome). pose proof (NoDup_omap_count ref_opt id _ Hnd) as Hcount.
  destruct (filter (fun ev => ref_opt ev = Some id) (kept d 0 evs)) as [|ev l] eqn:Ek.
  - cbn [length] in Hrow. pose proof (Hone id). lia.
  - assert (He : ev ∈ ev :: l) by left. rewrite <- Ek in He. apply list_elem_of_filter in He as [Href He].
    assert (Hyes : is_tool_result ev = true) by (unfold ref_opt in Href; by destruct (is_tool_result ev)).
    destruct (Hland ev He Hyes) as (ref & Hr & _ & tu & Hf & _ & Hans & _). rewrite Href in Hr. injection Hr as <-.
    apply find_some in Hf as [_ Hid]. bool_prop. apply String.eqb_eq in H0.
    replace (filter (fun r => answers sid id r = true) (l_events db)) with (@nil erow); [cbn [length]; lia|].
    symmetry. apply filter_all_false, Forall_forall. intros r Hr Ha. unfold answeredBy in Hans. rewrite H0 in Hans.
    apply not_true_iff_false in Hans. apply Hans, existsb_exists. exists r. split; [by apply list_elem_of_In|done].
Qed.

(** ** A thread with an MCP call, a call the client runs, and an MCP call behind it. *)

Definition tool_row (id : string) (seq : Z) (ty : EventType) : erow :=
  MkErow id "s" seq ty (JObject [("name", JString "search"); ("evaluated_permission", JString "allow")])
    (Some second) (10 * second) EmptyString false.

Definition tool_db : ldb :=
  MkLdb [tool_row "t1" 1 EventAgentMCPToolUse; tool_row "t2" 2 EventAgentCustomToolUse; tool_row "t3" 3 EventAgentMCPToolUse]
    {["s" := sample_sess]} ∅ [].

Definition no_name (_ : string) : bool := false.

Lemma tool_log_ok : log_ok tool_db.
Proof.
  intros sid. unfold session_rows, tool_db. cbn [l_events].
  destruct (String.eqb_spec sid "s") as [->|Hne].
  - rewrite !filter_cons_True, filter_nil by done. split; [vm_compute; reflexivity|].
    repeat (apply SSorted_cons || apply SSorted_nil || (apply Forall_cons; split) || apply Forall_nil); done.
  - rewrite !filter_cons_False by (cbn; congruence). split; [reflexivity|constructor].
Qed.

Lemma tool_run : RunnableToolUses tool_db "s" EventAgentMCPToolUse no_name = Ok [ru_of (tool_row "t1" 1 EventAgentMCPToolUse)].
Proof. vm_compute. reflexivity. Qed.

Lemma RunnableToolUses_drains_witness :
  map ru_ID [ru_of (tool_row "t1" 1 EventAgentMCPToolUse)] =
  map ru_ID (map ru_of (filter (fun tu => String.eqb (e_type tu) EventAgentMCPToolUse && drains tool_db "s" no_name tu = true)
          (select_by_seq tool_db (unsettledToolUse tool_db "s" toolUseTypes [])))).
Proof.
  rewrite <- (RunnableToolUses_drains tool_db "s" EventAgentMCPToolUse no_name _ tool_log_ok tool_run). reflexivity.
Defined.

Lemma RunnableExecClass_MCP_witness : RunnableExecClass tool_db "s" "cloud" [] [] no_name no_name = ExecMCP.
Proof.
  apply (RunnableExecClass_MCP tool_db "s" "cloud" no_name no_name _ tool_log_ok tool_run). discriminate.
Defined.

(** An interrupt of the thread answers all three. *)
Definition interrupted_db : option ldb :=
  match InterruptResults (20 * second) (UnansweredThreadToolUses tool_db "s" EmptyString []) with
  | Ok evs => match AppendInTx (sample_readings (20 * second)) tool_db "s" evs no_options with Ok (_, db) => Some db | _ => None end
  | _ => None
  end.

Lemma InterruptResults_answer_witness :
  exists db', interrupted_db = Some db' /\ length (l_events db') = 6%nat /\
    HasUnansweredThreadToolUse tool_db "s" EmptyString [] = true /\
    HasUnansweredThreadToolUse db' "s" EmptyString [] = false.
Proof.
  destruct (InterruptResults_answer (sample_readings (20 * second)) tool_db "s" EmptyString [] (20 * second)) as (evs & He & H).
  assert (Hlen : (fun o => match o with Some db => length (l_events db) | None => O end) interrupted_db = 6%nat)
    by (vm_compute; reflexivity).
  unfold interrupted_db in *. rewrite He in *.
  destruct (AppendInTx (sample_readings (20 * second)) tool_db "s" evs no_options) as [[out db']|] eqn:Ea; [|discriminate].
  exists db'. split; [reflexivity|]. split; [exact Hlen|]. split; [vm_compute; reflexivity|].
  exact (proj1 (H out db' eq_refl)).
Defined.

(** Two results for the client's call: the first lands, the second is dropped. *)
Definition custom_result (id ref : string) : NewEvent :=
  MkNewEvent id EventUserCustomToolRes (Some (JObject [("custom_tool_use_id", JString ref)])) None EmptyString false false.

Definition two_results : list NewEvent := [custom_result "u1" "t2"; custom_result "u2" "t2"].

Lemma ValidateToolResults_one_answer_witness :
  exists d out db', ValidateToolResults tool_db "s" two_results no_name = Ok d /\ d_Doubled d !! 1%nat = Some O /\
    AppendInTx (sample_readings (20 * second)) tool_db "s" (kept d 0 two_results) no_options = Ok (out, db') /\
    length out = 1%nat /\ one_answer db' "s".
Proof.
  assert (Hc : Forall client_event two_results) by (repeat constructor).
  assert (Hone : one_answer tool_db "s").
  { intros id. unfold tool_db. cbn [l_events]. rewrite !filter_cons_False by done. cbn. lia. }
  destruct (ValidateToolResults tool_db "s" two_results no_name) as [d|] eqn:Ev; [|vm_compute in Ev; discriminate].
  assert (Hd : d = MkDrops [] {[1%nat := O]}) by (vm_compute in Ev; injection Ev as <-; vm_compute; reflexivity).
  destruct (AppendInTx (sample_readings (20 * second)) tool_db "s" (kept d 0 two_results) no_options) as [[out db']|] eqn:Ea;
    [|rewrite Hd in Ea; vm_compute in Ea; discriminate].
  exists d, out, db'. split; [reflexivity|]. split; [rewrite Hd; reflexivity|]. split; [exact Ea|].
  split; [rewrite Hd in Ea; vm_compute in Ea; injection Ea as <- _; reflexivity|].
  exact (proj1 (ValidateToolResults_one_answer (sample_readings (20 * second)) tool_db db' "s" two_results no_name d out Hc Hone Ev Ea)).
Defined.
