(* ===== verification/ToolFlow.v ===== *)
(** * ToolFlow: the ordered processing of tool calls
    (internal/events/orderedtools.go, awaiting.go).

    A thread's calls advance in log order: a reply that is out of order stays on the log
    without advancing past an earlier call.  What a client's send does to a thread is
    planned before its answers are appended ([AnswerPlan]) and carried out after
    ([AdvanceThreadTools]). *)
From Stdlib Require Import Ascii Lia.
From S2P Require Import Prelude GoStrings Json Domain Consumption Ids Log ToolQuery.

Record ToolFlow := MkFlow { Pending : list string; Unsettled : bool; PlatformRunnable : bool }.

Definition Running (f : ToolFlow) : bool := negb (Unsettled f) || PlatformRunnable f.

Definition Flow_Equal (f g : ToolFlow) : bool :=
  Bool.eqb (Unsettled f) (Unsettled g) && Bool.eqb (PlatformRunnable f) (PlatformRunnable g) &&
  bool_decide (Pending f = Pending g).

(** An [orderedCall]; a confirmation's payload is JSON null where there is none. *)
Record orderedCall := MkCall {
  oc_id : string;
  oc_typ : EventType;
  oc_name : string;
  oc_permission : string;
  oc_resultID : string;
  oc_confirmationID : string;
  oc_confirmation : option json;
  oc_confirmed : bool;
  oc_resolved : bool;
}.

Definition asks (c : orderedCall) : bool := String.eqb (oc_permission c) EvalPermAsk.

Definition workerCall (c : orderedCall) (kind : string) (platformOwned : string -> bool) : bool :=
  String.eqb kind EnvSelfHosted && String.eqb (oc_typ c) EventAgentToolUse && negb (platformOwned (oc_name c)).

Definition external (c : orderedCall) (kind : string) (platformOwned : string -> bool) : bool :=
  String.eqb (oc_typ c) EventAgentCustomToolUse || workerCall c kind platformOwned.

Definition is_empty (s : string) : bool := String.eqb s EmptyString.

(** The waits a turn will have, of the batch it emits. *)
Definition ToolWaitIDs (batch : list NewEvent) (kind : string) (platformOwned : string -> bool) : list string :=
  omap (fun ev =>
    if negb (mem_string (n_type ev) [EventAgentCustomToolUse; EventAgentToolUse; EventAgentMCPToolUse]) then None
    else
      let p := payload_of ev in
      let permission := field_string p "evaluated_permission" in
      let c := MkCall EmptyString (n_type ev) (field_string p "name") permission EmptyString EmptyString None false false in
      if String.eqb permission EvalPermDeny then None
      else if asks c || external c kind platformOwned then Some (n_id ev) else None) batch.

(** ** A thread's unprocessed calls *)

Definition call_of (db : ldb) (sid : string) (tu : erow) : result flow_error orderedCall :=
  let r := find (answers sid (e_id tu)) (l_events db) in
  let c := find (confirms sid (e_id tu)) (l_events db) in
  if negb (struct_ok (e_payload tu) ["name"; "evaluated_permission"]) then Err ErrDecode
  else Ok (MkCall (e_id tu) (e_type tu) (field_string (e_payload tu) "name") (field_string (e_payload tu) "evaluated_permission")
             (match r with Some r => e_id r | None => EmptyString end)
             (match c with Some c => e_id c | None => EmptyString end)
             (e_payload <$> c)
             (match c with Some c => bool_decide (e_processed c <> None) | None => false end)
             false).

(** [r.processed_at IS NULL]: no result, or one not processed. *)
Definition unprocessed_call (db : ldb) (sid : string) (tu : erow) : bool :=
  match find (answers sid (e_id tu)) (l_events db) with
  | Some r => bool_decide (e_processed r = None)
  | None => true
  end.

Fixpoint map_result {E A B} (f : A -> result E B) (l : list A) : result E (list B) :=
  match l with
  | [] => Ok []
  | x :: l' => try y <- f x; try ys <- map_result f l'; Ok (y :: ys)
  end.

Definition thread_uses (db : ldb) (sid tid : string) : list erow :=
  select_by_seq db (fun tu =>
    String.eqb (e_session tu) sid && mem_string (e_type tu) toolUseTypes && on_thread tid tu && unprocessed_call db sid tu).

Definition threadCallsOf (db : ldb) (sid tid : string) : result flow_error (list orderedCall) :=
  map_result (call_of db sid) (thread_uses db sid tid).

(** The loop of [summarizeTools]. *)
Definition summarize_step (kind : string) (platformOwned : string -> bool) (out : ToolFlow) (c : orderedCall) : ToolFlow :=
  if oc_resolved c then out
  else
    let ext := external c kind platformOwned in
    let gated := asks c && negb (oc_confirmed c) in
    MkFlow (if ext || gated then Pending out ++ [oc_id c] else Pending out) true
      (if negb (Unsettled out) then negb ext && negb gated && is_empty (oc_resultID c) else PlatformRunnable out).

Definition summarizeTools (calls : list orderedCall) (kind : string) (platformOwned : string -> bool) : ToolFlow :=
  fold_left (summarize_step kind platformOwned) calls (MkFlow [] false false).

Definition ThreadToolFlow (db : ldb) (sid tid kind : string) (platformOwned : string -> bool) : result flow_error ToolFlow :=
  try calls <- threadCallsOf db sid tid; Ok (summarizeTools calls kind platformOwned).

Definition PendingThreadApprovals (db : ldb) (sid tid : string) : result flow_error bool :=
  try calls <- threadCallsOf db sid tid; Ok (existsb (fun c => asks c && negb (oc_confirmed c)) calls).

(** ** The walk *)

(** [consume] may change the state it is threaded through, and the call; it reports
    whether the call is now resolved. *)
Section walk.
Context {S : Type} (consume : S -> orderedCall -> result flow_error (S * orderedCall * bool)).

Fixpoint walkReady (s : S) (calls : list orderedCall) : result flow_error (S * list orderedCall) :=
  match calls with
  | [] => Ok (s, [])
  | c :: rest =>
      if is_empty (oc_resultID c) && (negb (asks c) || is_empty (oc_confirmationID c)) then Ok (s, calls)
      else
        try '(s, c, resolved) <- consume s c;
        if (resolved : bool)
        then try '(s, rest) <- walkReady s rest; Ok (s, c :: rest)
        else Ok (s, c :: rest)
  end.
End walk.

Definition mark (c : orderedCall) (confirmed resolved : bool) : orderedCall :=
  MkCall (oc_id c) (oc_typ c) (oc_name c) (oc_permission c) (oc_resultID c) (oc_confirmationID c) (oc_confirmation c)
    confirmed resolved.

(** A confirmation as [DenialResults] is handed it. *)
Definition confirm_event (c : orderedCall) : NewEvent :=
  MkNewEvent EmptyString EventUserToolConfirm (oc_confirmation c) None EmptyString false false.

(** [UPDATE events SET processed_at = clock_timestamp() WHERE session_id = sid AND id = id
    AND processed_at IS NULL]. *)
Definition stamp (rd : readings) (db : ldb) (sid id : string) : ldb :=
  stamp_where db (fun e => String.eqb (e_session e) sid && String.eqb (e_id e) id) (r_stamp rd).

Definition advance_consume (rd : readings) (sid : string) (db : ldb) (c : orderedCall)
  : result flow_error (ldb * orderedCall * bool) :=
  if negb (is_empty (oc_resultID c)) then
    let db := if negb (is_empty (oc_confirmationID c)) then stamp rd db sid (oc_confirmationID c) else db in
    Ok (stamp rd db sid (oc_resultID c), mark c (oc_confirmed c) true, true)
  else
    let db := stamp rd db sid (oc_confirmationID c) in
    let c := mark c true (oc_resolved c) in
    try '(results, answered) <- DenialResults db sid [confirm_event c];
    match results with
    | [] => Ok (db, c, false)
    | _ =>
        match AppendInTx rd db sid results no_options with
        | Err e => Err (ErrAppend e)
        | Ok (_, db) => Ok (db, mark c true true, true)
        end
    end.

(** The tables [AdvanceThreadTools] leaves, and the flow. *)
Definition AdvanceThreadTools (rd : readings) (db : ldb) (sid tid kind : string) (platformOwned : string -> bool)
  : result flow_error (ldb * ToolFlow) :=
  try calls <- threadCallsOf db sid tid;
  try '(db, calls) <- walkReady (advance_consume rd sid) db calls;
  Ok (db, summarizeTools calls kind platformOwned).

(** ** The plan of a send *)

Definition isAnswer (t : EventType) : bool := mem_string t answerTypes.

(** [answerRef]: the first of the three keys that is not empty. *)
Definition answerRef (ev : NewEvent) : string :=
  let v := payload_of ev in
  let a := field_string v "tool_use_id" in
  let b := field_string v "custom_tool_use_id" in
  if negb (is_empty a) then a else if negb (is_empty b) then b else field_string v "mcp_tool_use_id".

(** [denies]; a payload that is no document denies nothing. *)
Definition denies (confirmation : option json) : bool :=
  match confirmation with Some v => String.eqb (field_string v "result") "deny" | None => false end.

Definition DeniedRefs (evs : list NewEvent) : list string :=
  omap (fun ev => if String.eqb (n_type ev) EventUserToolConfirm && denies (n_payload ev) then Some (answerRef ev) else None) evs.

Record AnswerStep := MkStep { as_Answer : string; as_Denials : list NewEvent }.

Record AnswerPlan := MkPlan {
  ap_Pending : gset string;
  ap_Steps : gmap string (list AnswerStep);
  ap_Denied : list string;
  ap_Moot : list string;
}.

Definition NewAnswerPlan (posted : list NewEvent) : AnswerPlan :=
  MkPlan (list_to_set (map n_id (filter (fun ev => isAnswer (n_type ev) = true) posted))) ∅ [] [].

(** A posted answer read as though on the log: the call it answers takes it. *)
Definition take_answer (ev : NewEvent) (c : orderedCall) : orderedCall :=
  if String.eqb (n_type ev) EventUserToolConfirm then
    if is_empty (oc_confirmationID c)
    then MkCall (oc_id c) (oc_typ c) (oc_name c) (oc_permission c) (oc_resultID c) (n_id ev) (n_payload ev)
           (oc_confirmed c) (oc_resolved c)
    else c
  else if is_empty (oc_resultID c)
  then MkCall (oc_id c) (oc_typ c) (oc_name c) (oc_permission c) (n_id ev) (oc_confirmationID c) (oc_confirmation c)
         (oc_confirmed c) (oc_resolved c)
  else c.

(** The loop over the posted events: the plan's moot confirmations, and the calls with
    their posted answers. *)
Fixpoint take_posted (tid : string) (answered : string -> bool) (p : AnswerPlan) (calls : list orderedCall)
    (posted : list NewEvent) : AnswerPlan * list orderedCall :=
  match posted with
  | [] => (p, calls)
  | ev :: posted' =>
      if String.eqb (n_type ev) EventUserToolConfirm && String.eqb (n_thread ev) tid && answered (answerRef ev)
      then take_posted tid answered
             (MkPlan (ap_Pending p ∖ {[n_id ev]}) (ap_Steps p) (ap_Denied p) (ap_Moot p ++ [n_id ev])) calls posted'
      else if negb (isAnswer (n_type ev)) then take_posted tid answered p calls posted'
      else take_posted tid answered p
             (map (fun c => if String.eqb (oc_id c) (answerRef ev) then take_answer ev c else c) calls) posted'
  end.

(** One call of the plan's walk; the state is the plan and the steps so far. *)
Definition plan_answer (id : string) (ps : AnswerPlan * list AnswerStep) : AnswerPlan * list AnswerStep :=
  let '(p, steps) := ps in
  if bool_decide (id ∈ ap_Pending p)
  then (MkPlan (ap_Pending p ∖ {[id]}) (ap_Steps p) (ap_Denied p) (ap_Moot p), steps ++ [MkStep id []])
  else ps.

(** The last step's denials, extended. *)
Definition add_denials (steps : list AnswerStep) (ds : list NewEvent) : list AnswerStep :=
  match last steps with
  | Some s => take (length steps - 1) steps ++ [MkStep (as_Answer s) (as_Denials s ++ ds)]
  | None => steps
  end.

Definition plan_consume (db : ldb) (sid : string) (ps : AnswerPlan * list AnswerStep) (c : orderedCall)
  : result flow_error (AnswerPlan * list AnswerStep * orderedCall * bool) :=
  let '(p, steps) := plan_answer (oc_resultID c) (plan_answer (oc_confirmationID c) ps) in
  let resolved := negb (is_empty (oc_resultID c)) || denies (oc_confirmation c) in
  let c := mark c (negb (is_empty (oc_confirmationID c))) resolved in
  if negb resolved || negb (is_empty (oc_resultID c)) then Ok ((p, steps), c, resolved)
  else
    match steps with
    | [] => Ok ((p, steps), c, true)
    | _ =>
        try '(results, answered) <- DenialResults db sid [confirm_event c];
        Ok ((MkPlan (ap_Pending p) (ap_Steps p) (ap_Denied p ++ [oc_confirmationID c]) (ap_Moot p),
             add_denials steps results), c, true)
    end.

(** [walk]: the plan, and the calls as the walk leaves them. *)
Definition plan_walk (db : ldb) (sid tid : string) (posted synthesized : list NewEvent) (p : AnswerPlan)
  : result flow_error (AnswerPlan * list orderedCall) :=
  let answered := fun id => mem_string id (map answerRef synthesized) in
  try calls <- threadCallsOf db sid tid;
  let calls := filter (fun c => answered (oc_id c) = false) calls in
  let '(p, calls) := take_posted tid answered p calls posted in
  try '(ps, calls) <- walkReady (plan_consume db sid) (p, []) calls;
  let '(p, steps) := ps in
  Ok (match steps with
      | [] => p
      | _ => MkPlan (ap_Pending p) (<[tid := steps]> (ap_Steps p)) (ap_Denied p) (ap_Moot p)
      end, calls).

Definition Settle (db : ldb) (sid tid kind : string) (posted : list NewEvent) (platformOwned : string -> bool) (p : AnswerPlan)
  : result flow_error (AnswerPlan * ToolFlow) :=
  try '(p, calls) <- plan_walk db sid tid posted [] p;
  Ok (p, summarizeTools calls kind platformOwned).

Definition Interrupted (db : ldb) (sid tid : string) (posted synthesized : list NewEvent) (p : AnswerPlan)
  : result flow_error AnswerPlan :=
  if negb (existsb (fun ev => isAnswer (n_type ev) && String.eqb (n_thread ev) tid) posted) then Ok p
  else try '(p, calls) <- plan_walk db sid tid posted synthesized p; Ok p.

Definition StampConfirmations (rd : readings) (db : ldb) (sid : string) (ids : list string) : ldb :=
  match ids with
  | [] => db
  | _ => stamp_where db (fun e => String.eqb (e_session e) sid && mem_string (e_id e) ids) (r_stamp rd)
  end.

Definition StampSupersededAnswers (db : ldb) (sid : string) (calls : list ToolUseRef) (at_ : Z) : ldb :=
  match calls with
  | [] => db
  | _ => stamp_where db (fun e => String.eqb (e_session e) sid && mem_string (e_type e) answerTypes &&
                          match result_ref (e_payload e) with
                          | Some r => mem_string r (map ref_ID calls)
                          | None => false
                          end) (fun _ => at_)
  end.

(** ** What a thread waits for (awaiting.go) *)

Record AwaitedResponse := MkAwaited { aw_ID : string; aw_Confirmation : bool; aw_Result : bool }.

Definition awaited_of (kind : string) (platformOwned : string -> bool) (c : orderedCall) : option AwaitedResponse :=
  if negb (is_empty (oc_confirmationID c)) && denies (oc_confirmation c) then None
  else
    let a := MkAwaited (oc_id c) (asks c && is_empty (oc_confirmationID c))
               (external c kind platformOwned && is_empty (oc_resultID c)) in
    if aw_Confirmation a || aw_Result a then Some a else None.

Definition ThreadWaits (db : ldb) (sid tid kind : string) (platformOwned : string -> bool)
  : result flow_error (ToolFlow * list AwaitedResponse) :=
  try calls <- threadCallsOf db sid tid;
  Ok (summarizeTools calls kind platformOwned, omap (awaited_of kind platformOwned) calls).

Record WhileAwaitingError := MkWhile { wa_Type : EventType; wa_Index : nat; wa_IDs : list string }.

(** What one event of the send leaves awaited. *)
Definition answer_awaited (reachesPrimary : nat -> bool) (i : nat) (ev : NewEvent) (awaited : list AwaitedResponse)
  : list AwaitedResponse :=
  if String.eqb (n_type ev) EventUserToolResult || String.eqb (n_type ev) EventUserCustomToolRes then
    filter (fun a => aw_ID a <> answerRef ev) awaited
  else if String.eqb (n_type ev) EventUserToolConfirm then
    filter (fun a => aw_Confirmation a || aw_Result a = true)
      (map (fun a => if String.eqb (aw_ID a) (answerRef ev)
                     then MkAwaited (aw_ID a) false (aw_Result a && negb (denies (n_payload ev))) else a) awaited)
  else if String.eqb (n_type ev) EventUserInterrupt then if reachesPrimary i then [] else awaited
  else awaited.

Definition is_work (ev : NewEvent) : bool :=
  String.eqb (n_type ev) EventUserMessage || String.eqb (n_type ev) EventUserDefineOutcome.

Fixpoint check_awaiting (reachesPrimary : nat -> bool) (i : nat) (first : option (nat * EventType))
    (awaited : list AwaitedResponse) (posted : list NewEvent) : option WhileAwaitingError :=
  match posted with
  | [] =>
      match first, awaited with
      | Some (ix, ty), _ :: _ => Some (MkWhile ty ix (map aw_ID awaited))
      | _, _ => None
      end
  | ev :: posted' =>
      let first := if is_work ev then match first with None => Some (i, n_type ev) | f => f end else first in
      check_awaiting reachesPrimary (S i) first (answer_awaited reachesPrimary i ev awaited) posted'
  end.

Definition CheckWhileAwaiting (awaited : list AwaitedResponse) (posted : list NewEvent) (reachesPrimary : nat -> bool)
  : option WhileAwaitingError := check_awaiting reachesPrimary 0 None awaited posted.
