(* ===== verification/ToolSettle.v ===== *)
(** * ToolSettle: the move a settlement makes (internal/events/orderedtools.go).

    The flow a walk leaves a thread in decides where the thread rests; the thread's row
    and the session's status are the tables of [Status]. *)
From Stdlib Require Import Ascii Lia.
From S2P Require Import Prelude GoStrings Ids Status Json Domain Consumption Log ToolQuery ToolFlow.

(** [UNION]s and joins read rows of both tables; here only the thread's own row, or the
    session's status for a primary without one. *)
Definition settled_row (s : sdb) (sid tid : string) : option (SessionStatus * option StopReason) :=
  match s_threads s !! thread_of sid tid with
  | Some r => if String.eqb (t_session r) sid then Some (t_status r, t_stop r)
              else if String.eqb tid EmptyString then (fun st => (st, None)) <$> Status.s_status s !! sid else None
  | None => if String.eqb tid EmptyString then (fun st => (st, None)) <$> Status.s_status s !! sid else None
  end.

(** [previous.Type == stop.Type && slices.Equal(...)]; no stop reason decodes to the zero
    one, whose type is empty. *)
Definition same_stop (previous : option StopReason) (stop : StopReason) : bool :=
  match previous with
  | Some p => bool_decide (sr_type p = sr_type stop) && bool_decide (sr_ids p = sr_ids stop)
  | None => false
  end.

Definition SettleTransition (s : sdb) (sid tid : string) (flow : ToolFlow)
  : result flow_error (option ThreadTransition) :=
  if negb (Running flow) && bool_decide (Pending flow = []) then Err (ErrNoWait tid)
  else
    let want := if Running flow then SessionRunning else SessionIdle in
    let stop := if Running flow then None else Some (MkStop StopRequiresAction (Pending flow)) in
    match settled_row s sid tid with
    | None => Err ErrNoThread
    | Some (status, previous) =>
        if bool_decide (status = SessionTerminated) || bool_decide (status = SessionRescheduling) then Ok None
        else
          let same := bool_decide (status = want) &&
                      match stop with Some st => same_stop previous st | None => true end in
          Ok (if same then None
              else Some (MkTransition tid want stop (bool_decide (want = SessionIdle)) false))
    end.

(** [SettleToolFlow]: the events it appends, the session's move and the tables. *)
Definition SettleToolFlow (s : sdb) (sid tid : string) (flow : ToolFlow)
  : result (flow_error + status_error) (list Status.NewEvent * option SessionStatus * sdb) :=
  match SettleTransition s sid tid flow with
  | Err e => Err (inl e)
  | Ok None => Ok ([], None, s)
  | Ok (Some t) =>
      match TransitionThread s sid t with
      | Err e => Err (inr e)
      | Ok r => Ok r
      end
  end.
