(* ===== verification/FlowSpec.v ===== *)
(** * FlowSpec: the ordered processing of tool calls, and the plan that foresees it. *)
From Stdlib Require Import Ascii Lia.
From S2P Require Import Prelude GoStrings Ids Status Json Domain Consumption Log LogSpec ToolQuery ToolSpec ToolFlow ToolSettle.

(** ** The walk *)

Definition same_call (c d : orderedCall) : Prop :=
  oc_id c = oc_id d /\ oc_typ c = oc_typ d /\ oc_name c = oc_name d /\ oc_permission c = oc_permission d /\
  oc_resultID c = oc_resultID d /\ oc_confirmationID c = oc_confirmationID d /\ oc_confirmation c = oc_confirmation d.

(** Ready for processing: it has its result, or its gate has its confirmation. *)
Definition ready (c : orderedCall) : bool :=
  negb (is_empty (oc_resultID c)) || (asks c && negb (is_empty (oc_confirmationID c))).

(** Calls that count alike: settled in both, or marked alike. *)
Definition counts_alike (c d : orderedCall) : Prop :=
  (oc_resolved c = true /\ oc_resolved d = true) \/ c = d.

Lemma summarize_alike kind po cs ds :
  Forall2 counts_alike cs ds -> summarizeTools cs kind po = summarizeTools ds kind po.
Proof.
  intros H. unfold summarizeTools. generalize (MkFlow [] false false).
  induction H as [|c d cs ds Hcd _ IH]; intros f; [done|]. cbn [fold_left].
  replace (summarize_step kind po f d) with (summarize_step kind po f c); [apply IH|].
  destruct Hcd as [[H1 H2]| ->]; [|done]. unfold summarize_step. by rewrite H1, H2.
Qed.

(** What a denial result is made of: the error, or one result when the confirmation
    refuses its call. *)
Lemma DenialResults_one db sid c results answered :
  DenialResults db sid [confirm_event c] = Ok (results, answered) ->
  (results = [] /\ denies (oc_confirmation c) = false) \/
  ((exists ev, results = [ev]) /\ denies (oc_confirmation c) = true).
Proof.
  unfold DenialResults, denials_of, confirm_event, denies. cbn [n_type n_payload].
  change (String.eqb EventUserToolConfirm EventUserToolConfirm) with true. cbn [negb].
  destruct (oc_confirmation c) as [v|]; [|done].
  destruct (struct_ok v _); cbn [negb]; [|done].
  destruct (String.eqb (field_string v "result") "deny").
  - cbn [map denial_results]. intros H. right. split; [|done].
    destruct (toolUsesByID _ _ _ !! _) as [u|]; [|done].
    destruct (toolUseAnswer _); [|done]. injection H as <- <-. eauto.
  - intros [= <- <-]. by left.
Qed.

(** A consumer that marks the call it is handed and reports what the marks say. *)
Definition marking {S} (f : S -> orderedCall -> result flow_error (S * orderedCall * bool)) : Prop :=
  forall s c s' c' b, oc_resolved c = false -> f s c = Ok (s', c', b) ->
    same_call c c' /\ oc_resolved c' = b /\
    (b = false -> oc_resultID c = EmptyString).

Lemma same_call_mark c a b : same_call c (mark c a b).
Proof. by unfold same_call. Qed.

Lemma advance_marking rd sid : marking (advance_consume rd sid).
Proof.
  intros db c db' c' b Hc. unfold advance_consume.
  destruct (is_empty (oc_resultID c)) eqn:Er; cbn [negb].
  - destruct (DenialResults _ _ _) as [[results answered]|]; [|done].
    apply String.eqb_eq in Er. destruct results as [|ev results].
    + intros [= <- <- <-]. rewrite Hc. by split_and!; [by unfold same_call|..].
    + destruct (AppendInTx _ _ _ _ _) as [[out db1]|]; [|done]. intros [= <- <- <-].
      by split_and!; [by unfold same_call|..].
  - intros [= <- <- <-]. by split_and!; [by unfold same_call|..].
Qed.

Lemma plan_marking db sid : forall s c s' c' b, plan_consume db sid s c = Ok (s', c', b) ->
  c' = mark c (negb (is_empty (oc_confirmationID c))) (negb (is_empty (oc_resultID c)) || denies (oc_confirmation c)) /\
  b = negb (is_empty (oc_resultID c)) || denies (oc_confirmation c).
Proof.
  intros ps c s' c' b. unfold plan_consume.
  destruct (plan_answer _ (plan_answer _ ps)) as [p steps]. cbn [mark oc_confirmation oc_confirmationID oc_resultID].
  destruct (negb (is_empty (oc_resultID c)) || denies (oc_confirmation c)) eqn:Eb; cbn [negb orb].
  - destruct (is_empty (oc_resultID c)) eqn:Er; cbn [negb].
    + destruct steps as [|s steps]; [by intros [= <- <- <-]|].
      destruct (DenialResults _ _ _) as [[results answered]|]; [|done]. by intros [= <- <- <-].
    + by intros [= <- <- <-].
  - by intros [= <- <- <-].
Qed.

(** The settlement's walk and the plan's mark the calls so that they count alike. *)
Lemma walks_alike rd sid db dbp ps calls : forall ps' cs db' ds,
  Forall (fun c => oc_resolved c = false) calls ->
  walkReady (plan_consume dbp sid) ps calls = Ok (ps', cs) ->
  walkReady (advance_consume rd sid) db calls = Ok (db', ds) ->
  Forall2 counts_alike cs ds.
Proof.
  revert ps db. induction calls as [|c calls IH]; intros ps db ps' cs db' ds Hr.
  { by intros [= <- <-] [= <- <-]. }
  apply Forall_cons in Hr as [Hc Hr]. cbn [walkReady].
  assert (Hrefl : forall l, Forall2 counts_alike l l).
  { intros l. induction l; constructor; [by right|done]. }
  destruct (is_empty (oc_resultID c) && (negb (asks c) || is_empty (oc_confirmationID c))) eqn:Eready.
  { intros [= <- <-] [= <- <-]. apply Hrefl. }
  destruct (plan_consume dbp sid ps c) as [[[ps1 c1] b1]|] eqn:Ep; [|done].
  destruct (advance_consume rd sid db c) as [[[db1 c2] b2]|] eqn:Ea; [|done].
  pose proof Ep as [Hc1 Hb1]%plan_marking.
  assert (Hb : b1 = b2 /\ (b1 = false -> c1 = c2)).
  { rewrite Hb1, Hc1. clear -Ea Eready Hc. unfold advance_consume in Ea.
    destruct (is_empty (oc_resultID c)) eqn:Er; cbn [negb orb] in *.
    - cbn [andb] in Eready. apply orb_false_iff in Eready as [_ Ecf]. rewrite Ecf. cbn [negb].
      destruct (DenialResults _ _ _) as [[results answered]|] eqn:Ed; [|done].
      apply DenialResults_one in Ed. cbn [mark oc_confirmation] in Ed.
      destruct Ed as [[-> Hd]|[[ev ->] Hd]]; rewrite Hd.
      + injection Ea as <- <- <-. by rewrite Hc.
      + destruct (AppendInTx _ _ _ _ _) as [[out db2]|]; [|done]. by injection Ea as <- <- <-.
    - by injection Ea as <- <- <-. }
  destruct Hb as [<- Hcc]. pose proof (advance_marking _ _ _ _ _ _ _ Hc Ea) as (_ & Hres2 & _).
  destruct b1.
  - destruct (walkReady (plan_consume dbp sid) ps1 calls) as [[ps2 cs1]|] eqn:E1; [|done].
    destruct (walkReady (advance_consume rd sid) db1 calls) as [[db2 ds1]|] eqn:E2; [|done].
    intros [= <- <-] [= <- <-]. constructor; [left; split; [by rewrite Hc1, <- Hb1|done]|]. by eapply IH.
  - intros [= <- <-] [= <- <-]. constructor; [right; by apply Hcc|apply Hrefl].
Qed.

(** ** Where a walk leaves a thread *)

(** The first call left open has no result: the walk stops at what is not there yet. *)
Definition halted (cs : list orderedCall) : Prop :=
  match filter (fun c => oc_resolved c = false) cs with [] => True | c :: _ => oc_resultID c = EmptyString end.

Lemma walk_halts {S} (f : S -> orderedCall -> result flow_error (S * orderedCall * bool)) (Hf : marking f) s calls :
  forall s' cs, Forall (fun c => oc_resolved c = false) calls ->
  walkReady f s calls = Ok (s', cs) -> Forall2 same_call calls cs /\ halted cs.
Proof.
  revert s. induction calls as [|c calls IH]; intros s s' cs Hr; [by intros [= <- <-]|].
  apply Forall_cons in Hr as [Hc Hr]. cbn [walkReady].
  assert (Hrefl : forall l, Forall2 same_call l l) by (intros l; induction l; constructor; by unfold same_call).
  destruct (is_empty (oc_resultID c) && _) eqn:E.
  { intros [= <- <-]. split; [apply Hrefl|]. unfold halted. rewrite filter_cons_True by done.
    bool_prop. by apply String.eqb_eq. }
  destruct (f s c) as [[[s1 c1] b]|] eqn:Ef; [|done].
  destruct (Hf _ _ _ _ _ Hc Ef) as (Hsame & Hres & Hb). destruct b.
  - destruct (walkReady f s1 calls) as [[s2 cs1]|] eqn:Ew; [|done]. intros [= <- <-].
    destruct (IH _ _ _ Hr Ew) as [H1 H2]. split; [by constructor|].
    unfold halted. rewrite filter_cons_False by (by rewrite Hres). exact H2.
  - intros [= <- <-]. split; [constructor; [done|apply Hrefl]|].
    unfold halted. rewrite filter_cons_True by done.
    destruct Hsame as (_ & _ & _ & _ & <- & _). auto.
Qed.

(** The flow, of the calls left open. *)
Definition waits (kind : string) (po : string -> bool) (c : orderedCall) : bool :=
  external c kind po || (asks c && negb (oc_confirmed c)).

Definition flow_of (kind : string) (po : string -> bool) (opened : list orderedCall) : ToolFlow :=
  MkFlow (map oc_id (filter (fun c => waits kind po c = true) opened))
    (negb (bool_decide (opened = [])))
    (match opened with c :: _ => negb (waits kind po c) && is_empty (oc_resultID c) | [] => false end).

Lemma summarizeTools_eq cs kind po :
  summarizeTools cs kind po = flow_of kind po (filter (fun c => oc_resolved c = false) cs).
Proof.
  unfold summarizeTools. induction cs as [|c cs IH] using rev_ind; [done|].
  rewrite fold_left_app, IH, filter_app. cbn [fold_left]. unfold summarize_step.
  destruct (oc_resolved c) eqn:Ec.
  { rewrite filter_cons_False by congruence. by rewrite app_nil_r. }
  rewrite filter_cons_True by done. cbn [filter list_filter].
  generalize (filter (fun c => oc_resolved c = false) cs). intros l. unfold flow_of. cbn [Pending Unsettled PlatformRunnable].
  rewrite filter_app, map_app. f_equal.
  - fold (waits kind po c). destruct (waits kind po c) eqn:Ew.
    + by rewrite filter_cons_True.
    + rewrite filter_cons_False by congruence. by rewrite app_nil_r.
  - symmetry. apply negb_true_iff, bool_decide_eq_false. by destruct l.
  - destruct l as [|d l]; cbn [app]; [|done].
    rewrite negb_involutive, bool_decide_eq_true_2 by done. unfold waits. by rewrite negb_orb.
Qed.

Lemma halted_rests cs kind po : halted cs ->
  Running (summarizeTools cs kind po) = true \/ Pending (summarizeTools cs kind po) <> [].
Proof.
  rewrite summarizeTools_eq. unfold halted, Running, flow_of. cbn [Pending Unsettled PlatformRunnable].
  destruct (filter _ cs) as [|c l]; [by left|]. intros ->.
  destruct (waits kind po c) eqn:E; [right|by left].
  by rewrite filter_cons_True.
Qed.

Lemma call_of_open db sid tu c : call_of db sid tu = Ok c -> oc_resolved c = false.
Proof. unfold call_of. destruct (struct_ok _ _); [|done]. by intros [= <-]. Qed.

Lemma map_result_Forall {E A B} (f : A -> result E B) (P : B -> Prop) l l' :
  (forall x y, f x = Ok y -> P y) -> map_result f l = Ok l' -> Forall P l'.
Proof.
  intros Hf. revert l'. induction l as [|x l IH]; intros l'; cbn [map_result]; [by intros [= <-]|].
  destruct (f x) eqn:E1; [|done]. destruct (map_result f l); [|done]. intros [= <-]. constructor; eauto.
Qed.

Lemma threadCallsOf_open db sid tid calls :
  threadCallsOf db sid tid = Ok calls -> Forall (fun c => oc_resolved c = false) calls.
Proof. apply map_result_Forall. intros x y. apply call_of_open. Qed.

Lemma plan_consume_marking db sid : marking (plan_consume db sid).
Proof.
  intros ps c ps' c' b Hc [-> ->]%plan_marking. split_and!; [by unfold same_call|done|].
  intros [Hr _]%orb_false_iff. by apply negb_false_iff, String.eqb_eq in Hr.
Qed.

(** ** Posted answers, read as though on the log *)

Definition take_all (posted : list NewEvent) (c : orderedCall) : orderedCall :=
  fold_left (fun c ev => if isAnswer (n_type ev) && String.eqb (oc_id c) (answerRef ev) then take_answer ev c else c)
    posted c.

Lemma take_answer_keeps ev c :
  oc_id (take_answer ev c) = oc_id c /\ oc_resolved (take_answer ev c) = oc_resolved c.
Proof. unfold take_answer. by repeat case_match. Qed.

Lemma take_all_keeps posted c :
  oc_id (take_all posted c) = oc_id c /\ oc_resolved (take_all posted c) = oc_resolved c.
Proof.
  unfold take_all. revert c. induction posted as [|ev posted IH]; intros c; cbn [fold_left]; [done|].
  destruct (IH (if isAnswer (n_type ev) && String.eqb (oc_id c) (answerRef ev) then take_answer ev c else c)) as [-> ->].
  destruct (_ && _); [apply take_answer_keeps|done].
Qed.

Lemma take_posted_eq tid posted : forall p calls,
  take_posted tid (fun id => mem_string id []) p calls posted = (p, map (take_all posted) calls).
Proof.
  induction posted as [|ev posted IH]; intros p calls; cbn [take_posted mem_string existsb]; [by rewrite map_id|].
  rewrite andb_false_r. unfold take_all. cbn [fold_left].
  destruct (isAnswer (n_type ev)) eqn:Ea; cbn [negb andb]; rewrite IH; [|done].
  by rewrite map_map.
Qed.

Lemma plan_walk_eq db sid tid posted p p' cs :
  plan_walk db sid tid posted [] p = Ok (p', cs) ->
  exists calls ps, threadCallsOf db sid tid = Ok calls /\
    walkReady (plan_consume db sid) (p, []) (map (take_all posted) calls) = Ok (ps, cs).
Proof.
  unfold plan_walk. destruct (threadCallsOf db sid tid) as [calls|]; [|done]. cbn [map].
  replace (filter (fun c => mem_string (oc_id c) [] = false) calls) with calls
    by (symmetry; apply filter_all_true, Forall_forall; done).
  rewrite take_posted_eq. destruct (walkReady _ _ _) as [[[p1 steps] cs1]|] eqn:E; [|done]. intros [= _ <-]. eauto.
Qed.

Lemma take_all_open posted calls :
  Forall (fun c => oc_resolved c = false) calls -> Forall (fun c => oc_resolved c = false) (map (take_all posted) calls).
Proof.
  intros H. apply Forall_map. eapply Forall_impl; [exact H|]. intros c Hc.
  by destruct (take_all_keeps posted c) as [_ ->].
Qed.

(** The walk of a settlement, and the plan's walk of a send, leave a thread where it
    can rest: running, or waiting on a call that is named.  The error of a thread with
    unsettled calls and nothing to wait for is never reached from either. *)
Theorem settled_flow_rests (rd : readings) (db : ldb) (sid tid kind : string) (po : string -> bool)
    (posted : list NewEvent) (p p' : AnswerPlan) (db' : ldb) (flow : ToolFlow) (s : sdb)
    (Hflow : AdvanceThreadTools rd db sid tid kind po = Ok (db', flow) \/
             Settle db sid tid kind posted po p = Ok (p', flow)) :
  (Running flow = true \/ Pending flow <> []) /\ SettleTransition s sid tid flow <> Err (ErrNoWait tid).
Proof.
  assert (H : Running flow = true \/ Pending flow <> []).
  { destruct Hflow as [H|H].
    - unfold AdvanceThreadTools in H. destruct (threadCallsOf db sid tid) as [calls|] eqn:Ec; [|done].
      destruct (walkReady _ _ _) as [[db1 cs]|] eqn:Ew; [|done]. injection H as _ <-.
      apply halted_rests. eapply walk_halts; [apply advance_marking|by eapply threadCallsOf_open|exact Ew].
    - unfold Settle in H. destruct (plan_walk _ _ _ _ _ _) as [[p1 cs]|] eqn:Ew; [|done]. injection H as _ <-.
      apply plan_walk_eq in Ew as (calls & ps & Ec & Ew).
      apply halted_rests. eapply walk_halts; [apply plan_consume_marking|eapply take_all_open, threadCallsOf_open, Ec|exact Ew]. }
  split; [exact H|]. unfold SettleTransition.
  destruct (negb (Running flow) && bool_decide (Pending flow = [])) eqn:E.
  - bool_prop. destruct H; congruence.
  - destruct (settled_row s sid tid) as [[st prev]|]; [|done]. by destruct (_ || _).
Qed.

(** A transition of a thread that has a row, in a session that has one, goes through. *)
Lemma TransitionThread_moves (s : sdb) (sid : string) (t : ThreadTransition) (r : thread_row) :
  s_threads s !! thread_of sid (tr_thread t) = Some r -> t_session r = sid -> is_Some (Status.s_status s !! sid) ->
  is_Some (sessionStatusOf (tr_status t)) ->
  exists out moved s' r', TransitionThread s sid t = Ok (out, moved, s') /\
    s_threads s' !! thread_of sid (tr_thread t) = Some r' /\ t_session r' = sid /\ t_status r' = tr_status t /\
    t_stop r' = (if bool_decide (tr_status t = SessionIdle) then tr_stop t else None).
Proof.
  intros Hrow Hsid [cur Hcur] [ty Hty]. unfold TransitionThread, move_thread.
  rewrite Hty, Hrow, Hsid, String.eqb_refl. rewrite bool_decide_true by done. cbn [negb andb].
  set (r' := MkThread sid _ _ _ _ _ _). set (s1 := MkS _ _ _).
  destruct (foldSession s1 sid t true) as [folded fstop].
  assert (Hs1 : Status.s_status s1 !! sid = Some cur) by done. rewrite Hs1.
  set (s2 := if negb (bool_decide (folded = cur)) then _ else s1).
  assert (H2 : s_threads s2 !! thread_of sid (tr_thread t) = Some r').
  { unfold s2. destruct (bool_decide (folded = cur)); cbn [negb s_threads]; unfold s1; cbn [s_threads]; apply lookup_insert_eq. }
  match goal with |- context [if ?b then _ else Ok _] => destruct b end;
    (eexists _, _, s2, r'; split; [reflexivity|done]).
Qed.

Definition rests (flow : ToolFlow) (r : thread_row) : Prop :=
  if Running flow then t_status r = SessionRunning
  else t_status r = SessionIdle /\ t_stop r = Some (MkStop StopRequiresAction (Pending flow)).

Lemma same_rests flow r :
  bool_decide (t_status r = (if Running flow then SessionRunning else SessionIdle)) &&
  (match (if Running flow then None else Some (MkStop StopRequiresAction (Pending flow))) with
   | Some st => same_stop (t_stop r) st
   | None => true
   end) = true <-> rests flow r.
Proof.
  unfold rests, same_stop. destruct (Running flow).
  - by rewrite andb_true_r, bool_decide_eq_true.
  - cbn [sr_type sr_ids]. rewrite andb_true_iff, bool_decide_eq_true.
    destruct (t_stop r) as [[ty ids]|]; cbn [sr_type sr_ids]; [|naive_solver].
    rewrite andb_true_iff, !bool_decide_eq_true. naive_solver.
Qed.

(** A settlement brings a live thread to the place its flow names: running, or idle on
    the calls it waits for; a thread that is there already is not moved and announces
    nothing, so settling again does nothing.  A thread that has ended, or is being
    rescheduled, is left alone. *)
Theorem SettleToolFlow_rests (s : sdb) (sid tid : string) (flow : ToolFlow) (r : thread_row)
    (Hflow : Running flow = true \/ Pending flow <> [])
    (Hrow : s_threads s !! thread_of sid tid = Some r) (Hsid : t_session r = sid)
    (Hsess : is_Some (Status.s_status s !! sid)) :
  if bool_decide (t_status r = SessionTerminated) || bool_decide (t_status r = SessionRescheduling)
  then SettleToolFlow s sid tid flow = Ok ([], None, s)
  else
    exists evs moved s' r',
      SettleToolFlow s sid tid flow = Ok (evs, moved, s') /\
      s_threads s' !! thread_of sid tid = Some r' /\ rests flow r' /\
      SettleTransition s' sid tid flow = Ok None /\
      (rests flow r -> evs = [] /\ s' = s).
Proof.
  unfold SettleToolFlow, SettleTransition.
  assert (Hno : negb (Running flow) && bool_decide (Pending flow = []) = false).
  { destruct Hflow as [-> | Hp]; [done|]. rewrite (bool_decide_false (Pending flow = [])) by done. apply andb_false_r. }
  rewrite Hno.
  assert (Hr : forall s' r', s_threads s' !! thread_of sid tid = Some r' -> t_session r' = sid ->
     settled_row s' sid tid = Some (t_status r', t_stop r')).
  { intros s' r' H1 H2. unfold settled_row. by rewrite H1, H2, String.eqb_refl. }
  destruct (bool_decide (t_status r = SessionTerminated) || bool_decide (t_status r = SessionRescheduling)) eqn:Eend.
  { by rewrite (Hr s r Hrow Hsid), Eend. }
  set (want := if Running flow then SessionRunning else SessionIdle).
  set (stop := if Running flow then None else Some (MkStop StopRequiresAction (Pending flow))).
  pose proof (same_rests flow r : _ = true <-> _) as Hsame. fold want stop in Hsame.
  destruct (bool_decide (t_status r = want) && _) eqn:Es.
  - assert (Hrest : rests flow r) by (by apply Hsame). exists [], None, s, r. split_and!; try done.
    all: by rewrite (Hr s r Hrow Hsid), Eend, Es.
  - destruct (TransitionThread_moves s sid (MkTransition tid want stop (bool_decide (want = SessionIdle)) false) r)
      as (out & moved & s' & r' & HT & Hrow' & Hsid' & Hst & Hstop); try done.
    { cbn [tr_status]. unfold want. by destruct (Running flow). }
    cbn [tr_thread tr_status tr_stop] in *. rewrite (Hr s r Hrow Hsid), Eend, Es, HT. exists out, moved, s', r'.
    assert (Hrest : rests flow r').
    { unfold rests. rewrite Hst, Hstop. unfold want, stop. by destruct (Running flow). }
    split_and!; [done|done|done| |].
    + pose proof (proj2 (same_rests flow r') Hrest) as Hsame'. fold want stop in Hsame'.
      assert (He : bool_decide (t_status r' = SessionTerminated) || bool_decide (t_status r' = SessionRescheduling) = false)
        by (rewrite Hst; unfold want; by destruct (Running flow)).
      by rewrite (Hr _ _ Hrow' Hsid'), He, Hsame'.
    + intros H%Hsame. done.
Qed.

(** ** The plan of a send and its settlement *)

Definition is_confirm (ev : NewEvent) : bool := String.eqb (n_type ev) EventUserToolConfirm.

(** An event of a client's send: it has its id, it is stamped when it is processed, and an
    answer names its call under its family's key. *)
Definition posted_ok (ev : NewEvent) : Prop :=
  n_id ev <> EmptyString /\ n_processed ev = None /\ Inbound (n_type ev) = true /\
  (isAnswer (n_type ev) = true -> exists v, n_payload ev = Some v /\
     (if is_confirm ev then text_at v "tool_use_id" else result_ref v) = Some (answerRef ev)).

(** The row a posted event becomes. *)
Definition posted_row (sid : string) (ev : NewEvent) (r : erow) : Prop :=
  e_id r = n_id ev /\ e_session r = sid /\ e_type r = n_type ev /\ e_payload r = payload_of ev /\ e_processed r = None.

Lemma mem_type_inbound t l :
  forallb (fun x => negb (Inbound x)) l = true -> Inbound t = true -> mem_string t l = false.
Proof.
  intros Hl Ht. apply not_true_iff_false. intros H%mem_string_spec.
  rewrite forallb_forall in Hl. apply list_elem_of_In in H. apply Hl in H. by rewrite Ht in H.
Qed.

Lemma eqb_inbound t x : Inbound x = false -> Inbound t = true -> String.eqb t x = false.
Proof. intros Hx Ht. apply String.eqb_neq. intros ->. congruence. Qed.

(** What a plain append of a send leaves on the log. *)
Lemma AppendInTx_posted rd db sid posted out db' :
  Forall posted_ok posted -> AppendInTx rd db sid posted no_options = Ok (out, db') ->
  l_events db' = l_events db ++ out /\ Forall2 (posted_row sid) posted out.
Proof.
  intros Hok H. apply AppendInTx_plain in H as [Hev Hrows].
  2:{ eapply Forall_impl; [exact Hok|]. intros ev (_ & _ & Hi & _). by apply inbound_plain. }
  split; [exact Hev|]. clear Hev. induction Hrows as [|ev r posted out Hr _ IH]; [constructor|].
  apply Forall_cons in Hok as [(Hid & Hp & Hi & _) Hok]. constructor; [|auto].
  destruct Hr as (Hs & Ht & Hpl & _ & Hrid & _ & Hst). unfold posted_row. split_and!; try done; [auto|].
  apply Hst; [done|]. unfold StampedOnConsumption. by rewrite Hi.
Qed.

Lemma find_app' {A} (f : A -> bool) l1 l2 :
  find f (l1 ++ l2) = match find f l1 with Some x => Some x | None => find f l2 end.
Proof. induction l1 as [|x l1 IH]; [done|]. cbn. by destruct (f x). Qed.

Lemma isAnswer_types t : Inbound t = true ->
  mem_string t toolResultTypes = isAnswer t && negb (String.eqb t EventUserToolConfirm).
Proof.
  intros Hi. unfold isAnswer, mem_string, toolResultTypes, answerTypes. cbn [existsb].
  rewrite (eqb_inbound t EventAgentToolResult), (eqb_inbound t EventAgentMCPToolResult) by done.
  rewrite !orb_false_r.
  destruct (String.eqb_spec t EventUserToolConfirm) as [->|]; [done|]. by rewrite orb_false_r, andb_true_r.
Qed.

Lemma answers_posted sid id ev r :
  posted_ok ev -> posted_row sid ev r ->
  answers sid id r = isAnswer (n_type ev) && negb (is_confirm ev) && String.eqb (answerRef ev) id /\
  confirms sid id r = is_confirm ev && String.eqb (answerRef ev) id.
Proof.
  intros (_ & _ & Hi & Href) (_ & Hs & Ht & Hpl & _). unfold answers, confirms, names, is_confirm in *.
  rewrite Hs, Ht, Hpl, String.eqb_refl, isAnswer_types by done. cbn [andb].
  destruct (String.eqb_spec (n_type ev) EventUserToolConfirm) as [E|E].
  - destruct (Href ltac:(by rewrite E)) as (v & Hv & Hr). unfold payload_of. rewrite Hv. cbn [from_option].
    change (Datatypes.id v) with v. rewrite Hr, E. done.
  - rewrite !andb_true_r. cbn [andb]. split; [|done]. destruct (isAnswer (n_type ev)); [|done].
    destruct (Href eq_refl) as (v & Hv & Hr). unfold payload_of. rewrite Hv. cbn [from_option].
    change (Datatypes.id v) with v. by rewrite Hr.
Qed.

Lemma find_posted_cons {f : erow -> bool} r out : find f (r :: out) = if f r then Some r else find f out.
Proof. done. Qed.

(** The posted answers a call takes are the first of each kind on the log's new rows. *)
Lemma take_all_find sid posted out : Forall posted_ok posted -> Forall2 (posted_row sid) posted out -> forall c,
  take_all posted c =
  MkCall (oc_id c) (oc_typ c) (oc_name c) (oc_permission c)
    (if is_empty (oc_resultID c)
     then match find (answers sid (oc_id c)) out with Some r => e_id r | None => oc_resultID c end else oc_resultID c)
    (if is_empty (oc_confirmationID c)
     then match find (confirms sid (oc_id c)) out with Some r => e_id r | None => oc_confirmationID c end
     else oc_confirmationID c)
    (if is_empty (oc_confirmationID c)
     then match find (confirms sid (oc_id c)) out with Some r => Some (e_payload r) | None => oc_confirmation c end
     else oc_confirmation c)
    (oc_confirmed c) (oc_resolved c).
Proof.
  intros Hok H. induction H as [|ev r posted out Hr _ IH]; intros c.
  { cbn. destruct c as [i ty nm pm rs cf cn cd rv]. cbn. by repeat case_match. }
  apply Forall_cons in Hok as [Hev Hok]. specialize (IH Hok).
  destruct (answers_posted sid (oc_id c) ev r Hev Hr) as [Ha Hc].
  rewrite !find_posted_cons, Ha, Hc. unfold take_all. cbn [fold_left]. fold (take_all posted).
  rewrite String.eqb_sym. unfold take_answer. fold (is_confirm ev).
  destruct Hev as (Hne & _ & _ & Href). destruct Hr as (Hid & _ & _ & Hpl & _).
  assert (Hne' : is_empty (n_id ev) = false) by by apply String.eqb_neq.
  assert (Hconf : is_confirm ev = true -> isAnswer (n_type ev) = true).
  { unfold is_confirm. intros ->%String.eqb_eq. done. }
  destruct (String.eqb (answerRef ev) (oc_id c)); rewrite ?andb_true_r, ?andb_false_r; [|by rewrite IH].
  destruct (isAnswer (n_type ev)) eqn:Eans; cbn [andb].
  2:{ destruct (is_confirm ev); [by discriminate (Hconf eq_refl)|]. by rewrite IH. }
  destruct (Href eq_refl) as (v & Hv & _).
  destruct (is_confirm ev) eqn:Econf; cbn [negb].
  - destruct (is_empty (oc_confirmationID c)) eqn:E; rewrite IH; cbn [oc_id oc_resultID oc_confirmationID oc_typ oc_name oc_permission oc_confirmation oc_confirmed oc_resolved]; [|by rewrite E].
    rewrite Hne', Hid, Hpl. unfold payload_of. by rewrite Hv.
  - destruct (is_empty (oc_resultID c)) eqn:E; rewrite IH; cbn [oc_id oc_resultID oc_confirmationID oc_typ oc_name oc_permission oc_confirmation oc_confirmed oc_resolved]; [|by rewrite E].
    by rewrite Hne', Hid.
Qed.

Definition map_ok {E A B} (f : A -> B) (r : result E A) : result E B := try a <- r; Ok (f a).

Lemma find_id_ne f (es : list erow) r : Forall (fun e => e_id e <> EmptyString) es -> find f es = Some r ->
  is_empty (e_id r) = false.
Proof.
  intros H [Hin _]%find_some. apply String.eqb_neq. rewrite Forall_forall in H. by apply H, list_elem_of_In.
Qed.

Lemma posted_unprocessed sid posted out r :
  Forall2 (posted_row sid) posted out -> In r out -> e_processed r = None.
Proof.
  intros H Hin. apply list_elem_of_In in Hin. induction H as [|ev r' posted out Hr _ IH]; [by apply not_elem_of_nil in Hin|].
  apply elem_of_cons in Hin as [-> | Hin]; [by destruct Hr as (_ & _ & _ & _ & ?)|auto].
Qed.

Lemma call_of_posted db db' sid posted out tu :
  Forall (fun e => e_id e <> EmptyString) (l_events db) -> Forall posted_ok posted ->
  Forall2 (posted_row sid) posted out -> l_events db' = l_events db ++ out ->
  call_of db' sid tu = map_ok (take_all posted) (call_of db sid tu).
Proof.
  intros Hids Hok Hrows Hev. unfold call_of. rewrite Hev, !find_app'.
  destruct (struct_ok _ _); cbn [negb]; [|done]. unfold map_ok. f_equal.
  rewrite (take_all_find sid _ _ Hok Hrows).
  cbn [oc_id oc_resultID oc_confirmationID oc_typ oc_name oc_permission oc_confirmation oc_confirmed oc_resolved].
  assert (Hout : forall f r, find f out = Some r -> e_processed r = None).
  { intros f r [Hin _]%find_some. by eapply posted_unprocessed. }
  destruct (find (answers sid (e_id tu)) (l_events db)) as [r|] eqn:Er;
    destruct (find (confirms sid (e_id tu)) (l_events db)) as [c|] eqn:Ec;
    rewrite ?(find_id_ne _ _ _ Hids Er), ?(find_id_ne _ _ _ Hids Ec); cbn [is_empty String.eqb fmap option_fmap option_map];
    try destruct (find (confirms sid (e_id tu)) out) as [c'|] eqn:Ec'; try done;
    rewrite (bool_decide_false (e_processed c' <> None)) by (intros H; apply H; by eapply Hout); done.
Qed.

Lemma map_result_ext {E A B C} (f : A -> result E B) (g : A -> result E C) (h : B -> C) l :
  (forall x, g x = map_ok h (f x)) -> map_result g l = map_ok (map h) (map_result f l).
Proof.
  intros H. induction l as [|x l IH]; [done|]. cbn [map_result]. rewrite H, IH.
  unfold map_ok. destruct (f x); [|done]. by destruct (map_result f l).
Qed.

Lemma thread_uses_posted db db' sid tid posted out :
  Forall posted_ok posted -> Forall2 (posted_row sid) posted out -> l_events db' = l_events db ++ out ->
  thread_uses db' sid tid = thread_uses db sid tid.
Proof.
  intros Hok Hrows Hev. unfold thread_uses, select_by_seq. rewrite Hev, filter_app.
  rewrite (filter_all_false _ out), app_nil_r.
  - f_equal. apply list_filter_iff. intros tu.
    assert (Hu : unprocessed_call db' sid tu = unprocessed_call db sid tu); [|by rewrite Hu].
    unfold unprocessed_call. rewrite Hev, find_app'.
    destruct (find _ (l_events db)); [done|].
    destruct (find _ out) as [r|] eqn:E; [|done].
    apply find_some in E as [Hin _]. by rewrite (posted_unprocessed _ _ _ _ Hrows Hin).
  - clear Hev. induction Hrows as [|ev r posted out (_ & _ & Ht & _) _ IH]; constructor.
    + apply Forall_cons in Hok as [(_ & _ & Hi & _) _].
      rewrite Ht, (mem_type_inbound (n_type ev) toolUseTypes), andb_false_r by done. done.
    + apply IH. by apply Forall_cons in Hok as [_ ?].
Qed.

(** The calls read once the send is on the log are the calls the plan reads. *)
Lemma threadCallsOf_posted db db' sid tid posted out :
  Forall (fun e => e_id e <> EmptyString) (l_events db) -> Forall posted_ok posted ->
  Forall2 (posted_row sid) posted out -> l_events db' = l_events db ++ out ->
  threadCallsOf db' sid tid = map_ok (map (take_all posted)) (threadCallsOf db sid tid).
Proof.
  intros Hids Hok Hrows Hev. unfold threadCallsOf. erewrite thread_uses_posted by done.
  apply map_result_ext. intros tu. by eapply call_of_posted.
Qed.

(** C8: a send's plan foresees its settlement.  The flow [AnswerPlan.Settle] reads before
    the send's events are appended is the flow [AdvanceThreadTools] returns once they are
    on the log: the first answer to each call counts, an answer behind a call that must
    still wait changes nothing, and both walks stop at the same call. *)
Theorem Settle_foresees (rd rd' : readings) (db db1 db2 : ldb) (sid tid kind : string) (po : string -> bool)
    (posted : list NewEvent) (p p' : AnswerPlan) (out : list erow) (flow flow' : ToolFlow)
    (Hids : Forall (fun e => e_id e <> EmptyString) (l_events db)) (Hposted : Forall posted_ok posted)
    (Hplan : Settle db sid tid kind posted po p = Ok (p', flow))
    (Happend : AppendInTx rd db sid posted no_options = Ok (out, db1))
    (Hsettle : AdvanceThreadTools rd' db1 sid tid kind po = Ok (db2, flow')) :
  flow' = flow.
Proof.
  apply AppendInTx_posted in Happend as [Hev Hrows]; [|done].
  unfold Settle in Hplan. destruct (plan_walk _ _ _ _ _ _) as [[p1 cs]|] eqn:Ew; [|done]. injection Hplan as _ <-.
  apply plan_walk_eq in Ew as (calls & ps & Ec & Ew).
  unfold AdvanceThreadTools in Hsettle.
  rewrite (threadCallsOf_posted db db1 sid tid posted out), Ec in Hsettle by done. cbn [map_ok] in Hsettle.
  destruct (walkReady _ db1 _) as [[db3 ds]|] eqn:Ea; [|done]. injection Hsettle as _ <-.
  symmetry. apply summarize_alike. eapply walks_alike; [|exact Ew|exact Ea].
  eapply take_all_open, threadCallsOf_open, Ec.
Qed.

(** ** A send while the primary waits *)

Definition is_result (ev : NewEvent) : bool :=
  String.eqb (n_type ev) EventUserToolResult || String.eqb (n_type ev) EventUserCustomToolRes.

(** An interrupt of the send, counted from [i], reaches the primary. *)
Fixpoint freed (rp : nat -> bool) (i : nat) (posted : list NewEvent) : bool :=
  match posted with
  | [] => false
  | ev :: posted' => (String.eqb (n_type ev) EventUserInterrupt && rp i) || freed rp (S i) posted'
  end.

(** What the send leaves awaited of a call, read off the send as a whole. *)
Definition still_awaited (rp : nat -> bool) (i : nat) (posted : list NewEvent) (a : AwaitedResponse) : bool :=
  negb (freed rp i posted) &&
  negb (existsb (fun ev => is_result ev && String.eqb (aw_ID a) (answerRef ev)) posted) &&
  ((aw_Confirmation a && negb (existsb (fun ev => is_confirm ev && String.eqb (aw_ID a) (answerRef ev)) posted)) ||
   (aw_Result a && negb (existsb (fun ev => is_confirm ev && denies (n_payload ev) && String.eqb (aw_ID a) (answerRef ev)) posted))).

(** One event's effect on one call awaited. *)
Definition answer_one (rp : nat -> bool) (i : nat) (ev : NewEvent) (a : AwaitedResponse) : option AwaitedResponse :=
  if is_result ev then if String.eqb (aw_ID a) (answerRef ev) then None else Some a
  else if is_confirm ev then
    let a := if String.eqb (aw_ID a) (answerRef ev)
             then MkAwaited (aw_ID a) false (aw_Result a && negb (denies (n_payload ev))) else a in
    if aw_Confirmation a || aw_Result a then Some a else None
  else if String.eqb (n_type ev) EventUserInterrupt && rp i then None else Some a.

Lemma filter_omap {A} (P : A -> Prop) `{forall x, Decision (P x)} (l : list A) :
  filter P l = omap (fun x => if decide (P x) then Some x else None) l.
Proof. induction l as [|x l IH]; [done|]. cbn [omap list_omap]. rewrite filter_cons. case_decide; by rewrite IH. Qed.

Lemma omap_Some {A} (l : list A) : omap Some l = l.
Proof. induction l as [|x l IH]; [done|]. cbn. by rewrite IH. Qed.

Lemma omap_None {A B} (l : list A) : omap (fun _ => @None B) l = [].
Proof. by induction l. Qed.

Lemma answer_awaited_one rp i ev awaited : answer_awaited rp i ev awaited = omap (answer_one rp i ev) awaited.
Proof.
  unfold answer_awaited, answer_one. fold (is_result ev) (is_confirm ev). destruct (is_result ev).
  - rewrite filter_omap. apply list_omap_ext, Forall_Forall2_diag, Forall_true. intros a.
    destruct (String.eqb_spec (aw_ID a) (answerRef ev)); case_decide; done.
  - destruct (is_confirm ev).
    + rewrite filter_omap, omap_map. apply list_omap_ext, Forall_Forall2_diag, Forall_true. intros a.
      cbv zeta. destruct (aw_Confirmation _ || aw_Result _); by case_decide.
    + destruct (String.eqb (n_type ev) EventUserInterrupt); cbn [andb]; [|by rewrite omap_Some].
      destruct (rp i); [by rewrite omap_None|by rewrite omap_Some].
Qed.

Definition awaits (a : AwaitedResponse) : bool := aw_Confirmation a || aw_Result a.

Lemma answer_one_awaits rp i ev a a' : awaits a = true -> answer_one rp i ev a = Some a' -> awaits a' = true.
Proof.
  unfold answer_one, awaits. intros Ha. destruct (is_result ev).
  { destruct (String.eqb _ _); [done|]. by intros [= <-]. }
  destruct (is_confirm ev).
  - cbv zeta. destruct (String.eqb _ _); cbn [aw_Confirmation aw_Result orb].
    + destruct (aw_Result a && _) eqn:E; [|done]. intros [= <-]. cbn [aw_Confirmation aw_Result orb]. done.
    + rewrite Ha. by intros [= <-].
  - destruct (_ && _); [done|]. by intros [= <-].
Qed.

(** One event taken off the front of the send. *)
Lemma still_awaited_cons rp i ev posted a : awaits a = true ->
  still_awaited rp i (ev :: posted) a =
  match answer_one rp i ev a with Some a' => still_awaited rp (S i) posted a' | None => false end.
Proof.
  unfold awaits, still_awaited, answer_one, is_result, is_confirm. cbn [freed existsb]. intros Ha.
  assert (Hty : forall x, (n_type ev =? x)%string = true -> forall y, x <> y -> (n_type ev =? y)%string = false)
    by (intros x ->%String.eqb_eq y Hy; by apply String.eqb_neq).
  destruct ((n_type ev =? EventUserToolResult)%string || (n_type ev =? EventUserCustomToolRes)%string) eqn:Er.
  - assert (Hi : (n_type ev =? EventUserInterrupt)%string = false)
      by (apply orb_true_iff in Er as [E|E]; by eapply Hty).
    assert (Hc : (n_type ev =? EventUserToolConfirm)%string = false)
      by (apply orb_true_iff in Er as [E|E]; by eapply Hty).
    rewrite Hi, Hc. cbn [andb orb]. destruct (aw_ID a =? answerRef ev)%string; cbn [orb negb andb]; [|done].
    by rewrite andb_false_r.
  - cbn [andb orb]. destruct (n_type ev =? EventUserToolConfirm)%string eqn:Ec; cbn [andb orb].
    + rewrite (Hty _ Ec EventUserInterrupt) by done. cbn [andb orb]. cbv zeta.
      destruct (aw_ID a =? answerRef ev)%string; cbn [aw_Confirmation aw_Result aw_ID orb andb negb].
      * rewrite andb_true_r, andb_false_r. cbn [orb].
        destruct (aw_Result a), (denies (n_payload ev)); cbn [orb andb negb]; rewrite ?andb_false_r; done.
      * rewrite andb_false_r, Ha. done.
    + destruct (n_type ev =? EventUserInterrupt)%string, (rp i); cbn [andb orb negb]; done.
Qed.

Lemma omap_step {A B} (f : A -> option A) (keep keep' : A -> bool) (h : A -> B) (ok : A -> bool) l :
  (forall a, ok a = true -> keep a = match f a with Some a' => keep' a' | None => false end) ->
  (forall a a', f a = Some a' -> h a' = h a) ->
  Forall (fun a => ok a = true) l ->
  map h (filter (fun a => keep a = true) l) = map h (filter (fun a => keep' a = true) (omap f l)).
Proof.
  intros Hk Hh H. induction H as [|a l Ha _ IH]; [done|]. cbn [omap list_omap]. rewrite filter_cons, (Hk _ Ha).
  destruct (f a) as [a'|] eqn:Ef; [|done]. rewrite filter_cons. case_decide; [|done].
  cbn [map]. by rewrite IH, (Hh _ _ Ef).
Qed.

Lemma answer_one_ID rp i ev a a' : answer_one rp i ev a = Some a' -> aw_ID a' = aw_ID a.
Proof. unfold answer_one. intros H. repeat case_match; congruence || (injection H as <-; done). Qed.

(** The first event of the send that is work for the primary. *)
Fixpoint first_work (i : nat) (posted : list NewEvent) : option (nat * EventType) :=
  match posted with
  | [] => None
  | ev :: posted' => if is_work ev then Some (i, n_type ev) else first_work (S i) posted'
  end.

Lemma first_work_lookup posted : forall i ix ty, first_work i posted = Some (ix, ty) ->
  exists ev, (i <= ix)%nat /\ posted !! (ix - i)%nat = Some ev /\ n_type ev = ty /\ is_work ev = true /\
    forall j e, (j < ix - i)%nat -> posted !! j = Some e -> is_work e = false.
Proof.
  induction posted as [|ev posted IH]; intros i ix ty; cbn [first_work]; [done|].
  destruct (is_work ev) eqn:E.
  - intros [= <- <-]. exists ev. rewrite Nat.sub_diag. split_and!; try done. lia.
  - intros (ev' & Hle & Hl & Ht & Hw & Hb)%IH. exists ev'.
    replace (ix - i)%nat with (S (ix - S i)) by lia. split_and!; try done; [lia|].
    intros [|j] e Hj; cbn; [by intros [= <-]|]. apply Hb. lia.
Qed.

Lemma first_work_None posted : forall i, first_work i posted = None -> Forall (fun ev => is_work ev = false) posted.
Proof.
  induction posted as [|ev posted IH]; intros i; cbn [first_work]; [constructor|].
  destruct (is_work ev) eqn:E; [done|]. intros H. constructor; eauto.
Qed.

Lemma check_awaiting_eq rp posted : forall i first awaited, Forall (fun a => awaits a = true) awaited ->
  check_awaiting rp i first awaited posted =
  match (match first with Some f => Some f | None => first_work i posted end),
        map aw_ID (filter (fun a => still_awaited rp i posted a = true) awaited) with
  | Some (ix, ty), (_ :: _) as ids => Some (MkWhile ty ix ids)
  | _, _ => None
  end.
Proof.
  induction posted as [|ev posted IH]; intros i first awaited Hw; cbn [check_awaiting first_work].
  - replace (filter _ awaited) with awaited.
    + destruct first as [[ix ty]|]; [|done]. by destruct awaited.
    + symmetry. apply filter_all_true. eapply Forall_impl; [exact Hw|]. intros a. unfold awaits, still_awaited. cbn.
      by rewrite !andb_true_r.
  - rewrite answer_awaited_one, IH.
    + rewrite (omap_step (answer_one rp i ev) (still_awaited rp i (ev :: posted)) (still_awaited rp (S i) posted) aw_ID awaits awaited);
        [|intros a; apply still_awaited_cons|intros a a'; apply answer_one_ID|done].
      by destruct first as [[ix ty]|], (is_work ev).
    + clear IH. induction Hw as [|a awaited Ha _ IHa]; [constructor|]. cbn [omap list_omap].
      destruct (answer_one rp i ev a) as [a'|] eqn:E; [|done]. constructor; [by eapply answer_one_awaits|done].
Qed.

(** A send is refused exactly when it carries work for the primary and leaves a call
    awaited, wherever in the send its answers stand: a result or a denial answers its
    call, an allow only its confirmation, an interrupt that reaches the primary every
    call.  The refusal names the first piece of work and every call still awaited, in
    order. *)
Theorem CheckWhileAwaiting_refuses (awaited : list AwaitedResponse) (posted : list NewEvent) (rp : nat -> bool)
    (Hawaited : Forall (fun a => awaits a = true) awaited) :
  let ids := map aw_ID (filter (fun a => still_awaited rp 0 posted a = true) awaited) in
  match CheckWhileAwaiting awaited posted rp with
  | None => Forall (fun ev => is_work ev = false) posted \/ ids = []
  | Some e =>
      wa_IDs e = ids /\ ids <> [] /\
      exists ev, posted !! wa_Index e = Some ev /\ n_type ev = wa_Type e /\ is_work ev = true /\
        forall j e', (j < wa_Index e)%nat -> posted !! j = Some e' -> is_work e' = false
  end.
Proof.
  intros ids. unfold CheckWhileAwaiting. rewrite check_awaiting_eq by done. fold ids.
  destruct (first_work 0 posted) as [[ix ty]|] eqn:Ef.
  - destruct ids as [|x ids'] eqn:Ei; [by right|]. cbn [wa_IDs wa_Index wa_Type]. split_and!; [done|done|].
    apply first_work_lookup in Ef as (ev & _ & Hl & Ht & Hw & Hb). rewrite Nat.sub_0_r in Hl, Hb. by exists ev.
  - left. by eapply first_work_None.
Qed.

(** ** What the settlement's walk processes *)

(** The answers of the ready prefix, and the number of denials among them: a call with its
    result gives up its confirmation too; a confirmation alone is processed, and the walk
    goes past it only if it refuses the call. *)
Fixpoint processed_of (calls : list orderedCall) : list string :=
  match calls with
  | [] => []
  | c :: rest =>
      if negb (is_empty (oc_resultID c))
      then (if is_empty (oc_confirmationID c) then [] else [oc_confirmationID c]) ++ oc_resultID c :: processed_of rest
      else if asks c && negb (is_empty (oc_confirmationID c))
      then oc_confirmationID c :: (if denies (oc_confirmation c) then processed_of rest else [])
      else []
  end.

Fixpoint denied_of (calls : list orderedCall) : nat :=
  match calls with
  | [] => O
  | c :: rest =>
      if negb (is_empty (oc_resultID c)) then denied_of rest
      else if asks c && negb (is_empty (oc_confirmationID c)) && denies (oc_confirmation c) then S (denied_of rest)
      else O
  end.

Definition stamp_ids (rd : readings) (sid : string) (ids : list string) (e : erow) : erow :=
  if bool_decide (e_processed e = None) && (String.eqb (e_session e) sid && mem_string (e_id e) ids)
  then set_processed e (r_stamp rd e) else e.

Lemma stamp_ids_cons rd sid i ids e : stamp_ids rd sid ids (stamp_ids rd sid [i] e) = stamp_ids rd sid (i :: ids) e.
Proof.
  unfold stamp_ids at 2 3. cbn [mem_string existsb]. rewrite orb_false_r.
  destruct (bool_decide (e_processed e = None)) eqn:Ep; cbn [andb].
  - destruct (String.eqb (e_session e) sid) eqn:Es; cbn [andb]; [|unfold stamp_ids; by rewrite Ep, Es].
    destruct (String.eqb (e_id e) i) eqn:Ei; cbn [orb]; [|unfold stamp_ids; by rewrite Ep, Es].
    unfold stamp_ids. by rewrite bool_decide_false by done.
  - unfold stamp_ids. by rewrite Ep.
Qed.

Lemma stamp_ids_other rd sid ids e : mem_string (e_id e) ids = false -> stamp_ids rd sid ids e = e.
Proof. unfold stamp_ids. intros ->. by rewrite !andb_false_r. Qed.

Lemma stamp_events rd db sid i : l_events (stamp rd db sid i) = map (stamp_ids rd sid [i]) (l_events db).
Proof.
  unfold stamp, stamp_where, stamp_ids. cbn [l_events with_events]. apply map_ext. intros e.
  cbn [mem_string existsb]. by rewrite orb_false_r.
Qed.

(** A denial's result is one row, under a drawn id. *)
Lemma DenialResults_row rd db sid c ev answered out db' :
  DenialResults db sid [confirm_event c] = Ok ([ev], answered) ->
  AppendInTx rd db sid [ev] no_options = Ok (out, db') ->
  l_events db' = l_events db ++ out /\ exists r q, out = [r] /\ e_id r = r_id rd q.
Proof.
  intros Hd (sess & clock0 & clock & agent & _ & _ & _ & _ & Hb & He & _)%AppendInTx_inv.
  apply append_effects_plain in He. split; [exact He|].
  assert (Hev : n_id ev = EmptyString /\ is_idle ev = false).
  { clear -Hd. unfold DenialResults, denials_of, confirm_event in Hd. cbn [n_type n_payload] in Hd.
    change (String.eqb EventUserToolConfirm EventUserToolConfirm) with true in Hd. cbn [negb] in Hd.
    destruct (oc_confirmation c) as [v|]; [|done]. destruct (struct_ok v _); [|done].
    cbn [negb] in Hd. destruct (String.eqb (field_string v "result") "deny"); [|done]. cbn [map denial_results] in Hd.
    destruct (toolUsesByID _ _ _ !! _) as [u|]; [|done].
    destruct (toolUseAnswer (ref_Type (du_ref u))) as [a|] eqn:Ea; [|done]. injection Hd as <- <-.
    split; [done|]. unfold is_idle. cbn [n_type]. clear -Ea. unfold toolUseAnswer in Ea.
    repeat case_match; try done; by injection Ea as <-. }
  destruct Hev as [Hid Hidle]. cbn [withUsageSnapshots] in Hb. rewrite Hidle in Hb. cbn [build_rows] in Hb.
  destruct (if String.eqb (n_thread ev) EmptyString && _ then withAgentName _ _ else _) as [pl|]; [|done].
  injection Hb as <- _. eexists _, _. split; [reflexivity|]. cbn [e_id]. by rewrite Hid.
Qed.

Lemma mem_string_app x l1 l2 : mem_string x (l1 ++ l2) = mem_string x l1 || mem_string x l2.
Proof. apply existsb_app. Qed.

Lemma walk_processes rd sid calls : forall db db' cs,
  (forall q, mem_string (r_id rd q) (processed_of calls) = false) ->
  walkReady (advance_consume rd sid) db calls = Ok (db', cs) ->
  exists out, l_events db' = map (stamp_ids rd sid (processed_of calls)) (l_events db) ++ out /\
    length out = denied_of calls /\ Forall (fun r => exists q, e_id r = r_id rd q) out.
Proof.
  induction calls as [|c calls IH]; intros db db' cs Hfresh; cbn [walkReady processed_of denied_of].
  { intros [= <- _]. exists []. rewrite app_nil_r. split; [|done]. rewrite (map_ext _ id), map_id; [done|].
    intros e. by apply stamp_ids_other. }
  assert (Hstop : forall d, exists out, l_events d = map (stamp_ids rd sid []) (l_events d) ++ out /\
     length out = O /\ Forall (fun r => exists q, e_id r = r_id rd q) out).
  { intros d. exists []. rewrite app_nil_r. split; [|done]. rewrite (map_ext _ id), map_id; [done|].
    intros e. by apply stamp_ids_other. }
  cbn [processed_of] in Hfresh.
  destruct (is_empty (oc_resultID c)) eqn:Er; cbn [negb andb] in *.
  - destruct (asks c && negb (is_empty (oc_confirmationID c))) eqn:Eg; cbn [andb].
    2:{ replace (negb (asks c) || is_empty (oc_confirmationID c)) with true
          by (symmetry; apply andb_false_iff in Eg as [->|Eg]; [done|apply negb_false_iff in Eg; rewrite Eg; apply orb_true_r]).
        intros [= <- <-]. apply Hstop. }
    bool_prop. replace (negb (asks c) || is_empty (oc_confirmationID c)) with false
      by (rewrite H; cbn; by rewrite H0).
    destruct (advance_consume rd sid db c) as [[[db2 c2] b]|] eqn:Ec; [|done].
    unfold advance_consume in Ec. rewrite Er in Ec. cbn [negb] in Ec.
    set (db1 := stamp rd db sid (oc_confirmationID c)) in Ec.
    assert (H1 : l_events db1 = map (stamp_ids rd sid [oc_confirmationID c]) (l_events db)) by apply stamp_events.
    destruct (DenialResults db1 sid _) as [[results answered]|] eqn:Ed; [|done].
    pose proof (DenialResults_one _ _ _ _ _ Ed) as [[-> Hden]|[[ev ->] Hden]]; cbn [mark oc_confirmation] in Hden;
      rewrite Hden in *.
    + injection Ec as <- <- <-. intros [= <- <-]. exists []. by rewrite app_nil_r.
    + destruct (AppendInTx rd db1 sid [ev] no_options) as [[out1 db3]|] eqn:Ea; [|done].
      injection Ec as <- <- <-.
      destruct (walkReady (advance_consume rd sid) db3 calls) as [[db4 cs1]|] eqn:Ew; [|done].
      intros [= <- <-].
      assert (Hfresh' : forall q, mem_string (r_id rd q) (processed_of calls) = false).
      { intros q. specialize (Hfresh q). cbn [mem_string existsb] in Hfresh. by apply orb_false_iff in Hfresh as [_ ?]. }
      destruct (DenialResults_row _ _ _ _ _ _ _ _ Ed Ea) as [H2 (r & q & -> & Hrid)].
      destruct (IH _ _ _ Hfresh' Ew) as (out & H3 & Hlen & Hids). exists (r :: out).
      rewrite H3, H2, H1, map_app, map_map. cbn [map]. rewrite (stamp_ids_other _ _ _ r) by (by rewrite Hrid).
      rewrite (map_ext _ _ (stamp_ids_cons rd sid _ _)). rewrite <- app_assoc. split_and!; [done|by cbn; rewrite Hlen|].
      constructor; [by exists q|done].
  - destruct (advance_consume rd sid db c) as [[[db2 c2] b]|] eqn:Ec; [|done].
    unfold advance_consume in Ec. rewrite Er in Ec. cbn [negb] in Ec.
    set (db0 := if negb (is_empty (oc_confirmationID c)) then stamp rd db sid (oc_confirmationID c) else db) in Ec.
    injection Ec as <- <- <-.
    destruct (walkReady (advance_consume rd sid) _ calls) as [[db3 cs1]|] eqn:Ew; [|done]. intros [= <- <-].
    assert (Hfresh' : forall q, mem_string (r_id rd q) (processed_of calls) = false).
    { intros q. specialize (Hfresh q). rewrite mem_string_app in Hfresh. apply orb_false_iff in Hfresh as [_ Hfresh].
      cbn [mem_string existsb] in Hfresh. by apply orb_false_iff in Hfresh as [_ ?]. }
    destruct (IH _ _ _ Hfresh' Ew) as (out & H3 & Hlen & Hids). exists out. split_and!; [|done|done].
    rewrite H3, stamp_events, map_map, (map_ext _ _ (stamp_ids_cons rd sid _ _)). f_equal.
    unfold db0. destruct (is_empty (oc_confirmationID c)); cbn [negb app]; [done|].
    by rewrite stamp_events, map_map, (map_ext _ _ (stamp_ids_cons rd sid _ _)).
Qed.

(** Calls advance in log order.  A settlement stamps the answers of the ready prefix
    and nothing else: an answer that arrived behind a call still waiting stays on the log
    unprocessed, an approval releases its call without going past it, and each refusal
    reached adds the one result that answers its call. *)
Theorem AdvanceThreadTools_in_order (rd : readings) (db db' : ldb) (sid tid kind : string) (po : string -> bool)
    (calls : list orderedCall) (flow : ToolFlow)
    (Hcalls : threadCallsOf db sid tid = Ok calls)
    (Hfresh : forall q, mem_string (r_id rd q) (processed_of calls) = false)
    (Hadvance : AdvanceThreadTools rd db sid tid kind po = Ok (db', flow)) :
  exists out, l_events db' = map (stamp_ids rd sid (processed_of calls)) (l_events db) ++ out /\
    length out = denied_of calls /\ Forall (fun r => exists q, e_id r = r_id rd q) out.
Proof.
  unfold AdvanceThreadTools in Hadvance. rewrite Hcalls in Hadvance.
  destruct (walkReady _ db calls) as [[db1 cs]|] eqn:Ew; [|done]. injection Hadvance as <- _.
  by eapply walk_processes.
Qed.

(** ** Three calls of one thread: two gated, and one the client runs between them. *)

Definition flow_call (id : string) (seq : Z) (ty : EventType) (perm : string) : erow :=
  MkErow id "s" seq ty (JObject [("name", JString "bash"); ("evaluated_permission", JString perm)]) (Some second)
    second EmptyString false.

Definition flow_db : ldb :=
  MkLdb [flow_call "t1" 1 EventAgentToolUse "ask"; flow_call "t2" 2 EventAgentCustomToolUse "allow";
         flow_call "t3" 3 EventAgentToolUse "ask"] {["s" := sample_sess]} ∅ [].

Definition flow_confirm (id ref result : string) : NewEvent :=
  MkNewEvent id EventUserToolConfirm (Some (JObject [("tool_use_id", JString ref); ("result", JString result)])) None
    EmptyString false false.

Lemma flow_posted_ok (e : NewEvent) : In e [custom_result "u2" "t2"; flow_confirm "c3" "t3" "allow"; flow_confirm "c1" "t1" "deny"] ->
  posted_ok e.
Proof.
  intros [<-|[<-|[<-|[]]]]; (split; [done|]; split; [done|]; split; [by vm_compute|]; intros _; eexists; split; [reflexivity|by vm_compute]).
Qed.

(** What the log holds of a plain append. *)
Definition appended (db : ldb) (posted : list NewEvent) : ldb :=
  match AppendInTx (sample_readings (20 * second)) db "s" posted no_options with Ok (_, db') => db' | Err _ => db end.

(** The result of the second call waits behind the first one's gate. *)
Lemma settled_flow_rests_witness :
  exists db' flow, AdvanceThreadTools (sample_readings (30 * second)) (appended flow_db [custom_result "u2" "t2"]) "s" EmptyString
      "cloud" no_name = Ok (db', flow) /\
    Pending flow = ["t1"; "t2"; "t3"] /\ Running flow = false /\
    SettleTransition (MkS ∅ ∅ ∅) "s" EmptyString flow <> Err (ErrNoWait EmptyString).
Proof.
  eexists _, _. split; [vm_compute; reflexivity|]. split; [reflexivity|]. split; [reflexivity|].
  refine (proj2 (settled_flow_rests (sample_readings (30 * second)) (appended flow_db [custom_result "u2" "t2"]) "s" EmptyString
    "cloud" no_name [] (NewAnswerPlan []) (NewAnswerPlan []) _ _ (MkS ∅ ∅ ∅) (or_introl _))).
  vm_compute. reflexivity.
Defined.

Definition flow_sdb : sdb :=
  MkS {[PrimaryThreadID "s" := MkThread "s" SessionRunning None true "agent" None 0]} {["s" := SessionRunning]} ∅.

Lemma SettleToolFlow_rests_witness :
  exists evs s', SettleToolFlow flow_sdb "s" EmptyString (MkFlow ["t1"] true false) = Ok (evs, Some SessionIdle, s') /\
    map ev_type evs = [ThreadStatusIdle; SessionStatusIdle] /\
    exists r', s_threads s' !! PrimaryThreadID "s" = Some r' /\ rests (MkFlow ["t1"] true false) r'.
Proof.
  assert (H : exists evs moved s' r',
      SettleToolFlow flow_sdb "s" EmptyString (MkFlow ["t1"] true false) = Ok (evs, moved, s') /\
      s_threads s' !! PrimaryThreadID "s" = Some r' /\ rests (MkFlow ["t1"] true false) r' /\
      SettleTransition s' "s" EmptyString (MkFlow ["t1"] true false) = Ok None /\
      (rests (MkFlow ["t1"] true false) (MkThread "s" SessionRunning None true "agent" None 0) -> evs = [] /\ s' = flow_sdb)).
  { refine (SettleToolFlow_rests flow_sdb "s" EmptyString (MkFlow ["t1"] true false)
      (MkThread "s" SessionRunning None true "agent" None 0) _ _ _ _).
    - right. discriminate.
    - vm_compute. reflexivity.
    - reflexivity.
    - eexists. vm_compute. reflexivity. }
  destruct H as (evs & moved & s' & r' & H1 & H2 & H3 & _). exists evs, s'.
  assert (Hm : moved = Some SessionIdle /\ map ev_type evs = [ThreadStatusIdle; SessionStatusIdle]).
  { vm_compute in H1. injection H1 as <- <- <-. by split. }
  destruct Hm as [-> Hev]. split; [exact H1|]. split; [exact Hev|]. exists r'. split; [exact H2|exact H3].
Defined.

(** A refusal, the result behind it, and an approval: the thread runs the approved call. *)
Definition flow_send : list NewEvent :=
  [custom_result "u2" "t2"; flow_confirm "c3" "t3" "allow"; flow_confirm "c1" "t1" "deny"].

Lemma Settle_foresees_witness :
  exists p', Settle flow_db "s" EmptyString "cloud" flow_send no_name (NewAnswerPlan flow_send) =
      Ok (p', MkFlow [] true true) /\
    forall db2 flow', AdvanceThreadTools (sample_readings (30 * second)) (appended flow_db flow_send) "s" EmptyString
      "cloud" no_name = Ok (db2, flow') -> flow' = MkFlow [] true true.
Proof.
  eexists. split; [vm_compute; reflexivity|]. intros db2 flow' H.
  refine (Settle_foresees (sample_readings (20 * second)) (sample_readings (30 * second)) flow_db (appended flow_db flow_send) db2
    "s" EmptyString "cloud" no_name flow_send (NewAnswerPlan flow_send) _ _ _ flow' _ _ _ _ H).
  - repeat constructor; discriminate.
  - apply Forall_forall. intros e He. apply flow_posted_ok, list_elem_of_In, He.
  - vm_compute. reflexivity.
  - vm_compute. reflexivity.
Defined.

Lemma CheckWhileAwaiting_refuses_witness :
  let awaited := [MkAwaited "t1" true false; MkAwaited "t2" false true] in
  let message := MkNewEvent "m1" EventUserMessage None None EmptyString false false in
  Forall (fun a => awaits a = true) awaited /\
  CheckWhileAwaiting awaited [message; flow_confirm "c1" "t1" "allow"] (fun _ => true) = Some (MkWhile EventUserMessage 0 ["t2"]) /\
  (Forall (fun ev => is_work ev = false) [message] \/
   map aw_ID (filter (fun a => still_awaited (fun _ => true) 0 [message; flow_confirm "c1" "t1" "allow"; custom_result "u2" "t2"] a = true) awaited) = []).
Proof.
  cbv zeta. assert (Ha : Forall (fun a => awaits a = true) [MkAwaited "t1" true false; MkAwaited "t2" false true])
    by (repeat constructor).
  split; [exact Ha|]. split; [vm_compute; reflexivity|]. right.
  pose proof (CheckWhileAwaiting_refuses _ [MkNewEvent "m1" EventUserMessage None None EmptyString false false;
    flow_confirm "c1" "t1" "allow"; custom_result "u2" "t2"] (fun _ => true) Ha) as H.
  vm_compute in H. vm_compute. destruct H as [H|H]; [|exact H].
  apply Forall_inv in H. discriminate.
Defined.

Definition flow_calls : list orderedCall :=
  match threadCallsOf (appended flow_db flow_send) "s" EmptyString with Ok calls => calls | Err _ => [] end.

Lemma AdvanceThreadTools_in_order_witness :
  exists db' flow,
    AdvanceThreadTools (sample_readings (30 * second)) (appended flow_db flow_send) "s" EmptyString "cloud" no_name = Ok (db', flow) /\
    processed_of flow_calls = ["c1"; "u2"; "c3"] /\
    exists out, l_events db' = map (stamp_ids (sample_readings (30 * second)) "s" (processed_of flow_calls))
        (l_events (appended flow_db flow_send)) ++ out /\ length out = 1%nat.
Proof.
  assert (Hp : processed_of flow_calls = ["c1"; "u2"; "c3"]) by (vm_compute; reflexivity).
  assert (Hd : denied_of flow_calls = 1%nat) by (vm_compute; reflexivity).
  assert (Hc : threadCallsOf (appended flow_db flow_send) "s" EmptyString = Ok flow_calls) by (vm_compute; reflexivity).
  assert (Hf : forall q, mem_string (r_id (sample_readings (30 * second)) q) (processed_of flow_calls) = false)
    by (rewrite Hp; intros q; reflexivity).
  destruct (AdvanceThreadTools (sample_readings (30 * second)) (appended flow_db flow_send) "s" EmptyString "cloud" no_name)
    as [[db' flow]|] eqn:E; [|vm_compute in E; discriminate].
  exists db', flow. split; [reflexivity|]. split; [exact Hp|].
  destruct (AdvanceThreadTools_in_order (sample_readings (30 * second)) (appended flow_db flow_send) db' "s" EmptyString "cloud"
    no_name flow_calls flow Hc Hf E) as (out & H1 & H2 & _).
  exists out. split; [exact H1|]. rewrite H2. exact Hd.
Defined.
