(* ===== verification/Inbound.v ===== *)
(** * Inbound: what a client may send (internal/events/inbound.go, route.go;
    internal/unknownkey).

    A raw message is its decoded document.  A Go map of raw members is the list of
    members, read with [obj_get]; marshalling one writes each key once, in order.  A
    refusal is a constructor with what its text names; [Words] marks the ones the
    reference words, index and all. *)
From Stdlib Require Import Ascii Lia.
From stdpp Require Import pretty.
From S2P Require Import Prelude GoStrings Ids Json Domain Consumption Log ToolQuery.

Inductive Credential := ManagementCredential | EnvironmentCredential.

(** The refusals whose reference words differ from this platform's. *)
Inductive words :=
| NotValidValue (i : nat) (typ : string)
| TextValueRequired (i index : nat)
| DenyMessageOnAllow (i : nat)
| InvalidThreadID (s : string).

Inductive inbound_error :=
| NoEvents
| CredentialRequired                       (* [ErrEnvironmentCredentialRequired] *)
| Words (w : words)                        (* in the reference's words *)
| Ours (w : words)                         (* the same refusal in this platform's *)
| AtEvent (i : nat) (e : inbound_error)
| AtBlock (what : string) (index : nat) (e : inbound_error)
| In_ (what : string) (e : inbound_error)
| NotObject (what : string)
| Required (key : string)
| NotA (key kind : string)
| Empty (key : string)
| UnknownField (key : string)
| EmptyText
| NotAllowedHere (what typ : string)
| SelfHostedOnly
| BadResult
| BadCount (n : Z)
| TooLong (n : nat)
| SystemLast
| SystemFollows
| HasNUL.

Definition objmap := list (string * json).

(** ** The shared plumbing *)

(** [unknownkey.Least]: the least key, in byte order, outside [allowed]. *)
Definition Least (obj : objmap) (allowed : list string) : option string :=
  head (merge_sort String.le (filter (fun k => k ∉ allowed) (map fst obj))).

Definition allowKeys (obj : objmap) (allowed : list string) : result inbound_error unit :=
  match Least obj allowed with Some key => Err (UnknownField key) | None => Ok tt end.

Definition asObject (raw : json) (what : string) : result inbound_error objmap :=
  match raw with JObject ms => Ok ms | _ => Err (NotObject what) end.

(** [raw, set := obj[key]; set && !isNullRaw(raw)]. *)
Definition set_at (obj : objmap) (key : string) : option json :=
  match obj_get obj key with Some JNull => None | r => r end.

Definition requireString (obj : objmap) (key : string) : result inbound_error string :=
  match set_at obj key with
  | None => Err (Required key)
  | Some (JString s) => if String.eqb s EmptyString then Err (Empty key) else Ok s
  | Some _ => Err (NotA key "string")
  end.

(** [json.Marshal] of a map: each key once, in byte order. *)
Definition marshal_map (obj : objmap) : json :=
  JObject (map (fun k => (k, default JNull (obj_get obj k))) (merge_sort String.le (remove_dups (map fst obj)))).

Definition newEvent (typ : EventType) (fields : objmap) : NewEvent :=
  MkNewEvent EmptyString typ (Some (marshal_map fields)) None EmptyString false false.

Definition readClaim (obj : objmap) : result inbound_error (option string) :=
  match set_at obj "session_thread_id" with
  | None => Ok None
  | Some (JString s) => Ok (Some s)
  | Some _ => Err (NotA "session_thread_id" "string or null")
  end.

Definition threadClaim (obj : objmap) : result inbound_error string :=
  try claim <- readClaim obj;
  match claim with
  | None => Ok EmptyString
  | Some s => if WellFormedID s PrefixSessionThread then Ok s else Err (Words (InvalidThreadID s))
  end.

Definition answerClaim (obj : objmap) : result inbound_error unit :=
  try claim <- readClaim obj; Ok tt.

(** ** Content blocks *)

Definition blocksUserMessage : list string := ["text"; "image"; "document"].
Definition blocksToolResult : list string := ["text"; "image"; "document"; "search_result"].
Definition blocksTextOnly : list string := ["text"].

Definition validateSource (raw : option json) (kinds : list string) : result inbound_error unit :=
  match raw with
  | None | Some JNull => Err (Required "source")
  | Some raw =>
      try obj <- asObject raw "source";
      try typ <- requireString obj "type";
      if negb (mem_string typ kinds) then Err (NotAllowedHere "source type" typ)
      else if String.eqb typ "base64" || String.eqb typ "text" then
        try ok <- allowKeys obj ["type"; "data"; "media_type"];
        try data <- requireString obj "data";
        try media <- requireString obj "media_type"; Ok tt
      else if String.eqb typ "url" then
        try ok <- allowKeys obj ["type"; "url"]; try url <- requireString obj "url"; Ok tt
      else if String.eqb typ "file" then
        try ok <- allowKeys obj ["type"; "file_id"]; try id <- requireString obj "file_id"; Ok tt
      else Ok tt
  end.

(** [for i, item := range items { if err := check(item); err != nil { return blockError } }] *)
Fixpoint check_blocks (check : json -> result inbound_error unit) (what : string) (i : nat) (items : list json)
  : result inbound_error unit :=
  match items with
  | [] => Ok tt
  | item :: items' =>
      match check item with
      | Err e => Err (AtBlock what i e)
      | Ok _ => check_blocks check what (S i) items'
      end
  end.

Definition blocks_with (check : json -> result inbound_error unit) (raw : json) (what : string)
  : result inbound_error json :=
  match raw with
  | JArray items => try ok <- check_blocks check what 0 items; Ok (JArray items)
  | _ => Err (NotA what "array of content blocks")
  end.

Definition text_block (obj : objmap) : result inbound_error unit :=
  try ok <- allowKeys obj ["type"; "text"];
  match set_at obj "text" with
  | Some (JString s) => if String.eqb s EmptyString then Err EmptyText else Ok tt
  | _ => Err (NotA "text" "string text field")
  end.

Fixpoint optional_strings (obj : objmap) (keys : list string) : result inbound_error unit :=
  match keys with
  | [] => Ok tt
  | k :: keys' =>
      match set_at obj k with
      | None | Some (JString _) => optional_strings obj keys'
      | Some _ => Err (NotA k "string")
      end
  end.

(** A block of a text-only carrier: what a search result may hold. *)
Definition validateTextBlock (raw : json) : result inbound_error unit :=
  try obj <- asObject raw "content block";
  try typ <- requireString obj "type";
  if negb (mem_string typ blocksTextOnly) then Err (NotAllowedHere "content block type" typ) else text_block obj.

Definition validateBlock (allowed : list string) (raw : json) : result inbound_error unit :=
  try obj <- asObject raw "content block";
  try typ <- requireString obj "type";
  if negb (mem_string typ allowed) then Err (NotAllowedHere "content block type" typ)
  else if String.eqb typ "text" then text_block obj
  else if String.eqb typ "image" then
    try ok <- allowKeys obj ["type"; "source"]; validateSource (obj_get obj "source") ["base64"; "url"; "file"]
  else if String.eqb typ "document" then
    try ok <- allowKeys obj ["type"; "source"; "context"; "title"];
    try ok <- optional_strings obj ["context"; "title"];
    validateSource (obj_get obj "source") ["base64"; "text"; "url"; "file"]
  else if String.eqb typ "search_result" then
    try ok <- allowKeys obj ["type"; "source"; "title"; "citations"; "content"];
    try source <- requireString obj "source";
    try title <- requireString obj "title";
    match set_at obj "citations" with
    | None => Err (Required "citations")
    | Some raw =>
        try cit <- asObject raw "citations";
        try ok <- allowKeys cit ["enabled"];
        match set_at cit "enabled" with
        | Some (JBool _) =>
            match set_at obj "content" with
            | None => Err (Required "content")
            | Some content => try c <- blocks_with validateTextBlock content "content"; Ok tt
            end
        | _ => Err (NotA "citations" "boolean enabled field")
        end
    end
  else Ok tt.

Definition validateBlocks (raw : json) (what : string) (allowed : list string) : result inbound_error json :=
  blocks_with (validateBlock allowed) raw what.

Definition requireBlocks (obj : objmap) (key : string) (allowed : list string) : result inbound_error json :=
  match set_at obj key with
  | None => Err (Required key)
  | Some raw => validateBlocks raw key allowed
  end.

(** ** The seven inbound events *)

Definition normalizeUserMessage (obj : objmap) (i : nat) : result inbound_error NewEvent :=
  try ok <- allowKeys obj ["type"; "content"];
  match set_at obj "content" with
  | Some (JString s) =>
      if String.eqb s EmptyString then Err (Empty "content")
      else Ok (newEvent EventUserMessage [("content", JString s)])
  | _ =>
      match requireBlocks obj "content" blocksUserMessage with
      | Err (AtBlock what index EmptyText) => Err (Words (TextValueRequired i index))
      | Err e => Err e
      | Ok content => Ok (newEvent EventUserMessage [("content", content)])
      end
  end.

Definition normalizeUserInterrupt (obj : objmap) : result inbound_error NewEvent :=
  try ok <- allowKeys obj ["type"; "session_thread_id"];
  try claim <- threadClaim obj;
  let ev := newEvent EventUserInterrupt [("session_thread_id", JNull)] in
  Ok (MkNewEvent (n_id ev) (n_type ev) (n_payload ev) (n_processed ev) claim (n_cross ev) (n_restated ev)).

Definition normalizeToolConfirmation (obj : objmap) (i : nat) : result inbound_error NewEvent :=
  try ok <- allowKeys obj ["type"; "result"; "tool_use_id"; "deny_message"; "session_thread_id"];
  try result <- requireString obj "result";
  if negb (String.eqb result "allow") && negb (String.eqb result "deny") then Err BadResult
  else
    try toolUseID <- requireString obj "tool_use_id";
    try denyMessage <-
      (match set_at obj "deny_message" with
       | None => Ok JNull
       | Some (JString s) =>
           if negb (String.eqb result "deny") then Err (Words (DenyMessageOnAllow i)) else Ok (JString s)
       | Some _ => Err (NotA "deny_message" "string")
       end);
    try ok <- answerClaim obj;
    Ok (newEvent EventUserToolConfirm
          [("result", JString result); ("tool_use_id", JString toolUseID); ("deny_message", denyMessage);
           ("session_thread_id", JNull)]).

Definition normalizeToolResult (obj : objmap) (typ : EventType) (refKey : string) : result inbound_error NewEvent :=
  try ok <- allowKeys obj ["type"; refKey; "content"; "is_error"; "session_thread_id"];
  try ref <- requireString obj refKey;
  try content <-
    (match set_at obj "content" with None => Ok JNull | Some raw => validateBlocks raw "content" blocksToolResult end);
  try isError <-
    (match set_at obj "is_error" with
     | None => Ok JNull
     | Some (JBool b) => Ok (JBool b)
     | Some _ => Err (NotA "is_error" "boolean")
     end);
  try ok <- answerClaim obj;
  Ok (newEvent typ [(refKey, JString ref); ("content", content); ("is_error", isError); ("session_thread_id", JNull)]).

Definition maxRubricChars : Z := 262144.
Definition defaultMaxIterations : Z := 3.
Definition maxMaxIterations : Z := 20.

Definition normalizeRubric (raw : option json) : result inbound_error json :=
  match raw with
  | None | Some JNull => Err (Required "rubric")
  | Some raw =>
      try obj <- asObject raw "rubric";
      match requireString obj "type" with
      | Err e => Err (In_ "rubric" e)
      | Ok typ =>
          if String.eqb typ "text" then
            match allowKeys obj ["type"; "content"], requireString obj "content" with
            | Err e, _ => Err (In_ "rubric" e)
            | _, Err e => Err (In_ "rubric" e)
            | Ok _, Ok content =>
                if maxRubricChars <? Z.of_nat (length (runes content)) then Err (TooLong (length (runes content)))
                else Ok (marshal_map obj)
            end
          else if String.eqb typ "file" then
            match allowKeys obj ["type"; "file_id"], requireString obj "file_id" with
            | Err e, _ => Err (In_ "rubric" e)
            | _, Err e => Err (In_ "rubric" e)
            | Ok _, Ok _ => Ok (marshal_map obj)
            end
          else Err (NotAllowedHere "rubric type" typ)
      end
  end.

Definition maxIterations (obj : objmap) : result inbound_error Z :=
  match set_at obj "max_iterations" with
  | None => Ok defaultMaxIterations
  | Some raw =>
      match decode_number raw with
      | None => Err (NotA "max_iterations" "integer")
      | Some lit =>
          match Atoi lit with
          | None => Err (NotA "max_iterations" "integer")
          | Some v => if (v <? 1) || (maxMaxIterations <? v) then Err (BadCount v) else Ok v
          end
      end
  end.

(** [outcomeID] is the id [domain.NewID] mints. *)
Definition normalizeDefineOutcome (outcomeID : string) (obj : objmap) : result inbound_error NewEvent :=
  try ok <- allowKeys obj ["type"; "description"; "rubric"; "max_iterations"];
  try description <- requireString obj "description";
  try rubric <- normalizeRubric (obj_get obj "rubric");
  try n <- maxIterations obj;
  Ok (newEvent EventUserDefineOutcome
        [("description", JString description); ("rubric", rubric); ("max_iterations", JNumber (pretty n));
         ("outcome_id", JString outcomeID)]).

Definition normalizeSystemMessage (obj : objmap) : result inbound_error NewEvent :=
  try ok <- allowKeys obj ["type"; "content"];
  try content <- requireBlocks obj "content" blocksTextOnly;
  Ok (newEvent EventSystemMessage [("content", content)]).

(** ** A batch *)

Definition normalizeOne (envKind : string) (cred : Credential) (outcomeID : string) (i : nat) (raw : json)
  : result inbound_error NewEvent :=
  try obj <- asObject raw "event";
  match obj_get obj "type" with
  | None => Err (Required "type")
  | Some typRaw =>
      match decode_string (Some typRaw) with
      | None => Err (NotA "type" "string")
      | Some typ =>
          if String.eqb typ EventUserMessage then normalizeUserMessage obj i
          else if String.eqb typ EventUserInterrupt then normalizeUserInterrupt obj
          else if String.eqb typ EventUserToolConfirm then normalizeToolConfirmation obj i
          else if String.eqb typ EventUserCustomToolRes then normalizeToolResult obj typ "custom_tool_use_id"
          else if String.eqb typ EventUserToolResult then
            match cred with
            | ManagementCredential => Err CredentialRequired
            | EnvironmentCredential =>
                if negb (String.eqb envKind EnvSelfHosted) then Err SelfHostedOnly
                else normalizeToolResult obj typ "tool_use_id"
            end
          else if String.eqb typ EventSystemMessage then normalizeSystemMessage obj
          else if String.eqb typ EventUserDefineOutcome then normalizeDefineOutcome outcomeID obj
          else Err (Words (NotValidValue i typ))
      end
  end.

Definition rejectNUL (payload : option json) : result inbound_error unit :=
  match payload with
  | Some v => if json_nul v then Err HasNUL else Ok tt
  | None => Err (NotObject "payload")
  end.

(** What a system.message may follow. *)
Definition precedes_system (prev : EventType) : bool :=
  mem_string prev [EventUserMessage; EventUserToolResult; EventUserCustomToolRes].

(** How the batch words event [i]'s refusal. *)
Definition refusal_at (reference : bool) (i : nat) (e : inbound_error) : inbound_error :=
  match e with
  | Words w => if reference then Words w else AtEvent i (Ours w)
  | e => AtEvent i e
  end.

(** [outcomeIDs i] is the id minted for event [i]; [n] the batch's length. *)
Fixpoint normalize_from (envKind : string) (cred : Credential) (outcomeIDs : nat -> string) (reference : bool) (n : nat)
    (i : nat) (prev : EventType) (raws : list json) : result inbound_error (list NewEvent) :=
  match raws with
  | [] => Ok []
  | raw :: raws' =>
      match normalizeOne envKind cred (outcomeIDs i) i raw with
      | Err e => Err (refusal_at reference i e)
      | Ok ev =>
          if String.eqb (n_type ev) EventSystemMessage && negb (Nat.eqb (S i) n) then Err (AtEvent i SystemLast)
          else if String.eqb (n_type ev) EventSystemMessage && negb (precedes_system prev) then Err (AtEvent i SystemFollows)
          else
            match rejectNUL (n_payload ev) with
            | Err e => Err (AtEvent i e)
            | Ok _ =>
                try out <- normalize_from envKind cred outcomeIDs reference n (S i) (n_type ev) raws';
                Ok (ev :: out)
            end
      end
  end.

Definition normalizeBatch (envKind : string) (cred : Credential) (outcomeIDs : nat -> string) (raws : list json) (reference : bool)
  : result inbound_error (list NewEvent) :=
  match raws with
  | [] => Err NoEvents
  | _ => normalize_from envKind cred outcomeIDs reference (length raws) 0 EmptyString raws
  end.

Definition NormalizeInbound (envKind : string) (cred : Credential) (outcomeIDs : nat -> string) (raws : list json) :=
  normalizeBatch envKind cred outcomeIDs raws true.

Definition NormalizeInitialEvents (envKind : string) (cred : Credential) (outcomeIDs : nat -> string) (raws : list json) :=
  normalizeBatch envKind cred outcomeIDs raws false.

Definition StampInterrupts (now : Z) (evs : list NewEvent) : list NewEvent :=
  map (fun ev => if String.eqb (n_type ev) EventUserInterrupt
                 then MkNewEvent (n_id ev) (n_type ev) (n_payload ev) (Some now) (n_thread ev) (n_cross ev) (n_restated ev)
                 else ev) evs.

(** ** Routing (route.go) *)

Inductive route_error :=
| ThreadNotFound (id : string)
| RouteRefused (i : nat) (why : string).

(** The columns of [session_threads] the route reads. *)
Record thread_head := MkHead { th_session : string; th_archived : option Z; th_status : string }.

Definition with_route (ev : NewEvent) (thread : string) (cross : bool) : NewEvent :=
  MkNewEvent (n_id ev) (n_type ev) (n_payload ev) (n_processed ev) thread cross (n_restated ev).

Definition answer_key (t : EventType) : string :=
  if String.eqb (resultRefKey t) EmptyString then "tool_use_id" else resultRefKey t.

Definition is_answer_type (t : EventType) : bool :=
  mem_string t [EventUserToolConfirm; EventUserToolResult; EventUserCustomToolRes].

(** One event, and whether it names a thread of its own. *)
Definition route_one (db : ldb) (threads : gmap string thread_head) (sid : string) (i : nat) (ev : NewEvent)
  : result route_error (NewEvent * bool) :=
  if is_answer_type (n_type ev) then
    match payloadString (n_payload ev) (answer_key (n_type ev)) with
    | None => Err (RouteRefused i "must be a string")
    | Some ref =>
        match find_event db sid ref with
        | None => Err (RouteRefused i "does not name a tool use in this session")
        | Some tu => Ok (with_route ev (e_thread tu) (e_cross tu), false)
        end
    end
  else if String.eqb (n_type ev) EventUserInterrupt then
    let claim := n_thread ev in
    if String.eqb claim EmptyString then Ok (ev, false)
    else if String.eqb claim (PrimaryThreadID sid) then Ok (with_route ev EmptyString (n_cross ev), true)
    else
      match threads !! claim with
      | None => Err (ThreadNotFound claim)
      | Some t =>
          if negb (String.eqb (th_session t) sid) then Err (ThreadNotFound claim)
          else if bool_decide (is_Some (th_archived t)) then Err (RouteRefused i "is archived")
          else if String.eqb (th_status t) "terminated" then Err (RouteRefused i "is terminated")
          else Ok (with_route ev claim true, true)
      end
  else Ok (ev, false).

Fixpoint route_from (db : ldb) (threads : gmap string thread_head) (sid : string) (i : nat) (evs : list NewEvent)
  : result route_error (list NewEvent * list bool) :=
  match evs with
  | [] => Ok ([], [])
  | ev :: evs' =>
      try '(ev, scoped) <- route_one db threads sid i ev;
      try '(out, marks) <- route_from db threads sid (S i) evs';
      Ok (ev :: out, scoped :: marks)
  end.

(** [RouteInbound]: the events as the append stores them, and the interrupts that name a
    thread.  A call read once gives what it gives every time, since nothing is written. *)
Definition RouteInbound (db : ldb) (threads : gmap string thread_head) (sid : string) (evs : list NewEvent)
  : result route_error (list NewEvent * list bool) := route_from db threads sid 0 evs.
