(* ===== verification/InboundSpec.v ===== *)
(** * InboundSpec: what a send that is accepted looks like, and where its events go. *)
From Stdlib Require Import Ascii Lia.
From S2P Require Import Prelude GoStrings Ids Json Domain Consumption Log LogSpec ToolQuery ToolSpec ToolFlow ToolSettle FlowSpec Inbound.

(** ** Maps of members *)

Lemma obj_get_keys (f : string -> json) l k :
  obj_get (map (fun k => (k, f k)) l) k = if bool_decide (k ∈ l) then Some (f k) else None.
Proof.
  induction l as [|x l IH]; cbn [map obj_get]; [by rewrite bool_decide_false by apply not_elem_of_nil|].
  rewrite IH. destruct (decide (k ∈ l)) as [Hin|Hin].
  - rewrite !bool_decide_true by (by right || done). done.
  - rewrite (bool_decide_false (k ∈ l)) by done. destruct (String.eqb_spec x k) as [->|Hne].
    + by rewrite bool_decide_true by left.
    + rewrite bool_decide_false; [done|]. intros [?|?]%elem_of_cons; by subst.
Qed.

Lemma obj_get_marshal ms k : match marshal_map ms with JObject ms' => obj_get ms' k | _ => None end = obj_get ms k.
Proof.
  unfold marshal_map. rewrite obj_get_keys.
  destruct (obj_get ms k) as [v|] eqn:E.
  - rewrite bool_decide_true; [done|]. rewrite merge_sort_Permutation, elem_of_remove_dups.
    apply obj_get_In in E. apply list_elem_of_fmap. by exists (k, v).
  - rewrite bool_decide_false; [done|]. rewrite merge_sort_Permutation, elem_of_remove_dups.
    by apply obj_get_None.
Qed.

Lemma marshal_keys ms : match marshal_map ms with JObject ms' => forall k, k ∈ map fst ms' <-> k ∈ map fst ms | _ => False end.
Proof.
  unfold marshal_map. intros k. rewrite map_map. cbn [fst]. rewrite map_id, merge_sort_Permutation. by rewrite elem_of_remove_dups.
Qed.

Lemma text_at_marshal ms k : text_at (marshal_map ms) k = match obj_get ms k with Some w => json_text w | None => None end.
Proof. pose proof (obj_get_marshal ms k) as H. unfold text_at. unfold marshal_map in *. by rewrite H. Qed.

Lemma Least_None obj allowed : Least obj allowed = None <-> forall k, k ∈ map fst obj -> k ∈ allowed.
Proof.
  unfold Least. split.
  - intros H k Hk. destruct (decide (k ∈ allowed)) as [|Hn]; [done|]. exfalso.
    assert (Hin : k ∈ merge_sort String.le (filter (fun k => k ∉ allowed) (map fst obj)))
      by (rewrite merge_sort_Permutation; by apply list_elem_of_filter).
    destruct (merge_sort _ _); [by apply not_elem_of_nil in Hin|done].
  - intros H. assert (Hnil : filter (fun k => k ∉ allowed) (map fst obj) = []).
    { apply filter_all_false, Forall_forall. intros k Hk Hn. by apply Hn, H. }
    by rewrite Hnil.
Qed.

Lemma allowKeys_Ok obj allowed : allowKeys obj allowed = Ok tt <-> forall k, k ∈ map fst obj -> k ∈ allowed.
Proof. unfold allowKeys. rewrite <- Least_None. by destruct (Least obj allowed). Qed.

Lemma requireString_Ok obj key s : requireString obj key = Ok s <-> obj_get obj key = Some (JString s) /\ s <> EmptyString.
Proof.
  unfold requireString, set_at. destruct (obj_get obj key) as [[| | |s'| |]|]; try (split; [done|by intros [? _]]).
  destruct (String.eqb_spec s' EmptyString) as [->|Hne]; split.
  - done.
  - intros [[= <-] ?]; done.
  - by intros [= <-].
  - by intros [[= <-] _].
Qed.

(** A block of a text-only carrier is checked as any block is. *)
Lemma validateTextBlock_eq raw : validateTextBlock raw = validateBlock blocksTextOnly raw.
Proof.
  unfold validateTextBlock, validateBlock. destruct (asObject raw "content block") as [obj|]; [|done].
  destruct (requireString obj "type") as [typ|]; [|done].
  destruct (mem_string typ blocksTextOnly) eqn:E; cbn [negb]; [|done].
  apply mem_string_spec, list_elem_of_singleton in E as ->. done.
Qed.

(** ** The events *)

Definition identified (id : string) (ev : NewEvent) : NewEvent :=
  MkNewEvent id (n_type ev) (n_payload ev) (n_processed ev) (n_thread ev) (n_cross ev) (n_restated ev).

(** What the log relies on of an event a client sent: the two interfaces that ToolSpec and
    FlowSpec state of it. *)
Definition sendable (ev : NewEvent) : Prop :=
  client_event ev /\ (forall id, id <> EmptyString -> posted_ok (identified id ev)).

Lemma plain_sendable ev typ fields :
  n_type ev = typ -> n_payload ev = Some (marshal_map fields) -> n_processed ev = None ->
  Inbound typ = true -> isAnswer typ = false -> String.eqb (resultRefKey typ) EmptyString = true -> sendable ev.
Proof.
  intros Ht Hp Hn Hi Ha Hk. split.
  - split; [by rewrite Ht|]. unfold is_tool_result. by rewrite Ht, Hk.
  - intros id Hid. split; [done|]. split; [done|]. cbn [n_type identified]. rewrite Ht. split; [done|]. congruence.
Qed.

Lemma confirm_sendable result ref deny : ref <> EmptyString ->
  sendable (newEvent EventUserToolConfirm
    [("result", JString result); ("tool_use_id", JString ref); ("deny_message", deny); ("session_thread_id", JNull)]).
Proof.
  intros Hr. set (fs := [("result", JString result); ("tool_use_id", JString ref); ("deny_message", deny); ("session_thread_id", JNull)]).
  assert (Href : answerRef (newEvent EventUserToolConfirm fs) = ref).
  { unfold answerRef. replace (field_string _ "tool_use_id") with ref by (vm_compute; reflexivity).
    unfold is_empty. by rewrite (proj2 (String.eqb_neq _ _) Hr). }
  split.
  - split; [done|]. intros H. by vm_compute in H.
  - intros id Hid. split; [done|]. split; [done|]. split; [done|]. intros _. exists (marshal_map fs). split; [done|].
    change (is_confirm (identified id (newEvent EventUserToolConfirm fs))) with true. cbv iota.
    change (answerRef (identified id (newEvent EventUserToolConfirm fs))) with (answerRef (newEvent EventUserToolConfirm fs)).
    rewrite Href. by rewrite text_at_marshal.
Qed.

Lemma result_sendable typ refKey ref content isError : ref <> EmptyString ->
  (typ = EventUserToolResult /\ refKey = "tool_use_id") \/ (typ = EventUserCustomToolRes /\ refKey = "custom_tool_use_id") ->
  sendable (newEvent typ [(refKey, JString ref); ("content", content); ("is_error", isError); ("session_thread_id", JNull)]).
Proof.
  intros Hr Hcase. set (fs := [(refKey, JString ref); ("content", content); ("is_error", isError); ("session_thread_id", JNull)]).
  assert (Href : answerRef (newEvent typ fs) = ref).
  { unfold answerRef, is_empty. destruct Hcase as [[-> ->]|[-> ->]].
    - replace (field_string _ "tool_use_id") with ref by (vm_compute; reflexivity).
      by rewrite (proj2 (String.eqb_neq _ _) Hr).
    - replace (field_string _ "tool_use_id") with EmptyString by (vm_compute; reflexivity).
      replace (field_string _ "custom_tool_use_id") with ref by (vm_compute; reflexivity).
      by rewrite (proj2 (String.eqb_neq _ _) Hr). }
  assert (Hres : result_ref (marshal_map fs) = Some ref).
  { unfold result_ref. rewrite !text_at_marshal. by destruct Hcase as [[-> ->]|[-> ->]]. }
  split.
  - split; [by destruct Hcase as [[-> ->]|[-> ->]]|]. intros _. change (payload_of (newEvent typ fs)) with (marshal_map fs). cbn [n_type newEvent].
    rewrite Hres, text_at_marshal. by destruct Hcase as [[-> ->]|[-> ->]].
  - intros id Hid. split; [done|]. split; [done|]. split; [by destruct Hcase as [[-> ->]|[-> ->]]|].
    intros _. exists (marshal_map fs). split; [done|].
    change (answerRef (identified id (newEvent typ fs))) with (answerRef (newEvent typ fs)).
    rewrite Href. replace (is_confirm (identified id (newEvent typ fs))) with false; [done|].
    by destruct Hcase as [[-> ->]|[-> ->]].
Qed.

Lemma interrupt_sendable claim :
  sendable (MkNewEvent EmptyString EventUserInterrupt (Some (marshal_map [("session_thread_id", JNull)])) None claim false false).
Proof. by eapply plain_sendable. Qed.

(** What [normalizeOne] accepts: an event of a type a client may send, in its stored form. *)
Definition accepted (envKind : string) (cred : Credential) (ev : NewEvent) : Prop :=
  sendable ev /\ n_id ev = EmptyString /\ n_processed ev = None /\ n_cross ev = false /\ n_restated ev = false /\
  (n_thread ev <> EmptyString -> n_type ev = EventUserInterrupt /\ WellFormedID (n_thread ev) PrefixSessionThread = true) /\
  (n_type ev = EventUserToolResult -> cred = EnvironmentCredential /\ envKind = EnvSelfHosted).

Lemma newEvent_accepted env cred typ fields : String.eqb typ EventUserToolResult = false -> sendable (newEvent typ fields) ->
  accepted env cred (newEvent typ fields).
Proof. intros Ht Hs. unfold accepted. split_and!; try done. intros H. apply String.eqb_neq in Ht. by destruct Ht. Qed.

Lemma toolResult_accepted env cred obj typ refKey ev :
  (typ = EventUserToolResult /\ refKey = "tool_use_id") \/ (typ = EventUserCustomToolRes /\ refKey = "custom_tool_use_id") ->
  (typ = EventUserToolResult -> cred = EnvironmentCredential /\ env = EnvSelfHosted) ->
  normalizeToolResult obj typ refKey = Ok ev -> accepted env cred ev.
Proof.
  intros Hcase Hcred. unfold normalizeToolResult. destruct (allowKeys obj _); [|done].
  destruct (requireString obj refKey) as [ref|] eqn:Er; [|done]. apply requireString_Ok in Er as [_ Er].
  destruct (match set_at obj "content" with Some _ => _ | None => _ end); [|done].
  destruct (match set_at obj "is_error" with Some _ => _ | None => _ end); [|done].
  destruct (answerClaim obj); [|done]. intros [= <-].
  unfold accepted. split_and!; try done. by apply result_sendable.
Qed.

Lemma confirmation_accepted env cred obj i ev : normalizeToolConfirmation obj i = Ok ev -> accepted env cred ev.
Proof.
  unfold normalizeToolConfirmation. destruct (allowKeys obj _); [|done].
  destruct (requireString obj "result") as [res|]; [|done]. destruct (_ && _); [done|].
  destruct (requireString obj "tool_use_id") as [ref|] eqn:Er; [|done]. apply requireString_Ok in Er as [_ Er].
  destruct (match set_at obj "deny_message" with Some _ => _ | None => _ end); [|done].
  destruct (answerClaim obj); [|done]. intros [= <-]. apply newEvent_accepted; [done|]. by apply confirm_sendable.
Qed.

Lemma userMessage_accepted env cred obj i ev : normalizeUserMessage obj i = Ok ev -> accepted env cred ev.
Proof.
  unfold normalizeUserMessage. destruct (allowKeys obj _); [|done].
  assert (Hb : match requireBlocks obj "content" blocksUserMessage with
               | Err (AtBlock what index EmptyText) => Err (Words (TextValueRequired i index))
               | Err e => Err e
               | Ok content => Ok (newEvent EventUserMessage [("content", content)])
               end = Ok ev -> accepted env cred ev).
  { destruct (requireBlocks obj "content" blocksUserMessage) as [c|e].
    - intros [= <-]. apply newEvent_accepted; [done|]. by eapply plain_sendable.
    - destruct e as [| | | | |w i' e| | | | | | | | | | | | | | |]; try done. by destruct e. }
  destruct (set_at obj "content") as [[| | |s| |]|]; try exact Hb.
  destruct (String.eqb s EmptyString); [done|]. intros [= <-]. apply newEvent_accepted; [done|].
  by eapply plain_sendable.
Qed.

Lemma normalizeOne_accepted env cred oid i raw ev : normalizeOne env cred oid i raw = Ok ev -> accepted env cred ev.
Proof.
  unfold normalizeOne. destruct (asObject raw "event") as [obj|]; [|done].
  destruct (obj_get obj "type") as [t|]; [|done]. destruct (decode_string (Some t)) as [typ|]; [|done].
  destruct (String.eqb typ EventUserMessage); [apply userMessage_accepted|].
  destruct (String.eqb typ EventUserInterrupt).
  { unfold normalizeUserInterrupt, threadClaim. destruct (allowKeys obj _); [|done].
    destruct (readClaim obj) as [[claim|]|]; [| |done].
    - destruct (WellFormedID claim PrefixSessionThread) eqn:Ew; [|done]. intros [= <-].
      unfold accepted. cbn [n_thread n_type newEvent]. split_and!; try done; apply interrupt_sendable.
    - intros [= <-]. unfold accepted. split_and!; try done; apply interrupt_sendable. }
  destruct (String.eqb typ EventUserToolConfirm); [apply confirmation_accepted|].
  destruct (String.eqb_spec typ EventUserCustomToolRes) as [->|_].
  { apply toolResult_accepted; [by right|done]. }
  destruct (String.eqb_spec typ EventUserToolResult) as [->|_].
  { destruct cred; [done|]. destruct (String.eqb_spec env EnvSelfHosted) as [->|]; cbn [negb]; [|done].
    apply toolResult_accepted; [by left|done]. }
  destruct (String.eqb typ EventSystemMessage).
  { unfold normalizeSystemMessage. destruct (allowKeys obj _); [|done]. destruct (requireBlocks _ _ _); [|done].
    intros [= <-]. apply newEvent_accepted; [done|]. by eapply plain_sendable. }
  destruct (String.eqb typ EventUserDefineOutcome); [|done].
  unfold normalizeDefineOutcome. destruct (allowKeys obj _); [|done]. destruct (requireString _ _); [|done].
  destruct (normalizeRubric _); [|done]. destruct (maxIterations obj); [|done].
  intros [= <-]. apply newEvent_accepted; [done|]. by eapply plain_sendable.
Qed.

(** ** The batch *)

(** No string of the payload holds a NUL, as the guard reads it. *)
Definition storable (ev : NewEvent) : Prop := exists v, n_payload ev = Some v /\ json_nul v = false.

(** A system message ends its batch, behind a message or a result. *)
Definition system_placed (prev : EventType) (evs : list NewEvent) : Prop :=
  forall j ev, evs !! j = Some ev -> n_type ev = EventSystemMessage ->
    S j = length evs /\
    precedes_system (match j with O => prev | S k => match evs !! k with Some p => n_type p | None => EmptyString end end) = true.

Lemma normalize_from_spec env cred oids ref n : forall raws i prev evs,
  n = (i + length raws)%nat -> normalize_from env cred oids ref n i prev raws = Ok evs ->
  length evs = length raws /\ Forall (fun ev => accepted env cred ev /\ storable ev) evs /\ system_placed prev evs.
Proof.
  induction raws as [|raw raws IH]; intros i prev evs Hn; cbn [normalize_from].
  { intros [= <-]. split; [done|]. split; [constructor|]. by intros j ev. }
  destruct (normalizeOne env cred (oids i) i raw) as [ev|e] eqn:E; [|done].
  destruct (String.eqb (n_type ev) EventSystemMessage && negb (Nat.eqb (S i) n)) eqn:E1; [done|].
  destruct (String.eqb (n_type ev) EventSystemMessage && negb (precedes_system prev)) eqn:E2; [done|].
  destruct (rejectNUL (n_payload ev)) as [[]|] eqn:E3; [|done].
  destruct (normalize_from env cred oids ref n (S i) (n_type ev) raws) as [out|] eqn:E4; [|done].
  intros [= <-]. cbn [length] in Hn. destruct (IH (S i) _ _ ltac:(lia) E4) as (Hlen & Hall & Hsys).
  split; [by cbn; rewrite Hlen|]. split.
  - constructor; [|done]. split; [by eapply normalizeOne_accepted|].
    unfold rejectNUL in E3. unfold storable. destruct (n_payload ev) as [v|]; [|done]. exists v. by destruct (json_nul v).
  - intros [|j] e; cbn [lookup list_lookup length].
    + intros [= ->] Ht. rewrite Ht, String.eqb_refl in E1, E2. cbn [andb] in E1, E2. bool_prop.
      apply Nat.eqb_eq in E1. split; [|done]. rewrite Hlen. lia.
    + intros Hj Ht. destruct (Hsys j e Hj Ht) as [Hl Hp]. split; [lia|]. by destruct j.
Qed.

(** A batch that is accepted is what the log may hold.  Every event is of a type a
    client sends, in the form the log's readers rely on (an answer names its call under its
    own kind's key, and only there), with no NUL in what its decoding reads; only an interrupt
    names a thread, by a well-formed id; a worker's result comes from a worker of a
    self-hosted session; and a system message ends the batch, behind a message or a
    result. *)
Theorem NormalizeInbound_accepted (envKind : string) (cred : Credential) (outcomeIDs : nat -> string) (raws : list json)
    (evs : list NewEvent) (Hnorm : NormalizeInbound envKind cred outcomeIDs raws = Ok evs) :
  length evs = length raws /\
  Forall (fun ev => accepted envKind cred ev /\ storable ev) evs /\ system_placed EmptyString evs.
Proof.
  unfold NormalizeInbound, normalizeBatch in Hnorm. destruct raws as [|raw raws]; [done|].
  by eapply normalize_from_spec in Hnorm.
Qed.

(** ** Sending again what is stored *)

Definition raw_of (ev : NewEvent) : json :=
  match n_payload ev with
  | Some (JObject ms) => JObject (("type", JString (n_type ev)) :: ms)
  | _ => JNull
  end.

Lemma set_at_raw typ fields key : key <> "type" ->
  set_at (("type", JString typ) :: match marshal_map fields with JObject ms => ms | _ => [] end) key = set_at fields key.
Proof.
  intros Hk. unfold set_at. pose proof (obj_get_marshal fields key) as H. unfold marshal_map in *. cbn [obj_get] in *. rewrite H.
  destruct (obj_get fields key); [done|]. apply not_eq_sym, String.eqb_neq in Hk. by rewrite Hk.
Qed.

Lemma get_raw_type typ fields : obj_get fields "type" = None ->
  obj_get (("type", JString typ) :: match marshal_map fields with JObject ms => ms | _ => [] end) "type" = Some (JString typ).
Proof. intros Hn. pose proof (obj_get_marshal fields "type") as H. unfold marshal_map in *. cbn [obj_get]. by rewrite H, Hn. Qed.

Lemma allow_raw typ fields allowed : (forall k, k ∈ map fst fields -> k ∈ allowed) -> "type" ∈ allowed ->
  allowKeys (("type", JString typ) :: match marshal_map fields with JObject ms => ms | _ => [] end) allowed = Ok tt.
Proof.
  intros H Ht. apply allowKeys_Ok. intros k. cbn [map fst]. intros [-> | Hk]%elem_of_cons; [done|]. apply H.
  pose proof (marshal_keys fields) as Hm. unfold marshal_map in *. by apply Hm.
Qed.

Lemma requireString_set obj obj' key : set_at obj key = set_at obj' key -> requireString obj key = requireString obj' key.
Proof. unfold requireString. by intros ->. Qed.

Lemma requireBlocks_set obj obj' key allowed : set_at obj key = set_at obj' key ->
  requireBlocks obj key allowed = requireBlocks obj' key allowed.
Proof. unfold requireBlocks. by intros ->. Qed.

Lemma blocks_with_same check raw what out : blocks_with check raw what = Ok out -> out = raw.
Proof. unfold blocks_with. destruct raw; try done. destruct (check_blocks _ _ _ _); [|done]. by intros [= <-]. Qed.

Lemma raw_newEvent typ fields : raw_of (newEvent typ fields) =
  JObject (("type", JString typ) :: match marshal_map fields with JObject ms => ms | _ => [] end).
Proof. done. Qed.

(** Re-reading a stored event starts with the same type. *)
Lemma normalizeOne_raw env cred oid i typ fields (f : objmap -> result inbound_error NewEvent) :
  obj_get fields "type" = None ->
  (forall obj, obj_get obj "type" = Some (JString typ) -> normalizeOne env cred oid i (JObject obj) = f obj) ->
  normalizeOne env cred oid i (raw_of (newEvent typ fields)) =
  f (("type", JString typ) :: match marshal_map fields with JObject ms => ms | _ => [] end).
Proof. intros Ht Hf. rewrite raw_newEvent. apply Hf, get_raw_type, Ht. Qed.

Lemma readClaim_null obj : set_at obj "session_thread_id" = None -> readClaim obj = Ok None.
Proof. unfold readClaim. by intros ->. Qed.

Lemma keys_in (l allowed : list string) : forallb (fun k => mem_string k allowed) l = true -> forall k, k ∈ l -> k ∈ allowed.
Proof.
  intros H k Hk. rewrite forallb_forall in H. apply mem_string_spec, H. by apply list_elem_of_In.
Qed.

Lemma content_null_or c : (match c with JNull => None | r => Some r end = None <-> c = JNull).
Proof. by destruct c. Qed.

(** The shape of a stored event, and that reading it again gives it. *)
Definition again (typ : EventType) (f : objmap -> result inbound_error NewEvent) (ev : NewEvent) : Prop :=
  exists fields, ev = newEvent typ fields /\ obj_get fields "type" = None /\
    f (("type", JString typ) :: match marshal_map fields with JObject ms => ms | _ => [] end) = Ok ev.

Lemma toolResult_again obj typ refKey ev :
  (typ = EventUserToolResult /\ refKey = "tool_use_id") \/ (typ = EventUserCustomToolRes /\ refKey = "custom_tool_use_id") ->
  normalizeToolResult obj typ refKey = Ok ev -> again typ (fun o => normalizeToolResult o typ refKey) ev.
Proof.
  intros Hcase. unfold normalizeToolResult at 1. destruct (allowKeys obj _); [|done].
  destruct (requireString obj refKey) as [ref|] eqn:Er; [|done]. apply requireString_Ok in Er as [_ Er].
  destruct (match set_at obj "content" with Some _ => _ | None => _ end) as [content|] eqn:Ec; [|done].
  destruct (match set_at obj "is_error" with Some _ => _ | None => _ end) as [isError|] eqn:Ee; [|done].
  destruct (answerClaim obj); [|done]. intros [= <-].
  set (fs := [(refKey, JString ref); ("content", content); ("is_error", isError); ("session_thread_id", JNull)]).
  exists fs. split; [done|]. split; [by destruct Hcase as [[_ ->]|[_ ->]]|].
  set (obj' := _ :: _). unfold normalizeToolResult.
  assert (Hset : forall key, key <> "type" -> set_at obj' key = set_at fs key) by (intros key Hk; by apply set_at_raw).
  assert (Hkeys : refKey <> "type" /\ refKey <> "content" /\ refKey <> "is_error" /\ refKey <> "session_thread_id")
    by (by destruct Hcase as [[_ ->]|[_ ->]]).
  destruct Hkeys as (Hk1 & Hk2 & Hk3 & Hk4).
  unfold obj' at 1. rewrite (allow_raw typ fs).
  2:{ unfold fs. cbn [map fst]. intros k. rewrite !elem_of_cons. naive_solver. }
  2: left.
  rewrite (requireString_set obj' fs refKey) by by apply Hset.
  rewrite (proj2 (requireString_Ok fs refKey ref)).
  2:{ split; [|done]. by destruct Hcase as [[_ ->]|[_ ->]]. }
  rewrite !Hset by done.
  assert (Hc : set_at fs "content" = match content with JNull => None | r => Some r end)
    by (unfold set_at; destruct Hcase as [[_ ->]|[_ ->]]; by destruct content).
  assert (He : set_at fs "is_error" = match isError with JNull => None | r => Some r end)
    by (unfold set_at; destruct Hcase as [[_ ->]|[_ ->]]; by destruct isError).
  rewrite Hc, He.
  assert (Hc' : (match match content with JNull => None | r => Some r end with
                 | None => Ok JNull | Some raw => validateBlocks raw "content" blocksToolResult end) = Ok content).
  { destruct (set_at obj "content") as [raw|]; [|by injection Ec as <-].
    pose proof (blocks_with_same _ _ _ _ Ec) as ->. destruct raw; done. }
  rewrite Hc'.
  assert (He' : (match match isError with JNull => None | r => Some r end with
                 | None => Ok JNull | Some (JBool b) => Ok (JBool b) | Some _ => Err (NotA "is_error" "boolean") end) = Ok isError).
  { destruct (set_at obj "is_error") as [[| | | | |]|]; try done; by injection Ee as <-. }
  rewrite He'. unfold answerClaim. rewrite readClaim_null; [done|].
  rewrite Hset by done. unfold set_at. by destruct Hcase as [[_ ->]|[_ ->]].
Qed.

Lemma confirmation_again obj i i' ev : normalizeToolConfirmation obj i = Ok ev ->
  again EventUserToolConfirm (fun o => normalizeToolConfirmation o i') ev.
Proof.
  unfold normalizeToolConfirmation at 1. destruct (allowKeys obj _); [|done].
  destruct (requireString obj "result") as [res|] eqn:Eres; [|done]. apply requireString_Ok in Eres as [_ Eres].
  destruct (negb (String.eqb res "allow") && negb (String.eqb res "deny")) eqn:Eb; [done|].
  destruct (requireString obj "tool_use_id") as [ref|] eqn:Er; [|done]. apply requireString_Ok in Er as [_ Er].
  destruct (match set_at obj "deny_message" with Some _ => _ | None => _ end) as [deny|] eqn:Ed; [|done].
  destruct (answerClaim obj); [|done]. intros [= <-].
  set (fs := [("result", JString res); ("tool_use_id", JString ref); ("deny_message", deny); ("session_thread_id", JNull)]).
  exists fs. split; [done|]. split; [done|].
  set (obj' := _ :: _). unfold normalizeToolConfirmation.
  assert (Hset : forall key, key <> "type" -> set_at obj' key = set_at fs key) by (intros key Hk; by apply set_at_raw).
  unfold obj' at 1. rewrite (allow_raw EventUserToolConfirm fs) by (by apply keys_in || left).
  rewrite (requireString_set obj' fs "result"), (requireString_set obj' fs "tool_use_id") by by apply Hset.
  rewrite (proj2 (requireString_Ok fs "result" res)) by (split; done). rewrite Eb.
  rewrite (proj2 (requireString_Ok fs "tool_use_id" ref)) by (split; done). rewrite !Hset by done.
  assert (Hd : (match set_at fs "deny_message" with
                | None => Ok JNull
                | Some (JString s) => if negb (String.eqb res "deny") then Err (Words (DenyMessageOnAllow i')) else Ok (JString s)
                | Some _ => Err (NotA "deny_message" "string") end) = Ok deny).
  { assert (set_at fs "deny_message" = match deny with JNull => None | r => Some r end) as -> by (by destruct deny).
    destruct (set_at obj "deny_message") as [[| | |s| |]|]; try done; try (by injection Ed as <-).
    destruct (negb (String.eqb res "deny")); [done|]. by injection Ed as <-. }
  rewrite Hd. unfold answerClaim. by rewrite readClaim_null by by rewrite Hset.
Qed.

Lemma content_set typ content : content <> JNull ->
  set_at (("type", JString typ) :: match marshal_map [("content", content)] with JObject ms => ms | _ => [] end) "content" = Some content.
Proof. intros Hc. rewrite set_at_raw by done. by destruct content. Qed.

Lemma content_allowed typ content :
  allowKeys (("type", JString typ) :: match marshal_map [("content", content)] with JObject ms => ms | _ => [] end) ["type"; "content"] = Ok tt.
Proof. apply allow_raw; [by apply keys_in|left]. Qed.

Lemma requireBlocks_again obj typ allowed content : requireBlocks obj "content" allowed = Ok content ->
  (exists items, content = JArray items) /\
  requireBlocks (("type", JString typ) :: match marshal_map [("content", content)] with JObject ms => ms | _ => [] end) "content" allowed = Ok content.
Proof.
  unfold requireBlocks. destruct (set_at obj "content") as [raw|]; [|done]. intros H.
  pose proof (blocks_with_same _ _ _ _ H) as ->. assert (Ha : exists items, raw = JArray items) by (destruct raw; try done; eauto).
  split; [done|]. rewrite content_set; [done|]. by destruct Ha as [? ->].
Qed.

Lemma userMessage_again obj i i' ev : normalizeUserMessage obj i = Ok ev ->
  again EventUserMessage (fun o => normalizeUserMessage o i') ev.
Proof.
  unfold normalizeUserMessage at 1. destruct (allowKeys obj _); [|done]. intros H.
  assert (Hcase : (exists s, s <> EmptyString /\ ev = newEvent EventUserMessage [("content", JString s)]) \/
    (exists content, requireBlocks obj "content" blocksUserMessage = Ok content /\ ev = newEvent EventUserMessage [("content", content)])).
  { destruct (set_at obj "content") as [[| | |s| |]|];
      try (right; destruct (requireBlocks obj "content" blocksUserMessage) as [content|e];
           [injection H as <-; by exists content|by destruct e as [| | | | |what index []| | | | | | | | | | | | | | |]]).
    destruct (String.eqb s EmptyString) eqn:Es; [done|]. injection H as <-. left. exists s. apply String.eqb_neq in Es. done. }
  clear H. destruct Hcase as [(s & Hs & ->)|(content & Hb & ->)]; eexists; (split; [done|]); (split; [done|]);
    unfold normalizeUserMessage; rewrite content_allowed.
  - rewrite content_set by done. apply String.eqb_neq in Hs. by rewrite Hs.
  - destruct (requireBlocks_again obj EventUserMessage blocksUserMessage content Hb) as [[items ->] Hb'].
    rewrite content_set by done. by rewrite Hb'.
Qed.

Lemma systemMessage_again obj ev : normalizeSystemMessage obj = Ok ev -> again EventSystemMessage normalizeSystemMessage ev.
Proof.
  unfold normalizeSystemMessage at 1. destruct (allowKeys obj _); [|done].
  destruct (requireBlocks obj _ _) as [content|] eqn:Hb; [|done]. intros [= <-].
  eexists. split; [done|]. split; [done|]. unfold normalizeSystemMessage. rewrite content_allowed.
  destruct (requireBlocks_again obj EventSystemMessage _ content Hb) as [_ ->]. done.
Qed.

(** Reading a stored event again reaches its own validator. *)
Lemma again_stored env cred oid i typ f ev : again typ f ev ->
  (forall obj, obj_get obj "type" = Some (JString typ) -> normalizeOne env cred oid i (JObject obj) = f obj) ->
  String.eqb typ EventUserDefineOutcome = false ->
  normalizeOne env cred oid i (raw_of ev) =
  if String.eqb (n_type ev) EventUserDefineOutcome then Err (UnknownField "outcome_id") else Ok (with_route ev EmptyString false).
Proof.
  intros (fs & -> & Ht & Hf) Hd Ho. rewrite (normalizeOne_raw env cred oid i typ fs f Ht Hd). cbn [n_type newEvent].
  rewrite Ho. exact Hf.
Qed.

Lemma interrupt_again obj env cred oid i ev : normalizeUserInterrupt obj = Ok ev ->
  n_type ev = EventUserInterrupt /\ normalizeOne env cred oid i (raw_of ev) = Ok (with_route ev EmptyString false).
Proof.
  unfold normalizeUserInterrupt. destruct (allowKeys obj _); [|done]. destruct (threadClaim obj) as [claim|]; [|done].
  intros [= <-]. done.
Qed.

Lemma outcome_again obj env cred oid oid' i ev : normalizeDefineOutcome oid obj = Ok ev ->
  n_type ev = EventUserDefineOutcome /\ normalizeOne env cred oid' i (raw_of ev) = Err (UnknownField "outcome_id").
Proof.
  unfold normalizeDefineOutcome. destruct (allowKeys obj _); [|done]. destruct (requireString _ _); [|done].
  destruct (normalizeRubric _); [|done]. destruct (maxIterations obj); [|done]. intros [= <-]. done.
Qed.

(** What a client sent and the log stored can be sent again, and is stored the same:
    validation is a normal form.  Only the marks it takes off the payload (the thread an
    interrupt named) are not said twice; and an outcome cannot be replayed, since the id it
    was given is not a client's to send. *)
Theorem normalizeOne_again (envKind : string) (cred : Credential) (oid oid' : string) (i i' : nat) (raw : json) (ev : NewEvent)
    (Hnorm : normalizeOne envKind cred oid i raw = Ok ev) :
  normalizeOne envKind cred oid' i' (raw_of ev) =
  if String.eqb (n_type ev) EventUserDefineOutcome then Err (UnknownField "outcome_id")
  else Ok (with_route ev EmptyString false).
Proof.
  unfold normalizeOne in Hnorm. destruct (asObject raw "event") as [obj|]; [|done].
  destruct (obj_get obj "type") as [t|]; [|done]. destruct (decode_string (Some t)) as [typ|]; [|done].
  revert Hnorm. destruct (String.eqb typ EventUserMessage).
  { intros H. eapply again_stored; [by eapply userMessage_again| |done]. intros o Ho. unfold normalizeOne, asObject. by rewrite Ho. }
  destruct (String.eqb typ EventUserInterrupt).
  { intros H. apply (interrupt_again obj envKind cred oid' i') in H as [-> H]. by rewrite H. }
  destruct (String.eqb typ EventUserToolConfirm).
  { intros H. eapply again_stored; [by eapply confirmation_again| |done]. intros o Ho. unfold normalizeOne, asObject. by rewrite Ho. }
  destruct (String.eqb_spec typ EventUserCustomToolRes) as [->|_].
  { intros H. eapply again_stored; [eapply toolResult_again; [by right|exact H]| |done].
    intros o Ho. unfold normalizeOne, asObject. by rewrite Ho. }
  destruct (String.eqb_spec typ EventUserToolResult) as [->|_].
  { destruct cred; [done|]. destruct (negb (String.eqb envKind EnvSelfHosted)) eqn:Ee; [done|].
    intros H. eapply again_stored; [eapply toolResult_again; [by left|exact H]| |done].
    intros o Ho. unfold normalizeOne, asObject. rewrite Ho. cbn -[normalizeToolResult EnvSelfHosted]. by rewrite Ee. }
  destruct (String.eqb typ EventSystemMessage).
  { intros H. eapply again_stored; [by eapply systemMessage_again| |done]. intros o Ho. unfold normalizeOne, asObject. by rewrite Ho. }
  destruct (String.eqb typ EventUserDefineOutcome); [|done].
  intros H. apply (outcome_again obj envKind cred oid oid' i') in H as [-> H]. by rewrite H.
Qed.

(** A value that a repeated key hides from the guard: it is in the document as sent. *)
Example repeated_key_hides_nul :
  let v w := JObject [("text", w); ("text", JString "hi")] in
  has_nul (String Ascii.zero EmptyString) = true /\ json_nul (v (JString (String Ascii.zero EmptyString))) = false /\
  json_nul (JString (String Ascii.zero EmptyString)) = true.
Proof. by vm_compute. Qed.

(** ** A batch: a result of the client's, a message, an instruction *)

Definition sample_raws : list json :=
  [JObject [("type", JString EventUserCustomToolRes); ("custom_tool_use_id", JString "t2"); ("is_error", JBool false);
            ("session_thread_id", JString "whatever")];
   JObject [("type", JString EventUserMessage); ("content", JArray [JObject [("type", JString "text"); ("text", JString "go on")]])];
   JObject [("content", JArray [JObject [("text", JString "briefly"); ("type", JString "text")]]); ("type", JString EventSystemMessage)]].

Lemma NormalizeInbound_accepted_witness :
  exists evs, NormalizeInbound "cloud" ManagementCredential (fun _ => "o") sample_raws = Ok evs /\
    length evs = 3%nat /\ system_placed EmptyString evs.
Proof.
  destruct (NormalizeInbound "cloud" ManagementCredential (fun _ => "o") sample_raws) as [evs|] eqn:E; [|vm_compute in E; discriminate].
  destruct (NormalizeInbound_accepted "cloud" ManagementCredential (fun _ => "o") sample_raws evs E) as (Hl & _ & Hs).
  exists evs. split; [reflexivity|]. split; [exact Hl|exact Hs].
Defined.

Lemma normalizeOne_again_witness :
  exists raw ev, sample_raws !! 0%nat = Some raw /\ normalizeOne "cloud" ManagementCredential "o" 0 raw = Ok ev /\
    normalizeOne "cloud" ManagementCredential "o'" 7 (raw_of ev) = Ok ev.
Proof.
  exists (JObject [("type", JString EventUserCustomToolRes); ("custom_tool_use_id", JString "t2"); ("is_error", JBool false);
                   ("session_thread_id", JString "whatever")]).
  destruct (normalizeOne "cloud" ManagementCredential "o" 0 _) as [ev|] eqn:E; [|vm_compute in E; discriminate].
  exists ev. split; [reflexivity|]. split; [reflexivity|].
  pose proof (normalizeOne_again "cloud" ManagementCredential "o" "o'" 0 7 _ ev E) as H.
  rewrite H. vm_compute in E. injection E as <-. vm_compute. reflexivity.
Defined.
