(* ===== verification/Intake.v ===== *)
(** * Intake: the front half of a send (internal/api/events.go, threadstate.go)

    What [sendSessionEvents] does between reading the batch and deciding what each thread
    does: it validates the batch against its credential and the log, routes it, takes out
    the results that must not land, finds which threads the batch reaches and how, and
    refuses work behind a response still awaited.  The whole runs under one lock on the
    session's row, so the tables are read as they stand.  The session's own row (archived,
    owned by a dream) and the outcomes are the caller's checks. *)
From Stdlib Require Import Lia.
From S2P Require Import Prelude GoStrings Ids Json Domain Consumption Log ToolQuery ToolFlow Inbound.

Inductive intake_error :=
| Forbidden                                 (* the 403 of [ErrEnvironmentCredentialRequired] *)
| Invalid (e : inbound_error)
| CheckError (e : flow_error)
| RouteError (e : route_error)
| SystemBehindResolved (i : nat)            (* a system.message whose result was resolved before *)
| WhileAwaiting (e : WhileAwaitingError).

(** The columns of a row of [session_threads] the front half reads. *)
Record trow := MkTrow {
  tw_id : string;
  tw_session : string;
  tw_parent : option string;
  tw_status : string;
  tw_agent : string;
  tw_archived : option Z;
  tw_created : Z;
}.

Definition heads (rows : list trow) : gmap string thread_head :=
  list_to_map (map (fun r => (tw_id r, MkHead (tw_session r) (tw_archived r) (tw_status r))) rows).

(** ** The threads a send may reach (threadstate.go) *)

Record threadState := MkThreadState { ts_id : string; ts_status : string; ts_agentName : string }.

Definition is_child (r : trow) : bool := bool_decide (is_Some (tw_parent r)).

(** [ORDER BY parent_thread_id IS NOT NULL, created_at, id] *)
Definition trow_le (a b : trow) : Prop :=
  (is_child a = false /\ is_child b = true) \/
  (is_child a = is_child b /\ (tw_created a < tw_created b \/
    (tw_created a = tw_created b /\ String.leb (tw_id a) (tw_id b) = true))).

#[export] Instance trow_le_dec a b : Decision (trow_le a b).
Proof. unfold trow_le. apply _. Defined.

Definition live_row (sid : string) (r : trow) : bool :=
  String.eqb (tw_session r) sid && bool_decide (tw_archived r = None) && negb (String.eqb (tw_status r) "terminated").

Definition state_of (r : trow) : threadState :=
  MkThreadState (if is_child r then tw_id r else EmptyString) (tw_status r) (tw_agent r).

Definition liveThreads (rows : list trow) (sid sessionStatus : string) : list threadState :=
  match map state_of (merge_sort trow_le (filter (fun r => live_row sid r = true) rows)) with
  | [] => [MkThreadState EmptyString sessionStatus EmptyString]
  | out => out
  end.

(** ** The batch *)

(** What is left of the batch: its events, the marks of the interrupts that name a thread,
    and, when results left it, the place each event had in the batch as sent. *)
Record received := MkReceived {
  rc_echoed : list NewEvent;
  rc_events : list NewEvent;
  rc_scoped : list bool;
  rc_sent : option (list nat);
}.

(** The loop over the batch as sent. *)
Fixpoint drop_results (d : ResultDrops) (i : nat) (evs : list NewEvent) (scoped : list bool)
  : result intake_error (list (NewEvent * bool * nat)) :=
  match evs, scoped with
  | ev :: evs', sc :: scoped' =>
      if String.eqb (n_type ev) EventSystemMessage && (0 <? i)%nat && bool_decide ((i - 1)%nat ∈ d_Answered d)
      then Err (SystemBehindResolved i)
      else if bool_decide (i ∈ d_Answered d) then drop_results d (S i) evs' scoped'
      else if bool_decide (is_Some (d_Doubled d !! i)) then drop_results d (S i) evs' scoped'
      else try rest <- drop_results d (S i) evs' scoped'; Ok ((ev, sc, i) :: rest)
  | _, _ => Ok []
  end.

Definition nothing_dropped (d : ResultDrops) : bool := bool_decide (d_Answered d = []) && bool_decide (d_Doubled d = ∅).

(** From the raw events to the batch that is left; [None]: nothing is, and the answer is an
    empty list with the session as it was. *)
Definition Receive (envKind : string) (cred : Credential) (outcomeIDs : nat -> string) (db : ldb) (rows : list trow)
    (sid : string) (platformExecuted : string -> bool) (raws : list json) : result intake_error (option received) :=
  match NormalizeInbound envKind cred outcomeIDs raws with
  | Err (AtEvent _ CredentialRequired) => Err Forbidden
  | Err e => Err (Invalid e)
  | Ok newEvents =>
      match ValidateToolResults db sid newEvents platformExecuted with
      | Err e => Err (CheckError e)
      | Ok drops =>
          match ValidateToolConfirmations db sid newEvents with
          | Err e => Err (CheckError e)
          | Ok _ =>
              match RouteInbound db (heads rows) sid newEvents with
              | Err e => Err (RouteError e)
              | Ok (newEvents, scoped) =>
                  if nothing_dropped drops then Ok (Some (MkReceived newEvents newEvents scoped None))
                  else
                    try kept <- drop_results drops 0 newEvents scoped;
                    match kept with
                    | [] => Ok None
                    | _ => Ok (Some (MkReceived newEvents (map (fun k => k.1.1) kept) (map (fun k => k.1.2) kept)
                                      (Some (map snd kept))))
                    end
              end
          end
      end
  end.

(** ** What the batch does to each thread *)

Record addressed := MkAddressed { ad_interrupt : bool; ad_confirmation : bool; ad_toolResult : bool }.

Definition unaddressed : addressed := MkAddressed false false false.

Definition at_ (addr : gmap string addressed) (tid : string) : addressed := default unaddressed (addr !! tid).

Definition mark_interrupt (addr : gmap string addressed) (tid : string) : gmap string addressed :=
  <[tid := MkAddressed true (ad_confirmation (at_ addr tid)) (ad_toolResult (at_ addr tid))]> addr.

Record reach := MkReach { re_addr : gmap string addressed; re_user : bool; re_interrupt : bool; re_all : bool }.

Definition address_one (r : reach) (e : NewEvent * bool) : reach :=
  let '(ev, scoped) := e in
  let a := at_ (re_addr r) (n_thread ev) in
  if String.eqb (n_type ev) EventUserMessage then MkReach (re_addr r) true (re_interrupt r) (re_all r)
  else if String.eqb (n_type ev) EventUserToolResult || String.eqb (n_type ev) EventUserCustomToolRes then
    MkReach (<[n_thread ev := MkAddressed (ad_interrupt a) (ad_confirmation a) true]> (re_addr r))
      (re_user r) (re_interrupt r) (re_all r)
  else if String.eqb (n_type ev) EventUserToolConfirm then
    MkReach (<[n_thread ev := MkAddressed (ad_interrupt a) true (ad_toolResult a)]> (re_addr r))
      (re_user r) (re_interrupt r) (re_all r)
  else if String.eqb (n_type ev) EventUserInterrupt then
    if scoped then MkReach (mark_interrupt (re_addr r) (n_thread ev)) (re_user r) true (re_all r)
    else MkReach (re_addr r) (re_user r) true true
  else r.

(** The loop over the batch, and the two spellings of a session-wide interrupt. *)
Definition Reach (evs : list NewEvent) (scoped : list bool) (threads : list threadState) : reach :=
  let r := foldl address_one (MkReach ∅ false false false) (zip evs scoped) in
  if re_all r then MkReach (foldl mark_interrupt (re_addr r) (map ts_id threads)) (re_user r) (re_interrupt r) true
  else if re_interrupt r then
    MkReach (re_addr r) (re_user r) true (forallb (fun th => ad_interrupt (at_ (re_addr r) (ts_id th))) threads)
  else r.

(** [primaryStatus]: the primary's own, the session's where it is not live. *)
Definition primaryStatus (threads : list threadState) (status : string) : string :=
  foldl (fun st th => if String.eqb (ts_id th) EmptyString then ts_status th else st) status threads.

(** The gate on work sent to a primary that rests on a response; the flow it reads. *)
Definition CheckAwaited (envKind : string) (db : ldb) (sid : string) (platformExecuted : string -> bool)
    (threads : list threadState) (status : string) (b : received) : result intake_error (option ToolFlow) :=
  if String.eqb (primaryStatus threads status) "idle" && existsb is_work (rc_events b) then
    match ThreadWaits db sid EmptyString envKind platformExecuted with
    | Err e => Err (CheckError e)
    | Ok (flow, awaited) =>
        let reaches i :=
          negb (default false (rc_scoped b !! i)) ||
          match rc_events b !! i with Some ev => String.eqb (n_thread ev) EmptyString | None => false end in
        match CheckWhileAwaiting awaited (rc_events b) reaches with
        | Some e =>
            Err (WhileAwaiting (MkWhile (wa_Type e)
                   (match rc_sent b with Some sent => default O (sent !! wa_Index e) | None => wa_Index e end) (wa_IDs e)))
        | None => Ok (Some flow)
        end
    end
  else Ok None.

(** The posted interrupt a thread's arm answers to: the first received of those that
    reach it.  [-1] where none does. *)
Definition session_wide (evs : list NewEvent) (scoped : list bool) : option nat :=
  option_map fst (list_find (fun e : NewEvent * bool => String.eqb (n_type e.1) EventUserInterrupt && negb e.2 = true) (zip evs scoped)).

Definition named_at (evs : list NewEvent) (scoped : list bool) (tid : string) : option nat :=
  option_map fst (list_find (fun e : NewEvent * bool =>
    String.eqb (n_type e.1) EventUserInterrupt && e.2 && String.eqb (n_thread e.1) tid = true) (zip evs scoped)).

Definition interruptAt (evs : list NewEvent) (scoped : list bool) (tid : string) : Z :=
  match named_at evs scoped tid, session_wide evs scoped with
  | Some i, None => Z.of_nat i
  | Some i, Some w => if (i <? w)%nat then Z.of_nat i else Z.of_nat w
  | None, Some w => Z.of_nat w
  | None, None => -1
  end.
