(* ===== verification/IntakeSpec.v ===== *)
(** * IntakeSpec: what the rest of a send may rely on. *)
From Stdlib Require Import Lia.
From S2P Require Import Prelude GoStrings Ids Json Domain Consumption Log LogSpec ToolQuery ToolSpec ToolFlow Inbound InboundSpec Intake.

(** The confirmation's call. *)
Definition confirm_ref (ev : NewEvent) : option string :=
  if String.eqb (n_type ev) EventUserToolConfirm then payloadString (n_payload ev) "tool_use_id" else None.

(** An answer on the thread of the call it names, shown where the call is. *)
Definition beside (ev : NewEvent) (tu : erow) : Prop := n_thread ev = e_thread tu /\ n_cross ev = e_cross tu.

(** A confirmation that may land: an ask nobody has confirmed, of a call nothing answers. *)
Definition confirmable (db : ldb) (sid ref : string) (tu : erow) : Prop :=
  find_event db sid ref = Some tu /\ mem_string (e_type tu) confirmableToolUseTypes = true /\
  text_or tu "evaluated_permission" EmptyString = EvalPermAsk /\
  existsb (confirms sid ref) (l_events db) = false /\ answeredBy db sid tu = false.

(** ** Confirmations *)

Lemma find_unique (p q : erow -> bool) l tu : NoDup (map e_id l) -> (forall e, q e = true -> p e = true) ->
  (forall a b, p a = true -> p b = true -> e_id a = e_id b) -> find q l = Some tu -> find p l = Some tu.
Proof.
  intros Hnd Hqp Hid. induction l as [|e l IH]; [done|]. cbn [find map] in *. apply NoDup_cons in Hnd as [Hn Hnd].
  destruct (q e) eqn:Eq; [intros [= ->]; by rewrite (Hqp _ Eq)|]. intros Hf. destruct (p e) eqn:Ep; [|by apply IH].
  exfalso. apply find_some in Hf as [Hin Hq]. apply Hn. rewrite (Hid e tu Ep (Hqp _ Hq)).
  apply list_elem_of_fmap. exists tu. split; [done|]. by apply list_elem_of_In.
Qed.

Lemma validate_confirmations_spec db sid (Hids : NoDup (map e_id (l_events db))) : forall evs i seen,
  validate_confirmations db sid i seen evs = Ok tt ->
  NoDup (omap confirm_ref evs) /\
  forall ev, ev ∈ evs -> n_type ev = EventUserToolConfirm ->
    exists ref tu, confirm_ref ev = Some ref /\ (ref ∉ seen) /\ confirmable db sid ref tu.
Proof.
  induction evs as [|ev evs IH]; intros i seen; cbn [validate_confirmations omap list_omap].
  { intros _. split; [constructor|]. by intros ev ?%not_elem_of_nil. }
  unfold confirm_ref at 1. destruct (String.eqb_spec (n_type ev) EventUserToolConfirm) as [Ht|Ht]; cbn [negb].
  2:{ intros H. destruct (IH _ _ H) as [H1 H2]. split; [done|]. intros e [-> | He]%elem_of_cons; [done|auto]. }
  destruct (payloadString (n_payload ev) "tool_use_id") as [ref|] eqn:Er; [|done].
  destruct (mem_string ref seen) eqn:Em; [done|].
  destruct (find _ (l_events db)) as [tu|] eqn:Ef; [|done].
  destruct (String.eqb_spec (text_or tu "evaluated_permission" EmptyString) EvalPermAsk) as [Hp|]; cbn [negb]; [|done].
  destruct (existsb (confirms sid ref) (l_events db)) eqn:Ec; [done|].
  destruct (answeredBy db sid tu) eqn:Ea; [done|]. intros H. destruct (IH _ _ H) as [H1 H2].
  assert (Hc : confirmable db sid ref tu).
  { split_and!; try done; [|apply find_some in Ef as [_ Hq]; by bool_prop]. unfold find_event.
    revert Ef. apply find_unique; [done| |].
    - intros e [[Hs Hi]%andb_true_iff _]%andb_true_iff. by rewrite Hs, Hi.
    - intros a b [_ Ha%String.eqb_eq]%andb_true_iff [_ Hb%String.eqb_eq]%andb_true_iff. congruence. }
  split.
  - constructor; [|done]. intros (e & He & Hre)%list_elem_of_omap.
    assert (Hte : n_type e = EventUserToolConfirm).
    { unfold confirm_ref in Hre. by destruct (String.eqb_spec (n_type e) EventUserToolConfirm). }
    destruct (H2 e He Hte) as (r & ? & Hr & Hn & _). rewrite Hre in Hr. injection Hr as <-. apply Hn. left.
  - intros e [-> | He]%elem_of_cons Hte.
    + exists ref, tu. split_and!; [by unfold confirm_ref; rewrite Ht, String.eqb_refl| |done].
      intros Hin. apply mem_string_spec in Hin. congruence.
    + destruct (H2 e He Hte) as (r & tu' & ? & Hn & ?). exists r, tu'. split_and!; [done| |done].
      by intros ?; apply Hn; right.
Qed.

(** ** Routing *)

(** Where one event goes, and whether it names a thread. *)
Definition routed (db : ldb) (rows : list trow) (sid : string) (ev0 ev : NewEvent) (scoped : bool) : Prop :=
  ev = with_route ev0 (n_thread ev) (n_cross ev) /\
  if is_answer_type (n_type ev0) then
    scoped = false /\ exists ref tu, payloadString (n_payload ev0) (answer_key (n_type ev0)) = Some ref /\
      find_event db sid ref = Some tu /\ beside ev tu
  else if String.eqb (n_type ev0) EventUserInterrupt then
    (scoped = false /\ n_thread ev0 = EmptyString /\ ev = ev0) \/
    (scoped = true /\ n_thread ev0 = PrimaryThreadID sid /\ n_thread ev = EmptyString /\ n_cross ev = n_cross ev0) \/
    (scoped = true /\ n_thread ev = n_thread ev0 /\ n_cross ev = true /\
     exists r, r ∈ rows /\ tw_id r = n_thread ev /\ live_row sid r = true)
  else scoped = false /\ ev = ev0.

Lemma with_route_same ev : ev = with_route ev (n_thread ev) (n_cross ev).
Proof. by destruct ev. Qed.

Lemma heads_lookup rows id h : heads rows !! id = Some h ->
  exists r, r ∈ rows /\ tw_id r = id /\ h = MkHead (tw_session r) (tw_archived r) (tw_status r).
Proof.
  intros (r & [= -> ->] & Hr)%elem_of_list_to_map_2%list_elem_of_fmap. by exists r.
Qed.

Lemma route_one_spec db rows sid i ev0 ev scoped : route_one db (heads rows) sid i ev0 = Ok (ev, scoped) ->
  routed db rows sid ev0 ev scoped.
Proof.
  unfold route_one, routed. destruct (is_answer_type (n_type ev0)).
  { destruct (payloadString _ _) as [ref|]; [|done]. destruct (find_event db sid ref) as [tu|] eqn:Ef; [|done].
    intros [= <- <-]. split; [done|]. split; [done|]. by exists ref, tu. }
  destruct (String.eqb (n_type ev0) EventUserInterrupt).
  2:{ intros [= <- <-]. split; [apply with_route_same|done]. }
  destruct (String.eqb_spec (n_thread ev0) EmptyString) as [He|_].
  { intros [= <- <-]. split; [apply with_route_same|]. by left. }
  destruct (String.eqb_spec (n_thread ev0) (PrimaryThreadID sid)) as [Hp|_].
  { intros [= <- <-]. split; [done|]. right. left. done. }
  destruct (heads rows !! n_thread ev0) as [h|] eqn:Eh; [|done].
  destruct (heads_lookup _ _ _ Eh) as (r & Hr & Hid & ->). cbn [th_session th_archived th_status].
  destruct (String.eqb (tw_session r) sid) eqn:Es; [|done]. cbn [negb].
  destruct (tw_archived r) eqn:Ea; [by rewrite bool_decide_true|]. rewrite bool_decide_false by by intros [].
  destruct (String.eqb (tw_status r) "terminated") eqn:Et; [done|]. intros [= <- <-]. split; [done|].
  right. right. split_and!; [done..|]. exists r. split_and!; [done..|]. unfold live_row. by rewrite Es, Ea, Et, bool_decide_true.
Qed.

Lemma route_from_spec db rows sid : forall evs i out marks, route_from db (heads rows) sid i evs = Ok (out, marks) ->
  length out = length evs /\ length marks = length evs /\
  forall j ev0 ev m, evs !! j = Some ev0 -> out !! j = Some ev -> marks !! j = Some m -> routed db rows sid ev0 ev m.
Proof.
  induction evs as [|ev0 evs IH]; intros i out marks; cbn [route_from].
  { intros [= <- <-]. split_and!; [done..|]. by intros ? ? ? ?. }
  destruct (route_one db (heads rows) sid i ev0) as [[ev m]|] eqn:E1; [|done].
  destruct (route_from db (heads rows) sid (S i) evs) as [[out' marks']|] eqn:E2; [|done]. intros [= <- <-].
  destruct (IH _ _ _ E2) as (H1 & H2 & H3). split_and!; [cbn; by f_equal..|].
  intros [|j] e0 e m'; cbn; [|apply H3]. intros [= <-] [= <-] [= <-]. by eapply route_one_spec.
Qed.

(** ** The results that leave *)

(** The events [ToolSpec.kept] keeps, with their marks. *)
Lemma drop_results_spec d : forall evs scoped i k, length scoped = length evs -> drop_results d i evs scoped = Ok k ->
  map (fun x => x.1.1) k = kept d i evs /\
  forall ev m j, (ev, m, j) ∈ k -> (i <= j)%nat /\ evs !! (j - i)%nat = Some ev /\ scoped !! (j - i)%nat = Some m /\ dropped d j = false.
Proof.
  induction evs as [|ev evs IH]; intros [|m scoped] i k Hlen; try done; cbn [drop_results kept].
  { intros [= <-]. split; [done|]. by intros ? ? ? ?%not_elem_of_nil. }
  destruct (_ && bool_decide _); [done|]. injection Hlen as Hlen. unfold dropped at 1.
  assert (Hskip : forall k, drop_results d (S i) evs scoped = Ok k -> forall ev' m' j, (ev', m', j) ∈ k ->
    (i <= j)%nat /\ (ev :: evs) !! (j - i)%nat = Some ev' /\ (m :: scoped) !! (j - i)%nat = Some m' /\ dropped d j = false).
  { intros k' Hk ev' m' j Hin. destruct (proj2 (IH _ _ _ Hlen Hk) ev' m' j Hin) as (Hj & H1 & H2 & H3).
    replace (j - i)%nat with (S (j - S i))%nat by lia. cbn. split_and!; [lia|done..]. }
  destruct (bool_decide (i ∈ d_Answered d)) eqn:E1; cbn [orb].
  { intros H. split; [by apply (IH _ _ _ Hlen)|by apply Hskip]. }
  destruct (bool_decide (is_Some (d_Doubled d !! i))) eqn:E2.
  { intros H. split; [by apply (IH _ _ _ Hlen)|by apply Hskip]. }
  destruct (drop_results d (S i) evs scoped) as [rest|] eqn:E3; [|done]. intros [= <-]. split.
  - cbn [map fst]. f_equal. by apply (IH _ _ _ Hlen).
  - intros ev' m' j [[= -> -> ->] | Hin]%elem_of_cons.
    + rewrite Nat.sub_diag. split_and!; [done..|]. unfold dropped. by rewrite E1, E2.
    + by eapply Hskip.
Qed.

Lemma kept_nothing d evs i : nothing_dropped d = true -> kept d i evs = evs.
Proof.
  unfold nothing_dropped. intros [Ha%bool_decide_eq_true Hd%bool_decide_eq_true]%andb_true_iff.
  revert i. induction evs as [|ev evs IH]; intros i; cbn [kept]; [done|].
  assert (Hno : dropped d i = false).
  { unfold dropped. rewrite Ha, Hd, lookup_empty. by rewrite !bool_decide_false by (by apply not_elem_of_nil || by intros []). }
  by rewrite Hno, IH.
Qed.

(** Routing changes neither what an event is nor what it says, so it keeps the same ones. *)
Lemma kept_routed d : forall evs out i, Forall2 (fun ev0 ev => n_type ev = n_type ev0 /\ n_payload ev = n_payload ev0) evs out ->
  Forall2 (fun ev0 ev => n_type ev = n_type ev0 /\ n_payload ev = n_payload ev0) (kept d i evs) (kept d i out).
Proof. intros evs out i H. revert i. induction H; intros i; cbn [kept]; [constructor|]. destruct (dropped d i); [done|by constructor]. Qed.

Lemma omap_routed {B} (f : NewEvent -> option B) evs out :
  (forall a b, n_type b = n_type a -> n_payload b = n_payload a -> f b = f a) ->
  Forall2 (fun ev0 ev => n_type ev = n_type ev0 /\ n_payload ev = n_payload ev0) evs out -> omap f out = omap f evs.
Proof.
  intros Hf. induction 1 as [|a b l k [Ht Hp] _ IH]; [done|]. cbn [omap list_omap]. rewrite (Hf a b Ht Hp). by rewrite IH.
Qed.

Lemma ref_opt_same a b : n_type b = n_type a -> n_payload b = n_payload a -> ref_opt b = ref_opt a.
Proof. unfold ref_opt, is_tool_result. by intros -> ->. Qed.

Lemma confirm_ref_same a b : n_type b = n_type a -> n_payload b = n_payload a -> confirm_ref b = confirm_ref a.
Proof. unfold confirm_ref. by intros -> ->. Qed.

(** ** The front half *)

Lemma Receive_inv env cred oids db rows sid po raws b : Receive env cred oids db rows sid po raws = Ok (Some b) ->
  exists evs d out marks,
    NormalizeInbound env cred oids raws = Ok evs /\ ValidateToolResults db sid evs po = Ok d /\
    ValidateToolConfirmations db sid evs = Ok tt /\ RouteInbound db (heads rows) sid evs = Ok (out, marks) /\
    rc_events b = kept d 0 out /\ length (rc_scoped b) = length (rc_events b) /\
    forall j ev m, rc_events b !! j = Some ev -> rc_scoped b !! j = Some m -> exists i, out !! i = Some ev /\ marks !! i = Some m.
Proof.
  unfold Receive. destruct (NormalizeInbound env cred oids raws) as [evs|e]; [|by destruct e as [| | | |? []| | | | | | | | | | | | | | | |]].
  destruct (ValidateToolResults db sid evs po) as [d|] eqn:Ev; [|done].
  destruct (ValidateToolConfirmations db sid evs) as [[]|] eqn:Ec; [|done].
  destruct (RouteInbound db (heads rows) sid evs) as [[out marks]|] eqn:Er; [|done].
  pose proof (route_from_spec _ _ _ _ _ _ _ Er) as (Hlo & Hlm & _).
  destruct (nothing_dropped d) eqn:En.
  { intros [= <-]. exists evs, d, out, marks. split_and!; [done..|by rewrite kept_nothing| |].
    - cbn. congruence.
    - intros j ev m H1 H2. by exists j. }
  destruct (drop_results d 0 out marks) as [k|] eqn:Ek; [|done].
  destruct (drop_results_spec d out marks 0 k ltac:(congruence) Ek) as [Hk Hin].
  destruct k as [|x k]; [done|]. intros [= <-]. exists evs, d, out, marks. split_and!; [done..|exact (eq_trans (eq_refl _) Hk)| |].
  - cbn [rc_scoped rc_events]. cbn [length]. f_equal. clear. by induction k; cbn; [|f_equal].
  - cbn [rc_scoped rc_events]. intros j ev m.
    change (((fun y : NewEvent * bool * nat => y.1.1) <$> (x :: k)) !! j = Some ev ->
            ((fun y : NewEvent * bool * nat => y.1.2) <$> (x :: k)) !! j = Some m -> exists i, out !! i = Some ev /\ marks !! i = Some m).
    rewrite !list_lookup_fmap. destruct ((x :: k) !! j) as [[[ev' m'] p]|] eqn:Ej; [|done].
    cbn. intros [= <-] [= <-]. destruct (Hin _ _ _ (list_elem_of_lookup_2 _ _ _ Ej)) as (_ & H1 & H2 & _). by exists (p - 0)%nat.
Qed.

Lemma routed_same db rows sid ev0 ev m : routed db rows sid ev0 ev m -> n_type ev = n_type ev0 /\ n_payload ev = n_payload ev0.
Proof. intros [H _]. by rewrite H. Qed.

Lemma Routes_Forall2 db rows sid evs out marks : RouteInbound db (heads rows) sid evs = Ok (out, marks) ->
  Forall2 (fun ev0 ev => n_type ev = n_type ev0 /\ n_payload ev = n_payload ev0) evs out.
Proof.
  intros Hr. destruct (route_from_spec _ _ _ _ _ _ _ Hr) as (Hlo & Hlm & Hrt). apply Forall2_same_length_lookup.
  split; [done|]. intros j ev0 ev H0 H1. destruct (lookup_lt_is_Some_2 marks j) as [m Hm].
  { apply lookup_lt_Some in H0. lia. }
  eapply routed_same, (Hrt j ev0 ev m); done.
Qed.

(** An answer that is left is beside the call it names, and the call is open to it. *)
Definition answer_open (db : ldb) (sid : string) (po : string -> bool) (ev : NewEvent) : Prop :=
  (is_tool_result ev = true -> exists ref tu, ref_opt ev = Some ref /\ find_event db sid ref = Some tu /\
     lands db sid po ev ref /\ beside ev tu) /\
  (n_type ev = EventUserToolConfirm -> exists ref tu, confirm_ref ev = Some ref /\ confirmable db sid ref tu /\ beside ev tu).

Lemma result_answer ev : is_tool_result ev = true -> is_answer_type (n_type ev) = true /\ answer_key (n_type ev) = resultRefKey (n_type ev).
Proof.
  unfold is_tool_result, answer_key, is_answer_type. destruct (String.eqb _ EmptyString) eqn:E; [done|]. intros _. split; [|done].
  revert E. unfold resultRefKey. destruct (String.eqb_spec (n_type ev) EventUserToolResult) as [->|_]; [done|].
  by destruct (String.eqb_spec (n_type ev) EventUserCustomToolRes) as [->|_].
Qed.

Lemma lands_same db sid po a b ref : n_type b = n_type a -> lands db sid po a ref -> lands db sid po b ref.
Proof. unfold lands, use_of. by intros ->. Qed.

Lemma open_from db rows sid po evs d out marks (Hids : NoDup (map e_id (l_events db))) :
  ValidateToolResults db sid evs po = Ok d -> ValidateToolConfirmations db sid evs = Ok tt ->
  RouteInbound db (heads rows) sid evs = Ok (out, marks) ->
  NoDup (omap ref_opt (kept d 0 out)) /\ NoDup (omap confirm_ref out) /\ Forall (answer_open db sid po) (kept d 0 out).
Proof.
  intros Hv Hc Hr. pose proof (Routes_Forall2 _ _ _ _ _ _ Hr) as Hsame.
  destruct (validate_results_spec db sid po evs 0 ∅ (MkDrops [] ∅) d) as (_ & Hnd & Hland); [|exact Hv|].
  { intros j H. unfold dropped in H. cbn [d_Answered d_Doubled] in H. rewrite lookup_empty in H.
    by rewrite bool_decide_false in H by (by apply not_elem_of_nil). }
  destruct (validate_confirmations_spec db sid Hids evs 0 [] Hc) as [Hcn Hconf].
  pose proof (kept_routed d _ _ 0 Hsame) as Hkept.
  split; [by rewrite (omap_routed _ _ _ ref_opt_same Hkept)|].
  split; [by rewrite (omap_routed _ _ _ confirm_ref_same Hsame)|].
  destruct (route_from_spec _ _ _ _ _ _ _ Hr) as (Hlo & Hlm & Hrt).
  apply Forall_forall. intros ev He. pose proof (kept_sub _ _ _ _ He) as Hout.
  apply list_elem_of_lookup in Hout as [j Hj]. destruct (lookup_lt_is_Some_2 evs j) as [ev0 H0]; [apply lookup_lt_Some in Hj; lia|].
  destruct (lookup_lt_is_Some_2 marks j) as [m Hm]; [apply lookup_lt_Some in Hj; lia|].
  pose proof (Hrt _ _ _ _ H0 Hj Hm) as Hroute. destruct (routed_same _ _ _ _ _ _ Hroute) as [Ht Hp]. destruct Hroute as [_ Hroute].
  split.
  - intros Hyes. apply list_elem_of_lookup in He as [i Hi]. destruct (Forall2_lookup_r _ _ _ _ _ Hkept Hi) as (a & Ha & Hta & Hpa).
    assert (Hyes' : is_tool_result a = true) by (unfold is_tool_result in *; congruence).
    destruct (Hland a (list_elem_of_lookup_2 _ _ _ Ha) Hyes') as (ref & Href & _ & Hl).
    rewrite <- (ref_opt_same a ev Hta Hpa) in Href. pose proof Href as Hpay. unfold ref_opt in Hpay. rewrite Hyes in Hpay.
    destruct (result_answer ev Hyes) as [Hans Hkey]. rewrite <- Ht, Hans in Hroute. destruct Hroute as (_ & r & tu & Hr' & Hf & Hb).
    rewrite Hkey, <- Hp, Hpay in Hr'. injection Hr' as <-. exists ref, tu. split_and!; [done..| |done].
    by eapply lands_same.
  - intros Hty. assert (Hin : ev0 ∈ evs) by by eapply list_elem_of_lookup_2.
    destruct (Hconf ev0 Hin ltac:(congruence)) as (ref & tu & Href & _ & Hcf). rewrite <- (confirm_ref_same ev0 ev Ht Hp) in Href.
    exists ref, tu. split_and!; [done..|]. rewrite <- Ht, Hty in Hroute. destruct Hroute as (_ & r & tu' & Hr' & Hf & Hb).
    unfold confirm_ref in Href. rewrite Hty, Hp in Href. assert (Hrr : r = ref).
    { assert (Some r = Some ref) as [= ->]; [|done]. rewrite <- Href. symmetry. exact Hr'. }
    subst r. destruct Hcf as (Hf' & _). rewrite Hf in Hf'. injection Hf' as ->. done.
Qed.

(** No call is both answered and confirmed by one send. *)
Lemma open_disjoint db sid po evs : Forall (answer_open db sid po) evs -> forall ref,
  ref ∈ omap ref_opt evs -> ref ∉ omap confirm_ref evs.
Proof.
  intros Hall ref (a & Ha & Hra)%list_elem_of_omap (b & Hb & Hrb)%list_elem_of_omap. rewrite Forall_forall in Hall.
  assert (Hya : is_tool_result a = true) by (unfold ref_opt in Hra; by destruct (is_tool_result a)).
  assert (Htb : n_type b = EventUserToolConfirm) by (unfold confirm_ref in Hrb; by destruct (String.eqb_spec (n_type b) EventUserToolConfirm)).
  destruct (proj1 (Hall a Ha) Hya) as (r & tu & Hr & Hf & (tu' & Hf' & _ & _ & _ & Hask) & _).
  destruct (proj2 (Hall b Hb) Htb) as (r' & tu'' & Hr' & (Hf'' & _ & Hperm & Hno & _) & _).
  assert (r = ref) as -> by congruence. assert (r' = ref) as -> by congruence. assert (tu' = tu'') as -> by congruence.
  specialize (Hask Hperm). apply existsb_exists in Hask as (c & Hc & Hal). apply not_true_iff_false in Hno. apply Hno, existsb_exists.
  exists c. split; [done|]. unfold allows in Hal. by apply andb_true_iff in Hal as [? _].
Qed.

(** C18: what the rest of a send may rely on.  Whatever a client posts, the batch that is let
    in is made of validated events, each routed (an interrupt that names a thread names a
    live one of the session); every answer in it stands on the thread of the call it names
    and shows where the call does; and no call has two answers in it: each result's call is
    unanswered, not the platform's own, and allowed if it asked; each confirmation's call is
    an open ask; and all of them are different calls.  (Event ids are the table's key.) *)
Theorem Receive_sound (envKind : string) (cred : Credential) (outcomeIDs : nat -> string) (db : ldb) (rows : list trow)
    (sid : string) (po : string -> bool) (raws : list json) (b : received)
    (Hids : NoDup (map e_id (l_events db)))
    (Hrecv : Receive envKind cred outcomeIDs db rows sid po raws = Ok (Some b)) :
  length (rc_scoped b) = length (rc_events b) /\
  (forall j ev m, rc_events b !! j = Some ev -> rc_scoped b !! j = Some m ->
     exists ev0, accepted envKind cred ev0 /\ storable ev0 /\ routed db rows sid ev0 ev m) /\
  Forall (answer_open db sid po) (rc_events b) /\
  NoDup (omap ref_opt (rc_events b) ++ omap confirm_ref (rc_events b)).
Proof.
  apply Receive_inv in Hrecv as (evs & d & out & marks & Hn & Hv & Hc & Hr & Hb & Hlen & Hpos).
  destruct (open_from _ _ _ _ _ _ _ _ Hids Hv Hc Hr) as (Hnd & Hcnd & Hopen). rewrite <- Hb in Hnd, Hopen.
  split; [done|]. split; [|split; [done|]].
  - intros j ev m Hj Hm. destruct (Hpos j ev m Hj Hm) as (i & Hi & Hmi).
    destruct (route_from_spec _ _ _ _ _ _ _ Hr) as (Hlo & _ & Hrt).
    destruct (lookup_lt_is_Some_2 evs i) as [ev0 H0]; [apply lookup_lt_Some in Hi; lia|]. exists ev0.
    unfold NormalizeInbound, normalizeBatch in Hn. destruct raws as [|raw raws]; [done|].
    apply normalize_from_spec in Hn as (_ & Hall & _); [|done]. rewrite Forall_lookup in Hall.
    destruct (Hall i ev0 H0) as [Ha Hs]. split_and!; [done..|]. by eapply Hrt.
  - apply NoDup_app. split_and!; [done|by eapply open_disjoint|].
    rewrite Hb. clear -Hcnd. generalize O at 1. induction out as [|ev out IH]; intros i; cbn [kept]; [constructor|].
    cbn [omap list_omap] in Hcnd. destruct (dropped d i).
    + apply IH. destruct (confirm_ref ev); [by apply NoDup_cons in Hcnd as [_ ?]|done].
    + cbn [omap list_omap]. destruct (confirm_ref ev) as [r|]; [|by apply IH]. apply NoDup_cons in Hcnd as [Hno Hcnd].
      constructor; [|by apply IH]. intros (e & He & Hre)%list_elem_of_omap. apply Hno, list_elem_of_omap.
      exists e. split; [by eapply kept_sub|done].
Qed.

(** ** Interrupts *)

(** An interrupt of the batch reaches a thread: it names it, or it names none. *)
Definition reaches (evs : list NewEvent) (scoped : list bool) (tid : string) : bool :=
  existsb (fun e : NewEvent * bool => String.eqb (n_type e.1) EventUserInterrupt && (negb e.2 || String.eqb (n_thread e.1) tid)) (zip evs scoped).

Lemma at_insert addr t a tid : at_ (<[t := a]> addr) tid = if String.eqb t tid then a else at_ addr tid.
Proof.
  unfold at_. destruct (String.eqb_spec t tid) as [->|Hne]; [by rewrite lookup_insert_eq|by rewrite lookup_insert_ne].
Qed.

Lemma mark_interrupt_at addr t tid : ad_interrupt (at_ (mark_interrupt addr t) tid) = String.eqb t tid || ad_interrupt (at_ addr tid).
Proof. unfold mark_interrupt. rewrite at_insert. by destruct (String.eqb t tid). Qed.

Lemma mark_all_at l : forall addr tid,
  ad_interrupt (at_ (foldl mark_interrupt addr l) tid) = mem_string tid l || ad_interrupt (at_ addr tid).
Proof.
  induction l as [|t l IH]; intros addr tid; cbn [foldl]; [done|]. rewrite IH, mark_interrupt_at.
  unfold mem_string. cbn [existsb]. rewrite (String.eqb_sym t tid). by rewrite orb_assoc, (orb_comm (existsb _ _)).
Qed.

(** What the loop over the batch has found. *)
Lemma address_fold l : forall r, let r' := foldl address_one r l in
  (forall tid, ad_interrupt (at_ (re_addr r') tid) =
     ad_interrupt (at_ (re_addr r) tid) ||
     existsb (fun e : NewEvent * bool => String.eqb (n_type e.1) EventUserInterrupt && (e.2 && String.eqb (n_thread e.1) tid)) l) /\
  re_interrupt r' = re_interrupt r || existsb (fun e : NewEvent * bool => String.eqb (n_type e.1) EventUserInterrupt) l /\
  re_all r' = re_all r || existsb (fun e : NewEvent * bool => String.eqb (n_type e.1) EventUserInterrupt && negb e.2) l.
Proof.
  induction l as [|[ev m] l IH]; intros r; cbn [foldl existsb fst snd].
  { rewrite !orb_false_r. split_and!; [intros tid; by rewrite orb_false_r|done..]. }
  destruct (IH (address_one r (ev, m))) as (H1 & H2 & H3). cbv zeta.
  assert (Hstep : (forall tid, ad_interrupt (at_ (re_addr (address_one r (ev, m))) tid) =
      ad_interrupt (at_ (re_addr r) tid) || (String.eqb (n_type ev) EventUserInterrupt && (m && String.eqb (n_thread ev) tid))) /\
    re_interrupt (address_one r (ev, m)) = re_interrupt r || String.eqb (n_type ev) EventUserInterrupt /\
    re_all (address_one r (ev, m)) = re_all r || (String.eqb (n_type ev) EventUserInterrupt && negb m)).
  { unfold address_one.
    destruct (String.eqb_spec (n_type ev) EventUserMessage) as [->|_].
    { cbn. rewrite !orb_false_r. split_and!; [intros tid; by rewrite orb_false_r|done..]. }
    destruct (String.eqb (n_type ev) EventUserToolResult || String.eqb (n_type ev) EventUserCustomToolRes) eqn:Et.
    { assert (String.eqb (n_type ev) EventUserInterrupt = false) as ->.
      { apply orb_true_iff in Et as [->%String.eqb_eq | ->%String.eqb_eq]; done. }
      cbn [re_addr re_interrupt re_all andb]. rewrite !orb_false_r. split_and!; [|done..]. intros tid. rewrite at_insert, orb_false_r.
      by destruct (String.eqb_spec (n_thread ev) tid) as [->|_]. }
    destruct (String.eqb_spec (n_type ev) EventUserToolConfirm) as [->|_].
    { cbn [re_addr re_interrupt re_all]. change (String.eqb EventUserToolConfirm EventUserInterrupt) with false. cbn [andb].
      rewrite !orb_false_r. split_and!; [|done..]. intros tid. rewrite at_insert, orb_false_r.
      by destruct (String.eqb_spec (n_thread ev) tid) as [->|_]. }
    destruct (String.eqb (n_type ev) EventUserInterrupt); cbn [andb].
    - destruct m; cbn [re_addr re_interrupt re_all negb andb]; rewrite ?orb_true_r, ?orb_false_r; split_and!; try done.
      + intros tid. by rewrite mark_interrupt_at, orb_comm.
      + intros tid. by rewrite orb_false_r.
    - rewrite !orb_false_r. split_and!; [intros tid; by rewrite orb_false_r|done..]. }
  destruct Hstep as (Ha & Hb & Hc). rewrite H2, H3, Hb, Hc, <- !orb_assoc. split_and!; [|done..].
  intros tid. by rewrite H1, Ha, <- orb_assoc.
Qed.

Lemma existsb_split {A} (f g h : A -> bool) l : (forall x, f x = g x || h x) -> existsb f l = existsb g l || existsb h l.
Proof. intros H. induction l as [|x l IH]; cbn; [done|]. rewrite H, IH. by destruct (g x), (h x), (existsb g l). Qed.

Lemma reaches_split evs scoped tid : reaches evs scoped tid =
  existsb (fun e : NewEvent * bool => String.eqb (n_type e.1) EventUserInterrupt && negb e.2) (zip evs scoped) ||
  existsb (fun e : NewEvent * bool => String.eqb (n_type e.1) EventUserInterrupt && (e.2 && String.eqb (n_thread e.1) tid)) (zip evs scoped).
Proof. unfold reaches. apply existsb_split. intros [ev []]; cbn; by destruct (String.eqb _ EventUserInterrupt). Qed.

(** The first interrupt of the batch that reaches a thread. *)
Definition first_reach (evs : list NewEvent) (scoped : list bool) (tid : string) : option nat :=
  option_map fst (list_find (fun e : NewEvent * bool =>
    String.eqb (n_type e.1) EventUserInterrupt && (negb e.2 || String.eqb (n_thread e.1) tid) = true) (zip evs scoped)).

Lemma interruptAt_first evs : forall scoped tid,
  interruptAt evs scoped tid = match first_reach evs scoped tid with Some i => Z.of_nat i | None => -1 end.
Proof.
  unfold interruptAt, first_reach, named_at, session_wide. intros scoped tid. generalize (zip evs scoped). clear.
  intros l. induction l as [|[ev m] l IH]; cbn [list_find]; [done|]. cbn [fst snd] in *.
  revert IH. destruct (String.eqb (n_type ev) EventUserInterrupt), m, (String.eqb (n_thread ev) tid); cbn [andb negb orb];
    repeat case_decide; try congruence; cbn;
    repeat match goal with |- context [list_find ?P l] => destruct (list_find P l) as [[? ?]|]; cbn end;
    intros; repeat (case_match; bool_prop); lia.
Qed.

(** An interrupt does the same however it is spelled.  A live thread is interrupted
    exactly when some interrupt of the send reaches it, by name or by naming none; the send
    is a session-wide interrupt exactly when its interrupts reach every live thread, one by
    one or at once; and the arm of an interrupted thread answers to the first that reaches
    it. *)
Theorem Reach_interrupts (evs : list NewEvent) (scoped : list bool) (threads : list threadState)
    (Hlen : length scoped = length evs) :
  let r := Reach evs scoped threads in
  (forall tid, tid ∈ map ts_id threads -> ad_interrupt (at_ (re_addr r) tid) = reaches evs scoped tid) /\
  re_all r = existsb (fun ev => String.eqb (n_type ev) EventUserInterrupt) evs &&
             forallb (fun th => reaches evs scoped (ts_id th)) threads /\
  forall tid, interruptAt evs scoped tid = match first_reach evs scoped tid with Some i => Z.of_nat i | None => -1 end.
Proof.
  cbv zeta. split; [|split; [|intros tid; apply interruptAt_first]].
  all: unfold Reach; destruct (address_fold (zip evs scoped) (MkReach ∅ false false false)) as (H1 & H2 & H3).
  all: set (r := foldl address_one _ _) in *; cbn [re_addr re_interrupt re_all orb] in H1, H2, H3.
  all: assert (Hint : re_interrupt r = existsb (fun ev => String.eqb (n_type ev) EventUserInterrupt) evs)
    by (rewrite H2; clear -Hlen; revert scoped Hlen; induction evs as [|ev evs IH]; intros [|m scoped] Hlen; try done;
        cbn [zip zip_with existsb fst]; f_equal; apply IH; by injection Hlen).
  all: assert (Hno : forall tid, ad_interrupt (at_ (re_addr r) tid) =
      existsb (fun e : NewEvent * bool => String.eqb (n_type e.1) EventUserInterrupt && (e.2 && String.eqb (n_thread e.1) tid)) (zip evs scoped))
    by (intros tid; rewrite H1; by unfold at_; rewrite lookup_empty).
  - intros tid Htid. rewrite reaches_split, <- H3. destruct (re_all r); cbn [orb re_addr].
    + rewrite mark_all_at. by rewrite (proj2 (mem_string_spec _ _) Htid).
    + destruct (re_interrupt r); apply Hno.
  - destruct (re_all r) eqn:Ea; cbn [re_all].
    + symmetry. apply andb_true_iff. split.
      * rewrite <- Hint, H2. symmetry in H3. apply existsb_exists in H3 as (e & He & Hp). apply existsb_exists.
        exists e. split; [done|]. by apply andb_true_iff in Hp as [? _].
      * apply forallb_forall. intros th _. rewrite reaches_split, <- H3. done.
    + rewrite Hint. destruct (existsb _ evs) eqn:Ei; cbn [re_all andb]; [|congruence].
      induction threads as [|th threads IH]; cbn [forallb]; [done|]. f_equal; [|apply IH].
      rewrite Hno, reaches_split, <- H3. done.
Qed.

(** ** A send to a session with one live child: a result for the client's call, and an
    interrupt that names the child. *)

Definition sample_threads : list trow :=
  [MkTrow "sthr_p" "s" None "running" "lead" None 1; MkTrow "sthr_c" "s" (Some "sthr_p") "idle" "helper" None 2].

Definition sample_send : list json :=
  [JObject [("type", JString EventUserCustomToolRes); ("custom_tool_use_id", JString "t2")];
   JObject [("type", JString EventUserInterrupt); ("session_thread_id", JString "sthr_c")]].

Lemma Receive_sound_witness :
  exists b, Receive "cloud" ManagementCredential (fun _ => "o") tool_db sample_threads "s" no_name sample_send = Ok (Some b) /\
    rc_scoped b = [false; true] /\ Forall (answer_open tool_db "s" no_name) (rc_events b).
Proof.
  destruct (Receive "cloud" ManagementCredential (fun _ => "o") tool_db sample_threads "s" no_name sample_send) as [[b|]|] eqn:E;
    [|vm_compute in E; discriminate..].
  assert (Hids : NoDup (map e_id (l_events tool_db))) by (by apply (bool_decide_unpack _); vm_compute).
  destruct (Receive_sound "cloud" ManagementCredential (fun _ => "o") tool_db sample_threads "s" no_name sample_send b Hids E)
    as (_ & _ & Ho & _).
  exists b. split; [reflexivity|]. split; [vm_compute in E; injection E as <-; reflexivity|exact Ho].
Defined.

Definition two_interrupts : list NewEvent :=
  [MkNewEvent "i1" EventUserInterrupt None None EmptyString false false;
   MkNewEvent "i2" EventUserInterrupt None None "sthr_c" true false].

Lemma Reach_interrupts_witness :
  re_all (Reach two_interrupts [true; true] (liveThreads sample_threads "s" "running")) = true /\
  interruptAt two_interrupts [true; true] "sthr_c" = 1.
Proof.
  destruct (Reach_interrupts two_interrupts [true; true] (liveThreads sample_threads "s" "running") eq_refl) as (_ & Hall & Hat).
  split; [rewrite Hall; vm_compute; reflexivity|rewrite (Hat "sthr_c"); vm_compute; reflexivity].
Defined.
