(* ===== verification/SendLayout.v ===== *)
(** * SendLayout: the order a send is written in (internal/api/events.go)

    What a send writes is recorded by where it belongs: around a posted interrupt, behind
    the last answer of a thread its settlement leaves parked, with the turn a wake starts.
    [processingOrder] lays it all out in the order it is processed.  A Go map keyed by an
    index is a [gmap nat]; the answers' steps are those of the send's plan. *)
From Stdlib Require Import Lia.
From S2P Require Import Prelude Json Domain Consumption Log ToolQuery ToolFlow.

Record threadWake := MkWake { wk_thread : string; wk_pair : list NewEvent; wk_consumed : list NewEvent }.

Record deliveredRow := MkDelivered { dr_cause : nat; dr_row : NewEvent }.

Record sendLayout := MkLayout {
  sl_posted : list NewEvent;
  sl_settled : gmap nat (list NewEvent);
  sl_idled : gmap nat (list NewEvent);
  sl_wakes : list threadWake;
  sl_parked : gmap nat (list NewEvent);
  sl_delivered : list deliveredRow;
  sl_answers : AnswerPlan;
}.

Definition newSendLayout (posted : list NewEvent) : sendLayout :=
  MkLayout posted ∅ ∅ [] ∅ [] (NewAnswerPlan posted).

(** [m[i]] of a map of slices, and [m[i] = append(m[i], evs...)]. *)
Definition rows_at (m : gmap nat (list NewEvent)) (i : nat) : list NewEvent := default [] (m !! i).

Definition append_at (m : gmap nat (list NewEvent)) (i : nat) (evs : list NewEvent) : gmap nat (list NewEvent) :=
  <[i := rows_at m i ++ evs]> m.

(** A delivery to a coordinator: the row it receives, and the pair that wakes it. *)
Record told_of := MkTold { to_received : NewEvent; to_wake : list NewEvent }.

(** What an interrupt's arm left its caller to place. *)
Record interruptThreadOut := MkOut {
  io_settled : list NewEvent;
  io_idled : list NewEvent;
  io_told : option told_of;
  io_resume : list NewEvent;
}.

Definition with_wakes (l : sendLayout) (ws : list threadWake) : sendLayout :=
  MkLayout (sl_posted l) (sl_settled l) (sl_idled l) ws (sl_parked l) (sl_delivered l) (sl_answers l).

(** [layout.answers] is moved in place by [Settle] and [Interrupted]. *)
Definition with_answers (l : sendLayout) (p : AnswerPlan) : sendLayout :=
  MkLayout (sl_posted l) (sl_settled l) (sl_idled l) (sl_wakes l) (sl_parked l) (sl_delivered l) p.

Definition woke (l : sendLayout) (thread : string) (pair : list NewEvent) : sendLayout :=
  match pair with [] => l | _ => with_wakes l (sl_wakes l ++ [MkWake thread pair []]) end.

Definition interrupted (l : sendLayout) (at_ : nat) (out : interruptThreadOut) : sendLayout :=
  let l := MkLayout (sl_posted l) (append_at (sl_settled l) at_ (io_settled out)) (append_at (sl_idled l) at_ (io_idled out))
             (sl_wakes l) (sl_parked l) (sl_delivered l) (sl_answers l) in
  let l := match io_told out with
           | None => l
           | Some t =>
               let l := woke l (n_thread (to_received t)) (to_wake t) in
               MkLayout (sl_posted l) (sl_settled l) (sl_idled l) (sl_wakes l) (sl_parked l)
                 (sl_delivered l ++ [MkDelivered at_ (to_received t)]) (sl_answers l)
           end in
  woke l EmptyString (io_resume out).

Definition steps_of (p : AnswerPlan) (thread : string) : list AnswerStep := default [] (ap_Steps p !! thread).

(** The last posted event among the answers a thread's walk processes; [0] for none of
    them, as the loop starts. *)
Definition last_answer (answers : list string) (posted : list NewEvent) : nat :=
  foldl (fun last e => if mem_string (n_id e.2) answers then e.1 else last) O (imap pair posted).

Definition settledAt (l : sendLayout) (thread : string) : nat :=
  match steps_of (sl_answers l) thread with
  | [] => length (sl_posted l)
  | steps => last_answer (map as_Answer steps) (sl_posted l)
  end.

Definition reidled (l : sendLayout) (at_ : nat) (pair : list NewEvent) : sendLayout :=
  MkLayout (sl_posted l) (sl_settled l) (sl_idled l) (sl_wakes l) (append_at (sl_parked l) at_ pair) (sl_delivered l) (sl_answers l).

(** The denial results of a resumed primary move behind its pair. *)
Definition resumed (l : sendLayout) (thread : string) (pair : list NewEvent) : sendLayout :=
  if String.eqb thread EmptyString then
    match ap_Steps (sl_answers l) !! thread with
    | None => with_wakes l (sl_wakes l ++ [MkWake thread pair []])
    | Some steps =>
        let p := sl_answers l in
        MkLayout (sl_posted l) (sl_settled l) (sl_idled l)
          (sl_wakes l ++ [MkWake thread pair (concat (map as_Denials steps))]) (sl_parked l) (sl_delivered l)
          (MkPlan (ap_Pending p) (<[thread := map (fun st => MkStep (as_Answer st) []) steps]> (ap_Steps p)) (ap_Denied p) (ap_Moot p))
    end
  else with_wakes l (sl_wakes l ++ [MkWake thread pair []]).

(** ** The order *)

(** [at]: the position of each posted event. *)
Definition positions (posted : list NewEvent) : gmap string nat :=
  foldl (fun m e => <[n_id e.2 := e.1]> m) ∅ (imap pair posted).

Definition position (m : gmap string nat) (id : string) : nat := default O (m !! id).

(** One thread's processed answers, in the order processed, into the places its answers
    were received in. *)
Definition place_steps (m : gmap string nat) (steps : list AnswerStep) (step : gmap nat AnswerStep) : gmap nat AnswerStep :=
  foldl (fun acc s => <[s.1 := s.2]> acc) step
    (zip (merge_sort le (map (fun st => position m (as_Answer st)) steps)) steps).

(** The threads' steps are on different answers, so the order of the map's iteration does
    not matter. *)
Definition steps_at (m : gmap string nat) (p : AnswerPlan) : gmap nat AnswerStep :=
  foldl (fun acc ts => place_steps m ts.2 acc) ∅ (map_to_list (ap_Steps p)).

(** An input some turn consumes: the posted event behind it, the thread it is for, and
    whether no turn of this commit consumes it. *)
Record input := MkInput { in_cause : nat; in_thread : string; in_ev : NewEvent; in_queued : bool }.

Definition is_answer_event (ev : NewEvent) : bool :=
  String.eqb (n_type ev) EventUserToolConfirm || String.eqb (n_type ev) EventUserToolResult ||
  String.eqb (n_type ev) EventUserCustomToolRes.

(** The arm of the switch for posted event [i]: the rows it writes here, and the inputs it
    leaves. *)
Definition place_posted (l : sendLayout) (m : gmap string nat) (step : gmap nat AnswerStep) (i : nat) (ev : NewEvent)
  : list NewEvent * list input :=
  if bool_decide (n_id ev ∈ ap_Pending (sl_answers l)) then ([], [MkInput i EmptyString ev true])
  else if is_answer_event ev then
    match step !! i with
    | Some st =>
        (default ev (sl_posted l !! position m (as_Answer st)) :: as_Denials st ++ rows_at (sl_parked l) i, [])
    | None => ([ev], [])
    end
  else if String.eqb (n_type ev) EventUserInterrupt then
    (rows_at (sl_settled l) i ++ [ev] ++ rows_at (sl_idled l) i, [])
  else ([], [MkInput i (n_thread ev) ev false]).

Definition input_le (a b : input) : Prop := (in_cause a <= in_cause b)%nat.

#[export] Instance input_le_dec a b : Decision (input_le a b).
Proof. unfold input_le. apply _. Defined.

(** An input the turn of the wake consumes. *)
Definition for_wake (w : threadWake) (i : input) : bool := negb (in_queued i) && String.eqb (in_thread i) (wk_thread w).

(** The loop over the wakes: what each writes, and the inputs not placed. *)
Fixpoint place_wakes (ws : list threadWake) (inputs : list input) : list NewEvent * list input :=
  match ws with
  | [] => ([], inputs)
  | w :: ws' =>
      let mine := filter (fun i => for_wake w i = true) inputs in
      let '(out, rest) := place_wakes ws' (filter (fun i => for_wake w i = false) inputs) in
      (wk_pair w ++ wk_consumed w ++ map in_ev mine ++ out, rest)
  end.

Definition processingOrder (l : sendLayout) : list NewEvent :=
  let m := positions (sl_posted l) in
  let step := steps_at m (sl_answers l) in
  let placed := imap (place_posted l m step) (sl_posted l) in
  let out := concat (map fst placed) ++ rows_at (sl_parked l) (length (sl_posted l)) in
  let inputs := concat (map snd placed) ++
                map (fun d => MkInput (dr_cause d) (n_thread (dr_row d)) (dr_row d) false) (sl_delivered l) in
  let '(woken, rest) := place_wakes (sl_wakes l) (sort_stable input_le inputs) in
  out ++ woken ++ map in_ev rest.

(** ** One idle for the session *)

Definition is_idle_event (ev : NewEvent) : bool := String.eqb (n_type ev) EventSessionStatusIdle.

Definition restate (ev : NewEvent) (b : bool) : NewEvent :=
  MkNewEvent (n_id ev) (n_type ev) (n_payload ev) (n_processed ev) (n_thread ev) (n_cross ev) b.

(** The last idle's index, and whether every idle was restated. *)
Definition last_idle (batch : list NewEvent) : option nat * bool :=
  foldl (fun acc e => if is_idle_event e.2 then (Some e.1, acc.2 && n_restated e.2) else acc) (None, true) (imap pair batch).

Definition keepLastSessionIdle (batch : list NewEvent) : list NewEvent :=
  match last_idle batch with
  | (None, _) => batch
  | (Some last, restated) =>
      concat (imap (fun i ev =>
        if Nat.eqb i last then [restate ev restated]
        else if is_idle_event ev then [] else [ev]) batch)
  end.
