(* ===== verification/LayoutSpec.v ===== *)
(** * LayoutSpec: a send writes everything, once, where it belongs. *)
From Stdlib Require Import Lia.
From S2P Require Import Prelude Json Domain Consumption Log ToolQuery ToolFlow SendLayout.

(** ** Lists and maps *)

#[export] Instance concat_perm A : Proper ((≡ₚ) ==> (≡ₚ)) (@concat A).
Proof.
  induction 1; cbn; [done|by f_equiv| |by etrans]. rewrite !app_assoc. by rewrite (Permutation_app_comm y x).
Qed.

Lemma concat_zip_perm {A B} (f g h : A -> list B) l : (forall x, x ∈ l -> f x ≡ₚ g x ++ h x) ->
  concat (map f l) ≡ₚ concat (map g l) ++ concat (map h l).
Proof.
  intros H. induction l as [|x l IH]; cbn; [done|]. rewrite (H x) by left. rewrite IH by (intros y Hy; apply H; by right).
  solve_Permutation.
Qed.

Lemma concat_map_ext {A B} (f g : A -> list B) l : (forall x, x ∈ l -> f x ≡ₚ g x) -> concat (map f l) ≡ₚ concat (map g l).
Proof. intros H. induction l as [|x l IH]; cbn; [done|]. rewrite (H x) by left. rewrite IH; [done|]. intros y Hy. apply H. by right. Qed.

Lemma concat_imap {A B} (f : nat -> A -> list B) (g : nat -> list B) l : (forall i x, l !! i = Some x -> f i x ≡ₚ g i) ->
  concat (imap f l) ≡ₚ concat (map g (seq 0 (length l))).
Proof.
  intros H. cut (forall k, (forall i x, l !! i = Some x -> f (k + i)%nat x ≡ₚ g (k + i)%nat) ->
    concat (imap (fun i => f (k + i)%nat) l) ≡ₚ concat (map g (seq k (length l)))).
  { intros Hk. exact (Hk O H). }
  clear H. induction l as [|x l IH]; intros k H; cbn; [done|]. f_equiv.
  - specialize (H O x eq_refl). by rewrite Nat.add_0_r in *.
  - rewrite <- (IH (S k)).
    + apply reflexive_eq. f_equal. apply imap_ext. intros i y _. cbn. f_equal. lia.
    + intros i y Hy. specialize (H (S i) y Hy). by replace (S k + i)%nat with (k + S i)%nat by lia.
Qed.

(** A map read at every position holds each of its values once. *)
Lemma read_all {A B} (f : B -> list A) (m : gmap nat B) : forall ks, NoDup ks -> (forall i, i ∈ dom m -> i ∈ ks) ->
  concat (map (fun i => match m !! i with Some b => f b | None => [] end) ks) ≡ₚ concat (map (fun kv => f kv.2) (map_to_list m)).
Proof.
  induction m as [|i b m Hn IH] using map_ind; intros ks Hnd Hin.
  - rewrite map_to_list_empty. cbn. rewrite (concat_map_ext _ (fun _ => [])) by (intros; by rewrite lookup_empty).
    clear. induction ks; done.
  - destruct (list_elem_of_split ks i) as (l1 & l2 & ->); [apply Hin; rewrite dom_insert; set_solver|].
    rewrite map_to_list_insert by done. cbn. rewrite <- (IH (l1 ++ l2)).
    + rewrite map_app, concat_app. cbn. rewrite lookup_insert_eq. rewrite map_app, concat_app.
      apply NoDup_app in Hnd as (H1 & H2 & H3). apply NoDup_cons in H3 as [H3 H4].
      rewrite (concat_map_ext _ (fun i => match m !! i with Some b => f b | None => [] end) l1),
        (concat_map_ext _ (fun i => match m !! i with Some b => f b | None => [] end) l2); [solve_Permutation| |].
      * intros j Hj. rewrite lookup_insert_ne; [done|]. by intros ->.
      * intros j Hj. rewrite lookup_insert_ne; [done|]. intros ->. by apply (H2 j Hj); left.
    + by apply (NoDup_Permutation_proper _ _ (Permutation_middle l1 l2 i)), NoDup_cons in Hnd as [_ ?].
    + intros j Hj. specialize (Hin j). rewrite dom_insert in Hin. rewrite !elem_of_app, elem_of_cons in *.
      destruct (decide (j = i)) as [->|]; [|set_solver]. by apply elem_of_dom in Hj as [? ?]; congruence.
Qed.

Lemma rows_all m ks : NoDup ks -> (forall i, i ∈ dom m -> i ∈ ks) ->
  concat (map (rows_at m) ks) ≡ₚ concat (map snd (map_to_list m)).
Proof.
  intros Hnd Hin. rewrite <- (read_all (fun x => x) m ks Hnd Hin). apply concat_map_ext. intros i _.
  unfold rows_at. by destruct (m !! i).
Qed.

(** ** The places of the answers *)

Lemma positions_fold posted : forall k m, NoDup (map n_id posted) ->
  (forall i ev, posted !! i = Some ev ->
    foldl (fun m e => <[n_id e.2 := e.1]> m) m (imap (fun i ev => ((k + i)%nat, ev)) posted) !! n_id ev = Some (k + i)%nat) /\
  (forall id, id ∉ map n_id posted ->
    foldl (fun m e => <[n_id e.2 := e.1]> m) m (imap (fun i ev => ((k + i)%nat, ev)) posted) !! id = (m : gmap string nat) !! id).
Proof.
  induction posted as [|e posted IH]; intros k m Hnd; cbn [imap foldl map fst snd].
  { split; [done|]. done. }
  apply NoDup_cons in Hnd as [Hn Hnd].
  assert (Hshift : imap ((fun i ev => ((k + i)%nat, ev)) ∘ S) posted = imap (fun i (ev : NewEvent) => ((S k + i)%nat, ev)) posted)
    by (apply imap_ext; intros i y _; cbn; f_equal; lia).
  rewrite Hshift. destruct (IH (S k) (<[n_id e := (k + 0)%nat]> m) Hnd) as [H1 H2]. split.
  - intros [|i] ev; cbn [lookup list_lookup].
    + intros [= <-]. rewrite H2 by done. by rewrite lookup_insert_eq.
    + intros Hi. rewrite (H1 i ev Hi). f_equal. lia.
  - intros id Hid. rewrite H2 by (intros ?; apply Hid; by right). apply lookup_insert_ne. intros <-. apply Hid. left.
Qed.

Lemma position_at posted i ev : NoDup (map n_id posted) -> posted !! i = Some ev -> position (positions posted) (n_id ev) = i.
Proof.
  intros Hnd Hi. unfold position, positions. pose proof (proj1 (positions_fold posted 0 ∅ Hnd) i ev Hi) as H.
  cbn [Nat.add] in H. change (imap (fun i ev => (i, ev)) posted) with (imap pair posted) in H. by rewrite H.
Qed.

(** The steps of the plan, each with the place it takes. *)
Definition slots (m : gmap string nat) (steps : list AnswerStep) : list nat :=
  merge_sort le (map (fun st => position m (as_Answer st)) steps).

Definition slotted (m : gmap string nat) (p : AnswerPlan) : list (nat * AnswerStep) :=
  concat (map (fun ts : string * list AnswerStep => zip (slots m ts.2) ts.2) (map_to_list (ap_Steps p))).

Definition plan_steps (p : AnswerPlan) : list AnswerStep := concat (map snd (map_to_list (ap_Steps p))).

Lemma steps_at_fold m p : steps_at m p = foldl (fun acc s => <[s.1 := s.2]> acc) ∅ (slotted m p).
Proof.
  unfold steps_at, slotted. generalize (∅ : gmap nat AnswerStep). induction (map_to_list (ap_Steps p)) as [|ts l IH]; intros acc; cbn; [done|].
  rewrite foldl_app. apply IH.
Qed.

Lemma slots_perm m steps : slots m steps ≡ₚ map (fun st => position m (as_Answer st)) steps.
Proof. apply merge_sort_Permutation. Qed.

Lemma slots_length m steps : length (slots m steps) = length steps.
Proof. rewrite (Permutation_length (slots_perm m steps)). apply List.length_map. Qed.

Lemma map_fst_zip {A B} (l : list A) (k : list B) : length l = length k -> map fst (zip l k) = l.
Proof. revert k. induction l as [|x l IH]; intros [|y k] H; try done. cbn. f_equal. apply IH. by injection H. Qed.

Lemma map_snd_zip {A B} (l : list A) (k : list B) : length l = length k -> map snd (zip l k) = k.
Proof. revert k. induction l as [|x l IH]; intros [|y k] H; try done. cbn. f_equal. apply IH. by injection H. Qed.

Lemma slotted_snd m p : map snd (slotted m p) = plan_steps p.
Proof.
  unfold slotted, plan_steps. rewrite concat_map, map_map. f_equal. apply map_ext. intros ts.
  by apply map_snd_zip, slots_length.
Qed.

Lemma slotted_fst m p : map fst (slotted m p) ≡ₚ map (fun st => position m (as_Answer st)) (plan_steps p).
Proof.
  unfold slotted, plan_steps. rewrite !concat_map, !map_map. apply concat_map_ext. intros ts _.
  rewrite map_fst_zip by apply slots_length. apply slots_perm.
Qed.

Lemma fold_map_to_list {B} (l : list (nat * B)) : forall m, NoDup (map fst l) -> (forall i, i ∈ map fst l -> m !! i = None) ->
  map_to_list (foldl (fun acc s => <[s.1 := s.2]> acc) m l) ≡ₚ l ++ map_to_list m.
Proof.
  induction l as [|[i b] l IH]; intros m Hnd Hf; cbn [foldl app map fst snd] in *; [done|]. apply NoDup_cons in Hnd as [Hn Hnd].
  rewrite IH; [|done|].
  - rewrite map_to_list_insert by (apply Hf; left). by rewrite Permutation_middle.
  - intros j Hj. rewrite lookup_insert_ne by (intros ->; done). apply Hf. by right.
Qed.

(** ** A layout the send makes *)

(** The plan's steps are on different posted answers, none of them pending. *)
Definition plan_ok (posted : list NewEvent) (p : AnswerPlan) : Prop :=
  NoDup (map as_Answer (plan_steps p)) /\
  forall st, st ∈ plan_steps p ->
    (as_Answer st ∉ ap_Pending p) /\ exists ev, ev ∈ posted /\ n_id ev = as_Answer st /\ is_answer_event ev = true.

Record layout_ok (l : sendLayout) : Prop := MkLayoutOk {
  lo_ids : NoDup (map n_id (sl_posted l));
  lo_plan : plan_ok (sl_posted l) (sl_answers l);
  lo_pending : forall id, id ∈ ap_Pending (sl_answers l) ->
    exists ev, ev ∈ sl_posted l /\ n_id ev = id /\ is_answer_event ev = true;
  lo_settled : forall i, i ∈ dom (sl_settled l) -> exists ev, sl_posted l !! i = Some ev /\ n_type ev = EventUserInterrupt;
  lo_idled : forall i, i ∈ dom (sl_idled l) -> exists ev, sl_posted l !! i = Some ev /\ n_type ev = EventUserInterrupt;
  lo_parked : forall i, i ∈ dom (sl_parked l) -> i = length (sl_posted l) \/
    exists ev, sl_posted l !! i = Some ev /\ n_id ev ∈ map as_Answer (plan_steps (sl_answers l));
}.

Section Layout.
Context (l : sendLayout) (Hok : layout_ok l).
Let m := positions (sl_posted l).
Let p := sl_answers l.

Lemma step_place st : st ∈ plan_steps p -> exists i ev, sl_posted l !! i = Some ev /\ n_id ev = as_Answer st /\
  is_answer_event ev = true /\ position m (as_Answer st) = i.
Proof.
  intros Hst. destruct (proj2 (lo_plan l Hok) st Hst) as (_ & ev & He & Hid & Ha). apply list_elem_of_lookup in He as [i Hi].
  exists i, ev. split_and!; [done..|]. rewrite <- Hid. apply position_at; [apply lo_ids, Hok|done].
Qed.

Lemma places_NoDup : NoDup (map fst (slotted m p)).
Proof.
  rewrite slotted_fst. pose proof (proj1 (lo_plan l Hok)) as Hnd. fold p in Hnd. pose proof step_place as Hp.
  induction (plan_steps p) as [|st sts IH]; cbn [map] in *; [constructor|]. apply NoDup_cons in Hnd as [Hn Hnd].
  constructor; [|apply IH; [done|]; intros s Hs; apply Hp; by right].
  intros (s & Heq & Hs)%list_elem_of_fmap. apply Hn.
  destruct (Hp st ltac:(left)) as (i & ev & Hi & Hid & _ & Hpos). destruct (Hp s ltac:(by right)) as (j & ev' & Hj & Hid' & _ & Hpos').
  assert (i = j) as -> by congruence. rewrite Hi in Hj. injection Hj as ->. apply list_elem_of_fmap. exists s. split; [congruence|done].
Qed.

Lemma steps_list : map_to_list (steps_at m p) ≡ₚ slotted m p.
Proof.
  rewrite steps_at_fold, fold_map_to_list; [|apply places_NoDup|by intros i _; apply lookup_empty].
  by rewrite map_to_list_empty, app_nil_r.
Qed.

(** A place is taken exactly when the answer received there is processed. *)
Lemma step_taken i ev : sl_posted l !! i = Some ev ->
  (is_Some (steps_at m p !! i) <-> n_id ev ∈ map as_Answer (plan_steps p)).
Proof.
  intros Hi. split.
  - intros [st Hst%elem_of_map_to_list]. rewrite steps_list in Hst.
    assert (Hin : i ∈ map fst (slotted m p)) by (apply list_elem_of_fmap; by exists (i, st)).
    rewrite slotted_fst in Hin. apply list_elem_of_fmap in Hin as (s & Heq & Hs).
    destruct (step_place s Hs) as (j & ev' & Hj & Hid & _ & Hpos). assert (i = j) as <- by congruence.
    rewrite Hi in Hj. injection Hj as <-. apply list_elem_of_fmap. by exists s.
  - intros (s & Heq & Hs)%list_elem_of_fmap. assert (Hin : i ∈ map fst (slotted m p)).
    { rewrite slotted_fst. apply list_elem_of_fmap. exists s. split; [|done]. rewrite <- Heq. symmetry.
      apply position_at; [apply lo_ids, Hok|done]. }
    apply list_elem_of_fmap in Hin as ([j st] & Hj & Hin). cbn in Hj. subst j. exists st. apply elem_of_map_to_list. by rewrite steps_list.
Qed.

Definition opt_list {A} (o : option A) : list A := match o with Some x => [x] | None => [] end.

Definition own (i : nat) : list NewEvent :=
  match steps_at m p !! i with
  | Some st => opt_list (sl_posted l !! position m (as_Answer st))
  | None => opt_list (sl_posted l !! i)
  end.

Definition denials_at (i : nat) : list NewEvent := match steps_at m p !! i with Some st => as_Denials st | None => [] end.

Lemma rows_none (rows : gmap nat (list NewEvent)) i : ~ i ∈ dom rows -> rows_at rows i = [].
Proof. intros H%not_elem_of_dom. unfold rows_at. by rewrite H. Qed.

Lemma no_interrupt_rows rows i ev :
  (forall i, i ∈ dom rows -> exists ev, sl_posted l !! i = Some ev /\ n_type ev = EventUserInterrupt) ->
  sl_posted l !! i = Some ev -> n_type ev <> EventUserInterrupt -> rows_at rows i = [].
Proof. intros H Hi Ht. apply rows_none. intros (ev' & Hi' & ?)%H. congruence. Qed.

Lemma no_parked_rows i ev : sl_posted l !! i = Some ev -> steps_at m p !! i = None -> rows_at (sl_parked l) i = [].
Proof.
  intros Hi Hn. apply rows_none. intros [-> | (ev' & Hi' & Hin)]%(lo_parked l Hok).
  - apply lookup_lt_Some in Hi. lia.
  - apply (step_taken i ev' Hi') in Hin as [? ?]. congruence.
Qed.

Lemma answer_not_interrupt ev : is_answer_event ev = true -> n_type ev <> EventUserInterrupt.
Proof. unfold is_answer_event. intros H Ht. by rewrite Ht in H. Qed.

Lemma pending_answer i ev : sl_posted l !! i = Some ev -> n_id ev ∈ ap_Pending p -> is_answer_event ev = true.
Proof.
  intros Hi (ev' & He & Hid & Ha)%(lo_pending l Hok). apply list_elem_of_lookup in He as [j Hj].
  pose proof (position_at _ i ev (lo_ids l Hok) Hi) as Hpi. pose proof (position_at _ j ev' (lo_ids l Hok) Hj) as Hpj.
  rewrite Hid, Hpi in Hpj. subst j. rewrite Hi in Hj. by injection Hj as ->.
Qed.

(** What is written of one posted event, and left for a turn. *)
Lemma place_posted_split i ev : sl_posted l !! i = Some ev ->
  (place_posted l m (steps_at m p) i ev).1 ++ map in_ev (place_posted l m (steps_at m p) i ev).2 ≡ₚ
  own i ++ denials_at i ++ rows_at (sl_parked l) i ++ rows_at (sl_settled l) i ++ rows_at (sl_idled l) i.
Proof.
  intros Hi. assert (Hin : ev ∈ sl_posted l) by by eapply list_elem_of_lookup_2.
  assert (Hstep : forall st, steps_at m p !! i = Some st -> ~ n_id ev ∈ ap_Pending p /\ is_answer_event ev = true /\ st ∈ plan_steps p).
  { intros st Hst. assert (His : is_Some (steps_at m p !! i)) by by eexists.
    apply (step_taken i ev Hi) in His. apply list_elem_of_fmap in His as (s & Heq & Hs).
    destruct (step_place s Hs) as (j & ev' & Hj & Hid & Ha & Hpos). rewrite <- Heq in Hpos.
    assert (position m (n_id ev) = i) as Hpe by (apply position_at; [apply lo_ids, Hok|done]). rewrite Hpe in Hpos. subst j. rewrite Hi in Hj. injection Hj as <-.
    split_and!; [rewrite Heq; by apply (proj2 (lo_plan l Hok) s Hs)|done|].
    apply elem_of_map_to_list in Hst. rewrite steps_list in Hst. rewrite <- (slotted_snd m). apply list_elem_of_fmap. by exists (i, st). }
  unfold place_posted, own, denials_at. fold p. case_bool_decide as Hp.
  { destruct (steps_at m p !! i) as [st|] eqn:Est; [by destruct (Hstep st eq_refl)|].
    rewrite (no_parked_rows i ev Hi Est), Hi. pose proof (answer_not_interrupt ev (pending_answer i ev Hi Hp)) as Ht.
    rewrite (no_interrupt_rows _ i ev (lo_settled l Hok) Hi Ht), (no_interrupt_rows _ i ev (lo_idled l Hok) Hi Ht). done. }
  destruct (is_answer_event ev) eqn:Ea.
  { pose proof (answer_not_interrupt ev Ea) as Ht.
    rewrite (no_interrupt_rows _ i ev (lo_settled l Hok) Hi Ht), (no_interrupt_rows _ i ev (lo_idled l Hok) Hi Ht).
    destruct (steps_at m p !! i) as [st|] eqn:Est.
    - destruct (Hstep st eq_refl) as (_ & _ & Hst). destruct (step_place st Hst) as (j & ev' & Hj & _ & _ & ->).
      rewrite Hj. cbn. rewrite !app_nil_r. done.
    - rewrite (no_parked_rows i ev Hi Est), Hi. done. }
  destruct (steps_at m p !! i) as [st|] eqn:Est; [by destruct (Hstep st eq_refl) as (_ & ? & _); congruence|].
  rewrite (no_parked_rows i ev Hi Est), Hi. cbn [opt_list app].
  destruct (String.eqb_spec (n_type ev) EventUserInterrupt) as [Ht|Ht].
  - cbn. rewrite app_nil_r. symmetry. apply Permutation_middle.
  - rewrite (no_interrupt_rows _ i ev (lo_settled l Hok) Hi Ht), (no_interrupt_rows _ i ev (lo_idled l Hok) Hi Ht). done.
Qed.

Let ks := map fst (slotted m p).

Lemma places_in i : i ∈ ks -> i ∈ seq 0 (length (sl_posted l)).
Proof.
  unfold ks. rewrite slotted_fst. intros (st & -> & Hst)%list_elem_of_fmap.
  destruct (step_place st Hst) as (j & ev & Hj & _ & _ & ->). apply elem_of_seq. apply lookup_lt_Some in Hj. lia.
Qed.

Lemma seq_places : seq 0 (length (sl_posted l)) ≡ₚ ks ++ filter (fun i => i ∉ ks) (seq 0 (length (sl_posted l))).
Proof.
  apply NoDup_Permutation.
  - apply NoDup_ListNoDup, seq_NoDup.
  - apply NoDup_app. split_and!; [apply places_NoDup| |apply NoDup_filter, NoDup_ListNoDup, seq_NoDup].
    intros i Hi Hf. by apply list_elem_of_filter in Hf as [? _].
  - intros i. rewrite elem_of_app, list_elem_of_filter. destruct (decide (i ∈ ks)) as [Hi|Hi].
    + split; [by left|]. intros _. by apply places_in.
    + tauto.
Qed.

Lemma own_posted : concat (map own (seq 0 (length (sl_posted l)))) ≡ₚ sl_posted l.
Proof.
  assert (Hid : forall k : list NewEvent, concat (map (fun i => opt_list (k !! i)) (seq 0 (length k))) = k).
  { induction k as [|e k IH]; [done|]. cbn [length seq map concat]. rewrite <- seq_shift, map_map. exact (f_equal (cons e) IH). }
  rewrite <- (Hid (sl_posted l)) at 2. rewrite seq_places, !map_app, !concat_app. f_equiv.
  - unfold ks at 1. rewrite (concat_map_ext _ (fun i => own i)) by done. rewrite map_map.
    rewrite (concat_map_ext _ (fun s => opt_list (sl_posted l !! position m (as_Answer s.2)))).
    + rewrite <- (map_map snd (fun st => opt_list (sl_posted l !! position m (as_Answer st)))), slotted_snd.
      rewrite <- (map_map (fun st => position m (as_Answer st)) (fun i => opt_list (sl_posted l !! i))).
      unfold ks. by rewrite slotted_fst.
    + intros [i st] Hin. cbn. unfold own. rewrite <- steps_list in Hin. apply elem_of_map_to_list in Hin. by rewrite Hin.
  - apply concat_map_ext. intros i [Hi _]%list_elem_of_filter. unfold own.
    destruct (steps_at m p !! i) as [st|] eqn:E; [|done]. exfalso. apply Hi. unfold ks.
    apply elem_of_map_to_list in E. rewrite steps_list in E. apply list_elem_of_fmap. by exists (i, st).
Qed.

Lemma denials_posted : concat (map denials_at (seq 0 (length (sl_posted l)))) ≡ₚ concat (map as_Denials (plan_steps p)).
Proof.
  unfold denials_at. rewrite (read_all as_Denials (steps_at m p)).
  - rewrite <- (slotted_snd m), map_map. by rewrite steps_list.
  - apply NoDup_ListNoDup, seq_NoDup.
  - intros i [st Hst]%elem_of_dom. apply places_in. unfold ks. apply elem_of_map_to_list in Hst. rewrite steps_list in Hst.
    apply list_elem_of_fmap. by exists (i, st).
Qed.
End Layout.

(** ** The inputs *)

Definition inputs_of (l : sendLayout) : list input :=
  concat (map snd (imap (place_posted l (positions (sl_posted l)) (steps_at (positions (sl_posted l)) (sl_answers l))) (sl_posted l))) ++
  map (fun d => MkInput (dr_cause d) (n_thread (dr_row d)) (dr_row d) false) (sl_delivered l).

(** The rows written on receipt. *)
Definition on_receipt (l : sendLayout) : list (list NewEvent) :=
  map fst (imap (place_posted l (positions (sl_posted l)) (steps_at (positions (sl_posted l)) (sl_answers l))) (sl_posted l)).

Definition unwoken (ws : list threadWake) (i : input) : bool := forallb (fun w => negb (for_wake w i)) ws.

Lemma filter_bool_split {A} (f : A -> bool) l : filter (fun x => f x = true) l ++ filter (fun x => f x = false) l ≡ₚ l.
Proof.
  induction l as [|x l IH]; [done|]. rewrite !filter_cons. destruct (f x); cbn.
  - rewrite decide_True, decide_False by done. apply perm_skip, IH.
  - rewrite decide_False, decide_True by done. etrans; [symmetry; apply Permutation_middle|]. apply perm_skip, IH.
Qed.

Lemma place_wakes_perm ws : forall inputs,
  (place_wakes ws inputs).1 ++ map in_ev (place_wakes ws inputs).2 ≡ₚ
  concat (map (fun w => wk_pair w ++ wk_consumed w) ws) ++ map in_ev inputs.
Proof.
  induction ws as [|w ws IH]; intros inputs; cbn [place_wakes map concat]; [done|].
  specialize (IH (filter (fun i => for_wake w i = false) inputs)).
  destruct (place_wakes ws _) as [out rest]. cbn [fst snd] in *.
  rewrite <- (filter_bool_split (for_wake w) inputs) at 2. rewrite map_app.
  rewrite <- !app_assoc, IH. solve_Permutation.
Qed.

Lemma place_wakes_rest ws : forall inputs, (place_wakes ws inputs).2 = filter (fun i => unwoken ws i = true) inputs.
Proof.
  induction ws as [|w ws IH]; intros inputs; cbn [place_wakes].
  { unfold unwoken. cbn. induction inputs as [|i inputs IH]; [done|]. rewrite filter_cons, decide_True by done. by rewrite <- IH. }
  specialize (IH (filter (fun i => for_wake w i = false) inputs)). destruct (place_wakes ws _) as [out rest]. cbn [snd] in *.
  rewrite IH, list_filter_filter. apply list_filter_iff. intros i. unfold unwoken. cbn [forallb].
  destruct (for_wake w i); cbn; naive_solver.
Qed.

Lemma place_wakes_at ws : forall inputs w, NoDup (map wk_thread ws) -> w ∈ ws ->
  exists pre post, (place_wakes ws inputs).1 =
    pre ++ wk_pair w ++ wk_consumed w ++ map in_ev (filter (fun i => for_wake w i = true) inputs) ++ post.
Proof.
  induction ws as [|w' ws IH]; intros inputs w Hnd Hw; [by apply not_elem_of_nil in Hw|]. cbn [place_wakes map] in *.
  apply NoDup_cons in Hnd as [Hn Hnd].
  destruct (place_wakes ws (filter (fun i => for_wake w' i = false) inputs)) as [out rest] eqn:E. cbn [fst].
  apply elem_of_cons in Hw as [-> | Hw]; [by exists [], out|].
  destruct (IH (filter (fun i => for_wake w' i = false) inputs) w Hnd Hw) as (pre & post & Hout). rewrite E in Hout. cbn [fst] in Hout.
  exists (wk_pair w' ++ wk_consumed w' ++ map in_ev (filter (fun i => for_wake w' i = true) inputs) ++ pre), post.
  rewrite Hout, list_filter_filter, <- !app_assoc. repeat f_equal. apply list_filter_iff. intros i. split; [tauto|]. intros H. split; [done|].
  unfold for_wake in *. destruct (in_queued i); [done|]. cbn in *. apply String.eqb_eq in H. apply String.eqb_neq. rewrite H.
  intros Heq. apply Hn, list_elem_of_fmap. by exists w.
Qed.

Lemma processingOrder_eq l : processingOrder l =
  (concat (on_receipt l) ++ rows_at (sl_parked l) (length (sl_posted l))) ++
  (place_wakes (sl_wakes l) (sort_stable input_le (inputs_of l))).1 ++
  map in_ev (place_wakes (sl_wakes l) (sort_stable input_le (inputs_of l))).2.
Proof. unfold processingOrder. fold (inputs_of l). by destruct (place_wakes _ _) as [woken rest]. Qed.

Lemma map_imap {A B C} (g : B -> C) (f : nat -> A -> B) k : map g (imap f k) = imap (fun i x => g (f i x)) k.
Proof. exact (fmap_imap f g k). Qed.

(** Everything written or left at the posted events' places. *)
Lemma posted_rows l (Hok : layout_ok l) :
  concat (on_receipt l) ++ map in_ev (concat (map snd (imap (place_posted l (positions (sl_posted l))
    (steps_at (positions (sl_posted l)) (sl_answers l))) (sl_posted l)))) ≡ₚ
  concat (map (fun i => own l i ++ denials_at l i ++ rows_at (sl_parked l) i ++ rows_at (sl_settled l) i ++ rows_at (sl_idled l) i)
    (seq 0 (length (sl_posted l)))).
Proof.
  unfold on_receipt. set (place := imap _ _). rewrite concat_map, map_map.
  rewrite <- (concat_zip_perm (fun x : list NewEvent * list input => x.1 ++ map in_ev x.2)) by done.
  unfold place. rewrite map_imap. apply concat_imap. intros i ev Hi. by apply place_posted_split.
Qed.

(** ** The layouts a send builds *)

Lemma isAnswer_event ev : isAnswer (n_type ev) = is_answer_event ev.
Proof.
  unfold isAnswer, is_answer_event, mem_string, answerTypes. cbn [existsb]. rewrite orb_false_r.
  by destruct (String.eqb _ EventUserToolConfirm), (String.eqb _ EventUserToolResult), (String.eqb _ EventUserCustomToolRes).
Qed.

(** The walk's state: the plan's steps and this walk's, on different answers taken out of
    those pending. *)
Definition walk_ok (posted : list NewEvent) (ps : AnswerPlan * list AnswerStep) : Prop :=
  let ids := map as_Answer (plan_steps ps.1) ++ map as_Answer ps.2 in
  NoDup ids /\
  (forall id, id ∈ ids -> (id ∉ ap_Pending ps.1) /\ exists ev, ev ∈ posted /\ n_id ev = id /\ is_answer_event ev = true) /\
  forall id, id ∈ ap_Pending ps.1 -> exists ev, ev ∈ posted /\ n_id ev = id /\ is_answer_event ev = true.

Lemma plan_answer_ok posted id ps : walk_ok posted ps -> walk_ok posted (plan_answer id ps).
Proof.
  destruct ps as [p steps]. unfold plan_answer. case_bool_decide as Hp; [|done]. intros (Hnd & Hin & Hpend).
  unfold walk_ok in *. cbn [fst snd plan_steps ap_Steps ap_Pending] in *. change (plan_steps (MkPlan _ (ap_Steps p) _ _)) with (plan_steps p).
  rewrite map_app. cbn [map as_Answer]. rewrite app_assoc. split_and!.
  - apply NoDup_app. split_and!; [done| |apply NoDup_singleton]. intros x Hx ->%list_elem_of_singleton. by apply Hin in Hx as [? _].
  - intros x [Hx | ->%list_elem_of_singleton]%elem_of_app.
    + destruct (Hin x Hx) as [H1 H2]. split; [set_solver|done].
    + split; [set_solver|by apply Hpend].
  - intros x Hx. apply Hpend. set_solver.
Qed.

Lemma add_denials_answers steps ds : map as_Answer (add_denials steps ds) = map as_Answer steps.
Proof.
  unfold add_denials. destruct (last steps) as [s|] eqn:E; [|done]. apply last_Some in E as [l' ->].
  rewrite length_app. cbn [length]. replace (length l' + 1 - 1)%nat with (length l') by lia.
  by rewrite take_app_length, !map_app.
Qed.

Lemma plan_consume_ok posted db sid ps c ps' c' b : walk_ok posted ps -> plan_consume db sid ps c = Ok (ps', c', b) -> walk_ok posted ps'.
Proof.
  intros Hok. unfold plan_consume.
  pose proof (plan_answer_ok posted (oc_resultID c) _ (plan_answer_ok posted (oc_confirmationID c) _ Hok)) as H.
  destruct (plan_answer _ (plan_answer _ ps)) as [p steps]. cbv zeta. destruct (_ || _); [by intros [= <- _ _]|].
  destruct steps as [|st steps]; [by intros [= <- _ _]|]. destruct (DenialResults _ _ _) as [[results answered]|]; [|done].
  intros [= <- _ _]. unfold walk_ok in *. cbn [fst snd] in *. by rewrite add_denials_answers.
Qed.

Lemma walkReady_inv {S} (I : S -> Prop) (f : S -> orderedCall -> result flow_error (S * orderedCall * bool)) :
  (forall s c s' c' b, I s -> f s c = Ok (s', c', b) -> I s') ->
  forall calls s s' cs, I s -> walkReady f s calls = Ok (s', cs) -> I s'.
Proof.
  intros Hf. induction calls as [|c calls IH]; intros s s' cs Hs; cbn [walkReady]; [by intros [= <- _]|].
  destruct (_ && _); [by intros [= <- _]|]. destruct (f s c) as [[[s1 c1] b]|] eqn:E; [|done]. pose proof (Hf _ _ _ _ _ Hs E) as H1.
  destruct b; [|by intros [= <- _]]. destruct (walkReady f s1 calls) as [[s2 cs1]|] eqn:E1; [|done]. intros [= <- _]. by eapply IH.
Qed.

Lemma take_posted_ok posted tid answered evs : forall p calls, walk_ok posted (p, []) ->
  walk_ok posted ((take_posted tid answered p calls evs).1, []) /\
  ap_Steps (take_posted tid answered p calls evs).1 = ap_Steps p.
Proof.
  induction evs as [|ev evs IH]; intros p calls H; cbn [take_posted]; [done|].
  destruct (_ && answered _); [|destruct (negb _); by apply IH].
  set (p1 := MkPlan _ _ _ _). change (ap_Steps p) with (ap_Steps p1). apply IH. destruct H as (H1 & H2 & H3). split_and!; [done| |].
  - intros id Hid. destruct (H2 id Hid) as [? ?]. cbn in *. split; [set_solver|done].
  - intros id Hid. apply H3. cbn in *. set_solver.
Qed.

Lemma plan_walk_ok posted db sid tid evs syn p p' calls : ap_Steps p !! tid = None -> walk_ok posted (p, []) ->
  plan_walk db sid tid evs syn p = Ok (p', calls) ->
  walk_ok posted (p', []) /\ forall id, id ∈ map as_Answer (plan_steps p) -> id ∈ map as_Answer (plan_steps p').
Proof.
  intros Hn Hok. unfold plan_walk. destruct (threadCallsOf db sid tid) as [cs|]; [|done].
  destruct (take_posted_ok posted tid (fun id => mem_string id (map answerRef syn)) evs p
    (filter (fun c => mem_string (oc_id c) (map answerRef syn) = false) cs) Hok) as [H1 H2].
  destruct (take_posted _ _ _ _ _) as [p1 cs1]. cbn [fst] in *.
  destruct (walkReady _ _ _) as [[[p2 steps] cs2]|] eqn:Ew; [|done].
  assert (Hw : walk_ok posted (p2, steps) /\ ap_Steps p2 = ap_Steps p).
  { rewrite <- H2. revert Ew. apply (walkReady_inv (fun ps => walk_ok posted ps /\ ap_Steps ps.1 = ap_Steps p1)); [|done].
    intros ps c ps' c' b [Hp Hs] Hc. split; [by eapply plan_consume_ok|]. rewrite <- Hs. clear -Hc. revert Hc. unfold plan_consume.
    assert (Ha : forall id ps, ap_Steps (plan_answer id ps).1 = ap_Steps ps.1).
    { intros id [p s]. unfold plan_answer. by case_bool_decide. }
    pose proof (eq_trans (Ha (oc_resultID c) (plan_answer (oc_confirmationID c) ps)) (Ha (oc_confirmationID c) ps)) as H.
    destruct (plan_answer _ (plan_answer _ ps)) as [p steps]. cbv zeta. destruct (_ || _); [by intros [= <- _ _]|].
    destruct steps; [by intros [= <- _ _]|]. destruct (DenialResults _ _ _) as [[? ?]|]; [|done]. by intros [= <- _ _]. }
  destruct Hw as [Hw Hs].
  destruct steps as [|st steps]; intros [= <- _].
  { split; [done|]. unfold plan_steps. by rewrite Hs. }
  set (p3 := MkPlan _ _ _ _). assert (Hperm : plan_steps p3 ≡ₚ plan_steps p2 ++ st :: steps).
  { unfold plan_steps, p3. cbn [ap_Steps]. rewrite map_to_list_insert by (by rewrite Hs). cbn [map concat snd]. apply Permutation_app_comm. }
  destruct Hw as (Hnd & Hin & Hpend). cbn [fst snd] in *. rewrite <- map_app in Hnd, Hin.
  assert (Hids : map as_Answer (plan_steps p3) ≡ₚ map as_Answer (plan_steps p2 ++ st :: steps)) by (by rewrite Hperm).
  split.
  - unfold walk_ok. cbn [fst snd map]. rewrite app_nil_r. split_and!; [by rewrite Hids| |done].
    intros id Hid. rewrite Hids in Hid. by apply Hin.
  - intros id Hid. rewrite Hids, map_app. apply elem_of_app. left. unfold plan_steps in *. by rewrite Hs.
Qed.
(** The layouts a send makes: its arms settle or interrupt each thread once, and record what
    that wrote at the interrupt, or where the thread's answers are settled. *)
Inductive built (db : ldb) (sid : string) : sendLayout -> Prop :=
| built_new posted : NoDup (map n_id posted) -> built db sid (newSendLayout posted)
| built_settle l tid kind po p' flow : built db sid l -> ap_Steps (sl_answers l) !! tid = None ->
    Settle db sid tid kind (sl_posted l) po (sl_answers l) = Ok (p', flow) -> built db sid (with_answers l p')
| built_interrupted l tid i ev out p' : built db sid l -> ap_Steps (sl_answers l) !! tid = None ->
    sl_posted l !! i = Some ev -> n_type ev = EventUserInterrupt ->
    Interrupted db sid tid (sl_posted l) (io_settled out) (sl_answers l) = Ok p' ->
    built db sid (with_answers (interrupted l i out) p')
| built_reidled l tid pair : built db sid l -> built db sid (reidled l (settledAt l tid) pair)
| built_resumed l tid pair : built db sid l -> built db sid (resumed l tid pair)
| built_woke l tid pair : built db sid l -> built db sid (woke l tid pair).

Definition layout_inv (l : sendLayout) : Prop :=
  NoDup (map n_id (sl_posted l)) /\ walk_ok (sl_posted l) (sl_answers l, []) /\
  (forall i, i ∈ dom (sl_settled l) \/ i ∈ dom (sl_idled l) -> exists ev, sl_posted l !! i = Some ev /\ n_type ev = EventUserInterrupt) /\
  (forall i, i ∈ dom (sl_parked l) -> i = length (sl_posted l) \/
    exists ev, sl_posted l !! i = Some ev /\ n_id ev ∈ map as_Answer (plan_steps (sl_answers l))).

Lemma layout_inv_ok l : layout_inv l -> layout_ok l.
Proof.
  intros (Hnd & (Hw1 & Hw2 & Hw3) & Hint & Hpark). cbn [fst snd map] in *. rewrite app_nil_r in *. constructor; try done; auto.
  split; [done|]. intros st Hst. apply Hw2, list_elem_of_fmap. by exists st.
Qed.

(** The wakes and the deliveries do not matter to it. *)
Lemma layout_inv_wakes l ws ds : layout_inv l ->
  layout_inv (MkLayout (sl_posted l) (sl_settled l) (sl_idled l) ws (sl_parked l) ds (sl_answers l)).
Proof. done. Qed.

Lemma layout_inv_woke l tid pair : layout_inv l -> layout_inv (woke l tid pair).
Proof. unfold woke. by destruct pair. Qed.

Lemma layout_inv_plan l p' : layout_inv l -> walk_ok (sl_posted l) (p', []) ->
  (forall id, id ∈ map as_Answer (plan_steps (sl_answers l)) -> id ∈ map as_Answer (plan_steps p')) ->
  layout_inv (with_answers l p').
Proof.
  intros (Hnd & _ & Hint & Hpark) Hw Hmono. split_and!; [done..|]. intros i [Hi | (ev & Hi & Hin)]%Hpark; [by left|right]. eauto.
Qed.

Lemma interrupted_fields l i out : sl_posted (interrupted l i out) = sl_posted l /\
  sl_answers (interrupted l i out) = sl_answers l /\ sl_parked (interrupted l i out) = sl_parked l /\
  sl_settled (interrupted l i out) = append_at (sl_settled l) i (io_settled out) /\
  sl_idled (interrupted l i out) = append_at (sl_idled l) i (io_idled out).
Proof.
  unfold interrupted, woke. destruct (io_told out) as [t|]; [destruct (to_wake t)|]; by destruct (io_resume out).
Qed.

Lemma layout_inv_interrupted l i ev out : layout_inv l -> sl_posted l !! i = Some ev -> n_type ev = EventUserInterrupt ->
  layout_inv (interrupted l i out).
Proof.
  intros (Hnd & Hw & Hint & Hpark) Hi Ht. destruct (interrupted_fields l i out) as (H1 & H2 & H3 & H4 & H5).
  unfold layout_inv. rewrite H1, H2, H3, H4, H5. unfold append_at. split_and!; try done.
  intros j. rewrite !dom_insert. intros Hj. destruct (decide (j = i)) as [->|]; [by exists ev|]. apply Hint. set_solver.
Qed.

(** The last answer of a walk is one of its answers. *)
Lemma last_answer_in answers posted : (exists ev, ev ∈ posted /\ n_id ev ∈ answers) ->
  exists ev, posted !! last_answer answers posted = Some ev /\ n_id ev ∈ answers.
Proof.
  unfold last_answer. induction posted as [|e posted IH] using rev_ind; intros (ev & He & Hid); [by apply not_elem_of_nil in He|].
  rewrite imap_app, foldl_app. cbn [imap foldl compose fst snd]. rewrite Nat.add_0_r.
  destruct (mem_string (n_id e) answers) eqn:Em.
  - exists e. rewrite list_lookup_middle by done. split; [done|]. by apply mem_string_spec.
  - apply elem_of_app in He as [He | ->%list_elem_of_singleton].
    + destruct IH as (ev' & H1 & H2); [by exists ev|]. exists ev'. split; [|done]. by apply lookup_app_l_Some.
    + apply mem_string_spec in Hid. congruence.
Qed.

Lemma settledAt_place l tid : layout_inv l -> settledAt l tid = length (sl_posted l) \/
  exists ev, sl_posted l !! settledAt l tid = Some ev /\ n_id ev ∈ map as_Answer (plan_steps (sl_answers l)).
Proof.
  intros (_ & (_ & Hw & _) & _). unfold settledAt, steps_of. cbn [fst snd map] in Hw. rewrite app_nil_r in Hw.
  destruct (ap_Steps (sl_answers l) !! tid) as [steps|] eqn:E; cbn [default]; [|by left].
  change (from_option Datatypes.id [] (Some steps)) with steps. destruct steps as [|st steps]; [by left|]. right.
  assert (Hsub : forall id, id ∈ map as_Answer (st :: steps) -> id ∈ map as_Answer (plan_steps (sl_answers l))).
  { intros id (s & -> & Hs)%list_elem_of_fmap. apply list_elem_of_fmap. exists s. split; [done|]. unfold plan_steps.
    apply list_elem_of_In, in_concat. exists (st :: steps). split; [|by apply list_elem_of_In].
    apply in_map_iff. exists (tid, st :: steps). split; [done|]. by apply list_elem_of_In, elem_of_map_to_list. }
  destruct (last_answer_in (map as_Answer (st :: steps)) (sl_posted l)) as (ev & H1 & H2).
  { assert (Hst : as_Answer st ∈ map as_Answer (st :: steps)) by left.
    destruct (Hw _ (Hsub _ Hst)) as (_ & ev & He & Hid & _). exists ev. by rewrite Hid. }
  exists ev. auto.
Qed.

Lemma resumed_answers l tid pair : sl_posted (resumed l tid pair) = sl_posted l /\ sl_settled (resumed l tid pair) = sl_settled l /\
  sl_idled (resumed l tid pair) = sl_idled l /\ sl_parked (resumed l tid pair) = sl_parked l /\
  ap_Pending (sl_answers (resumed l tid pair)) = ap_Pending (sl_answers l) /\
  map as_Answer (plan_steps (sl_answers (resumed l tid pair))) ≡ₚ map as_Answer (plan_steps (sl_answers l)).
Proof.
  unfold resumed. destruct (String.eqb tid EmptyString); [|done].
  destruct (ap_Steps (sl_answers l) !! tid) as [steps|] eqn:E; [|done].
  cbn [sl_posted sl_settled sl_idled sl_parked sl_answers ap_Pending]. split_and!; [done..|].
  unfold plan_steps. cbn [ap_Steps]. rewrite <- (insert_delete_id _ _ _ E) at 2. rewrite <- insert_delete_eq.
  rewrite !map_to_list_insert by apply lookup_delete_eq. cbn [map concat snd]. rewrite !map_app. f_equiv.
  apply reflexive_eq. rewrite map_map. by apply map_ext.
Qed.

Lemma built_inv db sid l : built db sid l -> layout_inv l.
Proof.
  induction 1 as [posted Hnd|l tid kind po p' flow _ IH Hn Hs|l tid i ev out p' _ IH Hn Hi Ht Hs|l tid pair _ IH|l tid pair _ IH|l tid pair _ IH].
  - split_and!; [done| | |].
    + unfold walk_ok, newSendLayout, NewAnswerPlan, plan_steps. cbn. rewrite map_to_list_empty. cbn. split_and!; [constructor| |].
      * by intros id ?%not_elem_of_nil.
      * intros id (ev & -> & He)%elem_of_list_to_set%list_elem_of_fmap. apply list_elem_of_filter in He as [Ha He].
        exists ev. by rewrite <- isAnswer_event.
    + intros i [Hi|Hi]; cbn in Hi; set_solver.
    + intros i Hi. cbn in Hi. set_solver.
  - unfold Settle in Hs. destruct (plan_walk db sid tid (sl_posted l) [] (sl_answers l)) as [[p1 calls]|] eqn:E; [|done].
    injection Hs as <- _. destruct (plan_walk_ok (sl_posted l) _ _ _ _ _ _ _ _ Hn (proj1 (proj2 IH)) E) as [H1 H2].
    by apply layout_inv_plan.
  - pose proof (layout_inv_interrupted l i ev out IH Hi Ht) as Hinv. destruct (interrupted_fields l i out) as (H1 & H2 & _).
    unfold Interrupted in Hs. destruct (negb _).
    + injection Hs as <-. apply layout_inv_plan; [done| |]; rewrite ?H1, ?H2; [apply IH|done].
    + destruct (plan_walk _ _ _ _ _ _) as [[p1 calls]|] eqn:E; [|done]. injection Hs as <-.
      destruct (plan_walk_ok (sl_posted l) _ _ _ _ _ _ _ _ Hn (proj1 (proj2 IH)) E) as [H3 H4].
      apply layout_inv_plan; [done| |]; rewrite ?H1, ?H2; done.
  - destruct (settledAt_place l tid IH) as [Hat|Hat]; destruct IH as (Hnd & Hw & Hint & Hpark); (split_and!; [done..|]);
      intros i; unfold reidled, append_at; cbn [sl_parked sl_posted sl_answers]; rewrite dom_insert;
      intros [->%elem_of_singleton | Hi%Hpark]%elem_of_union; auto.
  - destruct IH as (Hnd & (Hw1 & Hw2 & Hw3) & Hint & Hpark). destruct (resumed_answers l tid pair) as (H1 & H2 & H3 & H4 & H5 & H6).
    cbn [fst snd map] in *. rewrite app_nil_r in *. unfold layout_inv, walk_ok. cbn [fst snd map]. rewrite app_nil_r, H1, H2, H3, H4, H5.
    split_and!; [done|by rewrite H6| |done|done|].
    + intros id Hid. rewrite H6 in Hid. auto.
    + intros i [Hi | (ev & Hi & Hin)]%Hpark; [by left|]. right. exists ev. by rewrite H6.
  - by apply layout_inv_woke.
Qed.

(** C13: a send is written whole.  Laying it out neither loses nor repeats a row: the posted
    events, the denials' results, what each interrupt settled and idled, what a parked
    thread re-announces, each wake's pair with what it consumes, and the delivered notices
    are each written once. *)
Theorem processingOrder_complete (db : ldb) (sid : string) (l : sendLayout) (Hbuilt : built db sid l) :
  processingOrder l ≡ₚ
  sl_posted l ++ concat (map as_Denials (plan_steps (sl_answers l))) ++
  concat (map snd (map_to_list (sl_parked l))) ++ concat (map snd (map_to_list (sl_settled l))) ++
  concat (map snd (map_to_list (sl_idled l))) ++
  concat (map (fun w => wk_pair w ++ wk_consumed w) (sl_wakes l)) ++ map dr_row (sl_delivered l).
Proof.
  pose proof (layout_inv_ok l (built_inv db sid l Hbuilt)) as Hok.
  assert (Hsplit : forall a b c d e : nat -> list NewEvent, forall k, concat (map (fun i => a i ++ b i ++ c i ++ d i ++ e i) k) ≡ₚ
    concat (map a k) ++ concat (map b k) ++ concat (map c k) ++ concat (map d k) ++ concat (map e k)).
  { intros a b c d e k. etrans; [apply (concat_zip_perm _ a (fun i => b i ++ c i ++ d i ++ e i)); by intros|]. f_equiv.
    etrans; [apply (concat_zip_perm _ b (fun i => c i ++ d i ++ e i)); by intros|]. f_equiv.
    etrans; [apply (concat_zip_perm _ c (fun i => d i ++ e i)); by intros|]. f_equiv. by apply concat_zip_perm. }
  rewrite processingOrder_eq, place_wakes_perm, sort_stable_perm. unfold inputs_of. rewrite map_app, map_map. cbn [in_ev].
  pose proof (posted_rows l Hok) as Hrows. rewrite Hsplit, own_posted, denials_posted in Hrows by done.
  set (n := length (sl_posted l)) in *.
  assert (Hseq : forall k, NoDup (seq 0 k)) by (intros k; apply NoDup_ListNoDup, seq_NoDup).
  assert (Hin : forall rows, (forall i, i ∈ dom rows -> exists ev, sl_posted l !! i = Some ev /\ n_type ev = EventUserInterrupt) ->
    concat (map (rows_at rows) (seq 0 n)) ≡ₚ concat (map snd (map_to_list rows))).
  { intros rows H. apply rows_all; [done|]. intros i (ev & Hi & _)%H. apply elem_of_seq. apply lookup_lt_Some in Hi. unfold n. lia. }
  rewrite (Hin _ (lo_settled l Hok)), (Hin _ (lo_idled l Hok)) in Hrows.
  assert (Hpark : concat (map (rows_at (sl_parked l)) (seq 0 n)) ++ rows_at (sl_parked l) n ≡ₚ concat (map snd (map_to_list (sl_parked l)))).
  { rewrite <- (rows_all _ (seq 0 (S n))); [|done|].
    - rewrite seq_S, map_app, concat_app. cbn. by rewrite app_nil_r.
    - intros i [-> | (ev & Hi & _)]%(lo_parked l Hok); apply elem_of_seq; [unfold n; lia|]. apply lookup_lt_Some in Hi. unfold n. lia. }
  rewrite <- Hpark. revert Hrows. set (inp := map in_ev (concat _)). intros Hrows.
  transitivity ((concat (on_receipt l) ++ inp) ++ rows_at (sl_parked l) n ++
    concat (map (fun w => wk_pair w ++ wk_consumed w) (sl_wakes l)) ++ map dr_row (sl_delivered l)); [solve_Permutation|].
  rewrite Hrows. solve_Permutation.
Qed.

Lemma on_receipt_at l i ev : sl_posted l !! i = Some ev -> exists pre post, concat (on_receipt l) =
  pre ++ (place_posted l (positions (sl_posted l)) (steps_at (positions (sl_posted l)) (sl_answers l)) i ev).1 ++ post.
Proof.
  intros Hi. unfold on_receipt. rewrite map_imap. apply list_elem_of_split_length in Hi as (a & b & -> & Hl).
  rewrite imap_app. cbn [imap]. rewrite concat_app. cbn [concat]. unfold compose. rewrite Nat.add_0_r, Hl. eauto.
Qed.

(** A send is written in the order it is processed.  Each interrupt stands between what
    settling it wrote and the idles of the threads it ended; each woken thread's pair is
    followed at once by what its turn consumes, the inputs for it in the order received;
    and what no turn of this send consumes comes last. *)
Theorem processingOrder_places (db : ldb) (sid : string) (l : sendLayout) (Hbuilt : built db sid l)
    (Hwakes : NoDup (map wk_thread (sl_wakes l))) :
  let waiting := sort_stable input_le (inputs_of l) in
  (forall i ev, sl_posted l !! i = Some ev -> n_type ev = EventUserInterrupt ->
     exists pre post, processingOrder l = pre ++ rows_at (sl_settled l) i ++ [ev] ++ rows_at (sl_idled l) i ++ post) /\
  (forall w, w ∈ sl_wakes l -> exists pre post, processingOrder l =
     pre ++ wk_pair w ++ wk_consumed w ++ map in_ev (filter (fun i => for_wake w i = true) waiting) ++ post) /\
  exists pre, processingOrder l = pre ++ map in_ev (filter (fun i => unwoken (sl_wakes l) i = true) waiting).
Proof.
  cbv zeta. pose proof (layout_inv_ok l (built_inv db sid l Hbuilt)) as Hok. rewrite processingOrder_eq. split_and!.
  - intros i ev Hi Ht. destruct (on_receipt_at l i ev Hi) as (pre & post & ->). unfold place_posted.
    assert (Hna : is_answer_event ev = false) by (unfold is_answer_event; by rewrite Ht).
    rewrite bool_decide_false.
    2:{ intros Hp. by rewrite (pending_answer l Hok i ev Hi Hp) in Hna. }
    rewrite Hna, Ht, String.eqb_refl. cbn [fst]. rewrite <- !app_assoc. eauto.
  - intros w Hw. destruct (place_wakes_at (sl_wakes l) (sort_stable input_le (inputs_of l)) w Hwakes Hw) as (pre & post & ->).
    generalize (concat (on_receipt l) ++ rows_at (sl_parked l) (length (sl_posted l))). intros front.
    generalize (map in_ev (place_wakes (sl_wakes l) (sort_stable input_le (inputs_of l))).2). intros back.
    exists (front ++ pre), (post ++ back). by rewrite <- !app_assoc.
  - rewrite place_wakes_rest. eexists. by rewrite app_assoc.
Qed.

(** ** One idle *)

Lemma last_idle_app a e b : is_idle_event e = true -> Forall (fun x => is_idle_event x = false) b ->
  last_idle (a ++ e :: b) = (Some (length a), forallb (fun x => negb (is_idle_event x) || n_restated x) (a ++ e :: b)).
Proof.
  intros He Hb. unfold last_idle. change (imap pair (a ++ e :: b)) with (imap (fun i x => (i, x)) (a ++ e :: b)).
  assert (Hrest : forall l k acc, (foldl (fun acc e => if is_idle_event e.2 then (Some e.1, acc.2 && n_restated e.2) else acc) acc
      (imap (fun i x => ((k + i)%nat, x)) l)).2 = acc.2 && forallb (fun x => negb (is_idle_event x) || n_restated x) l /\
    (Forall (fun x => is_idle_event x = false) l ->
     foldl (fun acc e => if is_idle_event e.2 then (Some e.1, acc.2 && n_restated e.2) else acc) acc
      (imap (fun i x => ((k + i)%nat, x)) l) = acc)).
  { induction l as [|x l IH]; intros k acc; cbn [imap foldl forallb fst snd]; [by rewrite andb_true_r|].
    assert (Hs : imap ((fun i (y : NewEvent) => ((k + i)%nat, y)) ∘ S) l = imap (fun i y => ((S k + i)%nat, y)) l)
      by (apply imap_ext; intros i y _; cbn; f_equal; lia).
    rewrite Hs. destruct (IH (S k) (if is_idle_event x then (Some (k + 0)%nat, acc.2 && n_restated x) else acc)) as [H1 H2]. split.
    - rewrite H1. destruct (is_idle_event x); cbn; by rewrite ?andb_assoc.
    - intros [Hx Hl]%Forall_cons. rewrite H2 by done. by rewrite Hx. }
  rewrite imap_app, foldl_app. cbn [imap foldl fst snd]. rewrite He.
  assert (Hs : imap (fun i (x : NewEvent) => ((length a + S i)%nat, x)) b = imap (fun i x => ((S (length a) + i)%nat, x)) b)
    by (apply imap_ext; intros i y _; cbn; f_equal; lia).
  unfold compose. rewrite Hs. rewrite (proj2 (Hrest b _ _) Hb), Nat.add_0_r. f_equal.
  rewrite (proj1 (Hrest a O _)), forallb_app. cbn [forallb andb fst snd]. rewrite He. cbn [negb orb].
  replace (forallb _ b) with true; [by rewrite andb_true_r|]. symmetry. apply forallb_forall. intros x Hx%list_elem_of_In.
  rewrite Forall_forall in Hb. by rewrite Hb.
Qed.

(** What the send's fold of the session reads: the last idle only, which closes the running
    interval unless every idle only restated one. *)
Lemma keepLastSessionIdle_eq a e b : is_idle_event e = true -> Forall (fun x => is_idle_event x = false) b ->
  keepLastSessionIdle (a ++ e :: b) =
  filter (fun x => is_idle_event x = false) a ++
  restate e (forallb (fun x => negb (is_idle_event x) || n_restated x) (a ++ e :: b)) :: b.
Proof.
  intros He Hb. unfold keepLastSessionIdle. rewrite last_idle_app by done. set (r := forallb _ _).
  clearbody r. rewrite imap_app, concat_app. cbn [imap concat]. rewrite Nat.add_0_r, Nat.eqb_refl. cbn [app]. f_equal; [|f_equal].
  - assert (H : forall k, concat (imap (fun i ev => if Nat.eqb i (length a + k)%nat then [restate ev r] else
        if is_idle_event ev then [] else [ev]) a) = filter (fun x => is_idle_event x = false) a).
    { clear. induction a as [|x a IH]; intros k; cbn [imap concat length]; [done|]. rewrite filter_cons.
      etrans; [exact (f_equal (app (if is_idle_event x then [] else [x])) (IH k))|]. by destruct (is_idle_event x). }
    rewrite <- (H O), Nat.add_0_r. done.
  - clear -Hb. assert (H : forall k (g : NewEvent -> NewEvent), concat (imap (fun i ev => if Nat.eqb (length a + S (k + i))%nat (length a) then [g ev] else
        if is_idle_event ev then [] else [ev]) b) = b).
    { induction b as [|x b IH]; intros k g; cbn [imap concat]; [done|]. apply Forall_cons in Hb as [Hx Hb].
      assert (Hne : Nat.eqb (length a + S (k + 0)) (length a) = false) by (apply Nat.eqb_neq; lia). rewrite Hne, Hx. cbn [app]. f_equal.
      rewrite <- (IH Hb (S k) g) at 2. f_equal. apply imap_ext. intros i y _. unfold compose. by replace (k + S i)%nat with (S k + i)%nat by lia. }
    exact (H O (fun ev => restate ev r)).
Qed.

Lemma no_idle batch : Forall (fun x => is_idle_event x = false) batch -> keepLastSessionIdle batch = batch.
Proof.
  intros H. unfold keepLastSessionIdle, last_idle.
  assert (Hf : forall l : list (nat * NewEvent), Forall (fun e => is_idle_event e.2 = false) l -> forall acc,
    foldl (fun acc e => if is_idle_event e.2 then (Some e.1, acc.2 && n_restated e.2) else acc) acc l = acc).
  { induction 1 as [|e l He _ IH]; intros acc; cbn [foldl]; [done|]. by rewrite He, IH. }
  rewrite Hf; [done|]. apply Forall_forall. intros [i ev] (j & x & [= -> ->] & Hx)%elem_of_lookup_imap. rewrite Forall_lookup in H. by eapply H.
Qed.

(** A session told it is idle is told once.  Of a batch's idles the last is kept, in its
    place and among everything else as it was; it only restates an idle when every idle of
    the batch did. *)
Theorem keepLastSessionIdle_one (batch : list NewEvent) :
  (Forall (fun x => is_idle_event x = false) batch -> keepLastSessionIdle batch = batch) /\
  forall a e b, batch = a ++ e :: b -> is_idle_event e = true -> Forall (fun x => is_idle_event x = false) b ->
    keepLastSessionIdle batch =
    filter (fun x => is_idle_event x = false) a ++
    restate e (forallb (fun x => negb (is_idle_event x) || n_restated x) batch) :: b.
Proof. split; [apply no_idle|]. intros a e b ->. apply keepLastSessionIdle_eq. Qed.

(** ** A send of a result, an interrupt of a child and a message, to a primary that waits *)

Definition call_row : erow :=
  MkErow "t2" "s" 1 EventAgentCustomToolUse (JObject [("name", JString "search"); ("evaluated_permission", JString "allow")])
    (Some second) (10 * second) EmptyString false.

Definition call_db : ldb := MkLdb [call_row] ∅ ∅ [].

Definition posted_event (id ty thread : string) (payload : json) : NewEvent :=
  MkNewEvent id ty (Some payload) None thread false false.

Definition sample_posted : list NewEvent :=
  [posted_event "m" EventUserMessage EmptyString (JObject []);
   posted_event "r" EventUserCustomToolRes EmptyString (JObject [("custom_tool_use_id", JString "t2")]);
   posted_event "i" EventUserInterrupt "sthr_c" (JObject [])].

Definition emitted (id : string) : NewEvent := posted_event id EventSessionStatusIdle EmptyString (JObject []).

Definition child_out : interruptThreadOut := MkOut [emitted "x"] [emitted "y"] None [].

Definition nobody (_ : string) : bool := false.

Definition settled_plan : AnswerPlan :=
  match Settle call_db "s" EmptyString "cloud" sample_posted nobody (NewAnswerPlan sample_posted) with
  | Ok (p, _) => p
  | Err _ => NewAnswerPlan []
  end.

Definition sample_layout : sendLayout :=
  with_answers
    (interrupted (resumed (with_answers (newSendLayout sample_posted) settled_plan) EmptyString [emitted "pair"]) 2 child_out)
    (sl_answers (resumed (with_answers (newSendLayout sample_posted) settled_plan) EmptyString [emitted "pair"])).

Lemma sample_built : built call_db "s" sample_layout.
Proof.
  unfold sample_layout. eapply built_interrupted with (tid := "sthr_c") (ev := posted_event "i" EventUserInterrupt "sthr_c" (JObject [])).
  - apply built_resumed. destruct (Settle call_db "s" EmptyString "cloud" sample_posted nobody (NewAnswerPlan sample_posted)) as [[p f]|] eqn:E.
    + eapply built_settle; [apply built_new| |unfold settled_plan; rewrite E; exact E].
      * by apply (bool_decide_unpack _); vm_compute.
      * reflexivity.
    + vm_compute in E. discriminate.
  - vm_compute. reflexivity.
  - reflexivity.
  - reflexivity.
  - vm_compute. reflexivity.
Qed.

Lemma processingOrder_complete_witness :
  map n_id (processingOrder sample_layout) = ["r"; "x"; "i"; "y"; "pair"; "m"] /\
  processingOrder sample_layout ≡ₚ sample_posted ++ map emitted ["x"; "y"; "pair"].
Proof.
  split; [vm_compute; reflexivity|]. etrans; [exact (processingOrder_complete call_db "s" sample_layout sample_built)|].
  vm_compute. reflexivity.
Defined.

Lemma processingOrder_places_witness :
  exists pre post, processingOrder sample_layout = pre ++ [emitted "x"] ++ [posted_event "i" EventUserInterrupt "sthr_c" (JObject [])] ++ [emitted "y"] ++ post.
Proof.
  assert (Hw : NoDup (map wk_thread (sl_wakes sample_layout))) by (by apply (bool_decide_unpack _); vm_compute).
  exact (proj1 (processingOrder_places call_db "s" sample_layout sample_built Hw) 2%nat _ eq_refl eq_refl).
Defined.

Lemma keepLastSessionIdle_one_witness :
  keepLastSessionIdle [emitted "a"; posted_event "m" EventUserMessage EmptyString (JObject []); emitted "b"] =
  [posted_event "m" EventUserMessage EmptyString (JObject []); emitted "b"].
Proof.
  etrans; [exact (proj2 (keepLastSessionIdle_one [emitted "a"; posted_event "m" EventUserMessage EmptyString (JObject []); emitted "b"])
    [emitted "a"; posted_event "m" EventUserMessage EmptyString (JObject [])] (emitted "b") [] eq_refl eq_refl (Forall_nil_2 _))|].
  vm_compute. reflexivity.
Defined.
