(* ===== verification/Outcomes.v ===== *)
(** * Outcomes: the outcome evaluations of a session (internal/events/outcomes.go,
    internal/domain/outcome.go, and what the brain's settlements do to them).

    A session's [outcome_evaluations] column is the list of its entries, decoded.  A client
    adds one with a [user.define_outcome]; model requests, grading cycles and interrupts
    move its result; a terminal result is final. *)
From Stdlib Require Import Lia Ascii.
From stdpp Require Import pretty.
From S2P Require Import Prelude GoStrings Json Domain Consumption Log.

Definition OutcomeResultPending : string := "pending".
Definition OutcomeResultRunning : string := "running".
Definition OutcomeResultEvaluating : string := "evaluating".
Definition OutcomeResultSatisfied : string := "satisfied".
Definition OutcomeResultMaxIterationsReached : string := "max_iterations_reached".
Definition OutcomeResultFailed : string := "failed".
Definition OutcomeResultInterrupted : string := "interrupted".

Definition OutcomeResultTerminal (result : string) : bool :=
  mem_string result [OutcomeResultSatisfied; OutcomeResultMaxIterationsReached; OutcomeResultFailed; OutcomeResultInterrupted].

Record OutcomeEvaluation := MkOutcome {
  oe_Type : string; oe_OutcomeID : string; oe_Description : string; oe_Explanation : string;
  oe_Iteration : Z; oe_Result : string; oe_CompletedAt : option Z }.

(** ** Definitions *)

Definition maxRubricFileBytes : Z := 256 * 1024.

Record DefineOutcome := MkDefine {
  do_OutcomeID : string; do_Description : string; do_MaxIterations : Z;
  do_RubricType : string; do_RubricContent : string; do_RubricFileID : string }.

(** The rubric's own struct, decoded over its fields so far. *)
Definition dec_rubric_fields (cur : string * string * string) (v : json) : option (string * string * string) :=
  match v with
  | JObject ms =>
      match decode_field dec_string "type" cur.1.1 ms, decode_field dec_string "content" cur.1.2 ms, decode_field dec_string "file_id" cur.2 ms with
      | Some t, Some c, Some f => Some (t, c, f)
      | _, _, _ => None
      end
  | JNull => Some cur
  | _ => None
  end.

Definition ParseDefineOutcome (payload : option json) : option DefineOutcome :=
  match body_field dec_string EmptyString payload "outcome_id", body_field dec_string EmptyString payload "description",
        body_field dec_int 0 payload "max_iterations",
        body_field dec_rubric_fields (EmptyString, EmptyString, EmptyString) payload "rubric" with
  | Some id, Some d, Some n, Some (t, c, f) => Some (MkDefine id d n t c f)
  | _, _, _, _ => None
  end.

Inductive outcome_refusal :=
| BadDefinition | TooManyOutcomes | StillActive (id res : string) | RubricFileMissing (id : string) | RubricFileTooLarge (id : string) (size : Z).

Fixpoint DefineOutcomes (evs : list NewEvent) : result outcome_refusal (list DefineOutcome) :=
  match evs with
  | [] => Ok []
  | ev :: evs' =>
      if negb (String.eqb (n_type ev) EventUserDefineOutcome) then DefineOutcomes evs'
      else match ParseDefineOutcome (n_payload ev) with
           | None => Err BadDefinition
           | Some d => try out <- DefineOutcomes evs'; Ok (d :: out)
           end
  end.

(** A stored file, as the check reads it: its size, and when it stops being live. *)
Record file_row := MkFile { f_size : Z; f_expires : option Z }.

(** [store.FileLiveSQL] *)
Definition file_live (now : Z) (f : file_row) : bool :=
  match f_expires f with None => true | Some t => now <? t end.

Definition check_rubric_file (now : Z) (files : gmap string file_row) (d : DefineOutcome) : result outcome_refusal unit :=
  if negb (String.eqb (do_RubricType d) "file") then Ok tt
  else match files !! do_RubricFileID d with
       | Some f =>
           if negb (file_live now f) then Err (RubricFileMissing (do_RubricFileID d))
           else if maxRubricFileBytes <? f_size f then Err (RubricFileTooLarge (do_RubricFileID d) (f_size f)) else Ok tt
       | None => Err (RubricFileMissing (do_RubricFileID d))
       end.

(** The first entry that is not terminal. *)
Definition ActiveOutcome (evals : list OutcomeEvaluation) : option OutcomeEvaluation :=
  find (fun e => negb (OutcomeResultTerminal (oe_Result e))) evals.

Definition ValidateDefineOutcomes (now : Z) (files : gmap string file_row) (evals : list OutcomeEvaluation)
    (defs : list DefineOutcome) (batchInterrupts : bool) : result outcome_refusal unit :=
  match defs with
  | [] => Ok tt
  | d :: rest =>
      if negb (bool_decide (rest = [])) then Err TooManyOutcomes
      else
        let active := if batchInterrupts then None else ActiveOutcome evals in
        match active with
        | Some e => Err (StillActive (oe_OutcomeID e) (oe_Result e))
        | None => check_rubric_file now files d
        end
  end.

Definition NewOutcomeEntry (d : DefineOutcome) : OutcomeEvaluation :=
  MkOutcome "outcome_evaluation" (do_OutcomeID d) (do_Description d) EmptyString 0 OutcomeResultPending None.

Definition RubricSnapshotKey (outcomeID : string) : string := "outcomes/" +:+ outcomeID +:+ "/rubric".

(** ** Interrupts *)

Definition InterruptedExplanation : string :=
  "The outcome was interrupted by a user.interrupt before evaluation completed.".

(** [domain.ModelUsage{}] *)
Definition zero_usage : json :=
  JObject [("cache_creation_input_tokens", JNumber "0"); ("cache_read_input_tokens", JNumber "0");
           ("input_tokens", JNumber "0"); ("output_tokens", JNumber "0"); ("speed", JNull)].

(** The payload of a [span.outcome_evaluation_end]; its keys are in the order a map is
    marshalled in. *)
Definition end_payload (e : OutcomeEvaluation) (startID result explanation : string) (usage : json) : json :=
  JObject [("explanation", JString explanation); ("iteration", JNumber (pretty (oe_Iteration e)));
           ("outcome_evaluation_start_id", JString startID); ("outcome_id", JString (oe_OutcomeID e));
           ("result", JString result); ("usage", usage)].

(** [payload->>'outcome_id' = $3], of a type: the latest by seq. *)
Definition outcome_row (sid outcomeID : string) (t : EventType) (e : erow) : bool :=
  String.eqb (e_session e) sid && String.eqb (e_type e) t &&
  bool_decide (text_at (e_payload e) "outcome_id" = Some outcomeID).

Definition latest_by_seq (rows : list erow) : option erow :=
  foldl (fun best e => match best with Some b => if e_seq b <? e_seq e then Some e else best | None => Some e end) None rows.

Definition interrupt_end (db : ldb) (sid : string) (e : OutcomeEvaluation) : NewEvent :=
  let startID :=
    if String.eqb (oe_Result e) OutcomeResultEvaluating
    then match latest_by_seq (filter (fun r => outcome_row sid (oe_OutcomeID e) EventSpanOutcomeEvalStart r = true) (l_events db)) with
         | Some r => e_id r
         | None => EmptyString
         end
    else EmptyString in
  MkNewEvent EmptyString EventSpanOutcomeEvalEnd
    (Some (end_payload e startID OutcomeResultInterrupted InterruptedExplanation zero_usage)) None EmptyString false false.

(** The ends of the outcomes an interrupt settles, and whether any entry needs flipping. *)
Definition InterruptOutcomes (db : ldb) (sid : string) (evals : list OutcomeEvaluation) : list NewEvent * bool :=
  let out := map (interrupt_end db sid) (filter (fun e => OutcomeResultTerminal (oe_Result e) = false) evals) in
  (out, negb (bool_decide (out = []))).

Definition FlipNonTerminalOutcomes (now : Z) (evals : list OutcomeEvaluation) : list OutcomeEvaluation :=
  map (fun e =>
    if OutcomeResultTerminal (oe_Result e) then e
    else MkOutcome (oe_Type e) (oe_OutcomeID e) (oe_Description e) InterruptedExplanation (oe_Iteration e)
           OutcomeResultInterrupted (Some now)) evals.

(** ** Work *)

Definition with_result (e : OutcomeEvaluation) (result : string) : OutcomeEvaluation :=
  MkOutcome (oe_Type e) (oe_OutcomeID e) (oe_Description e) (oe_Explanation e) (oe_Iteration e) result (oe_CompletedAt e).

(** One guarded statement; without a pending entry it leaves the row alone. *)
Definition BeginOutcomeWork (evals : list OutcomeEvaluation) : list OutcomeEvaluation :=
  if existsb (fun e => String.eqb (oe_Result e) OutcomeResultPending) evals
  then map (fun e => if String.eqb (oe_Result e) OutcomeResultPending then with_result e OutcomeResultRunning else e) evals
  else evals.

Fixpoint FindDefineOutcome (history : list Event) (outcomeID : string) : option DefineOutcome :=
  match history with
  | [] => None
  | ev :: history' =>
      if negb (String.eqb (Type_ ev) EventUserDefineOutcome) then FindDefineOutcome history' outcomeID
      else match ParseDefineOutcome (Body ev) with
           | Some d => if String.eqb (do_OutcomeID d) outcomeID then Some d else FindDefineOutcome history' outcomeID
           | None => FindDefineOutcome history' outcomeID
           end
  end.

(** The last start for the outcome among [evs], the zero event without one. *)
Definition zero_event : Event := MkEvent EmptyString EmptyString 0 EmptyString None 0.

Definition LatestOutcomeStart (evs : list Event) (outcomeID : string) : Event :=
  foldl (fun start ev =>
    if String.eqb (Type_ ev) EventSpanOutcomeEvalStart &&
       bool_decide (body_field dec_string EmptyString (Body ev) "outcome_id" = Some outcomeID)
    then ev else start) zero_event evs.

(** [id] is the id [domain.NewID] mints. *)
Definition NewOutcomeStartEvent (now : Z) (id outcomeID : string) (iteration : Z) : NewEvent :=
  MkNewEvent id EventSpanOutcomeEvalStart
    (Some (JObject [("iteration", JNumber (pretty iteration)); ("outcome_id", JString outcomeID)])) (Some now) EmptyString false false.
