(* ===== verification/Replay.v ===== *)
(** * Replay: the log as a conversation (internal/brain/replay.go, thinking.go; the text of
    internal/transcript).

    [buildRequest] reads a thread's events in consumption order and rebuilds the messages
    of one provider request.  A content block is a document, or a kept thinking block's
    own bytes.  The tool definitions arrive assembled; SHA-256 over a framed prefix is the
    argument [digest], and [raw_text] a document's own bytes. *)
From Stdlib Require Import Lia.
From S2P Require Import Prelude GoStrings Ids Json Domain Consumption Log Outcomes.

(** ** Text of a content (internal/transcript) *)

Record flat_block := MkFlat {
  fb_type : string; fb_text : string; fb_title : string; fb_source : string;
  fb_content : option (option string) }.

(** A block's struct, its content already flattened. *)
Fixpoint decode_flat (b : flat_block) (members : list (string * (json * option string))) : option flat_block :=
  match members with
  | [] => Some b
  | (k, (v, nested)) :: rest =>
      let str cur := match v with JString s => Some s | JNull => Some cur | _ => None end in
      let next :=
        if key_matches k "type" then option_map (fun s => MkFlat s (fb_text b) (fb_title b) (fb_source b) (fb_content b)) (str (fb_type b))
        else if key_matches k "text" then option_map (fun s => MkFlat (fb_type b) s (fb_title b) (fb_source b) (fb_content b)) (str (fb_text b))
        else if key_matches k "title" then option_map (fun s => MkFlat (fb_type b) (fb_text b) s (fb_source b) (fb_content b)) (str (fb_title b))
        else if key_matches k "source" then option_map (fun s => MkFlat (fb_type b) (fb_text b) (fb_title b) s (fb_content b)) (str (fb_source b))
        else if key_matches k "content" then Some (MkFlat (fb_type b) (fb_text b) (fb_title b) (fb_source b) (Some nested))
        else Some b in
      match next with Some b => decode_flat b rest | None => None end
  end.

Definition new_line : string := String (Ascii.ascii_of_nat 10) EmptyString.

(** [add]: a text that is not empty, on a line of its own. *)
Definition add_line (sb text : string) : string :=
  if String.eqb text EmptyString then sb else if String.eqb sb EmptyString then text else sb +:+ new_line +:+ text.

Definition flat_text (b : flat_block) : string :=
  if String.eqb (fb_type b) "search_result" then
    String.concat new_line
      (filter (fun s => s <> EmptyString) [fb_title b; fb_source b; match fb_content b with Some (Some s) => s | _ => EmptyString end])
  else fb_text b.

(** [FlattenBlocks]; [None] where it reports false. *)
Fixpoint FlattenBlocks (v : json) : option string :=
  match v with
  | JNull => Some EmptyString
  | JArray items =>
      option_map (fun blocks => foldl add_line EmptyString (map flat_text blocks))
        (mapM (M := option) (fun b => b) (map (fun item =>
          match item with
          | JObject ms =>
              decode_flat (MkFlat EmptyString EmptyString EmptyString EmptyString None)
                (map (fun kv : string * json => (kv.1, (kv.2, FlattenBlocks kv.2))) ms)
          | JNull => Some (MkFlat EmptyString EmptyString EmptyString EmptyString None)
          | _ => None
          end) items))
  | _ => None
  end.

(** ** Blocks *)

Inductive rblock :=
| RJson (v : json)
| RBytes (b : string).          (* a kept thinking block's bytes *)

Definition text_json (text : string) : json := JObject [("text", JString text); ("type", JString "text")].

(** [contentBlocks]: a bare string is one text block, null an empty one. *)
Definition contentBlocks (raw : option json) : option (list rblock) :=
  match raw with
  | Some (JString s) => Some [RJson (text_json s)]
  | Some JNull => Some [RJson (text_json EmptyString)]
  | Some (JArray items) => Some (map RJson items)
  | _ => None
  end.

Record toolAnswer := MkAnswerBlock { ta_id : string; ta_block : rblock }.

(** [toolResultBlock]; the object's keys are in the order a map is marshalled in. *)
Definition toolResultBlock (ev : Event) : option toolAnswer :=
  match body_field dec_string EmptyString (Body ev) "tool_use_id",
        body_field dec_string EmptyString (Body ev) "custom_tool_use_id",
        body_field dec_string EmptyString (Body ev) "mcp_tool_use_id",
        body_field dec_raw None (Body ev) "content",
        body_field dec_bool_ptr None (Body ev) "is_error" with
  | Some a, Some b, Some c, Some content, Some is_error =>
      let id := if negb (String.eqb a EmptyString) then a else if negb (String.eqb b EmptyString) then b else c in
      Some (MkAnswerBlock id (RJson (JObject
        (match content with Some JNull | None => [] | Some v => [("content", v)] end ++
         match is_error with Some e => [("is_error", JBool e)] | None => [] end ++
         [("tool_use_id", JString id); ("type", JString "tool_result")]))))
  | _, _, _, _, _ => None
  end.

(** A tool call's block: the name the model was offered the tool under, an absent input as
    an empty object. *)
Definition toolUseBlock (ev : Event) : option rblock :=
  match body_field dec_string EmptyString (Body ev) "name",
        body_field dec_string EmptyString (Body ev) "mcp_server_name",
        body_field dec_raw None (Body ev) "input" with
  | Some name, Some server, Some input =>
      let name := if String.eqb (Type_ ev) EventAgentMCPToolUse then MCPModelName server name else name in
      let input := match input with None | Some JNull => JObject [] | Some v => v end in
      Some (RJson (JObject [("id", JString (ID ev)); ("input", input); ("name", JString name); ("type", JString "tool_use")]))
  | _, _, _ => None
  end.

(** [domain.ContentBlock]s: the text of each. *)
Definition system_texts (raw : option json) : option (list string) :=
  match raw with
  | None | Some JNull => Some []
  | Some (JArray items) =>
      mapM (M := option) (fun item =>
        match body_field dec_string EmptyString (Some item) "type" with
        | Some _ => body_field dec_string EmptyString (Some item) "text"
        | None => None
        end) items
  | Some _ => None
  end.

(** ** Outcomes *)

Definition verdictNeedsRevision : string := "needs_revision".

Definition lastOutcomeCycle (iteration maxIterations : Z) : bool := maxIterations <=? wrap64 (iteration + 1).

(** A definition as the model reads it. *)
Definition outcome_text (description rubricType rubricContent : string) : string :=
  "Work toward this outcome: " +:+ description +:+
  (if String.eqb rubricType "text"
   then new_line +:+ new_line +:+ "Your work will be evaluated against this rubric:" +:+ new_line +:+ rubricContent
   else EmptyString) +:+
  new_line +:+ new_line +:+
  "Write your deliverable files under /mnt/session/outputs/ — files anywhere else are not collected.".

(** A verdict as the model reads it, and its stop instruction; an empty text renders
    nothing. *)
Definition verdict_text (result explanation : string) (lastCycle : bool) : string * string :=
  let para := new_line +:+ new_line in
  if String.eqb result verdictNeedsRevision then
    ("The outcome grader reviewed your work and found it does not yet satisfy the rubric:" +:+ para +:+
     explanation +:+ para +:+ "Revise your work to address these findings.", EmptyString)
  else if String.eqb result OutcomeResultMaxIterationsReached then
    ("The outcome's evaluation budget is exhausted and the rubric is still unmet:" +:+ para +:+ explanation,
     para +:+ "Do not continue working. Briefly acknowledge what was completed and what remains.")
  else if String.eqb result OutcomeResultSatisfied && lastCycle then
    ("The outcome grader reviewed your work and found it satisfies the rubric:" +:+ para +:+ explanation,
     para +:+ "Do not continue working. Briefly acknowledge the outcome.")
  else if String.eqb result OutcomeResultFailed && lastCycle then
    ("The outcome grader found that the rubric cannot be applied to your work:" +:+ para +:+ explanation,
     para +:+ "Do not continue working. Briefly acknowledge the outcome.")
  else (EmptyString, EmptyString).

Section replay.
Context (raw_text : json -> string).

Definition ContentText (body : option json) : string :=
  match body_field dec_raw None body "content" with
  | Some (Some (JString s)) => s
  | Some (Some JNull) => EmptyString
  | Some (Some content) => match FlattenBlocks content with Some text => text | None => raw_text content end
  | _ => EmptyString
  end.

(** ** The open turn *)

(** An acknowledgment prompt in the open user turn. *)
Record ackBlock := MkAck { ak_at : nat; ak_verdict : string; ak_answered : bool }.

Record replayMessage := MkMessage { rm_role : string; rm_blocks : list rblock; rm_thinking : gmap nat thinking_block }.

(** The loop's variables. *)
Record rstate := MkReplay {
  rs_role : string;
  rs_results : list toolAnswer;
  rs_blocks : list rblock;
  rs_kept : gmap nat thinking_block;
  rs_msgs : list replayMessage;
  rs_uses : list string;
  rs_answering : gmap string nat;
  rs_systemTail : string;
  rs_budgets : gmap string Z;
  rs_acks : list ackBlock;
}.

Definition new_replay : rstate := MkReplay EmptyString [] [] ∅ [] [] ∅ EmptyString ∅ [].

(** [callPosition]: every id the last assistant turn does not hold after those it does. *)
Definition callPosition (uses : gmap string nat) (id : string) : nat := default (size uses) (uses !! id).

Definition answer_le (answering : gmap string nat) (a b : toolAnswer) : Prop :=
  (callPosition answering (ta_id a) <= callPosition answering (ta_id b))%nat.

#[export] Instance answer_le_dec answering : RelDecision (answer_le answering).
Proof. intros a b. unfold answer_le. apply _. Defined.

(** Prompts that client input followed lose their stop instruction. *)
Definition settle_acks (acks : list ackBlock) (blocks : list rblock) : list rblock :=
  foldl (fun blocks a => if ak_answered a then <[ak_at a := RJson (text_json (ak_verdict a))]> blocks else blocks) blocks acks.

Definition index_uses (uses : list string) : gmap string nat :=
  foldl (fun m e => <[e.2 := e.1]> m) ∅ (imap pair uses).

Definition flush_turn (s : rstate) : rstate :=
  if String.eqb (rs_role s) EmptyString then s
  else
    let blocks := settle_acks (rs_acks s) (rs_blocks s) in
    let results := sort_stable (answer_le (rs_answering s)) (rs_results s) in
    MkReplay EmptyString [] [] ∅
      (rs_msgs s ++ [MkMessage (rs_role s) (map ta_block results ++ blocks) (rs_kept s)]) []
      (if String.eqb (rs_role s) "assistant" then index_uses (rs_uses s) else rs_answering s)
      (rs_systemTail s) (rs_budgets s) [].

(** [turn]: the turn of role [r] is open. *)
Definition turn (r : string) (s : rstate) : rstate :=
  if String.eqb (rs_role s) r then s
  else
    let s := flush_turn s in
    MkReplay r (rs_results s) (rs_blocks s) (rs_kept s) (rs_msgs s) (rs_uses s) (rs_answering s) (rs_systemTail s)
      (rs_budgets s) (rs_acks s).

Definition add_blocks (items : list rblock) (s : rstate) : rstate :=
  MkReplay (rs_role s) (rs_results s) (rs_blocks s ++ items) (rs_kept s) (rs_msgs s) (rs_uses s) (rs_answering s)
    (rs_systemTail s) (rs_budgets s) (rs_acks s).

Definition clientInput (s : rstate) : rstate :=
  MkReplay (rs_role s) (rs_results s) (rs_blocks s) (rs_kept s) (rs_msgs s) (rs_uses s) (rs_answering s)
    (rs_systemTail s) (rs_budgets s) (map (fun a => MkAck (ak_at a) (ak_verdict a) true) (rs_acks s)).

Definition add_result (r : toolAnswer) (s : rstate) : rstate :=
  MkReplay (rs_role s) (rs_results s ++ [r]) (rs_blocks s) (rs_kept s) (rs_msgs s) (rs_uses s) (rs_answering s)
    (rs_systemTail s) (rs_budgets s) (rs_acks s).

Definition add_use (id : string) (s : rstate) : rstate :=
  MkReplay (rs_role s) (rs_results s) (rs_blocks s) (rs_kept s) (rs_msgs s) (rs_uses s ++ [id]) (rs_answering s)
    (rs_systemTail s) (rs_budgets s) (rs_acks s).

Definition add_ack (verdict : string) (s : rstate) : rstate :=
  MkReplay (rs_role s) (rs_results s) (rs_blocks s) (rs_kept s) (rs_msgs s) (rs_uses s) (rs_answering s)
    (rs_systemTail s) (rs_budgets s) (rs_acks s ++ [MkAck (length (rs_blocks s)) verdict false]).

Definition keep_thinking (tb : thinking_block) (s : rstate) : rstate :=
  MkReplay (rs_role s) (rs_results s) (rs_blocks s ++ [RBytes (tb_block tb)])
    (<[length (rs_blocks s) := tb]> (rs_kept s)) (rs_msgs s) (rs_uses s) (rs_answering s)
    (rs_systemTail s) (rs_budgets s) (rs_acks s).

Definition set_budget (id : string) (n : Z) (s : rstate) : rstate :=
  MkReplay (rs_role s) (rs_results s) (rs_blocks s) (rs_kept s) (rs_msgs s) (rs_uses s) (rs_answering s)
    (rs_systemTail s) (<[id := n]> (rs_budgets s)) (rs_acks s).

(** [system] is the prompt ahead of the tail. *)
Definition add_system (system : string) (texts : list string) (s : rstate) : rstate :=
  MkReplay (rs_role s) (rs_results s) (rs_blocks s) (rs_kept s) (rs_msgs s) (rs_uses s) (rs_answering s)
    (foldl (fun tail t =>
       (if String.eqb tail EmptyString && String.eqb system EmptyString then tail else tail +:+ new_line +:+ new_line) +:+ t)
       (rs_systemTail s) texts)
    (rs_budgets s) (rs_acks s).
(** ** One row *)

Inductive replay_error := EventError (id : string).

Definition or_error {A} (ev : Event) (o : option A) : result replay_error A :=
  match o with Some x => Ok x | None => Err (EventError (ID ev)) end.

Definition dec_rubric (cur : string * string) (v : json) : option (string * string) :=
  match v with
  | JObject ms =>
      match decode_field dec_string "type" cur.1 ms, decode_field dec_string "content" cur.2 ms with
      | Some t, Some c => Some (t, c)
      | _, _ => None
      end
  | JNull => Some cur
  | _ => None
  end.

Context (sessionID system : string) (nested : gmap string string) (kept_blocks : gmap string thinking_block).

Definition replay_user_message (ev : Event) (s : rstate) : result replay_error rstate :=
  try content <- or_error ev (body_field dec_raw None (Body ev) "content");
  try items <- or_error ev (contentBlocks content);
  Ok (clientInput (add_blocks items (turn "user" s))).

Definition replay_define_outcome (ev : Event) (s : rstate) : result replay_error rstate :=
  try description <- or_error ev (body_field dec_string EmptyString (Body ev) "description");
  try rubric <- or_error ev (body_field dec_rubric (EmptyString, EmptyString) (Body ev) "rubric");
  try n <- or_error ev (body_field dec_int 0 (Body ev) "max_iterations");
  try id <- or_error ev (body_field dec_string EmptyString (Body ev) "outcome_id");
  Ok (clientInput (add_blocks [RJson (text_json (outcome_text description rubric.1 rubric.2))]
       (turn "user" (set_budget id n s)))).

Definition replay_eval_end (ev : Event) (s : rstate) : result replay_error rstate :=
  try id <- or_error ev (body_field dec_string EmptyString (Body ev) "outcome_id");
  try iteration <- or_error ev (body_field dec_int 0 (Body ev) "iteration");
  try res <- or_error ev (body_field dec_string EmptyString (Body ev) "result");
  try explanation <- or_error ev (body_field dec_string EmptyString (Body ev) "explanation");
  let lastCycle := match rs_budgets s !! id with Some budget => lastOutcomeCycle iteration budget | None => false end in
  let '(text, stop) := verdict_text res explanation lastCycle in
  if String.eqb text EmptyString then Ok s
  else
    let s := turn "user" s in
    let s := if String.eqb stop EmptyString then s else add_ack text s in
    Ok (add_blocks [RJson (text_json (text +:+ stop))] s).

Definition replay_received (ev : Event) (s : rstate) : result replay_error rstate :=
  try from_thread <- or_error ev (body_field dec_string EmptyString (Body ev) "from_session_thread_id");
  try from_name <- or_error ev (body_field dec_string EmptyString (Body ev) "from_agent_name");
  let from := if String.eqb from_thread (PrimaryThreadID sessionID) then "your coordinator" else from_name in
  Ok (add_blocks [RJson (text_json ("[message from " +:+ from +:+ "]" +:+ new_line +:+ new_line +:+ ContentText (Body ev)))]
       (turn "user" s)).

Definition replay_system (ev : Event) (s : rstate) : result replay_error rstate :=
  try content <- or_error ev (body_field dec_raw None (Body ev) "content");
  try texts <- or_error ev (system_texts content);
  Ok (add_system system texts s).

Definition replay_thinking (ev : Event) (s : rstate) : result replay_error rstate :=
  match kept_blocks !! ID ev with
  | None => Ok s
  | Some tb => Ok (keep_thinking tb (turn "assistant" s))
  end.

Definition replay_agent_message (ev : Event) (s : rstate) : result replay_error rstate :=
  try content <- or_error ev (body_field dec_raw None (Body ev) "content");
  try items <- or_error ev (contentBlocks content);
  Ok (add_blocks items (turn "assistant" s)).

Definition replay_tool_use (ev : Event) (s : rstate) : result replay_error rstate :=
  try blk <- or_error ev (toolUseBlock ev);
  Ok (add_use (ID ev) (add_blocks [blk] (turn "assistant" s))).

Definition replay_tool_result (ev : Event) (s : rstate) : result replay_error rstate :=
  try answer <- or_error ev (toolResultBlock ev);
  let s := add_result answer (turn "user" s) in
  Ok (match nested !! ID ev with Some text => add_blocks [RJson (text_json text)] s | None => s end).

Definition is_tool_use_type (t : EventType) : bool :=
  mem_string t [EventAgentToolUse; EventAgentMCPToolUse; EventAgentCustomToolUse].

Definition is_result_type (t : EventType) : bool :=
  mem_string t [EventUserToolResult; EventUserCustomToolRes; EventAgentToolResult; EventAgentMCPToolResult].

Definition replay_row (ev : Event) (s : rstate) : result replay_error rstate :=
  let t := Type_ ev in
  if String.eqb t EventUserMessage then replay_user_message ev s
  else if String.eqb t EventUserDefineOutcome then replay_define_outcome ev s
  else if String.eqb t EventSpanOutcomeEvalEnd then replay_eval_end ev s
  else if String.eqb t EventAgentThreadMessageReceived then replay_received ev s
  else if String.eqb t EventSystemMessage then replay_system ev s
  else if String.eqb t EventAgentThinking then replay_thinking ev s
  else if String.eqb t EventAgentMessage then replay_agent_message ev s
  else if is_tool_use_type t then replay_tool_use ev s
  else if is_result_type t then replay_tool_result ev s
  else Ok s.

Fixpoint replay_rows (rows : list Event) (s : rstate) : result replay_error rstate :=
  match rows with
  | [] => Ok s
  | ev :: rows' => try s <- replay_row ev s; replay_rows rows' s
  end.
End replay.

(** ** Kept thinking (thinking.go) *)

Record replayThinking := MkReplayThinking { rt_model : string; rt_route : string; rt_blocks : gmap string thinking_block }.

Section thinking.
(** The hex SHA-256 of a sequence of tagged items, each framed by its length. *)
Context (digest : list (string * rblock) -> string).

(** A prefix chain is the items added so far. *)
Definition prefixChain := list (string * rblock).

Definition newPrefixChain (route system : string) (tools : list json) : prefixChain :=
  [("route", RBytes route); ("system", RBytes system)] ++ map (fun t => ("tool", RJson t)) tools.

Definition AnyPrefix : string := "any:".

Definition anyPrefixDigest (route : string) : string := AnyPrefix +:+ digest [("route", RBytes route)].

(** The block may go back: it comes from the model, under this prefix or under any. *)
Definition admits_block (t : replayThinking) (chain : prefixChain) (tb : thinking_block) : bool :=
  String.eqb (tb_model tb) (rt_model t) &&
  (String.eqb (tb_digest tb) (digest chain) || String.eqb (tb_digest tb) (anyPrefixDigest (rt_route t))).

(** The blocks of one message from index [i] on: those that stay, and the chain behind
    them. *)
Fixpoint admit_blocks (t : replayThinking) (role : string) (thinking : gmap nat thinking_block) (i : nat) (chain : prefixChain)
    (blocks : list rblock) : list rblock * prefixChain :=
  match blocks with
  | [] => ([], chain)
  | b :: blocks' =>
      match thinking !! i with
      | Some tb =>
          if admits_block t chain tb
          then let '(kept, chain) := admit_blocks t role thinking (S i) (chain ++ [(role, b)]) blocks' in (b :: kept, chain)
          else admit_blocks t role thinking (S i) chain blocks'
      | None => let '(kept, chain) := admit_blocks t role thinking (S i) (chain ++ [(role, b)]) blocks' in (b :: kept, chain)
      end
  end.

Fixpoint admit_messages (t : replayThinking) (chain : prefixChain) (msgs : list replayMessage) : list replayMessage :=
  match msgs with
  | [] => []
  | m :: msgs' =>
      let '(kept, chain) := admit_blocks t (rm_role m) (rm_thinking m) 0 chain (rm_blocks m) in
      MkMessage (rm_role m) kept (rm_thinking m) :: admit_messages t chain msgs'
  end.

Definition admitThinking (t : replayThinking) (system : string) (tools : list json) (msgs : list replayMessage) : list replayMessage :=
  if negb (existsb (fun m => negb (bool_decide (rm_thinking m = ∅))) msgs) then msgs
  else admit_messages t (newPrefixChain (rt_route t) system tools) msgs.

(** ** The request *)

Record Request := MkRequest { rq_system : string; rq_tools : list json; rq_messages : list (string * list rblock) }.

(** [requestChain]: the chain over a whole request, which the first block of its response is
    produced at. *)
Definition requestChain (route : string) (req : Request) : prefixChain :=
  newPrefixChain route (rq_system req) (rq_tools req) ++ concat (map (fun m => map (pair m.1) m.2) (rq_messages req)).

(** The agent's prompt and the startup blocks behind it. *)
Definition startup_system (system : string) (blocks : list string) : string :=
  foldl (fun sys block =>
    if String.eqb block EmptyString then sys
    else (if String.eqb sys EmptyString then sys else sys +:+ new_line +:+ new_line) +:+ block) system blocks.

Definition buildRequest (raw_text : json -> string) (sessionID system : string) (tools : list json) (history : list Event)
    (skillsBlock filesBlock reposBlock memoryBlock : string) (nested : gmap string string) (thinking : replayThinking)
  : result replay_error (Request * Z) :=
  let system := startup_system system [skillsBlock; filesBlock; reposBlock; memoryBlock] in
  let rows := ConsumptionOrder history in
  try s <- replay_rows raw_text sessionID system nested (rt_blocks thinking) rows new_replay;
  let s := flush_turn s in
  let system := system +:+ rs_systemTail s in
  let msgs := admitThinking thinking system tools (rs_msgs s) in
  Ok (MkRequest system tools (map (fun m => (rm_role m, rm_blocks m)) msgs),
      foldl (fun w ev => if w <? Seq ev then Seq ev else w) 0 rows).
End thinking.
