(* ===== verification/ReplaySpec.v ===== *)
(** * ReplaySpec: what a replay is (Replay.v)

    A row contributes to the conversation on its own, given the budgets defined before it
    ([says]); a request's messages are the maximal runs of contributions of one role
    ([conversation]).  [buildRequest], which keeps an open turn and edits it, is shown
    equal to that; on it rest the shape of the messages, that a longer log only adds
    behind a closed turn, and that thinking goes back under its own prefix alone. *)
From Stdlib Require Import Lia.
From S2P Require Import Prelude GoStrings Ids Json Domain Consumption Log Outcomes Replay.

(** ** Contributions *)

(** What a row adds to a turn: answers, other blocks (a kept thinking block with what was
    kept of it), the calls it makes.  [cb_verdict] is an acknowledgment prompt without its
    stop instruction, [cb_client] marks client input. *)
Record contribution := MkContribution {
  cb_role : string; cb_results : list toolAnswer; cb_items : list (rblock * option thinking_block);
  cb_uses : list string; cb_verdict : option string; cb_client : bool }.

Definition plain (bs : list rblock) : list (rblock * option thinking_block) := map (fun b => (b, None)) bs.

Definition client_says (bs : list rblock) : contribution := MkContribution "user" [] (plain bs) [] None true.

Definition user_says (bs : list rblock) : contribution := MkContribution "user" [] (plain bs) [] None false.

Definition agent_says (bs : list rblock) (uses : list string) : contribution :=
  MkContribution "assistant" [] (plain bs) uses None false.

Definition thought (tb : thinking_block) : contribution :=
  MkContribution "assistant" [] [(RBytes (tb_block tb), Some tb)] [] None false.

Section contributions.
Context (raw_text : json -> string) (sessionID : string) (nested : gmap string string) (kept_blocks : gmap string thinking_block).

Definition says_outcome (ev : Event) : result replay_error contribution :=
  try description <- or_error ev (body_field dec_string EmptyString (Body ev) "description");
  try rubric <- or_error ev (body_field dec_rubric (EmptyString, EmptyString) (Body ev) "rubric");
  try n <- or_error ev (body_field dec_int 0 (Body ev) "max_iterations");
  try id <- or_error ev (body_field dec_string EmptyString (Body ev) "outcome_id");
  Ok (client_says [RJson (text_json (outcome_text description rubric.1 rubric.2))]).

(** The budgets a definition adds. *)
Definition learn (ev : Event) (budgets : gmap string Z) : gmap string Z :=
  if String.eqb (Type_ ev) EventUserDefineOutcome then
    match body_field dec_string EmptyString (Body ev) "outcome_id", body_field dec_int 0 (Body ev) "max_iterations" with
    | Some id, Some n => <[id := n]> budgets
    | _, _ => budgets
    end
  else budgets.

Definition says_verdict (budgets : gmap string Z) (ev : Event) : result replay_error (option contribution) :=
  try id <- or_error ev (body_field dec_string EmptyString (Body ev) "outcome_id");
  try iteration <- or_error ev (body_field dec_int 0 (Body ev) "iteration");
  try res <- or_error ev (body_field dec_string EmptyString (Body ev) "result");
  try explanation <- or_error ev (body_field dec_string EmptyString (Body ev) "explanation");
  let '(text, stop) := verdict_text res explanation
    match budgets !! id with Some budget => lastOutcomeCycle iteration budget | None => false end in
  Ok (if String.eqb text EmptyString then None
      else Some (MkContribution "user" [] (plain [RJson (text_json (text +:+ stop))]) []
                   (if String.eqb stop EmptyString then None else Some text) false)).

Definition says_received (ev : Event) : result replay_error contribution :=
  try from_thread <- or_error ev (body_field dec_string EmptyString (Body ev) "from_session_thread_id");
  try from_name <- or_error ev (body_field dec_string EmptyString (Body ev) "from_agent_name");
  let from := if String.eqb from_thread (PrimaryThreadID sessionID) then "your coordinator" else from_name in
  Ok (user_says [RJson (text_json ("[message from " +:+ from +:+ "]" +:+ new_line +:+ new_line +:+ ContentText raw_text (Body ev)))]).

Definition says_content (ev : Event) : result replay_error (list rblock) :=
  try content <- or_error ev (body_field dec_raw None (Body ev) "content");
  or_error ev (contentBlocks content).

Definition texts_of (ev : Event) : result replay_error (list string) :=
  try content <- or_error ev (body_field dec_raw None (Body ev) "content");
  or_error ev (system_texts content).

Definition says_result (ev : Event) : result replay_error contribution :=
  try answer <- or_error ev (toolResultBlock ev);
  Ok (MkContribution "user" [answer]
        (plain match nested !! ID ev with Some text => [RJson (text_json text)] | None => [] end) [] None false).

Definition says (budgets : gmap string Z) (ev : Event) : result replay_error (option contribution) :=
  let t := Type_ ev in
  if String.eqb t EventUserMessage then try bs <- says_content ev; Ok (Some (client_says bs))
  else if String.eqb t EventUserDefineOutcome then try c <- says_outcome ev; Ok (Some c)
  else if String.eqb t EventSpanOutcomeEvalEnd then says_verdict budgets ev
  else if String.eqb t EventAgentThreadMessageReceived then try c <- says_received ev; Ok (Some c)
  else if String.eqb t EventSystemMessage then try ts <- texts_of ev; Ok None
  else if String.eqb t EventAgentThinking then
    Ok (option_map thought (kept_blocks !! ID ev))
  else if String.eqb t EventAgentMessage then try bs <- says_content ev; Ok (Some (agent_says bs []))
  else if is_tool_use_type t then try b <- or_error ev (toolUseBlock ev); Ok (Some (agent_says [b] [ID ev]))
  else if is_result_type t then try c <- says_result ev; Ok (Some c)
  else Ok None.

Fixpoint contributions (budgets : gmap string Z) (rows : list Event) : result replay_error (list contribution) :=
  match rows with
  | [] => Ok []
  | ev :: rows' =>
      try oc <- says budgets ev;
      try cs <- contributions (learn ev budgets) rows';
      Ok (option_list oc ++ cs)
  end.
End contributions.

(** The texts a log adds to the system prompt. *)
Definition system_texts_of (rows : list Event) : list string :=
  concat (map (fun ev => if String.eqb (Type_ ev) EventSystemMessage
                         then match texts_of ev with Ok ts => ts | Err _ => [] end else []) rows).

Definition join_system (sys text : string) : string :=
  if String.eqb sys EmptyString then text else sys +:+ new_line +:+ new_line +:+ text.

(** ** The conversation *)

(** Maximal runs of one role. *)
Definition add_run (c : contribution) (gs : list (list contribution)) : list (list contribution) :=
  match gs with
  | (c' :: g) :: gs' => if String.eqb (cb_role c) (cb_role c') then (c :: c' :: g) :: gs' else [c] :: gs
  | _ => [c] :: gs
  end.

Definition group_runs (cs : list contribution) : list (list contribution) := foldr add_run [] cs.

Definition run_role (g : list contribution) : string := match g with c :: _ => cb_role c | [] => EmptyString end.

(** A prompt that client input follows in its run loses its stop instruction. *)
Fixpoint settled (g : list contribution) : list (rblock * option thinking_block) :=
  match g with
  | [] => []
  | c :: g' =>
      match cb_verdict c with
      | Some v => if existsb cb_client g' then plain [RJson (text_json v)] else cb_items c
      | None => cb_items c
      end ++ settled g'
  end.

Definition run_results (g : list contribution) : list toolAnswer := concat (map cb_results g).

Definition run_uses (g : list contribution) : list string := concat (map cb_uses g).

Definition run_items (g : list contribution) : list (rblock * option thinking_block) := concat (map cb_items g).

Definition kept_at (items : list (rblock * option thinking_block)) : gmap nat thinking_block := omap snd (map_seq 0 items).

(** A run as a message: the answers in the order of the calls, then the rest. *)
Definition message_of (answering : gmap string nat) (g : list contribution) : replayMessage :=
  MkMessage (run_role g) (map ta_block (sort_stable (answer_le answering) (run_results g)) ++ (settled g).*1) (kept_at (settled g)).

Definition answering_of (answering : gmap string nat) (g : list contribution) : gmap string nat :=
  if String.eqb (run_role g) "assistant" then index_uses (run_uses g) else answering.

Fixpoint messages (answering : gmap string nat) (gs : list (list contribution)) : list replayMessage :=
  match gs with
  | [] => []
  | g :: gs' => message_of answering g :: messages (answering_of answering g) gs'
  end.

Definition conversation (cs : list contribution) : list replayMessage := messages ∅ (group_runs cs).

(** ** Every row contributes to one role *)

Definition kept_bytes (it : rblock * option thinking_block) : Prop :=
  match it.2 with Some tb => it.1 = RBytes (tb_block tb) | None => True end.

Definition wf_contribution (c : contribution) : Prop :=
  (cb_role c = "user" /\ cb_uses c = [] /\ Forall (fun it => it.2 = None) (cb_items c)) \/
  (cb_role c = "assistant" /\ cb_results c = [] /\ cb_verdict c = None /\ Forall kept_bytes (cb_items c)).

Definition wf_verdict (c : contribution) : Prop :=
  match cb_verdict c with Some _ => cb_client c = false /\ length (cb_items c) = 1%nat | None => True end.

Lemma plain_thinking bs : Forall (fun it : rblock * option thinking_block => it.2 = None) (plain bs).
Proof. unfold plain. by apply Forall_map, Forall_true. Qed.

Lemma plain_fst bs : (plain bs).*1 = bs.
Proof. unfold plain. change (fst <$> (map (fun b : rblock => (b, @None thinking_block)) bs)) with (map fst (map (fun b : rblock => (b, @None thinking_block)) bs)). rewrite map_map. apply map_id. Qed.

Lemma plain_kept bs : Forall kept_bytes (plain bs).
Proof. unfold plain. by apply Forall_map, Forall_true. Qed.

#[export] Hint Resolve plain_thinking plain_kept : go.

(** Take the steps of a decoder apart. *)
Ltac or_errors :=
  repeat match goal with
  | H : context [match or_error ?ev ?o with Ok _ => _ | Err _ => _ end] |- _ => destruct (or_error ev o) eqn:?; [|discriminate H]
  | |- context [match or_error ?ev ?o with Ok _ => _ | Err _ => _ end] => destruct (or_error ev o) eqn:?
  end.

(** The prompts of an open turn, the first of its blocks at [k]. *)
Fixpoint acks_of (k : nat) (g : list contribution) : list ackBlock :=
  match g with
  | [] => []
  | c :: g' =>
      match cb_verdict c with Some v => [MkAck k v (existsb cb_client g')] | None => [] end ++
      acks_of (k + length (cb_items c)) g'
  end.

Lemma acks_of_snoc k g c : wf_verdict c ->
  acks_of k (g ++ [c]) =
    (if cb_client c then map (fun a => MkAck (ak_at a) (ak_verdict a) true) (acks_of k g) else acks_of k g) ++
    match cb_verdict c with Some v => [MkAck (k + length (run_items g)) v false] | None => [] end.
Proof.
  intros Hc. revert k. induction g as [|c' g IH]; intros k; cbn.
  - rewrite Nat.add_0_r, app_nil_r. by destruct (cb_client c).
  - rewrite IH, existsb_app. cbn. rewrite orb_false_r. unfold run_items. cbn [map concat].
    rewrite length_app, Nat.add_assoc. destruct (cb_client c); rewrite ?map_app, ?orb_true_r, ?orb_false_r, <- ?app_assoc;
      by destruct (cb_verdict c').
Qed.

(** Taking the stop instructions off leaves the settled run. *)
Lemma settle_acks_of pre g : Forall wf_verdict g ->
  settle_acks (acks_of (length pre) g) (pre ++ (run_items g).*1) = pre ++ (settled g).*1.
Proof.
  intros Hg. revert pre. induction Hg as [|c g Hc Hg IH]; intros pre; [done|].
  unfold run_items. cbn [map concat acks_of settled]. fold (run_items g). rewrite !fmap_app.
  unfold wf_verdict in Hc. destruct (cb_verdict c) as [v|].
  - destruct Hc as [_ Hone]. destruct (cb_items c) as [|[b th] []]; try discriminate Hone.
    unfold settle_acks. rewrite foldl_app. cbn [foldl length ak_answered ak_at ak_verdict fmap list_fmap fst].
    destruct (existsb cb_client g); cbn [app].
    + rewrite insert_app_r_alt by lia. rewrite Nat.sub_diag. cbn.
      specialize (IH (pre ++ [RJson (text_json v)])). rewrite length_app, <- !app_assoc in IH. exact IH.
    + specialize (IH (pre ++ [b])). rewrite length_app, <- !app_assoc in IH. exact IH.
  - rewrite !app_assoc. rewrite <- IH. rewrite length_app. unfold fmap. by rewrite length_fmap.
Qed.

Lemma kept_settled g : Forall wf_contribution g -> Forall wf_verdict g -> kept_at (settled g) = kept_at (run_items g).
Proof.
  intros Hg Hv. apply map_eq. intros i. unfold kept_at. rewrite !lookup_omap, !lookup_map_seq_0. revert i.
  induction Hg as [|c g Hc _ IH]; intros i; [done|]. apply Forall_cons in Hv as [Hvc Hv]. specialize (IH Hv).
  unfold run_items. cbn [map concat settled]. fold (run_items g).
  unfold wf_verdict in Hvc. destruct (cb_verdict c) as [v|] eqn:Ev.
  - destruct Hvc as [_ Hone]. destruct Hc as [(_ & _ & Hth)|(_ & _ & Hn & _)]; [|congruence].
    destruct (cb_items c) as [|[b th] []]; try discriminate Hone. apply Forall_cons in Hth as [Hth _]. cbn in Hth. subst th.
    destruct (existsb _ _); destruct i; cbn; auto.
  - destruct (decide (i < length (cb_items c))%nat).
    + by rewrite !lookup_app_l by done.
    + rewrite !lookup_app_r by lia. apply IH.
Qed.

Lemma kept_snoc items b th :
  kept_at (items ++ [(b, th)]) =
    match th with Some tb => <[length items := tb]> (kept_at items) | None => kept_at items end.
Proof.
  apply map_eq. intros i. unfold kept_at. rewrite lookup_omap, lookup_map_seq_0.
  destruct (decide (i = length items)) as [->|].
  - rewrite lookup_app_r, Nat.sub_diag by lia. cbn. destruct th; [by rewrite lookup_insert_eq|].
    rewrite lookup_omap, lookup_map_seq_0, lookup_ge_None_2 by lia. done.
  - assert (Hi : (items ++ [(b, th)]) !! i = items !! i).
    { destruct (decide (i < length items)%nat); [by rewrite lookup_app_l|].
      rewrite (lookup_ge_None_2 items) by lia. apply lookup_ge_None_2. rewrite length_app. cbn. lia. }
    rewrite Hi. destruct th; rewrite ?lookup_insert_ne by done; by rewrite lookup_omap, lookup_map_seq_0.
Qed.

Lemma kept_plain items bs : kept_at (items ++ plain bs) = kept_at items.
Proof.
  revert items. induction bs as [|b bs IH]; intros items; cbn; [by rewrite app_nil_r|].
  rewrite cons_middle, app_assoc, IH. apply kept_snoc.
Qed.

(** ** Runs *)

Lemma group_runs_cons c cs : group_runs (c :: cs) = add_run c (group_runs cs).
Proof. done. Qed.

Lemma group_runs_same g : g <> [] -> Forall (fun c => cb_role c = run_role g) g -> group_runs g = [g].
Proof.
  induction g as [|c g IH]; [done|]. intros _ [_ Hg]%Forall_cons. cbn in Hg. destruct g as [|c' g]; [done|].
  rewrite group_runs_cons, IH; [|done|].
  - apply Forall_cons in Hg as [Hc' _]. cbn. by rewrite Hc', String.eqb_refl.
  - eapply Forall_impl; [exact Hg|]. apply Forall_cons in Hg as [Hc' _]. cbn. congruence.
Qed.

Lemma group_runs_head c cs : exists g gs, group_runs (c :: cs) = (c :: g) :: gs.
Proof.
  rewrite group_runs_cons. destruct (group_runs cs) as [|[|c' g] gs]; cbn; [eauto..|]. destruct (String.eqb _ _); eauto.
Qed.

(** A change of role closes a run. *)
Lemma group_runs_app cs c cs' :
  match last cs with Some d => cb_role d <> cb_role c | None => True end ->
  group_runs (cs ++ c :: cs') = group_runs cs ++ group_runs (c :: cs').
Proof.
  induction cs as [|d cs IH]; [done|]. intros Hd. destruct cs as [|d' cs].
  - cbn [app]. rewrite group_runs_cons. destruct (group_runs_head c cs') as (g & gs & ->). cbn in Hd |- *.
    by destruct (String.eqb_spec (cb_role d) (cb_role c)).
  - change ((d :: d' :: cs) ++ c :: cs') with (d :: ((d' :: cs) ++ c :: cs')).
    rewrite !(group_runs_cons d), (IH Hd). destruct (group_runs_head d' cs) as (g & gs & ->). cbn.
    by destruct (String.eqb _ _).
Qed.

Lemma concat_group_runs cs : concat (group_runs cs) = cs.
Proof.
  induction cs as [|c cs IH]; [done|]. rewrite group_runs_cons. rewrite <- IH at 2.
  destruct (group_runs cs) as [|[|c' g] gs]; cbn; try done. by destruct (String.eqb _ _).
Qed.

Lemma messages_app answering gs gs' :
  messages answering (gs ++ gs') = messages answering gs ++ messages (foldl answering_of answering gs) gs'.
Proof. revert answering. induction gs as [|g gs IH]; intros answering; cbn; [done|]. by rewrite IH. Qed.

Section rows.
Context (raw_text : json -> string) (sessionID system : string) (nested : gmap string string) (kept_blocks : gmap string thinking_block).

Lemma says_wf budgets ev c :
  says raw_text sessionID nested kept_blocks budgets ev = Ok (Some c) -> wf_contribution c /\ wf_verdict c.
Proof.
  unfold says, says_content, says_outcome, says_verdict, says_received, says_result.
  intros H. repeat (case_match; try discriminate); simplify_eq; unfold wf_contribution, wf_verdict; cbn; eauto 6 with go.
  all: destruct (kept_blocks !! ID ev); simplify_eq/=; eauto 6 with go.
  all: first [by split; [left; repeat constructor|]|by split; [right; repeat constructor|]].
Qed.

(** ** Rows and contributions *)

(** [s'] is [s] with [c] in its turn. *)
Record contributed (c : contribution) (s s' : rstate) : Prop := MkContributed {
  ct_role : rs_role s' = cb_role c;
  ct_results : rs_results s' = rs_results (turn (cb_role c) s) ++ cb_results c;
  ct_blocks : rs_blocks s' = rs_blocks (turn (cb_role c) s) ++ (cb_items c).*1;
  ct_kept : forall items, length items = length (rs_blocks (turn (cb_role c) s)) ->
    rs_kept (turn (cb_role c) s) = kept_at items -> rs_kept s' = kept_at (items ++ cb_items c);
  ct_uses : rs_uses s' = rs_uses (turn (cb_role c) s) ++ cb_uses c;
  ct_msgs : rs_msgs s' = rs_msgs (turn (cb_role c) s);
  ct_answering : rs_answering s' = rs_answering (turn (cb_role c) s);
  ct_acks : rs_acks s' =
    (if cb_client c then map (fun a => MkAck (ak_at a) (ak_verdict a) true) (rs_acks (turn (cb_role c) s))
     else rs_acks (turn (cb_role c) s)) ++
    match cb_verdict c with Some v => [MkAck (length (rs_blocks (turn (cb_role c) s))) v false] | None => [] end }.

Definition same_turn (s s' : rstate) : Prop :=
  s' = MkReplay (rs_role s) (rs_results s) (rs_blocks s) (rs_kept s) (rs_msgs s) (rs_uses s) (rs_answering s)
         (rs_systemTail s') (rs_budgets s') (rs_acks s).

Lemma turn_budgets r s : rs_budgets (turn r s) = rs_budgets s.
Proof. unfold turn, flush_turn. by repeat case_match. Qed.

Lemma turn_tail r s : rs_systemTail (turn r s) = rs_systemTail s.
Proof. unfold turn, flush_turn. by repeat case_match. Qed.

Lemma turn_set_budget r id n s : turn r (set_budget id n s) = set_budget id n (turn r s).
Proof. unfold turn, flush_turn, set_budget. cbn. by repeat case_match. Qed.

Lemma turn_role r s : rs_role (turn r s) = r.
Proof. unfold turn. by destruct (String.eqb_spec (rs_role s) r). Qed.

Definition tail_after (ev : Event) (tail : string) : string :=
  foldl (fun tail t =>
       (if String.eqb tail EmptyString && String.eqb system EmptyString then tail else tail +:+ new_line +:+ new_line) +:+ t)
    tail (system_texts_of [ev]).

(** A row and its contribution. *)
Definition row_agrees (ev : Event) (s : rstate) (r : result replay_error rstate) : Prop :=
  match r with
  | Ok s' => rs_budgets s' = learn ev (rs_budgets s) /\ rs_systemTail s' = tail_after ev (rs_systemTail s) /\
      exists oc, says raw_text sessionID nested kept_blocks (rs_budgets s) ev = Ok oc /\
        match oc with Some c => contributed c s s' | None => same_turn s s' end
  | Err e => says raw_text sessionID nested kept_blocks (rs_budgets s) ev = Err e
  end.

Lemma contributed_blocks role bs s :
  contributed (MkContribution role [] (plain bs) [] None false) s (add_blocks bs (turn role s)).
Proof.
  split; cbn; rewrite ?turn_role, ?app_nil_r, ?plain_fst; try done. intros items _ ->. by rewrite kept_plain.
Qed.

Lemma add_blocks_turn bs r s :
  rs_budgets (add_blocks bs (turn r s)) = rs_budgets s /\ rs_systemTail (add_blocks bs (turn r s)) = rs_systemTail s.
Proof. cbn. by rewrite turn_budgets, turn_tail. Qed.

Lemma outcome_row_agrees ev s : Type_ ev = EventUserDefineOutcome -> row_agrees ev s (replay_define_outcome ev s).
Proof.
  intros E1. unfold row_agrees, says, learn, tail_after, system_texts_of. cbn [map concat]. rewrite E1. cbn.
  unfold replay_define_outcome, says_outcome.
  destruct (body_field dec_string _ _ "description"); [|done]. destruct (body_field dec_rubric _ _ _); [|done].
  destruct (body_field dec_int _ _ _) as [n|]; [|done]. destruct (body_field dec_string _ _ "outcome_id") as [id|]; [|done].
  unfold or_error. cbn. rewrite turn_set_budget. cbn. rewrite turn_budgets, turn_tail. split_and!; [done..|].
  eexists. split; [reflexivity|]. split; cbn; rewrite ?turn_role, ?app_nil_r; try done.
  intros items _ ->. by rewrite kept_snoc.
Qed.

Lemma verdict_row_agrees ev s : Type_ ev = EventSpanOutcomeEvalEnd -> row_agrees ev s (replay_eval_end ev s).
Proof.
  intros E1. unfold row_agrees, says, learn, tail_after, system_texts_of. cbn [map concat]. rewrite E1. cbn.
  unfold replay_eval_end, says_verdict. do 4 (destruct (or_error ev _); [|done]).
  destruct (verdict_text _ _ _) as [text stop]. destruct (String.eqb text _).
  { cbn. split_and!; [done..|]. eexists. split; [reflexivity|]. by destruct s. }
  destruct (String.eqb stop _); cbn; rewrite turn_budgets, turn_tail; split_and!; try done;
    (eexists; split; [reflexivity|]; split; cbn; rewrite ?turn_role, ?app_nil_r; try done;
     intros items _ ->; by rewrite kept_snoc).
Qed.

Lemma system_row_agrees ev s : Type_ ev = EventSystemMessage -> row_agrees ev s (replay_system system ev s).
Proof.
  intros E1. unfold row_agrees, says, learn, tail_after, system_texts_of. cbn [map concat]. rewrite E1. cbn.
  unfold replay_system, texts_of. do 2 (destruct (or_error ev _); [|done]). cbn.
  rewrite app_nil_r. split_and!; [done..|]. eexists. split; [reflexivity|]. by destruct s.
Qed.

Lemma thinking_row_agrees ev s : Type_ ev = EventAgentThinking -> row_agrees ev s (replay_thinking kept_blocks ev s).
Proof.
  intros E1. unfold row_agrees, says, learn, tail_after, system_texts_of. cbn [map concat]. rewrite E1. cbn. unfold replay_thinking.
  destruct (kept_blocks !! ID ev) as [tb|]; cbn; rewrite ?turn_budgets, ?turn_tail; split_and!; try done;
    (eexists; split; [reflexivity|]); [|by destruct s].
  split; cbn; rewrite ?turn_role, ?app_nil_r; try done. intros items <- ->. by rewrite kept_snoc.
Qed.

Lemma replay_row_agrees ev s : row_agrees ev s (replay_row raw_text sessionID system nested kept_blocks ev s).
Proof.
  unfold replay_row.
  destruct (String.eqb_spec (Type_ ev) EventUserDefineOutcome) as [E1|N1]; [rewrite E1; cbn; by apply outcome_row_agrees|].
  destruct (String.eqb_spec (Type_ ev) EventSpanOutcomeEvalEnd) as [E1|N2]; [rewrite E1; cbn; by apply verdict_row_agrees|].
  destruct (String.eqb_spec (Type_ ev) EventSystemMessage) as [E1|N3]; [rewrite E1; cbn; by apply system_row_agrees|].
  destruct (String.eqb_spec (Type_ ev) EventAgentThinking) as [E1|N4]; [rewrite E1; cbn; by apply thinking_row_agrees|].
  apply String.eqb_neq in N1, N2, N3, N4.
  unfold row_agrees, says, learn, tail_after, system_texts_of. cbn [map concat]. rewrite N1, N2, N3, N4. clear N1 N2 N3 N4.
  cbn [foldl app].
  destruct (String.eqb (Type_ ev) EventUserMessage).
  { unfold replay_user_message, says_content. do 2 (destruct (or_error ev _); [|done]).
    cbn. rewrite turn_budgets, turn_tail. split_and!; [done..|]. eexists. split; [reflexivity|].
    split; cbn; rewrite ?turn_role, ?app_nil_r, ?plain_fst; try done. intros items _ ->. by rewrite kept_plain. }
  destruct (String.eqb (Type_ ev) EventAgentThreadMessageReceived).
  { unfold replay_received, says_received. do 2 (destruct (or_error ev _); [|done]). cbv zeta.
    destruct (add_blocks_turn [RJson (text_json ("[message from " +:+ (if String.eqb a (PrimaryThreadID sessionID) then "your coordinator" else a0)
      +:+ "]" +:+ new_line +:+ new_line +:+ ContentText raw_text (Body ev)))] "user" s) as [? ?].
    split_and!; [done..|]. eexists. split; [reflexivity|]. apply contributed_blocks. }
  destruct (String.eqb (Type_ ev) EventAgentMessage).
  { unfold replay_agent_message, says_content. do 2 (destruct (or_error ev _); [|done]).
    destruct (add_blocks_turn a0 "assistant" s) as [? ?]. split_and!; [done..|]. eexists. split; [reflexivity|]. apply contributed_blocks. }
  destruct (is_tool_use_type (Type_ ev)).
  { unfold replay_tool_use. destruct (or_error ev _); [|done]. cbn. rewrite turn_budgets, turn_tail. split_and!; [done..|].
    eexists. split; [reflexivity|]. split; cbn; rewrite ?turn_role, ?app_nil_r; try done. intros items _ ->. by rewrite kept_snoc. }
  destruct (is_result_type (Type_ ev)).
  { unfold replay_tool_result, says_result. destruct (or_error ev _); [|done].
    destruct (nested !! ID ev); cbn; rewrite turn_budgets, turn_tail; split_and!; try done;
      (eexists; split; [reflexivity|]; split; cbn; rewrite ?turn_role, ?app_nil_r; try done; intros items _ ->);
      [by rewrite kept_snoc|by rewrite ?app_nil_r]. }
  split_and!; [done..|]. eexists. split; [reflexivity|]. by destruct s.
Qed.

(** ** The open turn *)

(** The loop behind the runs [done], with [g] open. *)
Record open_turn (done : list (list contribution)) (g : list contribution) (s : rstate) : Prop := MkOpen {
  ot_role : rs_role s = run_role g;
  ot_same : Forall (fun c => cb_role c = run_role g) g;
  ot_wf : Forall wf_contribution g;
  ot_verdicts : Forall wf_verdict g;
  ot_results : rs_results s = run_results g;
  ot_blocks : rs_blocks s = (run_items g).*1;
  ot_kept : rs_kept s = kept_at (run_items g);
  ot_uses : rs_uses s = run_uses g;
  ot_msgs : rs_msgs s = messages ∅ done;
  ot_answering : rs_answering s = foldl answering_of ∅ done;
  ot_acks : rs_acks s = acks_of O g }.

Lemma open_new : open_turn [] [] new_replay.
Proof. by split. Qed.

Lemma run_role_known g : g <> [] -> Forall wf_contribution g -> run_role g <> EmptyString.
Proof. destruct g as [|c g]; [done|]. intros _ [[(E & _)|(E & _)] _]%Forall_cons; cbn; by rewrite E. Qed.

Lemma settled_open done g s : open_turn done g s -> settle_acks (rs_acks s) (rs_blocks s) = (settled g).*1.
Proof.
  intros [_ _ _ Hv _ Hb _ _ _ _ Ha]. rewrite Ha, Hb. apply (settle_acks_of [] g Hv).
Qed.

Lemma flush_open done g s : open_turn done g s -> g <> [] -> open_turn (done ++ [g]) [] (flush_turn s).
Proof.
  intros Ho Hg. pose proof (settled_open _ _ _ Ho) as Hs. destruct Ho as [Hr _ Hwf Hv Hres Hb Hk Hu Hm Ha _].
  unfold flush_turn. rewrite Hr, Hs. destruct (String.eqb_spec (run_role g) EmptyString) as [E|_]; [by apply run_role_known in E|].
  assert (Han : (if String.eqb (run_role g) "assistant" then index_uses (rs_uses s) else rs_answering s) = foldl answering_of ∅ (done ++ [g])).
  { rewrite foldl_app. cbn. unfold answering_of at 1. by rewrite Hu, Ha. }
  split; cbn; try done.
  rewrite messages_app. cbn. unfold message_of. by rewrite Hm, Hres, Ha, Hk, kept_settled.
Qed.

Lemma flush_open_nil done s : open_turn done [] s -> flush_turn s = s.
Proof. intros Ho. unfold flush_turn. by rewrite (ot_role _ _ _ Ho). Qed.

(** The turn a contribution of role [r] joins: the open one, or a new one behind it. *)
Definition joins (done : list (list contribution)) (g : list contribution) (r : string) : list (list contribution) * list contribution :=
  if String.eqb (run_role g) r then (done, g) else match g with [] => (done, []) | _ => (done ++ [g], []) end.

Lemma turn_open done g s r : open_turn done g s ->
  let '(done', g') := joins done g r in
  rs_results (turn r s) = run_results g' /\ rs_blocks (turn r s) = (run_items g').*1 /\ rs_kept (turn r s) = kept_at (run_items g') /\
  rs_uses (turn r s) = run_uses g' /\ rs_msgs (turn r s) = messages ∅ done' /\
  rs_answering (turn r s) = foldl answering_of ∅ done' /\ rs_acks (turn r s) = acks_of O g'.
Proof.
  intros Ho. unfold joins, turn. rewrite (ot_role _ _ _ Ho).
  destruct (String.eqb_spec (run_role g) r) as [E|N]; [by destruct Ho|].
  destruct g as [|c g].
  - rewrite (flush_open_nil _ _ Ho). by destruct Ho.
  - pose proof (flush_open _ _ _ Ho ltac:(done)) as Hf. by destruct Hf.
Qed.

Lemma joins_runs done g c cs : Forall (fun d => cb_role d = run_role g) g ->
  let '(done', g') := joins done g (cb_role c) in
  Forall (fun d => cb_role d = cb_role c) g' /\
  done' ++ group_runs (g' ++ c :: cs) = done ++ group_runs (g ++ c :: cs) /\
  (forall d, d ∈ g' -> d ∈ g).
Proof.
  intros Hg. unfold joins. destruct (String.eqb_spec (run_role g) (cb_role c)) as [<-|N]; [done|].
  destruct g as [|d g]; [done|]. split_and!; [done| |by intros ? ?%elem_of_nil].
  rewrite (group_runs_app (d :: g)).
  - rewrite (group_runs_same (d :: g)) by done. cbn [app]. by rewrite <- app_assoc.
  - destruct (last (d :: g)) as [e|] eqn:E; [|done]. apply last_Some_elem_of in E.
    rewrite Forall_forall in Hg. by rewrite (Hg _ E).
Qed.

Lemma contributed_open done g s c s' : open_turn done g s -> wf_contribution c -> wf_verdict c -> contributed c s s' ->
  exists done' g', open_turn done' g' s' /\ forall cs, done' ++ group_runs (g' ++ cs) = done ++ group_runs (g ++ c :: cs).
Proof.
  intros Ho Hc Hv Hs. pose proof (turn_open _ _ _ (cb_role c) Ho) as Ht.
  pose proof (fun cs => joins_runs done g c cs (ot_same _ _ _ Ho)) as Hj.
  destruct (joins done g (cb_role c)) as [done' g'] eqn:Ej. destruct (Hj []) as (Hr & _ & Hin).
  destruct Ht as (Hres & Hb & Hk & Hu & Hm & Ha & Hack).
  exists done', (g' ++ [c]). split.
  2:{ intros cs. rewrite <- app_assoc. apply (Hj cs). }
  assert (Hrole : run_role (g' ++ [c]) = cb_role c).
  { destruct g' as [|d g']; [done|]. by apply Forall_cons in Hr as [? _]. }
  destruct Hs. split; unfold run_results, run_items, run_uses in *; rewrite ?map_app, ?concat_app; cbn [map concat]; rewrite ?app_nil_r, ?Hrole.
  - done.
  - apply Forall_app. by split; [|apply Forall_singleton].
  - apply Forall_app. split; [|by apply Forall_singleton]. apply Forall_forall. intros d Hd. pose proof (ot_wf _ _ _ Ho) as Hw.
    rewrite Forall_forall in Hw. auto.
  - apply Forall_app. split; [|by apply Forall_singleton]. apply Forall_forall. intros d Hd. pose proof (ot_verdicts _ _ _ Ho) as Hw.
    rewrite Forall_forall in Hw. auto.
  - by rewrite ct_results0, Hres.
  - by rewrite ct_blocks0, Hb, fmap_app.
  - apply ct_kept0; [by rewrite Hb, length_fmap|done].
  - by rewrite ct_uses0, Hu.
  - by rewrite ct_msgs0.
  - by rewrite ct_answering0.
  - rewrite ct_acks0, acks_of_snoc, Hack, Hb by done. unfold run_items. by rewrite length_fmap.
Qed.

Lemma same_turn_open done g s s' : open_turn done g s -> same_turn s s' -> open_turn done g s'.
Proof. intros [] ->. by split. Qed.

(** The loop against the rows' contributions. *)
Lemma replay_rows_runs rows done g s : open_turn done g s ->
  match replay_rows raw_text sessionID system nested kept_blocks rows s with
  | Ok s' => rs_systemTail s' = foldl (fun tail ev => tail_after ev tail) (rs_systemTail s) rows /\
      exists cs done' g', contributions raw_text sessionID nested kept_blocks (rs_budgets s) rows = Ok cs /\
        open_turn done' g' s' /\ done' ++ group_runs g' = done ++ group_runs (g ++ cs)
  | Err e => contributions raw_text sessionID nested kept_blocks (rs_budgets s) rows = Err e
  end.
Proof.
  revert done g s. induction rows as [|ev rows IH]; intros done g s Ho; cbn [replay_rows contributions].
  { split; [done|]. exists [], done, g. by rewrite app_nil_r. }
  pose proof (replay_row_agrees ev s) as Hrow. unfold row_agrees in Hrow.
  destruct (replay_row _ _ _ _ _ ev s) as [s1|e]; [|by rewrite Hrow].
  destruct Hrow as (Hbud & Htail & oc & Hsays & Hoc). rewrite Hsays. rewrite <- Hbud. cbn [foldl]. rewrite <- Htail.
  assert (Hnext : exists done1 g1, open_turn done1 g1 s1 /\
    forall cs, done1 ++ group_runs (g1 ++ cs) = done ++ group_runs (g ++ option_list oc ++ cs)).
  { destruct oc as [c|] eqn:Eoc; [|exists done, g; split; [by eapply same_turn_open|done]].
    destruct (says_wf _ _ _ Hsays) as [Hw Hv]. destruct (contributed_open _ _ _ _ _ Ho Hw Hv Hoc) as (d1 & g1 & ? & ?). eauto. }
  destruct Hnext as (done1 & g1 & Ho1 & Hruns). specialize (IH _ _ _ Ho1).
  destruct (replay_rows _ _ _ _ _ rows s1) as [s2|e]; [|by rewrite IH].
  destruct IH as (Ht & cs & done2 & g2 & -> & Ho2 & Hr). split; [done|].
  eexists _, done2, g2. split_and!; [done..|]. by rewrite Hr, Hruns.
Qed.
End rows.

(** ** The system prompt *)

Lemma system_tail_join system texts tail :
  system +:+ foldl (fun tail t =>
       (if String.eqb tail EmptyString && String.eqb system EmptyString then tail else tail +:+ new_line +:+ new_line) +:+ t) tail texts =
  foldl join_system (system +:+ tail) texts.
Proof.
  revert tail. induction texts as [|t texts IH]; intros tail; cbn [foldl]; [done|]. rewrite IH. f_equal. unfold join_system.
  assert (He : String.eqb (system +:+ tail) EmptyString = String.eqb tail EmptyString && String.eqb system EmptyString)
    by (destruct system, tail; done).
  rewrite He. destruct (_ && _) eqn:Hb.
  - apply andb_true_iff in Hb as [->%String.eqb_eq ->%String.eqb_eq]. done.
  - by rewrite !append_assoc.
Qed.

Lemma system_prompt_rows system rows tail :
  system +:+ foldl (fun tail ev => tail_after system ev tail) tail rows = foldl join_system (system +:+ tail) (system_texts_of rows).
Proof.
  revert tail. induction rows as [|ev rows IH]; intros tail; cbn [foldl]; [done|]. rewrite IH. unfold tail_after, system_texts_of.
  cbn [map concat]. rewrite app_nil_r, foldl_app. by rewrite system_tail_join.
Qed.

Lemma watermark_max rows w :
  foldl (fun w ev => if w <? Seq ev then Seq ev else w) w rows = foldl (fun w ev => Z.max w (Seq ev)) w rows.
Proof. revert w. induction rows as [|ev rows IH]; intros w; cbn; [done|]. rewrite IH. f_equal. split_ifs; lia. Qed.

(** ** Kept thinking *)

Section thinking.
Context (digest : list (string * rblock) -> string).

Lemma admit_blocks_plain t role i chain blocks :
  admit_blocks digest t role ∅ i chain blocks = (blocks, chain ++ map (pair role) blocks).
Proof.
  revert i chain. induction blocks as [|b blocks IH]; intros i chain; cbn; [by rewrite app_nil_r|].
  rewrite lookup_empty, IH. by rewrite <- app_assoc.
Qed.

(** Nothing to admit is no special case. *)
Lemma admitThinking_walk t system tools msgs :
  admitThinking digest t system tools msgs = admit_messages digest t (newPrefixChain (rt_route t) system tools) msgs.
Proof.
  unfold admitThinking. destruct (existsb _ msgs) eqn:E; [done|]. cbn [negb].
  generalize (newPrefixChain (rt_route t) system tools). revert E.
  induction msgs as [|[r bs th] msgs IH]; intros E chain; [done|]. cbn in E |- *.
  apply orb_false_iff in E as [Eth E]. apply negb_false_iff, bool_decide_eq_true in Eth. subst th.
  rewrite admit_blocks_plain. f_equal. by apply IH.
Qed.
End thinking.

Section request.
Context (digest : list (string * rblock) -> string) (raw_text : json -> string) (sessionID system : string).

Lemma buildRequest_eq (tools : list json) (history : list Event) (skills files repos memory : string)
    (nested : gmap string string) (thinking : replayThinking) :
  let rows := ConsumptionOrder history in
  let prompt := foldl join_system (startup_system system [skills; files; repos; memory]) (system_texts_of rows) in
  buildRequest digest raw_text sessionID system tools history skills files repos memory nested thinking =
    try cs <- contributions raw_text sessionID nested (rt_blocks thinking) ∅ rows;
    Ok (MkRequest prompt tools
          (map (fun m => (rm_role m, rm_blocks m))
             (admit_messages digest thinking (newPrefixChain (rt_route thinking) prompt tools) (conversation cs))),
        foldl (fun w ev => Z.max w (Seq ev)) 0 rows).
Proof.
  cbv zeta. unfold buildRequest. set (sys := startup_system _ _). set (rows := ConsumptionOrder history).
  pose proof (replay_rows_runs raw_text sessionID sys nested (rt_blocks thinking) rows _ _ _ open_new) as H.
  change (rs_budgets new_replay) with (∅ : gmap string Z) in H.
  destruct (replay_rows _ _ _ _ _ rows new_replay) as [s|e]; [|by rewrite H].
  destruct H as (Ht & cs & done & g & -> & Ho & Hr). cbn [app] in Hr.
  assert (Hm : rs_msgs (flush_turn s) = conversation cs /\ rs_systemTail (flush_turn s) = rs_systemTail s).
  { unfold conversation. rewrite <- Hr. destruct g as [|c g].
    - rewrite (flush_open_nil _ _ Ho), app_nil_r. split; [apply (ot_msgs _ _ _ Ho)|done].
    - rewrite (group_runs_same (c :: g)) by (done || apply (ot_same _ _ _ Ho)).
      split; [by apply (flush_open _ _ _ Ho)|]. unfold flush_turn. by repeat case_match. }
  destruct Hm as [Hmsgs Htail]. rewrite Htail, Ht, Hmsgs, admitThinking_walk. cbn [rs_systemTail new_replay].
  rewrite system_prompt_rows. rewrite append_nil_r.
  by rewrite watermark_max.
Qed.
(** C4: a request is what the log says: the prompt joined with every system message, the
    conversation of the rows' contributions with the thinking that still holds, the highest
    seq as its watermark; and it fails on the row that cannot be read. *)
Theorem buildRequest_conversation (tools : list json) (history : list Event) (skills files repos memory : string)
    (nested : gmap string string) (thinking : replayThinking) :
  let rows := ConsumptionOrder history in
  let prompt := foldl join_system (startup_system system [skills; files; repos; memory]) (system_texts_of rows) in
  buildRequest digest raw_text sessionID system tools history skills files repos memory nested thinking =
    try cs <- contributions raw_text sessionID nested (rt_blocks thinking) ∅ rows;
    Ok (MkRequest prompt tools
          (map (fun m => (rm_role m, rm_blocks m))
             (admit_messages digest thinking (newPrefixChain (rt_route thinking) prompt tools) (conversation cs))),
        foldl (fun w ev => Z.max w (Seq ev)) 0 rows).
Proof. apply buildRequest_eq. Qed.
End request.

(** ** The shape of a conversation *)

Lemma says_all_wf raw_text sessionID nested kept budgets rows cs :
  contributions raw_text sessionID nested kept budgets rows = Ok cs -> Forall wf_contribution cs /\ Forall wf_verdict cs.
Proof.
  revert budgets cs. induction rows as [|ev rows IH]; intros budgets cs; cbn; [by intros [= <-]|].
  destruct (says _ _ _ _ budgets ev) as [oc|] eqn:Es; [|done]. destruct (contributions _ _ _ _ _ rows) as [cs'|] eqn:Ec; [|done].
  intros [= <-]. destruct (IH _ _ Ec). destruct oc as [c|]; [|done]. apply says_wf in Es as [? ?]. split; by constructor.
Qed.

(** Runs are of one role each, and neighbours differ. *)
Lemma group_runs_runs cs :
  Forall (fun g => g <> [] /\ Forall (fun c => cb_role c = run_role g) g) (group_runs cs) /\
  forall i g g', group_runs cs !! i = Some g -> group_runs cs !! S i = Some g' -> run_role g <> run_role g'.
Proof.
  induction cs as [|c cs [IH1 IH2]]; [split; [constructor|done]|]. rewrite group_runs_cons.
  destruct (group_runs cs) as [|[|c' g] gs] eqn:E.
  - split; [by repeat constructor|]. intros [|i] g g' [= <-]; done.
  - by apply Forall_cons in IH1 as [[? _] _].
  - apply Forall_cons in IH1 as [[_ Hg] IH1]. cbn. destruct (String.eqb_spec (cb_role c) (cb_role c')) as [Er|Nr].
    + split.
      * constructor; [|done]. split; [done|]. constructor; [done|]. eapply Forall_impl; [exact Hg|]. cbn. congruence.
      * intros [|i] g1 g2; cbn; intros H1 H2; [injection H1 as <-; cbn; rewrite Er; by apply (IH2 O (c' :: g))|by apply (IH2 (S i))].
    + split.
      * constructor; [by repeat constructor|]. by constructor.
      * intros [|i] g1 g2; cbn; intros H1 H2; [injection H1 as <-; injection H2 as <-; done|by apply (IH2 i)].
Qed.

Lemma messages_lookup answering gs i :
  messages answering gs !! i = (fun g => message_of (foldl answering_of answering (take i gs)) g) <$> gs !! i.
Proof.
  revert answering i. induction gs as [|g gs IH]; intros answering [|i]; cbn; done.
Qed.

(** The calls the answers of message [i] are sorted by: those of the message ahead of it. *)
Definition calls_ahead (cs : list contribution) (i : nat) : list string :=
  match i with O => [] | S j => match group_runs cs !! j with Some g => run_uses g | None => [] end end.

Lemma calls_ahead_answering cs i g : Forall wf_contribution cs -> group_runs cs !! i = Some g -> run_role g = "user" ->
  foldl answering_of ∅ (take i (group_runs cs)) = index_uses (calls_ahead cs i).
Proof.
  intros Hwf Hi Hu. destruct i as [|j]; [done|]. cbn [calls_ahead]. destruct (group_runs_runs cs) as [Hruns Hadj].
  destruct (group_runs cs !! j) as [g0|] eqn:Hj; [|apply lookup_ge_None in Hj; apply lookup_lt_Some in Hi; lia].
  rewrite (take_S_r _ _ _ Hj), foldl_app. cbn. unfold answering_of.
  assert (Hin : forall c, c ∈ g0 -> wf_contribution c).
  { intros c Hc. rewrite Forall_forall in Hwf. apply Hwf. rewrite <- (concat_group_runs cs). apply list_elem_of_In, in_concat.
    exists g0. split; apply list_elem_of_In; [by eapply list_elem_of_lookup_2|done]. }
  pose proof (Hadj _ _ _ Hj Hi) as Hne. rewrite Forall_forall in Hruns.
  destruct (Hruns g0) as [Hne0 _]; [by eapply list_elem_of_lookup_2|]. destruct g0 as [|c g0]; [done|].
  destruct (Hin c ltac:(left)) as [(E & _)|(E & _)]; cbn in *; [congruence|]. by rewrite E.
Qed.

Lemma kept_at_lookup items i : kept_at items !! i = items !! i ≫= snd.
Proof. unfold kept_at. by rewrite lookup_omap, lookup_map_seq_0. Qed.

Lemma run_items_thinking g : Forall wf_contribution g -> run_role g = "user" -> Forall (fun c => cb_role c = run_role g) g ->
  Forall (fun it => it.2 = None) (run_items g).
Proof.
  intros Hw Hu Hr. unfold run_items. apply Forall_concat, Forall_map, Forall_forall. intros c Hc.
  rewrite Forall_forall in Hw, Hr. destruct (Hw c Hc) as [(_ & _ & ?)|(E & _)]; [done|]. rewrite (Hr c Hc), Hu in E. done.
Qed.

Lemma settled_assistant g : Forall wf_contribution g -> run_role g = "assistant" -> Forall (fun c => cb_role c = run_role g) g ->
  settled g = run_items g /\ run_results g = [] /\ Forall kept_bytes (run_items g).
Proof.
  intros Hw Hu Hr. rewrite Hu in Hr. clear Hu. unfold run_results, run_items.
  induction Hr as [|c g Hc Hr IH]; [done|]. apply Forall_cons in Hw as [Hwc Hw]. destruct (IH Hw) as (IH1 & IH2 & IH3). cbn.
  destruct Hwc as [(E & _)|(_ & -> & -> & Hk)]; [congruence|]. rewrite IH1. split_and!; [done..|]. by apply Forall_app.
Qed.

Lemma index_uses_lookup uses id : NoDup uses -> forall k, index_uses uses !! id = Some k <-> uses !! k = Some id.
Proof.
  unfold index_uses. induction uses as [|u uses IH] using rev_ind; intros Hnd k; cbn; [by rewrite lookup_empty|].
  apply NoDup_app in Hnd as (Hnd & Hdis & _). specialize (IH Hnd).
  rewrite imap_app, foldl_app. cbn. rewrite Nat.add_0_r.
  destruct (decide (u = id)) as [->|Hne].
  - rewrite lookup_insert_eq. split; [intros [= <-]; by apply list_lookup_middle|].
    intros Hk. destruct (decide (k < length uses)%nat) as [Hlt|].
    + rewrite lookup_app_l in Hk by done. destruct (Hdis id); [by eapply list_elem_of_lookup_2|left].
    + rewrite lookup_app_r in Hk by lia. f_equal. destruct (k - length uses)%nat as [|?] eqn:?; [lia|done].
  - rewrite lookup_insert_ne by done. rewrite IH. split; intros Hk; [by apply lookup_app_l_Some|].
    destruct (decide (k < length uses)%nat) as [Hlt|]; [by rewrite lookup_app_l in Hk|].
    rewrite lookup_app_r in Hk by lia. destruct (k - length uses)%nat; simplify_eq/=.
Qed.

#[export] Instance answer_le_total answering : Total (answer_le answering).
Proof. intros a b. unfold answer_le. lia. Qed.

#[export] Instance answer_le_trans answering : Transitive (answer_le answering).
Proof. intros a b c. unfold answer_le. lia. Qed.

(** A list of answers in the order of [calls]: a permutation of the logged ones, an earlier
    call's first, those of one call as they were logged. *)
Definition in_call_order (calls : list string) (logged answers : list toolAnswer) : Prop :=
  answers ≡ₚ logged /\
  StronglySorted (answer_le (index_uses calls)) answers /\
  forall k, filter (fun a => callPosition (index_uses calls) (ta_id a) = k) answers =
            filter (fun a => callPosition (index_uses calls) (ta_id a) = k) logged.

Lemma sort_in_call_order calls logged : in_call_order calls logged (sort_stable (answer_le (index_uses calls)) logged).
Proof.
  split_and!; [apply sort_stable_perm|apply sort_stable_sorted; apply _|].
  intros k. apply sort_stable_filter. unfold answer_le. intros x y -> ->. done.
Qed.

(** The messages of a conversation.  Each is one maximal run of the log; roles alternate
    between user and assistant; a user message opens with exactly its answers, in the order
    of the calls the message ahead of it made; and kept thinking stands in assistant
    messages, each block where its mark says. *)
Theorem conversation_shape (raw_text : json -> string) (sessionID : string) (nested : gmap string string)
    (kept : gmap string thinking_block) (rows : list Event) (cs : list contribution) (i : nat) (m : replayMessage)
    (Hcs : contributions raw_text sessionID nested kept ∅ rows = Ok cs) (Hm : conversation cs !! i = Some m) :
  concat (group_runs cs) = cs /\
  exists g, group_runs cs !! i = Some g /\ g <> [] /\ Forall (fun c => cb_role c = rm_role m) g /\
    (rm_role m = "user" \/ rm_role m = "assistant") /\
    (forall m', conversation cs !! S i = Some m' -> rm_role m' <> rm_role m) /\
    (exists answers, rm_blocks m = map ta_block answers ++ (settled g).*1 /\
       if String.eqb (rm_role m) "user" then in_call_order (calls_ahead cs i) (run_results g) answers else answers = []) /\
    forall j tb, rm_thinking m !! j = Some tb -> rm_role m = "assistant" /\ rm_blocks m !! j = Some (RBytes (tb_block tb)).
Proof.
  destruct (says_all_wf _ _ _ _ _ _ _ Hcs) as [Hwf Hv]. split; [apply concat_group_runs|].
  unfold conversation in Hm. rewrite messages_lookup in Hm. apply fmap_Some in Hm as (g & Hg & ->). exists g.
  destruct (group_runs_runs cs) as [Hruns Hadj]. pose proof (list_elem_of_lookup_2 _ _ _ Hg) as Hin.
  assert (Hsub : forall c, c ∈ g -> c ∈ cs).
  { intros c Hc. rewrite <- (concat_group_runs cs). apply list_elem_of_In, in_concat. exists g. by rewrite <- !list_elem_of_In. }
  rewrite Forall_forall in Hruns; rewrite Forall_forall in Hwf; rewrite Forall_forall in Hv. destruct (Hruns g Hin) as [Hne Hsame]. cbn [message_of rm_role rm_blocks rm_thinking].
  assert (Hwg : Forall wf_contribution g) by (apply Forall_forall; auto).
  assert (Hvg : Forall wf_verdict g) by (apply Forall_forall; auto).
  assert (Hrole : run_role g = "user" \/ run_role g = "assistant").
  { destruct g as [|c g]; [done|]. by apply Forall_cons in Hwg as [[[? _]|[? _]] _]; [left|right]. }
  split_and!; [done|done|done|done| | |].
  - intros m' Hm'. unfold conversation in Hm'. rewrite messages_lookup in Hm'. apply fmap_Some in Hm' as (g' & Hg' & ->).
    intros E. by apply (Hadj _ _ _ Hg Hg').
  - eexists. split; [reflexivity|]. destruct Hrole as [Hu|Ha].
    + rewrite Hu. cbn. rewrite (calls_ahead_answering _ _ _ ltac:(by apply Forall_forall) Hg Hu). apply sort_in_call_order.
    + rewrite Ha. cbn. by rewrite (proj1 (proj2 (settled_assistant _ Hwg Ha Hsame))).
  - intros j tb. rewrite kept_settled, kept_at_lookup by done. intros Hj. destruct Hrole as [Hu|Ha].
    + pose proof (run_items_thinking _ Hwg Hu Hsame) as Hno. apply bind_Some in Hj as (it & Hit & Htb).
      rewrite Forall_forall in Hno. rewrite (Hno it) in Htb; [done|by eapply list_elem_of_lookup_2].
    + split; [done|]. destruct (settled_assistant _ Hwg Ha Hsame) as (-> & -> & Hk). cbn [sort_stable foldr map app].
      apply bind_Some in Hj as (it & Hit & Htb). change ((run_items g).*1 !! j) with ((fst <$> run_items g) !! j).
      rewrite list_lookup_fmap, Hit. cbn. rewrite Forall_forall in Hk.
      specialize (Hk it (list_elem_of_lookup_2 _ _ _ Hit)). unfold kept_bytes in Hk. rewrite Htb in Hk. by rewrite Hk.
Qed.

(** ** A longer log *)

(** A turn of another role closes the conversation so far for good. *)
Lemma conversation_app cs c cs' :
  match last cs with Some d => cb_role d <> cb_role c | None => True end ->
  conversation (cs ++ c :: cs') =
    conversation cs ++ messages (foldl answering_of ∅ (group_runs cs)) (group_runs (c :: cs')).
Proof. intros H. unfold conversation. by rewrite group_runs_app, messages_app. Qed.

Lemma contributions_app raw_text sessionID nested kept budgets rows rows' :
  contributions raw_text sessionID nested kept budgets (rows ++ rows') =
    try cs <- contributions raw_text sessionID nested kept budgets rows;
    try cs' <- contributions raw_text sessionID nested kept (foldl (fun b ev => learn ev b) budgets rows) rows';
    Ok (cs ++ cs').
Proof.
  revert budgets. induction rows as [|ev rows IH]; intros budgets; cbn [app contributions foldl].
  - by destruct (contributions _ _ _ _ _ rows').
  - destruct (says _ _ _ _ _ _); [|done]. rewrite IH. destruct (contributions _ _ _ _ _ rows); [|done].
    destruct (contributions _ _ _ _ _ rows'); [|done]. by rewrite app_assoc.
Qed.

Lemma system_texts_of_app rows rows' : system_texts_of (rows ++ rows') = system_texts_of rows ++ system_texts_of rows'.
Proof. unfold system_texts_of. by rewrite map_app, concat_app. Qed.

Lemma last_conversation cs c : Forall wf_contribution cs -> last cs = Some c ->
  exists m, last (conversation cs) = Some m /\ rm_role m = cb_role c.
Proof.
  intros Hwf Hc. destruct (group_runs_runs cs) as [Hruns _]. pose proof (concat_group_runs cs) as Hcat.
  destruct (last (group_runs cs)) as [g|] eqn:Hg.
  - apply last_Some in Hg as [gs Hgs]. exists (message_of (foldl answering_of ∅ gs) g).
    unfold conversation. rewrite Hgs, messages_app. cbn [messages]. rewrite last_snoc. split; [done|]. cbn.
    rewrite Hgs in Hruns. apply Forall_app in Hruns as [_ [[Hne Hs] _]%Forall_cons].
    rewrite <- Hcat, Hgs, concat_app in Hc. cbn in Hc. rewrite app_nil_r, last_app in Hc.
    destruct (last g) as [d|] eqn:Hd; [|by apply last_None in Hd]. injection Hc as <-.
    apply last_Some_elem_of in Hd. rewrite Forall_forall in Hs. by rewrite (Hs _ Hd).
  - apply last_None in Hg. rewrite Hg in Hcat. cbn in Hcat. by rewrite <- Hcat in Hc.
Qed.

(** ** What goes back *)

Section admission.
Context (digest : list (string * rblock) -> string) (t : replayThinking).

Definition flat (ms : list replayMessage) : prefixChain := concat (map (fun m => map (pair (rm_role m)) (rm_blocks m)) ms).

(** The blocks of a request in order, each with what was kept of it. *)
Definition pieces (ms : list replayMessage) : list (string * rblock * option thinking_block) :=
  concat (map (fun m => imap (fun i b => (rm_role m, b, rm_thinking m !! i)) (rm_blocks m)) ms).

(** Kept thinking goes back if it came from the model, under what has gone back ahead of
    it or under any prefix over the route; every other block goes back. *)
Definition goes_back (chain : prefixChain) (th : option thinking_block) : bool :=
  match th with
  | None => true
  | Some tb =>
      String.eqb (tb_model tb) (rt_model t) &&
      (String.eqb (tb_digest tb) (digest chain) || String.eqb (tb_digest tb) (anyPrefixDigest digest (rt_route t)))
  end.

Definition send_back (chain : prefixChain) (ps : list (string * rblock * option thinking_block)) : prefixChain :=
  foldl (fun chain p => if goes_back chain p.2 then chain ++ [p.1] else chain) chain ps.

Lemma admit_blocks_chain role th i chain blocks :
  let '(kept, chain') := admit_blocks digest t role th i chain blocks in
  chain' = chain ++ map (pair role) kept /\ kept `sublist_of` blocks /\
  chain' = send_back chain (imap (fun j b => (role, b, th !! (i + j)%nat)) blocks).
Proof.
  revert i chain. induction blocks as [|b blocks IH]; intros i chain; cbn; [by rewrite app_nil_r|].
  assert (Hs : forall n, imap ((fun j (b : rblock) => (role, b, th !! (i + j)%nat)) ∘ S) n = imap (fun j b => (role, b, th !! (S i + j)%nat)) n)
    by (intros n; apply imap_ext; intros j b' _; cbn; do 2 f_equal; lia).
  rewrite Hs, Nat.add_0_r.
  assert (Hkeep : let '(kept, chain') := (let '(kept, chain) := admit_blocks digest t role th (S i) (chain ++ [(role, b)]) blocks in (b :: kept, chain)) in
    chain' = chain ++ map (pair role) kept /\ kept `sublist_of` b :: blocks /\
    chain' = send_back (chain ++ [(role, b)]) (imap (fun j b => (role, b, th !! (S i + j)%nat)) blocks)).
  { specialize (IH (S i) (chain ++ [(role, b)])). destruct (admit_blocks _ _ _ _ _ _ blocks) as [kept chain'].
    destruct IH as (H1 & H2 & H3). split_and!; [by rewrite H1, <- app_assoc|by constructor|done]. }
  unfold send_back in *. destruct (th !! i) as [tb|]; cbn; [|exact Hkeep].
  unfold admits_block. destruct (_ && _); [exact Hkeep|].
  specialize (IH (S i) chain). destruct (admit_blocks _ _ _ _ _ _ blocks) as [kept chain'].
  destruct IH as (H1 & H2 & H3). split_and!; [done|by constructor|done].
Qed.

Lemma admit_messages_cons chain m ms :
  admit_messages digest t chain (m :: ms) =
    let kept := (admit_blocks digest t (rm_role m) (rm_thinking m) 0 chain (rm_blocks m)).1 in
    MkMessage (rm_role m) kept (rm_thinking m) :: admit_messages digest t (chain ++ map (pair (rm_role m)) kept) ms.
Proof.
  cbn. pose proof (admit_blocks_chain (rm_role m) (rm_thinking m) 0 chain (rm_blocks m)) as H.
  destruct (admit_blocks _ _ _ _ _ _ _) as [kept chain']. destruct H as (-> & _). done.
Qed.

Lemma admit_messages_app chain ms ms' :
  admit_messages digest t chain (ms ++ ms') =
    admit_messages digest t chain ms ++ admit_messages digest t (chain ++ flat (admit_messages digest t chain ms)) ms'.
Proof.
  revert chain. induction ms as [|m ms IH]; intros chain; [cbn; by rewrite app_nil_r|].
  cbn [app]. rewrite !admit_messages_cons. cbv zeta. rewrite IH. cbn [app]. do 3 f_equal. unfold flat. cbn. by rewrite app_assoc.
Qed.

(** C20: a request carries a kept thinking block exactly if the block was made by the model
    the request goes to, under exactly what the request carries ahead of it (or, stored as
    such, under any prefix over its route); a block left out is not in the prefix of a later
    one; every other block stays where it was. *)
Theorem admitThinking_exact (system : string) (tools : list json) (msgs : list replayMessage) :
  let sent := admitThinking digest t system tools msgs in
  let base := newPrefixChain (rt_route t) system tools in
  base ++ flat sent = send_back base (pieces msgs) /\
  Forall2 (fun m m' => rm_role m' = rm_role m /\ rm_blocks m' `sublist_of` rm_blocks m) msgs sent.
Proof.
  cbv zeta. rewrite admitThinking_walk. generalize (newPrefixChain (rt_route t) system tools).
  induction msgs as [|m ms IH]; intros chain; [by rewrite app_nil_r|].
  rewrite admit_messages_cons. cbv zeta. pose proof (admit_blocks_chain (rm_role m) (rm_thinking m) 0 chain (rm_blocks m)) as H.
  destruct (admit_blocks _ _ _ _ _ _ _) as [kept chain']. destruct H as (H1 & H2 & H3). cbn [fst].
  destruct (IH (chain ++ map (pair (rm_role m)) kept)) as [IH1 IH2]. split; [|by constructor].
  unfold flat, pieces. cbn [map concat rm_role rm_blocks]. rewrite app_assoc.
  unfold flat in IH1. rewrite IH1. unfold send_back. rewrite foldl_app. f_equal. rewrite <- H1, H3. done.
Qed.
End admission.

Lemma messages_thinking_head cs tb answering :
  Forall wf_contribution (thought tb :: cs) ->
  exists bs th ms, messages answering (group_runs (thought tb :: cs)) =
    MkMessage "assistant" (RBytes (tb_block tb) :: bs) th :: ms /\ th !! O = Some tb.
Proof.
  intros Hwf. set (c := thought tb) in *. destruct (group_runs_runs (c :: cs)) as [Hruns _].
  pose proof (concat_group_runs (c :: cs)) as Hcat. destruct (group_runs_head c cs) as (g & gs & Hg). rewrite Hg in *.
  apply Forall_cons in Hruns as [[_ Hsame] _].
  assert (Hwg : Forall wf_contribution (c :: g)) by (rewrite <- Hcat in Hwf; cbn [concat] in Hwf; by apply Forall_app in Hwf as [? _]).
  destruct (settled_assistant (c :: g) Hwg eq_refl Hsame) as (Hs & Hr & _).
  cbn [messages]. unfold message_of. rewrite Hr, Hs. eexists _, _, _. split; [reflexivity|]. by rewrite kept_at_lookup.
Qed.

Lemma admit_first digest t chain role b bs th ms tb : th !! O = Some tb -> admits_block digest t chain tb = true ->
  exists bs' more, admit_messages digest t chain (MkMessage role (b :: bs) th :: ms) = MkMessage role (b :: bs') th :: more.
Proof.
  intros Hth Ha. cbn. rewrite Hth, Ha. destruct (admit_blocks _ _ _ _ _ _ bs) as [kept chain']. eauto.
Qed.

Lemma last_map {A B} (f : A -> B) l x : last l = Some x -> last (map f l) = Some (f x).
Proof. intros Hl. change (map f l) with (f <$> l). by rewrite fmap_last, Hl. Qed.

Lemma last_admitted digest t chain ms m : last ms = Some m ->
  exists m', last (admit_messages digest t chain ms) = Some m' /\ rm_role m' = rm_role m.
Proof.
  intros [ms' ->]%last_Some. rewrite admit_messages_app, admit_messages_cons. cbn. rewrite last_snoc. eauto.
Qed.

Section round_trip.
Context (digest : list (string * rblock) -> string) (raw_text : json -> string) (sessionID system : string) (tools : list json)
  (skills files repos memory : string) (nested : gmap string string) (thinking : replayThinking).

Definition request_of (history : list Event) : result replay_error (Request * Z) :=
  buildRequest digest raw_text sessionID system tools history skills files repos memory nested thinking.

(** Thinking goes back.  When the log grows by a reply to the request it was built into,
    and the prompt does not change, the next request repeats that request message for
    message and follows it with the reply, opening on the thinking block the reply was
    stored with: the block's own prefix is what the new request carries ahead of it. *)
Theorem thinking_goes_back (history history' : list Event) (ev : Event) (rest : list Event) (tb : thinking_block)
    (rq rq' : Request) (w w' : Z)
    (Hrq : request_of history = Ok (rq, w)) (Hrq' : request_of history' = Ok (rq', w'))
    (Hgrown : ConsumptionOrder history' = ConsumptionOrder history ++ ev :: rest)
    (Hprompt : system_texts_of rest = []) (Hthinking : Type_ ev = EventAgentThinking)
    (Hkept : rt_blocks thinking !! ID ev = Some tb) (Hmodel : tb_model tb = rt_model thinking)
    (Hdigest : tb_digest tb = digest (requestChain (rt_route thinking) rq))
    (Hopen : match last (rq_messages rq) with Some m => m.1 = "user" | None => True end) :
  exists bs more, rq_messages rq' = rq_messages rq ++ ("assistant", RBytes (tb_block tb) :: bs) :: more /\
    rq_system rq' = rq_system rq /\ rq_tools rq' = rq_tools rq.
Proof.
  unfold request_of in Hrq, Hrq'. rewrite buildRequest_eq in Hrq, Hrq'. cbv zeta in Hrq, Hrq'.
  destruct (contributions _ _ _ _ _ (ConsumptionOrder history)) as [cs|] eqn:Hcs; [|done].
  rewrite Hgrown, contributions_app, Hcs, system_texts_of_app in Hrq'. cbn [contributions] in Hrq'.
  assert (Hsays : says raw_text sessionID nested (rt_blocks thinking)
      (foldl (fun b ev => learn ev b) ∅ (ConsumptionOrder history)) ev = Ok (Some (thought tb)))
    by (unfold says; rewrite Hthinking; cbn; by rewrite Hkept).
  rewrite Hsays in Hrq'. destruct (contributions _ _ _ _ (learn ev _) rest) as [cs'|] eqn:Hcs'; [|done].
  assert (Hwf : Forall wf_contribution (cs ++ thought tb :: cs')).
  { eapply (says_all_wf raw_text sessionID nested (rt_blocks thinking) ∅ (ConsumptionOrder history ++ ev :: rest)).
    rewrite contributions_app, Hcs. cbn [contributions]. by rewrite Hsays, Hcs'. }
  assert (Htexts : system_texts_of (ev :: rest) = []) by (unfold system_texts_of in *; cbn; by rewrite Hthinking, Hprompt).
  rewrite Htexts, app_nil_r in Hrq'. set (prompt := foldl join_system _ _) in *.
  set (base := newPrefixChain (rt_route thinking) prompt tools) in *.
  injection Hrq as <- _. injection Hrq' as <- _. cbn [rq_messages rq_system rq_tools] in *.
  assert (Hlast : match last cs with Some d => cb_role d <> "assistant" | None => True end).
  { destruct (last cs) as [d|] eqn:Hd; [|done]. apply Forall_app in Hwf as [Hwf _].
    destruct (last_conversation cs d Hwf Hd) as (m & Hm & <-). intros Hr. revert Hopen.
    destruct (last_admitted digest thinking base _ _ Hm) as (m' & Hm' & Hr'). rewrite (last_map _ _ _ Hm'). cbn. congruence. }
  apply Forall_app in Hwf as [Hwf Hwf'].
  destruct (messages_thinking_head cs' tb (foldl answering_of ∅ (group_runs cs)) Hwf') as (bs & th & ms & Hms & Hth).
  rewrite (conversation_app cs (thought tb) cs' Hlast), Hms, admit_messages_app, map_app.
  destruct (admit_first digest thinking (base ++ flat (admit_messages digest thinking base (conversation cs)))
    "assistant" (RBytes (tb_block tb)) bs th ms tb Hth) as (bs' & more & ->).
  { unfold admits_block. rewrite Hmodel, String.eqb_refl, Hdigest. unfold requestChain. cbn [rq_system rq_tools rq_messages].
    rewrite map_map. unfold flat. by rewrite String.eqb_refl. }
  eexists _, _. by split.
Qed.
End round_trip.

(** ** Witnesses *)

Definition w_digest (chain : list (string * rblock)) : string :=
  String.concat "|" (map (fun p => p.1 +:+ ":" +:+ match p.2 with RBytes b => b | RJson v => "json" end) chain).

Definition w_event (id : string) (seq : Z) (t : EventType) (members : list (string * json)) : Event :=
  MkEvent id EmptyString seq t (Some (JObject members)) 64.

Definition w_asks : Event := w_event "sevt_1" 1 EventUserMessage [("content", JString "hello")].

Definition w_thinks : Event := w_event "sevt_2" 2 EventAgentThinking [].

(** Two calls, answered the other way round. *)
Definition w_rows : list Event :=
  [w_asks;
   w_event "sevt_3" 3 EventAgentToolUse [("name", JString "read"); ("input", JObject [])];
   w_event "sevt_4" 4 EventAgentToolUse [("name", JString "bash"); ("input", JObject [])];
   w_event "sevt_5" 5 EventUserToolResult [("tool_use_id", JString "sevt_4")];
   w_event "sevt_6" 6 EventUserToolResult [("tool_use_id", JString "sevt_3")]].

Definition w_cs : list contribution :=
  match contributions (fun _ => EmptyString) "sesn_1" ∅ ∅ ∅ w_rows with Ok cs => cs | Err _ => [] end.

Lemma conversation_shape_witness :
  exists m, conversation w_cs !! 2%nat = Some m /\ rm_role m = "user" /\
    exists g answers, group_runs w_cs !! 2%nat = Some g /\ rm_blocks m = map ta_block answers ++ (settled g).*1 /\
      in_call_order ["sevt_3"; "sevt_4"] (run_results g) answers /\ map ta_id answers = ["sevt_3"; "sevt_4"].
Proof.
  assert (Hcs : contributions (fun _ => EmptyString) "sesn_1" ∅ ∅ ∅ w_rows = Ok w_cs) by (vm_compute; reflexivity).
  destruct (conversation w_cs !! 2%nat) as [m|] eqn:Hm; [|vm_compute in Hm; discriminate Hm].
  destruct (conversation_shape (fun _ => EmptyString) "sesn_1" ∅ ∅ w_rows w_cs 2 m Hcs Hm)
    as (_ & g & Hg & _ & _ & _ & _ & (answers & Hb & Ha) & _).
  exists m. split; [reflexivity|].
  assert (Hr : rm_role m = "user") by (vm_compute in Hm; injection Hm as <-; reflexivity).
  split; [exact Hr|]. exists g, answers. rewrite Hr, String.eqb_refl in Ha.
  assert (Hc : calls_ahead w_cs 2 = ["sevt_3"; "sevt_4"]) by (vm_compute; reflexivity). rewrite Hc in Ha.
  split_and!; [exact Hg|exact Hb|exact Ha|].
  vm_compute in Hm. injection Hm as <-. vm_compute in Hg. injection Hg as <-. cbn in Hb.
  destruct answers as [|[i1 b1] [|[i2 b2] [|]]]; cbn in Hb; try discriminate Hb.
  destruct Ha as [Hp _]. apply Permutation_length_2_inv in Hp. cbn in Hp.
  destruct Hp as [Hp|Hp]; simplify_eq/=; reflexivity.
Defined.

Definition w_rq : Request := MkRequest "be brief" [] [("user", [RJson (text_json "hello")])].

Definition w_block : thinking_block :=
  MkThinking "sevt_2" "claude" (w_digest (requestChain "anthropic" w_rq)) "signed".

Definition w_thinking : replayThinking := MkReplayThinking "claude" "anthropic" {[ "sevt_2" := w_block ]}.

Lemma thinking_goes_back_witness :
  let rest := [w_event "sevt_3" 3 EventAgentMessage [("content", JString "hi")]; w_event "sevt_4" 4 EventUserMessage [("content", JString "more")]] in
  exists rq' w', request_of w_digest (fun _ => EmptyString) "sesn_1" "be brief" [] "" "" "" "" ∅ w_thinking (w_asks :: w_thinks :: rest) = Ok (rq', w') /\
    exists bs more, rq_messages rq' = rq_messages w_rq ++ ("assistant", RBytes "signed" :: bs) :: more.
Proof.
  cbv zeta.
  destruct (request_of w_digest (fun _ => EmptyString) "sesn_1" "be brief" [] "" "" "" "" ∅ w_thinking
    (w_asks :: w_thinks :: [w_event "sevt_3" 3 EventAgentMessage [("content", JString "hi")]; w_event "sevt_4" 4 EventUserMessage [("content", JString "more")]]))
    as [[rq' w']|e] eqn:Hrq'; [|vm_compute in Hrq'; discriminate Hrq'].
  exists rq', w'. split; [reflexivity|].
  assert (Hrq : request_of w_digest (fun _ => EmptyString) "sesn_1" "be brief" [] "" "" "" "" ∅ w_thinking [w_asks] = Ok (w_rq, 1)) by (vm_compute; reflexivity).
  destruct (thinking_goes_back w_digest (fun _ => EmptyString) "sesn_1" "be brief" [] "" "" "" "" ∅ w_thinking [w_asks] _ w_thinks
    [w_event "sevt_3" 3 EventAgentMessage [("content", JString "hi")]; w_event "sevt_4" 4 EventUserMessage [("content", JString "more")]]
    w_block w_rq rq' 1 w' Hrq Hrq') as (bs & more & H & _); try (vm_compute; reflexivity).
  exists bs, more. exact H.
Defined.
