(* ===== verification/Threadmsg.v ===== *)
(** * Threadmsg: messages between threads, and who wakes whom (internal/events/threadmsg.go).

    A message is a pair of events, one on each thread's log.  A delivery wakes its target
    when nothing else will; the end of a child wakes a parked coordinator when no other
    busy child is left.  Thread rows are those of [Status]; the column [parent_thread_id],
    which no statement here writes, is a map of its own. *)
From Stdlib Require Import Lia.
From S2P Require Import Prelude GoStrings Ids Status Json Domain Consumption Log ToolQuery.


(** ** A status event as the log takes it *)

Definition status_text (s : SessionStatus) : string :=
  match s with
  | Status.SessionIdle => "idle" | Status.SessionRunning => "running" | Status.SessionRescheduling => "rescheduling"
  | Status.SessionTerminated => "terminated" | Status.OtherStatus t => t
  end.

Definition stop_text (t : Status.StopReasonType) : string :=
  match t with
  | Status.StopRequiresAction => "requires_action" | Status.StopEndTurn => "end_turn"
  | Status.StopRetriesExhausted => "retries_exhausted" | Status.OtherStop s => s
  end.

Definition status_event_type (t : Status.EventType) : EventType :=
  match t with
  | Status.ThreadStatusRunning => EventSessionThreadStatusRunning
  | Status.ThreadStatusIdle => EventSessionThreadStatusIdle
  | Status.ThreadStatusRescheduled => EventSessionThreadStatusRescheduled
  | Status.ThreadStatusTerminated => EventSessionThreadStatusTerminated
  | Status.SessionStatusRunning => EventSessionStatusRunning
  | Status.SessionStatusIdle => EventSessionStatusIdle
  | Status.SessionStatusRescheduled => EventSessionStatusRescheduled
  | Status.SessionStatusTerminated => EventSessionStatusTerminated
  | Status.OtherEvent s => s
  end.

(** [event_ids] is left out when empty. *)
Definition stop_json (s : Status.StopReason) : json :=
  JObject (("type", JString (stop_text (Status.sr_type s))) ::
    match Status.sr_ids s with [] => [] | ids => [("event_ids", JArray (map JString ids))] end).

Definition status_event (ev : Status.NewEvent) : NewEvent :=
  let p := Status.ev_payload ev in
  MkNewEvent EmptyString (status_event_type (Status.ev_type ev))
    (Some (JObject (
       match Status.p_agent p with Some a => [("agent_name", JString a)] | None => [] end ++
       match Status.p_thread p with Some t => [("session_thread_id", JString t)] | None => [] end ++
       match Status.p_stop p with Some s => [("stop_reason", stop_json s)] | None => [] end)))
    None (Status.ev_thread ev) (Status.ev_cross ev) (Status.ev_restated ev).

(** ** Messages *)

Record ThreadPeer := MkPeer { tp_ThreadID : string; tp_AgentName : string }.

(** [wire]: the primary's derived id where the column holds NULL. *)
Definition peer_wire (p : ThreadPeer) (sessionID : string) : string :=
  if String.eqb (tp_ThreadID p) EmptyString then PrimaryThreadID sessionID else tp_ThreadID p.

Definition message_content (text : string) : json :=
  JArray [JObject [("text", JString text); ("type", JString "text")]].

(** The pair of a message: what its sender logs and what its target receives. *)
Definition ThreadMessage (sessionID : string) (from to : ThreadPeer) (text : string) : NewEvent * NewEvent :=
  (MkNewEvent EmptyString EventAgentThreadMessageSent
     (Some (JObject ([("content", message_content text)] ++
        (if String.eqb (tp_ThreadID to) EmptyString then [] else [("to_agent_name", JString (tp_AgentName to))]) ++
        [("to_session_thread_id", JString (peer_wire to sessionID))])))
     None (tp_ThreadID from) false false,
   MkNewEvent EmptyString EventAgentThreadMessageReceived
     (Some (JObject [("content", message_content text); ("from_agent_name", JString (tp_AgentName from));
                     ("from_session_thread_id", JString (peer_wire from sessionID))]))
     None (tp_ThreadID to) false false).

Definition ThreadEnded (sessionID child agentName text : string) : NewEvent :=
  (ThreadMessage sessionID (MkPeer child agentName) (MkPeer EmptyString EmptyString) text).2.

(** ** Wakes *)

Inductive wake_error := WakeNotFound (tid : string) | WakeStatus (e : Status.status_error).

(** [SELECT ... WHERE id = $1 AND session_id = $2] *)
Definition row_of (s : sdb) (sid tid : string) : option thread_row :=
  match Status.s_threads s !! tid with
  | Some r => if String.eqb (t_session r) sid then Some r else None
  | None => None
  end.

(** Nothing else will move the thread: idle, with no stop reason but the end of its turn. *)
Definition at_rest (r : thread_row) : bool :=
  bool_decide (t_status r = Status.SessionIdle) &&
  match t_stop r with
  | None => true
  | Some st => bool_decide (Status.sr_type st = Status.StopEndTurn)
  end.

Definition wakeThread (s : sdb) (db : ldb) (sid threadID : string)
  : result wake_error (list NewEvent * option SessionStatus * sdb) :=
  let tid := Status.thread_of sid threadID in
  match row_of s sid tid with
  | None => Err (WakeNotFound tid)
  | Some r =>
      if negb (at_rest r) then Ok ([], None, s)
      else if HasUnansweredThreadToolUse db sid threadID [] then Ok ([], None, s)
      else match Status.TransitionThread s sid (Status.MkTransition threadID Status.SessionRunning None false false) with
           | Ok (evs, moved, s') => Ok (map status_event evs, moved, s')
           | Err e => Err (WakeStatus e)
           end
  end.

Record Delivery := MkDelivery { dl_Received : NewEvent; dl_Wake : list NewEvent; dl_Moved : option SessionStatus }.

Definition Woke (d : Delivery) : bool := negb (bool_decide (dl_Wake d = [])).

(** [Events]: the wake, then the row the woken turn consumes. *)
Definition delivery_events (d : Delivery) : list NewEvent := dl_Wake d ++ [dl_Received d].

Definition DeliverAndWake (s : sdb) (db : ldb) (sid : string) (received : NewEvent) : result wake_error (Delivery * sdb) :=
  try '(woken, moved, s') <- wakeThread s db sid (n_thread received);
  Ok (MkDelivery received woken moved, s').

(** ** Endings *)

Section endings.
(** The column [parent_thread_id]. *)
Context (parent : gmap string string).

(** [busyChild]: a child still going to report. *)
Definition busyChild (sid id : string) (r : thread_row) : bool :=
  String.eqb (t_session r) sid && bool_decide (is_Some (parent !! id)) && bool_decide (Status.t_archived r = None) &&
  (bool_decide (t_status r = Status.SessionRunning) ||
   (bool_decide (t_status r = Status.SessionIdle) &&
    match t_stop r with Some st => bool_decide (Status.sr_type st = Status.StopRequiresAction) | None => false end)).

Definition busy_ids (s : sdb) (sid : string) : list string :=
  map fst (filter (fun kv => busyChild sid kv.1 kv.2 = true) (map_to_list (Status.s_threads s))).

(** [except] is left out of the count. *)
Definition BusyChild (s : sdb) (sid except : string) : bool :=
  existsb (fun id => negb (String.eqb id except)) (busy_ids s sid).

Definition wakeOnThreadEnded (s : sdb) (db : ldb) (sid child : string)
  : result wake_error (list NewEvent * option SessionStatus * sdb) :=
  let wasBusy := existsb (String.eqb child) (busy_ids s sid) in
  let othersBusy := BusyChild s sid child in
  if negb wasBusy || othersBusy then Ok ([], None, s) else wakeThread s db sid EmptyString.

Definition DeliverThreadEnded (s : sdb) (db : ldb) (sid child : string) (notice : NewEvent) : result wake_error (Delivery * sdb) :=
  try '(woken, moved, s') <- wakeOnThreadEnded s db sid child;
  Ok (MkDelivery notice woken moved, s').
End endings.
