(* ===== verification/ThreadmsgSpec.v ===== *)
(** * ThreadmsgSpec: no coordinator is left asleep (Threadmsg.v)

    When a child ends, the coordinator is woken exactly if nothing else still will; over
    any order of endings that is once, at the last. *)
From Stdlib Require Import Lia.
From S2P Require Import Prelude GoStrings Ids Status StatusSpec Json Domain Consumption Log ToolQuery Threadmsg.

Section spec.
Context (parent : gmap string string).

Lemma elem_of_busy_ids s sid id :
  id ∈ busy_ids parent s sid <-> exists r, s_threads s !! id = Some r /\ busyChild parent sid id r = true.
Proof.
  unfold busy_ids. rewrite list_elem_of_In, in_map_iff. split.
  - intros ([i r] & <- & H%list_elem_of_In%list_elem_of_filter). destruct H as [Hb Hr%elem_of_map_to_list]. eauto.
  - intros (r & Hr & Hb). exists (id, r). split; [done|]. apply list_elem_of_In, list_elem_of_filter. split; [done|].
    by apply elem_of_map_to_list.
Qed.

Lemma BusyChild_spec s sid except : BusyChild parent s sid except = true <-> exists id, id ∈ busy_ids parent s sid /\ id <> except.
Proof.
  unfold BusyChild. rewrite existsb_exists. split.
  - intros (id & Hin%list_elem_of_In & Hne%negb_true_iff%String.eqb_neq). eauto.
  - intros (id & Hin & Hne). exists id. split; [by apply list_elem_of_In|]. by apply negb_true_iff, String.eqb_neq.
Qed.

(** ** A transition that can be made is made *)

Lemma row_of_move s sid tid t r : row_of s sid tid = Some r ->
  move_thread s sid tid t = Some (t_agent r,
    MkS (<[tid := MkThread (t_session r) (tr_status t) (if bool_decide (tr_status t = SessionIdle) then tr_stop t else None)
           (t_transitioned r || negb (bool_decide (t_status r = tr_status t))) (t_agent r) (t_archived r) (t_created r)]> (s_threads s))
      (Status.s_status s) (s_log s)).
Proof.
  unfold row_of, move_thread. destruct (s_threads s !! tid) as [r'|]; [|done]. destruct (String.eqb _ _); [|done]. by intros [= ->].
Qed.

Lemma TransitionThread_makes s sid t r :
  row_of s sid (thread_of sid (tr_thread t)) = Some r -> is_Some (sessionStatusOf (tr_status t)) -> is_Some (Status.s_status s !! sid) ->
  exists out moved s', TransitionThread s sid t = Ok (out, moved, s') /\
    s_threads s' = <[thread_of sid (tr_thread t) :=
      MkThread (t_session r) (tr_status t) (if bool_decide (tr_status t = SessionIdle) then tr_stop t else None)
        (t_transitioned r || negb (bool_decide (t_status r = tr_status t))) (t_agent r) (t_archived r) (t_created r)]> (s_threads s) /\
    is_Some (Status.s_status s' !! sid) /\
    (tr_status t = SessionRunning -> exists e, e ∈ out /\ ev_type e = ThreadStatusRunning /\ ev_thread e = tr_thread t).
Proof.
  intros Hr [ty Hty] [cur Hcur]. unfold TransitionThread. rewrite Hty, (row_of_move _ _ _ t _ Hr). cbn [is_Some].
  rewrite bool_decide_true by done. cbn [negb andb Status.s_status]. rewrite Hcur.
  destruct (foldSession _ _ _ _) as [folded fstop].
  set (th := thread_event _ _ _).
  assert (Hth : tr_status t = SessionRunning -> exists e, th = Some e /\ ev_type e = ThreadStatusRunning /\ ev_thread e = tr_thread t).
  { intros E. unfold th, thread_event. rewrite E. cbn. eauto. }
  destruct (negb (bool_decide (folded = cur))) eqn:Hch; cbn [orb];
    try destruct (tr_force t || _); (eexists _, _, _; split; [reflexivity|]; split_and!; [done|cbn; rewrite ?lookup_insert_eq; eauto|]);
    intros E; destruct (Hth E) as (e & -> & H1 & H2); exists e; (split; [|done]); cbn; repeat case_bool_decide; set_solver.
Qed.

(** ** Who is busy *)

Lemma NoDup_busy_ids s sid : NoDup (busy_ids parent s sid).
Proof.
  unfold busy_ids. apply (NoDup_fmap_fst (filter _ _)).
  - intros k v1 v2 [_ H1%elem_of_map_to_list]%list_elem_of_filter [_ H2%elem_of_map_to_list]%list_elem_of_filter. congruence.
  - apply NoDup_filter, NoDup_map_to_list.
Qed.

(** A move that ends a thread's turn for good: archived, or idle on anything but a wait. *)
Definition ends_turn (t : ThreadTransition) : Prop :=
  tr_status t = SessionTerminated \/
  (tr_status t = SessionIdle /\ match tr_stop t with Some st => sr_type st <> StopRequiresAction | None => True end).

Lemma busyChild_ended sid0 id t sess tr agent arch created : ends_turn t ->
  busyChild parent sid0 id (MkThread sess (tr_status t) (if bool_decide (tr_status t = SessionIdle) then tr_stop t else None)
    tr agent arch created) = false.
Proof.
  intros Hends. unfold busyChild. apply andb_false_iff. right. cbn. destruct Hends as [->|[-> Hstop]]; [done|].
  rewrite (bool_decide_eq_true_2 (SessionIdle = SessionIdle)) by done. destruct (tr_stop t) as [st|]; cbn; [|done].
  rewrite (bool_decide_eq_false_2 (sr_type st = _)) by done. done.
Qed.

Lemma ends_turn_status t : ends_turn t -> is_Some (sessionStatusOf (tr_status t)).
Proof. intros [->|[-> _]]; cbn; eauto. Qed.

(** Moving one row changes at most that row's busyness. *)
Lemma busy_ids_move s s' sid tid r' : s_threads s' = <[tid := r']> (s_threads s) -> busyChild parent sid tid r' = false ->
  forall id, id ∈ busy_ids parent s' sid <-> id <> tid /\ id ∈ busy_ids parent s sid.
Proof.
  intros Hth Hr' id. rewrite !elem_of_busy_ids, Hth. split.
  - intros (r & Hr & Hb). destruct (decide (id = tid)) as [->|Hne].
    + rewrite lookup_insert_eq in Hr. injection Hr as <-. congruence.
    + rewrite lookup_insert_ne in Hr by done. eauto.
  - intros (Hne & r & Hr & Hb). exists r. by rewrite lookup_insert_ne.
Qed.

Lemma busy_row s sid id : id ∈ busy_ids parent s sid -> exists r, row_of s sid id = Some r /\ is_Some (parent !! id).
Proof.
  intros (r & Hr & Hb)%elem_of_busy_ids. exists r. unfold row_of. rewrite Hr. unfold busyChild in Hb.
  destruct (String.eqb (t_session r) sid); [|done]. split; [done|].
  apply andb_true_iff in Hb as [Hb _]. apply andb_true_iff in Hb as [Hb _]. by apply bool_decide_eq_true in Hb.
Qed.

(** ** One ending *)

(** What an ending does to the rows: the coordinator's row when it wakes, nothing else. *)
Lemma DeliverThreadEnded_cases s db sid child notice r :
  row_of s sid (PrimaryThreadID sid) = Some r -> is_Some (Status.s_status s !! sid) ->
  let wakes := existsb (String.eqb child) (busy_ids parent s sid) && negb (BusyChild parent s sid child) && at_rest r &&
               negb (HasUnansweredThreadToolUse db sid EmptyString []) in
  exists d s', DeliverThreadEnded parent s db sid child notice = Ok (d, s') /\
    dl_Received d = notice /\ Woke d = wakes /\ is_Some (Status.s_status s' !! sid) /\
    if wakes
    then exists r', s_threads s' = <[PrimaryThreadID sid := r']> (s_threads s) /\ t_status r' = SessionRunning /\ t_session r' = sid
    else s' = s.
Proof.
  intros Hr Hst. cbv zeta. unfold DeliverThreadEnded, wakeOnThreadEnded.
  destruct (existsb (String.eqb child) (busy_ids parent s sid)) eqn:Hb; cbn [negb orb andb].
  2:{ eexists _, _. by split_and!. }
  destruct (BusyChild parent s sid child); cbn [negb andb].
  { eexists _, _. by split_and!. }
  unfold wakeThread, thread_of. cbn [String.eqb]. rewrite Hr. destruct (at_rest r); cbn [negb andb].
  2:{ eexists _, _. by split_and!. }
  destruct (HasUnansweredThreadToolUse _ _ _ _); cbn [negb].
  { eexists _, _. by split_and!. }
  destruct (TransitionThread_makes s sid (MkTransition EmptyString SessionRunning None false false) r) as (out & moved & s' & -> & Hth & Hst' & Hrun);
    [done|done|done|].
  eexists _, _. split_and!; [done|done| |done|].
  - destruct (Hrun eq_refl) as (e & He & _). unfold Woke. cbn. apply negb_true_iff, bool_decide_eq_false.
    by destruct out; [apply elem_of_nil in He|].
  - eexists. split_and!; [exact Hth|done|]. cbn. unfold row_of in Hr.
    destruct (s_threads s !! PrimaryThreadID sid) as [r0|]; [|done]. destruct (String.eqb_spec (t_session r0) sid); by simplify_eq.
Qed.
End spec.

(** A coordinator hears of every child's end, and is woken by it exactly if the child
    was still to report, no other child is, the coordinator rests at the end of its turn
    and no call of its own is unanswered; then its row, and no other, is running. *)
Theorem DeliverThreadEnded_wakes (parent : gmap string string) (s : sdb) (db : ldb) (sid child : string) (notice : NewEvent) (r : thread_row)
    (Hprimary : row_of s sid (PrimaryThreadID sid) = Some r) (Hsession : is_Some (Status.s_status s !! sid)) :
  exists d s', DeliverThreadEnded parent s db sid child notice = Ok (d, s') /\
    last (delivery_events d) = Some notice /\
    (Woke d = true <->
       child ∈ busy_ids parent s sid /\ (forall id, id ∈ busy_ids parent s sid -> id = child) /\
       t_status r = SessionIdle /\ (forall st, t_stop r = Some st -> sr_type st = StopEndTurn) /\
       HasUnansweredThreadToolUse db sid EmptyString [] = false) /\
    (if Woke d
     then exists r', s_threads s' = <[PrimaryThreadID sid := r']> (s_threads s) /\ t_status r' = SessionRunning
     else s' = s).
Proof.
  destruct (DeliverThreadEnded_cases parent s db sid child notice r Hprimary Hsession) as (d & s' & HD & Hn & Hw & _ & Hs).
  exists d, s'. split; [done|]. split; [unfold delivery_events; by rewrite last_snoc, Hn|]. rewrite Hw in *. split.
  - rewrite !andb_true_iff, !negb_true_iff, existsb_exists. unfold at_rest. rewrite andb_true_iff, bool_decide_eq_true.
    assert (Hother : BusyChild parent s sid child = false <-> forall id, id ∈ busy_ids parent s sid -> id = child).
    { rewrite <- not_true_iff_false, BusyChild_spec. split.
      - intros H id Hid. destruct (decide (id = child)); [done|]. exfalso. eauto.
      - intros H (id & Hid & Hne). auto. }
    rewrite Hother.
    assert (Hstop : (match t_stop r with Some st => bool_decide (sr_type st = StopEndTurn) | None => true end) = true <->
      (forall st, t_stop r = Some st -> sr_type st = StopEndTurn)).
    { destruct (t_stop r) as [st|]; [|by split; [intros _ ? [=]|]]. rewrite bool_decide_eq_true. split; [by intros ? ? [= <-]|auto]. }
    rewrite Hstop. split.
    + intros [[[(x & Hx%list_elem_of_In & ->%String.eqb_eq) ?] [? ?]] ?]. done.
    + intros (Hc & ? & ? & ? & ?). split_and!; try done. exists child. split; [by apply list_elem_of_In|apply String.eqb_refl].
  - destruct (_ && _); [|done]. destruct Hs as (r' & ? & ? & _). eauto.
Qed.

(** ** Many endings *)

(** One child's end as its callers commit it: the notice, then the child's own move.  The
    log is the one the commit reads. *)
Record ending := MkEnding { en_log : ldb; en_notice : NewEvent; en_move : ThreadTransition }.

Definition end_child (parent : gmap string string) (s : sdb) (sid : string) (e : ending) : result wake_error (Delivery * sdb) :=
  try '(d, s) <- DeliverThreadEnded parent s (en_log e) sid (tr_thread (en_move e)) (en_notice e);
  match TransitionThread s sid (en_move e) with
  | Ok (_, _, s) => Ok (d, s)
  | Err e => Err (WakeStatus e)
  end.

Fixpoint end_children (parent : gmap string string) (s : sdb) (sid : string) (es : list ending) : result wake_error (list Delivery * sdb) :=
  match es with
  | [] => Ok ([], s)
  | e :: es' =>
      try '(d, s) <- end_child parent s sid e;
      try '(ds, s) <- end_children parent s sid es';
      Ok (d :: ds, s)
  end.

Section sequence.
Context (parent : gmap string string) (sid : string).

(** One ending: the child leaves the busy ones, and the coordinator's row is as it was
    unless it woke. *)
Lemma end_child_step s e r : row_of s sid (PrimaryThreadID sid) = Some r -> is_Some (Status.s_status s !! sid) ->
  parent !! PrimaryThreadID sid = None -> tr_thread (en_move e) <> EmptyString ->
  tr_thread (en_move e) ∈ busy_ids parent s sid -> ends_turn (en_move e) ->
  HasUnansweredThreadToolUse (en_log e) sid EmptyString [] = false -> at_rest r = true ->
  exists d s' r', end_child parent s sid e = Ok (d, s') /\ Woke d = negb (BusyChild parent s sid (tr_thread (en_move e))) /\
    row_of s' sid (PrimaryThreadID sid) = Some r' /\ is_Some (Status.s_status s' !! sid) /\
    (forall id, id ∈ busy_ids parent s' sid <-> id <> tr_thread (en_move e) /\ id ∈ busy_ids parent s sid) /\
    if Woke d then t_status r' = SessionRunning else r' = r.
Proof.
  intros Hr Hst Hpar Hid Hbusy Hends Hun Hrest. set (child := tr_thread (en_move e)) in *. unfold end_child. fold child.
  destruct (DeliverThreadEnded_cases parent s (en_log e) sid child (en_notice e) r Hr Hst) as (d & s1 & -> & _ & Hw & Hst1 & Hs1).
  rewrite Hun, Hrest in Hw, Hs1. cbn [negb] in Hw, Hs1. rewrite !andb_true_r in Hw, Hs1.
  replace (existsb (String.eqb child) (busy_ids parent s sid)) with true in Hw, Hs1
    by (symmetry; apply existsb_exists; exists child; split; [by apply list_elem_of_In|apply String.eqb_refl]).
  cbn [andb] in Hw, Hs1. rewrite <- Hw in Hs1.
  destruct (busy_row _ _ _ _ Hbusy) as (rc & Hrc & Hpc).
  assert (Hne : child <> PrimaryThreadID sid) by (intros E; rewrite E, Hpar in Hpc; by destruct Hpc).
  assert (H1 : exists r1, row_of s1 sid (PrimaryThreadID sid) = Some r1 /\ row_of s1 sid child = Some rc /\
    (if Woke d then t_status r1 = SessionRunning else r1 = r) /\ forall id, id ∈ busy_ids parent s1 sid <-> id ∈ busy_ids parent s sid).
  { destruct (Woke d).
    - destruct Hs1 as (r1 & Hth & Hrun & Hses). exists r1. unfold row_of. rewrite Hth, lookup_insert_eq, lookup_insert_ne by done.
      rewrite Hses, String.eqb_refl. split_and!; [done|done|done|]. intros id. rewrite (busy_ids_move parent s s1 sid _ r1 Hth).
      + split; [by intros [_ ?]|]. intros Hin. split; [|done]. intros ->. apply busy_row in Hin as (_ & _ & [? Hp]). by rewrite Hpar in Hp.
      + unfold busyChild. rewrite Hpar, (bool_decide_eq_false_2 (is_Some None)) by (by intros [? [=]]). by rewrite andb_false_r.
    - subst s1. exists r. by split_and!. }
  destruct H1 as (r1 & Hr1 & Hrc1 & Hw1 & Hb1).
  assert (Htid : thread_of sid (tr_thread (en_move e)) = child) by (unfold thread_of; fold child; by apply String.eqb_neq in Hid as ->).
  destruct (TransitionThread_makes s1 sid (en_move e) rc) as (out & moved & s2 & -> & Hth2 & Hst2 & _);
    [by rewrite Htid|by apply ends_turn_status|done|].
  rewrite Htid in Hth2. eexists d, s2, r1. split; [done|]. split; [done|]. split.
  { unfold row_of. rewrite Hth2, lookup_insert_ne by done. exact Hr1. }
  split; [done|]. split; [|done]. intros id. rewrite (busy_ids_move parent s1 s2 sid child _ Hth2), Hb1; [done|].
  by apply busyChild_ended.
Qed.
End sequence.

(** No ending before the last wakes it, the last does, and then no child is busy. *)
Lemma endings_wake (parent : gmap string string) (s : sdb) (sid : string) (r : thread_row) (es : list ending)
    (Hprimary : row_of s sid (PrimaryThreadID sid) = Some r) (Hparked : at_rest r = true)
    (Hroot : parent !! PrimaryThreadID sid = None) (Hsession : is_Some (Status.s_status s !! sid))
    (Hall : map (fun e => tr_thread (en_move e)) es ≡ₚ busy_ids parent s sid) (Hsome : es <> [])
    (Hids : Forall (fun e => tr_thread (en_move e) <> EmptyString) es) (Hends : Forall (fun e => ends_turn (en_move e)) es)
    (Hanswered : Forall (fun e => HasUnansweredThreadToolUse (en_log e) sid EmptyString [] = false) es) :
  exists ds d s' r', end_children parent s sid es = Ok (ds ++ [d], s') /\ S (length ds) = length es /\
    Forall (fun d => Woke d = false) ds /\ Woke d = true /\
    row_of s' sid (PrimaryThreadID sid) = Some r' /\ t_status r' = SessionRunning /\ busy_ids parent s' sid = [].
Proof.
  revert s Hprimary Hsession Hall Hsome. induction es as [|e es IH]; intros s Hprimary Hsession Hall Hsome; [done|].
  apply Forall_cons in Hids as [Hid Hids]. apply Forall_cons in Hends as [He Hends]. apply Forall_cons in Hanswered as [Ha Hanswered].
  pose proof (NoDup_busy_ids parent s sid) as Hnd. rewrite <- Hall in Hnd. cbn [map] in Hnd, Hall. apply NoDup_cons in Hnd as [Hfresh Hnd].
  assert (Hbusy : tr_thread (en_move e) ∈ busy_ids parent s sid) by (rewrite <- Hall; left).
  destruct (end_child_step parent sid s e r Hprimary Hsession Hroot Hid Hbusy He Ha Hparked) as (d & s1 & r1 & Hd & Hw & Hr1 & Hst1 & Hb1 & Hr).
  cbn [end_children]. rewrite Hd. destruct es as [|e' es].
  - exists [], d, s1, r1. cbn.
    assert (Hlast : Woke d = true).
    { rewrite Hw. apply negb_true_iff, not_true_iff_false. rewrite BusyChild_spec. intros (id & Hin & Hne).
      rewrite <- Hall in Hin. by apply list_elem_of_singleton in Hin. }
    rewrite Hlast in Hr. split_and!; try done. apply elem_of_nil_inv. intros id (Hne & Hin)%Hb1.
    rewrite <- Hall in Hin. by apply list_elem_of_singleton in Hin.
  - assert (Hno : Woke d = false).
    { rewrite Hw. apply negb_false_iff, BusyChild_spec. exists (tr_thread (en_move e')). split; [rewrite <- Hall; by right; left|].
      intros E. apply Hfresh. rewrite <- E. left. }
    rewrite Hno in Hr. subst r1.
    destruct (IH Hids Hends Hanswered s1 Hr1 Hst1) as (ds & d' & s' & r' & -> & Hlen & Hds & Hd' & Hr' & Hrun & Hb'); [|done|].
    + apply NoDup_Permutation; [done|apply NoDup_busy_ids|]. intros id. rewrite Hb1, <- Hall, elem_of_cons. split.
      * intros Hin. split; [|by right]. intros ->. done.
      * intros [Hne [->|?]]; done.
    + exists (d :: ds), d', s', r'. split_and!; [done|cbn in Hlen |- *; lia|by constructor|done..].
Qed.

(** What a message delivered to a parked thread does: it wakes it. *)
Lemma delivery_wakes (s : sdb) (sid : string) (r : thread_row) (db : ldb) (msg : NewEvent) :
  row_of s sid (thread_of sid (n_thread msg)) = Some r -> at_rest r = true -> is_Some (Status.s_status s !! sid) ->
  HasUnansweredThreadToolUse db sid (n_thread msg) [] = false ->
  exists d s' r', DeliverAndWake s db sid msg = Ok (d, s') /\ Woke d = true /\ dl_Received d = msg /\
    row_of s' sid (thread_of sid (n_thread msg)) = Some r' /\ t_status r' = SessionRunning.
Proof.
  intros Hr Hrest Hst Hun. unfold DeliverAndWake, wakeThread. rewrite Hr, Hrest, Hun. cbn [negb].
  destruct (TransitionThread_makes s sid (MkTransition (n_thread msg) SessionRunning None false false) r) as (out & moved & s' & -> & Hth & _ & He);
    [done|by eexists|done|]. destruct (He eq_refl) as (e & Hin & _). eexists _, s', _. split; [done|]. split; [|split; [done|]].
  - unfold Woke. cbn. apply negb_true_iff, bool_decide_eq_false. intros ->%map_eq_nil. by apply not_elem_of_nil in Hin.
  - cbn [tr_thread] in Hth. unfold row_of. rewrite Hth, lookup_insert_eq. cbn [t_session]. unfold row_of in Hr.
    destruct (s_threads s !! _) as [x|]; [|done]. destruct (String.eqb_spec (t_session x) sid) as [E|]; [|done]. injection Hr as <-.
    by rewrite E, String.eqb_refl.
Qed.

(** C22: a parked coordinator is woken once by the endings of its children that leave it a
    notice (an interrupt, an archive, retries spent, a turn or a run cut): whatever order
    they end in, no notice before the last wakes it, the last does, and then it runs with
    no child left to report.  The rule is the notices' own: a message delivered to it, which
    is how a child that ends by reporting with submit_result tells it, wakes it at once,
    whoever is still busy. *)
Theorem endings_wake_once (parent : gmap string string) (s : sdb) (sid : string) (r : thread_row) (es : list ending)
    (Hprimary : row_of s sid (PrimaryThreadID sid) = Some r) (Hparked : at_rest r = true)
    (Hroot : parent !! PrimaryThreadID sid = None) (Hsession : is_Some (Status.s_status s !! sid))
    (Hall : map (fun e => tr_thread (en_move e)) es ≡ₚ busy_ids parent s sid) (Hsome : es <> [])
    (Hids : Forall (fun e => tr_thread (en_move e) <> EmptyString) es) (Hends : Forall (fun e => ends_turn (en_move e)) es)
    (Hanswered : Forall (fun e => HasUnansweredThreadToolUse (en_log e) sid EmptyString [] = false) es) :
  (exists ds d s' r', end_children parent s sid es = Ok (ds ++ [d], s') /\ S (length ds) = length es /\
    Forall (fun d => Woke d = false) ds /\ Woke d = true /\
    row_of s' sid (PrimaryThreadID sid) = Some r' /\ t_status r' = SessionRunning /\ busy_ids parent s' sid = []) /\
  (forall db msg, n_thread msg = EmptyString -> HasUnansweredThreadToolUse db sid EmptyString [] = false ->
    exists d s' r', DeliverAndWake s db sid msg = Ok (d, s') /\ Woke d = true /\ dl_Received d = msg /\
      row_of s' sid (PrimaryThreadID sid) = Some r' /\ t_status r' = SessionRunning).
Proof.
  split; [by eapply endings_wake|]. intros db msg Hm Hun. rewrite <- Hm in Hun.
  pose proof (delivery_wakes s sid r db msg) as H. rewrite Hm in H, Hun. by apply H.
Qed.

(** ** Witnesses *)

Definition w_row (st : SessionStatus) (stop : option StopReason) (at_ : Z) : thread_row := MkThread "sesn_1" st stop true "helper" None at_.

Definition w_sdb : sdb := MkS
  {[ PrimaryThreadID "sesn_1" := w_row SessionIdle (Some (MkStop StopEndTurn [])) 0;
     "sthr_a" := w_row SessionRunning None 1; "sthr_b" := w_row SessionIdle (Some (MkStop StopRequiresAction ["sevt_9"])) 2;
     "sthr_c" := w_row SessionIdle (Some (MkStop StopEndTurn [])) 3 ]}
  {[ "sesn_1" := SessionRunning ]} ∅.

Definition w_parent : gmap string string :=
  {[ "sthr_a" := PrimaryThreadID "sesn_1"; "sthr_b" := PrimaryThreadID "sesn_1"; "sthr_c" := PrimaryThreadID "sesn_1" ]}.

Definition w_log : ldb := MkLdb [] ∅ ∅ [].

Definition w_ending (child : string) (st : SessionStatus) : ending :=
  MkEnding w_log (ThreadEnded "sesn_1" child "helper" "stopped") (MkTransition child st (Some (MkStop StopEndTurn [])) true false).

Lemma DeliverThreadEnded_wakes_witness :
  exists d s', DeliverThreadEnded w_parent w_sdb w_log "sesn_1" "sthr_a" (ThreadEnded "sesn_1" "sthr_a" "helper" "stopped") = Ok (d, s') /\
    Woke d = false /\ s' = w_sdb.
Proof.
  destruct (DeliverThreadEnded_wakes w_parent w_sdb w_log "sesn_1" "sthr_a" (ThreadEnded "sesn_1" "sthr_a" "helper" "stopped")
    (w_row SessionIdle (Some (MkStop StopEndTurn [])) 0)) as (d & s' & Hd & _ & Hw & Hs); [vm_compute; reflexivity|vm_compute; eauto|].
  exists d, s'. split; [exact Hd|].
  assert (Hno : Woke d = false).
  { destruct (Woke d); [|reflexivity]. destruct (proj1 Hw eq_refl) as (_ & Hall & _). exfalso.
    assert (Hb : "sthr_b" ∈ busy_ids w_parent w_sdb "sesn_1") by (apply (bool_decide_unpack _); vm_compute; exact I).
    specialize (Hall _ Hb). discriminate Hall. }
  split; [exact Hno|]. rewrite Hno in Hs. exact Hs.
Defined.

Lemma endings_wake_once_witness :
  exists d1 d2 s', end_children w_parent w_sdb "sesn_1" [w_ending "sthr_b" SessionTerminated; w_ending "sthr_a" SessionIdle] = Ok ([d1; d2], s') /\
    Woke d1 = false /\ Woke d2 = true.
Proof.
  destruct (endings_wake_once w_parent w_sdb "sesn_1" (w_row SessionIdle (Some (MkStop StopEndTurn [])) 0)
    [w_ending "sthr_b" SessionTerminated; w_ending "sthr_a" SessionIdle]) as [(ds & d & s' & r' & He & Hlen & Hds & Hd & _) _].
  - vm_compute; reflexivity.
  - reflexivity.
  - vm_compute; reflexivity.
  - vm_compute; eauto.
  - apply (bool_decide_unpack _); vm_compute; exact I.
  - discriminate.
  - repeat constructor; discriminate.
  - constructor; [left; reflexivity|]. constructor; [right; split; [reflexivity|discriminate]|constructor].
  - repeat constructor.
  - destruct ds as [|d1 [|]]; cbn in Hlen; try discriminate Hlen. exists d1, d, s'. cbn in He. split; [exact He|].
    apply Forall_cons in Hds as [H1 _]. split; [exact H1|exact Hd].
Defined.
