(* ===== verification/Grading.v ===== *)
(** * Grading: how a turn and a grading cycle settle (internal/brain/grader.go,
    internal/executor/harvest.go, internal/brain/delegate.go).

    The tables a settlement moves are the log, the threads, the outcome entries and the
    work queue; each handler is one transaction under the session's row lock, so it either
    returns the tables it commits or leaves them as they were.  The column
    [outcome_evaluations] is [tb_evals], decoded; the log model's [s_outcomes] is left as
    it was.  Ids the code mints and the clock are arguments. *)
From Stdlib Require Import Lia Ascii.
From stdpp Require Import pretty.
From S2P Require Import Prelude GoStrings Ids Queue Status Json Domain Consumption Log ToolQuery Outcomes Replay Threadmsg.

(** ** The verdict *)

Definition newline_byte : ascii := Ascii.ascii_of_nat 10.

(** The last line that opens on the marker, and what follows the marker on it. *)
Fixpoint verdict_line (lines : list string) : option (nat * string) :=
  match lines with
  | [] => None
  | l :: rest =>
      match verdict_line rest with
      | Some (i, v) => Some (S i, v)
      | None => match CutPrefix (TrimSpace l) "VERDICT:" with Some v => Some (O, v) | None => None end
      end
  end.

Definition parseVerdict (text : string) : string * string :=
  let lines := Split (TrimSpace text) newline_byte in
  match verdict_line lines with
  | None => (verdictNeedsRevision, TrimSpace text)
  | Some (i, v) =>
      let explanation := TrimSpace (Join (take i lines ++ drop (S i) lines) new_line) in
      let v := TrimSpace v in
      if mem_string v [OutcomeResultSatisfied; verdictNeedsRevision; OutcomeResultFailed] then (v, explanation)
      else (verdictNeedsRevision, TrimSpace text)
  end.

Definition graderExplanationBudget : Z := 20000.

(** [for cut > 0 && !utf8.RuneStart(explanation[cut])] *)
Fixpoint rune_cut (s : string) (cut : nat) : nat :=
  match cut with
  | O => O
  | S c => match String.get cut s with
           | Some b => if is_cont b then rune_cut s c else cut
           | None => cut
           end
  end.

Definition clip_explanation (explanation : string) : string :=
  if graderExplanationBudget <? slen explanation
  then take_bytes (rune_cut explanation (Z.to_nat graderExplanationBudget)) explanation +:+ new_line +:+ "[truncated]"
  else explanation.

(** What a cycle's verdict settles as: a [needs_revision] on the budget's last cycle is
    [max_iterations_reached]. *)
Definition cycle_result (verdict : string) (lastCycle : bool) : string :=
  if String.eqb verdict verdictNeedsRevision && lastCycle then OutcomeResultMaxIterationsReached else verdict.

(** A cycle of outcome [a]: what its verdict settles as, and whether it was the budget's
    last.  Without a definition on the log there is no budget, and it fails. *)
Definition cycle_outcome (d : option DefineOutcome) (a : OutcomeEvaluation) (verdict : string) : string * bool :=
  match d with
  | None => (OutcomeResultFailed, false)
  | Some d =>
      let lastCycle := lastOutcomeCycle (oe_Iteration a) (do_MaxIterations d) in
      (cycle_result verdict lastCycle, lastCycle)
  end.

(** ** The tables *)

Record tables := MkTables {
  tb_log : ldb;
  tb_threads : sdb;
  tb_parent : gmap string string;               (* parent_thread_id *)
  tb_evals : gmap string (list OutcomeEvaluation);
  tb_queue : qdb;
}.

Definition with_evals (tb : tables) (sid : string) (f : list OutcomeEvaluation -> list OutcomeEvaluation) : tables :=
  MkTables (tb_log tb) (tb_threads tb) (tb_parent tb) (alter f sid (tb_evals tb)) (tb_queue tb).

Definition with_queue (tb : tables) (q : qdb) : tables :=
  MkTables (tb_log tb) (tb_threads tb) (tb_parent tb) (tb_evals tb) q.

Definition with_threads (tb : tables) (s : sdb) : tables :=
  MkTables (tb_log tb) s (tb_parent tb) (tb_evals tb) (tb_queue tb).

Inductive settle_error :=
| SettleNoSession | SettleQueue (e : queue_error) | SettleStatus (e : status_error) | SettleWake (e : wake_error)
| SettleAppend (e : append_error).

Definition lift_queue {A} (r : result queue_error A) : result settle_error A :=
  match r with Ok x => Ok x | Err e => Err (SettleQueue e) end.

(** One thread's move inside a settlement: its events as the log takes them. *)
Definition transition (tb : tables) (sid : string) (t : ThreadTransition)
  : result settle_error (list NewEvent * option SessionStatus * tables) :=
  match TransitionThread (tb_threads tb) sid t with
  | Ok (evs, moved, s) => Ok (map status_event evs, moved, with_threads tb s)
  | Err e => Err (SettleStatus e)
  end.

Definition deliver_ended (tb : tables) (sid child : string) (notice : NewEvent) : result settle_error (Delivery * tables) :=
  match DeliverThreadEnded (tb_parent tb) (tb_threads tb) (tb_log tb) sid child notice with
  | Ok (d, s) => Ok (d, with_threads tb s)
  | Err e => Err (SettleWake e)
  end.

Definition with_status (o : AppendOptions) (moved : option SessionStatus) : AppendOptions :=
  MkOptions (o_thread o) (status_text <$> moved) (o_usage o) (o_mark o) (o_consume o) (o_mutate o) (o_thinking o) (o_then o).

Definition append (rd : readings) (tb : tables) (sid : string) (batch : list NewEvent) (o : AppendOptions) : result settle_error tables :=
  match AppendInTx rd (tb_log tb) sid batch o with
  | Ok (_, db) => Ok (MkTables db (tb_threads tb) (tb_parent tb) (tb_evals tb) (tb_queue tb))
  | Err e => Err (SettleAppend e)
  end.

Definition requeue_item (now : Z) (tb : tables) (it : Item) : result settle_error tables :=
  try q <- lift_queue (Requeue now (tb_queue tb) it); Ok (with_queue tb q).

Definition complete_item (now : Z) (tb : tables) (it : Item) : result settle_error tables :=
  try q <- lift_queue (Complete now (tb_queue tb) it); Ok (with_queue tb q).

Definition enqueue_turn (now : Z) (tb : tables) (wid env sid : string) : result settle_error tables :=
  try '(_, q) <- lift_queue (EnqueueThread now (tb_queue tb) wid env sid EmptyString ModelTurn None); Ok (with_queue tb q).

Definition enqueue_harvest (now : Z) (tb : tables) (wid env sid : string) (grading : bool) (trace : option string)
  : result settle_error tables :=
  try '(_, q) <- lift_queue (EnqueueOutputsHarvest now (tb_queue tb) wid env sid grading trace); Ok (with_queue tb q).

(** ** What chains a turn *)

Definition pendingInputTypes : list EventType :=
  [EventUserToolResult; EventUserCustomToolRes] ++ filter (fun t => Inbound t = true) ConsumedInputs.

Definition is_posted_result (t : EventType) : bool := mem_string t [EventUserToolResult; EventUserCustomToolRes].

(** [max(start.seq)] over the thread's request starts, 0 without one. *)
Definition last_start (db : ldb) (sid tid : string) : Z :=
  foldl (fun m e => if String.eqb (e_session e) sid && String.eqb (e_thread e) tid && String.eqb (e_type e) EventSpanModelRequestStart
                    then Z.max m (e_seq e) else m) 0 (l_events db).

Definition pendingInput (db : ldb) (sid tid : string) : bool :=
  existsb (fun e =>
    String.eqb (e_session e) sid && mem_string (e_type e) pendingInputTypes &&
    (bool_decide (e_processed e = None) || (is_posted_result (e_type e) && (last_start db sid tid <? e_seq e))) &&
    String.eqb (e_thread e) tid) (l_events db).

Definition chainInput (db : ldb) (sid tid : string) (watermark : Z) : bool :=
  existsb (fun e =>
    String.eqb (e_session e) sid && (watermark <? e_seq e) && String.eqb (e_thread e) tid &&
    ((mem_string (e_type e) pendingInputTypes && (bool_decide (e_processed e = None) || is_posted_result (e_type e))) ||
     String.eqb (e_type e) EventAgentThreadMessageReceived)) (l_events db).

(** [payload->'content' = payload->'content']; an absent one equals nothing. *)
Definition same_content (a b : json) : bool :=
  match a, b with
  | JObject x, JObject y => match obj_get x "content", obj_get y "content" with Some u, Some v => json_eqb u v | _, _ => false end
  | _, _ => false
  end.

(** A row the primary received from thread [child]. *)
Definition received_from (sid child : string) (r : erow) : bool :=
  String.eqb (e_session r) sid && String.eqb (e_thread r) EmptyString && String.eqb (e_type r) EventAgentThreadMessageReceived &&
  bool_decide (text_at (e_payload r) "from_session_thread_id" = Some child).

(** The send a received row is the other half of. *)
Definition answers_send (db : ldb) (sid child : string) (r s : erow) : bool :=
  String.eqb (e_session s) sid && String.eqb (e_thread s) child && String.eqb (e_type s) EventAgentThreadMessageSent &&
  bool_decide (text_at (e_payload s) "to_session_thread_id" = Some (PrimaryThreadID sid)) &&
  (e_seq s <? e_seq r) && same_content (e_payload s) (e_payload r) &&
  negb (existsb (fun o => received_from sid child o && (e_seq s <? e_seq o) && (e_seq o <? e_seq r)) (l_events db)).

Definition liveChildMessage (tb : tables) (sid : string) (watermark : Z) : bool :=
  let db := tb_log tb in
  existsb (fun r =>
    existsb (fun kv : string * thread_row =>
      received_from sid kv.1 r && (bool_decide (e_processed r = None) || (watermark <? e_seq r)) &&
      String.eqb (t_session kv.2) sid && bool_decide (is_Some (tb_parent tb !! kv.1)) && bool_decide (t_archived kv.2 = None) &&
      existsb (answers_send db sid kv.1 r) (l_events db)) (map_to_list (s_threads (tb_threads tb)))) (l_events db).

Definition gradingChain (tb : tables) (sid : string) (watermark : Z) : bool :=
  pendingInput (tb_log tb) sid EmptyString || liveChildMessage tb sid watermark.

(** ** A verdict *)

(** [domain.ModelUsage] as it is marshalled. *)
Definition usage_json (u : ModelUsage) (speed : option string) : json :=
  JObject [("cache_creation_input_tokens", JNumber (pretty (mu_cacheCreation u)));
           ("cache_read_input_tokens", JNumber (pretty (mu_cacheRead u)));
           ("input_tokens", JNumber (pretty (mu_input u))); ("output_tokens", JNumber (pretty (mu_output u)));
           ("speed", match speed with Some s => JString s | None => JNull end)].

Definition is_terminal_verdict (result : string) : bool :=
  mem_string result [OutcomeResultSatisfied; OutcomeResultFailed; OutcomeResultMaxIterationsReached].

Definition verdict_entry (now : Z) (id result explanation : string) (e : OutcomeEvaluation) : OutcomeEvaluation :=
  if negb (String.eqb (oe_OutcomeID e) id) then e
  else if is_terminal_verdict result
  then MkOutcome (oe_Type e) (oe_OutcomeID e) (oe_Description e) explanation (oe_Iteration e) result (Some now)
  else MkOutcome (oe_Type e) (oe_OutcomeID e) (oe_Description e) explanation (wrap64 (oe_Iteration e + 1)) OutcomeResultRunning
         (oe_CompletedAt e).

(** Settled underneath: an interrupt moved the entry on. *)
Definition settled_underneath (id : string) (evals : list OutcomeEvaluation) : bool :=
  existsb (fun e => String.eqb (oe_OutcomeID e) id && negb (String.eqb (oe_Result e) OutcomeResultEvaluating)) evals.

Definition idle_on (threadID : string) (stop : StopReasonType) : ThreadTransition :=
  MkTransition threadID SessionIdle (Some (MkStop stop [])) false false.

Definition settleVerdict (rd : readings) (now : Z) (tb : tables) (it : Item) (act : OutcomeEvaluation)
    (startID res explanation : string) (usage : ModelUsage) (speed : option string) (watermark : Z) (lastCycle : bool)
  : result settle_error tables :=
  let sid := it_session it in
  match tb_evals tb !! sid with
  | None => Err SettleNoSession
  | Some current =>
      if settled_underneath (oe_OutcomeID act) current then complete_item now tb it
      else
        let endEv := MkNewEvent EmptyString EventSpanOutcomeEvalEnd
          (Some (end_payload act startID res explanation (usage_json usage speed))) (Some now) EmptyString false false in
        let opts := MkOptions EmptyString None (Some usage) 0 false None [] None in
        let entries := map (verdict_entry now (oe_OutcomeID act) res explanation) in
        let again := String.eqb res verdictNeedsRevision || lastCycle || String.eqb res OutcomeResultMaxIterationsReached in
        if again || gradingChain tb sid watermark then
          try tb <- append rd tb sid [endEv] opts;
          requeue_item now (with_evals tb sid entries) it
        else
          try '(woken, moved, tb) <- transition tb sid (idle_on EmptyString StopEndTurn);
          try tb <- append rd tb sid (endEv :: woken) (with_status opts moved);
          complete_item now (with_evals tb sid entries) it
  end.

Definition grader_error_entry (id : string) (e : OutcomeEvaluation) : OutcomeEvaluation :=
  if String.eqb (oe_OutcomeID e) id && String.eqb (oe_Result e) OutcomeResultEvaluating
  then with_result e OutcomeResultRunning else e.

(** [msg] is sanitized by its caller's toolset. *)
Definition settleGraderError (rd : readings) (now : Z) (tb : tables) (it : Item) (act : OutcomeEvaluation) (msg : string)
    (watermark : Z) : result settle_error tables :=
  let sid := it_session it in
  let chained := gradingChain tb sid watermark in
  let errEv := MkNewEvent EmptyString EventSessionError
    (Some (JObject [("error", JObject [("message", JString msg);
       ("retry_status", JObject [("type", JString (if chained then "retrying" else "exhausted"))]);
       ("type", JString "model_request_failed_error")])])) None EmptyString false false in
  let entries := map (grader_error_entry (oe_OutcomeID act)) in
  if chained then
    try tb <- append rd tb sid [errEv] no_options;
    requeue_item now (with_evals tb sid entries) it
  else
    try '(woken, moved, tb) <- transition tb sid (idle_on EmptyString StopRetriesExhausted);
    try tb <- append rd tb sid (errEv :: woken) (with_status no_options moved);
    complete_item now (with_evals tb sid entries) it.

(** ** The end of a turn *)

Definition ended_without_report (agentName : string) : string :=
  "[agent " +:+ agentName +:+ " ended its turn without reporting]" +:+ new_line +:+ new_line +:+
  "Nothing was reported on this turn; anything it reported earlier stands. It is idle until you message it — " +:+
  "send it what is missing, or archive it to free the slot.".

(** The notice a child owes its coordinator; silence for the primary and for no thread. *)
Definition childEndedNotice (tb : tables) (sid threadID : string) (text : string -> string) : option NewEvent :=
  if String.eqb threadID EmptyString then None
  else match row_of (tb_threads tb) sid threadID with
       | Some r =>
           if bool_decide (is_Some (tb_parent tb !! threadID))
           then Some (ThreadEnded sid threadID (t_agent r) (text (t_agent r))) else None
       | None => None
       end.

Definition threadEndedWithoutReport (tb : tables) (sid threadID : string) : option NewEvent :=
  childEndedNotice tb sid threadID ended_without_report.

(** The outcome this settlement schedules a cycle of: only at the session's quiescence. *)
Definition to_grade (tb : tables) (sid threadID : string) : option OutcomeEvaluation :=
  match ActiveOutcome (default [] (tb_evals tb !! sid)) with
  | Some act =>
      if String.eqb (oe_Result act) OutcomeResultPending || String.eqb (oe_Result act) OutcomeResultRunning
      then match PreviewTransition (tb_threads tb) sid (idle_on threadID StopEndTurn) with
           | (SessionIdle, Some stop) => if bool_decide (sr_type stop = StopEndTurn) then Some act else None
           | _ => None
           end
      else None
  | None => None
  end.

Definition evaluating_entry (id : string) (e : OutcomeEvaluation) : OutcomeEvaluation :=
  if String.eqb (oe_OutcomeID e) id then with_result e OutcomeResultEvaluating else e.

(** What the scheduling commit writes: on a child's end, the primary's wake ahead of the
    start, then the notice, then the child's own idle. *)
Definition schedule_events (now : Z) (tb : tables) (sid threadID startID : string) (act : OutcomeEvaluation) (notice : option NewEvent)
  : result settle_error (list NewEvent * tables) :=
  let startEv := NewOutcomeStartEvent now startID (oe_OutcomeID act) (oe_Iteration act) in
  if String.eqb threadID EmptyString then Ok ([startEv], tb)
  else
    try '(wake, _, tb) <- transition tb sid (MkTransition EmptyString SessionRunning None false false);
    try '(told, tb) <- (match notice with
                        | Some n => try '(d, tb) <- deliver_ended tb sid threadID n; Ok (delivery_events d, tb)
                        | None => Ok ([], tb)
                        end);
    try '(park, _, tb) <- transition tb sid (idle_on threadID StopEndTurn);
    Ok (wake ++ [startEv] ++ told ++ park, tb).

(** What runs a scheduled cycle: on a cloud environment a harvest, else the primary's own
    turn. *)
Definition dispatch_grading (now : Z) (tb : tables) (it : Item) (wid : string) (trace : option string) : result settle_error tables :=
  let sid := it_session it in
  if env_is (tb_queue tb) cloud (it_env it) then
    try tb <- enqueue_harvest now tb wid (it_env it) sid true trace; complete_item now tb it
  else if negb (String.eqb (it_thread it) EmptyString) then
    try tb <- enqueue_turn now tb wid (it_env it) sid; complete_item now tb it
  else requeue_item now tb it.

(** [enqueueIdleHarvest]: a session that goes idle on a cloud environment. *)
Definition enqueueIdleHarvest (now : Z) (tb : tables) (it : Item) (moved : option SessionStatus) (wid : string) (trace : option string)
  : result settle_error tables :=
  if bool_decide (moved = Some SessionIdle) && env_is (tb_queue tb) cloud (it_env it)
  then enqueue_harvest now tb wid (it_env it) (it_session it) false trace
  else Ok tb.

(** [settleEndTurn].  The ids are those minted for the start and for up to two work items. *)
Definition settleEndTurn (rd : readings) (now : Z) (tb : tables) (it : Item) (watermark : Z) (opts : AppendOptions)
    (head : list NewEvent) (startID wid1 wid2 : string) (trace : option string) : result settle_error tables :=
  let sid := it_session it in
  let tid := it_thread it in
  match tb_evals tb !! sid with
  | None => Err SettleNoSession
  | Some _ =>
      if (0 <? watermark) && chainInput (tb_log tb) sid tid watermark then
        try tb <- append rd tb sid head opts; requeue_item now tb it
      else
        let notice := threadEndedWithoutReport tb sid tid in
        match to_grade tb sid tid with
        | Some act =>
            try '(evs, tb) <- schedule_events now tb sid tid startID act notice;
            try tb <- append rd tb sid (head ++ evs) opts;
            dispatch_grading now (with_evals tb sid (map (evaluating_entry (oe_OutcomeID act)))) it wid1 trace
        | None =>
            try '(told, woke, wokeTo, tb) <- (match notice with
                 | Some n => try '(d, tb) <- deliver_ended tb sid tid n; Ok (delivery_events d, Woke d, dl_Moved d, tb)
                 | None => Ok ([], false, None, tb)
                 end);
            try '(idle, moved, tb) <- transition tb sid (idle_on tid StopEndTurn);
            let moved := match moved with None => wokeTo | _ => moved end in
            try tb <- append rd tb sid (head ++ told ++ idle) (with_status opts moved);
            try tb <- complete_item now tb it;
            try tb <- enqueueIdleHarvest now tb it moved wid1 trace;
            if (woke : bool) then enqueue_turn now tb wid2 (it_env it) sid else Ok tb
        end
  end.

(** ** The harvest behind a cycle (internal/executor/harvest.go)

    The snapshot's rows and bytes are left out: they decide nothing about the outcome. *)
Definition settleHarvest (now : Z) (tb : tables) (it : Item) (replace_ : bool) (wid : string) : result settle_error tables :=
  let sid := it_session it in
  match tb_evals tb !! sid with
  | None => Err SettleNoSession
  | Some evals =>
      let grading := match ActiveOutcome evals with Some a => String.eqb (oe_Result a) OutcomeResultEvaluating | None => false end in
      if grading && negb replace_ && negb (it_chain_grading it) then
        try q <- lift_queue (RequeueAsGrading now (tb_queue tb) it); Ok (with_queue tb q)
      else if negb grading && it_chain_grading it then complete_item now tb it
      else
        try tb <- (if grading then enqueue_turn now tb wid (it_env it) sid else Ok tb);
        complete_item now tb it
  end.
