(* ===== verification/GradingSpec.v ===== *)
(** * GradingSpec: an outcome's entries and its grading cycle (Grading.v, Outcomes.v)

    Over every interleaving of turns, harvests, verdicts, grader failures, interrupts and
    sends: at most one outcome is active, its cycles are counted within its budget and a
    terminal entry never changes.  One settlement at a time: the turn that schedules a cycle
    and the harvest that ends under it leave the cycle a live work item, and a verdict or a
    grader's failure takes the outcome out of evaluation. *)
From Stdlib Require Import Lia.
From S2P Require Import Prelude GoStrings Ids Queue Status Json Domain Consumption Log ToolQuery Outcomes Replay Threadmsg Grading.

#[local] Arguments OutcomeResultTerminal : simpl never.

(** ** The tables a step leaves alone *)

Definition same_work (tb tb' : tables) : Prop := tb_evals tb' = tb_evals tb /\ tb_queue tb' = tb_queue tb.

Lemma same_work_trans tb1 tb2 tb3 : same_work tb1 tb2 -> same_work tb2 tb3 -> same_work tb1 tb3.
Proof. intros [] []. split; congruence. Qed.

Lemma transition_work tb sid t evs moved tb' : transition tb sid t = Ok (evs, moved, tb') -> same_work tb tb'.
Proof. unfold transition. destruct (TransitionThread _ _ _) as [[[? ?] ?]|]; [|done]. by intros [= <- <- <-]. Qed.

Lemma deliver_work tb sid child n d tb' : deliver_ended tb sid child n = Ok (d, tb') -> same_work tb tb'.
Proof. unfold deliver_ended. destruct (DeliverThreadEnded _ _ _ _ _ _) as [[? ?]|]; [|done]. by intros [= <- <-]. Qed.

Lemma append_work rd tb sid batch o tb' : append rd tb sid batch o = Ok tb' -> same_work tb tb'.
Proof. unfold append. destruct (AppendInTx _ _ _ _ _) as [[? ?]|]; [|done]. by intros [= <-]. Qed.

Lemma schedule_work now tb sid tid startID a n evs tb' : schedule_events now tb sid tid startID a n = Ok (evs, tb') -> same_work tb tb'.
Proof.
  unfold schedule_events. destruct (String.eqb tid EmptyString); [by intros [= <- <-]|].
  destruct (transition tb _ _) as [[[wake m] tb1]|] eqn:E1; [|done]. apply transition_work in E1.
  assert (H2 : forall told tb2, (match n with
     | Some n => try '(d, tb) <- deliver_ended tb1 sid tid n; Ok (delivery_events d, tb)
     | None => Ok ([], tb1) end) = Ok (told, tb2) -> same_work tb1 tb2).
  { intros told tb2. destruct n as [n|]; [|by intros [= <- <-]]. destruct (deliver_ended _ _ _ _) as [[d tb3]|] eqn:Ed; [|done].
    intros [= <- <-]. by apply deliver_work in Ed. }
  destruct (match n with Some _ => _ | None => _ end) as [[told tb2]|]; [|done]. specialize (H2 _ _ eq_refl).
  destruct (transition tb2 _ _) as [[[park m'] tb3]|] eqn:E3; [|done]. apply transition_work in E3. intros [= _ <-].
  eauto using same_work_trans.
Qed.

(** ** Work items *)

(** The rows that will evaluate a session's outcome: the primary's turn, or a harvest. *)
Definition serves (sid : string) (r : row) : Prop :=
  live r = true /\ w_session r = sid /\ ((w_kind r = ModelTurn /\ w_thread r = None) \/ w_kind r = OutputsHarvest).

Definition served (q : qdb) (sid : string) : Prop := exists id r, q_items q !! id = Some r /\ serves sid r.

(** [it] is the row's item. *)
Definition item_of (q : qdb) (it : Item) : Prop :=
  exists r, q_items q !! it_id it = Some r /\ w_session r = it_session it /\ w_kind r = it_kind it /\
    w_thread r = nullableThread (it_thread it).

Lemma holds_row q it r : holds q it = Some r -> q_items q !! it_id it = Some r.
Proof. unfold holds. destruct (q_items q !! it_id it); [|done]. destruct (_ && _); [|done]. by intros [= ->]. Qed.

Lemma requeue_row now q it chain delay q' : requeue now q it chain delay = Ok q' ->
  exists r r', q_items q !! it_id it = Some r /\ q_items q' = <[it_id it := r']> (q_items q) /\ q_envs q' = q_envs q /\
    w_state r' = queued /\ live_key r' = live_key r.
Proof.
  unfold requeue. destruct (holds q it) as [r|] eqn:Hr; [|done]. intros [= <-]. eexists r, _. split; [by apply holds_row|done].
Qed.

Lemma requeue_grading_row now q it q' : RequeueAsGrading now q it = Ok q' ->
  exists r r', q_items q !! it_id it = Some r /\ q_items q' = <[it_id it := r']> (q_items q) /\ q_envs q' = q_envs q /\
    w_state r' = queued /\ live_key r' = live_key r.
Proof.
  unfold RequeueAsGrading. destruct (holds q it) as [r|] eqn:Hr; [|done]. intros [= <-]. eexists r, _. split; [by apply holds_row|done].
Qed.

Lemma complete_row now q it q' : Complete now q it = Ok q' ->
  exists r r', q_items q !! it_id it = Some r /\ q_items q' = <[it_id it := r']> (q_items q) /\ q_envs q' = q_envs q /\
    w_state r' = stopped /\ w_state r = active.
Proof.
  unfold Complete. destruct (holds q it) as [r|] eqn:Hr; [|done]. intros [= <-]. eexists r, _. split; [by apply holds_row|].
  unfold holds in Hr. destruct (q_items q !! it_id it) as [r0|]; [|done]. destruct (is_state active r0) eqn:Hs; [|done].
  destruct (bool_decide _); [|done]. injection Hr as <-. split_and!; try done. unfold is_state, state_eqb in Hs. by destruct (w_state r0).
Qed.

Lemma insert_item_row q id r b q' : insert_item q id r = Ok (b, q') -> live r = true ->
  q_envs q' = q_envs q /\
  (forall i x, q_items q !! i = Some x -> q_items q' !! i = Some x) /\
  (forall i x, q_items q' !! i = Some x -> q_items q !! i = Some x \/ (i = id /\ x = r /\ q_items q !! i = None)) /\
  exists i x, q_items q' !! i = Some x /\ live x = true /\ live_key x = live_key r.
Proof.
  unfold insert_item. destruct (negb _); [done|]. destruct (existsb _ _) eqn:Hex.
  - intros [= <- <-] _. split_and!; [done|done|auto|]. apply existsb_exists in Hex as ([i x] & Hin%list_elem_of_In%elem_of_map_to_list & Hx).
    apply andb_true_iff in Hx as [Hl Hk%bool_decide_eq_true]. eauto.
  - destruct (q_items q !! id) as [x|] eqn:Hid; [by rewrite bool_decide_true|].
    rewrite bool_decide_false by (by intros [? [=]]). intros [= <- <-] Hl. cbn. split_and!; [done|..].
    + intros i x Hx. rewrite lookup_insert_ne; [done|]. intros ->. congruence.
    + intros i x. destruct (decide (i = id)) as [->|Hne]; [rewrite lookup_insert_eq; intros [= <-]; auto|].
      rewrite lookup_insert_ne by done. auto.
    + exists id, r. by rewrite lookup_insert_eq.
Qed.

Lemma serves_key sid r r' : live r' = true -> live_key r' = live_key r -> serves sid r -> serves sid r'.
Proof. unfold live_key. intros Hl [= H1 H2 H3] (_ & Hs & Hk). split; [done|]. by rewrite H1, H2, H3. Qed.

Lemma queued_live r : w_state r = queued -> live r = true.
Proof. unfold live, is_state. by intros ->. Qed.

Lemma served_requeued q q' sid iid r r' : q_items q !! iid = Some r -> q_items q' = <[iid := r']> (q_items q) ->
  w_state r' = queued -> live_key r' = live_key r -> served q sid -> served q' sid.
Proof.
  intros Hr Hq Hs Hk (id & x & Hx & Hsv). destruct (decide (id = iid)) as [->|Hne].
  - exists iid, r'. rewrite Hq, lookup_insert_eq. split; [done|]. rewrite Hr in Hx. injection Hx as <-.
    by eapply serves_key; [apply queued_live|..].
  - exists id, x. by rewrite Hq, lookup_insert_ne.
Qed.

Lemma served_inserted q id r b q' sid : insert_item q id r = Ok (b, q') -> live r = true -> served q sid \/ serves sid r -> served q' sid.
Proof.
  intros Hi Hl Hs. destruct (insert_item_row _ _ _ _ _ Hi Hl) as (_ & Hkeep & _ & i & x & Hx & Hxl & Hxk).
  destruct Hs as [(j & y & Hy & Hsy)|Hs]; [exists j, y; auto|]. exists i, x. split; [done|]. by eapply serves_key.
Qed.

(** Rows are kept, under their keys, and none comes back to life. *)
Definition grows (q q' : qdb) : Prop :=
  forall id r, q_items q !! id = Some r ->
    exists r', q_items q' !! id = Some r' /\ live_key r' = live_key r /\ (live r' = true -> live r = true).

Lemma grows_refl q : grows q q.
Proof. intros id r Hr. eauto. Qed.

Lemma grows_trans q1 q2 q3 : grows q1 q2 -> grows q2 q3 -> grows q1 q3.
Proof.
  intros H1 H2 id r Hr. destruct (H1 _ _ Hr) as (r2 & Hr2 & Hk2 & Hl2). destruct (H2 _ _ Hr2) as (r3 & ? & ? & ?).
  exists r3. split_and!; [done|congruence|auto].
Qed.

Lemma grows_set q q' iid r r' : q_items q !! iid = Some r -> q_items q' = <[iid := r']> (q_items q) -> live_key r' = live_key r ->
  (live r' = true -> live r = true) -> grows q q'.
Proof.
  intros Hr Hq Hk Hl id x Hx. rewrite Hq. destruct (decide (id = iid)) as [->|].
  - rewrite lookup_insert_eq. rewrite Hr in Hx. injection Hx as <-. eauto.
  - rewrite lookup_insert_ne by done. eauto.
Qed.

Lemma grows_requeue now q it chain delay q' : requeue now q it chain delay = Ok q' -> grows q q'.
Proof.
  unfold requeue. destruct (holds q it) as [r|] eqn:Hr; [|done]. intros [= <-]. pose proof (holds_row _ _ _ Hr) as Hrow.
  eapply grows_set; [exact Hrow|reflexivity|done|]. intros _. unfold holds in Hr. rewrite Hrow in Hr. unfold live.
  destruct (is_state active r); [|done]. by rewrite orb_true_r.
Qed.

Lemma grows_grading now q it q' : RequeueAsGrading now q it = Ok q' -> grows q q'.
Proof.
  unfold RequeueAsGrading. destruct (holds q it) as [r|] eqn:Hr; [|done]. intros [= <-]. pose proof (holds_row _ _ _ Hr) as Hrow.
  eapply grows_set; [exact Hrow|reflexivity|done|]. intros _. unfold holds in Hr. rewrite Hrow in Hr. unfold live.
  destruct (is_state active r); [|done]. by rewrite orb_true_r.
Qed.

Lemma grows_complete now q it q' : Complete now q it = Ok q' -> grows q q'.
Proof.
  unfold Complete. destruct (holds q it) as [r|] eqn:Hr; [|done]. intros [= <-].
  eapply grows_set; [exact (holds_row _ _ _ Hr)|reflexivity|done|done].
Qed.

Lemma grows_insert q id r b q' : insert_item q id r = Ok (b, q') -> live r = true -> grows q q'.
Proof. intros Hi Hl i x Hx. destruct (insert_item_row _ _ _ _ _ Hi Hl) as (_ & Hk & _). eauto. Qed.

(** A row other than the completed one goes on serving. *)
Lemma served_completed now q it q' sid : Complete now q it = Ok q' ->
  (exists id r, id <> it_id it /\ q_items q !! id = Some r /\ serves sid r) -> served q' sid.
Proof.
  intros Hc (id & r & Hne & Hr & Hs). destruct (complete_row _ _ _ _ Hc) as (? & ? & _ & Hq & _).
  exists id, r. by rewrite Hq, lookup_insert_ne.
Qed.

Lemma holds_live q it r : holds q it = Some r -> live r = true.
Proof.
  unfold holds. destruct (q_items q !! it_id it); [|done]. destruct (is_state active r0) eqn:E; [|done].
  destruct (bool_decide _); [|done]. intros [= ->]. unfold live. by rewrite E, orb_true_r.
Qed.

(** ** What each handler does to entries and work *)

Definition entries (tb : tables) (sid : string) : list OutcomeEvaluation := default [] (tb_evals tb !! sid).

Lemma entries_with_evals tb sid f : is_Some (tb_evals tb !! sid) -> entries (with_evals tb sid f) sid = f (entries tb sid).
Proof. intros [l Hl]. unfold entries, with_evals. cbn. by rewrite lookup_alter_eq, Hl. Qed.

Lemma to_grade_active tb sid tid a : to_grade tb sid tid = Some a ->
  ActiveOutcome (entries tb sid) = Some a /\ (oe_Result a = OutcomeResultPending \/ oe_Result a = OutcomeResultRunning).
Proof.
  unfold to_grade, entries. destruct (ActiveOutcome _) as [a'|]; [|done]. destruct (_ || _) eqn:E; [|done].
  intros H. assert (a' = a) as -> by (repeat case_match; by simplify_eq).
  split; [done|]. apply orb_true_iff in E as [E%String.eqb_eq|E%String.eqb_eq]; auto.
Qed.

Section handlers.
Context (sid : string).

Lemma requeue_item_ok now tb it tb' : requeue_item now tb it = Ok tb' ->
  tb_evals tb' = tb_evals tb /\ grows (tb_queue tb) (tb_queue tb') /\
  (served (tb_queue tb) sid -> served (tb_queue tb') sid).
Proof.
  unfold requeue_item, Requeue. destruct (requeue now (tb_queue tb) it 0 0) as [q|] eqn:Hq; [|done]. intros [= <-]. cbn.
  split_and!; [done|by eapply grows_requeue|]. destruct (requeue_row _ _ _ _ _ _ Hq) as (r & r' & ? & ? & _ & ? & ?).
  by eapply served_requeued.
Qed.

Lemma requeue_item_held now tb it tb' : requeue_item now tb it = Ok tb' -> is_Some (holds (tb_queue tb) it).
Proof. unfold requeue_item, Requeue, requeue. destruct (holds _ _); [eauto|done]. Qed.

Lemma complete_item_held now tb it tb' : complete_item now tb it = Ok tb' -> is_Some (holds (tb_queue tb) it).
Proof. unfold complete_item, Complete. destruct (holds _ _); [eauto|done]. Qed.

Lemma complete_item_ok now tb it tb' : complete_item now tb it = Ok tb' ->
  tb_evals tb' = tb_evals tb /\ Complete now (tb_queue tb) it = Ok (tb_queue tb') /\ grows (tb_queue tb) (tb_queue tb').
Proof.
  unfold complete_item. destruct (Complete now (tb_queue tb) it) as [q|] eqn:Hq; [|done]. intros [= <-].
  split_and!; [done|done|by eapply grows_complete].
Qed.

Lemma enqueue_turn_ok now tb wid env tb' : enqueue_turn now tb wid env sid = Ok tb' ->
  tb_evals tb' = tb_evals tb /\ grows (tb_queue tb) (tb_queue tb') /\
  (forall i x, q_items (tb_queue tb) !! i = Some x -> q_items (tb_queue tb') !! i = Some x) /\
  exists i x, q_items (tb_queue tb') !! i = Some x /\ live x = true /\ live_key x = (sid, None, ModelTurn).
Proof.
  unfold enqueue_turn, EnqueueThread, lift_queue. destruct (insert_item _ _ _) as [[b q]|] eqn:Hi; [|done]. intros [= <-]. cbn [tb_evals with_queue tb_queue].
  destruct (insert_item_row _ _ _ _ _ Hi eq_refl) as (_ & Hk & _ & i & x & Hx & Hl & Hlk).
  split_and!; [done|by eapply grows_insert|done|]. exists i, x. by rewrite Hlk.
Qed.

Lemma enqueue_harvest_ok now tb wid env grading trace tb' : enqueue_harvest now tb wid env sid grading trace = Ok tb' ->
  tb_evals tb' = tb_evals tb /\ grows (tb_queue tb) (tb_queue tb') /\
  (forall i x, q_items (tb_queue tb) !! i = Some x -> q_items (tb_queue tb') !! i = Some x) /\
  exists i x, q_items (tb_queue tb') !! i = Some x /\ live x = true /\ live_key x = (sid, None, OutputsHarvest).
Proof.
  unfold enqueue_harvest, EnqueueOutputsHarvest, lift_queue. destruct (insert_item _ _ _) as [[b q]|] eqn:Hi; [|done]. intros [= <-]. cbn [tb_evals with_queue tb_queue].
  destruct (insert_item_row _ _ _ _ _ Hi eq_refl) as (_ & Hk & _ & i & x & Hx & Hl & Hlk).
  split_and!; [done|by eapply grows_insert|done|]. exists i, x. by rewrite Hlk.
Qed.

(** The row [it] stands for is not the one found. *)
Lemma other_row q it i x k : item_of q it -> q_items q !! i = Some x -> live_key x = k ->
  k <> (it_session it, nullableThread (it_thread it), it_kind it) -> i <> it_id it.
Proof.
  intros (r & Hr & H1 & H2 & H3) Hx Hk Hne ->. rewrite Hr in Hx. injection Hx as <-. apply Hne. rewrite <- Hk.
  unfold live_key. by rewrite H1, H2, H3.
Qed.

Lemma item_of_kept q q' it : (forall i x, q_items q !! i = Some x -> q_items q' !! i = Some x) -> item_of q it -> item_of q' it.
Proof. intros Hk (r & Hr & ?). exists r. split; [by apply Hk|done]. Qed.

Lemma serves_row x t k : live x = true -> live_key x = (sid, t, k) -> (k = ModelTurn /\ t = None) \/ k = OutputsHarvest -> serves sid x.
Proof. unfold live_key. intros Hl [= H1 H2 H3] Hk. split_and!; [done|done|]. by rewrite H2, H3. Qed.

(** A scheduled cycle has its work. *)
Lemma dispatch_served now tb it wid trace tb' : dispatch_grading now tb it wid trace = Ok tb' ->
  it_session it = sid -> item_of (tb_queue tb) it -> it_kind it = ModelTurn ->
  tb_evals tb' = tb_evals tb /\ grows (tb_queue tb) (tb_queue tb') /\ served (tb_queue tb') sid.
Proof.
  intros H Hsid Hit Hkind. unfold dispatch_grading in H. rewrite Hsid in H. destruct (env_is _ _ _).
  - destruct (enqueue_harvest _ _ _ _ _ _ _) as [tb1|] eqn:E1; [|done]. apply enqueue_harvest_ok in E1 as (He & Hg & Hk & i & x & Hx & Hl & Hlk).
    apply complete_item_ok in H as (He' & Hc & Hg'). split_and!; [congruence|by eapply grows_trans|].
    eapply served_completed; [exact Hc|]. exists i, x. split_and!; [|done|by eapply serves_row; eauto].
    eapply other_row; [by eapply item_of_kept|done|done|]. rewrite Hkind. congruence.
  - destruct (String.eqb_spec (it_thread it) EmptyString) as [E|N]; cbn [negb] in H.
    + pose proof H as H'. apply requeue_item_ok in H as (He & Hg & _). split_and!; [done|done|].
      unfold requeue_item, Requeue in H'. destruct (requeue _ _ _ _ _) as [q|] eqn:Hq; [|done]. injection H' as <-.
      destruct (requeue_row _ _ _ _ _ _ Hq) as (r & r' & Hr & Hq' & _ & Hst & Hlk). exists (it_id it), r'. cbn.
      rewrite Hq', lookup_insert_eq. split; [done|]. destruct Hit as (r0 & Hr0 & Hs & Hk & Ht). rewrite Hr in Hr0. injection Hr0 as <-.
      eapply serves_row; [by apply queued_live|rewrite Hlk; unfold live_key; by rewrite Hs, Hsid, Hk, Ht, E|rewrite Hkind; auto].
    + destruct (enqueue_turn _ _ _ _ _) as [tb1|] eqn:E1; [|done]. apply enqueue_turn_ok in E1 as (He & Hg & Hk & i & x & Hx & Hl & Hlk).
      apply complete_item_ok in H as (He' & Hc & Hg'). split_and!; [congruence|by eapply grows_trans|].
      eapply served_completed; [exact Hc|]. exists i, x. split_and!; [|done|by eapply serves_row; eauto].
      eapply other_row; [by eapply item_of_kept|done|done|]. rewrite Hsid, Hkind. unfold nullableThread.
      apply String.eqb_neq in N as ->. congruence.
Qed.

(** What follows a completed turn: a harvest, a woken primary's turn. *)
Lemma idle_tail now tb it moved w1 w2 trace (woke : bool) tb' :
  (try tb <- enqueueIdleHarvest now tb it moved w1 trace;
   if woke then enqueue_turn now tb w2 (it_env it) (it_session it) else Ok tb) = Ok tb' -> it_session it = sid ->
  tb_evals tb' = tb_evals tb /\ grows (tb_queue tb) (tb_queue tb') /\
  forall i x, q_items (tb_queue tb) !! i = Some x -> q_items (tb_queue tb') !! i = Some x.
Proof.
  intros H Hsid. rewrite Hsid in H. destruct (enqueueIdleHarvest _ _ _ _ _ _) as [tb5|] eqn:E5; [|done].
  assert (H5 : tb_evals tb5 = tb_evals tb /\ grows (tb_queue tb) (tb_queue tb5) /\
    forall i x, q_items (tb_queue tb) !! i = Some x -> q_items (tb_queue tb5) !! i = Some x).
  { unfold enqueueIdleHarvest in E5. rewrite Hsid in E5. destruct (_ && _).
    - apply enqueue_harvest_ok in E5 as (? & ? & ? & _). done.
    - injection E5 as <-. split_and!; [done|apply grows_refl|done]. }
  destruct H5 as (He5 & Hg5 & Hk5). destruct woke; [|by injection H as <-].
  apply enqueue_turn_ok in H as (He6 & Hg6 & Hk6 & _). split_and!; [congruence|by eapply grows_trans|auto].
Qed.

(** A settled turn: the entries as they were and its item handed back or completed, or a
    cycle scheduled. *)
Lemma settleEndTurn_work rd now tb it wm opts head startID w1 w2 trace tb' :
  settleEndTurn rd now tb it wm opts head startID w1 w2 trace = Ok tb' ->
  it_session it = sid -> item_of (tb_queue tb) it -> it_kind it = ModelTurn ->
  is_Some (tb_evals tb !! sid) /\ grows (tb_queue tb) (tb_queue tb') /\
  ((tb_evals tb' = tb_evals tb /\ (it_thread it <> EmptyString -> served (tb_queue tb) sid -> served (tb_queue tb') sid)) \/
   (exists a, to_grade tb sid (it_thread it) = Some a /\ served (tb_queue tb') sid /\
      tb_evals tb' = alter (map (evaluating_entry (oe_OutcomeID a))) sid (tb_evals tb))).
Proof.
  intros H Hsid Hit Hkind. unfold settleEndTurn in H. rewrite Hsid in H.
  destruct (tb_evals tb !! sid) as [evals|] eqn:Hev; [|done]. split; [eauto|].
  destruct (_ && chainInput _ _ _ _).
  { destruct (append _ _ _ _ _) as [tb1|] eqn:E1; [|done]. apply append_work in E1 as [He1 Hq1].
    apply requeue_item_ok in H as (He & Hg & Hs). rewrite Hq1 in Hg, Hs. split; [done|]. left. split; [congruence|auto]. }
  destruct (to_grade tb sid (it_thread it)) as [a|].
  { destruct (schedule_events _ _ _ _ _ _ _) as [[evs tb1]|] eqn:E1; [|done]. apply schedule_work in E1 as [He1 Hq1].
    destruct (append _ _ _ _ _) as [tb2|] eqn:E2; [|done]. apply append_work in E2 as [He2 Hq2].
    apply dispatch_served in H as (He & Hg & Hs); [|done|cbn; by rewrite Hq2, Hq1|done]. cbn in He, Hg. rewrite Hq2, Hq1 in Hg.
    split; [done|]. right. exists a. split_and!; [done|done|]. by rewrite He, He2, He1. }
  destruct (match threadEndedWithoutReport tb sid (it_thread it) with Some _ => _ | None => _ end) as [[[[told woke] wokeTo] tb1]|] eqn:E1; [|done].
  assert (H1 : same_work tb tb1).
  { destruct (threadEndedWithoutReport _ _ _) as [n|]; [|by simplify_eq]. destruct (deliver_ended _ _ _ _) as [[d tbd]|] eqn:Ed; [|done].
    simplify_eq. by apply deliver_work in Ed. }
  destruct (transition tb1 _ _) as [[[idle moved] tb2]|] eqn:E2; [|done]. apply transition_work in E2.
  destruct (append _ _ _ _ _) as [tb3|] eqn:E3; [|done]. apply append_work in E3.
  destruct (same_work_trans _ _ _ H1 (same_work_trans _ _ _ E2 E3)) as [He3 Hq3]. clear H1 E2 E3.
  destruct (complete_item _ _ _) as [tb4|] eqn:E4; [|done]. apply complete_item_ok in E4 as (He4 & Hc4 & Hg4).
  rewrite Hq3 in Hc4, Hg4.
  destruct (idle_tail now tb4 it (match moved with None => wokeTo | _ => moved end) w1 w2 trace woke tb' ltac:(by rewrite Hsid) Hsid) as (He & Hg & Hk).
  split; [by eapply grows_trans|]. left. split; [congruence|].
  intros Hchild (i & x & Hx & Hs).
  assert (Hs4 : served (tb_queue tb4) sid).
  { eapply served_completed; [exact Hc4|]. exists i, x. split_and!; [|done|done].
    eapply other_row; [exact Hit|exact Hx|reflexivity|]. destruct Hs as (_ & Hses & Hkx). unfold live_key.
    rewrite Hkind. unfold nullableThread. apply String.eqb_neq in Hchild as ->. intros E. injection E as E6 E7 E8.
    destruct Hkx as [[_ E4]|E4]; congruence. }
  destruct Hs4 as (j & y & Hy & ?). exists j, y. split; [by apply Hk|done].
Qed.

(** A settled harvest hands the cycle on. *)
Lemma settleHarvest_work now tb it rep wid tb' : settleHarvest now tb it rep wid = Ok tb' ->
  it_session it = sid -> item_of (tb_queue tb) it -> it_kind it = OutputsHarvest ->
  tb_evals tb' = tb_evals tb /\ grows (tb_queue tb) (tb_queue tb') /\
  (forall a, ActiveOutcome (entries tb sid) = Some a -> oe_Result a = OutcomeResultEvaluating -> served (tb_queue tb') sid).
Proof.
  intros H Hsid Hit Hkind. unfold settleHarvest in H. rewrite Hsid in H.
  destruct (tb_evals tb !! sid) as [evals|] eqn:Hev; [|done]. unfold entries. rewrite Hev. change (default [] (Some evals)) with evals.
  destruct (match ActiveOutcome evals with Some a => String.eqb (oe_Result a) OutcomeResultEvaluating | None => false end) eqn:Hgr; cbn [andb negb] in H.
  - assert (Hgo : forall tb1, enqueue_turn now tb wid (it_env it) sid = Ok tb1 -> complete_item now tb1 it = Ok tb' ->
      tb_evals tb' = tb_evals tb /\ grows (tb_queue tb) (tb_queue tb') /\ served (tb_queue tb') sid).
    { intros tb1 E1 E2. apply enqueue_turn_ok in E1 as (He & Hg & Hk & i & x & Hx & Hl & Hlk). apply complete_item_ok in E2 as (He' & Hc & Hg').
      split_and!; [congruence|by eapply grows_trans|]. eapply served_completed; [exact Hc|]. exists i, x.
      split_and!; [|done|by eapply serves_row; eauto]. eapply other_row; [by eapply item_of_kept|done|done|]. rewrite Hkind. congruence. }
    destruct (negb rep && negb (it_chain_grading it)).
    + unfold lift_queue in H. destruct (RequeueAsGrading _ _ _) as [q|] eqn:Hq; [|done]. injection H as <-. cbn.
      split_and!; [done|by eapply grows_grading|]. intros _ _ _. destruct (requeue_grading_row _ _ _ _ Hq) as (r & r' & Hr & Hq' & _ & Hst & Hlk).
      exists (it_id it), r'. rewrite Hq', lookup_insert_eq. split; [done|]. destruct Hit as (r0 & Hr0 & Hs & Hk & Ht). rewrite Hr in Hr0. injection Hr0 as <-.
      eapply serves_row; [by apply queued_live|rewrite Hlk; unfold live_key; by rewrite Hs, Hsid|rewrite Hk, Hkind; auto].
    + destruct (enqueue_turn _ _ _ _ _) as [tb1|] eqn:E1; [|done]. destruct (Hgo tb1 eq_refl H) as (? & ? & ?). by split_and!.
  - assert (Hc : complete_item now tb it = Ok tb') by (by destruct (it_chain_grading it)).
    apply complete_item_ok in Hc as (He & _ & Hg). split_and!; [done|done|]. intros a Ha Hr. rewrite Ha, Hr in Hgr. done.
Qed.

(** A verdict on an outcome still being evaluated. *)
Lemma settleVerdict_work rd now tb it a startID res expl usage speed wm lastCycle tb' :
  settleVerdict rd now tb it a startID res expl usage speed wm lastCycle = Ok tb' -> it_session it = sid ->
  settled_underneath (oe_OutcomeID a) (entries tb sid) = false ->
  is_Some (tb_evals tb !! sid) /\ grows (tb_queue tb) (tb_queue tb') /\ is_Some (holds (tb_queue tb) it) /\
  tb_evals tb' = alter (map (verdict_entry now (oe_OutcomeID a) res expl)) sid (tb_evals tb).
Proof.
  intros H Hsid Hs. unfold settleVerdict in H. rewrite Hsid in H. unfold entries in Hs.
  destruct (tb_evals tb !! sid) as [evals|] eqn:Hev; [|done]. change (default [] (Some evals)) with evals in Hs. rewrite Hs in H.
  split; [eauto|]. destruct (_ || gradingChain _ _ _).
  - destruct (append _ _ _ _ _) as [tb1|] eqn:E1; [|done]. apply append_work in E1 as [He1 Hq1].
    pose proof (requeue_item_held _ _ _ _ H) as Hh. apply requeue_item_ok in H as (He & Hg & _). cbn in *. rewrite Hq1 in *.
    split_and!; [done|done|congruence].
  - destruct (transition _ _ _) as [[[w m] tb1]|] eqn:E1; [|done]. apply transition_work in E1.
    destruct (append _ _ _ _ _) as [tb2|] eqn:E2; [|done]. apply append_work in E2.
    destruct (same_work_trans _ _ _ E1 E2) as [He1 Hq1].
    pose proof (complete_item_held _ _ _ _ H) as Hh. apply complete_item_ok in H as (He & _ & Hg). cbn in *. rewrite Hq1 in *.
    split_and!; [done|done|congruence].
Qed.

Lemma settleGraderError_work rd now tb it a msg wm tb' :
  settleGraderError rd now tb it a msg wm = Ok tb' -> it_session it = sid ->
  grows (tb_queue tb) (tb_queue tb') /\ is_Some (holds (tb_queue tb) it) /\
  tb_evals tb' = alter (map (grader_error_entry (oe_OutcomeID a))) sid (tb_evals tb).
Proof.
  intros H Hsid. unfold settleGraderError in H. rewrite Hsid in H. destruct (gradingChain _ _ _).
  - destruct (append _ _ _ _ _) as [tb1|] eqn:E1; [|done]. apply append_work in E1 as [He1 Hq1].
    pose proof (requeue_item_held _ _ _ _ H) as Hh. apply requeue_item_ok in H as (He & Hg & _). cbn in *. rewrite Hq1 in *.
    split_and!; [done|done|congruence].
  - destruct (transition _ _ _) as [[[w m] tb1]|] eqn:E1; [|done]. apply transition_work in E1.
    destruct (append _ _ _ _ _) as [tb2|] eqn:E2; [|done]. apply append_work in E2.
    destruct (same_work_trans _ _ _ E1 E2) as [He1 Hq1].
    pose proof (complete_item_held _ _ _ _ H) as Hh. apply complete_item_ok in H as (He & _ & Hg). cbn in *. rewrite Hq1 in *.
    split_and!; [done|done|congruence].
Qed.
End handlers.

(** ** Entries *)

Definition terminal (e : OutcomeEvaluation) : Prop := OutcomeResultTerminal (oe_Result e) = true.

Lemma ActiveOutcome_split evals a : ActiveOutcome evals = Some a ->
  exists pre post, evals = pre ++ a :: post /\ Forall terminal pre /\ OutcomeResultTerminal (oe_Result a) = false.
Proof.
  unfold ActiveOutcome. induction evals as [|e evals IH]; [done|]. cbn. destruct (OutcomeResultTerminal (oe_Result e)) eqn:E; cbn.
  - intros (pre & post & -> & Hp & Ha)%IH. exists (e :: pre), post. split_and!; [done|by constructor|done].
  - intros [= <-]. exists [], evals. by split_and!.
Qed.

Lemma ActiveOutcome_app pre post : Forall terminal pre -> ActiveOutcome (pre ++ post) = ActiveOutcome post.
Proof. unfold ActiveOutcome. induction 1 as [|e pre He _ IH]; [done|]. cbn. unfold terminal in He. by rewrite He. Qed.

Lemma ActiveOutcome_none evals : ActiveOutcome evals = None -> Forall terminal evals.
Proof.
  unfold ActiveOutcome. induction evals as [|e evals IH]; [constructor|]. cbn. destruct (OutcomeResultTerminal (oe_Result e)) eqn:E; cbn; [|done].
  intros H. constructor; auto.
Qed.

(** At most one entry is active, and it is the last. *)
Definition one_active (evals : list OutcomeEvaluation) : Prop :=
  exists pre, Forall terminal pre /\ (evals = pre \/ exists a, OutcomeResultTerminal (oe_Result a) = false /\ evals = pre ++ [a]).

Lemma one_active_split evals a : one_active evals -> ActiveOutcome evals = Some a ->
  exists pre, evals = pre ++ [a] /\ Forall terminal pre /\ OutcomeResultTerminal (oe_Result a) = false.
Proof.
  intros (pre & Hp & [->|(a' & Ha' & ->)]) Ha.
  - rewrite <- (app_nil_r pre), ActiveOutcome_app in Ha by done. done.
  - rewrite ActiveOutcome_app in Ha by done. unfold ActiveOutcome in Ha. cbn in Ha. rewrite Ha' in Ha. cbn in Ha.
    injection Ha as ->. eauto.
Qed.

(** An update keyed by the active entry's id changes that entry alone. *)
Lemma map_active pre a (f : OutcomeEvaluation -> OutcomeEvaluation) : NoDup (map oe_OutcomeID (pre ++ [a])) -> Forall terminal pre ->
  (forall e, terminal e -> oe_OutcomeID e <> oe_OutcomeID a -> f e = e) -> map f (pre ++ [a]) = pre ++ [f a].
Proof.
  intros Hnd Ht Hf. rewrite Forall_forall in Ht. rewrite map_app. cbn. f_equal. rewrite map_app in Hnd. cbn in Hnd. apply NoDup_app in Hnd as (_ & Hd & _).
  rewrite <- (map_id pre) at 2. apply map_ext_in. intros e He%list_elem_of_In. apply Hf; [by apply Ht|]. intros E. apply (Hd (oe_OutcomeID e)); [|rewrite E; left].
  apply list_elem_of_In, in_map. by apply list_elem_of_In.
Qed.

(** ** Runs *)

(** A session's tables, the grading cycle its item was last claimed for, and the
    definitions on its log. *)
Record world := MkWorld { wd : tables; w_claim : option (string * OutcomeEvaluation); w_defs : gmap string DefineOutcome }.

Definition evaluating (evals : list OutcomeEvaluation) : Prop :=
  exists a, ActiveOutcome evals = Some a /\ oe_Result a = OutcomeResultEvaluating.

(** A primary's turn item of the session. *)
Definition turn_row (sid : string) (r : row) : Prop := w_session r = sid /\ w_kind r = ModelTurn /\ w_thread r = None.

(** A definition is accepted with an id of its own and a positive budget. *)
Definition mintable (w : world) (sid : string) (defs : list DefineOutcome) : Prop :=
  forall d, d ∈ defs -> (do_OutcomeID d ∉ map oe_OutcomeID (entries (wd w) sid)) /\ 1 <= do_MaxIterations d < 2 ^ 63.

Definition learned (m : gmap string DefineOutcome) (defs : list DefineOutcome) : gmap string DefineOutcome :=
  foldl (fun m d => <[do_OutcomeID d := d]> m) m defs.

Inductive step (sid : string) (w : world) : world -> Prop :=
| step_turn rd now it wm opts head startID w1 w2 trace tb' :
    it_session it = sid -> it_kind it = ModelTurn -> item_of (tb_queue (wd w)) it ->
    settleEndTurn rd now (wd w) it wm opts head startID w1 w2 trace = Ok tb' -> step sid w (MkWorld tb' (w_claim w) (w_defs w))
| step_harvest now it rep wid tb' :
    it_session it = sid -> it_kind it = OutputsHarvest -> item_of (tb_queue (wd w)) it ->
    settleHarvest now (wd w) it rep wid = Ok tb' -> step sid w (MkWorld tb' (w_claim w) (w_defs w))
| step_claim id r a :
    q_items (tb_queue (wd w)) !! id = Some r -> turn_row sid r ->
    ActiveOutcome (entries (wd w) sid) = Some a -> oe_Result a = OutcomeResultEvaluating ->
    step sid w (MkWorld (wd w) (Some (id, a)) (w_defs w))
| step_verdict rd now it a startID text verdict expl res usage speed wm lastCycle tb' :
    w_claim w = Some (it_id it, a) -> it_session it = sid -> parseVerdict text = (verdict, expl) ->
    cycle_outcome (w_defs w !! oe_OutcomeID a) a verdict = (res, lastCycle) ->
    settleVerdict rd now (wd w) it a startID res (clip_explanation expl) usage speed wm lastCycle = Ok tb' ->
    step sid w (MkWorld tb' None (w_defs w))
| step_error rd now it a msg wm tb' :
    w_claim w = Some (it_id it, a) -> it_session it = sid ->
    settleGraderError rd now (wd w) it a msg wm = Ok tb' -> step sid w (MkWorld tb' None (w_defs w))
| step_begin : step sid w (MkWorld (with_evals (wd w) sid BeginOutcomeWork) (w_claim w) (w_defs w))
| step_define now files defs :
    is_Some (tb_evals (wd w) !! sid) -> mintable w sid defs ->
    ValidateDefineOutcomes now files (entries (wd w) sid) defs false = Ok tt ->
    step sid w (MkWorld (with_evals (wd w) sid (fun evals => evals ++ map NewOutcomeEntry defs)) (w_claim w) (learned (w_defs w) defs))
| step_interrupt now files defs q' :
    is_Some (tb_evals (wd w) !! sid) -> mintable w sid defs ->
    ValidateDefineOutcomes now files (entries (wd w) sid) defs true = Ok tt -> grows (tb_queue (wd w)) q' ->
    (evaluating (entries (wd w) sid) -> forall id r, is_Some (q_items (tb_queue (wd w)) !! id) -> q_items q' !! id = Some r ->
       turn_row sid r -> live r = false) ->
    step sid w (MkWorld (with_evals (with_queue (wd w) q') sid (fun evals => FlipNonTerminalOutcomes now evals ++ map NewOutcomeEntry defs))
                  (w_claim w) (learned (w_defs w) defs))
| step_queue q' : grows (tb_queue (wd w)) q' -> step sid w (MkWorld (with_queue (wd w) q') (w_claim w) (w_defs w)).

(** An entry keeps to its outcome's budget, and is dated exactly when it is over. *)
Definition kept_entry (defs : gmap string DefineOutcome) (e : OutcomeEvaluation) : Prop :=
  (exists d, defs !! oe_OutcomeID e = Some d /\ 1 <= do_MaxIterations d < 2 ^ 63 /\ (0 <= oe_Iteration e < do_MaxIterations d)) /\
  (is_Some (oe_CompletedAt e) <-> OutcomeResultTerminal (oe_Result e) = true).

Record invariant (sid : string) (w : world) : Prop := MkInvariant {
  inv_ids : NoDup (map oe_OutcomeID (entries (wd w) sid));
  inv_one : one_active (entries (wd w) sid);
  inv_entries : Forall (kept_entry (w_defs w)) (entries (wd w) sid);
  inv_claim : forall id a, w_claim w = Some (id, a) ->
    exists r, q_items (tb_queue (wd w)) !! id = Some r /\ turn_row sid r /\
      (live r = true -> ActiveOutcome (entries (wd w) sid) = Some a /\ oe_Result a = OutcomeResultEvaluating) }.

(** What a step does to the entries, apart from work: the active one is updated, a new one
    appended, or nothing. *)
Lemma claim_grows sid w q' evals' : grows (tb_queue (wd w)) q' ->
  (forall id a, w_claim w = Some (id, a) ->
    exists r, q_items (tb_queue (wd w)) !! id = Some r /\ turn_row sid r /\
      (live r = true -> ActiveOutcome (entries (wd w) sid) = Some a /\ oe_Result a = OutcomeResultEvaluating)) ->
  (forall a, ActiveOutcome (entries (wd w) sid) = Some a -> oe_Result a = OutcomeResultEvaluating ->
     ActiveOutcome evals' = Some a) ->
  forall id a, w_claim w = Some (id, a) ->
    exists r, q_items q' !! id = Some r /\ turn_row sid r /\
      (live r = true -> ActiveOutcome evals' = Some a /\ oe_Result a = OutcomeResultEvaluating).
Proof.
  intros Hg Hinv He id a Hc. destruct (Hinv id a Hc) as (r & Hr & Ht & Hl). destruct (Hg _ _ Hr) as (r' & Hr' & Hk & Hl').
  exists r'. split; [done|]. split.
  { unfold turn_row in *. unfold live_key in Hk. injection Hk as H1 H2 H3. by rewrite H1, H2, H3. }
  intros Hlive. destruct (Hl (Hl' Hlive)) as [Ha Hev]. split; [by apply He|done].
Qed.

Lemma parseVerdict_range text : (parseVerdict text).1 ∈ [OutcomeResultSatisfied; verdictNeedsRevision; OutcomeResultFailed].
Proof.
  unfold parseVerdict. destruct (verdict_line _) as [[i v]|]; [|cbn; set_solver]. destruct (mem_string _ _) eqn:E; [|cbn; set_solver].
  by apply mem_string_spec.
Qed.

(** A step keeps the invariant, and every entry that is over where and as it was. *)
Definition finished (evals evals' : list OutcomeEvaluation) : Prop := forall i e, evals !! i = Some e -> terminal e -> evals' !! i = Some e.

Record kept (sid : string) (w w' : world) : Prop := MkKept {
  k_invariant : invariant sid w'; k_finished : finished (entries (wd w) sid) (entries (wd w') sid) }.

Section preserved.
Context (sid : string).

Lemma inv_same w tb' claim : invariant sid w -> tb_evals tb' = tb_evals (wd w) -> grows (tb_queue (wd w)) (tb_queue tb') ->
  claim = w_claim w \/ claim = None -> kept sid w (MkWorld tb' claim (w_defs w)).
Proof.
  intros [H1 H2 H3 H4] He Hg Hc. assert (Hen : entries tb' sid = entries (wd w) sid) by (unfold entries; by rewrite He).
  split; [|cbn; rewrite Hen; by intros ? ?]. split; cbn; rewrite ?Hen; auto.
  intros id a Hcl. destruct Hc as [->| ->]; [|done]. by eapply (claim_grows sid w).
Qed.

(** The active entry is moved on. *)
Lemma inv_update w tb' claim (f : OutcomeEvaluation -> OutcomeEvaluation) a : invariant sid w ->
  ActiveOutcome (entries (wd w) sid) = Some a -> entries tb' sid = map f (entries (wd w) sid) ->
  (forall e, terminal e -> oe_OutcomeID e <> oe_OutcomeID a -> f e = e) -> oe_OutcomeID (f a) = oe_OutcomeID a ->
  kept_entry (w_defs w) (f a) ->
  (forall id b, claim = Some (id, b) -> exists r, q_items (tb_queue tb') !! id = Some r /\ turn_row sid r /\ live r = false) ->
  kept sid w (MkWorld tb' claim (w_defs w)).
Proof.
  intros [H1 H2 H3 _] Ha Hen Hf Hid Hk Hcl.
  destruct (one_active_split _ _ H2 Ha) as (pre & Hpre & Ht & Hna). rewrite Hpre in Hen, H1, H3.
  rewrite (map_active pre a f H1 Ht Hf) in Hen. apply Forall_app in H3 as [H3 _].
  split; cbn [wd].
  2: { rewrite Hen, Hpre. intros i e [Hi|[Hi He]]%lookup_app_Some Hte; [by apply lookup_app_l_Some|]. destruct (i - length pre)%nat; [|done].
       injection He as <-. unfold terminal in Hte. congruence. }
  split; cbn [wd w_claim w_defs].
  - rewrite Hen, map_app. cbn. rewrite Hid. by rewrite map_app in H1.
  - rewrite Hen. destruct (OutcomeResultTerminal (oe_Result (f a))) eqn:E.
    + exists (pre ++ [f a]). split; [|by left]. by apply Forall_app; split; [|apply Forall_singleton].
    + exists pre. split; [done|]. right. eauto.
  - rewrite Hen. apply Forall_app. split; [done|]. by apply Forall_singleton.
  - intros id b Hc. destruct (Hcl id b Hc) as (r & Hr & Htr & Hl). exists r. split_and!; [done|done|]. by rewrite Hl.
Qed.

(** Every entry is over, and at most one is added. *)
Lemma kept_learned m defs evals : Forall (kept_entry m) evals -> (forall d, d ∈ defs -> do_OutcomeID d ∉ map oe_OutcomeID evals) ->
  (length defs <= 1)%nat -> Forall (kept_entry (learned m defs)) evals.
Proof.
  intros Hk Hm Hlen. destruct defs as [|d [|d2 defs]]; [done| |cbn in Hlen; lia]. cbn. apply Forall_forall. intros e He.
  rewrite Forall_forall in Hk. destruct (Hk e He) as [(d' & Hd' & ?) ?]. split; [|done]. exists d'. split; [|done].
  rewrite lookup_insert_ne; [done|]. intros E. apply (Hm d); [left|]. rewrite E. apply list_elem_of_In, in_map. by apply list_elem_of_In.
Qed.

Lemma inv_append w tb' evals defs : finished (entries (wd w) sid) evals -> NoDup (map oe_OutcomeID evals) -> Forall terminal evals -> Forall (kept_entry (w_defs w)) evals ->
  (length defs <= 1)%nat -> (forall d, d ∈ defs -> (do_OutcomeID d ∉ map oe_OutcomeID evals) /\ 1 <= do_MaxIterations d < 2 ^ 63) ->
  entries tb' sid = evals ++ map NewOutcomeEntry defs ->
  (forall id a, w_claim w = Some (id, a) -> exists r, q_items (tb_queue tb') !! id = Some r /\ turn_row sid r /\ live r = false) ->
  kept sid w (MkWorld tb' (w_claim w) (learned (w_defs w) defs)).
Proof.
  intros Hfin Hnd Ht Hk Hlen Hm Hen Hcl. split; cbn [wd].
  2: { rewrite Hen. intros i e Hi He. apply lookup_app_l_Some. by apply Hfin. }
  assert (Hkeep : Forall (kept_entry (learned (w_defs w) defs)) evals) by (apply kept_learned; [done|apply Hm|done]).
  split; cbn [wd w_claim w_defs].
  - rewrite Hen, map_app. destruct defs as [|d [|? ?]]; [by rewrite app_nil_r| |cbn in Hlen; lia]. cbn.
    apply NoDup_app. split_and!; [done| |apply NoDup_singleton]. intros x Hx ->%list_elem_of_singleton.
    by destruct (Hm d) as [Hd _]; [left|].
  - rewrite Hen. exists evals. split; [done|]. destruct defs as [|d [|? ?]]; [left; by rewrite app_nil_r| |cbn in Hlen; lia]. right. by exists (NewOutcomeEntry d).
  - rewrite Hen. apply Forall_app. split; [done|]. destruct defs as [|d [|? ?]]; [constructor| |cbn in Hlen; lia].
    apply Forall_singleton. split; [|cbn; split; [by intros [? ?]|done]]. exists d. cbn. rewrite lookup_insert_eq.
    destruct (Hm d) as [_ ?]; [left|]. split_and!; [done|lia..].
  - intros id b Hc. destruct (Hcl id b Hc) as (r & Hr & Htr & Hl). exists r. split_and!; [done|done|]. by rewrite Hl.
Qed.

(** A claim outlives its cycle only on a dead row. *)
Lemma claim_dead w q' : invariant sid w -> grows (tb_queue (wd w)) q' ->
  (evaluating (entries (wd w) sid) -> forall id r, is_Some (q_items (tb_queue (wd w)) !! id) -> q_items q' !! id = Some r ->
     turn_row sid r -> live r = false) ->
  forall id a, w_claim w = Some (id, a) -> exists r, q_items q' !! id = Some r /\ turn_row sid r /\ live r = false.
Proof.
  intros Hi Hg Hd id a Hc. destruct (inv_claim _ _ Hi id a Hc) as (r & Hr & Ht & Hl). destruct (Hg _ _ Hr) as (r' & Hr' & Hk & Hl').
  assert (Ht' : turn_row sid r') by (unfold turn_row, live_key in *; injection Hk as H1 H2 H3; by rewrite H1, H2, H3).
  exists r'. split; [done|]. split; [done|]. destruct (live r') eqn:E; [|done]. rewrite <- E. eapply (fun H => Hd H id r'); [|by eauto|done|done].
  destruct (Hl (Hl' eq_refl)) as [Ha Hr2]. by exists a.
Qed.

Lemma not_evaluating evals a : ActiveOutcome evals = Some a -> oe_Result a <> OutcomeResultEvaluating -> ~ evaluating evals.
Proof. intros Ha Hr (b & Hb & He). congruence. Qed.

Lemma active_kept w a : invariant sid w -> ActiveOutcome (entries (wd w) sid) = Some a ->
  kept_entry (w_defs w) a /\ OutcomeResultTerminal (oe_Result a) = false /\ oe_CompletedAt a = None.
Proof.
  intros Hi Ha. destruct (one_active_split _ _ (inv_one _ _ Hi) Ha) as (pre & Hpre & _ & Ht). pose proof (inv_entries _ _ Hi) as Hk.
  rewrite Hpre in Hk. apply Forall_app in Hk as [_ Hk%Forall_inv]. split; [exact Hk|]; split; [done|].
  destruct Hk as [_ Hk]. destruct (oe_CompletedAt a); [|done]. exfalso. rewrite Ht in Hk. assert (false = true) by (apply Hk; eauto). done.
Qed.

Lemma kept_result defs a res : kept_entry defs a -> OutcomeResultTerminal (oe_Result a) = OutcomeResultTerminal res ->
  kept_entry defs (with_result a res).
Proof. intros [Hd Hc] Hr. split; [exact Hd|]. cbn. by rewrite <- Hr. Qed.

Lemma entries_altered tb tb' f : is_Some (tb_evals tb !! sid) -> tb_evals tb' = alter f sid (tb_evals tb) -> entries tb' sid = f (entries tb sid).
Proof. intros [l Hl] He. unfold entries. by rewrite He, lookup_alter_eq, Hl. Qed.

Lemma active_present tb a : ActiveOutcome (entries tb sid) = Some a -> is_Some (tb_evals tb !! sid).
Proof. unfold entries. destruct (tb_evals tb !! sid); [eauto|done]. Qed.

(** The cycle's own entry is still being evaluated: nothing settled underneath. *)
Lemma not_settled w a : invariant sid w -> ActiveOutcome (entries (wd w) sid) = Some a -> oe_Result a = OutcomeResultEvaluating ->
  settled_underneath (oe_OutcomeID a) (entries (wd w) sid) = false.
Proof.
  intros Hi Ha Hr. destruct (one_active_split _ _ (inv_one _ _ Hi) Ha) as (pre & Hpre & _ & _). pose proof (inv_ids _ _ Hi) as Hnd.
  rewrite Hpre in *. rewrite map_app in Hnd. apply NoDup_app in Hnd as (_ & Hd & _).
  apply not_true_iff_false. unfold settled_underneath. rewrite existsb_exists. intros (e & [He|[<-|[]]]%in_app_iff & [Hid%String.eqb_eq Hne]%andb_true_iff).
  - apply (Hd (oe_OutcomeID e)); [by apply list_elem_of_In, in_map|]. rewrite Hid. left.
  - by rewrite Hr in Hne.
Qed.
(** The steps, one lemma each. *)
Lemma turn_preserves rd now it w wm opts head startID w1 w2 trace tb' : invariant sid w ->
  it_session it = sid -> it_kind it = ModelTurn -> item_of (tb_queue (wd w)) it ->
  settleEndTurn rd now (wd w) it wm opts head startID w1 w2 trace = Ok tb' -> kept sid w (MkWorld tb' (w_claim w) (w_defs w)).
Proof.
  intros Hi Hs Hk Hit H. destruct (settleEndTurn_work _ _ _ _ _ _ _ _ _ _ _ _ _ H Hs Hit Hk) as (Hsome & Hg & [[He Hsv]|(a & Ha & Hsv & He)]).
  - eapply inv_same; [done|done|done|by left].
  - apply to_grade_active in Ha as [Ha Hr]. destruct (active_kept w a Hi Ha) as (Hka & Ht & _).
    eapply inv_update; [done|exact Ha|by apply entries_altered| | | |apply claim_dead; [done..|]].
    + intros e _ Hid. unfold evaluating_entry. by rewrite (proj2 (String.eqb_neq _ _) Hid).
    + unfold evaluating_entry. by destruct (String.eqb _ _).
    + unfold evaluating_entry. rewrite String.eqb_refl. by apply kept_result.
    + intros Hev. exfalso. revert Hev. apply (not_evaluating _ a Ha). destruct Hr as [-> | ->]; done.
Qed.

Lemma harvest_preserves now it w rep wid tb' : invariant sid w ->
  it_session it = sid -> it_kind it = OutputsHarvest -> item_of (tb_queue (wd w)) it ->
  settleHarvest now (wd w) it rep wid = Ok tb' -> kept sid w (MkWorld tb' (w_claim w) (w_defs w)).
Proof.
  intros Hi Hs Hk Hit H. destruct (settleHarvest_work _ _ _ _ _ _ _ H Hs Hit Hk) as (He & Hg & Hsv).
  eapply inv_same; [done|done|done|by left].
Qed.

Lemma claim_preserves w id r a : invariant sid w -> q_items (tb_queue (wd w)) !! id = Some r -> turn_row sid r ->
  ActiveOutcome (entries (wd w) sid) = Some a -> oe_Result a = OutcomeResultEvaluating -> kept sid w (MkWorld (wd w) (Some (id, a)) (w_defs w)).
Proof.
  intros [H1 H2 H3 _] Hr Ht Ha Hres. split; [|by intros ? ?]. split; cbn; auto. intros id' a' [= <- <-]. exists r. auto.
Qed.

(** A held claim is the cycle of the outcome being evaluated. *)
Lemma claim_held w it a : invariant sid w -> w_claim w = Some (it_id it, a) -> is_Some (holds (tb_queue (wd w)) it) ->
  ActiveOutcome (entries (wd w) sid) = Some a /\ oe_Result a = OutcomeResultEvaluating.
Proof.
  intros Hi Hc [r Hh]. destruct (inv_claim _ _ Hi _ _ Hc) as (r' & Hr' & _ & Hl). rewrite (holds_row _ _ _ Hh) in Hr'.
  injection Hr' as <-. apply Hl. by eapply holds_live.
Qed.

Lemma settleVerdict_held rd now tb it a startID res expl usage speed wm lastCycle tb' :
  settleVerdict rd now tb it a startID res expl usage speed wm lastCycle = Ok tb' -> it_session it = sid -> is_Some (holds (tb_queue tb) it).
Proof.
  intros H Hsid. destruct (settled_underneath (oe_OutcomeID a) (entries tb sid)) eqn:E.
  - unfold settleVerdict in H. rewrite Hsid in H. unfold entries in E. destruct (tb_evals tb !! sid) as [evals|]; [|done].
    change (default [] (Some evals)) with evals in E. rewrite E in H. by eapply complete_item_held.
  - by destruct (settleVerdict_work sid _ _ _ _ _ _ _ _ _ _ _ _ _ H Hsid E) as (_ & _ & ? & _).
Qed.

Lemma next_iteration i m : 0 <= i < m -> m < 2 ^ 63 -> lastOutcomeCycle i m = false -> 0 <= wrap64 (i + 1) < m.
Proof.
  intros Hi Hm Hl. unfold lastOutcomeCycle in Hl. apply Z.leb_gt in Hl.
  assert (wrap64 (i + 1) = i + 1) as E by (unfold wrap64; rewrite Z.mod_small; lia). lia.
Qed.

(** What a verdict leaves in the cycle's own entry. *)
Lemma verdict_entry_kept now w a verdict expl res lastCycle : invariant sid w -> ActiveOutcome (entries (wd w) sid) = Some a ->
  verdict ∈ [OutcomeResultSatisfied; verdictNeedsRevision; OutcomeResultFailed] ->
  cycle_outcome (w_defs w !! oe_OutcomeID a) a verdict = (res, lastCycle) ->
  kept_entry (w_defs w) (verdict_entry now (oe_OutcomeID a) res expl a) /\
  oe_Result (verdict_entry now (oe_OutcomeID a) res expl a) <> OutcomeResultEvaluating.
Proof.
  intros Hi Ha Hv Hc. destruct (active_kept w a Hi Ha) as ([(d & Hd & Hb & Hit) _] & Ht & Hnone). rewrite Hd in Hc. cbn in Hc.
  unfold verdict_entry, is_terminal_verdict. rewrite String.eqb_refl. cbn [negb]. pose proof (next_iteration _ _ Hit (proj2 Hb)) as Hnext.
  destruct (lastOutcomeCycle (oe_Iteration a) (do_MaxIterations d)) eqn:El; injection Hc as <- <-; unfold cycle_result;
    rewrite ?andb_false_r, ?andb_true_r;
    rewrite !elem_of_cons, elem_of_nil in Hv; destruct Hv as [-> | [-> | [-> | []]]]; cbn;
    (split; [split; [exists d; split; [done|split; [done|cbn; try exact Hit; by apply Hnext]]|cbn; rewrite ?Hnone]|done]);
    (split; [done || by intros [? ?]|done || eauto]).
Qed.
Lemma verdict_preserves rd now it w a startID text verdict expl res usage speed wm lastCycle tb' : invariant sid w ->
  w_claim w = Some (it_id it, a) -> it_session it = sid -> parseVerdict text = (verdict, expl) ->
  cycle_outcome (w_defs w !! oe_OutcomeID a) a verdict = (res, lastCycle) ->
  settleVerdict rd now (wd w) it a startID res (clip_explanation expl) usage speed wm lastCycle = Ok tb' ->
  kept sid w (MkWorld tb' None (w_defs w)).
Proof.
  intros Hi Hc Hs Hv Hres H. destruct (claim_held w it a Hi Hc (settleVerdict_held _ _ _ _ _ _ _ _ _ _ _ _ _ H Hs)) as [Ha Hev].
  destruct (settleVerdict_work sid _ _ _ _ _ _ _ _ _ _ _ _ _ H Hs (not_settled w a Hi Ha Hev)) as (Hsome & Hg & _ & He).
  pose proof (parseVerdict_range text) as Hrange. rewrite Hv in Hrange.
  destruct (verdict_entry_kept now w a verdict (clip_explanation expl) res lastCycle Hi Ha Hrange Hres) as [Hk Hne].
  eapply (inv_update w _ None (verdict_entry now (oe_OutcomeID a) res (clip_explanation expl)) a Hi Ha); [by apply entries_altered| | |exact Hk|done].
  - intros e _ Hid. unfold verdict_entry. by rewrite (proj2 (String.eqb_neq _ _) Hid).
  - unfold verdict_entry. rewrite String.eqb_refl. by destruct (is_terminal_verdict _).
Qed.

Lemma error_preserves rd now it w a msg wm tb' : invariant sid w -> w_claim w = Some (it_id it, a) -> it_session it = sid ->
  settleGraderError rd now (wd w) it a msg wm = Ok tb' -> kept sid w (MkWorld tb' None (w_defs w)).
Proof.
  intros Hi Hc Hs H. destruct (settleGraderError_work sid _ _ _ _ _ _ _ _ H Hs) as (Hg & Hh & He).
  destruct (claim_held w it a Hi Hc Hh) as [Ha Hev]. destruct (active_kept w a Hi Ha) as (Hk & Ht & _).
  assert (Hfa : grader_error_entry (oe_OutcomeID a) a = with_result a OutcomeResultRunning)
    by (unfold grader_error_entry; by rewrite Hev, !String.eqb_refl).
  eapply (inv_update w _ None (grader_error_entry (oe_OutcomeID a)) a Hi Ha); [apply entries_altered; [by eapply active_present|exact He]| |by rewrite Hfa| |done].
  - intros e _ Hid. unfold grader_error_entry. by rewrite (proj2 (String.eqb_neq _ _) Hid).
  - rewrite Hfa. apply kept_result; [done|]. by rewrite Ht.
Qed.

Lemma begin_preserves w : invariant sid w -> kept sid w (MkWorld (with_evals (wd w) sid BeginOutcomeWork) (w_claim w) (w_defs w)).
Proof.
  intros Hi. destruct (tb_evals (wd w) !! sid) as [evals|] eqn:Hev.
  2: { eapply inv_same; [done| |apply grows_refl|by left]. cbn. apply map_eq. intros k. destruct (decide (k = sid)) as [->|];
       [by rewrite lookup_alter_eq, Hev|by rewrite lookup_alter_ne]. }
  destruct (existsb (fun e => String.eqb (oe_Result e) OutcomeResultPending) evals) eqn:Hp.
  2: { eapply inv_same; [done| |apply grows_refl|by left]. cbn. apply map_eq. intros k. destruct (decide (k = sid)) as [->|];
       [rewrite lookup_alter_eq, Hev; unfold BeginOutcomeWork; cbn; by rewrite Hp|by rewrite lookup_alter_ne]. }
  assert (Hen : entries (wd w) sid = evals) by (unfold entries; by rewrite Hev).
  apply existsb_exists in Hp as Hp'. destruct Hp' as (e & Hin & Hpe%String.eqb_eq).
  destruct (ActiveOutcome (entries (wd w) sid)) as [a|] eqn:Ha.
  2: { apply ActiveOutcome_none in Ha. rewrite Hen, Forall_forall in Ha. specialize (Ha e). rewrite list_elem_of_In in Ha. specialize (Ha Hin).
       unfold terminal in Ha. by rewrite Hpe in Ha. }
  assert (Hpa : oe_Result a = OutcomeResultPending).
  { destruct (one_active_split _ _ (inv_one _ _ Hi) Ha) as (pre & Hpre & Ht & _). rewrite Hen in Hpre. rewrite Hpre in Hin.
    apply in_app_iff in Hin as [Hin|[<-|[]]]; [|done]. rewrite Forall_forall in Ht. specialize (Ht e). rewrite list_elem_of_In in Ht.
    specialize (Ht Hin). unfold terminal in Ht. by rewrite Hpe in Ht. }
  destruct (active_kept w a Hi Ha) as (Hk & Ht & _).
  set (f := fun e => if String.eqb (oe_Result e) OutcomeResultPending then with_result e OutcomeResultRunning else e).
  assert (Hfa : f a = with_result a OutcomeResultRunning) by (unfold f; by rewrite Hpa).
  eapply (inv_update w _ _ f a Hi Ha); [| |by rewrite Hfa| |apply claim_dead; [done|apply grows_refl|]].
  - rewrite entries_with_evals by eauto. unfold BeginOutcomeWork. by rewrite Hen, Hp.
  - intros x Hx _. unfold f. destruct (String.eqb_spec (oe_Result x) OutcomeResultPending) as [E|]; [|done]. unfold terminal in Hx. by rewrite E in Hx.
  - rewrite Hfa. apply kept_result; [done|]. by rewrite Ht.
  - intros Hevl. exfalso. revert Hevl. apply (not_evaluating _ a Ha). by rewrite Hpa.
Qed.

Lemma validated_defs now files evals defs interrupts : ValidateDefineOutcomes now files evals defs interrupts = Ok tt ->
  (length defs <= 1)%nat /\ (interrupts = false -> defs = [] \/ ActiveOutcome evals = None).
Proof.
  unfold ValidateDefineOutcomes. destruct defs as [|d rest]; [cbn; split; [lia|auto]|]. case_bool_decide as E; [subst|done]. cbn [negb length].
  intros H. split; [lia|]. intros ->. right. by destruct (ActiveOutcome evals).
Qed.

Lemma define_preserves w now files defs : invariant sid w -> is_Some (tb_evals (wd w) !! sid) -> mintable w sid defs ->
  ValidateDefineOutcomes now files (entries (wd w) sid) defs false = Ok tt ->
  kept sid w (MkWorld (with_evals (wd w) sid (fun evals => evals ++ map NewOutcomeEntry defs)) (w_claim w) (learned (w_defs w) defs)).
Proof.
  intros Hi Hsome Hm Hv. destruct (validated_defs _ _ _ _ _ Hv) as [Hlen [->|Hnone]]; [done| |].
  - apply inv_same; [done| |apply grows_refl|by left]. cbn. destruct Hsome as [evals Hev]. apply map_eq. intros k.
    destruct (decide (k = sid)) as [->|]; [|by rewrite lookup_alter_ne]. by rewrite lookup_alter_eq, Hev; cbn; rewrite app_nil_r.
  - eapply (inv_append w _ (entries (wd w) sid)); [by intros ? ?|apply Hi|by apply ActiveOutcome_none|apply Hi|done|exact Hm| |].
    + by rewrite entries_with_evals.
    + apply claim_dead; [done|apply grows_refl|]. intros (a & Ha & _). congruence.
Qed.

Lemma flipped_kept defs now e : kept_entry defs e -> forall e', e' = (if OutcomeResultTerminal (oe_Result e) then e
  else MkOutcome (oe_Type e) (oe_OutcomeID e) (oe_Description e) InterruptedExplanation (oe_Iteration e) OutcomeResultInterrupted (Some now)) ->
  kept_entry defs e' /\ terminal e' /\ oe_OutcomeID e' = oe_OutcomeID e.
Proof.
  intros Hk e' ->. destruct (OutcomeResultTerminal (oe_Result e)) eqn:E; [done|]. destruct Hk as [Hd _].
  split; [split; [exact Hd|cbn; split; eauto; done]|done].
Qed.

Lemma interrupt_preserves w now files defs q' : invariant sid w -> is_Some (tb_evals (wd w) !! sid) -> mintable w sid defs ->
  ValidateDefineOutcomes now files (entries (wd w) sid) defs true = Ok tt -> grows (tb_queue (wd w)) q' ->
  (evaluating (entries (wd w) sid) -> forall id r, is_Some (q_items (tb_queue (wd w)) !! id) -> q_items q' !! id = Some r ->
     turn_row sid r -> live r = false) ->
  kept sid w (MkWorld (with_evals (with_queue (wd w) q') sid (fun evals => FlipNonTerminalOutcomes now evals ++ map NewOutcomeEntry defs))
                (w_claim w) (learned (w_defs w) defs)).
Proof.
  intros Hi Hsome Hm Hv Hg Hd. destruct (validated_defs _ _ _ _ _ Hv) as [Hlen _].
  pose proof (inv_entries _ _ Hi) as Hk. rewrite Forall_forall in Hk.
  assert (Hids : map oe_OutcomeID (FlipNonTerminalOutcomes now (entries (wd w) sid)) = map oe_OutcomeID (entries (wd w) sid)).
  { unfold FlipNonTerminalOutcomes. rewrite map_map. apply map_ext. intros e. by destruct (OutcomeResultTerminal _). }
  eapply (inv_append w _ (FlipNonTerminalOutcomes now (entries (wd w) sid))); rewrite ?Hids; [|apply Hi| | |done|exact Hm| |by apply claim_dead].
  - intros i e He Ht. unfold FlipNonTerminalOutcomes. rewrite list_lookup_fmap, He. cbn. unfold terminal in Ht. by rewrite Ht.
  - apply Forall_forall. intros e (e0 & He & He0)%list_elem_of_fmap. by eapply (flipped_kept (w_defs w) now e0 (Hk _ He0)).
  - apply Forall_forall. intros e (e0 & He & He0)%list_elem_of_fmap. by eapply (flipped_kept (w_defs w) now e0 (Hk _ He0)).
  - by rewrite entries_with_evals.
Qed.

Lemma step_kept w w' : invariant sid w -> step sid w w' -> kept sid w w'.
Proof.
  intros Hi Hs. destruct Hs.
  - by eapply turn_preserves.
  - by eapply harvest_preserves.
  - by eapply claim_preserves.
  - by eapply verdict_preserves.
  - by eapply error_preserves.
  - by apply begin_preserves.
  - by eapply define_preserves.
  - by eapply interrupt_preserves.
  - by apply inv_same; [done|done|done|left].
Qed.
End preserved.

(** Runs from a session with no outcome. *)
Definition reached (sid : string) (w : world) : Prop :=
  exists tb, entries tb sid = [] /\ rtc (step sid) (MkWorld tb None ∅) w.

Lemma reached_invariant sid w : reached sid w -> invariant sid w.
Proof.
  intros (tb & He & Hr). assert (H0 : invariant sid (MkWorld tb None ∅)).
  { split; cbn; rewrite ?He; [constructor|exists []; auto|constructor|done]. }
  revert H0. induction Hr as [w|w1 w2 w3 Hs _ IH]; [done|]. intros Hi. apply IH. by eapply step_kept.
Qed.

(** An active entry moved off evaluation leaves nothing being evaluated. *)
Lemma moved_off sid w a f evals' : invariant sid w -> ActiveOutcome (entries (wd w) sid) = Some a ->
  evals' = map f (entries (wd w) sid) -> (forall e, terminal e -> oe_OutcomeID e <> oe_OutcomeID a -> f e = e) ->
  oe_Result (f a) <> OutcomeResultEvaluating -> ~ evaluating evals'.
Proof.
  intros Hi Ha -> Hf Hne (b & Hb & Hev). destruct (one_active_split _ _ (inv_one _ _ Hi) Ha) as (pre & Hpre & Ht & _).
  pose proof (inv_ids _ _ Hi) as Hnd. rewrite Hpre in Hb, Hnd. rewrite (map_active pre a f Hnd Ht Hf), ActiveOutcome_app in Hb by done.
  unfold ActiveOutcome in Hb. cbn in Hb. destruct (negb _); [|done]. by injection Hb as <-.
Qed.

Lemma verdict_ends sid w rd now it a startID text verdict expl res usage speed wm lastCycle tb' : invariant sid w ->
  w_claim w = Some (it_id it, a) -> it_session it = sid -> parseVerdict text = (verdict, expl) ->
  cycle_outcome (w_defs w !! oe_OutcomeID a) a verdict = (res, lastCycle) ->
  settleVerdict rd now (wd w) it a startID res (clip_explanation expl) usage speed wm lastCycle = Ok tb' ->
  evaluating (entries (wd w) sid) /\ ~ evaluating (entries tb' sid).
Proof.
  intros Hi Hc Hs Hv Hres H. destruct (claim_held sid w it a Hi Hc (settleVerdict_held sid _ _ _ _ _ _ _ _ _ _ _ _ _ H Hs)) as [Ha Hev].
  split; [by exists a|]. destruct (settleVerdict_work sid _ _ _ _ _ _ _ _ _ _ _ _ _ H Hs (not_settled sid w a Hi Ha Hev)) as (Hsome & _ & _ & He).
  pose proof (parseVerdict_range text) as Hrange. rewrite Hv in Hrange.
  destruct (verdict_entry_kept sid now w a verdict (clip_explanation expl) res lastCycle Hi Ha Hrange Hres) as [_ Hne].
  eapply (moved_off sid w a _ _ Hi Ha); [by apply entries_altered| |exact Hne].
  intros e _ Hid. unfold verdict_entry. by rewrite (proj2 (String.eqb_neq _ _) Hid).
Qed.

Lemma error_ends sid w rd now it a msg wm tb' : invariant sid w -> w_claim w = Some (it_id it, a) -> it_session it = sid ->
  settleGraderError rd now (wd w) it a msg wm = Ok tb' -> evaluating (entries (wd w) sid) /\ ~ evaluating (entries tb' sid).
Proof.
  intros Hi Hc Hs H. destruct (settleGraderError_work sid _ _ _ _ _ _ _ _ H Hs) as (_ & Hh & He).
  destruct (claim_held sid w it a Hi Hc Hh) as [Ha Hev]. split; [by exists a|].
  eapply (moved_off sid w a _ _ Hi Ha); [apply entries_altered; [by eapply active_present|exact He]| |].
  - intros e _ Hid. unfold grader_error_entry. by rewrite (proj2 (String.eqb_neq _ _) Hid).
  - unfold grader_error_entry. by rewrite Hev, !String.eqb_refl.
Qed.

(** C3: A grading cycle is handed on, settlement by settlement. A turn of the session that ends with the outcome
    newly being evaluated leaves a live work item that will evaluate it (a turn of the primary thread, or the
    outputs harvest that enqueues one), and a subagent's turn never drops the one there was; a harvest that
    settles while an outcome is being evaluated leaves one, whatever was queued before; and the cycle a turn was
    claimed for takes the outcome out of evaluation, whether it settles with a verdict or with the grader's
    failure. (Nothing is said of a claim that
    fails before it is seen to be a cycle's, on a session whose stored agent or outcomes do not read: the turn is
    then failed and its item completed, with the outcome still being evaluated.) *)
Theorem cycle_handed_on sid w it tb' : reached sid w -> it_session it = sid ->
  (forall rd now wm opts head startID w1 w2 trace, item_of (tb_queue (wd w)) it -> it_kind it = ModelTurn ->
     settleEndTurn rd now (wd w) it wm opts head startID w1 w2 trace = Ok tb' ->
     (evaluating (entries tb' sid) -> ~ evaluating (entries (wd w) sid) -> served (tb_queue tb') sid) /\
     (it_thread it <> EmptyString -> served (tb_queue (wd w)) sid -> served (tb_queue tb') sid)) /\
  (forall now rep wid, item_of (tb_queue (wd w)) it -> it_kind it = OutputsHarvest ->
     settleHarvest now (wd w) it rep wid = Ok tb' -> evaluating (entries tb' sid) -> served (tb_queue tb') sid) /\
  (forall rd now a startID text verdict expl res usage speed wm lastCycle, w_claim w = Some (it_id it, a) ->
     parseVerdict text = (verdict, expl) -> cycle_outcome (w_defs w !! oe_OutcomeID a) a verdict = (res, lastCycle) ->
     settleVerdict rd now (wd w) it a startID res (clip_explanation expl) usage speed wm lastCycle = Ok tb' ->
     evaluating (entries (wd w) sid) /\ ~ evaluating (entries tb' sid)) /\
  (forall rd now a msg wm, w_claim w = Some (it_id it, a) ->
     settleGraderError rd now (wd w) it a msg wm = Ok tb' -> evaluating (entries (wd w) sid) /\ ~ evaluating (entries tb' sid)).
Proof.
  intros Hi%reached_invariant Hs. split_and!.
  - intros * Hit Hk H. destruct (settleEndTurn_work sid _ _ _ _ _ _ _ _ _ _ _ _ H Hs Hit Hk) as (_ & _ & [[He Hsv]|(a & _ & Hsv & _)]); [|done].
    split; [|exact Hsv]. unfold entries. rewrite He. by intros ? [].
  - intros * Hit Hk H (a & Ha & Hr). destruct (settleHarvest_work sid _ _ _ _ _ _ H Hs Hit Hk) as (He & _ & Hsv).
    apply (Hsv a); [|done]. unfold entries in *. by rewrite <- He.
  - intros * Hc Hv Hres H. by eapply verdict_ends.
  - intros * Hc H. by eapply error_ends.
Qed.

(** C17: At every point of a session's run at most one outcome is active and it is the last one defined, the ids
    are distinct, each entry's iteration stays below its definition's [max_iterations], and an entry carries a
    completion time exactly when its result is terminal. *)
Theorem outcome_budget sid w : reached sid w ->
  NoDup (map oe_OutcomeID (entries (wd w) sid)) /\ one_active (entries (wd w) sid) /\
  forall e, e ∈ entries (wd w) sid ->
    (exists d, w_defs w !! oe_OutcomeID e = Some d /\ (0 <= oe_Iteration e < do_MaxIterations d)) /\
    (is_Some (oe_CompletedAt e) <-> OutcomeResultTerminal (oe_Result e) = true).
Proof.
  intros Hi%reached_invariant. split; [apply Hi|]. split; [apply Hi|]. pose proof (inv_entries _ _ Hi) as Hk.
  rewrite Forall_forall in Hk. intros e He. destruct (Hk e He) as [(d & ? & _ & ?) ?]. eauto.
Qed.

(** A terminal result is final: no later turn, verdict, failure, interrupt or send of the session moves the
    entry, changes its result or its explanation, or removes it. *)
Theorem terminal_is_final sid w w' i e : reached sid w -> rtc (step sid) w w' -> entries (wd w) sid !! i = Some e ->
  OutcomeResultTerminal (oe_Result e) = true -> entries (wd w') sid !! i = Some e.
Proof.
  intros Hi%reached_invariant Hr. induction Hr as [w|w1 w2 w3 Hs _ IH]; [done|]. destruct (step_kept sid _ _ Hi Hs) as [Hi2 Hf].
  intros He Ht. apply IH; [done|by apply Hf|done].
Qed.

(** ** Witnesses *)

Definition g_rd : readings := MkReadings (fun z => z) 0 0 (fun _ => 0) (fun _ => "sevt_new").

Definition g_turn : row :=
  MkRow "env_1" "sesn_1" None ModelTurn active (Some 100) ∅ None 0 None (Some 0) None None None 0.

Definition g_item : Item := MkItem "work_1" "env_1" "sesn_1" EmptyString ModelTurn 100 false 0 false None.

Definition g_tables : tables := MkTables
  (MkLdb [] {["sesn_1" := MkSrow None (Some "agent") (MkUsage 0 0 0 (MkCache 0 0)) 0 None 0 "running" []]} ∅ [])
  (MkS {[ PrimaryThreadID "sesn_1" := MkThread "sesn_1" SessionRunning None true "helper" None 0 ]} {[ "sesn_1" := SessionRunning ]} ∅)
  ∅ {["sesn_1" := []]}
  (MkQ {["env_1" := cloud]} {["work_1" := g_turn]} ∅).

Definition g_define : DefineOutcome := MkDefine "outc_1" "Write the report" 2 "text" "Be brief" EmptyString.

Definition g_w0 : world := MkWorld g_tables None ∅.
Definition g_w1 : world := MkWorld (with_evals (wd g_w0) "sesn_1" (fun evals => evals ++ map NewOutcomeEntry [g_define])) None
  (learned ∅ [g_define]).
Definition g_w2 : world := MkWorld (with_evals (wd g_w1) "sesn_1" BeginOutcomeWork) None (w_defs g_w1).
Definition g_w3 : world := MkWorld
  (match settleEndTurn g_rd 50 (wd g_w2) g_item 0 no_options [] "sevt_start" "work_2" "work_3" None with
   | Ok tb => tb | Err _ => wd g_w2 end) None (w_defs g_w2).
Definition g_w4 : world := MkWorld
  (with_evals (with_queue (wd g_w2) (tb_queue (wd g_w2))) "sesn_1" (fun evals => FlipNonTerminalOutcomes 60 evals ++ map NewOutcomeEntry [])) None
  (learned (w_defs g_w2) []).

Lemma g_reached_w2 : reached "sesn_1" g_w2.
Proof.
  exists g_tables. split; [vm_compute; reflexivity|]. eapply rtc_l; [|eapply rtc_l; [|apply rtc_refl]].
  - apply (step_define "sesn_1" g_w0 0 ∅ [g_define]); [vm_compute; eauto| |vm_compute; reflexivity].
    intros d ->%list_elem_of_singleton. split; [apply (bool_decide_unpack _); vm_compute; exact I|cbn; lia].
  - apply (step_begin "sesn_1" g_w1).
Qed.

Lemma g_reached_w3 : reached "sesn_1" g_w3.
Proof.
  destruct g_reached_w2 as (tb & He & Hr). exists tb. split; [done|]. eapply rtc_r; [exact Hr|].
  apply (step_turn "sesn_1" g_w2 g_rd 50 g_item 0 no_options [] "sevt_start" "work_2" "work_3" None); [done|done| |vm_compute; reflexivity].
  exists g_turn. by vm_compute.
Qed.

(** The session's turn is queued again and claimed for the cycle. *)
Definition g_again_item : Item := MkItem "work_9" "env_1" "sesn_1" EmptyString ModelTurn 100 false 0 false None.
Definition g_again_q : qdb := let q := tb_queue (wd g_w3) in MkQ (q_envs q) (<["work_9" := g_turn]> (q_items q)) (q_polls q).
Definition g_cycle : OutcomeEvaluation := with_result (NewOutcomeEntry g_define) OutcomeResultEvaluating.
Definition g_claimed : world := MkWorld (with_queue (wd g_w3) g_again_q) (Some ("work_9", g_cycle)) (w_defs g_w3).
Definition g_graded : tables :=
  match settleVerdict g_rd 70 (wd g_claimed) g_again_item g_cycle "sevt_start" "satisfied" (clip_explanation EmptyString)
    (MkModelUsage 0 0 1 1) None 0 false with Ok tb => tb | Err _ => wd g_claimed end.

Lemma g_reached_claimed : reached "sesn_1" g_claimed.
Proof.
  destruct g_reached_w3 as (tb & He & Hr). exists tb. split; [done|]. eapply rtc_r; [eapply rtc_r; [exact Hr|]|].
  - apply (step_queue "sesn_1" g_w3 g_again_q). intros id r Hid. destruct (decide (id = "work_9")) as [->|N].
    + by replace (q_items (tb_queue (wd (g_w3))) !! "work_9") with (@None row) in Hid by (vm_compute; reflexivity).
    + exists r. refine (conj _ (conj eq_refl (fun H => H))). unfold g_again_q. cbn [q_items]. rewrite lookup_insert_ne; [exact Hid|congruence].
  - apply (step_claim "sesn_1" (MkWorld (with_queue (wd g_w3) g_again_q) None (w_defs g_w3)) "work_9" g_turn g_cycle);
      [apply (lookup_insert_eq (q_items (tb_queue (wd g_w3))))|done|vm_compute; reflexivity|reflexivity].
Qed.

Lemma cycle_handed_on_witness : evaluating (entries (wd g_w3) "sesn_1") /\ served (tb_queue (wd g_w3)) "sesn_1" /\
  evaluating (entries (wd g_claimed) "sesn_1") /\ ~ evaluating (entries g_graded "sesn_1").
Proof.
  assert (H : evaluating (entries (wd g_w3) "sesn_1")) by (exists g_cycle; split; vm_compute; reflexivity).
  split; [exact H|]. split.
  - destruct (cycle_handed_on "sesn_1" g_w2 g_item (wd g_w3) g_reached_w2 eq_refl) as [Hturn _].
    refine (proj1 (Hturn g_rd 50 0 no_options [] "sevt_start" "work_2" "work_3" None _ eq_refl _) H _).
    + exists g_turn. by vm_compute.
    + vm_compute. reflexivity.
    + intros (a & Ha & Hres). vm_compute in Ha. injection Ha as <-. discriminate Hres.
  - destruct (cycle_handed_on "sesn_1" g_claimed g_again_item g_graded g_reached_claimed eq_refl) as (_ & _ & Hverdict & _).
    apply (Hverdict g_rd 70 g_cycle "sevt_start" "VERDICT: satisfied" "satisfied" EmptyString "satisfied" (MkModelUsage 0 0 1 1) None 0 false);
      vm_compute; reflexivity.
Defined.

Lemma outcome_budget_witness : one_active (entries (wd g_w3) "sesn_1").
Proof. exact (proj1 (proj2 (outcome_budget "sesn_1" g_w3 g_reached_w3))). Defined.

Definition g_done : OutcomeEvaluation :=
  MkOutcome "outcome_evaluation" "outc_1" "Write the report" InterruptedExplanation 0 OutcomeResultInterrupted (Some 60).

Definition g_again : DefineOutcome := MkDefine "outc_2" "Write it again" 1 "text" "Be brief" EmptyString.
Definition g_w5 : world := MkWorld (with_evals (wd g_w4) "sesn_1" (fun evals => evals ++ map NewOutcomeEntry [g_again])) None
  (learned (w_defs g_w4) [g_again]).

Lemma g_reached_w4 : reached "sesn_1" g_w4.
Proof.
  destruct g_reached_w2 as (tb & He & Hr). exists tb. split; [exact He|]. eapply rtc_r; [exact Hr|].
  apply (step_interrupt "sesn_1" g_w2 60 ∅ [] (tb_queue (wd g_w2))); [vm_compute; eauto|inversion 1|reflexivity|apply grows_refl|].
  intros (a & Ha & Hres). vm_compute in Ha. injection Ha as <-. discriminate Hres.
Qed.

Lemma terminal_is_final_witness : entries (wd g_w5) "sesn_1" !! O = Some g_done.
Proof.
  apply (terminal_is_final "sesn_1" g_w4 g_w5 O); [exact g_reached_w4| |vm_compute; reflexivity|vm_compute; reflexivity].
  apply rtc_once. apply (step_define "sesn_1" g_w4 0 ∅ [g_again]); [vm_compute; eauto| |vm_compute; reflexivity].
  intros d ->%list_elem_of_singleton. split; [apply (bool_decide_unpack _); vm_compute; exact I|cbn; lia].
Defined.
