(* ===== verification/Send.v ===== *)
(** * Send: what a send does behind its admission (internal/api/events.go, threadstate.go)

    The arms of [sendSessionEvents] over the session's threads — an interrupt, a settlement
    of posted answers, a wake — each moving the threads under the session's row lock, and
    the transaction's own work after the append: cancels, settlements and enqueues.  And the
    interrupt from outside a request ([interruptSessionInTx]).  The state is the tables of
    [Grading], the failed MCP catalogs and the dreams that own sessions; the front half is [Intake]'s, the written order
    [SendLayout]'s.

    Ids the code mints and its clocks are arguments; the rubric's snapshot (a blob copy),
    the approval-wait readings and the other metrics, and the echoed response are left out. *)
From Stdlib Require Import Lia.
From S2P Require Import Prelude GoStrings Ids Queue Status Json Domain Consumption Log ToolQuery ToolFlow ToolSettle Outcomes Replay Threadmsg Grading Inbound Intake SendLayout.

(** A row of [mcp_catalogs]: its session, its server and its status. *)
Record catalog := MkCatalog { mc_session : string; mc_server : string; mc_status : string }.

(** A row of [dreams], to the guard: its session, and when nothing was left of it to do. *)
Record dream := MkDream { dr_id : string; dr_session : option string; dr_closed : option Z }.

Record api_db := MkApi { db_tables : tables; db_catalogs : list catalog; db_files : gmap string file_row; db_dreams : list dream }.

Definition with_tables (d : api_db) (tb : tables) : api_db := MkApi tb (db_catalogs d) (db_files d) (db_dreams d).

Definition with_log (tb : tables) (db : ldb) : tables :=
  MkTables db (tb_threads tb) (tb_parent tb) (tb_evals tb) (tb_queue tb).

Inductive send_error :=
| SendIntake (e : intake_error) | SendFlow (e : flow_error) | SendSettle (e : settle_error) | SendOutcome (e : outcome_refusal)
| SendNoSession | SendArchived (sid : string) | SendDreamOwned (dreamID : string)
| SendPlanDisagrees (tid : string) (settled planned : ToolFlow).

Definition lift_flow {A} (r : result flow_error A) : result send_error A :=
  match r with Ok x => Ok x | Err e => Err (SendFlow e) end.
Definition lift_settle {A} (r : result settle_error A) : result send_error A :=
  match r with Ok x => Ok x | Err e => Err (SendSettle e) end.

(** [WHERE session_id = $1 AND closed_at IS NULL] *)
Definition owns (sid : string) (r : dream) : bool := bool_decide (dr_session r = Some sid) && bool_decide (dr_closed r = None).

(** A public mutation of the session a live dream owns is refused. *)
Definition requireNotDreamOwned (d : api_db) (sid : string) : result send_error unit :=
  match List.find (owns sid) (db_dreams d) with
  | Some r => Err (SendDreamOwned (dr_id r))
  | None => Ok tt
  end.

(** The rows of [session_threads] as the front half reads them. *)
Definition trow_of (parent : gmap string string) (kv : string * thread_row) : trow :=
  MkTrow kv.1 (t_session kv.2) (parent !! kv.1) (status_text (t_status kv.2)) (t_agent kv.2) (t_archived kv.2) (t_created kv.2).

Definition thread_rows (tb : tables) : list trow := map (trow_of (tb_parent tb)) (map_to_list (s_threads (tb_threads tb))).

Definition session_status (tb : tables) (sid : string) : string :=
  match Status.s_status (tb_threads tb) !! sid with Some st => status_text st | None => EmptyString end.

(** ** An interrupted thread *)

(** What the arm leaves its caller to place, record and schedule. *)
Record interrupt_out := MkInterrupt {
  ir_out : interruptThreadOut;
  ir_moves : list SessionStatus;
  ir_cancelSession : bool; ir_cancelThread : bool; ir_wakeParent : bool; ir_resumed : bool; ir_flip : bool }.

Definition interrupted_notice (agentName : string) : string :=
  "[agent " +:+ agentName +:+ " was interrupted]" +:+ new_line +:+ new_line +:+
  "It stopped mid-turn and will not report. Send it new instructions, or archive it to free the slot.".

(** A thread at one of the two statuses an interrupt settles. *)
Definition interruptible (status : string) : bool := String.eqb status "idle" || String.eqb status "running".

Section send.
Context (platformExecuted isWebTool isDelegationTool : string -> bool) (kind : string) (env : string).
(** The clock at each thread's arm, and once the arms have run. *)
Context (arm_now : string -> Z) (stamp_now : Z).

(** The notice of a child stopped mid-turn, to a coordinator that is still there. *)
Definition interrupt_told (tb : tables) (sid : string) (th : threadState) (all primaryInterrupted : bool)
  : result send_error (option Delivery * tables) :=
  if negb (String.eqb (ts_id th) EmptyString) && negb all && negb primaryInterrupted then
    try '(d, tb) <- lift_settle (deliver_ended tb sid (ts_id th)
      (ThreadEnded sid (ts_id th) (ts_agentName th) (interrupted_notice (ts_agentName th))));
    Ok (Some d, tb)
  else Ok (None, tb).

(** The calls answered, the coordinator told, the thread idle. *)
Definition interrupt_settles (tb : tables) (sid : string) (th : threadState) (abandoned : list ToolUseRef) (all primaryInterrupted : bool)
  : result send_error (list NewEvent * option Delivery * list NewEvent * list SessionStatus * tables) :=
  try results <- lift_flow (InterruptResults (arm_now (ts_id th)) abandoned);
  let tb := match results with
            | [] => tb
            | _ => with_log tb (StampSupersededAnswers (tb_log tb) sid abandoned (arm_now (ts_id th)))
            end in
  try '(told, tb) <- interrupt_told tb sid th all primaryInterrupted;
  try '(idled, moved, tb) <- lift_settle (transition tb sid
    (MkTransition (ts_id th) SessionIdle (Some (MkStop StopEndTurn [])) true false));
  Ok (results, told, idled, option_list (told ≫= dl_Moved) ++ option_list moved, tb).

Definition told_of_delivery (d : Delivery) : told_of := MkTold (dl_Received d) (dl_Wake d).

Definition interruptThreadInTx (tb : tables) (sid : string) (th : threadState) (answered : list string)
    (all primaryInterrupted resume : bool) : result send_error (interrupt_out * tables) :=
  let tid := ts_id th in
  let isPrimary := String.eqb tid EmptyString in
  let abandoned := UnansweredThreadToolUses (tb_log tb) sid tid answered in
  let can := interruptible (ts_status th) in
  try flow <- lift_flow (ThreadToolFlow (tb_log tb) sid tid kind platformExecuted);
  let settling := can && (String.eqb (ts_status th) "running" || Unsettled flow) in
  try '(results, told, idled, moves, tb) <- (if settling then interrupt_settles tb sid th abandoned all primaryInterrupted
                                             else Ok ([], None, [], [], tb));
  let wakeParent := match told with Some d => Woke d | None => false end in
  if negb isPrimary then
    Ok (MkInterrupt (MkOut results idled (told_of_delivery <$> told) []) moves (settling && all) (settling && negb all) wakeParent false false, tb)
  else
    let '(ends, flip) := if can then InterruptOutcomes (tb_log tb) sid (default [] (tb_evals tb !! sid)) else ([], false) in
    try '(resumed, moved, tb) <- (if resume && can
      then lift_settle (transition tb sid (MkTransition EmptyString SessionRunning None false false)) else Ok ([], None, tb));
    Ok (MkInterrupt (MkOut (results ++ ends) idled (told_of_delivery <$> told) resumed) (moves ++ option_list moved)
          (settling && all) (settling && negb all) wakeParent (resume && can) flip, tb).

(** ** The arms of a send *)

Inductive cancel := CancelAll | CancelOf (tid : string).

(** The work the append's transaction runs behind it, in order. *)
Inductive then_ :=
| ThenAdvance (tid : string)                  (* an interrupted thread's answers, processed *)
| ThenSettle (tid : string) (flow : ToolFlow) (* a settled thread's, and what they release *)
| ThenTurn (tid : string)
| ThenWorkCycle                               (* a new cycle: failed MCP catalogs are dialled again *)
| ThenStamp (ids : list string).

Record arms := MkArms {
  am_db : tables; am_layout : sendLayout; am_moves : list SessionStatus; am_cancels : list cancel; am_thens : list then_; am_flip : bool }.

(** What a send asks of a thread's arm. *)
Record request := MkReq {
  rq_events : list NewEvent; rq_scoped : list bool; rq_reach : reach; rq_primary : bool; rq_resume : bool;
  rq_flow : ToolFlow; rq_settling : gmap string (ToolFlow * nat) }.

Definition interrupt_arm (sid : string) (q : request) (th : threadState) (a : arms) : result send_error arms :=
  let tid := ts_id th in
  let i := Z.to_nat (interruptAt (rq_events q) (rq_scoped q) tid) in
  let answered := ToolResultRefs (rq_events q) ++ DeniedRefs (take i (rq_events q)) in
  try '(out, tb) <- interruptThreadInTx (am_db a) sid th answered (re_all (rq_reach q)) (rq_primary q) (rq_resume q);
  let l := interrupted (am_layout a) i (ir_out out) in
  try plan <- lift_flow (Interrupted (tb_log tb) sid tid (rq_events q) (io_settled (ir_out out)) (sl_answers l));
  Ok (MkArms tb (with_answers l plan) (am_moves a ++ ir_moves out)
        (am_cancels a ++ (if ir_cancelSession out && bool_decide (am_cancels a = []) then [CancelAll] else []) ++
                         (if ir_cancelThread out then [CancelOf tid] else []))
        (am_thens a ++ [ThenAdvance tid] ++ (if ir_wakeParent out then [ThenTurn EmptyString] else []) ++
                       (if ir_resumed out then [ThenWorkCycle] else []))
        (am_flip a || ir_flip out)).

Definition settle_arm (sid : string) (th : threadState) (flow : ToolFlow) (at_ : nat) (a : arms) : result send_error arms :=
  let tid := ts_id th in
  try _ <- lift_flow (PendingThreadApprovals (tb_log (am_db a)) sid tid);
  try t <- lift_flow (SettleTransition (tb_threads (am_db a)) sid tid flow);
  try '(tb, l, moved) <- (match t with
    | None => Ok (am_db a, am_layout a, None)
    | Some t =>
        try '(evs, moved, tb) <- lift_settle (transition (am_db a) sid t);
        Ok (tb, if bool_decide (tr_status t = SessionRunning) then resumed (am_layout a) tid evs else reidled (am_layout a) at_ evs, moved)
    end);
  Ok (MkArms tb l (am_moves a ++ option_list moved) (am_cancels a) (am_thens a ++ [ThenSettle tid flow]) (am_flip a)).

Definition wake_arm (sid : string) (a : arms) : result send_error arms :=
  try '(evs, moved, tb) <- lift_settle (transition (am_db a) sid (MkTransition EmptyString SessionRunning None false false));
  Ok (MkArms tb (woke (am_layout a) EmptyString evs) (am_moves a ++ option_list moved) (am_cancels a) (am_thens a ++ [ThenWorkCycle]) (am_flip a)).

(** The switch over one thread. *)
Definition run_arm (sid : string) (q : request) (th : threadState) (a : arms) : result send_error arms :=
  if ad_interrupt (at_ (re_addr (rq_reach q)) (ts_id th)) then interrupt_arm sid q th a
  else match rq_settling q !! ts_id th with
       | Some (flow, i) => settle_arm sid th flow i a
       | None =>
           if String.eqb (ts_id th) EmptyString && rq_resume q && String.eqb (ts_status th) "idle" && negb (Unsettled (rq_flow q))
           then wake_arm sid a else Ok a
       end.

Fixpoint run_arms (sid : string) (q : request) (threads : list threadState) (a : arms) : result send_error arms :=
  match threads with
  | [] => Ok a
  | th :: threads' => try a <- run_arm sid q th a; run_arms sid q threads' a
  end.

(** The threads a send's answers settle, each walked ahead as the settlement will. *)
Definition settles (r : reach) (th : threadState) : bool :=
  let a := at_ (re_addr r) (ts_id th) in
  negb (ad_interrupt a) && (ad_confirmation a || ad_toolResult a) && interruptible (ts_status th).

Fixpoint plan_settlements (db : ldb) (sid : string) (evs : list NewEvent) (r : reach) (threads : list threadState) (l : sendLayout)
    (m : gmap string (ToolFlow * nat)) : result send_error (sendLayout * gmap string (ToolFlow * nat)) :=
  match threads with
  | [] => Ok (l, m)
  | th :: threads' =>
      if settles r th then
        try '(plan, flow) <- lift_flow (ToolFlow.Settle db sid (ts_id th) kind evs platformExecuted (sl_answers l));
        let l := with_answers l plan in
        plan_settlements db sid evs r threads' l (<[ts_id th := (flow, settledAt l (ts_id th))]> m)
      else plan_settlements db sid evs r threads' l m
  end.

(** [armOrder] *)
Definition armOrder (q : request) (th : threadState) : Z :=
  if ad_interrupt (at_ (re_addr (rq_reach q)) (ts_id th)) then interruptAt (rq_events q) (rq_scoped q) (ts_id th)
  else match rq_settling q !! ts_id th with
       | Some (_, i) => Z.of_nat i
       | None => if String.eqb (ts_id th) EmptyString then -1 else Z.of_nat (length (rq_events q))
       end.

Definition arm_le (q : request) (a b : threadState) : Prop := armOrder q a <= armOrder q b.

#[export] Instance arm_le_dec q : RelDecision (arm_le q).
Proof. intros a b. unfold arm_le. apply _. Defined.

(** ** The work behind the append *)

Context (rd : readings) (now : Z) (mint : nat -> string) (trace : option string).

(** [execKinds]: nothing for a session with nothing runnable. *)
Definition exec_kind (c : ExecClass) : option Queue.Kind :=
  match c with ExecMCP => Some MCPExec | ExecWeb => Some WebExec | ExecTool => Some ToolExec | ExecNone => None end.

Definition execKindFor (db : ldb) (sid : string) : option Queue.Kind :=
  exec_kind (RunnableExecClass db sid kind [] [] isWebTool isDelegationTool).

Definition enqueue_thread (tb : tables) (wid sid tid : string) (k : Queue.Kind) : result send_error tables :=
  match EnqueueThread now (tb_queue tb) wid env sid tid k trace with
  | Ok (_, q) => Ok (with_queue tb q)
  | Err e => Err (SendSettle (SettleQueue e))
  end.

(** Item ids are minted per entry of the list; a settlement may take two. *)
Definition run_then (sid : string) (i : nat) (t : then_) (d : api_db) : result send_error api_db :=
  let tb := db_tables d in
  match t with
  | ThenAdvance tid =>
      try '(db, _) <- lift_flow (AdvanceThreadTools rd (tb_log tb) sid tid kind platformExecuted);
      Ok (with_tables d (with_log tb db))
  | ThenSettle tid planned =>
      try '(db, flow) <- lift_flow (AdvanceThreadTools rd (tb_log tb) sid tid kind platformExecuted);
      if negb (Flow_Equal flow planned) then Err (SendPlanDisagrees tid flow planned)
      else
        let tb := with_log tb db in
        try tb <- (match execKindFor db sid with
                   | Some k => enqueue_thread tb (mint (2 * i)) sid EmptyString k
                   | None => Ok tb
                   end);
        if negb (Unsettled flow) then try tb <- enqueue_thread tb (mint (2 * i + 1)) sid tid ModelTurn; Ok (with_tables d tb)
        else Ok (with_tables d tb)
  | ThenTurn tid => try tb <- enqueue_thread tb (mint (2 * i)) sid tid ModelTurn; Ok (with_tables d tb)
  | ThenWorkCycle =>
      try tb <- enqueue_thread tb (mint (2 * i)) sid EmptyString ModelTurn;
      Ok (MkApi tb (filter (fun c => String.eqb (mc_session c) sid && String.eqb (mc_status c) "failed" = false) (db_catalogs d)) (db_files d) (db_dreams d))
  | ThenStamp ids => Ok (with_tables d (with_log tb (StampConfirmations rd (tb_log tb) sid ids)))
  end.

Fixpoint run_thens (sid : string) (i : nat) (ts : list then_) (d : api_db) : result send_error api_db :=
  match ts with
  | [] => Ok d
  | t :: ts' => try d <- run_then sid i t d; run_thens sid (S i) ts' d
  end.

Definition run_cancel (sid : string) (tb : tables) (c : cancel) : tables :=
  with_queue tb (match c with
                 | CancelAll => CancelSession now (tb_queue tb) sid
                 | CancelOf tid => CancelThread now (tb_queue tb) sid tid
                 end).

(** [MutateOutcomes]: an interrupt's flip, then the accepted definitions. *)
Definition mutate_outcomes (flip : bool) (defs : list DefineOutcome) (evals : list OutcomeEvaluation) : list OutcomeEvaluation :=
  (if flip then FlipNonTerminalOutcomes stamp_now evals else evals) ++ map NewOutcomeEntry defs.

(** What one transaction of a send, or of an interrupt, commits: the rows, the outcomes,
    the cancels, the work behind them.  [SetStatus] is the last move. *)
Definition commit_send (sid : string) (d : api_db) (tb : tables) (batch : list NewEvent) (moves : list SessionStatus)
    (flip : bool) (defs : list DefineOutcome) (cancels : list cancel) (thens : list then_) : result send_error (list erow * api_db) :=
  match AppendInTx rd (tb_log tb) sid batch (with_status no_options (last moves)) with
  | Err e => Err (SendSettle (SettleAppend e))
  | Ok (rows, db) =>
      let tb := with_evals (with_log tb db) sid (mutate_outcomes flip defs) in
      let tb := foldl (run_cancel sid) tb cancels in
      try d <- run_thens sid 0 thens (with_tables d tb);
      Ok (rows, d)
  end.

(** ** The answers' stamps *)

(** An answer this commit processed takes a stamp inside its slot: at least the last one
    ahead of it that is no answer's, at most the first behind it. *)
Definition slot_floor (rows : list erow) (is_answer : erow -> bool) (e : erow) : option Z :=
  foldl (fun m r => if (e_seq r <? e_seq e) && negb (is_answer r)
                    then match e_processed r, m with Some p, Some m => Some (Z.max m p) | Some p, None => Some p | None, m => m end
                    else m) None rows.

Definition slot_ceiling (rows : list erow) (e : erow) : option Z :=
  foldl (fun m r => if e_seq e <? e_seq r
                    then match e_processed r, m with Some p, Some m => Some (Z.min m p) | Some p, None => Some p | None, m => m end
                    else m) None rows.

(** [LEAST(GREATEST(p, floor), ceiling)], which skip NULLs. *)
Definition clamp (p : Z) (floor ceiling : option Z) : Z :=
  let p := match floor with Some f => Z.max p f | None => p end in
  match ceiling with Some c => Z.min p c | None => p end.

Definition clamp_row (rows : list erow) (is_answer : erow -> bool) (e : erow) : erow :=
  match e_processed e with
  | Some p =>
      if is_answer e
      then MkErow (e_id e) (e_session e) (e_seq e) (e_type e) (e_payload e)
             (Some (clamp p (slot_floor rows is_answer e) (slot_ceiling rows e))) (e_created e) (e_thread e) (e_cross e)
      else e
  | None => e
  end.

Definition clamp_answers (db : ldb) (sid : string) (first : Z) (ids : list string) : ldb :=
  let slot := filter (fun e => String.eqb (e_session e) sid && (first <=? e_seq e) = true) (l_events db) in
  let is_answer e := mem_string (e_id e) ids in
  with_events db (map (fun e => if String.eqb (e_session e) sid && (first <=? e_seq e) then clamp_row slot is_answer e else e) (l_events db)).

(** ** The send *)

(** The batch once its ids are minted. *)
Definition with_ids (ids : nat -> string) (evs : list NewEvent) : list NewEvent :=
  imap (fun i ev => if String.eqb (n_id ev) EmptyString
                    then MkNewEvent (ids i) (n_type ev) (n_payload ev) (n_processed ev) (n_thread ev) (n_cross ev) (n_restated ev)
                    else ev) evs.

(** [StampInterrupts] stamps the posted events in place, and the layout holds them. *)
Definition stamp_posted (l : sendLayout) : sendLayout :=
  MkLayout (StampInterrupts stamp_now (sl_posted l)) (sl_settled l) (sl_idled l) (sl_wakes l) (sl_parked l) (sl_delivered l) (sl_answers l).

(** The outcomes a batch defines, each checked against the session's. *)
Definition check_outcomes (d : api_db) (sid status : string) (threads : list threadState) (r : reach) (evs : list NewEvent)
  : result send_error (list DefineOutcome) :=
  let can := re_interrupt r && ad_interrupt (at_ (re_addr r) EmptyString) && interruptible (primaryStatus threads status) in
  match DefineOutcomes evs with
  | Err e => Err (SendOutcome e)
  | Ok defs =>
      match ValidateDefineOutcomes now (db_files d) (default [] (tb_evals (db_tables d) !! sid)) defs can with
      | Err e => Err (SendOutcome e)
      | Ok _ => Ok defs
      end
  end.

(** The admitted batch [b]: the arms, then the commit. *)
Definition process_send (ids : nat -> string) (sid : string) (d : api_db) (b : received) : result send_error (list erow * api_db) :=
  let tb := db_tables d in
  let status := session_status tb sid in
  let threads := liveThreads (thread_rows tb) sid status in
  let r := Reach (rc_events b) (rc_scoped b) threads in
  match CheckAwaited kind (tb_log tb) sid platformExecuted threads status b with
  | Err e => Err (SendIntake e)
  | Ok flow =>
      try defs <- check_outcomes d sid status threads r (rc_events b);
      let evs := with_ids ids (rc_events b) in
      try '(l, settling) <- plan_settlements (tb_log tb) sid evs r threads (newSendLayout evs) ∅;
      let q := MkReq evs (rc_scoped b) r (ad_interrupt (at_ (re_addr r) EmptyString)) (re_user r || negb (bool_decide (defs = [])))
                 (default (MkFlow [] false false) flow) settling in
      try a <- run_arms sid q (sort_stable (arm_le q) threads) (MkArms tb l [] [] [] false);
      let l := stamp_posted (am_layout a) in
      let stamps := ap_Denied (sl_answers l) ++ ap_Moot (sl_answers l) in
      let batch := if re_all r then keepLastSessionIdle (processingOrder l) else processingOrder l in
      try '(rows, d) <- commit_send sid d (am_db a) batch (am_moves a) (am_flip a) defs (am_cancels a)
        (am_thens a ++ (if bool_decide (stamps = []) then [] else [ThenStamp stamps]));
      let answerIDs := map n_id (filter (fun ev => is_answer_event ev = true) evs) in
      match rows, answerIDs with
      | first :: _, _ :: _ =>
          Ok (rows, with_tables d (with_log (db_tables d) (clamp_answers (tb_log (db_tables d)) sid (e_seq first) answerIDs)))
      | _, _ => Ok (rows, d)
      end
  end.

(** [sendSessionEvents] from the raw events: the session's own row first, then the batch.
    An empty one commits nothing. *)
Definition sendSessionEvents (cred : Credential) (outcomeIDs ids : nat -> string) (sid : string) (d : api_db) (raws : list json)
  : result send_error (list erow * api_db) :=
  match l_sessions (tb_log (db_tables d)) !! sid with
  | None => Err SendNoSession
  | Some sess =>
      if bool_decide (is_Some (s_archived sess)) then Err (SendArchived sid)
      else
        try _ <- requireNotDreamOwned d sid;
        match Receive kind cred outcomeIDs (tb_log (db_tables d)) (thread_rows (db_tables d)) sid platformExecuted raws with
        | Err e => Err (SendIntake e)
        | Ok None => Ok ([], d)
        | Ok (Some b) => process_send ids sid d b
        end
  end.

(** ** The interrupt from outside a request *)

Fixpoint interrupt_threads (sid : string) (threads : list threadState) (a : arms) : result send_error arms :=
  match threads with
  | [] => Ok a
  | th :: threads' =>
      try '(out, tb) <- interruptThreadInTx (am_db a) sid th [] true true false;
      interrupt_threads sid threads'
        (MkArms tb (interrupted (am_layout a) 0 (ir_out out)) (am_moves a ++ ir_moves out)
           (if ir_cancelSession out then [CancelAll] else am_cancels a) [] (am_flip a || ir_flip out))
  end.

(** [{"type":"user.interrupt"}] *)
Definition raw_interrupt : json := JObject [("type", JString EventUserInterrupt)].

(** The cancel runs behind the threads' answers here.  An archived session is left alone. *)
Definition interruptSessionInTx (outcomeIDs : nat -> string) (sid : string) (d : api_db) : result send_error (list erow * api_db) :=
  let tb := db_tables d in
  match l_sessions (tb_log tb) !! sid with
  | None => Err SendNoSession
  | Some sess =>
      if bool_decide (is_Some (s_archived sess)) then Ok ([], d)
      else
        match NormalizeInbound kind ManagementCredential outcomeIDs [raw_interrupt] with
        | Err e => Err (SendIntake (Invalid e))
        | Ok interrupt =>
            let threads := liveThreads (thread_rows tb) sid (session_status tb sid) in
            try a <- interrupt_threads sid threads (MkArms tb (newSendLayout interrupt) [] [] [] false);
            let batch := keepLastSessionIdle (processingOrder (stamp_posted (am_layout a))) in
            try '(rows, d) <- commit_send sid d (am_db a) batch (am_moves a) (am_flip a) [] [] (map (fun th => ThenAdvance (ts_id th)) threads);
            Ok (rows, with_tables d (foldl (run_cancel sid) (db_tables d) (am_cancels a)))
        end
  end.
End send.
