(* ===== verification/SendSpec.v ===== *)
(** * SendSpec: what an interrupt of the session leaves (Send.v)

    The platform's own interrupt is a client's, to the row; and once either commits, nothing
    of the session runs: its threads rest, its calls are answered, its work is stopped, its
    outcomes are over. *)
From Stdlib Require Import Lia.
From S2P Require Import Prelude GoStrings Ids Queue Status StatusSpec Json Domain Consumption Log LogSpec ToolQuery ToolSpec ToolFlow ToolSettle FlowSpec Outcomes Replay Threadmsg ThreadmsgSpec Grading Inbound Intake IntakeSpec SendLayout LayoutSpec Send.

(** ** The platform's interrupt is a client's *)

Definition interrupt_ev : NewEvent :=
  MkNewEvent EmptyString EventUserInterrupt (Some (JObject [("session_thread_id", JNull)])) None EmptyString false false.

Lemma normalize_interrupt kind ids : NormalizeInbound kind ManagementCredential ids [raw_interrupt] = Ok [interrupt_ev].
Proof. vm_compute. reflexivity. Qed.

Lemma receive_interrupt kind ids db rows sid pe :
  Receive kind ManagementCredential ids db rows sid pe [raw_interrupt] =
  Ok (Some (MkReceived [interrupt_ev] [interrupt_ev] [false] None)).
Proof. vm_compute. reflexivity. Qed.

Section all.
Context (platformExecuted isWebTool isDelegationTool : string -> bool) (kind env : string) (arm_now : string -> Z) (stamp_now : Z).
Context (rd : readings) (now : Z) (mint : nat -> string) (trace : option string).

#[local] Abbreviation arm := (interruptThreadInTx platformExecuted kind arm_now).
#[local] Abbreviation thens := (run_thens platformExecuted isWebTool isDelegationTool kind env rd now mint trace).

(** A session-wide interrupt tells no one, so whether the coordinator is among the
    interrupted does not matter. *)
Lemma arm_all_primary tb sid th ans p resume : arm tb sid th ans true p resume = arm tb sid th ans true true resume.
Proof. unfold interruptThreadInTx, interrupt_settles, interrupt_told. by rewrite !andb_false_r. Qed.

(** The reach of the lone interrupt: every live thread. *)
Lemma reach_interrupt threads : let r := Reach [interrupt_ev] [false] threads in
  re_all r = true /\ re_user r = false /\ re_interrupt r = true /\ forall th, th ∈ threads -> ad_interrupt (at_ (re_addr r) (ts_id th)) = true.
Proof.
  unfold Reach. cbn. split_and!; [done..|]. intros th Hth. rewrite mark_all_at.
  by rewrite (proj2 (mem_string_spec _ _)) by (by apply list_elem_of_fmap_2).
Qed.

Lemma interrupted_answers l i out : sl_answers (interrupted l i out) = sl_answers l.
Proof. unfold interrupted, woke. destruct (io_told out) as [t|]; [destruct (to_wake t)|]; by destruct (io_resume out). Qed.

Lemma interrupted_posted l i out : sl_posted (interrupted l i out) = sl_posted l.
Proof. unfold interrupted, woke. destruct (io_told out) as [t|]; [destruct (to_wake t)|]; by destruct (io_resume out). Qed.

Lemma with_answers_id l : with_answers l (sl_answers l) = l.
Proof. by destruct l. Qed.

(** A list whose elements are all related sorts to itself. *)
Lemma sort_stable_all {A} (R : relation A) `{!RelDecision R} (l : list A) : (forall x y, x ∈ l -> y ∈ l -> R x y) -> sort_stable R l = l.
Proof.
  induction l as [|x l IH]; [done|]. intros H. cbn. fold (sort_stable R l). rewrite IH by (intros; apply H; by right).
  destruct l as [|y l]; [done|]. cbn. rewrite decide_True; [done|]. apply H; [left|right; left].
Qed.

#[local] Abbreviation lone := (sl_answers (newSendLayout [interrupt_ev])).

(** One arm of the send is one turn of the outside interrupt's loop. *)
Lemma run_arms_interrupts sid q ths a : rq_events q = [interrupt_ev] -> rq_scoped q = [false] -> re_all (rq_reach q) = true ->
  rq_resume q = false -> (forall th, th ∈ ths -> ad_interrupt (at_ (re_addr (rq_reach q)) (ts_id th)) = true) ->
  sl_answers (am_layout a) = lone -> am_cancels a = [] \/ am_cancels a = [CancelAll] ->
  run_arms platformExecuted kind arm_now sid q ths a =
  match interrupt_threads platformExecuted kind arm_now sid ths
          (MkArms (am_db a) (am_layout a) (am_moves a) (am_cancels a) [] (am_flip a)) with
  | Ok b => Ok (MkArms (am_db b) (am_layout b) (am_moves b) (am_cancels b) (am_thens a ++ map (fun th => ThenAdvance (ts_id th)) ths) (am_flip b))
  | Err e => Err e
  end.
Proof.
  intros He Hsc Hall Hres. revert a. induction ths as [|th ths IH]; intros a Hth Hans Hc.
  { cbn. rewrite app_nil_r. by destruct a. }
  cbn [run_arms interrupt_threads]. unfold run_arm. rewrite (Hth th) by left. unfold interrupt_arm. rewrite He, Hsc, Hall, Hres.
  change (Z.to_nat (interruptAt [interrupt_ev] [false] (ts_id th))) with O.
  change (ToolResultRefs [interrupt_ev] ++ DeniedRefs (take O [interrupt_ev])) with (@nil string). rewrite arm_all_primary.
  cbn [am_db am_layout am_moves am_cancels am_flip].
  destruct (arm (am_db a) sid th [] true true false) as [[out tb]|] eqn:Ea; [|done].
  assert (Hone : ir_cancelThread out = false /\ ir_wakeParent out = false /\ ir_resumed out = false).
  { revert Ea. unfold interruptThreadInTx. intros (flow & _ & Ea)%bind_ok.
    apply bind_ok in Ea as ([[[[results told] idled] moves] tb1] & Hs & Ea).
    assert (told = None) as ->.
    { destruct (interruptible (ts_status th) && _); [|by simplify_eq]. unfold interrupt_settles, interrupt_told in Hs.
      rewrite andb_false_r in Hs. apply bind_ok in Hs as (? & _ & Hs). cbn in Hs. apply bind_ok in Hs as ([[? ?] ?] & _ & Hs). by simplify_eq. }
    destruct (negb _) in Ea; [simplify_eq; by rewrite andb_false_r|]. destruct (if interruptible _ then _ else _) as [ends flip].
    cbn in Ea. simplify_eq. cbn. by rewrite andb_false_r. }
  destruct Hone as (Hct & Hwp & Hrs). rewrite Hct, Hwp, Hrs. rewrite interrupted_answers, Hans.
  change (Interrupted (tb_log tb) sid (ts_id th) [interrupt_ev] (io_settled (ir_out out)) lone) with (@Ok flow_error _ lone).
  cbn [lift_flow]. rewrite app_nil_r.
  assert (Hcs : am_cancels a ++ (if ir_cancelSession out && bool_decide (am_cancels a = []) then [CancelAll] else []) =
                (if ir_cancelSession out then [CancelAll] else am_cancels a)).
  { destruct (ir_cancelSession out); [|by rewrite app_nil_r]. by destruct Hc as [-> | ->]. }
  rewrite Hcs, <- Hans, <- (interrupted_answers (am_layout a) 0 (ir_out out)), with_answers_id.
  rewrite IH; cbn [am_db am_layout am_moves am_cancels am_thens am_flip]; [|intros; apply Hth; by right|by rewrite interrupted_answers|].
  - destruct (interrupt_threads _ _ _ _ _ _); [|done]. cbn. by rewrite <- !app_assoc.
  - destruct (ir_cancelSession out); auto.
Qed.

(** The cancel, before the threads' answers are processed or after: it is another table. *)
Lemma run_cancel_log sid tb cs : foldl (run_cancel now sid) tb cs = with_queue tb (tb_queue (foldl (run_cancel now sid) tb cs)).
Proof.
  revert tb. induction cs as [|c cs IH]; intros tb; cbn; [by destruct tb|]. by rewrite IH.
Qed.

Lemma run_cancel_queue sid tb tb' cs : tb_queue tb = tb_queue tb' ->
  tb_queue (foldl (run_cancel now sid) tb cs) = tb_queue (foldl (run_cancel now sid) tb' cs).
Proof. revert tb tb'. induction cs as [|c cs IH]; intros tb tb' H; cbn; [done|]. apply IH. unfold run_cancel. by rewrite H. Qed.

Lemma advances_cancel sid ids cs i d tb :
  thens sid i (map ThenAdvance ids) (with_tables d (foldl (run_cancel now sid) tb cs)) =
  match thens sid i (map ThenAdvance ids) (with_tables d tb) with
  | Ok d' => Ok (with_tables d' (foldl (run_cancel now sid) (db_tables d') cs))
  | Err e => Err e
  end.
Proof.
  revert i tb. induction ids as [|id ids IH]; intros i tb; [done|]. cbn [map run_thens run_then db_tables with_tables].
  replace (tb_log (foldl (run_cancel now sid) tb cs)) with (tb_log tb) by (by rewrite run_cancel_log).
  destruct (AdvanceThreadTools rd (tb_log tb) sid id kind platformExecuted) as [[db flow]|]; [|done]. cbn [lift_flow].
  replace (with_log (foldl (run_cancel now sid) tb cs) db) with (foldl (run_cancel now sid) (with_log tb db) cs); [by apply IH|].
  rewrite run_cancel_log, (run_cancel_log sid tb). unfold with_log, with_queue. cbn. f_equal. by apply run_cancel_queue.
Qed.
#[local] Abbreviation commit := (commit_send platformExecuted isWebTool isDelegationTool kind env stamp_now rd now mint trace).

Lemma commit_cancel_last sid d tb batch moves flip defs cs ids :
  commit sid d tb batch moves flip defs cs (map ThenAdvance ids) =
  match commit sid d tb batch moves flip defs [] (map ThenAdvance ids) with
  | Ok (rows, d') => Ok (rows, with_tables d' (foldl (run_cancel now sid) (db_tables d') cs))
  | Err e => Err e
  end.
Proof.
  unfold commit_send. destruct (AppendInTx _ _ _ _ _) as [[rows db]|]; [|done]. rewrite advances_cancel. cbn [foldl].
  destruct (thens sid 0 _ _); [|done]. done.
Qed.

Lemma interrupt_threads_answers sid ths a b : interrupt_threads platformExecuted kind arm_now sid ths a = Ok b ->
  sl_answers (am_layout b) = sl_answers (am_layout a) /\ sl_posted (am_layout b) = sl_posted (am_layout a).
Proof.
  revert a. induction ths as [|th ths IH]; intros a; [by intros [= ->]|]. cbn. intros ([out tb] & _ & H)%bind_ok.
  apply IH in H as [H1 H2]. cbn in H1, H2. by rewrite H1, H2, interrupted_answers, interrupted_posted.
Qed.

#[local] Abbreviation client_send := (sendSessionEvents platformExecuted isWebTool isDelegationTool kind env arm_now stamp_now rd now mint trace).
#[local] Abbreviation own_interrupt := (interruptSessionInTx platformExecuted isWebTool isDelegationTool kind env arm_now stamp_now rd now mint trace).

(** Where no live dream owns the session. *)
Lemma interrupt_is_send outcomeIDs sid (d : api_db) sess :
  l_sessions (tb_log (db_tables d)) !! sid = Some sess -> s_archived sess = None -> requireNotDreamOwned d sid = Ok tt ->
  client_send ManagementCredential outcomeIDs (fun _ => EmptyString) sid d [raw_interrupt] = own_interrupt outcomeIDs sid d.
Proof.
  intros Hs Ha Hdr. unfold sendSessionEvents, interruptSessionInTx. rewrite Hs, Ha, Hdr, receive_interrupt, normalize_interrupt.
  rewrite bool_decide_false by (by intros [? ?]). unfold process_send. cbn [rc_events rc_scoped].
  set (tb := db_tables d). set (threads := liveThreads (thread_rows tb) sid (session_status tb sid)).
  destruct (reach_interrupt threads) as (Hall & Huser & Hint & Hth). set (r := Reach [interrupt_ev] [false] threads) in *.
  assert (Haw : CheckAwaited kind (tb_log tb) sid platformExecuted threads (session_status tb sid)
                  (MkReceived [interrupt_ev] [interrupt_ev] [false] None) = Ok None) by (unfold CheckAwaited; cbn; by rewrite andb_false_r).
  rewrite Haw. unfold check_outcomes. cbn [DefineOutcomes interrupt_ev n_type]. change (String.eqb EventUserInterrupt EventUserDefineOutcome) with false.
  cbn [negb ValidateDefineOutcomes]. change (with_ids (fun _ => EmptyString) [interrupt_ev]) with [interrupt_ev].
  assert (Hplan : forall ths l m, (forall th, th ∈ ths -> th ∈ threads) ->
    plan_settlements platformExecuted kind (tb_log tb) sid [interrupt_ev] r ths l m = Ok (l, m)).
  { intros ths. induction ths as [|th ths IH]; intros l m Hsub; [done|]. cbn. unfold settles. rewrite Hth by (apply Hsub; left). cbn.
    apply IH. intros; apply Hsub; by right. }
  rewrite Hplan by done. rewrite Huser. rewrite (bool_decide_true (@nil DefineOutcome = [])) by done. cbn [orb negb].
  set (q := MkReq _ _ _ _ _ _ _).
  assert (Hord : forall th, th ∈ threads -> armOrder q th = 0) by (intros th Hin; unfold armOrder; subst q; cbn; by rewrite Hth).
  rewrite sort_stable_all by (intros x y Hx Hy; unfold arm_le; rewrite !Hord; [lia|done|done]).
  rewrite run_arms_interrupts by (done || by left). cbn [am_db am_layout am_moves am_cancels am_thens am_flip].
  destruct (interrupt_threads _ _ _ _ _ _) as [a|] eqn:Ear; [|done]. apply interrupt_threads_answers in Ear as [Hans _].
  cbn [am_layout am_db am_moves am_flip am_cancels am_thens app] in *.
  assert (Hst : ap_Denied (sl_answers (stamp_posted stamp_now (am_layout a))) ++ ap_Moot (sl_answers (stamp_posted stamp_now (am_layout a))) = [])
    by (unfold stamp_posted; cbn [sl_answers]; by rewrite Hans).
  rewrite Hst, Hall, (bool_decide_true (@nil string = [])) by done. rewrite app_nil_r.
  rewrite <- (map_map ts_id ThenAdvance), commit_cancel_last.
  destruct (commit sid d _ _ _ _ _ _ _) as [[rows d']|]; [|done].
  change (map n_id (filter _ [interrupt_ev])) with (@nil string). by destruct rows.
Qed.

Definition with_dreams (d : api_db) (drs : list dream) : api_db := MkApi (db_tables d) (db_catalogs d) (db_files d) drs.

(** The dreams are nothing to the transaction itself. *)
Definition holding (drs : list dream) {A} (r : result send_error (A * api_db)) : result send_error (A * api_db) :=
  match r with Ok (x, d) => Ok (x, with_dreams d drs) | Err e => Err e end.

Lemma thens_dreams drs sid i ids d : thens sid i (map ThenAdvance ids) (with_dreams d drs) =
  match thens sid i (map ThenAdvance ids) d with Ok d' => Ok (with_dreams d' drs) | Err e => Err e end.
Proof.
  revert i d. induction ids as [|id ids IH]; intros i d; [done|]. cbn [map run_thens run_then db_tables with_dreams].
  destruct (AdvanceThreadTools _ _ _ _ _ _) as [[db flow]|]; [|done]. exact (IH (S i) (with_tables d (with_log (db_tables d) db))).
Qed.

Lemma own_interrupt_dreams outcomeIDs sid d drs :
  own_interrupt outcomeIDs sid (with_dreams d drs) = holding drs (own_interrupt outcomeIDs sid d).
Proof.
  unfold interruptSessionInTx. cbn [db_tables with_dreams]. destruct (l_sessions _ !! sid) as [sess|]; [|done].
  case_bool_decide; [done|]. destruct (NormalizeInbound _ _ _ _) as [interrupt|]; [|done].
  destruct (interrupt_threads _ _ _ _ _ _) as [a|]; [|done]. rewrite <- (map_map ts_id ThenAdvance).
  unfold commit_send. destruct (AppendInTx _ _ _ _ _) as [[rows db]|]; [|done]. change (with_tables (with_dreams d drs) ?t) with (with_dreams (with_tables d t) drs).
  rewrite thens_dreams. by destruct (thens sid 0 _ _).
Qed.

(** C9: The session-wide interrupt the platform writes for itself, outside any request, is what a client's send of
    one user.interrupt would be if no dream held the session: the same rows, threads, outcomes, queue and errors,
    for every session that is not archived (the append minting the event's id in both).  So the two are equal where
    no live dream owns the session.  Where one does, the platform's still acts, while a client's send of anything,
    this interrupt included, is refused in that dream's name: the hold keeps a client's credentials from the
    pipeline session, not the platform. *)
Theorem interruptSessionInTx_is_send outcomeIDs sid (d : api_db) sess :
  l_sessions (tb_log (db_tables d)) !! sid = Some sess -> s_archived sess = None ->
  own_interrupt outcomeIDs sid d =
    holding (db_dreams d) (client_send ManagementCredential outcomeIDs (fun _ => EmptyString) sid (with_dreams d []) [raw_interrupt]) /\
  ((forall r, r ∈ db_dreams d -> dr_session r = Some sid -> dr_closed r <> None) ->
   own_interrupt outcomeIDs sid d = client_send ManagementCredential outcomeIDs (fun _ => EmptyString) sid d [raw_interrupt]) /\
  (forall r, r ∈ db_dreams d -> dr_session r = Some sid -> dr_closed r = None ->
   exists owner, owner ∈ db_dreams d /\ dr_session owner = Some sid /\ dr_closed owner = None /\
     forall cred ocs ids raws, client_send cred ocs ids sid d raws = Err (SendDreamOwned (dr_id owner))).
Proof.
  intros Hs Ha. split_and!.
  - rewrite (interrupt_is_send outcomeIDs sid (with_dreams d []) sess) by done. rewrite <- own_interrupt_dreams. by destruct d.
  - intros Hfree. symmetry. apply (interrupt_is_send outcomeIDs sid d sess Hs Ha). unfold requireNotDreamOwned.
    destruct (List.find _ _) as [r|] eqn:E; [|done]. apply find_some in E as [Hr Ho]. unfold owns in Ho. bool_prop.
    exfalso. apply (Hfree r); [by apply list_elem_of_In|done..].
  - intros r Hr Hses Hopen. destruct (List.find (owns sid) (db_dreams d)) as [o|] eqn:E.
    + exists o. destruct (find_some _ _ E) as [Ho Hown]. unfold owns in Hown. split_and!; [by apply list_elem_of_In|by bool_prop..|].
      intros cred ocs ids raws. unfold sendSessionEvents. rewrite Hs, Ha, bool_decide_false by (by intros [? ?]).
      unfold requireNotDreamOwned. by rewrite E.
    + exfalso. apply list_elem_of_In in Hr. pose proof (find_none _ _ E r Hr) as Hno. unfold owns in Hno.
      by rewrite !bool_decide_true in Hno.
Qed.
End all.

(** ** The log only grows *)

(** What was there is there, but for stamps; rows follow it. *)
Definition grown (db db' : ldb) : Prop := exists new, stamped (l_events db ++ new) (l_events db').

Lemma grown_refl db : grown db db.
Proof. exists []. by rewrite app_nil_r. Qed.

Lemma grown_trans a b c : grown a b -> grown b c -> grown a c.
Proof.
  intros [n1 H1] [n2 H2]. exists (n1 ++ n2). rewrite app_assoc. etransitivity; [|exact H2]. apply Forall2_app; [exact H1|].
  change (stamped n2 n2). reflexivity.
Qed.

Lemma grown_stamp db p at_ : grown db (stamp_where db p at_).
Proof. exists []. rewrite app_nil_r. apply stamp_where_stamped. Qed.

Lemma grown_append rd db sid evs o rows db' : o_then o = None -> AppendInTx rd db sid evs o = Ok (rows, db') -> stamped (l_events db ++ rows) (l_events db').
Proof.
  intros Ho (sess & c0 & c & agent & _ & _ & _ & _ & _ & He & _)%AppendInTx_inv. by apply append_effects_stamped in He.
Qed.

Lemma grown_advance rd db sid tid kind po db' flow : AdvanceThreadTools rd db sid tid kind po = Ok (db', flow) -> grown db db'.
Proof.
  unfold AdvanceThreadTools. intros (calls & _ & H)%bind_ok. apply bind_ok in H as ([db1 cs] & Hw & H). simplify_eq. clear -Hw.
  revert db cs Hw. induction calls as [|c calls IH]; intros db cs; cbn [walkReady]; [intros [= <- _]; apply grown_refl|].
  destruct (is_empty _ && _); [intros [= <- _]; apply grown_refl|]. intros ([[db1 c'] b] & Hc & H)%bind_ok.
  assert (H1 : grown db db1).
  { unfold advance_consume in Hc. destruct (negb (is_empty (oc_resultID c))).
    - simplify_eq. eapply grown_trans; [|apply grown_stamp]. destruct (negb _); [apply grown_stamp|apply grown_refl].
    - apply bind_ok in Hc as ([results answered] & _ & Hc). eapply grown_trans; [apply grown_stamp|].
      destruct results as [|ev results]; [simplify_eq; apply grown_refl|].
      destruct (AppendInTx _ _ _ _ _) as [[out db2]|] eqn:Ea; [|done]. simplify_eq. exists out. by eapply (grown_append _ _ _ _ no_options). }
  destruct b; [|simplify_eq; done]. apply bind_ok in H as ([db2 rest] & Hw & H). simplify_eq. by eapply grown_trans; [exact H1|eapply IH].
Qed.

Lemma stamped_in es es' e : stamped es es' -> e ∈ es -> exists e', e' ∈ es' /\ stamped_row e e'.
Proof.
  intros H. induction H as [|a b es es' Hab _ IH]; [intros H%not_elem_of_nil; done|]. intros [-> | He]%elem_of_cons.
  - exists b. split; [left|done].
  - destruct (IH He) as (e' & ? & ?). exists e'. split; [by right|done].
Qed.

Lemma answers_stamped sid id a b : stamped_row a b -> answers sid id a = true -> answers sid id b = true.
Proof. intros (_ & H1 & _ & H2 & H3 & _)%stamped_row_same. unfold answers. by rewrite H1, H2, H3. Qed.

Lemma grown_answered db db' sid tu : grown db db' -> answeredBy db sid tu = true -> answeredBy db' sid tu = true.
Proof.
  intros [new Hn] Ha. unfold answeredBy in *. apply existsb_exists in Ha as (r & Hr & Ha).
  destruct (stamped_in _ _ r Hn) as (r' & Hr' & Hs); [apply elem_of_app; left; by apply list_elem_of_In|].
  apply existsb_exists. exists r'. split; [by apply list_elem_of_In|by eapply answers_stamped].
Qed.

(** An event no clock reads is a row of the append, stamped if it came stamped. *)
Lemma build_rows_member rd sid agent usage created ev : plain_event ev = true -> forall evs seq over last clock rows clock',
  build_rows rd sid agent usage created false seq over last clock evs = Ok (rows, clock') -> ev ∈ evs ->
  exists r, r ∈ rows /\ e_session r = sid /\ e_type r = n_type ev /\ e_payload r = payload_of ev /\ e_thread r = n_thread ev.
Proof.
  intros Hp. induction evs as [|x evs IH]; intros seq over last clock rows clock' H Hin; [by apply not_elem_of_nil in Hin|].
  cbn [build_rows] in H. destruct (if String.eqb (n_thread x) EmptyString && _ then _ else _) as [payload|] eqn:Epl; [|done].
  destruct (build_rows _ _ _ _ _ _ _ _ _ _ evs) as [[rows1 clock1]|] eqn:E; [|done]. injection H as <- _.
  apply elem_of_cons in Hin as [<- | Hin].
  - eexists. split; [left|]. cbn. unfold plain_event in Hp. bool_prop. rewrite H1, andb_false_r in Epl. injection Epl as <-. rewrite H0.
    split_and!; [done|done| |done]. by destruct clock, (stamp_of rd (seq + 1) false over last ev).
  - destruct (IH _ _ _ _ _ _ E Hin) as (r & Hr & ?). exists r. split; [by right|done].
Qed.

Lemma snapshots_keep evs ev : ev ∈ evs -> ev ∈ withUsageSnapshots evs.
Proof.
  induction evs as [|x evs IH]; [done|]. cbn. intros [-> | H]%elem_of_cons; destruct (is_idle _); set_solver.
Qed.

Lemma append_member rd db sid evs o rows db' ev : o_consume o = false -> AppendInTx rd db sid evs o = Ok (rows, db') ->
  ev ∈ evs -> plain_event ev = true ->
  exists r, r ∈ rows /\ e_session r = sid /\ e_type r = n_type ev /\ e_payload r = payload_of ev /\ e_thread r = n_thread ev.
Proof.
  intros Ho (sess & c0 & c & agent & _ & _ & _ & _ & Hb & _ & _)%AppendInTx_inv Hin Hp. rewrite Ho in Hb.
  eapply build_rows_member; [exact Hp|exact Hb|]. by apply snapshots_keep.
Qed.

Lemma last_idle_split batch : Forall (fun x => is_idle_event x = false) batch \/
  exists a e b, batch = a ++ e :: b /\ is_idle_event e = true /\ Forall (fun x => is_idle_event x = false) b.
Proof.
  induction batch as [|x batch [H|(a & e & b & -> & He & Hb)]]; [by left| |right; by exists (x :: a), e, b].
  destruct (is_idle_event x) eqn:E; [right; by exists [], x, batch|left; by constructor].
Qed.

(** Only idles leave the batch of a session-wide interrupt. *)
Lemma keep_member batch ev : is_idle_event ev = false -> ev ∈ batch -> ev ∈ keepLastSessionIdle batch.
Proof.
  intros Hi Hin. destruct (last_idle_split batch) as [H|(a & e & b & -> & He & Hb)]; [by rewrite no_idle|].
  rewrite keepLastSessionIdle_eq by done. apply elem_of_app. rewrite elem_of_cons. apply elem_of_app in Hin as [Hin|Hin].
  - left. by apply list_elem_of_filter.
  - apply elem_of_cons in Hin as [->|Hin]; [congruence|by right; right].
Qed.

(** ** One interrupted thread *)

Lemma map_result_length {E A B} (f : A -> result E B) l l' : map_result f l = Ok l' -> length l' = length l.
Proof.
  revert l'. induction l as [|x l IH]; intros l'; [by intros [= <-]|]. cbn. intros (y & _ & H)%bind_ok.
  apply bind_ok in H as (ys & Hys & H). injection H as <-. cbn. by rewrite (IH ys).
Qed.

(** A call without a result leaves its thread unsettled. *)
Lemma unanswered_unsettles db sid tid kind po flow u : u ∈ UnansweredThreadToolUses db sid tid [] ->
  ThreadToolFlow db sid tid kind po = Ok flow -> Unsettled flow = true.
Proof.
  intros Hu. unfold ThreadToolFlow. intros (calls & Hc & H)%bind_ok. injection H as <-.
  assert (Hopen := threadCallsOf_open _ _ _ _ Hc). apply map_result_length in Hc.
  unfold UnansweredThreadToolUses in Hu. apply list_elem_of_fmap in Hu as (tu & _ & [Htu Hun]%elem_of_select_by_seq).
  unfold unansweredToolUse, toolUseScope in Hun. bool_prop.
  assert (Hin : tu ∈ thread_uses db sid tid).
  { apply elem_of_select_by_seq. split; [done|]. rewrite H, H3, H0. cbn. unfold unprocessed_call.
    destruct (find _ _) as [r|] eqn:Ef; [|done]. exfalso. apply find_some in Ef as [Hr Ha].
    assert (answeredBy db sid tu = true) by (unfold answeredBy; apply existsb_exists; eauto). congruence. }
  rewrite summarizeTools_eq. unfold flow_of. cbn [Unsettled]. apply negb_true_iff, bool_decide_eq_false.
  assert (Hall : filter (fun c => oc_resolved c = false) calls = calls) by by apply filter_all_true.
  rewrite Hall. destruct calls; [|done]. cbn in Hc. destruct (thread_uses db sid tid); [by apply not_elem_of_nil in Hin|done].
Qed.

Lemma InterruptResults_each now uses evs u : InterruptResults now uses = Ok evs -> u ∈ uses -> exists ev, ev ∈ evs /\ interrupt_result now u = Some ev.
Proof.
  revert evs. induction uses as [|x uses IH]; intros evs; [by intros _ H%not_elem_of_nil|]. cbn.
  destruct (interrupt_result now x) as [ev|] eqn:E; [|done]. intros (out & Ho & H)%bind_ok. injection H as <-.
  intros [-> | Hin]%elem_of_cons; [exists ev; split; [left|done]|]. destruct (IH _ Ho Hin) as (ev' & ? & ?). exists ev'. split; [by right|done].
Qed.

Definition idle_transition (tid : string) : ThreadTransition := MkTransition tid SessionIdle (Some (MkStop StopEndTurn [])) true false.

Record arm_effect (sid : string) (tb tb1 : tables) (th : threadState) (out : interrupt_out) : Prop := MkEffect {
  ae_same : tb_queue tb1 = tb_queue tb /\ tb_evals tb1 = tb_evals tb;
  ae_log : stamped (l_events (tb_log tb)) (l_events (tb_log tb1));
  ae_moved : if ir_cancelSession out
             then exists evs moved, TransitionThread (tb_threads tb) sid (idle_transition (ts_id th)) = Ok (evs, moved, tb_threads tb1)
             else tb_threads tb1 = tb_threads tb;
  ae_running : ts_status th = "running" -> ir_cancelSession out = true;
  ae_answers : interruptible (ts_status th) = true -> forall u, u ∈ UnansweredThreadToolUses (tb_log tb) sid (ts_id th) [] ->
    ir_cancelSession out = true /\ exists now ev, ev ∈ io_settled (ir_out out) /\ interrupt_result now u = Some ev;
  ae_flip : ts_id th = EmptyString -> interruptible (ts_status th) = true ->
    ir_flip out = existsb (fun e => negb (OutcomeResultTerminal (oe_Result e))) (default [] (tb_evals tb !! sid)) }.

Lemma InterruptOutcomes_flip db sid evals : (InterruptOutcomes db sid evals).2 = existsb (fun e => negb (OutcomeResultTerminal (oe_Result e))) evals.
Proof.
  unfold InterruptOutcomes. cbn [snd]. induction evals as [|e evals IH]; [done|]. rewrite filter_cons. cbn [existsb].
  destruct (OutcomeResultTerminal (oe_Result e)) eqn:E; [by rewrite decide_False by congruence|by rewrite decide_True].
Qed.

Lemma interrupt_arm_effect po kind arm_now sid tb th out tb1 :
  interruptThreadInTx po kind arm_now tb sid th [] true true false = Ok (out, tb1) -> arm_effect sid tb tb1 th out.
Proof.
  unfold interruptThreadInTx. intros (flow & Hflow & H)%bind_ok. unfold lift_flow in Hflow.
  destruct (ThreadToolFlow _ _ _ _ _) as [f|] eqn:Ef; [|done]. injection Hflow as ->.
  apply bind_ok in H as ([[[[results told] idled] moves] tb2] & Hs & H). cbn [andb] in H. rewrite andb_false_r in H.
  set (b := interruptible (ts_status th) && (String.eqb (ts_status th) "running" || Unsettled flow)) in *.
  assert (Hout : io_settled (ir_out out) = results ++ (if negb (String.eqb (ts_id th) EmptyString) then [] else
      if interruptible (ts_status th) then (InterruptOutcomes (tb_log tb2) sid (default [] (tb_evals tb2 !! sid))).1 else []) /\
    ir_cancelSession out = b /\ tb1 = tb2 /\ (ts_id th = EmptyString -> interruptible (ts_status th) = true ->
      ir_flip out = (InterruptOutcomes (tb_log tb2) sid (default [] (tb_evals tb2 !! sid))).2)).
  { destruct (String.eqb_spec (ts_id th) EmptyString) as [E|N]; cbn [negb] in H.
    - destruct (interruptible (ts_status th)).
      + destruct (InterruptOutcomes _ _ _) as [ends flip]. cbn in H. injection H as <- <-. cbn. rewrite ?andb_true_r. split_and!; [done|done|done|]. by intros.
      + cbn in H. injection H as <- <-. cbn. rewrite ?andb_true_r. split_and!; [done|done|done|]. by intros.
    - injection H as <- <-. cbn. rewrite app_nil_r, andb_true_r. split_and!; done. }
  destruct Hout as (Hio & Hb & -> & Hflip). clear H.
  assert (Hrun : ts_status th = "running" -> b = true) by (unfold b, interruptible; intros ->; done).
  assert (Hun : interruptible (ts_status th) = true -> forall u, u ∈ UnansweredThreadToolUses (tb_log tb) sid (ts_id th) [] -> b = true).
  { intros Hi u Hu. unfold b. rewrite Hi, (unanswered_unsettles _ _ _ _ _ _ _ Hu Ef). by rewrite orb_true_r. }
  destruct b.
  - unfold interrupt_settles, interrupt_told in Hs. rewrite andb_false_r in Hs. apply bind_ok in Hs as (rs & Hrs & Hs).
    unfold lift_flow in Hrs. destruct (InterruptResults _ _) as [rs'|] eqn:Er; [|done]. injection Hrs as ->. cbn [andb] in Hs.
    apply bind_ok in Hs as ([[idl mv] tb3] & Ht & Hs). injection Hs as <- <- <- <- <-. unfold lift_settle, transition in Ht.
    set (tb0 := match rs with [] => tb | _ => _ end) in *.
    assert (Htb0 : tb_queue tb0 = tb_queue tb /\ tb_evals tb0 = tb_evals tb /\ tb_threads tb0 = tb_threads tb /\
                   stamped (l_events (tb_log tb)) (l_events (tb_log tb0))).
    { unfold tb0. destruct rs; [done|]. cbn. split_and!; [done..|]. unfold StampSupersededAnswers.
      destruct (UnansweredThreadToolUses _ _ _ _); [done|apply stamp_where_stamped]. }
    clearbody tb0. destruct Htb0 as (Hq & He & Hthr & Hl).
    destruct (TransitionThread (tb_threads tb0) sid _) as [[[evs moved] s']|] eqn:Et; [|done]. injection Ht as <- <- <-.
    split; [cbn; by rewrite Hq, He|exact Hl|rewrite Hb; cbn; rewrite Hthr in Et; by eexists _, _|done| |].
    + intros _ u Hu. split; [done|]. destruct (InterruptResults_each _ _ _ _ Er Hu) as (ev & Hev & Hr). eexists _, ev. split; [|exact Hr].
      rewrite Hio. by apply elem_of_app; left.
    + intros E Hi. rewrite (Hflip E Hi), InterruptOutcomes_flip. cbn. by rewrite He.
  - injection Hs as <- <- <- <- <-. split; [done|done|by rewrite Hb|intros E; by specialize (Hrun E)| |].
    + intros Hi u Hu. by specialize (Hun Hi u Hu).
    + intros E Hi. by rewrite (Hflip E Hi), InterruptOutcomes_flip.
Qed.

(** ** All of them *)

Definition next_arms (a : arms) (out : interrupt_out) (tb : tables) : arms :=
  MkArms tb (interrupted (am_layout a) 0 (ir_out out)) (am_moves a ++ ir_moves out)
    (if ir_cancelSession out then [CancelAll] else am_cancels a) [] (am_flip a || ir_flip out).

Inductive interrupt_run (sid : string) : list threadState -> arms -> arms -> Prop :=
| run_done a : interrupt_run sid [] a a
| run_next th ths a b out tb : arm_effect sid (am_db a) tb th out -> interrupt_run sid ths (next_arms a out tb) b ->
    interrupt_run sid (th :: ths) a b.

Lemma interrupt_threads_run po kind arm_now sid ths a b :
  interrupt_threads po kind arm_now sid ths a = Ok b -> am_thens a = [] -> interrupt_run sid ths a b /\ am_thens b = [].
Proof.
  revert a. induction ths as [|th ths IH]; intros a; cbn [interrupt_threads]; [intros [= ->]; by split; [constructor|]|].
  intros ([out tb] & Ha & H)%bind_ok _. apply interrupt_arm_effect in Ha. apply IH in H as [H ?]; [|done].
  split; [|done]. by eapply run_next.
Qed.

Lemma run_same sid ths a b : interrupt_run sid ths a b ->
  tb_queue (am_db b) = tb_queue (am_db a) /\ tb_evals (am_db b) = tb_evals (am_db a) /\
  stamped (l_events (tb_log (am_db a))) (l_events (tb_log (am_db b))).
Proof.
  induction 1 as [a|th ths a b out tb [[Hq He] Hl _ _ _ _] _ (IH1 & IH2 & IH3)]; [done|]. cbn in *.
  split_and!; [congruence|congruence|by etransitivity].
Qed.

Lemma run_cancels sid ths a b : interrupt_run sid ths a b ->
  (am_cancels a = [CancelAll] -> am_cancels b = [CancelAll]) /\
  ((exists th, th ∈ ths /\ ts_status th = "running") -> am_cancels b = [CancelAll]).
Proof.
  induction 1 as [a|th ths a b out tb He _ [IH1 IH2]]; [split; [done|by intros (? & ?%not_elem_of_nil & _)]|].
  split.
  - intros Hc. apply IH1. cbn. by destruct (ir_cancelSession out).
  - intros (th' & [-> | Hin]%elem_of_cons & Hr); [|apply IH2; eauto]. apply IH1. cbn. by rewrite (ae_running _ _ _ _ _ He Hr).
Qed.

Lemma run_flip sid ths a b : interrupt_run sid ths a b ->
  (am_flip a = true -> am_flip b = true) /\
  ((exists th, th ∈ ths /\ ts_id th = EmptyString /\ interruptible (ts_status th) = true) ->
   existsb (fun e => negb (OutcomeResultTerminal (oe_Result e))) (default [] (tb_evals (am_db a) !! sid)) = true -> am_flip b = true).
Proof.
  induction 1 as [a|th ths a b out tb He _ [IH1 IH2]]; [split; [done|by intros (? & ?%not_elem_of_nil & _)]|].
  split; [intros Hf; apply IH1; cbn; by rewrite Hf|].
  intros (th' & [-> | Hin]%elem_of_cons & Hid & Hi) Hex.
  - apply IH1. cbn. by rewrite (ae_flip _ _ _ _ _ He Hid Hi), Hex, orb_true_r.
  - apply IH2; [eauto|]. cbn. by rewrite (proj2 (ae_same _ _ _ _ _ He)).
Qed.

Lemma unanswered_stamped db db' sid tid u : stamped (l_events db) (l_events db') ->
  u ∈ UnansweredThreadToolUses db sid tid [] -> u ∈ UnansweredThreadToolUses db' sid tid [].
Proof.
  intros Hs. unfold UnansweredThreadToolUses. intros (tu & -> & [Htu Hun]%elem_of_select_by_seq)%list_elem_of_fmap.
  destruct (stamped_in _ _ _ Hs Htu) as (tu' & Htu' & Hrow). pose proof (stamped_row_same _ _ Hrow) as (H1 & H2 & H3 & H4 & H5 & H6 & H7 & H8).
  assert (Hans : answeredBy db' sid tu' = answeredBy db sid tu).
  { unfold answeredBy. rewrite H1. clear -Hs. induction Hs as [|a b es es' Hab _ IH]; [done|]. cbn. rewrite IH. f_equal.
    apply stamped_row_same in Hab as (_ & E1 & _ & E2 & E3 & _). unfold answers. by rewrite E1, E2, E3. }
  replace (ref_of tu) with (ref_of tu') by (unfold ref_of; by rewrite H1, H4, H7, H8).
  apply list_elem_of_fmap_2, elem_of_select_by_seq. split; [done|]. revert Hun. unfold unansweredToolUse, toolUseScope, on_thread.
  by rewrite Hans, H1, H2, H4, H7.
Qed.

(** The results of every call left open are around the interrupt. *)
Lemma run_settled sid ths a b : interrupt_run sid ths a b ->
  (forall ev, ev ∈ rows_at (sl_settled (am_layout a)) 0 -> ev ∈ rows_at (sl_settled (am_layout b)) 0) /\
  (forall th u, th ∈ ths -> interruptible (ts_status th) = true -> u ∈ UnansweredThreadToolUses (tb_log (am_db a)) sid (ts_id th) [] ->
     exists now ev, ev ∈ rows_at (sl_settled (am_layout b)) 0 /\ interrupt_result now u = Some ev).
Proof.
  induction 1 as [a|th ths a b out tb He _ [IH1 IH2]]; [split; [done|by intros ? ? ?%not_elem_of_nil]|].
  destruct (interrupted_fields (am_layout a) 0 (ir_out out)) as (_ & _ & _ & Hset & _).
  assert (Hrows : rows_at (sl_settled (am_layout (next_arms a out tb))) 0 = rows_at (sl_settled (am_layout a)) 0 ++ io_settled (ir_out out)).
  { cbn. rewrite Hset. unfold append_at, rows_at at 1. by rewrite lookup_insert_eq. }
  split.
  - intros ev Hev. apply IH1. rewrite Hrows. by apply elem_of_app; left.
  - intros th' u [-> | Hin]%elem_of_cons Hi Hu.
    + destruct (ae_answers _ _ _ _ _ He Hi u Hu) as (_ & now & ev & Hev & Hr). exists now, ev. split; [|done].
      apply IH1. rewrite Hrows. by apply elem_of_app; right.
    + apply (IH2 th' u Hin Hi). eapply unanswered_stamped; [|exact Hu]. apply (ae_log _ _ _ _ _ He).
Qed.

(** ** The threads rest *)

(** A row left as it was, or put to rest on end_turn. *)
Definition calmed (r r' : thread_row) : Prop :=
  r' = r \/ (t_session r' = t_session r /\ t_archived r' = t_archived r /\ t_created r' = t_created r /\
             t_status r' = SessionIdle /\ t_stop r' = Some (MkStop StopEndTurn [])).

Definition at_end (r : thread_row) : Prop := t_status r = SessionIdle /\ t_stop r = Some (MkStop StopEndTurn []).

Lemma calmed_trans a b c : calmed a b -> calmed b c -> calmed a c.
Proof.
  intros [->|(H1 & H2 & H3 & ?)] [->|(? & ? & ? & ? & ?)]; [by left|by right|by right|right]. split_and!; congruence.
Qed.

Lemma calmed_end a b : calmed a b -> at_end a -> at_end b.
Proof. by intros [->|(_ & _ & _ & ?)] ?. Qed.

Lemma thread_of_idle sid tid : thread_of sid (tr_thread (idle_transition tid)) = thread_of sid tid.
Proof. done. Qed.

Lemma idle_rows s sid tid evs moved s' : TransitionThread s sid (idle_transition tid) = Ok (evs, moved, s') ->
  forall id r, s_threads s !! id = Some r -> exists r', s_threads s' !! id = Some r' /\ calmed r r' /\
    (id = thread_of sid tid -> t_session r = sid -> at_end r').
Proof.
  intros HT id r Hr. destruct (move_thread s sid (thread_of sid tid) (idle_transition tid)) as [[ag s1]|] eqn:Hm.
  - destruct (TransitionThread_Ok _ _ _ _ _ _ _ _ Hm HT) as (cur & _ & Hth & _). rewrite Hth.
    unfold move_thread in Hm. destruct (s_threads s !! thread_of sid tid) as [r0|] eqn:Hr0; [|done].
    destruct (String.eqb_spec (t_session r0) sid) as [Hs|]; [|done]. injection Hm as _ <-. cbn.
    destruct (decide (id = thread_of sid tid)) as [->|Hne].
    + rewrite lookup_insert_eq. rewrite Hr in Hr0. injection Hr0 as ->. eexists. split; [reflexivity|]. split; [by right|done].
    + rewrite lookup_insert_ne by done. exists r. split; [done|]. split; [by left|done].
  - exists r. unfold TransitionThread in HT. rewrite thread_of_idle, Hm in HT. cbn in HT.
    assert (s_threads s' = s_threads s) as ->.
    { destruct (negb (String.eqb tid "")); [done|]. destruct (foldSession _ _ _ _). destruct (Status.s_status s !! sid); [|done].
      repeat case_match; by simplify_eq. }
    split; [done|]. split; [by left|]. intros -> Hs. exfalso. unfold move_thread in Hm. rewrite Hr, Hs, String.eqb_refl in Hm. done.
Qed.

Lemma run_rows sid ths a b : interrupt_run sid ths a b -> forall id r, s_threads (tb_threads (am_db a)) !! id = Some r ->
  exists r', s_threads (tb_threads (am_db b)) !! id = Some r' /\ calmed r r' /\
    (t_session r = sid -> (exists th, th ∈ ths /\ thread_of sid (ts_id th) = id /\ ts_status th = "running") -> at_end r').
Proof.
  induction 1 as [a|th ths a b out tb He _ IH]; intros id r Hr; [exists r; split; [done|]; split; [by left|]; by intros _ (? & ?%not_elem_of_nil & _)|].
  assert (H1 : exists r1, s_threads (tb_threads tb) !! id = Some r1 /\ calmed r r1 /\
    (t_session r = sid -> thread_of sid (ts_id th) = id -> ts_status th = "running" -> at_end r1)).
  { pose proof (ae_moved _ _ _ _ _ He) as Hm. pose proof (ae_running _ _ _ _ _ He) as Hrun. destruct (ir_cancelSession out).
    - destruct Hm as (evs & moved & Hm). destruct (idle_rows _ _ _ _ _ _ Hm id r Hr) as (r1 & ? & ? & Hend). exists r1. eauto.
    - exists r. rewrite Hm. split; [done|]. split; [by left|]. intros _ _ E. by specialize (Hrun E). }
  destruct H1 as (r1 & Hr1 & Hc1 & He1). destruct (IH id r1 Hr1) as (r2 & Hr2 & Hc2 & He2).
  exists r2. split; [done|]. split; [by eapply calmed_trans|]. intros Hs (th' & [-> | Hin]%elem_of_cons & Hid & Hrun).
  - eapply calmed_end; [exact Hc2|]. by apply He1.
  - apply He2; [|eauto]. destruct Hc1 as [->|(-> & _)]; done.
Qed.

(** Where the session comes to rest. *)
Definition resting (s : sdb) (sid : string) (ths : list threadState) : Prop :=
  forall id r, (id, r) ∈ live_rows s sid ->
    t_status r = SessionIdle \/ (exists th, th ∈ ths /\ thread_of sid (ts_id th) = id /\ ts_status th = "running").

Lemma idle_folds s sid tid evs moved s' : TransitionThread s sid (idle_transition tid) = Ok (evs, moved, s') ->
  resting s' sid [] -> Status.s_status s' !! sid = Some SessionIdle.
Proof.
  intros HT Hrest. destruct (move_thread s sid (thread_of sid tid) (idle_transition tid)) as [[ag s1]|] eqn:Hm.
  - destruct (TransitionThread_Ok _ _ _ _ _ _ _ _ Hm HT) as (cur & _ & Hth & _ & Hf).
    pose proof (foldSession_derived s sid (idle_transition tid) ag s1 Hm) as Hd.
    destruct (foldSession s1 sid (idle_transition tid) true) as [folded fstop]. destruct Hf as (Hst & _). rewrite Hst, lookup_insert_eq.
    cbn in Hd. subst folded. unfold derived. assert (Hends : ends_session (idle_transition tid) = false) by (unfold ends_session; cbn; by rewrite andb_false_r). rewrite Hends. change (tr_status (idle_transition tid)) with SessionIdle.
    case_bool_decide; [done|]. unfold rollup.
    assert (Hno : forall st, st <> SessionIdle -> some_thread st (row_views s1 sid) = false).
    { intros st Hst'. apply not_true_iff_false. unfold some_thread. rewrite existsb_exists. intros (v & Hv%list_elem_of_In & E%bool_decide_eq_true).
      unfold row_views in Hv. apply list_elem_of_fmap in Hv as ([id r] & -> & Hin). cbn in E. apply elem_of_live_rows in Hin.
      rewrite <- Hth in Hin. apply elem_of_live_rows in Hin. destruct (Hrest id r Hin) as [Hi|(? & ?%not_elem_of_nil & _)]; [congruence|done]. }
    by rewrite !Hno.
  - unfold TransitionThread in HT. rewrite thread_of_idle, Hm in HT. cbn in HT. destruct (negb (String.eqb tid "")); [done|].
    assert (Hfold : foldSession s sid (idle_transition tid) false = (SessionIdle, Some (MkStop StopEndTurn [])))
      by (unfold foldSession; cbn; by rewrite andb_false_r).
    rewrite Hfold in HT. destruct (Status.s_status s !! sid) as [cur|] eqn:Ec; [|done].
    case_bool_decide as Hcur; cbn in HT.
    + subst cur. repeat case_match; by simplify_eq.
    + injection HT as _ _ <-. cbn. by rewrite lookup_insert_eq.
Qed.

Lemma live_calmed s s' sid id r' : (forall id r, s_threads s !! id = Some r -> exists r', s_threads s' !! id = Some r' /\ calmed r r') ->
  (forall id, is_Some (s_threads s' !! id) -> is_Some (s_threads s !! id)) ->
  (id, r') ∈ live_rows s' sid -> exists r, (id, r) ∈ live_rows s sid /\ calmed r r' \/ t_status r' = SessionIdle.
Proof.
  intros Hc Hdom (Hr' & Hs & Ha & Ht)%elem_of_live_rows. destruct (Hdom id) as [r Hr]; [eauto|]. destruct (Hc id r Hr) as (r2 & Hr2 & Hcr).
  rewrite Hr' in Hr2. injection Hr2 as <-. exists r. destruct Hcr as [->|(? & ? & ? & ? & ?)]; [|by right].
  left. split; [by apply elem_of_live_rows|by left].
Qed.

Lemma idle_dom s sid tid evs moved s' : TransitionThread s sid (idle_transition tid) = Ok (evs, moved, s') ->
  forall id, is_Some (s_threads s' !! id) -> is_Some (s_threads s !! id).
Proof.
  intros HT id Hid. destruct (move_thread s sid (thread_of sid tid) (idle_transition tid)) as [[ag s1]|] eqn:Hm.
  - destruct (TransitionThread_Ok _ _ _ _ _ _ _ _ Hm HT) as (cur & _ & Hth & _). rewrite Hth in Hid.
    unfold move_thread in Hm. destruct (s_threads s !! thread_of sid tid) as [r0|] eqn:Hr0; [|done].
    destruct (String.eqb _ _); [|done]. injection Hm as _ <-. cbn in Hid.
    destruct (decide (id = thread_of sid tid)) as [->|Hne]; [eauto|by rewrite lookup_insert_ne in Hid].
  - unfold TransitionThread in HT. rewrite thread_of_idle, Hm in HT. cbn in HT. destruct (negb (String.eqb tid "")); [done|].
    destruct (foldSession _ _ _ _). destruct (Status.s_status s !! sid); [|done]. repeat case_match; by simplify_eq.
Qed.

Lemma run_status sid ths a b : interrupt_run sid ths a b -> resting (tb_threads (am_db a)) sid ths ->
  Status.s_status (tb_threads (am_db a)) !! sid = Some SessionIdle \/ (exists th, th ∈ ths /\ ts_status th = "running") ->
  Status.s_status (tb_threads (am_db b)) !! sid = Some SessionIdle.
Proof.
  induction 1 as [a|th ths a b out tb He _ IH]; intros Hrest Hst; [by destruct Hst as [|(? & ?%not_elem_of_nil & _)]|].
  pose proof (ae_moved _ _ _ _ _ He) as Hm. pose proof (ae_running _ _ _ _ _ He) as Hrun.
  assert (Hrest' : resting (tb_threads tb) sid ths).
  { destruct (ir_cancelSession out).
    - destruct Hm as (evs & moved & Hm). intros id r' Hin.
      destruct (live_calmed _ _ sid id r' ltac:(intros i r Hr; destruct (idle_rows _ _ _ _ _ _ Hm i r Hr) as (x & ? & ? & _); eauto)
                  (idle_dom _ _ _ _ _ _ Hm) Hin) as (r & [[Hl Hc]|Hi]); [|by left].
      destruct (Hrest id r Hl) as [Hi|(th' & [-> | Hin']%elem_of_cons & Hid & Hr)]; [|left|right; eauto].
      + left. destruct Hc as [->|(_ & _ & _ & ? & _)]; done.
      + apply elem_of_live_rows in Hl as (Hl & Hs & _). apply elem_of_live_rows in Hin as (Hin & _).
        destruct (idle_rows _ _ _ _ _ _ Hm id r Hl) as (r2 & Hr2 & _ & Hend). rewrite Hin in Hr2. injection Hr2 as <-. by apply Hend.
    - rewrite Hm. intros id r Hl. destruct (Hrest id r Hl) as [Hi|(th' & [-> | Hin']%elem_of_cons & Hid & Hr)]; [by left| |right; eauto].
      by specialize (Hrun Hr). }
  apply IH; [exact Hrest'|]. cbn. destruct (decide (Exists (fun th => ts_status th = "running") ths)) as [Hex|Hno].
  { right. apply Exists_exists in Hex as (th' & ? & ?). eauto. }
  left. destruct (ir_cancelSession out).
  - destruct Hm as (evs & moved & Hm). eapply idle_folds; [exact Hm|]. intros id r Hl. destruct (Hrest' id r Hl) as [|(th' & Hin & _ & Hr)]; [by left|].
    exfalso. apply Hno, Exists_exists. eauto.
  - rewrite Hm. destruct Hst as [Hst|(th' & [-> | Hin]%elem_of_cons & Hr)]; [done|by specialize (Hrun Hr)|].
    exfalso. apply Hno, Exists_exists. eauto.
Qed.

(** ** The theorem *)

(** A child's row has its own id, a row without a parent is the session's primary. *)
Definition threads_named (tb : tables) (sid : string) : Prop :=
  forall id r, s_threads (tb_threads tb) !! id = Some r -> t_session r = sid ->
    if bool_decide (is_Some (tb_parent tb !! id)) then id <> EmptyString /\ id <> PrimaryThreadID sid else id = PrimaryThreadID sid.

(** The [thread_id] column of a thread's events. *)
Definition column_of (sid id : string) : string := if String.eqb id (PrimaryThreadID sid) then EmptyString else id.

Definition at_rest_or_running (r : thread_row) : Prop := t_status r = SessionIdle \/ t_status r = SessionRunning.

Lemma live_state tb sid status id r : threads_named tb sid -> (id, r) ∈ live_rows (tb_threads tb) sid -> at_rest_or_running r ->
  MkThreadState (column_of sid id) (status_text (t_status r)) (t_agent r) ∈ liveThreads (thread_rows tb) sid status /\
  thread_of sid (column_of sid id) = id.
Proof.
  intros Hn (Hr & Hs & Ha & _)%elem_of_live_rows Hst. pose proof (Hn id r Hr Hs) as Hid. split.
  - assert (Hin : MkThreadState (column_of sid id) (status_text (t_status r)) (t_agent r) ∈
      map state_of (merge_sort trow_le (filter (fun x => live_row sid x = true) (thread_rows tb)))).
    { apply list_elem_of_fmap. exists (trow_of (tb_parent tb) (id, r)). split.
      - unfold state_of, column_of, is_child. cbn. destruct (bool_decide (is_Some _)); [|by rewrite Hid, String.eqb_refl].
        by rewrite (proj2 (String.eqb_neq _ _) (proj2 Hid)).
      - rewrite merge_sort_Permutation. apply list_elem_of_filter. split.
        + unfold live_row. cbn. rewrite Hs, Ha, String.eqb_refl. by destruct Hst as [-> | ->].
        + apply list_elem_of_fmap. exists (id, r). split; [done|]. by apply elem_of_map_to_list. }
    unfold liveThreads. destruct (map _ _); [by apply not_elem_of_nil in Hin|done].
  - unfold column_of, thread_of. destruct (String.eqb_spec id (PrimaryThreadID sid)) as [->|Hne]; [done|].
    destruct (bool_decide _); [|done]. by rewrite (proj2 (String.eqb_neq _ _) (proj1 Hid)).
Qed.

Lemma advances_effect po web del kind env rd now mint trace sid ids i d d' :
  run_thens po web del kind env rd now mint trace sid i (map ThenAdvance ids) d = Ok d' ->
  tb_threads (db_tables d') = tb_threads (db_tables d) /\ tb_evals (db_tables d') = tb_evals (db_tables d) /\
  tb_queue (db_tables d') = tb_queue (db_tables d) /\ grown (tb_log (db_tables d)) (tb_log (db_tables d')).
Proof.
  revert i d. induction ids as [|id ids IH]; intros i d; cbn [map run_thens]; [intros [= ->]; split_and!; [done..|apply grown_refl]|].
  intros (d1 & H1 & H)%bind_ok. cbn [run_then] in H1. apply bind_ok in H1 as ([db flow] & H1 & E). injection E as <-.
  unfold lift_flow in H1. destruct (AdvanceThreadTools _ _ _ _ _ _) as [[db' f]|] eqn:Ea; [|done]. injection H1 as -> ->.
  apply IH in H as (-> & -> & -> & Hg). cbn. split_and!; [done..|]. eapply grown_trans; [by eapply grown_advance|exact Hg].
Qed.

Lemma interrupt_batch stamp l ev : sl_posted l = [interrupt_ev] -> sl_answers l = sl_answers (newSendLayout [interrupt_ev]) ->
  ev ∈ rows_at (sl_settled l) 0 -> ev ∈ processingOrder (stamp_posted stamp l).
Proof.
  intros Hp Ha Hev. unfold processingOrder, stamp_posted. cbn [sl_posted sl_answers sl_settled sl_idled sl_wakes sl_parked sl_delivered]. rewrite Hp, Ha.
  change (StampInterrupts stamp [interrupt_ev]) with [MkNewEvent EmptyString EventUserInterrupt (Some (JObject [("session_thread_id", JNull)])) (Some stamp) EmptyString false false].
  cbn [imap]. unfold place_posted at 1. cbn [sl_answers n_id].
  rewrite bool_decide_false by (change (ap_Pending (sl_answers (newSendLayout [interrupt_ev]))) with (∅ : gset string); set_solver).
  cbn [is_answer_event n_type]. change (String.eqb EventUserInterrupt EventUserInterrupt) with true. cbn [is_answer_event].
  destruct (place_wakes _ _) as [woken rest]. apply elem_of_app. left. apply elem_of_app. left. cbn [map concat fst].
  apply elem_of_app. left. cbn. apply elem_of_app. by left.
Qed.

Lemma cancel_all_dead now q sid id w : q_items (CancelSession now q sid) !! id = Some w -> w_session w = sid -> live w = false.
Proof.
  unfold CancelSession, update_where. cbn. rewrite lookup_fmap. destruct (q_items q !! id) as [r|]; [|done]. cbn. intros [= <-].
  case_bool_decide as Hs; cbn [andb]; [|intros Hw; by destruct (Hs Hw)]. destruct (is_state stopped r) eqn:E; cbn [negb]; [|done]. intros _.
  unfold live, is_state, state_eqb in *. by destruct (w_state r).
Qed.

Section stops.
Context (platformExecuted isWebTool isDelegationTool : string -> bool) (kind env : string) (arm_now : string -> Z) (stamp_now : Z).
Context (rd : readings) (now : Z) (mint : nat -> string) (trace : option string) (outcomeIDs : nat -> string).

#[local] Abbreviation interrupt_session :=
  (interruptSessionInTx platformExecuted isWebTool isDelegationTool kind env arm_now stamp_now rd now mint trace outcomeIDs).

Definition first_arms (d : api_db) : arms := MkArms (db_tables d) (newSendLayout [interrupt_ev]) [] [] [] false.

(** Flipped whenever one is open, the outcomes are all over. *)
Lemma mutate_over at_ flip evals : (existsb (fun e => negb (OutcomeResultTerminal (oe_Result e))) evals = true -> flip = true) ->
  Forall (fun e => OutcomeResultTerminal (oe_Result e) = true) (mutate_outcomes at_ flip [] evals).
Proof.
  intros Hflip. unfold mutate_outcomes. rewrite app_nil_r. destruct flip.
  - unfold FlipNonTerminalOutcomes. apply Forall_forall. intros e (e0 & -> & _)%list_elem_of_fmap.
    by destruct (OutcomeResultTerminal (oe_Result e0)) eqn:E.
  - apply Forall_forall. intros e He. destruct (OutcomeResultTerminal (oe_Result e)) eqn:E; [done|].
    exfalso. assert (false = true); [|done]. apply Hflip, existsb_exists. exists e. split; [by apply list_elem_of_In|by rewrite E].
Qed.

(** What one run of the interrupt commits. *)
Lemma interrupt_session_run sid d sess rows d' : l_sessions (tb_log (db_tables d)) !! sid = Some sess -> s_archived sess = None ->
  interrupt_session sid d = Ok (rows, d') ->
  let threads := liveThreads (thread_rows (db_tables d)) sid (session_status (db_tables d) sid) in
  exists a db1, interrupt_run sid threads (first_arms d) a /\
    AppendInTx rd (tb_log (am_db a)) sid (keepLastSessionIdle (processingOrder (stamp_posted stamp_now (am_layout a))))
      (with_status no_options (last (am_moves a))) = Ok (rows, db1) /\
    grown db1 (tb_log (db_tables d')) /\
    tb_threads (db_tables d') = tb_threads (am_db a) /\
    tb_evals (db_tables d') = alter (mutate_outcomes stamp_now (am_flip a) []) sid (tb_evals (am_db a)) /\
    (am_cancels a = [CancelAll] -> tb_queue (db_tables d') = CancelSession now (tb_queue (am_db a)) sid) /\
    sl_posted (am_layout a) = [interrupt_ev] /\ sl_answers (am_layout a) = sl_answers (newSendLayout [interrupt_ev]).
Proof.
  intros Hs Ha H threads. unfold interruptSessionInTx in H. rewrite Hs, Ha, normalize_interrupt, bool_decide_false in H by (by intros [? ?]).
  apply bind_ok in H as (a & Har & H). fold threads in Har. change (MkArms _ _ _ _ _ _) with (first_arms d) in Har.
  destruct (interrupt_threads_answers _ _ _ _ _ _ _ Har) as [Hans Hpost].
  apply interrupt_threads_run in Har as [Hrun _]; [|done].
  apply bind_ok in H as ([rows1 d1] & Hc & H). injection H as <- <-. unfold commit_send in Hc.
  destruct (AppendInTx _ _ _ _ _) as [[rows db1]|] eqn:Eap; [|done]. cbn [foldl] in Hc. fold threads in Hc.
  apply bind_ok in Hc as (d2 & Ht & Hc). injection Hc as <- <-. rewrite <- map_map in Ht. apply advances_effect in Ht as (H1 & H2 & H3 & H4).
  rewrite run_cancel_log. cbn in H1, H2, H3, H4 |- *. exists a, db1. split_and!; try done.
  intros ->. cbn. by rewrite H3.
Qed.

(** C7: After an interrupt of the whole session — the platform's, or where no dream holds the session a client's,
    which writes the same — every live thread that ran is idle on end_turn, and no tool call of a live thread that
    was idle or running is left without a result, so the conversation can resume.  If some live thread ran, no work
    item of the session is live, so no claimant can settle the interrupted turn, and the session is idle if its
    other live threads were idle or running too.  If the primary was live, idle or running, its outcomes are all
    over.  (Where no thread ran, work queued for an idle session may be left to run; the theorem says nothing of it.) *)
Theorem interruptSessionInTx_stops sid d sess rows d' (Hs : l_sessions (tb_log (db_tables d)) !! sid = Some sess) (Ha : s_archived sess = None)
    (Hn : threads_named (db_tables d) sid) (H : interrupt_session sid d = Ok (rows, d')) :
  let live_row_of id r := (id, r) ∈ live_rows (tb_threads (db_tables d)) sid in
  (forall id r, live_row_of id r -> t_status r = SessionRunning ->
     exists r', s_threads (tb_threads (db_tables d')) !! id = Some r' /\ at_end r') /\
  (forall id r tu, live_row_of id r -> at_rest_or_running r -> tu ∈ l_events (tb_log (db_tables d)) -> e_session tu = sid ->
     mem_string (e_type tu) toolUseTypes = true -> e_thread tu = column_of sid id -> answeredBy (tb_log (db_tables d')) sid tu = true) /\
  ((exists id r, live_row_of id r /\ t_status r = SessionRunning) ->
     (forall id w, q_items (tb_queue (db_tables d')) !! id = Some w -> w_session w = sid -> live w = false) /\
     ((forall id r, live_row_of id r -> at_rest_or_running r) -> Status.s_status (tb_threads (db_tables d')) !! sid = Some SessionIdle)) /\
  ((exists r, live_row_of (PrimaryThreadID sid) r /\ at_rest_or_running r) ->
     Forall (fun e => OutcomeResultTerminal (oe_Result e) = true) (default [] (tb_evals (db_tables d') !! sid))).
Proof.
  intros live_row_of. destruct (interrupt_session_run sid d sess rows d' Hs Ha H) as (a & db1 & Hrun & Happ & Hgrow & Hthr & Hev & Hq & Hpost & Hans).
  set (threads := liveThreads _ _ _) in *.
  assert (Hth : forall id r, live_row_of id r -> at_rest_or_running r ->
    exists th, th ∈ threads /\ ts_id th = column_of sid id /\ thread_of sid (ts_id th) = id /\ ts_status th = status_text (t_status r)).
  { intros id r Hl Hr. destruct (live_state (db_tables d) sid (session_status (db_tables d) sid) id r Hn Hl Hr) as [Hin Hof].
    eexists. split; [exact Hin|done]. }
  split_and!.
  - intros id r Hl Hr. destruct (Hth id r Hl) as (th & Hin & _ & Hof & Hst); [by right|]. pose proof Hl as (Hrow & Hses & _)%elem_of_live_rows.
    destruct (run_rows _ _ _ _ Hrun id r Hrow) as (r' & Hr' & _ & Hend). exists r'. rewrite Hthr. split; [done|].
    apply Hend; [done|]. exists th. by rewrite Hst, Hr.
  - intros id r tu Hl Hr Htu Hts Hty Hcol. destruct (Hth id r Hl Hr) as (th & Hin & Hid & _ & Hst).
    apply (grown_answered db1); [exact Hgrow|]. pose proof (grown_append _ _ _ _ (with_status no_options (last (am_moves a))) _ _ eq_refl Happ) as Hap.
    destruct (run_same _ _ _ _ Hrun) as (_ & _ & Hlog).
    destruct (answeredBy (tb_log (db_tables d)) sid tu) eqn:Eans.
    { eapply grown_answered; [|exact Eans]. eapply grown_trans; [exists []; rewrite app_nil_r; exact Hlog|by exists rows]. }
    destruct (run_settled _ _ _ _ Hrun) as [_ Hset]. destruct (Hset th (ref_of tu) Hin) as (t0 & ev & Hevin & Hres).
    { rewrite Hst. unfold interruptible. by destruct Hr as [-> | ->]. }
    { apply list_elem_of_fmap_2, elem_of_select_by_seq. split; [exact Htu|].
      change (am_db (first_arms d)) with (db_tables d). unfold unansweredToolUse, toolUseScope, on_thread. by rewrite Hts, Hty, Eans, Hcol, Hid, !String.eqb_refl. }
    destruct (interrupt_result_shape _ _ _ Hres) as (Hplain & _ & _ & Hrty & Href).
    destruct (append_member rd (tb_log (am_db a)) sid _ (with_status no_options (last (am_moves a))) rows db1 ev eq_refl Happ) as (x & Hx & Hxs & Hxt & Hxp & _); [|exact Hplain|].
    { apply keep_member; [|by apply interrupt_batch]. unfold plain_event in Hplain. by bool_prop. }
    destruct (stamped_in _ _ x Hap) as (x' & Hx' & Hxx); [by apply elem_of_app; right|].
    unfold answeredBy. apply existsb_exists. exists x'. split; [by apply list_elem_of_In|]. eapply answers_stamped; [exact Hxx|].
    unfold answers. by rewrite Hxs, Hxt, Hxp, Href, Hrty, !String.eqb_refl.
  - intros (id & r & Hl & Hr). destruct (Hth id r Hl) as (th & Hin & _ & _ & Hst); [by right|]. rewrite Hr in Hst.
    assert (Hex : exists th, th ∈ threads /\ ts_status th = "running") by eauto. split.
    + intros i w Hw Hws. rewrite Hq in Hw by (by apply (run_cancels _ _ _ _ Hrun)). by eapply cancel_all_dead.
    + intros Hall. rewrite Hthr. apply (run_status _ _ _ _ Hrun); [|by right]. intros id' r' Hl'. destruct (Hall id' r' Hl') as [|E]; [by left|].
      right. destruct (Hth id' r' Hl') as (th' & ? & _ & ? & Hst'); [by right|]. exists th'. by rewrite Hst', E.
  - intros (r & Hl & Hr). destruct (Hth _ r Hl Hr) as (th & Hin & Hid & _ & Hst).
    destruct (run_same _ _ _ _ Hrun) as (_ & He & _). destruct (run_flip _ _ _ _ Hrun) as [_ Hflip]. rewrite Hev, He.
    destruct (tb_evals (am_db (first_arms d)) !! sid) as [evals|] eqn:Ee; [|by rewrite lookup_alter_eq, Ee; constructor].
    rewrite lookup_alter_eq, Ee. cbn. apply mutate_over. intros Ex. apply Hflip; [|exact Ex].
    exists th. split; [done|]. rewrite Hid, Hst. split; [unfold column_of; by rewrite String.eqb_refl|].
    unfold interruptible. by destruct Hr as [-> | ->].
Qed.
End stops.

(** ** Witnesses: a coordinator mid-call with a child at work, an outcome being pursued. *)

Definition x_call (id thread : string) (seq : Z) : erow :=
  MkErow id "sesn_1" seq EventAgentToolUse (JObject [("name", JString "bash"); ("evaluated_permission", JString "allow")]) (Some 5) 5 thread false.

Definition x_turn : row := MkRow "env_1" "sesn_1" None ModelTurn active (Some 100) ∅ None 0 None (Some 0) None None None 0.

Definition x_tables : tables := MkTables
  (MkLdb [x_call "sevt_1" EmptyString 1; x_call "sevt_2" "sthr_a" 2]
     {["sesn_1" := MkSrow None (Some "agent") (MkUsage 0 0 0 (MkCache 0 0)) 0 None 0 "running" []]} ∅ [])
  (MkS {[ PrimaryThreadID "sesn_1" := MkThread "sesn_1" SessionRunning None true "lead" None 0;
          "sthr_a" := MkThread "sesn_1" SessionRunning None true "helper" None 1 ]} {[ "sesn_1" := SessionRunning ]} ∅)
  {["sthr_a" := PrimaryThreadID "sesn_1"]}
  {["sesn_1" := [MkOutcome "outcome_evaluation" "outc_1" "Write the report" "…" 0 OutcomeResultRunning None]]}
  (MkQ {["env_1" := cloud]} {["work_1" := x_turn]} ∅).

(** A dream of hers is over; one of another session's is not. *)
Definition x_db : api_db := MkApi x_tables [] ∅ [MkDream "drm_1" (Some "sesn_1") (Some 7); MkDream "drm_2" (Some "sesn_2") None].

Definition x_rd : readings := MkReadings (fun z => 50 + z) 0 0 (fun _ => 50) (fun _ => "sevt_new").

Definition x_none (_ : string) : bool := false.

Definition x_interrupted : result send_error (list erow * api_db) :=
  interruptSessionInTx (fun _ => true) x_none x_none "cloud" "env_1" (fun _ => 40) 40 x_rd 50 (fun _ => "work_2") None
    (fun _ => "outc_new") "sesn_1" x_db.

(** And the same, held by a dream. *)
Definition x_held : api_db := with_dreams x_db [MkDream "drm_3" (Some "sesn_1") None].

Abbreviation x_send := (sendSessionEvents (fun _ => true) x_none x_none "cloud" "env_1" (fun _ => 40) 40 x_rd 50 (fun _ => "work_2") None).

Lemma interruptSessionInTx_is_send_witness :
  (exists rows d', x_send ManagementCredential (fun _ => "outc_new") (fun _ => EmptyString) "sesn_1" x_db [raw_interrupt] = Ok (rows, d') /\ length rows = 8%nat) /\
  (forall raws, x_send ManagementCredential (fun _ => "outc_new") (fun _ => EmptyString) "sesn_1" x_held raws = Err (SendDreamOwned "drm_3")).
Proof.
  destruct (l_sessions (tb_log (db_tables x_db)) !! "sesn_1") as [sess|] eqn:Hs; [|vm_compute in Hs; discriminate Hs].
  assert (Ha : s_archived sess = None) by (vm_compute in Hs; injection Hs as <-; reflexivity).
  pose proof (fun d E => interruptSessionInTx_is_send (fun _ => true) x_none x_none "cloud" "env_1" (fun _ => 40) 40 x_rd 50 (fun _ => "work_2") None
    (fun _ => "outc_new") "sesn_1" d sess E Ha) as H. split.
  - destruct (H x_db Hs) as (_ & <- & _).
    + eexists _, _. split; [vm_compute; reflexivity|vm_compute; reflexivity].
    + intros r [-> | [-> | []%not_elem_of_nil]%elem_of_cons]%elem_of_cons; [discriminate|intros [=]].
  - intros raws. destruct (H x_held Hs) as (_ & _ & Hheld).
    destruct (Hheld (MkDream "drm_3" (Some "sesn_1") None)) as (o & [-> | []%not_elem_of_nil]%elem_of_cons & _ & _ & Ho);
      [left|reflexivity|reflexivity|]. apply Ho.
Defined.

Lemma x_named : threads_named x_tables "sesn_1".
Proof.
  intros id r Hr _. cbn in Hr. destruct (decide (id = "sthr_a")) as [->|Hne]; [by vm_compute|].
  assert (id = PrimaryThreadID "sesn_1") as ->.
  { destruct (decide (id = PrimaryThreadID "sesn_1")) as [|Hne']; [done|].
    by rewrite lookup_insert_ne, lookup_singleton_ne in Hr. }
  rewrite bool_decide_false; [done|]. vm_compute. by intros [? ?].
Qed.

Lemma interruptSessionInTx_stops_witness :
  exists rows d' r, x_interrupted = Ok (rows, d') /\ s_threads (tb_threads (db_tables d')) !! "sthr_a" = Some r /\ at_end r /\
    answeredBy (tb_log (db_tables d')) "sesn_1" (x_call "sevt_2" "sthr_a" 2) = true /\
    Status.s_status (tb_threads (db_tables d')) !! "sesn_1" = Some SessionIdle.
Proof.
  destruct (l_sessions (tb_log (db_tables x_db)) !! "sesn_1") as [sess|] eqn:Hs; [|vm_compute in Hs; discriminate Hs].
  assert (Ha : s_archived sess = None) by (vm_compute in Hs; injection Hs as <-; reflexivity).
  destruct x_interrupted as [[rows d']|] eqn:Hx; [|vm_compute in Hx; discriminate Hx].
  destruct (interruptSessionInTx_stops (fun _ => true) x_none x_none "cloud" "env_1" (fun _ => 40) 40 x_rd 50 (fun _ => "work_2") None
    (fun _ => "outc_new") "sesn_1" x_db sess rows d' Hs Ha x_named Hx) as (Hend & Hans & Hwork & _).
  assert (Hrow : ("sthr_a", MkThread "sesn_1" SessionRunning None true "helper" None 1) ∈ live_rows (tb_threads (db_tables x_db)) "sesn_1")
    by (apply elem_of_live_rows; split; [vm_compute; reflexivity|split; [reflexivity|split; [reflexivity|discriminate]]]).
  destruct (Hend _ _ Hrow eq_refl) as (r & Hr & He). exists rows, d', r. split; [reflexivity|]. split; [exact Hr|]. split; [exact He|]. split.
  - apply (Hans _ _ _ Hrow); [right; reflexivity|right; left|vm_compute; reflexivity..].
  - apply Hwork; [eauto|]. intros id r' Hl. right.
    assert (Hall : Forall (fun kv => t_status kv.2 = SessionRunning) (live_rows (tb_threads (db_tables x_db)) "sesn_1"))
      by (vm_compute; repeat constructor).
    rewrite Forall_forall in Hall. exact (Hall _ Hl).
Defined.
