(* ===== verification/Turn.v ===== *)
(** * Turn: how an agent's turn is rendered and settled (internal/brain/brain.go, toolflow.go).

    A model's turn becomes its wire events, classed by what each call's name means; the
    settlement commits them with the thread's move and the work item's fate, or hands the
    item back.  The state is the tables of [Grading].  The span's end event, the ids the
    code mints and the clock are arguments; a turn's history and the request assembled from
    it are [Replay]'s, and the model call itself is not here. *)
From Stdlib Require Import Lia Ascii.
From stdpp Require Import pretty.
From S2P Require Import Prelude GoStrings Ids Queue Status Json Domain Consumption Log ToolQuery ToolFlow ToolSettle Outcomes Replay Threadmsg Grading.

(** ** The delegation tools (internal/toolset/delegation.go) *)

Definition ToolCreateAgent : string := "create_agent".
Definition ToolSendToAgent : string := "send_to_agent".
Definition ToolListAgents : string := "list_agents".
Definition ToolWaitForAgents : string := "wait_for_agents".
Definition ToolSubmitResult : string := "submit_result".
Definition ToolSendToParent : string := "send_to_parent".

Definition delegationToolNames : list string :=
  [ToolCreateAgent; ToolSendToAgent; ToolListAgents; ToolWaitForAgents; ToolSubmitResult; ToolSendToParent].

Definition IsCoordinatorTool (name : string) : bool :=
  mem_string name [ToolCreateAgent; ToolSendToAgent; ToolListAgents; ToolWaitForAgents].

Definition IsWorkerTool (name : string) : bool := String.eqb name ToolSubmitResult || String.eqb name ToolSendToParent.

Definition IsDelegationTool (name : string) : bool := mem_string name delegationToolNames.

(** The built-ins whose definition is marked [web] (definitions.go). *)
Definition IsWebTool (name : string) : bool := mem_string name ["web_fetch"; "web_search"].

(** The predicate every settlement passes the log. *)
Definition platformOwned (name : string) : bool := IsWebTool name || IsDelegationTool name.

(** ** Text (internal/toolset/toolset.go) *)

Definition SanitizeText (s : string) : string := ReplaceByte s zero EmptyString.

(** [utf8.DecodeLastRuneInString]: the rune and its width. *)
Definition DecodeLastRune (s : string) : Z * nat :=
  let n := String.length s in
  match n with
  | O => (RuneError, O)
  | S e =>
      match String.get e s with
      | None => (RuneError, O)
      | Some c =>
          if ord c <? 128 then (ord c, 1%nat)
          else
            let starts i := match String.get i s with Some c => negb (is_cont c) | None => false end in
            let start := default (n - 5)%nat (find starts (rev (seq (e - 3) (Nat.min 3 e)))) in
            match decode_rune (drop_bytes start s) with
            | Some (r, b, _) => if Nat.eqb (start + String.length b) n then (r, String.length b) else (RuneError, 1%nat)
            | None => (RuneError, 1%nat)
            end
      end
  end.

(** At most [utf8.UTFMax] bytes are dropped from the cut's end. *)
Fixpoint trim_cut (k : nat) (cut : string) : string :=
  match k, cut with
  | S k, String _ _ =>
      let '(r, size) := DecodeLastRune cut in
      if (r =? RuneError) && Nat.leb size 1 then trim_cut k (take_bytes (String.length cut - 1) cut) else cut
  | _, _ => cut
  end.

Definition TruncateRunes (s : string) (n : Z) : string :=
  if slen s <=? n then s else trim_cut 4 (take_bytes (Z.to_nat n) s).

(** ** What a name means *)

Definition PolicyAlwaysAsk : string := "always_ask".

Record toolClass := MkClass {
  tc_kind : EventType; tc_policy : string; tc_server : string; tc_tool : string; tc_settlement : bool; tc_builtin : bool }.

Record ToolUse := MkToolUse { tu_ID : string; tu_Name : string; tu_Input : json }.

Record turnResult := MkTurn {
  tr_text : list string; tr_messageEventID : string; tr_toolUses : list ToolUse; tr_cut : bool;
  tr_stopReason : string; tr_usage : option ModelUsage; tr_thinking : list thinking_block }.

(** A call the settlement answers itself. *)
Record delegatedCall := MkDelegated {
  dc_eventID : string; dc_name : string; dc_input : json; dc_unoffered : bool; dc_cut : string; dc_six : bool }.

(** [provider.StopNote] *)
Definition StopNote (reason : string) (usage : option ModelUsage) : string :=
  if String.eqb reason EmptyString then "no stop reason"
  else match usage with
       | None => "stop_reason " +:+ reason
       | Some u => "stop_reason " +:+ reason +:+ ", " +:+ pretty (mu_output u) +:+ " output tokens"
       end.

(** ** The work a turn's calls need *)

Definition execRank (k : option Queue.Kind) : Z :=
  match k with Some MCPExec => 3 | Some WebExec => 2 | Some ToolExec => 1 | _ => 0 end.

Definition escalate (have want : option Queue.Kind) : option Queue.Kind :=
  if execRank have <? execRank want then want else have.

(** ** A turn as its wire events *)

Definition message_event (id : string) (text : list string) : NewEvent :=
  MkNewEvent id EventAgentMessage
    (Some (JObject [("content", JArray (map (fun t => JObject [("text", JString t); ("type", JString "text")]) text))]))
    None EmptyString false false.

(** How one call is classed: a name not offered, or the cut one, is the settlement's. *)
Record call_class := MkCallClass { cc_class : toolClass; cc_offered : bool; cc_cut : bool; cc_six : bool }.

Definition settled_class : toolClass := MkClass EventAgentToolUse EmptyString EmptyString EmptyString true false.

Definition classify (class : gmap string toolClass) (turn_cut last_call : bool) (tu : ToolUse) : call_class :=
  let c := class !! tu_Name tu in
  let offered := bool_decide (is_Some c) in
  let cut := offered && turn_cut && last_call in
  MkCallClass (if negb offered || cut then settled_class else default settled_class c) offered cut
    (match c with Some c => tc_settlement c | None => false end).

Definition gated (c : toolClass) : bool := mem_string (tc_kind c) [EventAgentToolUse; EventAgentMCPToolUse].

(** The permission a platform call is stamped with. *)
Definition call_permission (c : call_class) : string :=
  if negb (cc_offered c) || cc_cut c then EvalPermDeny
  else if String.eqb (tc_policy (cc_class c)) PolicyAlwaysAsk then EvalPermAsk else EvalPermAllow.

Definition call_event (id : string) (c : call_class) (tu : ToolUse) : NewEvent :=
  let k := cc_class c in
  let mcp := String.eqb (tc_kind k) EventAgentMCPToolUse in
  MkNewEvent id (tc_kind k)
    (Some (JObject (
       (if gated k then [("evaluated_permission", JString (call_permission c))] else []) ++
       [("input", tu_Input tu)] ++
       (if mcp then [("mcp_server_name", JString (tc_server k))] else []) ++
       [("name", JString (if mcp then tc_tool k else tu_Name tu)); ("session_thread_id", JNull)])))
    None EmptyString false false.

(** The work kind after this call: a call the settlement answers escalates nothing. *)
Definition call_kind (kind : option Queue.Kind) (c : call_class) (tu : ToolUse) : option Queue.Kind :=
  let k := cc_class c in
  if String.eqb (tc_kind k) EventAgentToolUse then
    if tc_settlement k then kind
    else let kind := escalate kind (Some ToolExec) in
         if IsWebTool (tu_Name tu) then escalate kind (Some WebExec) else kind
  else if String.eqb (tc_kind k) EventAgentMCPToolUse then escalate kind (Some MCPExec) else kind.

Definition call_asks (c : call_class) : bool :=
  let k := cc_class c in
  String.eqb (tc_kind k) EventAgentCustomToolUse || (gated k && String.eqb (call_permission c) EvalPermAsk).

Definition delegated_call (turn : turnResult) (id : string) (c : call_class) (tu : ToolUse) : option delegatedCall :=
  if tc_settlement (cc_class c)
  then Some (MkDelegated id (tu_Name tu) (tu_Input tu) (negb (cc_offered c))
               (if cc_cut c then StopNote (tr_stopReason turn) (tr_usage turn) else EmptyString) (cc_six c))
  else None.

Record turn_out := MkTurnOut {
  to_batch : list NewEvent; to_kind : option Queue.Kind; to_asks : list string; to_delegated : list delegatedCall }.

(** The loop over the calls, [i] the index of the next one. *)
Fixpoint call_events (turn : turnResult) (class : gmap string toolClass) (mint : nat -> string) (i : nat) (calls : list ToolUse)
    (out : turn_out) : turn_out :=
  match calls with
  | [] => out
  | tu :: calls' =>
      let c := classify class (tr_cut turn) (Nat.eqb (S i) (length (tr_toolUses turn))) tu in
      let id := mint i in
      call_events turn class mint (S i) calls'
        (MkTurnOut (to_batch out ++ [call_event id c tu]) (call_kind (to_kind out) c tu)
           (to_asks out ++ (if call_asks c then [id] else []))
           (to_delegated out ++ option_list (delegated_call turn id c tu)))
  end.

Definition turnEvents (turn : turnResult) (class : gmap string toolClass) (mint : nat -> string) : turn_out :=
  call_events turn class mint 0 (tr_toolUses turn)
    (MkTurnOut (match tr_text turn with [] => [] | text => [message_event (tr_messageEventID turn) text] end) None [] []).

(** [stampThread]: a turn's events on its thread, and what a client must answer on a child
    cross-posted. *)
Definition stamp_thread (threadID : string) (askIDs : list string) (ev : NewEvent) : NewEvent :=
  MkNewEvent (n_id ev) (n_type ev) (n_payload ev) (n_processed ev) threadID
    (n_cross ev || (negb (String.eqb threadID EmptyString) &&
                    (String.eqb (n_type ev) EventAgentCustomToolUse || mem_string (n_id ev) askIDs)))
    (n_restated ev).

Definition stampThread (evs : list NewEvent) (threadID : string) (askIDs : list string) : list NewEvent :=
  map (stamp_thread threadID askIDs) evs.

(** ** Settlements *)

Inductive turn_error :=
| TurnSettle (e : settle_error) | TurnFlow (e : flow_error) | TurnStatus (e : status_error)
| TurnNoSession | TurnConstraint.

Definition of_settle {A} (r : result settle_error A) : result turn_error A :=
  match r with Ok x => Ok x | Err e => Err (TurnSettle e) end.
Definition of_flow {A} (r : result flow_error A) : result turn_error A :=
  match r with Ok x => Ok x | Err e => Err (TurnFlow e) end.

Definition with_ldb (tb : tables) (db : ldb) : tables :=
  MkTables db (tb_threads tb) (tb_parent tb) (tb_evals tb) (tb_queue tb).

(** [sessionStatusNow]: the status column under the caller's lock. *)
Definition sessionStatusNow (tb : tables) (sid : string) : result turn_error SessionStatus :=
  match Status.s_status (tb_threads tb) !! sid with Some st => Ok st | None => Err TurnNoSession end.

(** The net move between two readings of the column. *)
Definition net_move (before after : SessionStatus) : option SessionStatus :=
  if bool_decide (after = before) then None else Some after.

(** [environments.kind], as its text. *)
Definition env_text (tb : tables) (env : string) : string :=
  match q_envs (tb_queue tb) !! env with Some self_hosted => EnvSelfHosted | Some cloud => "cloud" | None => EmptyString end.

Definition work_kind (c : ExecClass) : option Queue.Kind :=
  match c with ExecMCP => Some MCPExec | ExecWeb => Some WebExec | ExecTool => Some ToolExec | ExecNone => None end.

(** [threadHead]: the thread's newest seq, 0 before its first. *)
Definition threadHead (db : ldb) (sid tid : string) : Z :=
  foldl (fun m e => if String.eqb (e_session e) sid && String.eqb (e_thread e) tid then Z.max m (e_seq e) else m) 0 (l_events db).

Section settle.
(** The transaction's clocks, its [now()] and the active span's context. *)
Context (rd : readings) (now : Z) (trace : option string).

Definition enqueue_thread (tb : tables) (wid env sid tid : string) (k : Queue.Kind) : result turn_error tables :=
  match EnqueueThread now (tb_queue tb) wid env sid tid k trace with
  | Ok (_, q) => Ok (with_queue tb q)
  | Err e => Err (TurnSettle (SettleQueue e))
  end.

Definition enqueueRunnableTools (tb : tables) (it : Item) (wid : string) : result turn_error tables :=
  let class := RunnableExecClass (tb_log tb) (it_session it) (env_text tb (it_env it)) [] [] IsWebTool IsDelegationTool in
  match work_kind class with
  | Some k => enqueue_thread tb wid (it_env it) (it_session it) EmptyString k
  | None => Ok tb
  end.

(** The walk of a thread's calls, and the rows it changes. *)
Definition advance_tools (tb : tables) (it : Item) : result turn_error (tables * ToolFlow) :=
  try '(db, flow) <- of_flow (AdvanceThreadTools rd (tb_log tb) (it_session it) (it_thread it) (env_text tb (it_env it)) platformOwned);
  Ok (with_ldb tb db, flow).

(** [SettleToolFlow], in its own append. *)
Definition settle_flow (tb : tables) (sid tid : string) (flow : ToolFlow) : result turn_error (option SessionStatus * tables) :=
  match SettleTransition (tb_threads tb) sid tid flow with
  | Err e => Err (TurnFlow e)
  | Ok None => Ok (None, tb)
  | Ok (Some t) =>
      try '(evs, moved, tb) <- of_settle (transition tb sid t);
      try tb <- of_settle (append rd tb sid evs no_options);
      Ok (moved, tb)
  end.

(** [settleTools]: the thread's calls advance; what they release is scheduled, and a thread
    with none left unsettled gets its next turn.  [wid1] and [wid2] are minted for both. *)
Definition settleTools (tb : tables) (it : Item) (wid1 wid2 : string) : result turn_error (option SessionStatus * tables) :=
  try '(tb, flow) <- advance_tools tb it;
  try '(moved, tb) <- settle_flow tb (it_session it) (it_thread it) flow;
  try tb <- enqueueRunnableTools tb it wid1;
  try tb <- (if Unsettled flow then Ok tb
             else enqueue_thread tb wid2 (it_env it) (it_session it) (it_thread it) ModelTurn);
  Ok (moved, tb).

(** ** A claim *)

(** The thread as a claim reads it: its status and whether it, or its session, is archived;
    a child without a row of its own is terminated. *)
Definition claimed_status (tb : tables) (sid tid : string) : option (SessionStatus * bool) :=
  match l_sessions (tb_log tb) !! sid, Status.s_status (tb_threads tb) !! sid with
  | Some sess, Some st =>
      let t := row_of (tb_threads tb) sid (thread_of sid tid) in
      let archived := bool_decide (is_Some (s_archived sess)) ||
                      match t with Some r => bool_decide (is_Some (t_archived r)) | None => false end in
      let status := match t with Some r => t_status r | None => st end in
      let child_row := match t with Some _ => bool_decide (is_Some (tb_parent tb !! tid)) | None => false end in
      Some (if negb (String.eqb tid EmptyString) && negb child_row then SessionTerminated else status, archived)
  | _, _ => None
  end.

(** [claimLiveSession]: whether the claim may run its turn. *)
Definition claimLiveSession (tb : tables) (it : Item) (wid : string) : result turn_error (bool * tables) :=
  match claimed_status tb (it_session it) (it_thread it) with
  | None => Err TurnNoSession
  | Some (status, archived) =>
      if negb (bool_decide (status = SessionRunning)) || archived then
        try tb <- of_settle (complete_item now tb it); Ok (false, tb)
      else
        try '(tb, flow) <- advance_tools tb it;
        if Unsettled flow then
          try '(_, tb) <- settle_flow tb (it_session it) (it_thread it) flow;
          try tb <- of_settle (complete_item now tb it);
          try tb <- enqueueRunnableTools tb it wid;
          Ok (false, tb)
        else Ok (true, tb)
  end.

(** What a reclaimed turn puts on the log before it replays. *)
Definition recover_reclaimed (tb : tables) (it : Item) : result turn_error tables :=
  let sid := it_session it in
  match AppendTransition (tb_threads tb) sid []
          [MkTransition (it_thread it) SessionRescheduling None false true; MkTransition (it_thread it) SessionRunning None false true] with
  | Err e => Err (TurnStatus e)
  | Ok (batch, moved, s) =>
      try tb <- of_settle (append rd (with_threads tb s) sid (map status_event batch) (with_status no_options moved));
      try _ <- of_settle (lift_queue (Assert (tb_queue tb) it));
      Ok tb
  end.

(** A turn that cannot be assembled yet is handed on as MCP work; its append holds no event. *)
Definition suspendForDiscovery (tb : tables) (it : Item) (wid : string) : result turn_error tables :=
  match l_sessions (tb_log tb) !! it_session it with
  | None => Err (TurnSettle (SettleAppend ErrSessionNotFound))
  | Some sess =>
      if bool_decide (is_Some (s_archived sess)) then Err (TurnSettle (SettleAppend ErrSessionArchived))
      else
        try tb <- of_settle (complete_item now tb it);
        enqueue_thread tb wid (it_env it) (it_session it) EmptyString MCPExec
  end.

(** A request closed short of the model on the platform's own fault. *)
Definition releaseStartedTurn (tb : tables) (it : Item) (endEv : NewEvent) : result turn_error tables :=
  try tb <- of_settle (append rd tb (it_session it) [endEv]
    (MkOptions (it_thread it) None None 0 false None [] None));
  of_settle (requeue_item now tb it).

(** ** A failed turn *)

Definition retries_notice (agentName : string) : string :=
  "[agent " +:+ agentName +:+ " stopped: its turn exhausted its retries]" +:+ new_line +:+ new_line +:+
  "Archive it to free the slot, or spawn a replacement.".

(** The notice a child that stops for good owes, delivered. *)
Definition stopped_told (tb : tables) (sid tid : string) (text : string -> string) : result turn_error (option Delivery * tables) :=
  match childEndedNotice tb sid tid text with
  | None => Ok (None, tb)
  | Some notice => try '(d, tb) <- of_settle (deliver_ended tb sid tid notice); Ok (Some d, tb)
  end.

Definition told_events (d : option Delivery) : list NewEvent := match d with Some d => delivery_events d | None => [] end.
Definition told_woke (d : option Delivery) : bool := match d with Some d => Woke d | None => false end.
Definition told_moved (d : option Delivery) : option SessionStatus := match d with Some d => dl_Moved d | None => None end.

Definition with_thread (tid : string) (o : AppendOptions) : AppendOptions :=
  MkOptions tid (o_status o) (o_usage o) (o_mark o) (o_consume o) (o_mutate o) (o_thinking o) (o_then o).

(** [settle]: [build] is what the turn itself writes, given whether it chains. *)
Definition settle (tb : tables) (it : Item) (watermark : Z) (opts : AppendOptions) (stop : StopReasonType)
    (build : bool -> list NewEvent) (wid1 wid2 : string) : result turn_error tables :=
  let sid := it_session it in
  let tid := it_thread it in
  let chained := (0 <? watermark) && chainInput (tb_log tb) sid tid watermark in
  let batch := stampThread (build chained) tid [] in
  let opts := with_thread tid opts in
  if chained then
    try tb <- of_settle (append rd tb sid batch opts);
    of_settle (requeue_item now tb it)
  else
    try '(told, tb) <- (if negb (String.eqb tid EmptyString) && bool_decide (stop = StopRetriesExhausted)
                        then stopped_told tb sid tid retries_notice else Ok (None, tb));
    try '(idle, moved, tb) <- of_settle (transition tb sid (idle_on tid stop));
    let moved := match moved with None => told_moved told | _ => moved end in
    try tb <- of_settle (append rd tb sid (batch ++ told_events told ++ idle) (with_status opts moved));
    try tb <- of_settle (complete_item now tb it);
    try tb <- of_settle (enqueueIdleHarvest now tb it moved wid1 trace);
    if told_woke told then enqueue_thread tb wid2 (it_env it) sid EmptyString ModelTurn else Ok tb.

Definition maxFailureMessage : Z := 8192.

(** The text [failTurn] bounds. *)
Definition failure_text (msg : string) : string :=
  let msg := SanitizeText msg in
  if maxFailureMessage <? slen msg then TruncateRunes msg maxFailureMessage +:+ "[truncated]" else msg.

Definition failure_event (msg : string) (chained : bool) : NewEvent :=
  MkNewEvent EmptyString EventSessionError
    (Some (JObject [("error", JObject [("message", JString msg);
       ("retry_status", JObject [("type", JString (if chained then "retrying" else "exhausted"))]);
       ("type", JString "model_request_failed_error")])])) None EmptyString false false.

(** [failTurn]; [endEv] is the end of the span the request started, if it did. *)
Definition failTurn (tb : tables) (it : Item) (endEv : option NewEvent) (watermark : Z) (msg : string) (wid1 wid2 : string)
  : result turn_error tables :=
  let opts := MkOptions EmptyString None None (match endEv with None => watermark | Some _ => 0 end) false None [] None in
  settle tb it watermark opts StopRetriesExhausted
    (fun chained => option_list endEv ++ [failure_event (failure_text msg) chained]) wid1 wid2.
End settle.
