(* ===== verification/Delegate.v ===== *)
(** * Delegate: the calls a settlement answers itself (internal/brain/delegate.go, brain.go).

    The six delegation tools, a name the model was not offered and a call the output cap
    cut off run inside the transaction that commits the turn that made them; each is
    answered there, and the commit schedules what follows.  The state is the tables of
    [Grading]; the ids and clock readings a spawn takes, and the ids of the work items, are
    arguments.  [isPrint] is the Unicode table of printable runes beyond ASCII. *)
From Stdlib Require Import Lia Ascii.
From stdpp Require Import pretty.
From S2P Require Import Prelude GoStrings Ids Queue Status Json Domain Consumption Log ToolQuery ToolFlow ToolSettle Outcomes Replay Threadmsg Grading Turn.

Definition maxLiveThreads : Z := 25.
Definition maxSettlementChain : Z := 25.
Definition maxSessionDelegationTurns : Z := maxLiveThreads * maxSettlementChain.
Definition maxDelegationText : Z := 16384.

(** ** Rendered text *)

Definition quote_byte : ascii := ascii_of_nat 34.
Definition dquote : string := String quote_byte EmptyString.
Definition backslash : string := "\".

Definition hex_digit (n : Z) : ascii := ascii_of_nat (Z.to_nat (if n <? 10 then 48 + n else 87 + n)).

(** The low [k] hexadecimal digits. *)
Fixpoint hex (k : nat) (n : Z) : string :=
  match k with O => EmptyString | S k => hex k (n / 16) +:+ String (hex_digit (n mod 16)) EmptyString end.

(** A decoded rune that is no rune: the width-one U+FFFD. *)
Definition bad_rune (rb : Z * string) : bool := (rb.1 =? RuneError) && Nat.eqb (String.length rb.2) 1.

Definition concat_map (f : Z * string -> string) (s : string) : string := foldr (fun rb acc => f rb +:+ acc) EmptyString (runes s).

(** A string as [encoding/json] writes it, HTML escaping on. *)
Definition json_rune (rb : Z * string) : string :=
  let '(r, b) := rb in
  if bad_rune rb then backslash +:+ "ufffd"
  else if r <? 128 then
    if (r =? 34) || (r =? 92) then backslash +:+ b
    else if r =? 8 then backslash +:+ "b" else if r =? 12 then backslash +:+ "f"
    else if r =? 10 then backslash +:+ "n" else if r =? 13 then backslash +:+ "r" else if r =? 9 then backslash +:+ "t"
    else if (r <? 32) || (r =? 60) || (r =? 62) || (r =? 38) then backslash +:+ "u" +:+ hex 4 r
    else b
  else if (r =? 8232) || (r =? 8233) then backslash +:+ "u" +:+ hex 4 r
  else b.

Definition json_quote (s : string) : string := dquote +:+ concat_map json_rune s +:+ dquote.

(** The answers that are not machine-shaped. *)
Definition answerMessageSent : string := "Message sent.".
Definition answerReported : string := "Result reported.".

Definition member (k v : string) : string := dquote +:+ k +:+ dquote +:+ ":" +:+ v.

Definition answerWaitStarted : string :=
  "{" +:+ member "message" (dquote +:+ "Wait started. Reports arrive as messages; do not conclude yet." +:+ dquote) +:+ "," +:+
  member "timed_out" "false" +:+ "}".
Definition answerNothingToWaitFor : string :=
  "{" +:+ member "message" (dquote +:+ "No agents are running and no reports are pending." +:+ dquote) +:+ "," +:+
  member "timed_out" "true" +:+ "}".

Section delegate.
Context (isPrint : Z -> bool).

(** [strconv.IsPrint] *)
Definition IsPrint (r : Z) : bool := if r <? 128 then in_range 32 126 r else isPrint r.

(** A rune as [%q] writes it. *)
Definition quote_rune (rb : Z * string) : string :=
  let '(r, b) := rb in
  if bad_rune rb then match b with String c _ => backslash +:+ "x" +:+ hex 2 (ord c) | EmptyString => EmptyString end
  else if (r =? 34) || (r =? 92) then backslash +:+ b
  else if IsPrint r then b
  else if r =? 7 then backslash +:+ "a" else if r =? 8 then backslash +:+ "b" else if r =? 12 then backslash +:+ "f"
  else if r =? 10 then backslash +:+ "n" else if r =? 13 then backslash +:+ "r" else if r =? 9 then backslash +:+ "t"
  else if r =? 11 then backslash +:+ "v"
  else if (r <? 32) || (r =? 127) then backslash +:+ "x" +:+ hex 2 r
  else if r <? 65536 then backslash +:+ "u" +:+ hex 4 r else backslash +:+ "U" +:+ hex 8 r.

Definition Quote (s : string) : string := dquote +:+ concat_map quote_rune s +:+ dquote.

Definition delegationText (s : string) : string :=
  let s := TrimSpace (SanitizeText s) in
  if maxDelegationText <? slen s then TruncateRunes s maxDelegationText +:+ "[truncated]" else s.

Definition unknownToolAnswer (name : string) : string :=
  let suffix := "[truncated]" in
  let text := "unknown tool " +:+ Quote (SanitizeText name) +:+ ": not offered to this agent" in
  if maxDelegationText <? slen text then TruncateRunes text (maxDelegationText - slen suffix) +:+ suffix else text.

Definition cutCallAnswer (note : string) : string :=
  "this call was cut off before its arguments were complete (" +:+ note +:+
  "), so it was not run: make it again with shorter arguments, or split the work across several calls".

(** One call's answer on the calling thread's log; the text is never empty. *)
Definition delegationAnswer (caller useID text : string) (isErr : bool) : NewEvent :=
  let text := if String.eqb text EmptyString then "(no output)" else text in
  MkNewEvent EmptyString EventAgentToolResult
    (Some (JObject [("content", message_content text); ("is_error", JBool isErr); ("tool_use_id", JString useID)]))
    None caller false false.

(** [rosterMember]: whether the roster lists the name, and the names it lists.  The bytes it
    finds are the child's stored snapshot, which no other definition here reads. *)
Definition roster_agents (roster : option json) : option (list json) :=
  body_field (fun (cur : list json) v => match v with JArray l => Some l | JNull => Some [] | _ => None end) [] roster "agents".

Definition roster_name (raw : json) : option string :=
  match body_field dec_string EmptyString (Some raw) "name" with
  | Some n => if String.eqb n EmptyString then None else Some n
  | None => None
  end.

Definition rosterMember (roster : option json) (name : string) : bool * list string :=
  match roster_agents roster with
  | None => (false, [])
  | Some agents => let known := omap roster_name agents in (mem_string name known, known)
  end.

Record ResolvedAgent := MkAgent { ag_Name : string; ag_Multiagent : option json }.

(** ** The run over a turn's calls *)

Record waitVerdict := MkVerdict { wv_answer : string; wv_park : bool }.

(** The tables, and what the calls so far did; [d_spawned] counts the spawns. *)
Record delegation := MkDelegation {
  d_tb : tables; d_events : list NewEvent; d_wakes : list string; d_park : bool; d_ended : bool;
  d_waited : option waitVerdict; d_spawned : nat }.

Definition emit (d : delegation) (evs : list NewEvent) : delegation :=
  MkDelegation (d_tb d) (d_events d ++ evs) (d_wakes d) (d_park d) (d_ended d) (d_waited d) (d_spawned d).

(** A child row as the addressing tools read it. *)
Record childThread := MkChild { ct_id : string; ct_agentName : string; ct_status : SessionStatus; ct_stop : option StopReasonType }.

Definition child_of (kv : string * thread_row) : childThread :=
  MkChild kv.1 (t_agent kv.2) (t_status kv.2) (sr_type <$> t_stop kv.2).

Definition liveChildren (tb : tables) (sid : string) : list childThread :=
  map child_of (filter (fun kv => is_Some (tb_parent tb !! kv.1)) (live_rows (tb_threads tb) sid)).

Definition agentsPhrase (children : list childThread) : string :=
  match children with
  | [] => "this session has no live agent threads"
  | _ => "live threads are " +:+ Join (map (fun c => ct_id c +:+ " (" +:+ ct_agentName c +:+ ")") children) ", "
  end.

(** [max(created_at)] over the session's threads. *)
Definition newest_thread (s : sdb) (sid : string) : option Z :=
  foldl (fun m kv => if String.eqb (t_session kv.2) sid
                     then Some (match m with Some x => Z.max x (t_created kv.2) | None => t_created kv.2 end) else m)
    None (map_to_list (s_threads s)).

(** [GREATEST(clock_timestamp(), max(created_at) + interval '1 microsecond')] *)
Definition spawn_time (clock : Z) (s : sdb) (sid : string) : Z :=
  match newest_thread s sid with Some m => Z.max clock (m + microsecond) | None => clock end.

(** The child's row: its usage and scope columns ride along, its [transitioned] the
    column's default.  A session without a row inserts nothing; the parent is a row of it. *)
Definition insert_thread (tb : tables) (sid child name : string) (clock : Z) : result turn_error tables :=
  let s := tb_threads tb in
  match Status.s_status s !! sid with
  | None => Ok tb
  | Some _ =>
      if bool_decide (is_Some (s_threads s !! child)) || negb (bool_decide (is_Some (row_of s sid (PrimaryThreadID sid))))
      then Err TurnConstraint
      else
        let r := MkThread sid SessionRunning None false name None (spawn_time clock s sid) in
        let db := tb_log tb in
        Ok (MkTables
              (MkLdb (l_events db) (l_sessions db) (<[child := (sid, MkUsage 0 0 0 (MkCache 0 0))]> (l_thread_usage db)) (l_thinking db))
              (MkS (<[child := r]> (s_threads s)) (Status.s_status s) (s_log s))
              (<[child := PrimaryThreadID sid]> (tb_parent tb)) (tb_evals tb) (tb_queue tb))
  end.

(** What every call reads: the session, the calling thread and its agent, the head it
    replayed, and the turn's own shape. *)
Context (rd : readings) (now : Z) (trace : option string).
Context (sid : string) (agent : ResolvedAgent) (caller : ThreadPeer) (watermark : Z) (settlementOnly cut : bool).
(** The id and the clock of each spawn. *)
Context (child_id : nat -> string) (child_clock : nat -> Z).

Definition is_child : bool := negb (String.eqb (tp_ThreadID caller) EmptyString).

(** Why this thread may not call [name]; empty when it may. *)
Definition wrongRole (name : string) : string :=
  if is_child && IsCoordinatorTool name then
    name +:+ " belongs to your coordinator, not to you. Report with " +:+ ToolSubmitResult +:+
    ", or send your coordinator a message with " +:+ ToolSendToParent +:+ "."
  else if negb is_child && IsWorkerTool name then
    name +:+ " belongs to the agents you spawn, not to you. You are answering the user directly; to reach an agent use " +:+
    ToolSendToAgent +:+ "."
  else EmptyString.

Definition foreign (call : delegatedCall) : bool :=
  dc_unoffered call || (dc_six call && negb (String.eqb (wrongRole (dc_name call)) EmptyString)).

(** An operation's answer, and whether it is an error. *)
Definition reply : Type := delegation * string * bool.
Definition refuse (d : delegation) (text : string) : result turn_error reply := Ok (d, text, true).

Definition input_string (call : delegatedCall) (field : string) : option string :=
  body_field dec_string EmptyString (Some (dc_input call)) field.

(** [deliver]: the received row behind the wake it causes. *)
Definition deliver (d : delegation) (received : NewEvent) : result turn_error delegation :=
  match DeliverAndWake (tb_threads (d_tb d)) (tb_log (d_tb d)) sid received with
  | Err e => Err (TurnSettle (SettleWake e))
  | Ok (dl, s) =>
      Ok (MkDelegation (with_threads (d_tb d) s) (d_events d ++ delivery_events dl)
            (d_wakes d ++ (if Woke dl then [n_thread received] else [])) (d_park d) (d_ended d) (d_waited d) (d_spawned d))
  end.

Definition send_message (d : delegation) (target : ThreadPeer) (text : string) : result turn_error delegation :=
  let '(sent, received) := ThreadMessage sid caller target text in
  deliver (emit d [sent]) received.

Definition live_count (tb : tables) : Z := Z.of_nat (length (live_rows (tb_threads tb) sid)).

(** The spawn of [name] with its task: the row, then the projection. *)
Definition spawn (d : delegation) (name message : string) : result turn_error reply :=
  let child := child_id (d_spawned d) in
  try tb <- insert_thread (d_tb d) sid child name (child_clock (d_spawned d));
  let created := MkNewEvent EmptyString EventSessionThreadCreated
    (Some (JObject [("agent_name", JString name); ("session_thread_id", JString child)])) None EmptyString false false in
  let '(sent, received) := ThreadMessage sid caller (MkPeer child name) message in
  try '(opened, _, tb) <- of_settle (transition tb sid (MkTransition child SessionRunning None false false));
  Ok (MkDelegation tb (d_events d ++ [created; sent] ++ opened ++ [received]) (d_wakes d ++ [child]) (d_park d) (d_ended d) None (S (d_spawned d)),
      "{" +:+ member "session_thread_id" (json_quote child) +:+ "}", false).

Definition createAgent (d : delegation) (call : delegatedCall) : result turn_error reply :=
  match input_string call "agent_name", input_string call "message" with
  | Some agentName, Some message =>
      let name := TrimSpace agentName in
      let message := delegationText message in
      if String.eqb name EmptyString || String.eqb message EmptyString
      then refuse d "create_agent needs both agent_name and message."
      else
        let '(found, known) := rosterMember (ag_Multiagent agent) name in
        if negb found
        then refuse d ("no agent named " +:+ Quote name +:+ " is on your roster; it lists: " +:+ Join known ", " +:+ ".")
        else if maxLiveThreads <=? live_count (d_tb d)
        then refuse d ("this session already runs the maximum of " +:+ pretty maxLiveThreads +:+
                       " agent threads (your own included). Archive a finished one to free a slot.")
        else spawn d name message
  | _, _ => refuse d "create_agent takes an agent_name and a message."
  end.

(** The child a message names, by id or by the one live thread that runs the agent; the
    last row of an id wins. *)
Definition address (children : list childThread) (threadID agentName : string) : string + childThread :=
  let id := TrimSpace threadID in
  let name := TrimSpace agentName in
  if negb (String.eqb id EmptyString) then
    if String.eqb id (PrimaryThreadID sid) then inl "that is your own thread; send_to_agent addresses the agents you spawned."
    else match last (filter (fun c => ct_id c = id) children) with
         | Some c => inr c
         | None => inl ("no live agent thread " +:+ Quote id +:+ " in this session; " +:+ agentsPhrase children +:+ ".")
         end
  else if negb (String.eqb name EmptyString) then
    match filter (fun c => ct_agentName c = name) children with
    | [] => inl ("no live thread runs " +:+ Quote name +:+ "; " +:+ agentsPhrase children +:+ ".")
    | [c] => inr c
    | matches => inl (pretty (Z.of_nat (length matches)) +:+ " live threads run " +:+ Quote name +:+
                      "; address one by session_thread_id: " +:+ Join (map ct_id matches) ", " +:+ ".")
    end
  else inl "send_to_agent needs a session_thread_id or an agent_name.".

Definition exhausted (c : childThread) : bool :=
  bool_decide (ct_status c = SessionIdle) && bool_decide (ct_stop c = Some StopRetriesExhausted).

Definition sendToAgent (d : delegation) (call : delegatedCall) : result turn_error reply :=
  match input_string call "session_thread_id", input_string call "agent_name", input_string call "message" with
  | Some threadID, Some agentName, Some message =>
      let message := delegationText message in
      if String.eqb message EmptyString then refuse d "send_to_agent needs a message."
      else match address (liveChildren (d_tb d) sid) threadID agentName with
           | inl why => refuse d why
           | inr c =>
               if exhausted c
               then refuse d ("agent " +:+ Quote (ct_agentName c) +:+
                 " stopped: its turn exhausted its retries. Archive it to free the slot, or spawn a replacement.")
               else try d <- send_message d (MkPeer (ct_id c) (ct_agentName c)) message; Ok (d, answerMessageSent, false)
           end
  | _, _, _ => refuse d "send_to_agent takes a message and either a session_thread_id or an agent_name."
  end.

Definition list_entry (c : childThread) : string :=
  "{" +:+ member "session_thread_id" (json_quote (ct_id c)) +:+ "," +:+ member "agent_name" (json_quote (ct_agentName c)) +:+ "," +:+
  member "status" (json_quote (status_text (ct_status c))) +:+
  match ct_stop c with
  | Some st => if String.eqb (stop_text st) EmptyString then EmptyString else "," +:+ member "stop_reason" (json_quote (stop_text st))
  | None => EmptyString
  end +:+ "}".

Definition listAgents (d : delegation) : result turn_error reply :=
  Ok (d, "[" +:+ Join (map list_entry (liveChildren (d_tb d) sid)) "," +:+ "]", false).

(** The first wait's verdict, kept until a spawn. *)
Definition wait_verdict (d : delegation) : waitVerdict :=
  match d_waited d with
  | Some v => v
  | None =>
      let busy := BusyChild (tb_parent (d_tb d)) (tb_threads (d_tb d)) sid EmptyString in
      let unread := chainInput (tb_log (d_tb d)) sid (tp_ThreadID caller) watermark in
      if negb busy && negb unread then MkVerdict answerNothingToWaitFor false
      else MkVerdict answerWaitStarted (busy && negb unread)
  end.

Definition waitForAgents (d : delegation) : result turn_error reply :=
  let v := wait_verdict d in
  Ok (MkDelegation (d_tb d) (d_events d) (d_wakes d) (d_park d || wv_park v) (d_ended d) (Some v) (d_spawned d), wv_answer v, false).

(** [report]: a message to the primary. *)
Definition report (d : delegation) (text : string) : result turn_error delegation :=
  send_message d (MkPeer EmptyString EmptyString) text.

Definition end_turn (d : delegation) : delegation :=
  MkDelegation (d_tb d) (d_events d) (d_wakes d) (d_park d) true (d_waited d) (d_spawned d).

Definition submitResult (d : delegation) (call : delegatedCall) : result turn_error reply :=
  match input_string call "result" with
  | None => refuse d "submit_result takes a result."
  | Some result =>
      let result := delegationText result in
      if String.eqb result EmptyString then refuse d "submit_result needs a result."
      else if negb settlementOnly || cut then refuse d "report after your tool calls have returned."
      else try d <- report d result; Ok (end_turn d, answerReported, false)
  end.

Definition sendToParent (d : delegation) (call : delegatedCall) : result turn_error reply :=
  match input_string call "message" with
  | None => refuse d "send_to_parent takes a message."
  | Some message =>
      let message := delegationText message in
      if String.eqb message EmptyString then refuse d "send_to_parent needs a message."
      else try d <- report d message; Ok (d, answerMessageSent, false)
  end.

(** The six, by name. *)
Definition dispatch (d : delegation) (call : delegatedCall) : result turn_error reply :=
  let name := dc_name call in
  if String.eqb name ToolCreateAgent then createAgent d call
  else if String.eqb name ToolSendToAgent then sendToAgent d call
  else if String.eqb name ToolListAgents then listAgents d
  else if String.eqb name ToolWaitForAgents then waitForAgents d
  else if String.eqb name ToolSubmitResult then submitResult d call
  else if String.eqb name ToolSendToParent then sendToParent d call
  else refuse d (Quote name +:+ " is not a delegation tool.").

(** What a call is answered with instead of being run. *)
Definition inline_answer (call : delegatedCall) : string :=
  if dc_unoffered call then unknownToolAnswer (dc_name call)
  else if negb (String.eqb (dc_cut call) EmptyString) && negb (foreign call) then cutCallAnswer (dc_cut call) else EmptyString.

Definition run_call (d : delegation) (call : delegatedCall) : result turn_error delegation :=
  let text := inline_answer call in
  try '(d, answer, isErr) <- (if negb (String.eqb text EmptyString) then refuse d text
     else let wrong := wrongRole (dc_name call) in
          if negb (String.eqb wrong EmptyString) then refuse d wrong else dispatch d call);
  Ok (emit d [delegationAnswer (tp_ThreadID caller) (dc_eventID call) answer isErr]).

Fixpoint run (d : delegation) (calls : list delegatedCall) : result turn_error delegation :=
  match calls with
  | [] => Ok d
  | call :: calls' => try d <- run_call d call; run d calls'
  end.

(** ** The commit *)

Definition chain_note : string :=
  " consecutive turns resolved entirely by settlement-owned answers — delegation calls, names it was never offered, " +:+
  "calls the output cap cut off — with no external input and no newly woken thread".

Definition exhausted_error (kind message : string) : json :=
  JObject [("error", JObject [("message", JString message); ("retry_status", JObject [("type", JString "exhausted")]);
                              ("type", JString kind)])].

(** The session.error a cut settlement chain leaves on its thread. *)
Definition chainCapped (threadID agentName : string) : NewEvent :=
  MkNewEvent EmptyString EventSessionError
    (Some (exhausted_error "delegation_chain_exhausted_error"
       (agentName +:+ " ran " +:+ pretty maxSettlementChain +:+ chain_note +:+
        ". The thread is idle; a message, or a report from a child it spawned, resumes it."))) None threadID false false.

Definition capped_notice (agentName : string) : string :=
  "[agent " +:+ agentName +:+ " stopped: " +:+ pretty maxSettlementChain +:+ chain_note +:+ "]" +:+ new_line +:+ new_line +:+
  "Nothing was reported on them; anything it reported earlier stands. It is idle until you message it — send it " +:+
  "what is missing, or archive it to free the slot.".

(** What the turn's shape, and what its calls did, decide of the calling thread. *)
Record fate := MkFate { ft_chain : bool; ft_idle : bool; ft_capped : bool; ft_byInput : bool }.

Definition turn_fate (gated : bool) (d : delegation) (item_chain : Z) (unread : bool) : fate :=
  let park := d_park d && negb gated && settlementOnly && negb cut in
  let chain := negb gated && settlementOnly && negb park && negb (d_ended d) in
  let idle := negb gated && (park || d_ended d) in
  let woke := negb (bool_decide (d_wakes d = [])) in
  let capped := chain && negb woke && (maxSettlementChain <=? item_chain + 1) in
  if (idle || capped) && unread then MkFate true false false true
  else if capped then MkFate false true true false
  else MkFate chain idle false false.

(** A capped turn's error, and the notice its coordinator is owed. *)
Definition capped_events (f : fate) (d : delegation) : result turn_error (list NewEvent * delegation) :=
  if ft_capped f then
    try '(told, tb) <- stopped_told (d_tb d) sid (tp_ThreadID caller) capped_notice;
    Ok (chainCapped (tp_ThreadID caller) (ag_Name agent) :: told_events told,
        MkDelegation tb (d_events d) (d_wakes d ++ (if told_woke told then [EmptyString] else [])) (d_park d) (d_ended d) (d_waited d) (d_spawned d))
  else Ok ([], d).

Definition count_delegation (r : srow) : srow :=
  MkSrow (s_archived r) (s_agent r) (s_usage r) (s_active r) (s_since r) (s_delegation r + 1) (s_status r) (s_outcomes r).

(** [UPDATE sessions SET delegation_turns = delegation_turns + 1] *)
Definition spend_delegation (tb : tables) (genuine : bool) : tables :=
  if genuine then with_ldb tb (update_session (tb_log tb) sid count_delegation) else tb.

Fixpoint enqueue_wakes (tb : tables) (env : string) (mint : nat -> string) (i : nat) (wakes : list string) : result turn_error tables :=
  match wakes with
  | [] => Ok tb
  | tid :: wakes' => try tb <- enqueue_thread now trace tb (mint i) env sid tid ModelTurn; enqueue_wakes tb env mint (S i) wakes'
  end.

(** The item's own fate: handed back, with the count of unfed turns, or completed. *)
Definition item_fate (tb : tables) (it : Item) (f : fate) (woke : bool) (mint : nat -> string) : result turn_error tables :=
  if ft_chain f then
    of_settle (if ft_byInput f || woke then requeue_item now tb it
               else try q <- lift_queue (RequeueSettlement now (tb_queue tb) it (it_chain it + 1)); Ok (with_queue tb q))
  else
    try tb <- of_settle (complete_item now tb it);
    if settlementOnly then Ok tb
    else
      try '(moved, tb) <- settleTools rd now trace tb it (mint 1%nat) (mint 2%nat);
      of_settle (enqueueIdleHarvest now tb it moved (mint 3%nat) trace).

(** The transaction behind the calls' run. *)
Definition settle_delegated (before : SessionStatus) (it : Item) (head : list NewEvent) (opts : AppendOptions) (gated genuine : bool)
    (d : delegation) (mint : nat -> string) : result turn_error tables :=
  let tid := it_thread it in
  let woke := negb (bool_decide (d_wakes d = [])) in
  let f := turn_fate gated d (it_chain it) (chainInput (tb_log (d_tb d)) sid tid watermark) in
  try '(cut_events, d) <- capped_events f d;
  try '(idle, tb) <- (if ft_idle f
                      then try '(evs, _, tb) <- of_settle (transition (d_tb d) sid (idle_on tid StopEndTurn)); Ok (evs, tb)
                      else Ok ([], d_tb d));
  try after <- sessionStatusNow tb sid;
  let moved := net_move before after in
  try tb <- of_settle (append rd tb sid (head ++ d_events d ++ cut_events ++ idle) (with_status opts moved));
  let tb := spend_delegation tb genuine in
  try tb <- of_settle (enqueueIdleHarvest now tb it moved (mint 0%nat) trace);
  try tb <- item_fate tb it f woke mint;
  enqueue_wakes tb (it_env it) (fun i => mint (4 + i)%nat) 0 (d_wakes d).
End delegate.

(** A call that is one of the caller's own: it is run, unless cut. *)
Definition genuine_call (caller : ThreadPeer) (call : delegatedCall) : bool :=
  negb (foreign caller call) && String.eqb (dc_cut call) EmptyString.
Definition cut_call (caller : ThreadPeer) (call : delegatedCall) : bool :=
  negb (foreign caller call) && negb (String.eqb (dc_cut call) EmptyString).

(** What a commit mints: spawned threads with their clocks, and work items. *)
Record minted := MkMinted { mt_child : nat -> string; mt_clock : nat -> Z; mt_work : nat -> string }.

Definition commitDelegatedTurn (isPrint : Z -> bool) (rd : readings) (now : Z) (trace : option string) (tb : tables) (it : Item)
    (agent : ResolvedAgent) (head : list NewEvent) (opts : AppendOptions) (askIDs : list string) (delegated : list delegatedCall)
    (settlementOnly : bool) (watermark : Z) (m : minted) : result turn_error tables :=
  let sid := it_session it in
  let caller := MkPeer (it_thread it) (ag_Name agent) in
  let cut := existsb (cut_call caller) delegated in
  let genuine := existsb (genuine_call caller) delegated in
  try before <- sessionStatusNow tb sid;
  try d <- run isPrint sid agent caller watermark settlementOnly cut (mt_child m) (mt_clock m)
             (MkDelegation tb [] [] false false None O) delegated;
  settle_delegated rd now trace sid agent caller watermark settlementOnly cut before it head opts
    (negb (bool_decide (askIDs = []))) genuine d (mt_work m).

(** ** A session out of delegation budget *)

Definition runExhausted (threadID agentName : string) : NewEvent :=
  MkNewEvent EmptyString EventSessionError
    (Some (exhausted_error "session_delegation_exhausted_error"
       ("This session spent " +:+ pretty maxSessionDelegationTurns +:+ " turns calling delegation tools since a " +:+
        "client last asked it for anything, so " +:+ agentName +:+ " was not started. Threads that were " +:+
        "running settle and stop. A message to any of them resumes the session with a fresh budget."))) None threadID false false.

Definition spent_notice (agentName : string) : string :=
  "[agent " +:+ agentName +:+ " stopped: the session spent its delegation budget of " +:+ pretty maxSessionDelegationTurns +:+
  " turns]" +:+ new_line +:+ new_line +:+
  "Nothing was reported on them; anything it reported earlier stands. The whole session is idle until somebody messages it.".

(** [cutExhaustedRun]: whether the claim's turn is refused.  The reading without the lock
    decides nothing the reading under it does not. *)
Definition cutExhaustedRun (rd : readings) (now : Z) (trace : option string) (tb : tables) (it : Item) (agent : ResolvedAgent)
    (mint : nat -> string) : result turn_error (bool * tables) :=
  let sid := it_session it in
  let tid := it_thread it in
  match l_sessions (tb_log tb) !! sid with
  | None => Err TurnNoSession
  | Some sess =>
      if s_delegation sess <? maxSessionDelegationTurns then Ok (false, tb)
      else if pendingInput (tb_log tb) sid tid then Ok (false, tb)
      else
        try before <- sessionStatusNow tb sid;
        try '(told, tb) <- stopped_told tb sid tid spent_notice;
        try '(idle, _, tb) <- of_settle (transition tb sid (idle_on tid StopEndTurn));
        try after <- sessionStatusNow tb sid;
        let moved := net_move before after in
        try tb <- of_settle (append rd tb sid (runExhausted tid (ag_Name agent) :: told_events told ++ idle)
          (with_status (with_thread tid no_options) moved));
        try tb <- of_settle (complete_item now tb it);
        try tb <- of_settle (enqueueIdleHarvest now tb it moved (mint 0%nat) trace);
        try tb <- (if told_woke told then enqueue_thread now trace tb (mint 1%nat) (it_env it) sid EmptyString ModelTurn else Ok tb);
        Ok (true, tb)
  end.

(** ** The turn's commit *)

Definition commitTurn (isPrint : Z -> bool) (rd : readings) (now : Z) (trace : option string) (tb : tables) (it : Item)
    (agent : ResolvedAgent) (endEv : NewEvent) (turn : turnResult) (class : gmap string toolClass) (watermark : Z)
    (mint : nat -> string) (startID : string) (m : minted) : result turn_error tables :=
  let out := turnEvents turn class mint in
  let askIDs := ToolWaitIDs (to_batch out) (env_text tb (it_env it)) platformOwned in
  let usage := default (MkModelUsage 0 0 0 0) (tr_usage turn) in
  let head := stampThread (to_batch out ++ [endEv]) (it_thread it) askIDs in
  let answered := negb (bool_decide (tr_text turn = []) && bool_decide (tr_toolUses turn = [])) in
  let opts := MkOptions (it_thread it) None (Some usage) 0 false None (if answered then tr_thinking turn else []) None in
  match tr_toolUses turn with
  | [] => of_settle (settleEndTurn rd now tb it watermark opts head startID (mt_work m 0%nat) (mt_work m 1%nat) trace)
  | _ =>
      match to_delegated out with
      | [] =>
          try tb <- of_settle (append rd tb (it_session it) head opts);
          try tb <- of_settle (complete_item now tb it);
          try '(moved, tb) <- settleTools rd now trace tb it (mt_work m 0%nat) (mt_work m 1%nat);
          of_settle (enqueueIdleHarvest now tb it moved (mt_work m 2%nat) trace)
      | delegated =>
          commitDelegatedTurn isPrint rd now trace tb it agent head opts askIDs delegated
            (Nat.eqb (length delegated) (length (tr_toolUses turn))) watermark m
      end
  end.
