(* ===== verification/DelegateSpec.v ===== *)
(** * DelegateSpec: what a delegating turn leaves (Delegate.v, Turn.v)

    Every call the settlement owns is answered in the commit that makes it; the session's
    live threads stay within their cap; the calling thread goes on, rests or waits, and every
    thread it woke runs with a turn of its own; a run of turns nobody feeds is cut. *)
From Stdlib Require Import Lia.
From S2P Require Import Prelude GoStrings Ids Queue Status StatusSpec Json Domain Consumption Log LogSpec ToolQuery ToolSpec ToolFlow ToolSettle FlowSpec Outcomes Replay Threadmsg ThreadmsgSpec Grading GradingSpec SendSpec Turn Delegate.

(** What answers a call: a result, or a confirmation. *)
Definition replyTypes : list EventType := EventUserToolConfirm :: toolResultTypes.

Definition no_result (ev : NewEvent) : Prop := mem_string (n_type ev) replyTypes = false.

(** ** A thread's move *)

(** The row a transition leaves. *)
Definition moved_row (t : ThreadTransition) (r : thread_row) : thread_row :=
  MkThread (t_session r) (tr_status t) (if bool_decide (tr_status t = SessionIdle) then tr_stop t else None)
    (t_transitioned r || negb (bool_decide (t_status r = tr_status t))) (t_agent r) (t_archived r) (t_created r).

(** An event of the eight status types. *)
Definition status_kind (t : Status.EventType) : bool := match t with Status.OtherEvent _ => false | _ => true end.

Lemma threadStatusOf_kind st ty : threadStatusOf st = Some ty -> status_kind ty = true.
Proof. by destruct st; intros [= <-]. Qed.

Lemma sessionStatusOf_kind st ty : sessionStatusOf st = Some ty -> status_kind ty = true.
Proof. by destruct st; intros [= <-]. Qed.

Lemma thread_event_kind tid agent t e : thread_event tid agent t = Some e -> status_kind (ev_type e) = true.
Proof.
  unfold thread_event. destruct (_ && _); cbn; [by intros [= <-]|].
  destruct (threadStatusOf _) as [ty|] eqn:E; [|done]. intros [= <-]. by eapply threadStatusOf_kind.
Qed.

Lemma session_event_kind emit stop cur e : session_event emit stop cur = Some e -> status_kind (ev_type e) = true.
Proof. unfold session_event. destruct (sessionStatusOf emit) as [ty|] eqn:E; [|done]. intros [= <-]. by eapply sessionStatusOf_kind. Qed.

Lemma option_list_elem {A} (x : A) o : x ∈ option_list o -> o = Some x.
Proof. destruct o; cbn; [|by intros ?%not_elem_of_nil]. by intros ->%list_elem_of_singleton. Qed.

(** The transition once the thread's row has moved. *)
Lemma transition_tail s1 sid t (thread : option Status.NewEvent) folded fstop out moved s' :
  (match Status.s_status s1 !! sid with
   | None => Err Status.ErrSessionNotFound
   | Some current =>
       let changed := negb (bool_decide (folded = current)) in
       let s2 := if changed then MkS (s_threads s1) (<[sid := folded]> (Status.s_status s1)) (s_log s1) else s1 in
       let moved := if changed then Some folded else None in
       if changed || tr_force t || (tr_reemit t && bool_decide (folded = tr_status t)) then
         let own := negb changed && negb (bool_decide (folded = tr_status t)) in
         let emit := if own then tr_status t else folded in
         let stop := if own then tr_stop t else fstop in
         let session := session_event emit stop current in
         Ok (if bool_decide (emit = SessionRunning) then option_list session ++ option_list thread
             else option_list thread ++ option_list session, moved, s2)
       else Ok (option_list thread, moved, s2)
   end) = Ok (out, moved, s') ->
  (forall e, thread = Some e -> status_kind (ev_type e) = true) ->
  s_threads s' = s_threads s1 /\ is_Some (Status.s_status s1 !! sid) /\ is_Some (Status.s_status s' !! sid) /\
  (forall e, e ∈ out -> status_kind (ev_type e) = true).
Proof.
  destruct (Status.s_status s1 !! sid) as [cur|] eqn:Ec; [|done]. cbv zeta. set (s2 := if negb _ then _ else s1). intros H Ht.
  assert (H2 : s_threads s2 = s_threads s1 /\ is_Some (Status.s_status s2 !! sid)).
  { unfold s2. destruct (negb _); [|by rewrite Ec]. split; [done|]. exists folded. apply lookup_insert_eq. }
  assert (He : s' = s2 /\ forall e, e ∈ out -> status_kind (ev_type e) = true).
  { destruct (_ || _); injection H as <- _ <-; (split; [done|]); intros e He.
    - destruct (bool_decide (_ = SessionRunning)); apply elem_of_app in He as [He|He]; apply option_list_elem in He;
        eauto using session_event_kind.
    - apply option_list_elem in He. eauto. }
  destruct He as [-> He]. destruct H2. by split_and!.
Qed.

(** What a transition does to the rows, and the events it emits. *)
Lemma TransitionThread_rows s sid t out moved s' : TransitionThread s sid t = Ok (out, moved, s') ->
  s_threads s' = match row_of s sid (thread_of sid (tr_thread t)) with
                 | Some r => <[thread_of sid (tr_thread t) := moved_row t r]> (s_threads s) | None => s_threads s end /\
  (row_of s sid (thread_of sid (tr_thread t)) = None -> tr_thread t = EmptyString) /\
  is_Some (Status.s_status s !! sid) /\ is_Some (Status.s_status s' !! sid) /\
  (forall e, e ∈ out -> status_kind (ev_type e) = true).
Proof.
  unfold TransitionThread. destruct (sessionStatusOf (tr_status t)) as [ty|]; [|done].
  destruct (row_of s sid _) as [r|] eqn:Er.
  - rewrite (row_of_move _ _ _ t _ Er), bool_decide_true by done. cbn [negb andb].
    destruct (foldSession _ sid t true) as [folded fstop]. intros H.
    apply transition_tail in H as (H1 & H2 & H3 & H4); [|by intros e ?%thread_event_kind]. by split_and!.
  - assert (Hm : move_thread s sid (thread_of sid (tr_thread t)) t = None).
    { unfold row_of in Er. unfold move_thread. destruct (s_threads s !! _) as [r|]; [|done]. by destruct (String.eqb _ _). }
    rewrite Hm. rewrite bool_decide_false by (by intros [? ?]). cbn [negb andb].
    destruct (String.eqb_spec (tr_thread t) ""); [|done]. cbn [negb].
    destruct (foldSession s sid t false) as [folded fstop]. intros H.
    apply transition_tail in H as (H1 & H2 & H3 & H4); [|by intros e' ?%thread_event_kind]. by split_and!.
Qed.

(** ** What a run of calls leaves alone *)

Section run.
Context (sid : string).

(** A thread that is there still is: as it was, or woken from idle. *)
Definition woken_row (r r' : thread_row) : Prop :=
  r' = r \/
  (t_status r = SessionIdle /\ t_status r' = SessionRunning /\ t_session r' = t_session r /\ t_agent r' = t_agent r /\
   t_archived r' = t_archived r /\ t_created r' = t_created r).

Lemma woken_row_trans a b c : woken_row a b -> woken_row b c -> woken_row a c.
Proof.
  intros [->|(H1 & H2 & H3 & H4 & H5 & H6)] [->|(K1 & K2 & K3 & K4 & K5 & K6)];
    [by left|right; done|right; done|]. congruence.
Qed.

(** The threads after a run: none lost, none put to sleep, the live ones within the cap. *)
Record advanced (tb tb' : tables) : Prop := {
  ad_events : l_events (tb_log tb') = l_events (tb_log tb);
  ad_sessions : l_sessions (tb_log tb') = l_sessions (tb_log tb);
  ad_evals : tb_evals tb' = tb_evals tb;
  ad_queue : tb_queue tb' = tb_queue tb;
  ad_parent : forall id, is_Some (tb_parent tb !! id) -> is_Some (tb_parent tb' !! id);
  ad_kept : forall id, is_Some (s_threads (tb_threads tb) !! id) -> tb_parent tb' !! id = tb_parent tb !! id;
  ad_rows : forall id r, s_threads (tb_threads tb) !! id = Some r -> exists r', s_threads (tb_threads tb') !! id = Some r' /\ woken_row r r';
  ad_live : live_count sid tb' <= Z.max maxLiveThreads (live_count sid tb);
}.

Lemma advanced_refl tb : advanced tb tb.
Proof. split; try done; [|lia]. intros id r Hr. exists r. split; [done|by left]. Qed.

Lemma advanced_trans a b c : advanced a b -> advanced b c -> advanced a c.
Proof.
  intros H1 H2. split.
  - by rewrite (ad_events _ _ H2), (ad_events _ _ H1).
  - by rewrite (ad_sessions _ _ H2), (ad_sessions _ _ H1).
  - by rewrite (ad_evals _ _ H2), (ad_evals _ _ H1).
  - by rewrite (ad_queue _ _ H2), (ad_queue _ _ H1).
  - intros id Hid. by apply (ad_parent _ _ H2), (ad_parent _ _ H1).
  - intros id Hid. rewrite (ad_kept _ _ H2), (ad_kept _ _ H1); [done..|]. destruct Hid as [r Hr].
    destruct (ad_rows _ _ H1 _ _ Hr) as (r1 & -> & _). eauto.
  - intros id r Hr. destruct (ad_rows _ _ H1 _ _ Hr) as (r1 & Hr1 & W1). destruct (ad_rows _ _ H2 _ _ Hr1) as (r2 & Hr2 & W2).
    exists r2. split; [done|by eapply woken_row_trans].
  - pose proof (ad_live _ _ H1). pose proof (ad_live _ _ H2). lia.
Qed.

(** *** Counting live threads *)

Definition counted (kv : string * thread_row) : Prop :=
  t_session kv.2 = sid /\ t_archived kv.2 = None /\ t_status kv.2 <> SessionTerminated.

#[local] Instance counted_dec kv : Decision (counted kv).
Proof. unfold counted. apply _. Defined.

Definition count_rows (m : gmap string thread_row) : nat := length (filter counted (map_to_list m)).

Lemma live_count_rows tb : live_count sid tb = Z.of_nat (count_rows (s_threads (tb_threads tb))).
Proof.
  unfold live_count, live_rows, count_rows. f_equal. rewrite (Permutation_length (merge_sort_Permutation _ _)).
  f_equal.
Qed.

Lemma rows_insert m k r : count_rows (<[k := r]> m) = ((if decide (counted (k, r)) then 1 else 0) + count_rows (delete k m))%nat.
Proof.
  unfold count_rows. rewrite <- insert_delete_eq. rewrite (filter_Permutation _ _ _ (map_to_list_insert (delete k m) k r (lookup_delete_eq m k))).
  rewrite filter_cons. by destruct (decide _).
Qed.

Lemma rows_delete m k r : m !! k = Some r -> count_rows m = ((if decide (counted (k, r)) then 1 else 0) + count_rows (delete k m))%nat.
Proof. intros Hr. rewrite <- rows_insert. by rewrite insert_id. Qed.

Lemma count_moved m k r r' : m !! k = Some r -> (counted (k, r') <-> counted (k, r)) -> count_rows (<[k := r']> m) = count_rows m.
Proof. intros Hr Hc. rewrite rows_insert, (rows_delete m k r Hr). repeat destruct (decide _); tauto. Qed.

Lemma count_new m k r : m !! k = None -> (count_rows (<[k := r]> m) <= S (count_rows m))%nat.
Proof. intros Hr. rewrite rows_insert, delete_id by done. destruct (decide _); lia. Qed.

(** *** A delivery *)

Lemma row_of_Some s tid r : row_of s sid tid = Some r <-> s_threads s !! tid = Some r /\ t_session r = sid.
Proof.
  unfold row_of. destruct (s_threads s !! tid) as [x|]; [|naive_solver].
  destruct (String.eqb_spec (t_session x) sid); naive_solver.
Qed.

Lemma status_event_kind e : status_kind (ev_type e) = true -> no_result (status_event e).
Proof. unfold status_event. cbn [n_type]. by destruct (ev_type e). Qed.

(** The thread of an id runs. *)
Definition runs (tb : tables) (tid : string) : Prop :=
  exists r, row_of (tb_threads tb) sid (thread_of sid tid) = Some r /\ t_status r = SessionRunning.

Lemma runs_advanced a b tid : advanced a b -> runs a tid -> runs b tid.
Proof.
  intros H (r & [Hr Hs]%row_of_Some & Hst). destruct (ad_rows _ _ H _ _ Hr) as (r' & Hr' & Hw).
  exists r'. rewrite row_of_Some. destruct Hw as [->|Hw]; [done|]. destruct Hw as (? & ? & ? & _). split; [|done]. split; [done|congruence].
Qed.

Lemma wakeThread_ok s db tid evs moved s' : wakeThread s db sid tid = Ok (evs, moved, s') ->
  (evs = [] /\ s' = s) \/
  (exists r, row_of s sid (thread_of sid tid) = Some r /\ t_status r = SessionIdle /\
     s_threads s' = <[thread_of sid tid := moved_row (MkTransition tid SessionRunning None false false) r]> (s_threads s) /\
     evs <> [] /\ Forall (fun ev => no_result ev) evs).
Proof.
  unfold wakeThread. destruct (row_of s sid (thread_of sid tid)) as [r|] eqn:Er; [|done].
  destruct (at_rest r) eqn:Ea; cbn [negb]; [|intros [= <- _ <-]; by left].
  destruct (HasUnansweredThreadToolUse _ _ _ _); [intros [= <- _ <-]; by left|].
  destruct (TransitionThread _ _ _) as [[[out m] s1]|] eqn:ET; [|done]. intros [= <- _ <-]. right. exists r.
  pose proof (TransitionThread_rows _ _ _ _ _ _ ET) as (Hth & _ & Hst & _ & Hk). cbn [tr_thread] in Hth. rewrite Er in Hth.
  split_and!; [done| |exact Hth| |].
  2: { destruct (TransitionThread_makes s sid (MkTransition tid SessionRunning None false false) r) as (out' & m' & s2 & ET' & _ & _ & He);
         [done|by eexists|done|]. rewrite ET in ET'. injection ET' as <- _ _. destruct (He eq_refl) as (e & Hin & _).
       intros Hnil%map_eq_nil. subst out. by apply elem_of_nil in Hin. }
  - unfold at_rest in Ea. by apply andb_true_iff in Ea as [Ea%bool_decide_eq_true _].
  - apply Forall_forall. intros ev Hev. apply list_elem_of_fmap in Hev as (e & -> & He). by apply status_event_kind, Hk.
Qed.

Lemma advanced_move tb s' k r r' : s_threads (tb_threads tb) !! k = Some r -> woken_row r r' ->
  s_threads s' = <[k := r']> (s_threads (tb_threads tb)) -> advanced tb (with_threads tb s').
Proof.
  intros Hr Hw Hs. split; try done.
  - intros id x Hx. cbn. rewrite Hs. destruct (decide (id = k)) as [->|].
    + rewrite lookup_insert_eq. rewrite Hr in Hx. injection Hx as <-. eauto.
    + rewrite lookup_insert_ne by done. exists x. split; [done|by left].
  - rewrite !live_count_rows. cbn. rewrite Hs, (count_moved _ _ r); [lia|done|].
    unfold counted. cbn. destruct Hw as [->|(-> & -> & -> & _ & -> & _)]; [done|]. split; intros (? & ? & ?); done.
Qed.

Lemma woken_moved tid r : t_status r = SessionIdle -> woken_row r (moved_row (MkTransition tid SessionRunning None false false) r).
Proof. intros Hs. right. done. Qed.

(** *** The relation of a run *)

Definition busy (tb : tables) : bool := BusyChild (tb_parent tb) (tb_threads tb) sid EmptyString.

Lemma busy_advanced a b : advanced a b -> busy a = true -> busy b = true.
Proof.
  intros H. unfold busy. rewrite !BusyChild_spec. intros (id & Hid & Hne). exists id. split; [|done].
  apply elem_of_busy_ids in Hid as (r & Hr & Hb). apply elem_of_busy_ids.
  destruct (ad_rows _ _ H _ _ Hr) as (r' & Hr' & Hw). exists r'. split; [done|].
  unfold busyChild in *. apply andb_true_iff in Hb as [Hb Hst]. apply andb_true_iff in Hb as [Hb Ha].
  apply andb_true_iff in Hb as [Hs Hp]. apply bool_decide_eq_true in Hp.
  rewrite (bool_decide_true _ (ad_parent _ _ H _ Hp)).
  destruct Hw as [->|(_ & E1 & E2 & _ & E3 & _)]; [by rewrite Hs, Ha, Hst|]. rewrite E1, E2, E3, Hs, Ha. done.
Qed.

(** A wait that parks is one with a busy child. *)
Definition parked_ok (d : delegation) : Prop :=
  (d_park d = true -> busy (d_tb d) = true) /\ (forall v, d_waited d = Some v -> wv_park v = true -> busy (d_tb d) = true).

(** An answer: its type, its thread and the call it names. *)
Definition answer_of : Type := EventType * string * option string.

Definition answered (ev : NewEvent) : option answer_of :=
  if mem_string (n_type ev) replyTypes then Some (n_type ev, n_thread ev, result_ref (payload_of ev)) else None.

(** The answer a settlement writes. *)
Definition settled_answer (tid id : string) : answer_of := (EventAgentToolResult, tid, Some id).

Lemma answered_none evs : Forall (fun ev => no_result ev) evs -> omap answered evs = [].
Proof.
  induction 1 as [|ev evs Hev _ IH]; [done|]. cbn. unfold answered at 1. by rewrite Hev.
Qed.

Lemma omap_app' {A B} (f : A -> option B) l1 l2 : omap f (l1 ++ l2) = omap f l1 ++ omap f l2.
Proof. induction l1 as [|x l1 IH]; [done|]. cbn. destruct (f x); cbn; by rewrite IH. Qed.

(** A thread that is not as it was, or is new, is among [own], or woken. *)
Definition starts (own : list string) (tb tb' : tables) (ws : list string) : Prop :=
  forall id, id ∉ own ->
    s_threads (tb_threads tb') !! id = s_threads (tb_threads tb) !! id \/ exists w, w ∈ ws /\ thread_of sid w = id.

Lemma starts_same own tb tb' ws : s_threads (tb_threads tb') = s_threads (tb_threads tb) -> starts own tb tb' ws.
Proof. intros H id _. rewrite H. by left. Qed.

Lemma starts_trans own a b c w1 w2 : starts own a b w1 -> starts own b c w2 -> starts own a c (w1 ++ w2).
Proof.
  intros H1 H2 id Hne. destruct (H2 _ Hne) as [->|(w & Hw & Ht)]; [|right; exists w; set_solver].
  destruct (H1 _ Hne) as [->|(w & Hw & Ht)]; [by left|]. right. exists w. set_solver.
Qed.

Lemma starts_own own tb tb' ws : starts [] tb tb' ws -> starts own tb tb' ws.
Proof. intros H id _. by apply (H id), not_elem_of_nil. Qed.

Lemma starts_insert own tb tb' k r' ws : s_threads (tb_threads tb') = <[k := r']> (s_threads (tb_threads tb)) ->
  (k ∈ own \/ exists w, w ∈ ws /\ thread_of sid w = k) -> starts own tb tb' ws.
Proof.
  intros H Hk id Hne. rewrite H. destruct (decide (id = k)) as [->|].
  - destruct Hk as [Hk|Hk]; [done|by right].
  - rewrite lookup_insert_ne by done. by left.
Qed.

(** The threads woken between the two: at rest, or not there, and now running. *)
Definition fresh (tb tb' : tables) (ws : list string) : Prop := Forall (fun w => ~ runs tb w /\ runs tb' w) ws.

Lemma fresh_trans a b c w1 w2 : advanced a b -> advanced b c -> fresh a b w1 -> fresh b c w2 -> fresh a c (w1 ++ w2).
Proof.
  intros A1 A2 H1 H2. apply Forall_app. split; eapply Forall_impl; [exact H1| |exact H2|]; intros w [Hn Hr]; split; eauto using runs_advanced.
Qed.

Record ran (as_ : list answer_of) (d d' : delegation) : Prop := {
  rn_adv : advanced (d_tb d) (d_tb d');
  rn_wakes : exists ws, d_wakes d' = d_wakes d ++ ws /\ starts [] (d_tb d) (d_tb d') ws /\ fresh (d_tb d) (d_tb d') ws;
  rn_park : parked_ok d -> parked_ok d';
  rn_events : exists evs, d_events d' = d_events d ++ evs /\ omap answered evs = as_;
}.

Lemma ran_refl d : ran [] d d.
Proof. split; [apply advanced_refl|exists []; rewrite app_nil_r; by split; [|split; [apply starts_same|constructor]]|done|exists []; by rewrite app_nil_r]. Qed.

Lemma ran_trans as1 as2 a b c : ran as1 a b -> ran as2 b c -> ran (as1 ++ as2) a c.
Proof.
  intros [A1 (w1 & W1 & R1 & F1) P1 (e1 & E1 & O1)] [A2 (w2 & W2 & R2 & F2) P2 (e2 & E2 & O2)]. split.
  - by eapply advanced_trans.
  - exists (w1 ++ w2). rewrite W2, W1, app_assoc. split; [done|]. split; [by eapply starts_trans|by eapply fresh_trans].
  - auto.
  - exists (e1 ++ e2). rewrite E2, E1, app_assoc. split; [done|]. by rewrite omap_app', O1, O2.
Qed.

Lemma emit_ran as_ d evs : omap answered evs = as_ -> ran as_ d (emit d evs).
Proof. intros H. split; [apply advanced_refl|exists []; rewrite app_nil_r; by split; [|split; [apply starts_same|constructor]]|by intros []|by exists evs]. Qed.

Lemma parked_advanced d tb evs ws park ended n : advanced (d_tb d) tb -> park = d_park d -> parked_ok d ->
  parked_ok (MkDelegation tb evs ws park ended (d_waited d) n).
Proof.
  intros Ha -> [H1 H2]. split; cbn; [|intros v Hv Hp]; eauto using busy_advanced.
Qed.

Lemma fresh_move tb s' tid r : row_of (tb_threads tb) sid (thread_of sid tid) = Some r -> t_status r = SessionIdle ->
  s_threads s' = <[thread_of sid tid := moved_row (MkTransition tid SessionRunning None false false) r]> (s_threads (tb_threads tb)) ->
  ~ runs tb tid /\ runs (with_threads tb s') tid.
Proof.
  intros Hr Hi Hs. split.
  - intros (x & Hx & Hst). congruence.
  - eexists. rewrite row_of_Some. cbn [tb_threads with_threads]. rewrite Hs, lookup_insert_eq. apply row_of_Some in Hr as [_ Hr].
    by split.
Qed.

Lemma deliver_ran d rcv d' : no_result rcv -> deliver sid d rcv = Ok d' -> ran [] d d'.
Proof.
  intros Hrcv. unfold deliver, DeliverAndWake. destruct (wakeThread _ _ _ _) as [[[evs m] s']|] eqn:Ew; [|done].
  intros [= <-]. apply wakeThread_ok in Ew.
  assert (Ha : advanced (d_tb d) (with_threads (d_tb d) s')).
  { destruct Ew as [[_ ->]|(r & [Hr _]%row_of_Some & Hi & Hs & _)].
    - destruct (d_tb d). apply advanced_refl.
    - eapply advanced_move; [exact Hr|by apply woken_moved|exact Hs]. }
  split; cbn [d_tb d_wakes d_events].
  - done.
  - eexists. split; [done|]. unfold Woke. cbn [dl_Wake]. destruct Ew as [[-> ->]|(r & Hr & Hi & Hs & Hne & _)].
    + by split; [apply starts_same|constructor].
    + rewrite bool_decide_false by done. cbn [negb]. split; [eapply starts_insert; [exact Hs|]; right; eexists; by split; [left|]|].
      constructor; [|constructor]. by eapply fresh_move.
  - by apply parked_advanced.
  - eexists. split; [done|]. apply answered_none. unfold delivery_events. cbn. apply Forall_app. split; [|by constructor].
    by destruct Ew as [[-> _]|(? & _ & _ & _ & _ & ?)]; [constructor|].
Qed.

Lemma message_types from to text : no_result (ThreadMessage sid from to text).1 /\
  no_result (ThreadMessage sid from to text).2.
Proof. done. Qed.

Lemma send_message_ran caller d target text d' : send_message sid caller d target text = Ok d' -> ran [] d d'.
Proof.
  unfold send_message. destruct (ThreadMessage sid caller target text) as [sent received] eqn:E.
  destruct (message_types caller target text) as [H1 H2]. rewrite E in H1, H2. cbn in H1, H2. intros H%deliver_ran; [|done].
  apply (ran_trans [] [] _ (emit d [sent])); [|done]. apply emit_ran, answered_none. by constructor.
Qed.

Lemma thread_of_child tid : tid <> EmptyString -> thread_of sid tid = tid.
Proof. intros H. unfold thread_of. by destruct (String.eqb_spec tid ""). Qed.

Lemma insert_thread_ok tb child name clock tb1 evs moved tb2 : insert_thread tb sid child name clock = Ok tb1 ->
  child <> EmptyString -> transition tb1 sid (MkTransition child SessionRunning None false false) = Ok (evs, moved, tb2) ->
  live_count sid tb < maxLiveThreads ->
  advanced tb tb2 /\ starts [] tb tb2 [child] /\ fresh tb tb2 [child] /\ Forall (fun ev => no_result ev) evs.
Proof.
  unfold insert_thread, transition. intros Hi Hc Ht Hlive.
  destruct (TransitionThread _ _ _) as [[[out m] s']|] eqn:ET; [|done]. injection Ht as <- _ <-.
  apply TransitionThread_rows in ET as (Hth & Hnone & Hst & _ & Hk). cbn [tr_thread] in Hth, Hnone. rewrite (thread_of_child _ Hc) in Hth, Hnone.
  destruct (Status.s_status (tb_threads tb) !! sid) as [st|] eqn:Est.
  2: { injection Hi as <-. rewrite Est in Hst. by destruct Hst. }
  destruct (bool_decide (is_Some (s_threads (tb_threads tb) !! child)) || _) eqn:Eb; [done|]. injection Hi as <-.
  apply orb_false_iff in Eb as [Enew%bool_decide_eq_false _]. apply eq_None_not_Some in Enew.
  set (r := MkThread sid SessionRunning None false name None _) in *. cbn [tb_threads s_threads] in *.
  assert (Hrow : row_of (MkS (<[child := r]> (s_threads (tb_threads tb))) (Status.s_status (tb_threads tb)) (s_log (tb_threads tb))) sid child = Some r)
    by (apply row_of_Some; cbn; by rewrite lookup_insert_eq).
  rewrite Hrow, insert_insert_eq in Hth. split_and!.
  - split; try done.
    + intros id Hid. cbn. destruct (decide (id = child)) as [->|]; [rewrite lookup_insert_eq; eauto|by rewrite lookup_insert_ne].
    + intros id [x Hx]. cbn. rewrite lookup_insert_ne; [done|]. intros ->. congruence.
    + intros id x Hx. cbn. rewrite Hth. exists x. split; [|by left]. rewrite lookup_insert_ne; [done|]. intros ->. congruence.
    + rewrite !live_count_rows in *. cbn. rewrite Hth. pose proof (count_new _ child (moved_row (MkTransition child SessionRunning None false false) r) Enew).
      lia.
  - eapply starts_insert; [exact Hth|]. right. exists child. split; [left|by apply thread_of_child].
  - constructor; [|constructor]. rewrite <- (thread_of_child _ Hc) in Hth at 2. split.
    + intros (x & [Hx _]%row_of_Some & _). rewrite thread_of_child in Hx by done. congruence.
    + eexists. rewrite row_of_Some. cbn [tb_threads with_threads]. by rewrite Hth, (thread_of_child _ Hc), lookup_insert_eq.
  - apply Forall_forall. intros ev Hev. apply list_elem_of_fmap in Hev as (e & -> & He). by apply status_event_kind, Hk.
Qed.

Lemma spawn_ran caller child_id child_clock d name message d' answer isErr :
  (forall i, child_id i <> EmptyString) -> live_count sid (d_tb d) < maxLiveThreads ->
  spawn sid caller child_id child_clock d name message = Ok (d', answer, isErr) -> ran [] d d'.
Proof.
  intros Hids Hlive. unfold spawn. destruct (insert_thread _ _ _ _ _) as [tb1|] eqn:Ei; [|done].
  destruct (ThreadMessage sid caller _ message) as [sent received] eqn:Em.
  destruct (transition tb1 _ _) as [[[evs m] tb2]|] eqn:Et; [|done]. cbn [of_settle]. intros [= <- _ _].
  destruct (insert_thread_ok _ _ _ _ _ _ _ _ Ei (Hids _) Et Hlive) as (Ha & Hs & Hf & Hk).
  destruct (message_types caller (MkPeer (child_id (d_spawned d)) name) message) as [H1 H2]. rewrite Em in H1, H2. cbn in H1, H2.
  split; cbn [d_tb d_wakes d_events].
  - done.
  - eexists. by split; [done|].
  - intros [Hp _]. split; cbn; [|done]. intros Hd. eauto using busy_advanced.
  - eexists. split; [done|]. apply answered_none. by repeat first [assumption | apply Forall_app_2 | constructor].
Qed.
End run.

(** ** Every call is answered *)

Section calls.
Context (isPrint : Z -> bool) (sid : string) (agent : ResolvedAgent) (caller : ThreadPeer) (watermark : Z) (settlementOnly cut : bool).
Context (child_id : nat -> string) (child_clock : nat -> Z) (Hids : forall i, child_id i <> EmptyString).

#[local] Abbreviation dispatch := (dispatch isPrint sid agent caller watermark settlementOnly cut child_id child_clock).
#[local] Abbreviation run_call := (run_call isPrint sid agent caller watermark settlementOnly cut child_id child_clock).
#[local] Abbreviation run_calls := (run isPrint sid agent caller watermark settlementOnly cut child_id child_clock).

Lemma refuse_ran d text d' answer isErr : refuse d text = Ok (d', answer, isErr) -> ran sid [] d d'.
Proof. intros [= <- _ _]. apply ran_refl. Qed.

Lemma createAgent_ran d call d' answer isErr :
  createAgent isPrint sid agent caller child_id child_clock d call = Ok (d', answer, isErr) -> ran sid [] d d'.
Proof.
  unfold createAgent. destruct (input_string call "agent_name"); [|apply refuse_ran].
  destruct (input_string call "message"); [|apply refuse_ran]. destruct (_ || _); [apply refuse_ran|].
  destruct (rosterMember _ _) as [found known]. destruct found; cbn [negb]; [|apply refuse_ran].
  destruct (maxLiveThreads <=? live_count sid (d_tb d)) eqn:E; [apply refuse_ran|]. bool_prop. by apply spawn_ran.
Qed.

Lemma sendToAgent_ran d call d' answer isErr : sendToAgent isPrint sid caller d call = Ok (d', answer, isErr) -> ran sid [] d d'.
Proof.
  unfold sendToAgent. destruct (input_string call "session_thread_id"); [|apply refuse_ran].
  destruct (input_string call "agent_name"); [|apply refuse_ran]. destruct (input_string call "message"); [|apply refuse_ran].
  destruct (String.eqb _ _); [apply refuse_ran|]. destruct (address _ _ _ _ _) as [why|c]; [apply refuse_ran|].
  destruct (exhausted c); [apply refuse_ran|]. destruct (send_message _ _ _ _ _) as [d1|] eqn:E; [|done].
  intros [= <- _ _]. by eapply send_message_ran.
Qed.

Lemma waitForAgents_ran d d' answer isErr : waitForAgents sid caller watermark d = Ok (d', answer, isErr) -> ran sid [] d d'.
Proof.
  unfold waitForAgents. intros [= <- _ _]. split; cbn [d_tb d_wakes d_events].
  - apply advanced_refl.
  - exists []. rewrite app_nil_r. by split; [|split; [apply starts_same|constructor]].
  - intros [H1 H2]. assert (Hv : wv_park (wait_verdict sid caller watermark d) = true -> busy sid (d_tb d) = true).
    { unfold wait_verdict. destruct (d_waited d) as [v|] eqn:Ev; [by apply H2|].
      change (BusyChild (tb_parent (d_tb d)) (tb_threads (d_tb d)) sid EmptyString) with (busy sid (d_tb d)).
      destruct (busy sid (d_tb d)); [done|]. cbn. by destruct (negb _). }
    split; cbn.
    + intros [Hp|Hp]%orb_true_iff; auto.
    + by intros v [= <-].
  - exists []. by rewrite app_nil_r.
Qed.

Lemma end_turn_ran d : ran sid [] d (end_turn d).
Proof.
  split; cbn [end_turn d_tb d_wakes d_events]; [apply advanced_refl|exists []; rewrite app_nil_r; by split; [|split; [apply starts_same|constructor]]| |exists []; by rewrite app_nil_r].
  by intros [H1 H2].
Qed.

Lemma submitResult_ran d call d' answer isErr : submitResult sid caller settlementOnly cut d call = Ok (d', answer, isErr) -> ran sid [] d d'.
Proof.
  unfold submitResult. destruct (input_string call "result"); [|apply refuse_ran]. destruct (String.eqb _ _); [apply refuse_ran|].
  destruct (_ || _); [apply refuse_ran|]. unfold report. destruct (send_message _ _ _ _ _) as [d1|] eqn:E; [|done].
  intros [= <- _ _]. apply send_message_ran in E. by eapply (ran_trans sid [] []); [|apply end_turn_ran].
Qed.

Lemma sendToParent_ran d call d' answer isErr : sendToParent sid caller d call = Ok (d', answer, isErr) -> ran sid [] d d'.
Proof.
  unfold sendToParent. destruct (input_string call "message"); [|apply refuse_ran]. destruct (String.eqb _ _); [apply refuse_ran|].
  unfold report. destruct (send_message _ _ _ _ _) as [d1|] eqn:E; [|done]. intros [= <- _ _]. by apply send_message_ran in E.
Qed.

Lemma dispatch_ran d call d' answer isErr : dispatch d call = Ok (d', answer, isErr) -> ran sid [] d d'.
Proof.
  unfold Delegate.dispatch. repeat match goal with |- (if ?b then _ else _) = _ -> _ => destruct b end;
    eauto using createAgent_ran, sendToAgent_ran, waitForAgents_ran, submitResult_ran, sendToParent_ran, refuse_ran.
  intros [= <- _ _]. apply ran_refl.
Qed.


Lemma run_call_ran d call d' : run_call d call = Ok d' -> ran sid [settled_answer (tp_ThreadID caller) (dc_eventID call)] d d'.
Proof.
  unfold Delegate.run_call. intros H. apply bind_ok in H as ([[d1 answer] isErr] & H1 & [= <-]).
  apply (ran_trans sid [] _ _ d1); [|by apply emit_ran].
  destruct (negb _); [by eapply refuse_ran|]. destruct (negb _); [by eapply refuse_ran|by eapply dispatch_ran].
Qed.

Lemma run_ran calls d d' : run_calls d calls = Ok d' -> ran sid (map (fun c => settled_answer (tp_ThreadID caller) (dc_eventID c)) calls) d d'.
Proof.
  revert d. induction calls as [|c calls IH]; intros d; cbn [Delegate.run]; [intros [= <-]; apply ran_refl|].
  intros (d1 & H1 & H)%bind_ok. apply run_call_ran in H1. apply IH in H. exact (ran_trans sid _ _ _ _ _ H1 H).
Qed.
End calls.

(** ** The work behind a settlement *)

(** Rows stay as they are; new ones may join. *)
Definition keeps (q q' : qdb) : Prop := forall i x, q_items q !! i = Some x -> q_items q' !! i = Some x.

(** The tables but for the queue, which keeps its rows. *)
Definition only_queue (tb tb' : tables) : Prop := tb' = with_queue tb (tb_queue tb') /\ keeps (tb_queue tb) (tb_queue tb').

Lemma only_queue_refl tb : only_queue tb tb.
Proof. split; [by destruct tb|by intros ?]. Qed.

Lemma only_queue_trans a b c : only_queue a b -> only_queue b c -> only_queue a c.
Proof. intros [H1 K1] [H2 K2]. split; [rewrite H2, H1; done|]. intros i x Hx. by apply K2, K1. Qed.

(** A turn of the thread is live. *)
Definition turn_live (sid : string) (q : qdb) (tid : string) : Prop :=
  exists i x, q_items q !! i = Some x /\ live x = true /\ live_key x = (sid, nullableThread tid, ModelTurn).

Lemma turn_live_keeps sid q q' tid : keeps q q' -> turn_live sid q tid -> turn_live sid q' tid.
Proof. intros H (i & x & Hx & ?). exists i, x. split; [by apply H|done]. Qed.

(** What the log says is ready to run has an item of its own. *)
Definition work_queued (sid kind : string) (tb : tables) : Prop :=
  forall k, work_kind (RunnableExecClass (tb_log tb) sid kind [] [] IsWebTool IsDelegationTool) = Some k ->
    exists i x, q_items (tb_queue tb) !! i = Some x /\ live x = true /\ live_key x = (sid, nullableThread EmptyString, k).

Lemma work_queued_queue sid kind tb tb' : only_queue tb tb' -> work_queued sid kind tb -> work_queued sid kind tb'.
Proof.
  intros [-> K] H k Hk. destruct (H k Hk) as (i & x & Hx & ?). exists i, x. split; [by apply K|done].
Qed.

Section work.
Context (now : Z) (trace : option string) (sid : string).

Lemma enqueue_thread_ok tb wid env tid k tb' : enqueue_thread now trace tb wid env sid tid k = Ok tb' ->
  only_queue tb tb' /\
  exists i x, q_items (tb_queue tb') !! i = Some x /\ live x = true /\ live_key x = (sid, nullableThread tid, k).
Proof.
  unfold enqueue_thread, EnqueueThread. destruct (insert_item _ _ _) as [[b q]|] eqn:Hi; [|done]. intros [= <-].
  destruct (insert_item_row _ _ _ _ _ Hi eq_refl) as (_ & Hk & _ & i & x & Hx & Hl & Hlk).
  split; [by split|]. exists i, x. by rewrite Hlk.
Qed.

Lemma enqueueRunnableTools_ok tb it wid tb' : it_session it = sid -> enqueueRunnableTools now trace tb it wid = Ok tb' ->
  only_queue tb tb' /\ work_queued sid (env_text tb (it_env it)) tb'.
Proof.
  intros Hs. unfold enqueueRunnableTools, work_queued. rewrite Hs. destruct (work_kind _) as [k|] eqn:Ek.
  - intros [Q L]%enqueue_thread_ok. split; [done|]. intros k'. rewrite (proj1 Q). cbn [tb_log with_queue]. rewrite Ek. by intros [= <-].
  - intros [= <-]. split; [apply only_queue_refl|]. intros k'. by rewrite Ek.
Qed.

Lemma enqueueIdleHarvest_ok tb it moved wid tb' : it_session it = sid -> enqueueIdleHarvest now tb it moved wid trace = Ok tb' -> only_queue tb tb'.
Proof.
  intros <-. unfold enqueueIdleHarvest. destruct (_ && _); [|intros [= <-]; apply only_queue_refl].
  unfold enqueue_harvest, EnqueueOutputsHarvest, lift_queue. destruct (insert_item _ _ _) as [[b q]|] eqn:Hi; [|done]. intros [= <-].
  split; [done|]. by destruct (insert_item_row _ _ _ _ _ Hi eq_refl) as (_ & Hk & _).
Qed.

Lemma enqueueIdleHarvest_envs tb it moved wid tb' : enqueueIdleHarvest now tb it moved wid trace = Ok tb' ->
  q_envs (tb_queue tb') = q_envs (tb_queue tb).
Proof.
  unfold enqueueIdleHarvest. destruct (_ && _); [|by intros [= <-]].
  unfold enqueue_harvest, EnqueueOutputsHarvest, lift_queue. destruct (insert_item _ _ _) as [[b q]|] eqn:Hi; [|done]. intros [= <-].
  by destruct (insert_item_row _ _ _ _ _ Hi eq_refl) as (? & _).
Qed.

Lemma complete_item_envs tb it tb' : complete_item now tb it = Ok tb' -> q_envs (tb_queue tb') = q_envs (tb_queue tb).
Proof.
  unfold complete_item. destruct (Complete now (tb_queue tb) it) as [q|] eqn:E; [|done]. intros [= <-].
  by apply complete_row in E as (r & r' & _ & _ & ? & _).
Qed.

Lemma env_text_envs a b env : q_envs (tb_queue a) = q_envs (tb_queue b) -> env_text a env = env_text b env.
Proof. unfold env_text. by intros ->. Qed.

Lemma enqueue_wakes_ok env mint wakes : forall i tb tb', enqueue_wakes now trace sid tb env mint i wakes = Ok tb' ->
  only_queue tb tb' /\ Forall (turn_live sid (tb_queue tb')) wakes.
Proof.
  induction wakes as [|w wakes IH]; intros i tb tb'; cbn [enqueue_wakes]; [intros [= <-]; split; [apply only_queue_refl|constructor]|].
  intros (tb1 & H1 & H)%bind_ok. apply enqueue_thread_ok in H1 as [Q1 L1]. destruct (IH _ _ _ H) as [Q2 L2].
  split; [by eapply only_queue_trans|]. constructor; [|done]. eapply turn_live_keeps; [apply Q2|exact L1].
Qed.

Lemma requeued_live tb it chain delay q' : requeue now (tb_queue tb) it chain delay = Ok q' -> it_session it = sid ->
  item_of (tb_queue tb) it -> it_kind it = ModelTurn -> turn_live sid q' (it_thread it).
Proof.
  intros H Hs (r & Hr & E1 & E2 & E3) Hk. apply requeue_row in H as (r0 & r' & Hr0 & Hq & _ & Hst & Hkey).
  exists (it_id it), r'. rewrite Hq, lookup_insert_eq. split; [done|]. split; [by apply queued_live|]. rewrite Hkey.
  rewrite Hr in Hr0. injection Hr0 as <-. unfold live_key. by rewrite E1, E2, E3, Hs, Hk.
Qed.

Lemma item_of_keeps q q' it : keeps q q' -> item_of q it -> item_of q' it.
Proof. intros H (r & Hr & ?). exists r. split; [by apply H|done]. Qed.
End work.

(** An append touches the log alone. *)
Lemma append_ok rd tb sid batch o tb' : append rd tb sid batch o = Ok tb' ->
  exists rows, AppendInTx rd (tb_log tb) sid batch o = Ok (rows, tb_log tb') /\ tb' = with_ldb tb (tb_log tb').
Proof. unfold append. destruct (AppendInTx _ _ _ _ _) as [[rows db]|]; [|done]. intros [= <-]. by exists rows. Qed.

Lemma transition_ok tb sid t evs moved tb' : transition tb sid t = Ok (evs, moved, tb') ->
  tb' = with_threads tb (tb_threads tb') /\
  s_threads (tb_threads tb') = match row_of (tb_threads tb) sid (thread_of sid (tr_thread t)) with
    | Some r => <[thread_of sid (tr_thread t) := moved_row t r]> (s_threads (tb_threads tb)) | None => s_threads (tb_threads tb) end /\
  Forall (fun ev => no_result ev) evs.
Proof.
  unfold transition. destruct (TransitionThread _ _ _) as [[[out m] s']|] eqn:ET; [|done]. intros [= <- _ <-].
  apply TransitionThread_rows in ET as (Hth & _ & _ & _ & Hk). split_and!; [done|exact Hth|].
  apply Forall_forall. intros ev (e & -> & He)%list_elem_of_fmap. by apply status_event_kind, Hk.
Qed.

(** ** Results as the log takes them *)

Definition answered_row (r : erow) : option answer_of :=
  if mem_string (e_type r) replyTypes then Some (e_type r, e_thread r, result_ref (e_payload r)) else None.

Definition processed_result (r : erow) : Prop := e_type r = EventAgentToolResult -> e_processed r <> None.

Lemma build_rows_answered rd sid agent usage created : forall evs seq over last clock rows clock',
  build_rows rd sid agent usage created false seq over last clock evs = Ok (rows, clock') ->
  omap answered_row rows = omap answered evs /\ Forall processed_result rows.
Proof.
  induction evs as [|ev evs IH]; intros seq over last clock rows clock'; cbn [build_rows]; [intros [= <- _]; by split|].
  destruct (if String.eqb (n_thread ev) EmptyString && _ then _ else _) as [payload|] eqn:Epl; [|done].
  destruct (build_rows _ _ _ _ _ _ _ _ _ _ evs) as [[rows1 clock1]|] eqn:E; [|done]. intros [= <- _].
  destruct (IH _ _ _ _ _ _ E) as [Ho Hp]. split.
  - cbn [omap list_omap]. unfold answered_row at 1, answered at 1. cbn [e_type e_thread e_payload].
    destruct (mem_string (n_type ev) replyTypes) eqn:Et; [|exact Ho]. rewrite Ho. f_equal. f_equal.
    assert (Eu : String.eqb (n_type ev) EventSessionUsage = false) by (apply String.eqb_neq; intros Eq; by rewrite Eq in Et).
    assert (Ep : mem_string (n_type ev) primaryStatusEvents = false).
    { apply not_true_iff_false. intros H%mem_string_spec. unfold primaryStatusEvents in H.
      repeat (apply elem_of_cons in H as [H|H]; [by rewrite H in Et|]). by apply not_elem_of_nil in H. }
    rewrite Ep, andb_false_r in Epl. injection Epl as <-. rewrite Eu. unfold payload_of. f_equal. destruct (n_payload ev) as [v|]; cbn; by destruct clock, (stamp_of _ _ _ _ _ _).
  - constructor; [|exact Hp]. intros Et. cbn in Et |- *. unfold stamp_of. rewrite Et.
    replace (StampedOnConsumption EventAgentToolResult) with false by (vm_compute; reflexivity). cbv zeta iota.
    destruct (match n_processed ev with Some _ => _ | None => over end) as [p|]; cbn.
    + destruct last as [l|]; [by destruct (_ <? _)|done].
    + destruct last as [l|]; [by destruct (_ <? _)|done].
Qed.

Lemma snapshots_answered evs : omap answered (withUsageSnapshots evs) = omap answered evs.
Proof.
  induction evs as [|ev evs IH]; [done|]. cbn [withUsageSnapshots]. destruct (is_idle ev); cbn [omap list_omap]; by rewrite IH.
Qed.

Lemma append_answered rd db sid evs o rows db' : o_consume o = false -> AppendInTx rd db sid evs o = Ok (rows, db') ->
  omap answered_row rows = omap answered evs /\ Forall processed_result rows.
Proof.
  intros Ho (sess & c0 & c & agent & _ & _ & _ & _ & Hb & _ & _)%AppendInTx_inv. rewrite Ho in Hb.
  apply build_rows_answered in Hb as [H1 H2]. by rewrite snapshots_answered in H1.
Qed.

(** ** A walk's own answers *)

Lemma DenialResults_event db sid c ev answers_ : DenialResults db sid [confirm_event c] = Ok ([ev], answers_) ->
  plain_event ev = true /\ exists v, oc_confirmation c = Some v /\
    answered ev = Some (n_type ev, n_thread ev, Some (field_string v "tool_use_id")).
Proof.
  unfold DenialResults, denials_of, confirm_event. cbn [n_type n_payload].
  change (String.eqb EventUserToolConfirm EventUserToolConfirm) with true. cbn [negb].
  destruct (oc_confirmation c) as [v|]; [|done]. destruct (struct_ok v _); [|done]. cbn [negb].
  destruct (String.eqb (field_string v "result") "deny"); [|done]. cbn [map denial_results].
  destruct (toolUsesByID _ _ _ !! _) as [u|]; [|done]. destruct (toolUseAnswer (ref_Type (du_ref u))) as [a|] eqn:Ea; [|done].
  intros [= <- _]. unfold toolUseAnswer in Ea.
  assert (Ha : a = MkAnswer EventAgentToolResult "tool_use_id" false \/ a = MkAnswer EventUserCustomToolRes "custom_tool_use_id" true \/
    a = MkAnswer EventAgentMCPToolResult "mcp_tool_use_id" false) by (repeat case_match; simplify_eq; auto).
  split; [by destruct Ha as [->|[->| ->]]|]. exists v. split; [done|]. by destruct Ha as [->|[->| ->]].
Qed.

Lemma plain_row_answered sid ev r : plain_row sid ev r -> answered_row r = answered ev.
Proof. intros (_ & Ht & Hp & Hth & _). unfold answered_row, answered. by rewrite Ht, Hp, Hth. Qed.

(** The row denies the call [c], which had no result. *)
Definition denial_row (c : orderedCall) (r : erow) : Prop :=
  oc_resultID c = EmptyString /\ asks c = true /\ denies (oc_confirmation c) = true /\
  exists v ty th, oc_confirmation c = Some v /\ answered_row r = Some (ty, th, Some (field_string v "tool_use_id")).

Lemma stamped_step es es1 new es' more : stamped es es1 -> stamped ((es1 ++ new) ++ more) es' -> stamped (es ++ new ++ more) es'.
Proof.
  intros H1 H2. etransitivity; [|exact H2]. rewrite <- app_assoc. apply Forall2_app; [exact H1|]. change (stamped (new ++ more) (new ++ more)). reflexivity.
Qed.

(** Every row a walk adds denies one of the calls it walks. *)
Lemma walk_late rd sid calls : forall db db' cs, walkReady (advance_consume rd sid) db calls = Ok (db', cs) ->
  exists more, stamped (l_events db ++ more) (l_events db') /\ Forall (fun r => exists c, c ∈ calls /\ denial_row c r) more.
Proof.
  induction calls as [|c calls IH]; intros db db' cs; cbn [walkReady].
  { intros [= <- _]. exists []. rewrite app_nil_r. by split; [change (stamped (l_events db) (l_events db)); reflexivity|]. }
  destruct (is_empty (oc_resultID c) && (negb (asks c) || is_empty (oc_confirmationID c))) eqn:E.
  { intros [= <- _]. exists []. rewrite app_nil_r. by split; [change (stamped (l_events db) (l_events db)); reflexivity|]. }
  assert (Hstep : forall db1 db1' new rest_cs, stamped (l_events db) (l_events db1) ->
    l_events db1' = l_events db1 ++ new -> Forall (denial_row c) new -> walkReady (advance_consume rd sid) db1' calls = Ok (db', rest_cs) ->
    exists more, stamped (l_events db ++ more) (l_events db') /\ Forall (fun r => exists c', c' ∈ c :: calls /\ denial_row c' r) more).
  { intros db1 db1' new rest_cs Hst He Hn (more & Hm & Hf)%IH. exists (new ++ more). rewrite He in Hm.
    split; [by eapply stamped_step|]. apply Forall_app. split; (eapply Forall_impl; [eassumption|]); cbn.
    - intros r Hr. exists c. by split; [left|].
    - intros r (c' & ? & ?). exists c'. by split; [right|]. }
  destruct (advance_consume rd sid db c) as [[[db1 c1] b]|] eqn:Ec; [|done]. unfold advance_consume in Ec.
  destruct (is_empty (oc_resultID c)) eqn:Er; cbn [negb] in Ec.
  - destruct (DenialResults _ _ _) as [[results answers_]|] eqn:Ed; [|done].
    pose proof (DenialResults_one _ _ _ _ _ Ed) as [[-> Hden]|[[ev ->] Hden]].
    + injection Ec as <- _ <-. intros [= <- _]. exists []. rewrite app_nil_r. split; [apply stamp_where_stamped|done].
    + destruct (AppendInTx _ _ _ _ _) as [[out db2]|] eqn:Ea; [|done]. injection Ec as <- <- <-.
      destruct (walkReady _ db2 calls) as [[db3 cs1]|] eqn:Ew; [|done]. intros [= <- _].
      apply DenialResults_event in Ed as (Hp & v & Hv & Hans). apply AppendInTx_plain in Ea as [He Hrows]; [|by constructor].
      eapply Hstep; [apply stamp_where_stamped|exact He| |exact Ew].
      inversion Hrows as [|? r ? ? Hr Hnil]; subst. inversion Hnil; subst. constructor; [|done]. bool_prop.
      split_and!; [by apply String.eqb_eq|by destruct (asks c)|done|]. exists v, (n_type ev), (n_thread ev). split; [done|].
      by rewrite (plain_row_answered _ _ _ Hr).
  - injection Ec as <- _ <-. destruct (walkReady _ _ calls) as [[db3 cs1]|] eqn:Ew; [|done]. intros [= <- _].
    refine (Hstep _ _ [] _ _ _ (Forall_nil_2 _) Ew); [|by rewrite app_nil_r].
    destruct (negb (is_empty (oc_confirmationID c))); [|apply stamp_where_stamped]. etransitivity; apply stamp_where_stamped.
Qed.

(** The row answers what a refusal on the log names; the refused call is one of the
    thread's that asks, and had no result. *)
Definition late_answer (db : ldb) (sid tid : string) (r : erow) : Prop :=
  exists tu cf ty th, tu ∈ l_events db /\ e_session tu = sid /\ e_thread tu = tid /\ mem_string (e_type tu) toolUseTypes = true /\
    field_string (e_payload tu) "evaluated_permission" = EvalPermAsk /\
    cf ∈ l_events db /\ confirms sid (e_id tu) cf = true /\ denies (Some (e_payload cf)) = true /\
    (forall x, find (answers sid (e_id tu)) (l_events db) = Some x -> e_id x = EmptyString) /\
    answered_row r = Some (ty, th, Some (field_string (e_payload cf) "tool_use_id")).

Lemma map_result_elem {E A B} (f : A -> result E B) l l' y : map_result f l = Ok l' -> y ∈ l' -> exists x, x ∈ l /\ f x = Ok y.
Proof.
  revert l'. induction l as [|x l IH]; intros l'; cbn [map_result]; [by intros [= <-] ?%not_elem_of_nil|].
  destruct (f x) as [z|] eqn:E1; [|done]. destruct (map_result f l) as [zs|]; [|done]. intros [= <-] [->|Hy]%elem_of_cons.
  - exists x. by split; [left|].
  - destruct (IH _ eq_refl Hy) as (x' & ? & ?). exists x'. by split; [right|].
Qed.

Lemma advance_late rd db sid tid kind po db' flow : AdvanceThreadTools rd db sid tid kind po = Ok (db', flow) ->
  exists more, stamped (l_events db ++ more) (l_events db') /\ Forall (late_answer db sid tid) more.
Proof.
  unfold AdvanceThreadTools. intros (calls & Hc & H)%bind_ok. apply bind_ok in H as ([db1 cs] & Hw & [= <- _]).
  apply walk_late in Hw as (more & Hm & Hf). exists more. split; [exact Hm|]. eapply Forall_impl; [exact Hf|].
  intros r (c & Hin & Hr & Ha & Hd & v & ty & th & Hv & Hans). destruct (map_result_elem _ _ _ _ Hc Hin) as (tu & Htu & Hcall).
  apply elem_of_select_by_seq in Htu as [Htu Hp]. bool_prop. unfold call_of in Hcall. destruct (struct_ok _ _); [|done].
  injection Hcall as <-. cbn [oc_resultID oc_confirmation] in *. unfold asks in Ha. cbn [oc_permission] in Ha.
  destruct (find (confirms sid (e_id tu)) (l_events db)) as [cf|] eqn:Ecf; [|done]. injection Hv as <-.
  apply find_some in Ecf as [Hcf Hconf]. apply list_elem_of_In in Hcf. exists tu, cf, ty, th. split_and!; try done.
  - by apply String.eqb_eq.
  - by apply String.eqb_eq.
  - by apply String.eqb_eq.
  - intros x Hx. by rewrite Hx in Hr.
Qed.

(** ** How the calling thread is left *)

(** The row is of a call, or answers one. *)
Definition of_call (r : erow) : bool := mem_string (e_type r) (toolUseTypes ++ replyTypes).

Lemma of_call_answered r : of_call r = false -> answered_row r = None.
Proof. unfold of_call, answered_row. rewrite mem_string_app. intros [_ ->]%orb_false_iff. done. Qed.

(** [flow] is what the walk of the thread's calls found, over everything [db'] holds of
    calls: no row behind it is of one. *)
Definition walked (rd : readings) (sid tid kind : string) (db db' : ldb) (flow : ToolFlow) : Prop :=
  exists mid log' more, grown db mid /\ AdvanceThreadTools rd mid sid tid kind platformOwned = Ok (log', flow) /\
    l_events db' = l_events log' ++ more /\ Forall (fun r => of_call r = false) more.

Definition goes_on (sid tid : string) (tb : tables) (r : thread_row) : Prop :=
  t_status r = SessionRunning /\ turn_live sid (tb_queue tb) tid.

(** How a commit leaves the thread of its turn.  Every call of which was the settlement's
    own: it goes on with a live turn, or rests at the end of its turn.  Another: it rests
    where the walk of its calls says, and goes on if they are all settled; and what is
    ready to run is queued. *)
Definition left_well (rd : readings) (sid tid kind : string) (own : bool) (db : ldb) (tb' : tables) : Prop :=
  exists r, row_of (tb_threads tb') sid (thread_of sid tid) = Some r /\
    if own then goes_on sid tid tb' r \/ (t_status r = SessionIdle /\ t_stop r = Some (MkStop StopEndTurn []))
    else exists flow, walked rd sid tid kind db (tb_log tb') flow /\ work_queued sid kind tb' /\
      if Unsettled flow then rests flow r else goes_on sid tid tb' r.

Lemma goes_on_queue sid tid tb tb' r : only_queue tb tb' -> goes_on sid tid tb r -> goes_on sid tid tb' r.
Proof. intros [-> Hk] [Hs Hl]. split; [done|]. by eapply turn_live_keeps. Qed.

Lemma left_well_queue rd sid tid kind own db tb tb' : only_queue tb tb' -> left_well rd sid tid kind own db tb -> left_well rd sid tid kind own db tb'.
Proof.
  intros Q (r & Hr & H). exists r. split; [rewrite (proj1 Q); exact Hr|]. destruct own.
  - destruct H as [H|H]; [left; by eapply goes_on_queue|by right].
  - destruct H as (flow & Hw & Hq & H). exists flow. split; [rewrite (proj1 Q); exact Hw|]. split; [by eapply work_queued_queue|].
    destruct (Unsettled flow); [done|by eapply goes_on_queue].
Qed.

Lemma left_well_grown rd sid tid kind own db db1 tb : grown db db1 -> left_well rd sid tid kind own db1 tb -> left_well rd sid tid kind own db tb.
Proof.
  intros Hg (r & Hr & H). exists r. split; [done|]. destruct own; [done|]. destruct H as (flow & (mid & log' & more & H1 & H2) & H).
  exists flow. split; [|done]. exists mid, log', more. split; [by eapply grown_trans|done].
Qed.

(** A row behind an append that is no answer, or a late one. *)
Definition late (db : ldb) (sid tid : string) (r : erow) : Prop := answered_row r = None \/ late_answer db sid tid r.

Lemma append_types (P : EventType -> Prop) rd db sid evs o rows db' : AppendInTx rd db sid evs o = Ok (rows, db') ->
  P EventSessionUsage -> Forall (fun ev => P (n_type ev)) evs -> Forall (fun r => P (e_type r)) rows.
Proof.
  intros (sess & c0 & c & agent & _ & _ & _ & _ & Hb & _ & _)%AppendInTx_inv Hu Hevs. apply build_rows_shape in Hb as [Hf _].
  assert (Hs : Forall (fun ev => P (n_type ev)) (withUsageSnapshots evs)).
  { clear -Hu Hevs. induction Hevs as [|ev evs He _ IH]; [constructor|]. cbn. destruct (is_idle ev); repeat constructor; done. }
  revert Hf Hs. generalize (withUsageSnapshots evs). clear. intros l Hf Hs.
  induction Hf as [|ev r l rows (_ & _ & Ht & _) _ IH]; [constructor|]. apply Forall_cons in Hs as [He Hs].
  constructor; [by rewrite Ht|by apply IH].
Qed.

Lemma append_sessions rd db sid evs o rows db' : AppendInTx rd db sid evs o = Ok (rows, db') -> Forall (fun r => e_session r = sid) rows.
Proof.
  intros (sess & c0 & c & agent & _ & _ & _ & _ & [Hf%row_of_Forall _]%build_rows_shape & _ & _)%AppendInTx_inv.
  eapply Forall_impl; [exact Hf|]. by intros r [? _].
Qed.

Lemma build_rows_ids rd sid agent usage created : (forall q, r_id rd q <> EmptyString) -> forall evs consume seq over last clock rows clock',
  build_rows rd sid agent usage created consume seq over last clock evs = Ok (rows, clock') -> Forall (fun r => e_id r <> EmptyString) rows.
Proof.
  intros Hid. induction evs as [|ev evs IH]; intros consume seq over last clock rows clock'; cbn [build_rows]; [by intros [= <- _]|].
  destruct (if String.eqb (n_thread ev) EmptyString && _ then _ else _) as [payload|]; [|done].
  destruct (build_rows _ _ _ _ _ _ _ _ _ _ evs) as [[rows1 clock1]|] eqn:E; [|done]. intros [= <- _].
  constructor; [|by eapply IH]. cbn. by destruct (String.eqb_spec (n_id ev) EmptyString).
Qed.

Lemma append_ids rd db sid evs o rows db' : (forall q, r_id rd q <> EmptyString) -> AppendInTx rd db sid evs o = Ok (rows, db') ->
  Forall (fun r => e_id r <> EmptyString) rows.
Proof. intros Hid (sess & c0 & c & agent & _ & _ & _ & _ & Hb & _ & _)%AppendInTx_inv. by eapply build_rows_ids. Qed.

Lemma status_event_call e : status_kind (ev_type e) = true -> mem_string (n_type (status_event e)) (toolUseTypes ++ replyTypes) = false.
Proof. unfold status_event. cbn [n_type]. by destruct (ev_type e). Qed.

Lemma transition_types tb sid t evs moved tb' : transition tb sid t = Ok (evs, moved, tb') ->
  Forall (fun ev => mem_string (n_type ev) (toolUseTypes ++ replyTypes) = false) evs.
Proof.
  unfold transition. destruct (TransitionThread _ _ _) as [[[out m] s']|] eqn:ET; [|done]. intros [= <- _ <-].
  apply TransitionThread_rows in ET as (_ & _ & _ & _ & Hk).
  apply Forall_forall. intros ev (e & -> & He)%list_elem_of_fmap. by apply status_event_call, Hk.
Qed.

Section tail.
Context (sid : string).

Lemma told_advanced tb tid text told tb' : stopped_told tb sid tid text = Ok (told, tb') ->
  tb' = with_threads tb (tb_threads tb') /\ advanced sid tb tb' /\
  starts sid [] tb tb' (if told_woke told then [EmptyString] else []) /\
  Forall (fun ev => no_result ev) (told_events told).
Proof.
  unfold stopped_told. destruct (childEndedNotice tb sid tid text) as [notice|] eqn:En.
  2: { intros [= <- <-]. split_and!; [by destruct tb|apply advanced_refl|by apply starts_same|constructor]. }
  assert (Hn : no_result notice).
  { unfold childEndedNotice in En. destruct (String.eqb _ _); [done|]. destruct (row_of _ _ _); [|done].
    destruct (bool_decide _); [|done]. by injection En as <-. }
  unfold deliver_ended, DeliverThreadEnded, wakeOnThreadEnded.
  destruct (negb _ || _).
  { intros [= <- <-]. split_and!; [by destruct tb|by destruct tb; apply advanced_refl|by apply starts_same|by constructor]. }
  destruct (wakeThread _ _ _ _) as [[[evs m] s']|] eqn:Ew; [|done]. intros [= <- <-]. apply wakeThread_ok in Ew.
  unfold told_woke, Woke. cbn [dl_Wake].
  destruct Ew as [[-> ->]|(r & [Hr _]%row_of_Some & Hi & Hs & Hne & Hk)].
  { cbn. split_and!; [done|by destruct tb; apply advanced_refl|by apply starts_same|by constructor]. }
  rewrite bool_decide_false by done. cbn [negb]. split_and!; [done| | |].
  - eapply advanced_move; [exact Hr|by apply woken_moved|exact Hs].
  - eapply starts_insert; [exact Hs|]. right. exists EmptyString. by split; [left|].
  - unfold told_events, delivery_events. cbn. apply Forall_app. split; [done|by constructor].
Qed.

(** A move between statuses other than the terminal one counts the same. *)
Lemma moved_count tb tb' t r : row_of (tb_threads tb) sid (thread_of sid (tr_thread t)) = Some r ->
  t_status r <> SessionTerminated -> tr_status t <> SessionTerminated ->
  s_threads (tb_threads tb') = <[thread_of sid (tr_thread t) := moved_row t r]> (s_threads (tb_threads tb)) ->
  live_count sid tb' = live_count sid tb.
Proof.
  intros [Hr Hs]%row_of_Some H1 H2 Hth. rewrite !live_count_rows, Hth, (count_moved sid _ _ r); [done|done|].
  unfold counted. cbn. tauto.
Qed.

Lemma count_same tb tb' : s_threads (tb_threads tb') = s_threads (tb_threads tb) -> live_count sid tb' = live_count sid tb.
Proof. intros H. by rewrite !live_count_rows, H. Qed.

Lemma settle_flow_ok rd tb tid flow moved tb' r : settle_flow rd tb sid tid flow = Ok (moved, tb') ->
  row_of (tb_threads tb) sid (thread_of sid tid) = Some r -> t_status r = SessionRunning ->
  starts sid [thread_of sid tid] tb tb' [] /\ live_count sid tb' = live_count sid tb /\
  (exists more, l_events (tb_log tb') = l_events (tb_log tb) ++ more /\ Forall (fun r => of_call r = false) more) /\ tb_queue tb' = tb_queue tb /\
  exists r', row_of (tb_threads tb') sid (thread_of sid tid) = Some r' /\ rests flow r'.
Proof.
  intros H Hrow Hrun. pose proof Hrow as [Hr Hsid]%row_of_Some. unfold settle_flow, SettleTransition in H.
  destruct (negb (Running flow) && _); [done|].
  assert (Hset : settled_row (tb_threads tb) sid tid = Some (t_status r, t_stop r))
    by (unfold settled_row; by rewrite Hr, Hsid, String.eqb_refl).
  rewrite Hset in H. cbn iota beta zeta in H. rewrite Hrun in H. cbn [bool_decide orb] in H.
  rewrite !bool_decide_false in H by done. cbn [orb] in H.
  pose proof (same_rests flow r) as Hsame. rewrite Hrun in Hsame.
  destruct (bool_decide (SessionRunning = _) && _) eqn:Es.
  { injection H as _ <-. split_and!; [by apply starts_same|done|exists []; by rewrite app_nil_r|done|]. exists r. split; [done|]. by apply Hsame. }
  destruct (transition tb sid _) as [[[evs m] tb1]|] eqn:Et; [|done]. cbn [of_settle] in H.
  destruct (append rd tb1 sid evs no_options) as [tb2|] eqn:Ea; [|done]. injection H as _ <-.
  pose proof (transition_types _ _ _ _ _ _ Et) as Hty. apply transition_ok in Et as (E1 & Hth & _). cbn [tr_thread] in Hth. rewrite Hrow in Hth.
  apply append_ok in Ea as (rows & Hg & E2). pose proof (append_types (fun t => mem_string t (toolUseTypes ++ replyTypes) = false) _ _ _ _ _ _ _ Hg eq_refl Hty) as Hrows.
  apply AppendInTx_inv in Hg as (sess & c0 & c & agent & _ & _ & _ & _ & _ & Hg%append_effects_plain & _).
  assert (Hth2 : tb_threads tb2 = tb_threads tb1) by (rewrite E2; done).
  split; [eapply starts_insert; [rewrite Hth2; exact Hth|left; left]|].
  split. { rewrite <- Hth2 in Hth. refine (moved_count tb tb2 (MkTransition tid _ _ _ _) r Hrow _ _ Hth); [by rewrite Hrun|]. cbn. by destruct (Running flow). }
  split. { exists rows. assert (L1 : tb_log tb1 = tb_log tb) by (by rewrite E1). by rewrite Hg, <- L1. }
  split; [by rewrite E2, E1|]. eexists. split; [rewrite Hth2; apply row_of_Some; rewrite Hth, lookup_insert_eq; by split|].
  unfold rests, moved_row. cbn [t_status t_stop tr_status tr_stop]. destruct (Running flow); [done|]. done.
Qed.

Lemma settleTools_ok rd now trace tb it w1 w2 moved tb' r : settleTools rd now trace tb it w1 w2 = Ok (moved, tb') -> it_session it = sid ->
  row_of (tb_threads tb) sid (thread_of sid (it_thread it)) = Some r -> t_status r = SessionRunning ->
  starts sid [thread_of sid (it_thread it)] tb tb' [] /\ live_count sid tb' = live_count sid tb /\
  (exists more, stamped (l_events (tb_log tb) ++ more) (l_events (tb_log tb')) /\ Forall (late (tb_log tb) sid (it_thread it)) more) /\
  left_well rd sid (it_thread it) (env_text tb (it_env it)) false (tb_log tb) tb'.
Proof.
  intros H Hs Hr Hrun. unfold settleTools in H. rewrite Hs in H. apply bind_ok in H as ([tb1 flow] & H1 & H).
  unfold advance_tools in H1. rewrite Hs in H1. apply bind_ok in H1 as ([db1 f] & Ha & [= <- ->]). unfold of_flow in Ha.
  destruct (AdvanceThreadTools _ _ _ _ _ _) as [[db1' f]|] eqn:Eadv; [|done]. injection Ha as -> ->. set (tb1 := with_ldb tb db1) in *.
  apply bind_ok in H as ([m tb2] & H2 & H). apply bind_ok in H as (tb3 & H3 & H). apply bind_ok in H as (tb4 & H4 & [= _ <-]).
  assert (Hr1 : row_of (tb_threads tb1) sid (thread_of sid (it_thread it)) = Some r) by done.
  destruct (settle_flow_ok _ _ _ _ _ _ _ H2 Hr1 Hrun) as (S2 & C2 & (srows & G2 & T2) & Q2 & r' & Hr' & Hrest).
  apply (enqueueRunnableTools_ok now trace sid) in H3 as [H3 Hwork]; [|done].
  assert (Hq : only_queue tb3 tb4 /\ (Unsettled flow = false -> turn_live sid (tb_queue tb4) (it_thread it))).
  { destruct (Unsettled flow); [injection H4 as <-; split; [apply only_queue_refl|done]|].
    apply enqueue_thread_ok in H4 as [? ?]. by split. }
  destruct Hq as [H5 Hlive]. pose proof (only_queue_trans _ _ _ H3 H5) as [E4 K4].
  assert (L4 : tb_log tb4 = tb_log tb2) by (by rewrite E4). assert (T4 : tb_threads tb4 = tb_threads tb2) by (by rewrite E4).
  destruct (advance_late _ _ _ _ _ _ _ _ Eadv) as (more & Hm & Hl).
  split_and!.
  - apply (starts_trans sid _ _ tb1 _ [] []); [by apply starts_same|].
    apply (starts_trans sid _ _ tb2 _ [] []); [exact S2|]. apply starts_same. by rewrite T4.
  - rewrite (count_same tb2 tb4) by (by rewrite T4). rewrite C2. by apply count_same.
  - exists (more ++ srows). rewrite L4, G2, app_assoc. split.
    + apply Forall2_app; [exact Hm|]. change (stamped srows srows). reflexivity.
    + apply Forall_app. split; [eapply Forall_impl; [exact Hl|]; by right|]. eapply Forall_impl; [exact T2|]. intros x Hx. left. by apply of_call_answered.
  - exists r'. rewrite T4. split; [exact Hr'|]. exists flow. split; [|split].
    + exists (tb_log tb), db1, srows. split; [apply grown_refl|]. split; [exact Eadv|]. by rewrite L4, G2.
    + eapply work_queued_queue; [exact H5|]. rewrite (env_text_envs tb tb2) by (by rewrite Q2). exact Hwork.
    + destruct (Unsettled flow) eqn:Eu; [exact Hrest|]. split; [|by apply Hlive]. unfold rests, Running in Hrest. by rewrite Eu in Hrest.
Qed.
End tail.

(** What the append of the turn holds, and what follows it. *)
Lemma settle_delegated_rows rd sid tid db1 db2 db4 db' base head devs cev idle o rows :
  AppendInTx rd db1 sid (head ++ devs ++ cev ++ idle) (o : AppendOptions) = Ok (rows, db2) ->
  o_consume o = false -> o_then o = None ->
  Forall (fun ev => no_result ev) cev -> Forall (fun ev => no_result ev) idle ->
  l_events db1 = base -> l_events db4 = l_events db2 ->
  (exists more, stamped (l_events db4 ++ more) (l_events db') /\ Forall (late db4 sid tid) more) ->
  exists rows more mid, stamped (base ++ rows) (l_events mid) /\ stamped (l_events mid ++ more) (l_events db') /\
    omap answered_row rows = omap answered (head ++ devs) /\ Forall processed_result rows /\
    Forall (fun r => e_session r = sid) rows /\ Forall (late mid sid tid) more /\
    ((forall q, r_id rd q <> EmptyString) -> Forall (fun r => e_id r <> EmptyString) rows).
Proof.
  intros Ha Hoc Hot Hc Hi <- E4 (more & Hm & Hl). destruct (append_answered _ _ _ _ _ _ _ Hoc Ha) as [H1 H2].
  exists rows, more, db4. split_and!; [rewrite E4; by eapply grown_append|done| |done| |done|].
  - rewrite H1, !app_assoc, !omap_app'. rewrite (answered_none cev), (answered_none idle) by done. by rewrite !app_nil_r.
  - by eapply append_sessions.
  - intros Hid. by eapply append_ids.
Qed.

(** ** The commit *)

Section flags.
Context (isPrint : Z -> bool) (sid : string) (agent : ResolvedAgent) (caller : ThreadPeer) (watermark : Z) (settlementOnly cut : bool).
Context (child_id : nat -> string) (child_clock : nat -> Z).

(** A wait that parks was answered that it started. *)
Definition waits_ok (d : delegation) : Prop := forall v, d_waited d = Some v -> wv_park v = true -> wv_answer v = answerWaitStarted.

(** A call that decides nothing of the calling thread; it may forget an earlier wait. *)
Definition steady (d d' : delegation) : Prop :=
  d_park d' = d_park d /\ d_ended d' = d_ended d /\ (d_waited d' = d_waited d \/ d_waited d' = None) /\ d_events d `prefix_of` d_events d'.

Lemma steady_refl d : steady d d.
Proof. split_and!; auto. Qed.

Lemma steady_waits d d' : steady d d' -> waits_ok d -> waits_ok d'.
Proof. intros (_ & _ & [E|E] & _) H v; rewrite E; [apply H|done]. Qed.

Lemma send_message_steady d target text d' : send_message sid caller d target text = Ok d' ->
  steady d d' /\ (ThreadMessage sid caller target text).2 ∈ d_events d'.
Proof.
  unfold send_message, deliver. destruct (ThreadMessage _ _ _ _) as [sent received]. unfold DeliverAndWake.
  destruct (wakeThread _ _ _ _) as [[[evs m] s]|]; [|done]. intros [= <-]. split.
  - split_and!; [done|done|by left|]. cbn. rewrite <- app_assoc. by apply prefix_app_r.
  - cbn. unfold delivery_events. cbn. apply elem_of_app. right. apply elem_of_app. right. by left.
Qed.

Lemma refuse_steady d text d' answer isErr : refuse d text = Ok (d', answer, isErr) -> steady d d'.
Proof. intros [= <- _ _]. apply steady_refl. Qed.

Lemma createAgent_steady d call d' answer isErr :
  createAgent isPrint sid agent caller child_id child_clock d call = Ok (d', answer, isErr) -> steady d d'.
Proof.
  unfold createAgent. destruct (input_string call "agent_name"); [|apply refuse_steady].
  destruct (input_string call "message"); [|apply refuse_steady]. destruct (_ || _); [apply refuse_steady|].
  destruct (rosterMember _ _) as [found known]. destruct found; cbn [negb]; [|apply refuse_steady].
  destruct (_ <=? _); [apply refuse_steady|]. unfold spawn. destruct (insert_thread _ _ _ _ _); [|done].
  destruct (ThreadMessage _ _ _ _) as [sent received]. destruct (transition _ _ _) as [[[evs m] tb2]|]; [|done]. intros [= <- _ _].
  split_and!; [done|done|by right|]. cbn. by apply prefix_app_r.
Qed.

Lemma sendToAgent_steady d call d' answer isErr : sendToAgent isPrint sid caller d call = Ok (d', answer, isErr) -> steady d d'.
Proof.
  unfold sendToAgent. destruct (input_string call "session_thread_id"); [|apply refuse_steady].
  destruct (input_string call "agent_name"); [|apply refuse_steady]. destruct (input_string call "message"); [|apply refuse_steady].
  destruct (String.eqb _ _); [apply refuse_steady|]. destruct (address _ _ _ _ _) as [why|c]; [apply refuse_steady|].
  destruct (exhausted c); [apply refuse_steady|]. destruct (send_message _ _ _ _ _) as [d1|] eqn:E; [|done].
  intros [= <- _ _]. by apply send_message_steady in E as [E _].
Qed.

Lemma sendToParent_steady d call d' answer isErr : sendToParent sid caller d call = Ok (d', answer, isErr) -> steady d d'.
Proof.
  unfold sendToParent, report. destruct (input_string call "message"); [|apply refuse_steady]. destruct (String.eqb _ _); [apply refuse_steady|].
  destruct (send_message _ _ _ _ _) as [d1|] eqn:E; [|done]. intros [= <- _ _]. by apply send_message_steady in E as [E _].
Qed.

(** A report delivered: its text, to the coordinator's log. *)
Definition reports (call : delegatedCall) (evs : list NewEvent) : Prop :=
  exists result, input_string call "result" = Some result /\ delegationText result <> EmptyString /\
    (ThreadMessage sid caller (MkPeer EmptyString EmptyString) (delegationText result)).2 ∈ evs.

(** What one call may decide: a coordinator's wait parks it, and is answered that it
    started; a child's report, in an uncut turn of settled calls only, ends its turn. *)
Definition decides (call : delegatedCall) (d d' : delegation) (answer : string) (isErr : bool) : Prop :=
  (waits_ok d -> waits_ok d') /\ d_events d `prefix_of` d_events d' /\
  (d_park d' = true -> d_park d = true \/ (tp_ThreadID caller = EmptyString /\ dc_name call = ToolWaitForAgents /\ isErr = false /\
     (waits_ok d -> answer = answerWaitStarted))) /\
  (d_ended d' = true -> d_ended d = true \/ (tp_ThreadID caller <> EmptyString /\ settlementOnly = true /\ cut = false /\
     dc_name call = ToolSubmitResult /\ isErr = false /\ answer = answerReported /\ reports call (d_events d'))).

Lemma steady_decides call d d' answer isErr : steady d d' -> decides call d d' answer isErr.
Proof.
  intros H. pose proof (steady_waits _ _ H). destruct H as (E1 & E2 & _ & E4). unfold decides. rewrite E1, E2. split_and!; auto.
Qed.

Lemma wait_decides d call d' answer isErr : dc_name call = ToolWaitForAgents -> tp_ThreadID caller = EmptyString ->
  waitForAgents sid caller watermark d = Ok (d', answer, isErr) -> decides call d d' answer isErr.
Proof.
  intros Hn Hc [= <- <- <-]. assert (Hv : waits_ok d -> wv_park (wait_verdict sid caller watermark d) = true ->
    wv_answer (wait_verdict sid caller watermark d) = answerWaitStarted).
  { intros Hw. unfold wait_verdict. destruct (d_waited d) as [v|] eqn:E; [by apply Hw|]. by destruct (_ && _). }
  split_and!; cbn.
  - by intros Hw v [= <-] Hp; apply Hv.
  - done.
  - intros [Hp|Hp]%orb_true_iff; [by left|right]. split_and!; [done|done|done|]. intros Hw. by apply Hv.
  - by left.
Qed.

Lemma submit_decides d call d' answer isErr : dc_name call = ToolSubmitResult -> tp_ThreadID caller <> EmptyString ->
  submitResult sid caller settlementOnly cut d call = Ok (d', answer, isErr) -> decides call d d' answer isErr.
Proof.
  intros Hn Hc. unfold submitResult. destruct (input_string call "result") as [result|] eqn:Ei; [|intros H%refuse_steady; by apply steady_decides].
  destruct (String.eqb_spec (delegationText result) EmptyString); [intros H%refuse_steady; by apply steady_decides|].
  destruct (negb settlementOnly || cut) eqn:E; [intros H%refuse_steady; by apply steady_decides|].
  unfold report. destruct (send_message _ _ _ _ _) as [d1|] eqn:Es; [|done]. intros [= <- <- <-].
  apply send_message_steady in Es as [Hs Hin]. pose proof (steady_waits _ _ Hs) as Hw. destruct Hs as (E1 & E2 & E3 & E4).
  apply orb_false_iff in E as [E%negb_false_iff ?]. split_and!; cbn [end_turn d_park d_ended d_events].
  - exact Hw.
  - done.
  - rewrite E1. by left.
  - intros _. right. split_and!; try done. exists result. by split_and!.
Qed.

Lemma dispatch_decides d call d' answer isErr : wrongRole caller (dc_name call) = EmptyString ->
  dispatch isPrint sid agent caller watermark settlementOnly cut child_id child_clock d call = Ok (d', answer, isErr) ->
  decides call d d' answer isErr.
Proof.
  unfold dispatch, wrongRole, is_child. intros Hw.
  destruct (String.eqb_spec (dc_name call) ToolCreateAgent); [intros H; by eapply steady_decides, createAgent_steady|].
  destruct (String.eqb_spec (dc_name call) ToolSendToAgent); [intros H; by eapply steady_decides, sendToAgent_steady|].
  destruct (String.eqb_spec (dc_name call) ToolListAgents); [intros [= <- _ _]; by apply steady_decides, steady_refl|].
  destruct (String.eqb_spec (dc_name call) ToolWaitForAgents) as [En|].
  { apply wait_decides; [done|]. rewrite En in Hw. by destruct (String.eqb_spec (tp_ThreadID caller) EmptyString). }
  destruct (String.eqb_spec (dc_name call) ToolSubmitResult) as [En|].
  { apply submit_decides; [done|]. rewrite En in Hw. by destruct (String.eqb_spec (tp_ThreadID caller) EmptyString). }
  destruct (String.eqb_spec (dc_name call) ToolSendToParent); intros H; [by eapply steady_decides, sendToParent_steady|by eapply steady_decides, refuse_steady].
Qed.

(** The coordinator's wait parks, and its answer says it started; a child's report ends
    its turn, and both its answer and its message are written. *)
Definition flagged (calls : list delegatedCall) (d d' : delegation) : Prop :=
  waits_ok d' /\ d_events d `prefix_of` d_events d' /\
  (d_park d' = true -> d_park d = true \/ (tp_ThreadID caller = EmptyString /\ exists c, c ∈ calls /\ dc_name c = ToolWaitForAgents /\
     delegationAnswer (tp_ThreadID caller) (dc_eventID c) answerWaitStarted false ∈ d_events d')) /\
  (d_ended d' = true -> d_ended d = true \/ (tp_ThreadID caller <> EmptyString /\ settlementOnly = true /\ cut = false /\
     exists c, c ∈ calls /\ dc_name c = ToolSubmitResult /\ reports c (d_events d') /\
       delegationAnswer (tp_ThreadID caller) (dc_eventID c) answerReported false ∈ d_events d')).

Lemma reports_mono c evs evs' : evs `prefix_of` evs' -> reports c evs -> reports c evs'.
Proof. intros [l ->] (result & ? & ? & ?). exists result. split_and!; [done|done|]. apply elem_of_app. by left. Qed.

Lemma run_call_flagged d call d' : waits_ok d ->
  run_call isPrint sid agent caller watermark settlementOnly cut child_id child_clock d call = Ok d' -> flagged [call] d d'.
Proof.
  unfold run_call. intros Hw H. apply bind_ok in H as ([[d1 answer] isErr] & H1 & [= <-]).
  assert (Hd : decides call d d1 answer isErr).
  { destruct (negb (String.eqb (inline_answer _ _ _) _)); [by eapply steady_decides, refuse_steady|].
    destruct (String.eqb_spec (wrongRole caller (dc_name call)) EmptyString); cbn [negb] in H1; [by eapply dispatch_decides|by eapply steady_decides, refuse_steady]. }
  destruct Hd as (D1 & D2 & D3 & D4). assert (Hp : d_events d1 `prefix_of` d_events d1 ++ [delegationAnswer (tp_ThreadID caller) (dc_eventID call) answer isErr]) by by apply prefix_app_r.
  assert (Hin : delegationAnswer (tp_ThreadID caller) (dc_eventID call) answer isErr ∈ d_events d1 ++ [delegationAnswer (tp_ThreadID caller) (dc_eventID call) answer isErr])
    by (apply elem_of_app; right; by left).
  split_and!; cbn [emit d_waited d_events d_park d_ended].
  - by apply D1.
  - by etransitivity.
  - intros [?|(? & ? & -> & Ha)]%D3; [by left|right]. split; [done|]. exists call. rewrite (Ha Hw) in *. by split_and!; [left|..].
  - intros [?|(? & ? & ? & ? & -> & -> & ?)]%D4; [by left|right]. split_and!; [done..|]. exists call. split_and!; [by left|done|by eapply reports_mono|done].
Qed.

Lemma run_flagged calls d d' : waits_ok d ->
  run isPrint sid agent caller watermark settlementOnly cut child_id child_clock d calls = Ok d' -> flagged calls d d'.
Proof.
  revert d. induction calls as [|c calls IH]; intros d Hw; cbn [run]; [intros [= <-]; split_and!; [done|done|by left..]|].
  intros (d1 & (W1 & X1 & P1 & E1)%run_call_flagged & H)%bind_ok; [|done]. apply IH in H as (W2 & X2 & P2 & E2); [|done].
  assert (Hmono : forall ev, ev ∈ d_events d1 -> ev ∈ d_events d') by (destruct X2 as [l ->]; intros; apply elem_of_app; by left).
  split_and!; [done|by etransitivity|..].
  - intros [Hp|(? & x & ? & ?)]%P2; [|right; split; [done|]; exists x; split; [by right|done]].
    destruct (P1 Hp) as [?|(? & x & ->%list_elem_of_singleton & ? & ?)]; [by left|right]. split; [done|]. exists c. split_and!; [by left|done|auto].
  - intros [He|(? & ? & ? & x & ? & ?)]%E2; [|right; split_and!; [done..|]; exists x; split; [by right|done]].
    destruct (E1 He) as [?|(? & ? & ? & x & ->%list_elem_of_singleton & ? & ? & ?)]; [by left|right]. split_and!; [done..|].
    exists c. split_and!; [by left|done|by eapply reports_mono|auto].
Qed.

(** A child wakes nobody but its coordinator. *)
Definition wakes_primary (d d' : delegation) : Prop := exists ws, d_wakes d' = d_wakes d ++ ws /\ Forall (eq EmptyString) ws.

Lemma wakes_primary_same d d' : d_wakes d' = d_wakes d -> wakes_primary d d'.
Proof. intros H. exists []. by rewrite app_nil_r. Qed.

Lemma report_wakes d text d' : report sid caller d text = Ok d' -> wakes_primary d d'.
Proof.
  unfold report, send_message, deliver. cbn [ThreadMessage]. destruct (DeliverAndWake _ _ _ _) as [[dl s]|]; [|done].
  intros [= <-]. cbn [d_wakes]. eexists. split; [done|]. destruct (Woke dl); by repeat constructor.
Qed.

Lemma refuse_wakes d text d' answer isErr : refuse d text = Ok (d', answer, isErr) -> wakes_primary d d'.
Proof. intros [= <- _ _]. by apply wakes_primary_same. Qed.

Lemma dispatch_child_wakes d call d' answer isErr : tp_ThreadID caller <> EmptyString -> wrongRole caller (dc_name call) = EmptyString ->
  dispatch isPrint sid agent caller watermark settlementOnly cut child_id child_clock d call = Ok (d', answer, isErr) -> wakes_primary d d'.
Proof.
  unfold dispatch, wrongRole, is_child. intros Hc Hw. rewrite (proj2 (String.eqb_neq _ _) Hc) in Hw. cbn [negb andb] in Hw.
  destruct (String.eqb_spec (dc_name call) ToolCreateAgent) as [En|]; [by rewrite En in Hw|].
  destruct (String.eqb_spec (dc_name call) ToolSendToAgent) as [En|]; [by rewrite En in Hw|].
  destruct (String.eqb_spec (dc_name call) ToolListAgents) as [En|]; [by rewrite En in Hw|].
  destruct (String.eqb_spec (dc_name call) ToolWaitForAgents) as [En|]; [by rewrite En in Hw|].
  destruct (String.eqb (dc_name call) ToolSubmitResult).
  { unfold submitResult. destruct (input_string call "result"); [|apply refuse_wakes].
    destruct (String.eqb (delegationText _) _); [apply refuse_wakes|]. destruct (_ || _); [apply refuse_wakes|].
    destruct (report _ _ _ _) as [d1|] eqn:E; [|done]. intros [= <- _ _]. exact (report_wakes _ _ _ E). }
  destruct (String.eqb (dc_name call) ToolSendToParent); [|apply refuse_wakes].
  unfold sendToParent. destruct (input_string call "message"); [|apply refuse_wakes].
  destruct (String.eqb (delegationText _) _); [apply refuse_wakes|].
  destruct (report _ _ _ _) as [d1|] eqn:E; [|done]. intros [= <- _ _]. exact (report_wakes _ _ _ E).
Qed.

Lemma run_child_wakes calls d d' : tp_ThreadID caller <> EmptyString ->
  run isPrint sid agent caller watermark settlementOnly cut child_id child_clock d calls = Ok d' -> wakes_primary d d'.
Proof.
  intros Hc. revert d. induction calls as [|c calls IH]; intros d; cbn [run]; [intros [= <-]; by apply wakes_primary_same|].
  intros (d1 & H1 & (w2 & E2 & F2)%IH)%bind_ok.
  assert (Hw : wakes_primary d d1).
  { unfold run_call in H1. apply bind_ok in H1 as ([[dx answer] isErr] & H1 & [= <-]). change (wakes_primary d dx).
    destruct (negb (String.eqb (inline_answer _ _ _) _)); [by eapply refuse_wakes|].
    destruct (String.eqb_spec (wrongRole caller (dc_name c)) EmptyString); cbn [negb] in H1; [by eapply dispatch_child_wakes|by eapply refuse_wakes]. }
  destruct Hw as (w1 & E1 & F1). exists (w1 ++ w2). rewrite E2, E1, app_assoc. split; [done|]. by apply Forall_app.
Qed.
End flags.

Section commit.
Context (rd : readings) (now : Z) (trace : option string) (sid : string) (agent : ResolvedAgent) (caller : ThreadPeer) (watermark : Z)
  (settlementOnly cut : bool).

#[local] Abbreviation fate_of := (turn_fate settlementOnly cut).

Lemma fate_chain gated d n unread : (d_ended d = true -> settlementOnly = true) -> ft_chain (fate_of gated d n unread) = true ->
  ft_idle (fate_of gated d n unread) = false /\ ft_capped (fate_of gated d n unread) = false /\ settlementOnly = true.
Proof.
  unfold turn_fate. intros He. destruct (d_ended d); [rewrite (He eq_refl)|clear He];
    by destruct gated, settlementOnly, cut, (d_park d), unread, (bool_decide (d_wakes d = [])), (maxSettlementChain <=? n + 1).
Qed.

Lemma fate_idle gated d n unread : settlementOnly = true -> gated = false -> ft_chain (fate_of gated d n unread) = false ->
  ft_idle (fate_of gated d n unread) = true.
Proof.
  unfold turn_fate. intros -> ->. by destruct cut, (d_park d), (d_ended d), unread, (bool_decide (d_wakes d = [])), (maxSettlementChain <=? n + 1).
Qed.

Lemma fate_mixed gated d n unread : settlementOnly = false -> (d_ended d = true -> settlementOnly = true) ->
  ft_idle (fate_of gated d n unread) = false /\ ft_capped (fate_of gated d n unread) = false.
Proof.
  unfold turn_fate. intros -> He. destruct (d_ended d) eqn:E; [by specialize (He eq_refl)|].
  rewrite !andb_false_r. by destruct gated.
Qed.

Lemma capped_ok f d evs d' : capped_events sid agent caller f d = Ok (evs, d') ->
  d_tb d' = with_threads (d_tb d) (tb_threads (d_tb d')) /\ advanced sid (d_tb d) (d_tb d') /\ d_events d' = d_events d /\
  Forall (fun ev => no_result ev) evs /\
  exists ws, d_wakes d' = d_wakes d ++ ws /\ starts sid [] (d_tb d) (d_tb d') ws /\ Forall (eq EmptyString) ws.
Proof.
  unfold capped_events. destruct (ft_capped f).
  - intros ([told tb] & H & [= <- <-])%bind_ok. apply told_advanced in H as (H1 & H2 & H3 & H4). cbn [d_tb d_events d_wakes].
    split_and!; [done|done|done|by constructor|]. eexists. split; [done|]. split; [exact H3|]. destruct (told_woke told); by repeat constructor.
  - intros [= <- <-]. split_and!; [by destruct (d_tb d)|apply advanced_refl|done|constructor|]. exists []. rewrite app_nil_r.
    split; [done|]. split; [by apply starts_same|constructor].
Qed.

(** The calling thread's own move. *)
Definition idled (tb tb' : tables) (tid : string) (idle : bool) : Prop :=
  tb_queue tb' = tb_queue tb /\ tb_log tb' = tb_log tb /\ tb_parent tb' = tb_parent tb /\ starts sid [thread_of sid tid] tb tb' [] /\
  (if idle then forall r, row_of (tb_threads tb) sid (thread_of sid tid) = Some r ->
     (t_status r = SessionRunning -> live_count sid tb' = live_count sid tb) /\ row_of (tb_threads tb') sid (thread_of sid tid) = Some (moved_row (idle_on tid StopEndTurn) r)
   else tb' = tb).

Lemma idle_step tb tid (idle : bool) evs tb' :
  (if idle then try '(evs, _, tb) <- of_settle (transition tb sid (idle_on tid StopEndTurn)); Ok (evs, tb) else Ok ([], tb)) = Ok (evs, tb') ->
  idled tb tb' tid idle /\ Forall (fun ev => no_result ev) evs.
Proof.
  destruct idle.
  - destruct (transition tb sid _) as [[[e m] tb1]|] eqn:Et; [|done]. intros [= <- <-]. apply transition_ok in Et as (E1 & Hth & Hk).
    cbn [idle_on tr_thread] in Hth. split; [|done]. split_and!; [by rewrite E1|by rewrite E1|by rewrite E1| |].
    + destruct (row_of _ _ _) as [r|]; [|by apply starts_same]. eapply starts_insert; [exact Hth|]. left. left.
    + intros r Hr. rewrite Hr in Hth. split. { intros Hrun. refine (moved_count sid tb tb1 (idle_on tid StopEndTurn) r Hr _ _ Hth); [by rewrite Hrun|done]. }
      apply row_of_Some. rewrite Hth, lookup_insert_eq. apply row_of_Some in Hr as [_ <-]. done.
  - intros [= <- <-]. split; [|constructor]. split_and!; [done|done|done|by apply starts_same|done].
Qed.

Lemma item_fate_ok tb it f woke mint tb' r : item_fate rd now trace settlementOnly tb it f woke mint = Ok tb' ->
  it_session it = sid -> item_of (tb_queue tb) it -> it_kind it = ModelTurn ->
  row_of (tb_threads tb) sid (thread_of sid (it_thread it)) = Some r ->
  (ft_chain f = true -> settlementOnly = true) ->
  (ft_chain f = true \/ settlementOnly = false -> t_status r = SessionRunning) ->
  (ft_chain f = false -> settlementOnly = true -> t_status r = SessionIdle /\ t_stop r = Some (MkStop StopEndTurn [])) ->
  starts sid [thread_of sid (it_thread it)] tb tb' [] /\ live_count sid tb' = live_count sid tb /\
  (exists more, stamped (l_events (tb_log tb) ++ more) (l_events (tb_log tb')) /\ Forall (late (tb_log tb) sid (it_thread it)) more) /\
  left_well rd sid (it_thread it) (env_text tb (it_env it)) settlementOnly (tb_log tb) tb'.
Proof.
  intros H Hs Hit Hk Hr Hso Hrun Hidle. unfold item_fate in H.
  assert (Hnone : forall db, exists more, stamped (l_events db ++ more) (l_events db) /\ Forall (late db sid (it_thread it)) more).
  { intros db. exists []. rewrite app_nil_r. split; [change (stamped (l_events db) (l_events db)); reflexivity|constructor]. }
  destruct (ft_chain f).
  - assert (Hq : exists chain q, requeue now (tb_queue tb) it chain 0 = Ok q /\ tb' = with_queue tb q).
    { destruct (ft_byInput f || woke); unfold requeue_item, Requeue, RequeueSettlement in H;
        destruct (requeue _ _ _ _ _) as [q|] eqn:Eq; cbn in H; try done; injection H as <-; eauto. }
    destruct Hq as (chain & q & Hq & ->). split_and!; [by apply starts_same|done|apply Hnone|]. exists r. cbn. split; [done|]. rewrite Hso by done. left.
    split; [by apply Hrun; left|]. by eapply requeued_live.
  - apply bind_ok in H as (tb1 & H1 & H). destruct (complete_item now tb it) as [tb1'|] eqn:Ec; [|done]. injection H1 as ->.
    pose proof (complete_item_envs _ _ _ _ Ec) as Q1.
    assert (E1 : tb_threads tb1 = tb_threads tb /\ tb_log tb1 = tb_log tb).
    { unfold complete_item in Ec. destruct (Complete _ _ _); [|done]. by injection Ec as <-. }
    destruct E1 as [E1 G1].
    destruct settlementOnly.
    + injection H as <-. split_and!; [by apply starts_same; rewrite E1|by apply count_same; rewrite E1|rewrite G1; apply Hnone|]. exists r. rewrite E1. split; [done|]. right. by apply Hidle.
    + apply bind_ok in H as ([moved tb2] & H2 & H). destruct (enqueueIdleHarvest _ _ _ _ _ _) as [tb3|] eqn:Eh; [|done]. injection H as ->.
      apply (enqueueIdleHarvest_ok now trace sid) in Eh; [|done]. rewrite <- E1 in Hr.
      destruct (settleTools_ok sid _ _ _ _ _ _ _ _ _ _ H2 Hs Hr ltac:(by apply Hrun; right)) as (S2 & C2 & G2 & L2).
      assert (L' : tb_log tb' = tb_log tb2) by (by rewrite (proj1 Eh)).
      rewrite (env_text_envs tb tb1), <- G1, L' by done.
      split_and!; [|rewrite (count_same sid tb2 tb') by (by rewrite (proj1 Eh)); rewrite C2; by apply count_same; rewrite E1
                   |exact G2|by eapply left_well_queue].
      apply (starts_trans sid _ _ tb1 _ [] []); [by apply starts_same; rewrite E1|]. apply (starts_trans sid _ _ tb2 _ [] []); [done|].
      apply starts_same. by rewrite (proj1 Eh).
Qed.

(** What the tables before the item's fate share with the run's. *)
Lemma settle_delegated_ok before it head opts gated genuine d mint tb' :
  settle_delegated rd now trace sid agent caller watermark settlementOnly cut before it head opts gated genuine d mint = Ok tb' ->
  o_consume opts = false -> o_then opts = None -> it_session it = sid -> item_of (tb_queue (d_tb d)) it -> it_kind it = ModelTurn ->
  runs sid (d_tb d) (it_thread it) -> (settlementOnly = true -> gated = false) -> (d_ended d = true -> settlementOnly = true) ->
  left_well rd sid (it_thread it) (env_text (d_tb d) (it_env it)) settlementOnly (tb_log (d_tb d)) tb' /\
  live_count sid tb' <= Z.max maxLiveThreads (live_count sid (d_tb d)) /\
  (exists rows more mid, stamped (l_events (tb_log (d_tb d)) ++ rows) (l_events mid) /\ stamped (l_events mid ++ more) (l_events (tb_log tb')) /\
     omap answered_row rows = omap answered (head ++ d_events d) /\ Forall processed_result rows /\
     Forall (fun r => e_session r = sid) rows /\ Forall (late mid sid (it_thread it)) more /\
     ((forall q, r_id rd q <> EmptyString) -> Forall (fun r => e_id r <> EmptyString) rows)) /\
  exists ws, starts sid [thread_of sid (it_thread it)] (d_tb d) tb' ws /\ Forall (turn_live sid (tb_queue tb')) (d_wakes d ++ ws) /\
    Forall (eq EmptyString) ws.
Proof.
  intros H Hoc Hot Hs Hit Hk Hruns Hg He. unfold settle_delegated in H. set (f := turn_fate _ _ _ _ _ _) in H.
  apply bind_ok in H as ([cev d1] & H1 & H). apply bind_ok in H as ([idle tb1] & H2 & H). apply bind_ok in H as (after & _ & H).
  apply bind_ok in H as (tb2 & H3 & H). apply bind_ok in H as (tb4 & H4 & H). apply bind_ok in H as (tb5 & H5 & H6).
  apply capped_ok in H1 as (E1 & A1 & Ev1 & K1 & ws & W1 & S1 & K3). apply idle_step in H2 as [(Q2 & L2 & P2 & S2 & M2) K2].
  destruct (append rd tb1 sid _ _) as [tb2'|] eqn:Ea; [|done]. injection H3 as ->. apply append_ok in Ea as (rows & Ha3 & E3).
  destruct (enqueueIdleHarvest _ _ _ _ _ _) as [tb4'|] eqn:Eh; [|done]. injection H4 as ->.
  pose proof (enqueueIdleHarvest_envs _ _ _ _ _ _ _ Eh) as V4. apply (enqueueIdleHarvest_ok now trace sid) in Eh as [E4 K4]; [|done].
  assert (Hsp : tb_threads (spend_delegation sid tb2 genuine) = tb_threads tb1 /\ tb_queue (spend_delegation sid tb2 genuine) = tb_queue tb1)
    by (unfold spend_delegation; rewrite E3; by destruct genuine). destruct Hsp as [T3 Q3].
  assert (T4 : tb_threads tb4 = tb_threads tb1) by (rewrite E4; exact T3).
  assert (Hit4 : item_of (tb_queue tb4) it).
  { eapply item_of_keeps; [exact K4|]. rewrite Q3, Q2. by rewrite (ad_queue _ _ _ A1). }
  destruct (runs_advanced sid _ _ _ A1 Hruns) as (r1 & Hr1 & Hrun1).
  set (r := if ft_idle f then moved_row (idle_on (it_thread it) StopEndTurn) r1 else r1).
  assert (Hr : row_of (tb_threads tb4) sid (thread_of sid (it_thread it)) = Some r).
  { rewrite T4. unfold r. destruct (ft_idle f); [by apply M2|by rewrite M2]. }
  assert (C2 : live_count sid tb1 = live_count sid (d_tb d1)) by (destruct (ft_idle f); [by apply (M2 _ Hr1)|by rewrite M2]).
  assert (Hrun : ft_chain f = true \/ settlementOnly = false -> t_status r = SessionRunning).
  { intros Hc. assert (Hni : ft_idle f = false).
    { destruct Hc as [Hc|Hc]; [by destruct (fate_chain _ _ _ _ He Hc) as (? & _)|]. by destruct (fate_mixed gated d (it_chain it) (chainInput (tb_log (d_tb d)) sid (it_thread it) watermark) Hc He). }
    unfold r. by rewrite Hni. }
  assert (Hidle : ft_chain f = false -> settlementOnly = true -> t_status r = SessionIdle /\ t_stop r = Some (MkStop StopEndTurn [])).
  { intros Hc Hso. assert (Hf : ft_idle f = true) by exact (fate_idle _ _ _ _ Hso (Hg Hso) Hc). unfold r. by rewrite Hf. }
  destruct (item_fate_ok _ _ _ _ _ _ _ H5 Hs Hit4 Hk Hr) as (S5 & C5 & G5 & L5); [by intros Hch; apply (fate_chain _ _ _ _ He Hch)|done|done|].
  apply enqueue_wakes_ok in H6 as [Q6 L6].
  assert (V : env_text tb4 (it_env it) = env_text (d_tb d) (it_env it)) by (apply env_text_envs; by rewrite V4, Q3, Q2, (ad_queue _ _ _ A1)).
  assert (G4 : l_events (tb_log tb4) = l_events (tb_log tb2)) by (rewrite E4; unfold spend_delegation; by destruct genuine).
  split. { eapply left_well_queue; [exact Q6|]. rewrite V in L5. eapply left_well_grown; [|exact L5]. exists rows.
           rewrite G4. rewrite <- (ad_events _ _ _ A1), <- L2. exact (grown_append _ _ _ _ (with_status opts _) _ _ Hot Ha3). }
  split. { rewrite (count_same sid tb5 tb') by (by rewrite (proj1 Q6)). rewrite C5, (count_same sid tb1 tb4) by (by rewrite T4).
           rewrite C2. apply A1. }
  split. { rewrite Ev1 in Ha3. eapply settle_delegated_rows; [exact Ha3|exact Hoc|exact Hot|exact K1|exact K2|by rewrite L2, (ad_events _ _ _ A1)|exact G4|].
           rewrite (proj1 Q6). exact G5. }
  exists ws. rewrite W1 in L6. split; [|by split].
  rewrite <- (app_nil_r ws). eapply starts_trans; [by apply starts_own|].
  apply (starts_trans sid _ _ tb1 _ [] []); [exact S2|]. apply (starts_trans sid _ _ tb4 _ [] []); [apply starts_same; by rewrite T4|].
  apply (starts_trans sid _ _ tb5 _ [] []); [exact S5|]. apply starts_same. by rewrite (proj1 Q6).
Qed.
End commit.

(** ** A turn of nothing but settled calls *)

(** The count of unfed turns a row carries. *)
Definition row_chain (r : Queue.row) : Z := match w_meta r !! "settlement_chain" with Some (MNum z) => z | _ => 0 end.

(** The row handed back, of a fed turn or of one more unfed turn. *)
Definition handed_back (q : qdb) (id : string) (chain : Z) : Prop :=
  exists r, q_items q !! id = Some r /\ w_state r = queued /\ row_chain r = chain.

Lemma requeued_chain now q it chain q' : requeue now q it chain 0 = Ok q' -> 0 <= chain -> handed_back q' (it_id it) chain.
Proof.
  unfold requeue. destruct (holds q it) as [r|]; [|done]. intros [= <-] Hc. eexists. cbn. rewrite lookup_insert_eq. split; [done|].
  split; [done|]. unfold row_chain. cbn. destruct (Z.ltb_spec 0 chain).
  - by rewrite lookup_insert_eq.
  - rewrite lookup_delete_eq. lia.
Qed.

Lemma handed_back_keeps q q' id chain : keeps q q' -> handed_back q id chain -> handed_back q' id chain.
Proof. intros H (r & Hr & ?). exists r. split; [by apply H|done]. Qed.

Lemma turn_fate_settled cut d n unread :
  let f := turn_fate true cut false d n unread in
  let fed := ft_byInput f || negb (bool_decide (d_wakes d = [])) in
  (ft_chain f = true /\ ft_idle f = false /\ ft_capped f = false /\
     ((fed = true /\ (unread = true \/ d_wakes d <> [])) \/ (fed = false /\ n + 1 < maxSettlementChain))) \/
  (ft_chain f = false /\ ft_idle f = true /\ unread = false /\
     ((d_park d = true /\ ft_capped f = false) \/ d_ended d = true \/ maxSettlementChain <= n + 1)).
Proof.
  unfold turn_fate. cbn [negb andb]. rewrite !andb_true_r.
  destruct (bool_decide_reflect (d_wakes d = [])) as [W|W]; cbn [negb].
  - destruct (Z.leb_spec maxSettlementChain (n + 1)), cut, (d_park d), (d_ended d), unread; cbn; tauto.
  - destruct cut, (d_park d), (d_ended d), unread; cbn; tauto.
Qed.

(** A row like the event is among those [db'] has and [db] had not. *)
Definition logged (sid : string) (db db' : ldb) (ev : NewEvent) : Prop :=
  exists r, r ∈ drop (length (l_events db)) (l_events db') /\
    e_session r = sid /\ e_type r = n_type ev /\ e_payload r = payload_of ev /\ e_thread r = n_thread ev.

Section settled.
Context (rd : readings) (now : Z) (trace : option string) (sid : string) (agent : ResolvedAgent) (caller : ThreadPeer) (watermark : Z) (cut : bool).

(** How the settlement leaves the thread and its item. *)
Inductive settled_as (it : Item) (d : delegation) (tb' : tables) : Prop :=
| settled_fed : handed_back (tb_queue tb') (it_id it) 0 -> s_threads (tb_threads tb') = s_threads (tb_threads (d_tb d)) ->
    chainInput (tb_log (d_tb d)) sid (it_thread it) watermark = true \/ d_wakes d <> [] -> settled_as it d tb'
| settled_unfed : handed_back (tb_queue tb') (it_id it) (it_chain it + 1) -> it_chain it + 1 < maxSettlementChain -> settled_as it d tb'
| settled_rests : (exists r, row_of (tb_threads tb') sid (thread_of sid (it_thread it)) = Some r /\ t_status r = SessionIdle) ->
    (exists x, q_items (tb_queue tb') !! it_id it = Some x /\ w_state x = stopped) ->
    chainInput (tb_log (d_tb d)) sid (it_thread it) watermark = false ->
    (d_park d = true /\ tb_parent tb' = tb_parent (d_tb d) /\ starts sid [thread_of sid (it_thread it)] (d_tb d) tb' []) \/ d_ended d = true \/ maxSettlementChain <= it_chain it + 1 ->
    settled_as it d tb'.

Lemma settle_delegated_fate before it head opts genuine d mint tb' :
  settle_delegated rd now trace sid agent caller watermark true cut before it head opts false genuine d mint = Ok tb' ->
  it_session it = sid -> runs sid (d_tb d) (it_thread it) -> 0 <= it_chain it -> settled_as it d tb'.
Proof.
  intros H Hs Hruns Hn. unfold settle_delegated in H. set (f := turn_fate _ _ _ _ _ _) in H.
  apply bind_ok in H as ([cev d1] & H1 & H). apply bind_ok in H as ([idle tb1] & H2 & H). apply bind_ok in H as (after & _ & H).
  apply bind_ok in H as (tb2 & H3 & H). apply bind_ok in H as (tb4 & H4 & H). apply bind_ok in H as (tb5 & H5 & H6).
  pose proof H1 as HC. apply capped_ok in H1 as (E1 & A1 & _ & _ & ws & W1 & S1 & _). apply idle_step in H2 as [(Q2 & L2 & P2 & S2 & M2) _].
  destruct (append rd tb1 sid _ _) as [tb2'|] eqn:Ea; [|done]. injection H3 as ->. apply append_ok in Ea as (rows & _ & E3).
  destruct (enqueueIdleHarvest _ _ _ _ _ _) as [tb4'|] eqn:Eh; [|done]. injection H4 as ->.
  apply (enqueueIdleHarvest_ok now trace sid) in Eh as [E4 K4]; [|done].
  assert (T4 : tb_threads tb4 = tb_threads tb1) by (rewrite E4; unfold spend_delegation; rewrite E3; by destruct genuine).
  apply enqueue_wakes_ok in H6 as [[E6 K6] _]. destruct (turn_fate_settled cut d (it_chain it) (chainInput (tb_log (d_tb d)) sid (it_thread it) watermark))
    as [(F1 & F2 & F3 & F4)|(F1 & F2 & F3 & F4)]; fold f in F1, F2, F4; [fold f in F3|].
  - unfold capped_events in HC. rewrite F3 in HC. injection HC as _ <-. rewrite F2 in M2. subst tb1.
    unfold item_fate in H5. rewrite F1 in H5.
    assert (T6 : tb_threads tb5 = tb_threads tb4 -> s_threads (tb_threads tb') = s_threads (tb_threads (d_tb d))) by (intros E; by rewrite E6; cbn; rewrite E, T4).
    destruct F4 as [[F4 Hw]|[F4 Hlt]]; rewrite F4 in H5.
    + unfold requeue_item, Requeue in H5. destruct (requeue _ _ _ _ _) as [q|] eqn:Eq; [|done]. injection H5 as <-.
      apply settled_fed; [|by apply T6|done]. eapply handed_back_keeps; [exact K6|]. by eapply requeued_chain.
    + unfold RequeueSettlement in H5. destruct (requeue _ _ _ _ _) as [q|] eqn:Eq; [|done]. injection H5 as <-.
      apply settled_unfed; [|done]. eapply handed_back_keeps; [exact K6|]. eapply requeued_chain; [exact Eq|lia].
  - unfold item_fate in H5. rewrite F1 in H5. destruct (complete_item now tb4 it) as [tb4'|] eqn:Ec; [|done]. injection H5 as ->.
    unfold complete_item in Ec. destruct (Complete now (tb_queue tb4) it) as [q|] eqn:Eq; [|done]. injection Ec as <-.
    destruct (complete_row _ _ _ _ Eq) as (_ & x & _ & Hq & _ & Hx & _). rewrite F2 in M2.
    destruct (runs_advanced sid _ _ _ A1 Hruns) as (r1 & Hr1 & _). destruct (M2 _ Hr1) as [_ Hr].
    assert (T6 : s_threads (tb_threads tb') = s_threads (tb_threads tb1)) by (rewrite E6; cbn; by rewrite T4).
    apply settled_rests; [|exists x; split; [|done]; apply K6; cbn; by rewrite Hq, lookup_insert_eq|done|].
    + eexists. rewrite row_of_Some. rewrite T6. apply row_of_Some in Hr as [Hr Hrs]. split; [split; [exact Hr|exact Hrs]|done].
    + destruct F4 as [[F4 F5]|F4]; [left|by right]. split; [done|]. unfold capped_events in HC. fold f in F5. rewrite F5 in HC.
      injection HC as _ <-.
      split. { rewrite E6, E4. unfold spend_delegation. rewrite E3. destruct genuine; exact P2. }
      apply (starts_trans sid _ _ tb1 _ [] []); [done|]. by apply starts_same.
Qed.
(** What one call wrote is among the rows the commit appends. *)
Lemma settle_delegated_logged before it head opts gated genuine d mint tb' ev :
  settle_delegated rd now trace sid agent caller watermark true cut before it head opts gated genuine d mint = Ok tb' ->
  it_session it = sid -> o_consume opts = false -> o_then opts = None -> ev ∈ d_events d -> plain_event ev = true ->
  logged sid (tb_log (d_tb d)) (tb_log tb') ev.
Proof.
  intros H Hs Hoc Hot Hev Hp. unfold settle_delegated in H. set (f := turn_fate _ _ _ _ _ _) in H.
  apply bind_ok in H as ([cev d1] & H1 & H). apply bind_ok in H as ([idle tb1] & H2 & H). apply bind_ok in H as (after & _ & H).
  apply bind_ok in H as (tb2 & H3 & H). apply bind_ok in H as (tb4 & H4 & H). apply bind_ok in H as (tb5 & H5 & H6).
  apply capped_ok in H1 as (_ & A1 & Ev1 & _). apply idle_step in H2 as [(_ & L2 & _) _].
  destruct (append rd tb1 sid _ _) as [tb2'|] eqn:Ea; [|done]. injection H3 as ->. apply append_ok in Ea as (rows & Ha & E3).
  destruct (enqueueIdleHarvest _ _ _ _ _ _) as [tb4'|] eqn:Eh; [|done]. injection H4 as ->.
  apply (enqueueIdleHarvest_ok now trace sid) in Eh as [E4 _]; [|done]. apply enqueue_wakes_ok in H6 as [[E6 _] _].
  assert (L5 : tb_log tb5 = tb_log tb4).
  { unfold item_fate in H5. destruct (ft_chain f).
    - unfold requeue_item, Requeue, RequeueSettlement in H5.
      destruct (_ || _); destruct (requeue _ _ _ _ _) as [q|] eqn:Eq; cbn in H5; try done; by injection H5 as <-.
    - unfold complete_item in H5. destruct (Complete _ _ _); [|done]. by injection H5 as <-. }
  assert (L : l_events (tb_log tb') = l_events (tb_log tb2)) by (rewrite E6; cbn; rewrite L5, E4; unfold spend_delegation; by destruct genuine).
  destruct (append_member _ _ _ _ (with_status opts _) _ _ ev Hoc Ha) as (r & Hr & Hrow); [|done|].
  { apply elem_of_app. right. apply elem_of_app. left. by rewrite Ev1. }
  pose proof (grown_append _ _ _ _ (with_status opts _) _ _ Hot Ha) as Hg. rewrite L2, (ad_events _ _ _ A1) in Hg.
  apply (Forall2_drop _ _ _ (length (l_events (tb_log (d_tb d))))) in Hg. rewrite drop_app_length in Hg.
  destruct (stamped_in _ _ r Hg Hr) as (r' & Hr' & Hst%stamped_row_same). exists r'. rewrite L. split; [done|].
  destruct Hrow as (? & ? & ? & ?), Hst as (_ & ? & _ & ? & ? & _ & ? & _). split_and!; congruence.
Qed.
End settled.
