(* ===== verification/TurnSpec.v ===== *)
(** * TurnSpec: the commit of a turn that called tools (Turn.v, Delegate.v)

    The commit end to end: the calling thread goes on, rests or waits; every call the
    settlement owns is answered on its thread's log, in the model's order; the session's
    live threads keep to their cap; settlement-only turns nobody feeds are cut; a child
    reaches nobody but its coordinator. *)
From Stdlib Require Import Lia.
From stdpp Require Import pretty.
From S2P Require Import Prelude GoStrings Ids Queue QueueSpec Status StatusSpec Json Domain Consumption Log LogSpec ToolQuery ToolSpec ToolFlow ToolSettle FlowSpec Outcomes Replay Threadmsg ThreadmsgSpec Grading GradingSpec SendSpec Turn Delegate DelegateSpec.

(** ** The calls of a turn *)

(** What the tools offered to a turn promise of their classes: a name the settlement owns
    is a delegation tool, unpoliced. *)
Definition surface (class : gmap string toolClass) : Prop :=
  forall name c, class !! name = Some c ->
    mem_string (tc_kind c) toolUseTypes = true /\
    (tc_settlement c = true -> tc_kind c = EventAgentToolUse /\ IsDelegationTool name = true /\ tc_policy c <> PolicyAlwaysAsk).

Section calls.
Context (turn : turnResult) (class : gmap string toolClass) (mint : nat -> string).

(** How the turn's [i]th call is classed. *)
Definition class_at (i : nat) (tu : ToolUse) : call_class :=
  classify class (tr_cut turn) (Nat.eqb (S i) (length (tr_toolUses turn))) tu.

(** A turn's calls, each with its index. *)
Definition indexed (i : nat) (calls : list ToolUse) : list (nat * ToolUse) := imap (fun k tu => ((i + k)%nat, tu)) calls.

Definition settled_at (p : nat * ToolUse) : bool := tc_settlement (cc_class (class_at p.1 p.2)).

Lemma indexed_cons i tu calls : indexed i (tu :: calls) = (i, tu) :: indexed (S i) calls.
Proof. unfold indexed. rewrite imap_cons. f_equal; [by rewrite Nat.add_0_r|]. apply imap_ext. intros. cbn. f_equal. lia. Qed.

Definition event_at (p : nat * ToolUse) : NewEvent := call_event (mint p.1) (class_at p.1 p.2) p.2.
Definition delegated_at (p : nat * ToolUse) : option delegatedCall := delegated_call turn (mint p.1) (class_at p.1 p.2) p.2.

Lemma call_events_form calls : forall i out,
  to_batch (call_events turn class mint i calls out) = to_batch out ++ map event_at (indexed i calls) /\
  to_delegated (call_events turn class mint i calls out) = to_delegated out ++ omap delegated_at (indexed i calls).
Proof.
  induction calls as [|tu calls IH]; intros i out; [by rewrite !app_nil_r|].
  cbn [call_events]. destruct (IH (S i) (MkTurnOut (to_batch out ++ [event_at (i, tu)])
    (call_kind (to_kind out) (class_at i tu) tu) (to_asks out ++ (if call_asks (class_at i tu) then [mint i] else []))
    (to_delegated out ++ option_list (delegated_at (i, tu))))) as [H1 H2].
  rewrite indexed_cons. split.
  - etransitivity; [exact H1|]. cbn [to_batch map]. by rewrite <- app_assoc.
  - etransitivity; [exact H2|]. cbn [to_delegated omap list_omap]. rewrite <- app_assoc. f_equal. by destruct (delegated_at (i, tu)).
Qed.

(** The calls the settlement answers, with the ids their results name. *)
Definition settled_ids : list string := omap (fun p => if settled_at p then Some (mint p.1) else None) (indexed 0 (tr_toolUses turn)).

Lemma delegated_ids : map dc_eventID (to_delegated (turnEvents turn class mint)) = settled_ids.
Proof.
  unfold turnEvents. rewrite (proj2 (call_events_form _ _ _)). cbn [to_delegated app]. unfold settled_ids.
  induction (indexed 0 (tr_toolUses turn)) as [|[i tu] l IH]; [done|]. cbn [omap list_omap].
  unfold delegated_at at 1, delegated_call at 1, settled_at at 1. cbn [fst snd]. destruct (tc_settlement _); cbn; by rewrite IH.
Qed.

Lemma indexed_length calls : forall i, length (indexed i calls) = length calls.
Proof. intros i. unfold indexed. apply length_imap. Qed.

Lemma omap_all {A B} (f : A -> option B) l : length (omap f l) = length l -> Forall (fun x => is_Some (f x)) l.
Proof.
  induction l as [|x l IH]; [constructor|]. cbn. destruct (f x) eqn:E; cbn; intros H.
  - constructor; [eauto|]. apply IH. lia.
  - exfalso. assert (length (omap f l) <= length l)%nat by (clear; induction l as [|x l IH]; cbn; [lia|destruct (f x); cbn; lia]). lia.
Qed.

Lemma settled_all : Nat.eqb (length (to_delegated (turnEvents turn class mint))) (length (tr_toolUses turn)) = true ->
  Forall (fun p => settled_at p = true) (indexed 0 (tr_toolUses turn)).
Proof.
  intros H%Nat.eqb_eq. unfold turnEvents in H. rewrite (proj2 (call_events_form _ _ _)) in H. cbn [to_delegated app] in H.
  rewrite <- (indexed_length _ 0) in H. apply omap_all in H. eapply Forall_impl; [exact H|]. intros [i tu] [c Hc].
  unfold delegated_at, delegated_call, settled_at in *. cbn in *. by destruct (tc_settlement _).
Qed.

Context (Hs : surface class).

(** A call the settlement owns is answered by nobody else: it is refused or allowed, and
    no worker runs it. *)
Lemma settled_no_wait p kind : settled_at p = true -> ToolWaitIDs [event_at p] kind platformOwned = [].
Proof.
  destruct p as [i tu]. unfold settled_at, event_at. cbn [fst snd]. intros Hset. unfold ToolWaitIDs. cbn [omap list_omap].
  assert (Hk : tc_kind (cc_class (class_at i tu)) = EventAgentToolUse /\
    (call_permission (class_at i tu) = EvalPermDeny \/
     (call_permission (class_at i tu) = EvalPermAllow /\ IsDelegationTool (tu_Name tu) = true))).
  { revert Hset. unfold class_at, classify, call_permission. cbn [cc_class cc_offered cc_cut].
    destruct (class !! tu_Name tu) as [c|] eqn:Ec; cbn [default].
    2: { intros _. rewrite bool_decide_false by (by intros [? ?]). cbn. auto. }
    rewrite bool_decide_true by eauto. cbn [negb orb andb]. destruct (_ && _); [cbn; auto|]. intros Hset.
    destruct (Hs _ _ Ec) as [_ Hd]. destruct (Hd Hset) as (H1 & H2 & H3). split; [done|]. right.
    unfold id. by rewrite (proj2 (String.eqb_neq _ _) H3). }
  destruct Hk as [Hk Hp]. unfold call_event, payload_of, gated. cbn [n_type n_payload n_id].
  change (default (JObject []) (Some ?pl)) with pl.
  rewrite Hk. change (mem_string EventAgentToolUse [EventAgentToolUse; EventAgentMCPToolUse]) with true.
  change (String.eqb EventAgentToolUse EventAgentMCPToolUse) with false.
  change (mem_string EventAgentToolUse [EventAgentCustomToolUse; EventAgentToolUse; EventAgentMCPToolUse]) with true.
  cbn [negb]. set (pl := JObject _).
  assert (P1 : field_string pl "evaluated_permission" = call_permission (class_at i tu)) by done.
  assert (P2 : field_string pl "name" = tu_Name tu) by done.
  rewrite P1, P2. destruct Hp as [->|[-> Hd]]; [done|].
  unfold asks, external, workerCall. cbn [oc_permission oc_typ oc_name]. unfold platformOwned. rewrite Hd, orb_true_r, andb_false_r. done.
Qed.

Lemma ToolWaitIDs_app a b kind po : ToolWaitIDs (a ++ b) kind po = ToolWaitIDs a kind po ++ ToolWaitIDs b kind po.
Proof. apply omap_app'. Qed.

Lemma text_no_wait kind : ToolWaitIDs (match tr_text turn with [] => [] | text => [message_event (tr_messageEventID turn) text] end) kind platformOwned = [].
Proof. by destruct (tr_text turn). Qed.

(** A turn of nothing but settled calls has nobody to wait for. *)
Lemma settled_no_waits kind : Nat.eqb (length (to_delegated (turnEvents turn class mint))) (length (tr_toolUses turn)) = true ->
  ToolWaitIDs (to_batch (turnEvents turn class mint)) kind platformOwned = [].
Proof.
  intros H%settled_all. unfold turnEvents. rewrite (proj1 (call_events_form _ _ _)), ToolWaitIDs_app. cbn [to_batch].
  rewrite text_no_wait. cbn [app]. induction H as [|q l Hq _ IH]; [done|]. cbn [map].
  change (event_at q :: map event_at l) with ([event_at q] ++ map event_at l). by rewrite ToolWaitIDs_app, settled_no_wait, IH.
Qed.

Lemma use_no_reply ty : mem_string ty toolUseTypes = true -> mem_string ty replyTypes = false.
Proof.
  intros H%mem_string_spec. unfold toolUseTypes in H. repeat (apply elem_of_cons in H as [->|H]; [done|]). by apply not_elem_of_nil in H.
Qed.

(** A turn's own events are no results. *)
Lemma turn_events_no_result tid asks : Forall (fun ev => no_result ev)
  (stampThread (to_batch (turnEvents turn class mint)) tid asks).
Proof.
  unfold stampThread, turnEvents. rewrite (proj1 (call_events_form _ _ _)). cbn [to_batch]. apply Forall_map, Forall_app. split.
  - destruct (tr_text turn); by repeat constructor.
  - apply Forall_map, Forall_forall. intros [i tu] _. unfold stamp_thread, event_at, call_event, class_at, classify. cbn [n_type fst snd cc_class].
    destruct (class !! tu_Name tu) as [c|] eqn:Ec; cbn [default]; [|done]. destruct (_ || _); [done|].
    destruct (Hs _ _ Ec) as [Hk _]. by apply use_no_reply.
Qed.
End calls.

(** ** The commit *)

(** Every thread that is not as it was runs with a turn of its own, and is the child's
    coordinator where a child committed. *)
Definition woken_served (sid tid : string) (tb tb' : tables) : Prop :=
  forall id, id <> thread_of sid tid ->
    s_threads (tb_threads tb') !! id = s_threads (tb_threads tb) !! id \/
    exists w, thread_of sid w = id /\ turn_live sid (tb_queue tb') w /\ (tid <> EmptyString -> w = EmptyString).

Lemma starts_served sid tid tb tb' ws : starts sid [thread_of sid tid] tb tb' ws -> Forall (turn_live sid (tb_queue tb')) ws ->
  (tid <> EmptyString -> Forall (eq EmptyString) ws) -> woken_served sid tid tb tb'.
Proof.
  intros H Hl Hp id Hne. destruct (H id) as [?|(w & Hw & Ht)]; [by intros ->%list_elem_of_singleton|by left|].
  right. exists w. split; [done|]. split; [by eapply Forall_forall in Hl|]. intros Hc. symmetry. by eapply Forall_forall in Hp.
Qed.

Section commit.
Context (isPrint : Z -> bool) (rd : readings) (now : Z) (trace : option string) (agent : ResolvedAgent) (class : gmap string toolClass)
  (mint : nat -> string) (m : minted).
Context (Hsurface : surface class) (Hids : forall i, mt_child m i <> EmptyString).

#[local] Abbreviation commit tb it endEv turn watermark startID :=
  (commitTurn isPrint rd now trace tb it agent endEv turn class watermark mint startID m).

(** What a commit leaves, the answers its append holds, and what follows it. *)
Definition committed (sid tid kind : string) (own : bool) (ids : list string) (tb tb' : tables) : Prop :=
  left_well rd sid tid kind own (tb_log tb) tb' /\ woken_served sid tid tb tb' /\
  live_count sid tb' <= Z.max maxLiveThreads (live_count sid tb) /\
  exists rows more mid, stamped (l_events (tb_log tb) ++ rows) (l_events mid) /\ stamped (l_events mid ++ more) (l_events (tb_log tb')) /\
    omap answered_row rows = map (settled_answer tid) ids /\ Forall processed_result rows /\
    Forall (fun r => e_session r = sid) rows /\ Forall (late mid sid tid) more /\
    ((forall q, r_id rd q <> EmptyString) -> Forall (fun r => e_id r <> EmptyString) rows).

(** A turn with no settled call. *)
Lemma commit_plain tb it head opts w1 w2 w3 tb' :
  (try tb <- of_settle (append rd tb (it_session it) head opts);
   try tb <- of_settle (complete_item now tb it);
   try '(moved, tb) <- settleTools rd now trace tb it w1 w2;
   of_settle (enqueueIdleHarvest now tb it moved w3 trace)) = Ok tb' ->
  o_consume opts = false -> o_then opts = None -> Forall (fun ev => no_result ev) head ->
  runs (it_session it) tb (it_thread it) -> committed (it_session it) (it_thread it) (env_text tb (it_env it)) false [] tb tb'.
Proof.
  intros H Hc Ht Hh (r & Hr & Hrun). apply bind_ok in H as (tb1 & H1 & H). apply bind_ok in H as (tb2 & H2 & H).
  apply bind_ok in H as ([moved tb3] & H3 & H). destruct (append rd tb _ head opts) as [tb1'|] eqn:Ea; [|done]. injection H1 as ->.
  destruct (complete_item now tb1 it) as [tb2'|] eqn:Ec; [|done]. injection H2 as ->.
  destruct (enqueueIdleHarvest _ _ _ _ _ _) as [tb4|] eqn:Eh; [|done]. injection H as ->.
  apply append_ok in Ea as (rows & Ha & E1). apply (enqueueIdleHarvest_ok now trace (it_session it)) in Eh as Q4; [|done].
  pose proof (complete_item_envs _ _ _ _ Ec) as V2.
  assert (E2 : tb_threads tb2 = tb_threads tb /\ tb_log tb2 = tb_log tb1).
  { unfold complete_item in Ec. destruct (Complete _ _ _); [|done]. injection Ec as <-. cbn. by rewrite E1. }
  destruct E2 as [E2 L2]. rewrite <- E2 in Hr.
  destruct (settleTools_ok _ _ _ _ _ _ _ _ _ _ _ H3 eq_refl Hr Hrun) as (S3 & C3 & (more & G3 & M3) & L3).
  pose proof (grown_append _ _ _ _ _ _ _ Ht Ha) as Hg. destruct (append_answered _ _ _ _ _ _ _ Hc Ha) as [Ho Hp].
  assert (L4 : tb_log tb' = tb_log tb3) by (by rewrite (proj1 Q4)).
  split.
  { eapply left_well_queue; [exact Q4|]. rewrite (env_text_envs tb tb2) by (rewrite V2; by rewrite E1).
    eapply left_well_grown; [|exact L3]. exists rows. by rewrite L2. }
  split; [|split].
  - apply starts_served with (ws := []); [|constructor|constructor]. apply (starts_trans _ _ _ tb2 _ [] []); [apply starts_same; by rewrite E2|].
    apply (starts_trans _ _ _ tb3 _ [] []); [exact S3|]. apply starts_same. by rewrite (proj1 Q4).
  - rewrite (count_same _ tb3 tb') by (by rewrite (proj1 Q4)). rewrite C3, (count_same _ tb tb2) by (by rewrite E2). lia.
  - exists rows, more, (tb_log tb2). rewrite L4. split_and!; [by rewrite L2|exact G3|by rewrite Ho, answered_none|done|by eapply append_sessions|done|].
    intros Hid. by eapply append_ids.
Qed.

Lemma commit_delegated tb it head opts askIDs calls settlementOnly watermark tb' :
  commitDelegatedTurn isPrint rd now trace tb it agent head opts askIDs calls settlementOnly watermark m = Ok tb' ->
  o_consume opts = false -> o_then opts = None -> Forall (fun ev => no_result ev) head ->
  item_of (tb_queue tb) it -> it_kind it = ModelTurn -> runs (it_session it) tb (it_thread it) -> (settlementOnly = true -> askIDs = []) ->
  committed (it_session it) (it_thread it) (env_text tb (it_env it)) settlementOnly (map dc_eventID calls) tb tb'.
Proof.
  intros H Hc Ht Hh Hit Hk Hruns Hask. unfold commitDelegatedTurn in H. apply bind_ok in H as (before & _ & H).
  apply bind_ok in H as (d & Hrun & H). pose proof (run_ran isPrint (it_session it) _ _ _ _ _ _ _ Hids _ _ _ Hrun) as [A (ws & W & S & _) _ (evs & E & O)].
  cbn [d_tb d_wakes d_events app] in A, W, S, E.
  assert (Hend : d_ended d = true -> settlementOnly = true).
  { intros He. assert (Hw : waits_ok (MkDelegation tb [] [] false false None 0%nat)) by done.
    destruct (run_flagged _ _ _ _ _ _ _ _ _ _ _ _ Hw Hrun) as (_ & _ & _ & Fe). by destruct (Fe He) as [?|(_ & ? & _)]. }
  destruct (settle_delegated_ok _ _ _ _ _ _ _ _ _ _ _ _ _ _ _ _ _ _ H Hc Ht eq_refl) as (L & C & (rows & more & mid & G1 & G2 & R & P & N & M & I) & ws2 & S2 & F & K).
  { by rewrite (ad_queue _ _ _ A). } { done. } { by eapply runs_advanced. }
  { intros Hso. by rewrite (Hask Hso). } { done. }
  rewrite (ad_events _ _ _ A) in G1.
  split. { rewrite (env_text_envs tb (d_tb d)) by (by rewrite (ad_queue _ _ _ A)). eapply left_well_grown; [|exact L].
           exists []. rewrite app_nil_r, (ad_events _ _ _ A). change (stamped (l_events (tb_log tb)) (l_events (tb_log tb))). reflexivity. }
  split; [|split].
  - eapply starts_served; [|exact F|].
    + rewrite W. eapply starts_trans; [by apply starts_own|exact S2].
    + intros Hch. apply Forall_app. split; [|done]. destruct (run_child_wakes isPrint (it_session it) agent (MkPeer (it_thread it) (ag_Name agent)) _ _ _ _ _ _ _ _ Hch Hrun) as (ws' & E' & F'). rewrite E'. exact F'.
  - pose proof (ad_live _ _ _ A). lia.
  - exists rows, more, mid. split_and!; [done|done| |done..]. rewrite R, omap_app', answered_none by done. cbn [app]. by rewrite E, O, map_map.
Qed.

(** Every call of the turn is the settlement's own. *)
Definition all_settled (turn : turnResult) : bool := Nat.eqb (length (settled_ids turn class mint)) (length (tr_toolUses turn)).

Lemma commitTurn_committed tb it endEv turn watermark startID tb' : commit tb it endEv turn watermark startID = Ok tb' ->
  tr_toolUses turn <> [] -> no_result endEv ->
  item_of (tb_queue tb) it -> it_kind it = ModelTurn -> runs (it_session it) tb (it_thread it) ->
  committed (it_session it) (it_thread it) (env_text tb (it_env it)) (all_settled turn) (settled_ids turn class mint) tb tb'.
Proof.
  intros H Hne He Hit Hk Hruns. unfold commitTurn in H. destruct (tr_toolUses turn) as [|tu tus] eqn:Etu; [done|]. cbv zeta in H. rewrite <- Etu in H.
  assert (Hh : forall asks, Forall (fun ev => no_result ev)
    (stampThread (to_batch (turnEvents turn class mint) ++ [endEv]) (it_thread it) asks)).
  { intros asks. unfold stampThread. rewrite map_app. apply Forall_app. split; [by apply turn_events_no_result|by constructor]. }
  unfold all_settled. rewrite <- delegated_ids, length_map. destruct (to_delegated (turnEvents turn class mint)) as [|c cs] eqn:Ed.
  - rewrite Etu. eapply commit_plain; [exact H|done|done|by apply Hh|done].
  - eapply commit_delegated; [exact H|done|done|by apply Hh|done|done|done|]. intros Hso. by apply settled_no_waits; [|rewrite Ed].
Qed.

(** *** A turn of nothing but settled calls *)

Lemma chainInput_events db db' sid tid wm : l_events db = l_events db' -> chainInput db sid tid wm = chainInput db' sid tid wm.
Proof. unfold chainInput. by intros ->. Qed.

(** A busy child keeps its row when only the primary moves. *)
Lemma busy_rest sid tb tb' : tb_parent tb !! PrimaryThreadID sid = None -> tb_parent tb' = tb_parent tb ->
  starts sid [thread_of sid EmptyString] tb tb' [] -> busy sid tb = true -> busy sid tb' = true.
Proof.
  intros Hp Ep Hs. unfold busy. rewrite !BusyChild_spec. intros (id & Hid & Hne). exists id. split; [|done].
  apply elem_of_busy_ids in Hid as (r & Hr & Hb). apply elem_of_busy_ids. exists r. rewrite Ep. split; [|done].
  destruct (Hs id) as [->|(w & Hw & _)]; [|done|by apply not_elem_of_nil in Hw].
  intros ->%list_elem_of_singleton. unfold busyChild in Hb. apply andb_true_iff in Hb as [Hb _]. apply andb_true_iff in Hb as [Hb _].
  apply andb_true_iff in Hb as [_ Hb%bool_decide_eq_true]. change (thread_of sid EmptyString) with (PrimaryThreadID sid) in Hb.
  rewrite Hp in Hb. by destruct Hb.
Qed.

(** Why a thread rests.  A coordinator parked: a child is busy, and one of its calls
    waited for it and was answered that the wait started.  A child reported: one of its
    calls submitted a result, which went to its coordinator's log, and was answered that it
    had.  Or it is cut, at the cap. *)
Definition rest_cause (sid : string) (it : Item) (calls : list delegatedCall) (tb tb' : tables) : Prop :=
  let caller := MkPeer (it_thread it) (ag_Name agent) in
  let written ev := logged sid (tb_log tb) (tb_log tb') ev in
  (it_thread it = EmptyString /\ busy sid tb' = true /\
     exists c, c ∈ calls /\ dc_name c = ToolWaitForAgents /\ written (delegationAnswer (it_thread it) (dc_eventID c) answerWaitStarted false)) \/
  (it_thread it <> EmptyString /\
     exists c result, c ∈ calls /\ dc_name c = ToolSubmitResult /\ input_string c "result" = Some result /\ delegationText result <> EmptyString /\
       written (ThreadMessage sid caller (MkPeer EmptyString EmptyString) (delegationText result)).2 /\
       written (delegationAnswer (it_thread it) (dc_eventID c) answerReported false)) \/
  maxSettlementChain <= it_chain it + 1.

Inductive settled_fate (sid : string) (it : Item) (calls : list delegatedCall) (watermark : Z) (tb tb' : tables) : Prop :=
| fate_fed : handed_back (tb_queue tb') (it_id it) 0 ->
    chainInput (tb_log tb) sid (it_thread it) watermark = true \/ (exists w, ~ runs sid tb w /\ runs sid tb' w) ->
    settled_fate sid it calls watermark tb tb'
| fate_unfed : handed_back (tb_queue tb') (it_id it) (it_chain it + 1) -> it_chain it + 1 < maxSettlementChain ->
    settled_fate sid it calls watermark tb tb'
| fate_rests : (exists r, row_of (tb_threads tb') sid (thread_of sid (it_thread it)) = Some r /\ t_status r = SessionIdle) ->
    (exists x, q_items (tb_queue tb') !! it_id it = Some x /\ w_state x = stopped) ->
    chainInput (tb_log tb) sid (it_thread it) watermark = false -> rest_cause sid it calls tb tb' ->
    settled_fate sid it calls watermark tb tb'.

Lemma delegated_fate tb it head opts calls watermark tb' :
  commitDelegatedTurn isPrint rd now trace tb it agent head opts [] calls true watermark m = Ok tb' ->
  o_consume opts = false -> o_then opts = None ->
  runs (it_session it) tb (it_thread it) -> 0 <= it_chain it -> tb_parent tb !! PrimaryThreadID (it_session it) = None ->
  settled_fate (it_session it) it calls watermark tb tb'.
Proof.
  intros H Hoc Hot Hruns Hn Hp. unfold commitDelegatedTurn in H. apply bind_ok in H as (before & _ & H). apply bind_ok in H as (d & Hrun & H).
  pose proof (run_ran isPrint (it_session it) _ _ _ _ _ _ _ Hids _ _ _ Hrun) as [A (ws & W & _ & Fr) Pk _].
  assert (Hw0 : waits_ok (MkDelegation tb [] [] false false None 0%nat)) by done.
  destruct (run_flagged _ _ _ _ _ _ _ _ _ _ _ _ Hw0 Hrun) as (_ & _ & Fp & Fe). cbn [d_tb d_wakes d_park d_ended app tp_ThreadID] in *.
  pose proof (chainInput_events _ _ (it_session it) (it_thread it) watermark (ad_events _ _ _ A)) as Ec.
  assert (Hlog : forall ev, ev ∈ d_events d -> plain_event ev = true -> logged (it_session it) (tb_log tb) (tb_log tb') ev).
  { intros ev Hin Hpl. pose proof (settle_delegated_logged _ _ _ _ _ _ _ _ _ _ _ _ _ _ _ _ _ ev H eq_refl Hoc Hot Hin Hpl) as Hl.
    unfold logged in *. by rewrite (ad_events _ _ _ A) in Hl. }
  destruct (settle_delegated_fate _ _ _ _ _ _ _ _ _ _ _ _ _ _ _ _ H eq_refl) as [Hq Ht Hf|Hq Hlt|Hr Hx Hu Hc].
  { by eapply runs_advanced. } { done. }
  - apply fate_fed; [done|]. rewrite Ec in Hf. destruct Hf as [Hf|Hf]; [by left|right]. rewrite W in Hf.
    destruct ws as [|w ws]; [done|]. apply Forall_inv in Fr as [Fn (r & Hr & Hst)]. exists w. split; [done|]. exists r.
    split; [|done]. unfold row_of in *. by rewrite Ht.
  - by apply fate_unfed.
  - rewrite Ec in Hu. apply fate_rests; [done|done|done|]. destruct Hc as [(Hpk & Ep & Hs)|[He|Hc]]; [left|right; left|by right; right].
    + destruct (Fp Hpk) as [?|(Et & c & Hc & Hname & Hans)]; [done|]. split; [done|]. rewrite Et in Hs. split.
      * eapply busy_rest; [|exact Ep|exact Hs|].
        { destruct Hruns as (r1 & [Hr1 _]%row_of_Some & _). rewrite Et in Hr1. rewrite (ad_kept _ _ _ A); [done|by eexists]. }
        apply Pk; [|done]. split; [done|]. by intros v Hv.
      * exists c. split_and!; [done|done|]. by apply Hlog.
    + destruct (Fe He) as [?|(Hch & _ & _ & c & Hc & Hname & (result & Hin & Hne & Hrep) & Hans)]; [done|]. split; [done|].
      exists c, result. split_and!; [done|done|done|done|by apply Hlog|by apply Hlog].
Qed.
End commit.

(** ** The theorems *)

(** C5: A turn that called tools leaves its thread well.  Were all its calls the
    settlement's own, the thread goes on, running with a live turn, or is at rest at the end
    of its turn.  Otherwise it is where the walk of its calls, over everything the log then
    holds of them, has it: idle on the calls it waits for, or running while one is to be run
    for it, and with none unsettled, running with a live turn; and what the log then holds
    ready to run has a live item of its kind.  Every other thread whose row the commit
    changed has a live turn. *)
Theorem commitTurn_goes_on isPrint rd now trace tb it agent endEv turn class watermark mint startID m tb'
    (H : commitTurn isPrint rd now trace tb it agent endEv turn class watermark mint startID m = Ok tb')
    (Hcalls : tr_toolUses turn <> []) (Hend : no_result endEv)
    (Hsurface : surface class) (Hids : forall i, mt_child m i <> EmptyString)
    (Hit : item_of (tb_queue tb) it) (Hkind : it_kind it = ModelTurn) (Hruns : runs (it_session it) tb (it_thread it)) :
  left_well rd (it_session it) (it_thread it) (env_text tb (it_env it)) (all_settled class mint turn) (tb_log tb) tb' /\
  forall id, id <> thread_of (it_session it) (it_thread it) ->
    s_threads (tb_threads tb') !! id = s_threads (tb_threads tb) !! id \/
    exists w, thread_of (it_session it) w = id /\ turn_live (it_session it) (tb_queue tb') w.
Proof.
  destruct (commitTurn_committed _ _ _ _ _ _ _ _ Hsurface Hids _ _ _ _ _ _ _ H Hcalls Hend Hit Hkind Hruns) as (L & W & _).
  split; [done|]. intros id Hne. destruct (W id Hne) as [?|(w & ? & ? & _)]; eauto.
Qed.

(** Refused on the log: a call of the thread that asks, and a confirmation that denies it. *)
Definition refused_call (db : ldb) (sid tid id : string) : Prop :=
  exists tu cf, tu ∈ l_events db /\ e_session tu = sid /\ e_thread tu = tid /\ e_id tu = id /\ mem_string (e_type tu) toolUseTypes = true /\
    field_string (e_payload tu) "evaluated_permission" = EvalPermAsk /\
    cf ∈ l_events db /\ confirms sid id cf = true /\ denies (Some (e_payload cf)) = true.

(** What an accepted confirmation is on the log: it names its call under its one key. *)
Definition names_its_call (e : erow) : Prop :=
  e_type e = EventUserToolConfirm -> text_at (e_payload e) "tool_use_id" = Some (field_string (e_payload e) "tool_use_id").

Lemma late_refused db db' sid tid more r a : stamped (l_events db ++ more) (l_events db') -> Forall names_its_call (l_events db) ->
  late db sid tid r -> answered_row r = Some a ->
  exists id, a.2 = Some id /\ refused_call db' sid tid id /\
    (forall x, find (answers sid id) (l_events db) = Some x -> e_id x = EmptyString).
Proof.
  intros Hst Hn [E|(tu & cf & ty & th & Htu & H1 & H2 & H3 & H4 & Hcf & H5 & H6 & H7 & H8)] Ha; [congruence|].
  rewrite Ha in H8. injection H8 as ->. exists (e_id tu). split; [|split; [|done]].
  - cbn. pose proof H5 as Hc. unfold confirms, names in Hc. bool_prop. rewrite Forall_forall in Hn.
    specialize (Hn cf Hcf). rewrite Hn in H0 by (by apply String.eqb_eq). by apply String.eqb_eq in H0 as ->.
  - destruct (stamped_in _ _ tu Hst) as (tu' & Htu' & (E1 & E2 & _ & E3 & E4 & _ & E5 & _)%stamped_row_same); [by apply elem_of_app; left|].
    destruct (stamped_in _ _ cf Hst) as (cf' & Hcf' & (F1 & F2 & _ & F3 & F4 & _ & F5 & _)%stamped_row_same); [by apply elem_of_app; left|].
    exists tu', cf'. unfold confirms, names in *. rewrite E1, E2, E3, E4, E5, F2, F3, F4. by split_and!.
Qed.

Lemma no_confirms tid ids rows : omap answered_row rows = map (settled_answer tid) ids -> Forall names_its_call rows.
Proof.
  intros H. apply Forall_forall. intros r Hr Ht. exfalso.
  assert (Ha : (e_type r, e_thread r, result_ref (e_payload r)) ∈ omap answered_row rows)
    by (apply list_elem_of_omap; exists r; split; [done|]; unfold answered_row; by rewrite Ht).
  rewrite H in Ha. apply list_elem_of_fmap in Ha as (id & Heq & _). injection Heq as Heq _ _. by rewrite Ht in Heq.
Qed.

Lemma stamped_names es es' : stamped es es' -> Forall names_its_call es -> Forall names_its_call es'.
Proof.
  unfold stamped. induction 1 as [|a b es es' (_ & _ & _ & Ht & Hp & _)%stamped_row_same _ IH]; [constructor|].
  intros [Ha Hes]%Forall_cons. constructor; [|by apply IH]. unfold names_its_call in *. by rewrite Ht, Hp.
Qed.

Lemma stamped_ids es es' : stamped es es' -> Forall (fun e => e_id e <> EmptyString) es -> Forall (fun e => e_id e <> EmptyString) es'.
Proof.
  unfold stamped. induction 1 as [|a b es es' (Hi & _)%stamped_row_same _ IH]; [constructor|].
  intros [Ha Hes]%Forall_cons. constructor; [by rewrite Hi|by apply IH].
Qed.

Lemma answered_found sid tid rows ids id : omap answered_row rows = map (settled_answer tid) ids -> Forall (fun r => e_session r = sid) rows ->
  id ∈ ids -> exists r, r ∈ rows /\ answers sid id r = true.
Proof.
  intros H Hs Hin. assert (Ha : settled_answer tid id ∈ omap answered_row rows) by (rewrite H; by apply list_elem_of_fmap_2).
  apply list_elem_of_omap in Ha as (r & Hr & Ha). exists r. split; [done|]. rewrite Forall_forall in Hs.
  unfold answered_row in Ha. destruct (mem_string (e_type r) replyTypes); [|done]. injection Ha as Ht _ Href.
  unfold answers. by rewrite (Hs r Hr), Ht, Href, !String.eqb_refl.
Qed.

(** C14: the commit of a turn answers every call the settlement owns, each with one
    processed result on the calling thread, in the order the model made them; the rows its
    append writes answer, and confirm, no other call.  A result written behind them, by the
    walk of the thread's calls, is none of theirs: it is for a call that asked a human, and
    that a confirmation on the log refuses. *)
Theorem commitTurn_answers isPrint rd now trace tb it agent endEv turn class watermark mint startID m tb'
    (H : commitTurn isPrint rd now trace tb it agent endEv turn class watermark mint startID m = Ok tb')
    (Hcalls : tr_toolUses turn <> []) (Hend : no_result endEv)
    (Hsurface : surface class) (Hids : forall i, mt_child m i <> EmptyString)
    (Hit : item_of (tb_queue tb) it) (Hkind : it_kind it = ModelTurn) (Hruns : runs (it_session it) tb (it_thread it))
    (Hrows : Forall (fun e => e_id e <> EmptyString) (l_events (tb_log tb))) (Hdrawn : forall q, r_id rd q <> EmptyString)
    (Hnames : Forall names_its_call (l_events (tb_log tb))) :
  exists rows more, stamped (l_events (tb_log tb) ++ rows ++ more) (l_events (tb_log tb')) /\
    omap answered_row rows = map (settled_answer (it_thread it)) (settled_ids turn class mint) /\ Forall processed_result rows /\
    forall r a, r ∈ more -> answered_row r = Some a ->
      exists id, a.2 = Some id /\ (id ∉ settled_ids turn class mint) /\ refused_call (tb_log tb') (it_session it) (it_thread it) id.
Proof.
  destruct (commitTurn_committed _ _ _ _ _ _ _ _ Hsurface Hids _ _ _ _ _ _ _ H Hcalls Hend Hit Hkind Hruns) as (_ & _ & _ & rows & more & mid & G1 & G2 & R & P & N & M & I).
  exists rows, more. split.
  { rewrite app_assoc. etransitivity; [|exact G2]. apply Forall2_app; [exact G1|]. change (stamped more more). reflexivity. }
  split; [done|]. split; [done|]. intros r a Hr Ha. rewrite Forall_forall in M.
  assert (Hm : Forall names_its_call (l_events mid)) by (eapply stamped_names; [exact G1|]; apply Forall_app; split; [done|by eapply no_confirms]).
  destruct (late_refused _ _ _ _ _ r a G2 Hm (M r Hr) Ha) as (id & Hid & Href & Hno). exists id. split_and!; [done| |done].
  intros Hin. destruct (answered_found _ _ _ _ _ R N Hin) as (x & Hx & Hans).
  destruct (stamped_in _ _ x G1) as (x' & Hx' & Hs); [by apply elem_of_app; right|]. pose proof (answers_stamped _ _ _ _ Hs Hans) as Hans'.
  destruct (find (answers (it_session it) id) (l_events mid)) as [y|] eqn:Ef.
  - assert (Hne : Forall (fun e => e_id e <> EmptyString) (l_events mid)).
    { eapply stamped_ids; [exact G1|]. apply Forall_app. split; [done|by apply I]. }
    rewrite Forall_forall in Hne. apply find_some in Ef as Hy. destruct Hy as [Hy%list_elem_of_In _].
    exact (Hne y Hy (Hno y eq_refl)).
  - eapply find_none in Ef; [|apply list_elem_of_In; exact Hx']. congruence.
Qed.

(** However many agents a turn spawns, its commit leaves no more live threads in the
    session than the cap, or than there were. *)
Theorem commitTurn_live_threads isPrint rd now trace tb it agent endEv turn class watermark mint startID m tb'
    (H : commitTurn isPrint rd now trace tb it agent endEv turn class watermark mint startID m = Ok tb')
    (Hcalls : tr_toolUses turn <> []) (Hend : no_result endEv)
    (Hsurface : surface class) (Hids : forall i, mt_child m i <> EmptyString)
    (Hit : item_of (tb_queue tb) it) (Hkind : it_kind it = ModelTurn) (Hruns : runs (it_session it) tb (it_thread it)) :
  live_count (it_session it) tb' <= Z.max maxLiveThreads (live_count (it_session it) tb).
Proof.
  by destruct (commitTurn_committed _ _ _ _ _ _ _ _ Hsurface Hids _ _ _ _ _ _ _ H Hcalls Hend Hit Hkind Hruns) as (_ & _ & ? & _).
Qed.

(** A child's turn, whatever it calls, spawns no thread and changes the row of no
    thread but its own and its coordinator's. *)
Theorem child_turn_stays_home isPrint rd now trace tb it agent endEv turn class watermark mint startID m tb'
    (H : commitTurn isPrint rd now trace tb it agent endEv turn class watermark mint startID m = Ok tb')
    (Hcalls : tr_toolUses turn <> []) (Hend : no_result endEv)
    (Hsurface : surface class) (Hids : forall i, mt_child m i <> EmptyString)
    (Hit : item_of (tb_queue tb) it) (Hkind : it_kind it = ModelTurn) (Hruns : runs (it_session it) tb (it_thread it))
    (Hchild : it_thread it <> EmptyString) :
  forall id, id <> it_thread it -> id <> PrimaryThreadID (it_session it) ->
    s_threads (tb_threads tb') !! id = s_threads (tb_threads tb) !! id.
Proof.
  destruct (commitTurn_committed _ _ _ _ _ _ _ _ Hsurface Hids _ _ _ _ _ _ _ H Hcalls Hend Hit Hkind Hruns) as (_ & W & _).
  intros id Hne Hp. destruct (W id) as [?|(w & Hw & _ & Hh)]; [by rewrite thread_of_child|done|exfalso].
  rewrite (Hh Hchild) in Hw. by apply Hp.
Qed.

(** C6: a turn of nothing but settled calls hands its item back with its count at zero,
    because its thread has unread input or it woke one; or hands it back with one more
    unfed turn counted, below the cap; or leaves its thread idle and its item done, with
    no unread input.  Then it is a coordinator with a busy child that called wait_for_agents
    and was answered that the wait started; or a child that called submit_result, whose
    text the commit wrote to its coordinator's log and which it answered as reported; or a
    thread at the cap. *)
Theorem settled_turn_fate isPrint rd now trace tb it agent endEv turn class watermark mint startID m tb'
    (H : commitTurn isPrint rd now trace tb it agent endEv turn class watermark mint startID m = Ok tb')
    (Hcalls : tr_toolUses turn <> []) (Hsettled : length (settled_ids turn class mint) = length (tr_toolUses turn))
    (Hsurface : surface class) (Hids : forall i, mt_child m i <> EmptyString)
    (Hruns : runs (it_session it) tb (it_thread it)) (Hchain : 0 <= it_chain it)
    (Hprimary : tb_parent tb !! PrimaryThreadID (it_session it) = None) :
  settled_fate agent (it_session it) it (to_delegated (turnEvents turn class mint)) watermark tb tb'.
Proof.
  rewrite <- delegated_ids, length_map in Hsettled. unfold commitTurn in H. destruct (tr_toolUses turn) as [|tu tus] eqn:Etu; [done|].
  cbv zeta in H. rewrite <- Etu in H, Hsettled. destruct (to_delegated (turnEvents turn class mint)) as [|c cs] eqn:Ed; [by rewrite Etu in Hsettled|].
  rewrite <- Ed in H, Hsettled |- *. rewrite (proj2 (Nat.eqb_eq _ _) Hsettled) in H.
  rewrite (settled_no_waits _ _ _ Hsurface) in H by (by apply Nat.eqb_eq). eapply delegated_fate; [exact Hids|exact H|done..].
Qed.

(** ** A session out of budget *)

Lemma told_woken_turn now trace sid tb tb' (told : option Delivery) wid env :
  (if told_woke told then enqueue_thread now trace tb wid env sid EmptyString ModelTurn else Ok tb) = Ok tb' ->
  only_queue tb tb' /\ Forall (turn_live sid (tb_queue tb')) (if told_woke told then [EmptyString] else []).
Proof.
  destruct (told_woke told); [|intros [= <-]; split; [apply only_queue_refl|constructor]].
  intros [Q L]%enqueue_thread_ok. split; [done|]. by constructor.
Qed.

Lemma cut_run_leaves rd now trace tb it agent mint sess tb' :
  cutExhaustedRun rd now trace tb it agent mint = Ok (true, tb') -> l_sessions (tb_log tb) !! it_session it = Some sess ->
  runs (it_session it) tb (it_thread it) ->
  (exists r, row_of (tb_threads tb') (it_session it) (thread_of (it_session it) (it_thread it)) = Some r /\
     t_status r = SessionIdle /\ t_stop r = Some (MkStop StopEndTurn [])) /\
  (exists x, q_items (tb_queue tb') !! it_id it = Some x /\ w_state x = stopped) /\
  woken_served (it_session it) (it_thread it) tb tb'.
Proof.
  intros H Hsess Hruns. unfold cutExhaustedRun in H. rewrite Hsess in H. destruct (_ <? _); [done|]. destruct (pendingInput _ _ _); [done|].
  apply bind_ok in H as (before & _ & H). apply bind_ok in H as ([told tb1] & H1 & H). apply bind_ok in H as ([[idle mv] tb2] & H2 & H).
  apply bind_ok in H as (after & _ & H). apply bind_ok in H as (tb3 & H3 & H). apply bind_ok in H as (tb4 & H4 & H).
  apply bind_ok in H as (tb5 & H5 & H). apply bind_ok in H as (tb6 & H6 & [= <-]).
  apply told_advanced in H1 as (E1 & A1 & S1 & _). destruct (transition tb1 _ _) as [[[i m] tb2']|] eqn:Et; [|done]. injection H2 as -> -> ->.
  apply transition_ok in Et as (E2 & T2 & _). destruct (append rd tb2 _ _ _) as [tb3'|] eqn:Ea; [|done]. injection H3 as ->.
  apply append_ok in Ea as (rows & _ & E3). destruct (complete_item now tb3 it) as [tb4'|] eqn:Ec; [|done]. injection H4 as ->.
  unfold complete_item in Ec. destruct (Complete now (tb_queue tb3) it) as [q|] eqn:Eq; [|done]. injection Ec as <-.
  destruct (complete_row _ _ _ _ Eq) as (_ & x & _ & Hq & _ & Hx & _). destruct (enqueueIdleHarvest _ _ _ _ _ _) as [tb5'|] eqn:Eh; [|done].
  injection H5 as ->. apply (enqueueIdleHarvest_ok now trace (it_session it)) in Eh as Q5; [|done]. apply told_woken_turn in H6 as [Q6 L6].
  pose proof (only_queue_trans _ _ _ Q5 Q6) as [E6 K6]. assert (T6 : s_threads (tb_threads tb6) = s_threads (tb_threads tb2)) by (by rewrite E6, E3).
  destruct (runs_advanced _ _ _ _ A1 Hruns) as (r & Hr & Hst). cbn [idle_on tr_thread] in T2. rewrite Hr in T2. split; [|split].
  - eexists. rewrite row_of_Some, T6, T2, lookup_insert_eq. apply row_of_Some in Hr as [_ Hs]. by split.
  - exists x. split; [|done]. apply K6. cbn. by rewrite Hq, lookup_insert_eq.
  - eapply starts_served; [|exact L6|intros _; destruct (told_woke told); by repeat constructor].
    rewrite <- (app_nil_r (if told_woke told then _ else _)). eapply starts_trans; [by apply starts_own|].
    eapply starts_insert; [rewrite T6; exact T2|]. left. left.
Qed.

(** C23: a claim's turn is refused exactly when the session has spent its delegation budget
    and its thread has no pending input; a refused thread ends idle with its item done,
    and a coordinator the ending wakes has a live turn; nothing changes otherwise. *)
Theorem cutExhaustedRun_refuses rd now trace tb it agent mint sess refused tb'
    (H : cutExhaustedRun rd now trace tb it agent mint = Ok (refused, tb'))
    (Hsess : l_sessions (tb_log tb) !! it_session it = Some sess) (Hruns : runs (it_session it) tb (it_thread it)) :
  refused = (maxSessionDelegationTurns <=? s_delegation sess) && negb (pendingInput (tb_log tb) (it_session it) (it_thread it)) /\
  if refused then
    (exists r, row_of (tb_threads tb') (it_session it) (thread_of (it_session it) (it_thread it)) = Some r /\
       t_status r = SessionIdle /\ t_stop r = Some (MkStop StopEndTurn [])) /\
    (exists x, q_items (tb_queue tb') !! it_id it = Some x /\ w_state x = stopped) /\
    woken_served (it_session it) (it_thread it) tb tb'
  else tb' = tb.
Proof.
  pose proof H as Hc. unfold cutExhaustedRun in H. rewrite Hsess in H.
  destruct (Z.ltb_spec (s_delegation sess) maxSessionDelegationTurns) as [Hl|Hl].
  { injection H as <- <-. split; [|done]. by rewrite (proj2 (Z.leb_gt _ _)). }
  rewrite (proj2 (Z.leb_le _ _) Hl). destruct (pendingInput _ _ _) eqn:Ep; [by injection H as <- <-|].
  assert (Ht : refused = true).
  { apply bind_ok in H as (? & _ & H). apply bind_ok in H as ([? ?] & _ & H). apply bind_ok in H as ([[? ?] ?] & _ & H).
    apply bind_ok in H as (? & _ & H). apply bind_ok in H as (? & _ & H). apply bind_ok in H as (? & _ & H).
    apply bind_ok in H as (? & _ & H). apply bind_ok in H as (? & _ & H). by injection H as <- _. }
  subst refused. split; [done|]. by eapply cut_run_leaves.
Qed.

(** ** Witnesses *)

Definition d_class : gmap string toolClass :=
  list_to_map (map (fun name => (name, MkClass EventAgentToolUse EmptyString EmptyString EmptyString true false)) delegationToolNames).

Lemma d_surface : surface d_class.
Proof.
  intros name c H%elem_of_list_to_map_2. apply list_elem_of_fmap in H as (x & [= -> ->] & Hx). split; [done|]. intros _.
  split; [done|]. split; [|done]. unfold IsDelegationTool, mem_string. apply existsb_exists. exists x. split; [by apply list_elem_of_In|].
  apply String.eqb_refl.
Qed.

Definition d_agent : ResolvedAgent := MkAgent "lead" (Some (JObject [("agents", JArray [JObject [("name", JString "helper")]])])).
Definition d_end : NewEvent := MkNewEvent EmptyString EventSpanModelRequestEnd (Some (JObject [])) None EmptyString false false.
Definition d_turn (calls : list ToolUse) : turnResult := MkTurn [] EmptyString calls false "tool_use" None [].
Definition d_call (name : string) (input : list (string * json)) : ToolUse := MkToolUse "toolu" name (JObject input).
Definition d_mint (i : nat) : string := "sevt_" +:+ pretty (Z.of_nat i).
Definition d_minted : minted := MkMinted (fun i => "sthr_c" +:+ pretty (Z.of_nat i)) (fun i => Z.of_nat i) (fun i => "work_d" +:+ pretty (Z.of_nat i)).

Definition d_commit (tb : tables) (it : Item) (turn : turnResult) : result turn_error tables :=
  commitTurn (fun _ => true) g_rd 50 None tb it d_agent d_end turn d_class 0 d_mint "sevt_start" d_minted.
Definition d_after (tb : tables) (it : Item) (turn : turnResult) : tables := match d_commit tb it turn with Ok tb => tb | Err _ => tb end.

(** A coordinator spawns an agent, waits for it, and names a tool it was not offered. *)
Definition d_spawning : turnResult := d_turn
  [d_call ToolCreateAgent [("agent_name", JString "helper"); ("message", JString "Read the report")];
   d_call ToolWaitForAgents []; d_call "frobnicate" []].
Definition d_tb1 : tables := d_after g_tables g_item d_spawning.

Lemma d_ids i : mt_child d_minted i <> EmptyString.
Proof. done. Qed.

Lemma d_item : item_of (tb_queue g_tables) g_item.
Proof. exists g_turn. by vm_compute. Qed.

Lemma d_runs : runs "sesn_1" g_tables EmptyString.
Proof. eexists. by vm_compute. Qed.

(** The child the spawn leaves, its turn claimed, and its report. *)
Definition d_child : thread_row := MkThread "sesn_1" SessionRunning None false "helper" None 1.
Definition d_child_item : Item := MkItem "work_2" "env_1" "sesn_1" "sthr_c0" ModelTurn 100 false 0 false None.
Definition d_child_turn : row :=
  MkRow "env_1" "sesn_1" (Some "sthr_c0") ModelTurn active (Some 100) ∅ None 0 None (Some 0) None None None 0.
Definition d_child_tables : tables := MkTables (tb_log g_tables)
  (MkS {[ PrimaryThreadID "sesn_1" := MkThread "sesn_1" SessionIdle (Some (MkStop StopEndTurn [])) true "lead" None 0; "sthr_c0" := d_child;
          "sthr_c1" := d_child ]} {[ "sesn_1" := SessionRunning ]} ∅)
  {[ "sthr_c0" := PrimaryThreadID "sesn_1"; "sthr_c1" := PrimaryThreadID "sesn_1" ]} (tb_evals g_tables)
  (MkQ {["env_1" := cloud]} {["work_2" := d_child_turn]} ∅).
Definition d_reporting : turnResult := d_turn [d_call ToolSubmitResult [("result", JString "Done")]].
Definition d_tb2 : tables := d_after d_child_tables d_child_item d_reporting.

Lemma d_child_runs : runs "sesn_1" d_child_tables "sthr_c0".
Proof. exists d_child. by vm_compute. Qed.

Lemma commitTurn_goes_on_witness : left_well g_rd "sesn_1" EmptyString "cloud" true (tb_log g_tables) d_tb1.
Proof.
  refine (proj1 (commitTurn_goes_on (fun _ => true) g_rd 50 None g_tables g_item d_agent d_end d_spawning d_class 0 d_mint "sevt_start" d_minted d_tb1
    _ _ _ d_surface d_ids d_item eq_refl d_runs)); [vm_compute; reflexivity|discriminate|reflexivity].
Defined.

Lemma commitTurn_answers_witness :
  exists rows more, stamped (l_events (tb_log g_tables) ++ rows ++ more) (l_events (tb_log d_tb1)) /\
    omap answered_row rows = map (settled_answer "") ["sevt_0"; "sevt_1"; "sevt_2"] /\ Forall processed_result rows.
Proof.
  destruct (commitTurn_answers (fun _ => true) g_rd 50 None g_tables g_item d_agent d_end d_spawning d_class 0 d_mint "sevt_start" d_minted d_tb1
    ltac:(vm_compute; reflexivity) ltac:(discriminate) eq_refl d_surface d_ids d_item eq_refl d_runs
    ltac:(vm_compute; repeat constructor; discriminate) ltac:(intros q; vm_compute; discriminate) ltac:(vm_compute; repeat constructor; discriminate))
    as (rows & more & H1 & H2 & H3 & _).
  exists rows, more. split; [exact H1|]. split; [exact H2|exact H3].
Defined.

Lemma commitTurn_live_threads_witness : live_count "sesn_1" d_tb1 <= Z.max maxLiveThreads (live_count "sesn_1" g_tables).
Proof.
  exact (commitTurn_live_threads (fun _ => true) g_rd 50 None g_tables g_item d_agent d_end d_spawning d_class 0 d_mint "sevt_start" d_minted d_tb1
    ltac:(vm_compute; reflexivity) ltac:(discriminate) eq_refl d_surface d_ids d_item eq_refl d_runs).
Defined.

Lemma child_turn_stays_home_witness : s_threads (tb_threads d_tb2) !! "sthr_c1" = s_threads (tb_threads d_child_tables) !! "sthr_c1".
Proof.
  refine (child_turn_stays_home (fun _ => true) g_rd 50 None d_child_tables d_child_item d_agent d_end d_reporting d_class 0 d_mint "sevt_start" d_minted d_tb2
    ltac:(vm_compute; reflexivity) ltac:(discriminate) eq_refl d_surface d_ids _ eq_refl d_child_runs ltac:(discriminate) _ _ _).
  - exists d_child_turn. by vm_compute.
  - discriminate.
  - vm_compute. discriminate.
Defined.

Lemma settled_turn_fate_witness : settled_fate d_agent "sesn_1" g_item (to_delegated (turnEvents d_spawning d_class d_mint)) 0 g_tables d_tb1.
Proof.
  exact (settled_turn_fate (fun _ => true) g_rd 50 None g_tables g_item d_agent d_end d_spawning d_class 0 d_mint "sevt_start" d_minted d_tb1
    ltac:(vm_compute; reflexivity) ltac:(discriminate) ltac:(vm_compute; reflexivity) d_surface d_ids d_runs ltac:(cbn; lia) ltac:(vm_compute; reflexivity)).
Defined.

(** A session that spent its budget. *)
Definition d_spent : srow := MkSrow None (Some "agent") (MkUsage 0 0 0 (MkCache 0 0)) 0 None 625 "running" [].
Definition d_spent_tables : tables := with_ldb g_tables (MkLdb [] {["sesn_1" := d_spent]} ∅ []).
Definition d_tb3 : tables := match cutExhaustedRun g_rd 50 None d_spent_tables g_item d_agent (mt_work d_minted) with Ok (_, tb) => tb | Err _ => d_spent_tables end.

Lemma cutExhaustedRun_refuses_witness :
  exists r, row_of (tb_threads d_tb3) "sesn_1" (PrimaryThreadID "sesn_1") = Some r /\ t_status r = SessionIdle /\ t_stop r = Some (MkStop StopEndTurn []).
Proof.
  refine (proj1 (proj2 (cutExhaustedRun_refuses g_rd 50 None d_spent_tables g_item d_agent (mt_work d_minted) d_spent true d_tb3 _ _ _))).
  - vm_compute. reflexivity.
  - vm_compute. reflexivity.
  - eexists. by vm_compute.
Defined.
