(* ===== verification/Toolset.v ===== *)
(** * Toolset: what a toolset entry of an agent enables, and under which policy
    (internal/toolset/definitions.go, mcp.go, materialize.go).

    An entry is its decoded document.  It is read twice, as the code reads it: into Go
    structs, where keys match without regard to case and a repeated one is applied again,
    and as a map, where the last value of a key stands.  An error is a constructor with
    what its text names. *)
From Stdlib Require Import Lia.
From S2P Require Import Prelude GoStrings Json Domain Consumption Inbound Turn.

Definition PolicyAlwaysAllow : string := "always_allow".
Definition DefaultAgentToolsetPolicy : string := PolicyAlwaysAllow.
Definition DefaultMCPToolsetPolicy : string := PolicyAlwaysAsk.
Definition agentToolsetType : string := "agent_toolset_20260401".
Definition mcpToolsetType : string := "mcp_toolset".

(** The built-in definitions by name, in the wire's order. *)
Definition definitions : list string := ["bash"; "read"; "write"; "edit"; "glob"; "grep"; "web_fetch"; "web_search"].

Definition is_builtin (name : string) : bool := mem_string name definitions.

(** ** Errors *)

Inductive path := AtTop | AtDefault | AtConfig (i : nat) | PolicyOf (p : path).

Inductive toolset_error :=
| NotDecoded (kind : string)
| UnknownKey (kind : string) (p : path) (key : string)
| ExtraInput (p : path) (key name : string)        (* a [ConfigError] *)
| TypeNotString (p : path)
| TypeNeedsName (p : path)
| NameMustBe (p : path) (typ : string)             (* a [ConfigError] *)
| TypeNotName (p : path) (typ name : string) (is_config_error : bool)
| UnknownPolicy (kind s : string)
| EntryNotObject | NotAnObject (p : path) | ConfigsNotArray | NameRequired (p : path)
| MustNotBeNull (p : path) (field : string) | NotBoolean (p : path) | Conflicting.

Definition policyType (kind s : string) : result toolset_error string :=
  if mem_string s [PolicyAlwaysAllow; PolicyAlwaysAsk] then Ok s else Err (UnknownPolicy kind s).

(** ** The typed reading *)

(** A [permission_policy] is its type; a pointer to one is nil or set. *)
Definition dec_policy (cur : option string) (v : json) : option (option string) :=
  match v with
  | JNull => Some None
  | JObject ms => Some <$> decode_field dec_string "type" (default EmptyString cur) ms
  | _ => None
  end.

Record setting := MkSetting { st_enabled : option bool; st_policy : option string }.
Definition unset : setting := MkSetting None None.

Definition dec_setting (cur : setting) (v : json) : option setting :=
  match v with
  | JNull => Some cur
  | JObject ms =>
      en ← decode_field dec_bool_ptr "enabled" (st_enabled cur) ms;
      pol ← decode_field dec_policy "permission_policy" (st_policy cur) ms;
      Some (MkSetting en pol)
  | _ => None
  end.

Definition dec_default (cur : option setting) (v : json) : option (option setting) :=
  match v with JNull => Some None | _ => Some <$> dec_setting (default unset cur) v end.

Record config := MkConfig { c_name : string; c_setting : setting }.
Definition zero_config : config := MkConfig EmptyString unset.

Definition dec_config (cur : config) (v : json) : option config :=
  match v with
  | JNull => Some cur
  | JObject ms =>
      name ← decode_field dec_string "name" (c_name cur) ms;
      s ← dec_setting (c_setting cur) v;
      Some (MkConfig name s)
  | _ => None
  end.

(** A slice with the elements its array still holds past its length: a second array is
    decoded over them. *)
Record slice := MkSlice { sl_back : list config; sl_len : nat }.

Fixpoint dec_items (back : list config) (items : list json) : option (list config) :=
  match items with
  | [] => Some back
  | item :: items' =>
      c ← dec_config (match back with c :: _ => c | [] => zero_config end) item;
      rest ← dec_items (tail back) items';
      Some (c :: rest)
  end.

Definition dec_configs (cur : slice) (v : json) : option slice :=
  match v with
  | JNull | JArray [] => Some (MkSlice [] 0)
  | JArray items => back ← dec_items (sl_back cur) items; Some (MkSlice back (length items))
  | _ => None
  end.

Record entry := MkEntry { e_default : option setting; e_configs : list config }.

Definition dec_entry (raw : json) : option entry :=
  d ← body_field dec_default None (Some raw) "default_config";
  cs ← body_field dec_configs (MkSlice [] 0) (Some raw) "configs";
  Some (MkEntry d (take (sl_len cs) (sl_back cs))).

(** The later setting wins where it says something. *)
Definition over (o s : setting) : setting :=
  MkSetting (match st_enabled s with None => st_enabled o | e => e end) (match st_policy s with None => st_policy o | p => p end).

Definition overrides (configs : list config) : gmap string setting :=
  foldl (fun m c => <[c_name c := over (default unset (m !! c_name c)) (c_setting c)]> m) ∅ configs.

(** The toolset's own default, and one tool's resolution: none when it is off. *)
Definition default_of (e : entry) : setting := default unset (e_default e).

Definition resolve_one (kind fallback : string) (def o : setting) : result toolset_error (option string) :=
  if match st_enabled (over def o) with Some b => b | None => true end then
    match st_policy (over def o) with
    | None => Ok (Some fallback)
    | Some t => try p <- policyType kind t; Ok (Some p)
    end
  else Ok None.

(** ** The reading as a map *)

Definition jsonObject (raw : option json) : option objmap := match raw with Some (JObject ms) => Some ms | _ => None end.
Definition jsonArray (raw : option json) : list json := match raw with Some (JArray l) => l | _ => [] end.

Definition present (raw : option json) : option json := match raw with Some JNull => None | r => r end.

Definition rejectKeysOutside (kind : string) (obj : objmap) (p : path) (allowed : list string) : result toolset_error unit :=
  match Least obj allowed with Some k => Err (UnknownKey kind p k) | None => Ok tt end.

(** [builtinName] *)
Definition builtinName (raw : option json) : option string :=
  match decode_string raw with Some name => if is_builtin name then Some name else None | None => None end.

Definition webToolFields (name : string) : list string :=
  if String.eqb name "web_fetch" then ["allowed_domains"; "blocked_domains"; "max_content_tokens"]
  else if String.eqb name "web_search" then ["allowed_domains"; "blocked_domains"; "user_location"] else [].

(** A [*string] that is set. *)
Definition string_ptr (raw : option json) : option string := match raw with Some (JString s) => Some s | _ => None end.

Definition checkToolType (obj : objmap) (p : path) : result toolset_error unit :=
  match obj_get obj "type" with
  | None => Ok tt
  | Some raw =>
      match string_ptr (Some raw) with
      | None => Err (TypeNotString p)
      | Some typ =>
          match string_ptr (obj_get obj "name") with
          | None =>
              match obj_get obj "name", builtinName (Some raw) with
              | None, Some _ => Err (NameMustBe p typ)
              | _, _ => Err (TypeNeedsName p)
              end
          | Some name =>
              if String.eqb typ name then Ok tt
              else Err (TypeNotName p typ name (bool_decide (is_Some (builtinName (obj_get obj "name")))))
          end
      end
  end.

Definition rejectConfigKeys (kind : string) (obj : objmap) (p : path) (perTool : bool) : result toolset_error unit :=
  let builtinTool := perTool && String.eqb kind agentToolsetType in
  let allowed := ["enabled"; "permission_policy"] ++ (if perTool then ["name"] else []) ++ (if builtinTool then ["type"] else []) in
  match Least obj allowed with
  | Some k =>
      match builtinName (obj_get obj "name") with
      | Some name =>
          if builtinTool && negb (mem_string k (webToolFields name)) then Err (ExtraInput p k name) else Err (UnknownKey kind p k)
      | None => Err (UnknownKey kind p k)
      end
  | None =>
      try _ <- (if builtinTool then checkToolType obj p else Ok tt);
      match jsonObject (obj_get obj "permission_policy") with
      | Some pp => rejectKeysOutside kind pp (PolicyOf p) ["type"]
      | None => Ok tt
      end
  end.

Fixpoint reject_items (kind : string) (i : nat) (items : list json) : result toolset_error unit :=
  match items with
  | [] => Ok tt
  | item :: items' =>
      try _ <- (match jsonObject (Some item) with Some c => rejectConfigKeys kind c (AtConfig i) true | None => Ok tt end);
      reject_items kind (S i) items'
  end.

Definition rejectUnknownToolsetKeys (kind : string) (raw : json) : result toolset_error unit :=
  match jsonObject (Some raw) with
  | None => Ok tt
  | Some top =>
      try _ <- rejectKeysOutside kind top AtTop
                 (["type"; "configs"; "default_config"] ++ (if String.eqb kind mcpToolsetType then ["mcp_server_name"] else []));
      try _ <- (match jsonObject (obj_get top "default_config") with Some dc => rejectConfigKeys kind dc AtDefault false | None => Ok tt end);
      reject_items kind 0 (jsonArray (obj_get top "configs"))
  end.

(** ** The built-in toolset *)

(** The loop over the definitions: the enabled ones with their policies. *)
Fixpoint resolve_defs (def : setting) (ov : gmap string setting) (names : list string) : result toolset_error (list (string * string)) :=
  match names with
  | [] => Ok []
  | name :: names' =>
      try p <- resolve_one agentToolsetType DefaultAgentToolsetPolicy def (default unset (ov !! name));
      try rest <- resolve_defs def ov names';
      Ok (match p with Some p => (name, p) :: rest | None => rest end)
  end.

Definition resolveToolset (raw : json) : result toolset_error (list (string * string)) :=
  match dec_entry raw with
  | None => Err (NotDecoded agentToolsetType)
  | Some e =>
      try _ <- rejectUnknownToolsetKeys agentToolsetType raw;
      resolve_defs (default_of e) (overrides (e_configs e)) definitions
  end.

Definition Validate (raw : json) : result toolset_error unit := try _ <- resolveToolset raw; Ok tt.

(** [Resolve] but for the rendered definitions, which are static. *)
Definition Resolve (raw : json) : result toolset_error (list (string * string)) := resolveToolset raw.

Definition Policies (raw : json) : result toolset_error (gmap string string) :=
  try rs <- resolveToolset raw; Ok (list_to_map rs).

(** [ReadUsable]: the errors of the entries before the answer come back beside it. *)
Fixpoint ReadUsable (tools : list json) : bool * list toolset_error :=
  match tools with
  | [] => (false, [])
  | t :: tools' =>
      match body_field dec_string EmptyString (Some t) "type" with
      | Some typ =>
          if negb (String.eqb typ agentToolsetType) then ReadUsable tools'
          else match Policies t with
               | Err e => let '(b, es) := ReadUsable tools' in (b, e :: es)
               | Ok policies => if bool_decide (is_Some (policies !! "read")) then (true, []) else ReadUsable tools'
               end
      | None => ReadUsable tools'
      end
  end.

(** ** An MCP server's toolset *)

Record MCPTool := MkMCPTool { mt_name : string; mt_description : string; mt_schema : option json }.

(** A stored listing, as it is decoded where it is used. *)
Definition dec_tool (item : json) : option MCPTool :=
  name ← body_field dec_string EmptyString (Some item) "name";
  description ← body_field dec_string EmptyString (Some item) "description";
  schema ← body_field dec_raw None (Some item) "input_schema";
  Some (MkMCPTool name description schema).

Definition dec_listing (stored : json) : option (list MCPTool) :=
  match stored with JNull => Some [] | JArray items => mapM dec_tool items | _ => None end.

Definition named_configs (configs : list config) : list config := filter (fun c => c_name c <> EmptyString) configs.

(** The names configured, each once, in the order they first appear. *)
Fixpoint first_names (seen : list string) (names : list string) : list string :=
  match names with
  | [] => []
  | n :: names' => if mem_string n seen then first_names seen names' else n :: first_names (n :: seen) names'
  end.

Fixpoint resolve_listed (def : setting) (ov : gmap string setting) (reported : list string) (tools : list MCPTool)
  : result toolset_error (list (MCPTool * string)) :=
  match tools with
  | [] => Ok []
  | t :: tools' =>
      if String.eqb (mt_name t) EmptyString || mem_string (mt_name t) reported then resolve_listed def ov reported tools'
      else
        try p <- resolve_one mcpToolsetType DefaultMCPToolsetPolicy def (default unset (ov !! mt_name t));
        try rest <- resolve_listed def ov (mt_name t :: reported) tools';
        Ok (match p with Some p => (t, p) :: rest | None => rest end)
  end.

Definition ResolveMCP (raw : json) (tools : list MCPTool) : result toolset_error (list (MCPTool * string) * list string) :=
  match dec_entry raw with
  | None => Err (NotDecoded mcpToolsetType)
  | Some e =>
      let configs := named_configs (e_configs e) in
      try out <- resolve_listed (default_of e) (overrides configs) [] tools;
      Ok (out, filter (fun n => n ∉ map mt_name tools) (first_names [] (map c_name configs)))
  end.

Definition checkMCPConfigFields (obj : objmap) (p : path) : result toolset_error unit :=
  match find (fun field => match obj_get obj field with Some JNull => true | _ => false end) ["enabled"; "permission_policy"] with
  | Some field => Err (MustNotBeNull p field)
  | None =>
      try _ <- (match present (obj_get obj "enabled") with
                | Some raw => match decode_bool (Some raw) with Some _ => Ok tt | None => Err (NotBoolean p) end
                | None => Ok tt end);
      match present (obj_get obj "permission_policy") with
      | Some raw =>
          match jsonObject (Some raw) with
          | None => Err (NotAnObject (PolicyOf p))
          | Some pp => try _ <- policyType mcpToolsetType (default EmptyString (decode_string (obj_get pp "type"))); Ok tt
          end
      | None => Ok tt
      end
  end.

Fixpoint check_mcp_items (i : nat) (items : list json) : result toolset_error unit :=
  match items with
  | [] => Ok tt
  | item :: items' =>
      match jsonObject (Some item) with
      | None => Err (NotAnObject (AtConfig i))
      | Some c =>
          if String.eqb (default EmptyString (decode_string (obj_get c "name"))) EmptyString then Err (NameRequired (AtConfig i))
          else try _ <- checkMCPConfigFields c (AtConfig i); check_mcp_items (S i) items'
      end
  end.

Definition ValidateMCPToolset (raw : json) : result toolset_error unit :=
  match jsonObject (Some raw) with
  | None => Err EntryNotObject
  | Some top =>
      try _ <- rejectUnknownToolsetKeys mcpToolsetType raw;
      try _ <- (match present (obj_get top "default_config") with
                | None => Ok tt
                | Some dc => match jsonObject (Some dc) with
                             | None => Err (NotAnObject AtDefault)
                             | Some obj => checkMCPConfigFields obj AtDefault
                             end
                end);
      try _ <- (match present (obj_get top "configs") with
                | None => Ok tt
                | Some (JArray items) => check_mcp_items 0 items
                | Some _ => Err ConfigsNotArray
                end);
      match dec_entry raw with None => Err Conflicting | Some _ => Ok tt end
  end.

(** ** The entry as a response shows it *)

Definition policy_json (p : string) : json := JObject [("type", JString p)].

Definition resolveDefaultConfig (raw : option json) (fallback : string) : json * json :=
  match jsonObject raw with
  | None => (JBool true, policy_json fallback)
  | Some obj => (default (JBool true) (present (obj_get obj "enabled")), default (policy_json fallback) (present (obj_get obj "permission_policy")))
  end.

Definition configurable (kind name : string) : bool :=
  negb (String.eqb name EmptyString) && (negb (String.eqb kind agentToolsetType) || is_builtin name).

(** What the entries of one name say together. *)
Record merged := MkMerged { m_name : json; m_enabled : option json; m_policy : option json }.

Inductive slot := Verbatim (item : json) | Merged (name : string).

(** One element of [configs]: echoed as it is, or merged into its name's bucket. *)
Definition materialize_item (kind : string) (st : list slot * gmap string merged) (item : json) : list slot * gmap string merged :=
  match jsonObject (Some item) with
  | None => (st.1 ++ [Verbatim item], st.2)
  | Some obj =>
      let name := default EmptyString (decode_string (obj_get obj "name")) in
      if negb (configurable kind name) then (st.1 ++ [Verbatim item], st.2)
      else
        let m := default (MkMerged (default JNull (obj_get obj "name")) None None) (st.2 !! name) in
        let later o cur := match present o with None => cur | v => v end in
        (st.1 ++ (match st.2 !! name with None => [Merged name] | Some _ => [] end),
         <[name := MkMerged (m_name m) (later (obj_get obj "enabled") (m_enabled m)) (later (obj_get obj "permission_policy") (m_policy m))]> st.2)
  end.

Definition render_slot (kind : string) (defEnabled defPolicy : json) (byName : gmap string merged) (s : slot) : json :=
  match s with
  | Verbatim item => item
  | Merged name =>
      match byName !! name with
      | None => JNull
      | Some m =>
          JObject ([("enabled", default defEnabled (m_enabled m)); ("name", m_name m); ("permission_policy", default defPolicy (m_policy m))] ++
                   (if String.eqb kind agentToolsetType then [("type", m_name m)] else []))
      end
  end.

Definition materializeConfigs (kind : string) (raw : option json) (defEnabled defPolicy : json) : json :=
  let '(slots, byName) := foldl (materialize_item kind) ([], ∅) (jsonArray raw) in
  JArray (map (render_slot kind defEnabled defPolicy byName) slots).

(** A member set in the map. *)
Definition obj_set (ms : objmap) (k : string) (v : json) : objmap := filter (fun kv => kv.1 <> k) ms ++ [(k, v)].

Definition Materialize (raw : json) : json :=
  match jsonObject (Some raw) with
  | None => raw
  | Some top =>
      match decode_string (obj_get top "type") with
      | None => raw
      | Some kind =>
          if mem_string kind [agentToolsetType; mcpToolsetType] then
            let fallback := if String.eqb kind agentToolsetType then DefaultAgentToolsetPolicy else DefaultMCPToolsetPolicy in
            let '(en, pol) := resolveDefaultConfig (obj_get top "default_config") fallback in
            marshal_map (obj_set (obj_set top "default_config" (JObject [("enabled", en); ("permission_policy", pol)]))
                           "configs" (materializeConfigs kind (obj_get top "configs") en pol))
          else raw
      end
  end.

Definition MaterializeTools (tools : list json) : list json := map Materialize tools.
