(* ===== verification/ToolsetSpec.v ===== *)
(** * ToolsetSpec: an entry with no repeated key resolves as its map reads (Toolset.v) *)
From Stdlib Require Import Lia.
From S2P Require Import Prelude GoStrings Json Domain Consumption Inbound InboundSpec Turn Toolset.

(** ** Documents with no repeated key, as a jsonb column holds them *)

Fixpoint unique_keys (v : json) : bool :=
  match v with
  | JArray items => forallb unique_keys items
  | JObject ms => bool_decide (NoDup ms.*1) && forallb (fun kv => unique_keys kv.2) ms
  | _ => true
  end.

Lemma unique_object ms : unique_keys (JObject ms) = true -> NoDup ms.*1 /\ Forall (fun kv => unique_keys kv.2 = true) ms.
Proof. cbn. rewrite andb_true_iff, forallb_forall, bool_decide_eq_true, Forall_forall. intros [? H]. split; [done|]. intros x Hx. apply H. by apply list_elem_of_In. Qed.

Lemma unique_member ms k v : unique_keys (JObject ms) = true -> obj_get ms k = Some v -> unique_keys v = true.
Proof. intros [_ H]%unique_object E. rewrite Forall_forall in H. exact (H _ (obj_get_In _ _ _ E)). Qed.

Lemma unique_item l v : unique_keys (JArray l) = true -> v ∈ l -> unique_keys v = true.
Proof. cbn. rewrite forallb_forall. intros H Hv. apply H. by apply list_elem_of_In. Qed.

Lemma jsonObject_Some raw ms : jsonObject raw = Some ms <-> raw = Some (JObject ms).
Proof. destruct raw as [[]|]; cbn; naive_solver. Qed.

(** No two of the names are spelled alike but for case. *)
Definition apart (allowed : list string) : bool :=
  forallb (fun k => forallb (fun f => implb (key_matches k f) (String.eqb k f)) allowed) allowed.

Lemma apart_exact allowed k f : apart allowed = true -> k ∈ allowed -> f ∈ allowed -> key_matches k f = true -> k = f.
Proof.
  unfold apart. rewrite forallb_forall. intros H Hk Hf Hm. specialize (H k ltac:(by apply list_elem_of_In)). cbn in H.
  rewrite forallb_forall in H. specialize (H f ltac:(by apply list_elem_of_In)). rewrite Hm in H. by apply String.eqb_eq.
Qed.

Lemma key_matches_refl f : key_matches f f = true.
Proof. unfold key_matches. by rewrite String.eqb_refl. Qed.

Lemma member_in x l : mem_string x l = true -> x ∈ l.
Proof. unfold mem_string. intros (y & Hy & <-%String.eqb_eq)%existsb_exists. by apply list_elem_of_In. Qed.

Section exact.
Context {A : Type} (dec : A -> json -> option A).

Lemma decode_field_absent f cur ms : (forall k, k ∈ ms.*1 -> key_matches k f = false) -> decode_field dec f cur ms = Some cur.
Proof.
  induction ms as [|[k v] ms IH]; cbn; intros H; [done|]. rewrite (H k) by left. apply IH. intros k' Hk. apply H. by right.
Qed.

(** A field read by its exact key. *)
Lemma decode_field_exact f cur ms :
  NoDup ms.*1 -> (forall k, k ∈ ms.*1 -> key_matches k f = true -> k = f) ->
  decode_field dec f cur ms = match obj_get ms f with None => Some cur | Some v => dec cur v end.
Proof.
  induction ms as [|[k v] ms IH]; cbn; intros Hnd H; [done|]. apply NoDup_cons in Hnd as [Hk Hnd].
  destruct (key_matches k f) eqn:E.
  - assert (k = f) as -> by (apply H; [left|done]).
    assert (Hno : obj_get ms f = None) by (by apply obj_get_None).
    rewrite Hno, String.eqb_refl. destruct (dec cur v); [|done]. apply decode_field_absent. intros k' Hk'.
    destruct (key_matches k' f) eqn:E'; [|done]. exfalso. apply Hk. rewrite <- (H k'); [done|by right|done].
  - rewrite IH by first [done | intros; apply H; [by right|done]].
    destruct (obj_get ms f); [done|]. destruct (String.eqb_spec k f) as [->|]; [|done]. by rewrite key_matches_refl in E.
Qed.

Lemma decode_field_least allowed f cur ms :
  Least ms allowed = None -> NoDup ms.*1 -> apart allowed && mem_string f allowed = true ->
  decode_field dec f cur ms = match obj_get ms f with None => Some cur | Some v => dec cur v end.
Proof.
  intros Hl Hnd [Ha Hf%member_in]%andb_true_iff. apply decode_field_exact; [done|]. intros k Hk.
  rewrite Least_None in Hl. apply (apart_exact allowed); auto.
Qed.
End exact.

(** ** The map reading *)

Definition policy_of (raw : option json) : option string :=
  match raw with
  | Some (JObject pp) => Some (match obj_get pp "type" with Some (JString s) => s | _ => EmptyString end)
  | _ => None
  end.

Definition setting_of (obj : objmap) : setting :=
  MkSetting (match obj_get obj "enabled" with Some (JBool b) => Some b | _ => None end) (policy_of (obj_get obj "permission_policy")).

(** What the default and the entries under a name say together, the later over the earlier. *)
Definition default_setting (top : objmap) : setting :=
  match jsonObject (obj_get top "default_config") with Some dc => setting_of dc | None => unset end.

Definition item_name (obj : objmap) : string := default EmptyString (decode_string (obj_get obj "name")).

Definition item_setting (name : string) (item : json) : option setting :=
  match jsonObject (Some item) with
  | Some obj => if String.eqb (item_name obj) name then Some (setting_of obj) else None
  | None => None
  end.

Definition effective (top : objmap) (name : string) : setting :=
  foldl over (default_setting top) (omap (item_setting name) (jsonArray (obj_get top "configs"))).

Definition on (s : setting) : bool := match st_enabled s with Some b => b | None => true end.

Lemma over_assoc a b c : over (over a b) c = over a (over b c).
Proof. destruct a as [[]?], b as [[][]], c as [[][]]; done. Qed.

Lemma over_unset a : over a unset = a /\ over unset a = a.
Proof. by destruct a as [[][]]. Qed.

Lemma fold_over a l : foldl over a l = over a (foldl over unset l).
Proof.
  revert a. induction l as [|x l IH]; intros a; cbn; [by rewrite (proj1 (over_unset a))|].
  rewrite IH, (IH (over unset x)), (proj2 (over_unset x)). apply over_assoc.
Qed.

(** The overrides of a name, gathered. *)
Definition settings_under (name : string) (cs : list config) : list setting :=
  omap (fun c => if String.eqb (c_name c) name then Some (c_setting c) else None) cs.

Lemma overrides_lookup cs name : default unset (overrides cs !! name) = foldl over unset (settings_under name cs).
Proof.
  unfold overrides. transitivity (foldl over (default unset ((∅ : gmap string setting) !! name)) (settings_under name cs));
    [|by rewrite lookup_empty].
  generalize (∅ : gmap string setting). induction cs as [|c cs IH]; intros m; cbn; [done|]. rewrite IH.
  destruct (String.eqb_spec (c_name c) name) as [->|Hne]; cbn.
  - by rewrite lookup_insert_eq.
  - by rewrite lookup_insert_ne.
Qed.

(** ** The typed reading is the map reading *)

Definition config_keys (obj : objmap) : Prop :=
  Least obj ["enabled"; "permission_policy"; "name"; "type"] = None /\
  forall pp, jsonObject (obj_get obj "permission_policy") = Some pp -> Least pp ["type"] = None.

Lemma Least_weaken obj a b : (forall k, k ∈ a -> k ∈ b) -> Least obj a = None -> Least obj b = None.
Proof. rewrite !Least_None. intros H Ha k Hk. by apply H, Ha. Qed.

Lemma rejectConfigKeys_Ok kind obj p perTool : rejectConfigKeys kind obj p perTool = Ok tt ->
  config_keys obj /\ (perTool && String.eqb kind agentToolsetType = true -> checkToolType obj p = Ok tt).
Proof.
  unfold rejectConfigKeys. intros H. cbv zeta in H. set (b := perTool && String.eqb kind agentToolsetType) in *.
  destruct (Least obj _) as [k|] eqn:E.
  { exfalso. destruct (builtinName _); [|done]. by destruct (b && _). }
  apply bind_ok in H as ([] & Ht & Hp). split; [split|].
  - revert E. apply Least_weaken. intros k Hk. repeat (rewrite elem_of_app in Hk || rewrite elem_of_cons in Hk || rewrite elem_of_cons).
    destruct perTool, b; rewrite ?elem_of_cons in Hk; set_solver.
  - intros pp Hpp. rewrite Hpp in Hp. unfold rejectKeysOutside in Hp. by destruct (Least pp _).
  - intros Hb. by rewrite Hb in Ht.
Qed.

Lemma reject_items_Ok kind items : forall i, reject_items kind i items = Ok tt ->
  forall item obj, item ∈ items -> jsonObject (Some item) = Some obj ->
  config_keys obj /\ (String.eqb kind agentToolsetType = true -> exists p, checkToolType obj p = Ok tt).
Proof.
  induction items as [|x items IH]; intros i H item obj Hin Ho; [by apply not_elem_of_nil in Hin|].
  cbn [reject_items] in H. apply bind_ok in H as ([] & Hx & Hrest). apply elem_of_cons in Hin as [->|Hin]; [|by eapply IH].
  rewrite Ho in Hx. apply rejectConfigKeys_Ok in Hx as [Hk Ht]. split; [done|]. intros Hkind. exists (AtConfig i). by apply Ht.
Qed.

(** What a toolset whose keys are all known has: known keys everywhere. *)
Definition known_keys (kind : string) (top : objmap) : Prop :=
  Least top ["type"; "configs"; "default_config"; "mcp_server_name"] = None /\
  (forall dc, jsonObject (obj_get top "default_config") = Some dc -> config_keys dc) /\
  (forall item obj, item ∈ jsonArray (obj_get top "configs") -> jsonObject (Some item) = Some obj ->
     config_keys obj /\ (String.eqb kind agentToolsetType = true -> exists p, checkToolType obj p = Ok tt)).

Lemma rejectUnknownToolsetKeys_Ok kind top : rejectUnknownToolsetKeys kind (JObject top) = Ok tt -> known_keys kind top.
Proof.
  unfold rejectUnknownToolsetKeys. cbn [jsonObject]. intros ([] & H1 & ([] & H2 & H3)%bind_ok)%bind_ok. split; [|split].
  - unfold rejectKeysOutside in H1. destruct (Least top _) eqn:E; [done|]. revert E. apply Least_weaken.
    intros k. rewrite elem_of_app. destruct (String.eqb kind mcpToolsetType); set_solver.
  - intros dc Hdc. rewrite Hdc in H2. by apply rejectConfigKeys_Ok in H2 as [? _].
  - by eapply reject_items_Ok.
Qed.

Lemma dec_setting_exact obj s :
  unique_keys (JObject obj) = true -> config_keys obj -> dec_setting unset (JObject obj) = Some s -> s = setting_of obj.
Proof.
  intros Hu [Hk Hpp] H. destruct (unique_object _ Hu) as [Hnd _]. unfold dec_setting in H.
  rewrite !(fun dec f cur => decode_field_least dec _ f cur _ Hk Hnd) in H by reflexivity. cbn in H.
  unfold setting_of, policy_of. destruct (obj_get obj "enabled") as [[]|]; cbn in H; try done;
    (destruct (obj_get obj "permission_policy") as [[| | | | |pp]|] eqn:Ep; cbn in H; try done; try congruence);
    (specialize (Hpp pp eq_refl); destruct (unique_object _ (unique_member _ _ _ Hu Ep)) as [Hndp _];
     rewrite (decode_field_least _ _ _ _ _ Hpp Hndp) in H by reflexivity;
     destruct (obj_get pp "type") as [[]|]; cbn in H; by simplify_eq).
Qed.

(** How an element of [configs] is read. *)
Definition item_config (item : json) : config :=
  match jsonObject (Some item) with Some obj => MkConfig (item_name obj) (setting_of obj) | None => zero_config end.

Lemma dec_config_exact item c :
  unique_keys item = true -> (forall obj, jsonObject (Some item) = Some obj -> config_keys obj) ->
  dec_config zero_config item = Some c -> c = item_config item.
Proof.
  intros Hu Hk H. unfold item_config. destruct item as [| | | | |obj]; try done; [by injection H as <-|].
  specialize (Hk obj eq_refl). cbn [jsonObject dec_config] in *. destruct (unique_object _ Hu) as [Hnd _].
  rewrite (decode_field_least _ _ _ _ _ (proj1 Hk) Hnd) in H by reflexivity.
  unfold item_name.
  destruct (dec_setting (c_setting zero_config) (JObject obj)) as [s|] eqn:Es; [apply dec_setting_exact in Es; [subst s|done|done]|];
    destruct (obj_get obj "name") as [[]|]; cbn in H; by simplify_eq.
Qed.

Lemma dec_items_exact items cs :
  (forall item, item ∈ items -> unique_keys item = true) ->
  (forall item obj, item ∈ items -> jsonObject (Some item) = Some obj -> config_keys obj) ->
  dec_items [] items = Some cs -> cs = map item_config items.
Proof.
  revert cs. induction items as [|x items IH]; intros cs Hu Hk H; cbn in H; [by injection H as <-|].
  destruct (dec_config zero_config x) as [c|] eqn:Ex; [|done]. destruct (dec_items [] items) as [r|] eqn:Er; [|done].
  cbn in H. injection H as <-. cbn. f_equal.
  - apply dec_config_exact; [apply Hu; left|intros; eapply Hk; [left|done]|done].
  - apply IH; [intros; apply Hu; by right|intros; eapply Hk; [by right|done]|done].
Qed.

Lemma dec_entry_exact kind top e :
  unique_keys (JObject top) = true -> known_keys kind top -> dec_entry (JObject top) = Some e ->
  default_of e = default_setting top /\ e_configs e = map item_config (jsonArray (obj_get top "configs")).
Proof.
  intros Hu (Hk & Hd & Hc) H. destruct (unique_object _ Hu) as [Hnd _]. unfold dec_entry, body_field in H.
  rewrite !(fun dec f cur => decode_field_least dec _ f cur _ Hk Hnd) in H by reflexivity.
  destruct (match obj_get top "default_config" with Some v => dec_default None v | None => _ end) as [d|] eqn:Ed; [|done].
  destruct (match obj_get top "configs" with Some v => dec_configs _ v | None => _ end) as [cs|] eqn:Ec; [|done].
  cbn in H. injection H as <-. unfold default_of. cbn [e_default e_configs]. split.
  - unfold default_setting. destruct (obj_get top "default_config") as [v|] eqn:Ev; [|by injection Ed as <-].
    destruct v as [| | | | |dc]; try done; [by injection Ed as <-|]. cbn [jsonObject]. cbn [dec_default default] in Ed.
    destruct (dec_setting unset (JObject dc)) as [s|] eqn:Es; [|done]. cbn in Ed. injection Ed as <-. cbn.
    apply dec_setting_exact; [by eapply unique_member|by apply Hd|done].
  - destruct (obj_get top "configs") as [v|] eqn:Ev; [|by injection Ec as <-].
    destruct v as [| | | |items|]; try done; [by injection Ec as <-|]. cbn [jsonArray].
    destruct items as [|x items]; [by injection Ec as <-|]. cbn [dec_configs sl_back] in Ec.
    destruct (dec_items [] (x :: items)) as [back|] eqn:Eb; [|done]. cbn in Ec. injection Ec as <-. cbn [sl_back sl_len].
    apply dec_items_exact in Eb as ->; [|intros; eapply unique_item; [by eapply unique_member|done]|intros; by eapply Hc].
    by rewrite take_ge by by rewrite length_map.
Qed.

(** Every name but the empty one resolves as the map reads it. *)
Lemma effective_lookup kind top e name :
  unique_keys (JObject top) = true -> known_keys kind top -> dec_entry (JObject top) = Some e -> name <> EmptyString ->
  over (default_of e) (default unset (overrides (e_configs e) !! name)) = effective top name.
Proof.
  intros Hu Hk H Hn. destruct (dec_entry_exact _ _ _ Hu Hk H) as [-> ->]. rewrite overrides_lookup, <- fold_over. unfold effective.
  f_equal. unfold settings_under. induction (jsonArray (obj_get top "configs")) as [|x l IH]; [done|]. cbn [map omap list_omap].
  rewrite IH. assert (E : item_setting name x = if String.eqb (c_name (item_config x)) name then Some (c_setting (item_config x)) else None).
  { unfold item_setting, item_config. destruct (jsonObject (Some x)); [done|]. by destruct name. }
  by rewrite E.
Qed.

(** ** The built-in toolset *)

Definition valid_policy (p : string) : Prop := p ∈ [PolicyAlwaysAllow; PolicyAlwaysAsk].

(** What a tool resolves to, as the map reads it. *)
Definition resolves (fallback : string) (s : setting) : option string :=
  if on s then Some (default fallback (st_policy s)) else None.

Definition builtins_of (top : objmap) : list (string * string) :=
  omap (fun n => p ← resolves DefaultAgentToolsetPolicy (effective top n); Some (n, p)) definitions.

Lemma policyType_Ok kind s p : policyType kind s = Ok p <-> p = s /\ valid_policy s.
Proof.
  unfold policyType, valid_policy. destruct (mem_string s _) eqn:E.
  - apply member_in in E. naive_solver.
  - split; [done|]. intros [_ H]. apply (elem_of_list_In) in H || apply list_elem_of_In in H.
    assert (mem_string s [PolicyAlwaysAllow; PolicyAlwaysAsk] = true); [|congruence].
    unfold mem_string. apply existsb_exists. exists s. split; [done|apply String.eqb_refl].
Qed.

Lemma resolve_one_Ok kind fallback def o p :
  resolve_one kind fallback def o = Ok p -> p = resolves fallback (over def o) /\ forall t, p = Some t -> st_policy (over def o) = None /\ t = fallback \/ valid_policy t.
Proof.
  unfold resolve_one, resolves, on. destruct (match st_enabled (over def o) with Some b => b | None => true end); [|naive_solver].
  destruct (st_policy (over def o)) as [t|]; [|naive_solver]. intros (q & [-> Hv]%policyType_Ok & [= <-])%bind_ok. split; [done|]. intros ? [= <-]. by right.
Qed.

Lemma resolve_defs_Ok def ov names rs :
  resolve_defs def ov names = Ok rs ->
  rs = omap (fun n => p ← resolves DefaultAgentToolsetPolicy (over def (default unset (ov !! n))); Some (n, p)) names /\
  forall n p, (n, p) ∈ rs -> valid_policy p.
Proof.
  revert rs. induction names as [|n names IH]; intros rs H; cbn in H; [injection H as <-; split; [done|]; intros ? ? ?%not_elem_of_nil; done|].
  apply bind_ok in H as (p & [-> Hp]%resolve_one_Ok & (rest & Hr & Hrs)%bind_ok). destruct (IH _ Hr) as [-> Hv]. cbn.
  destruct (resolves _ _) as [t|]; injection Hrs as <-; cbn; (split; [done|]); [|done].
  intros m q [[= -> ->]|Hin]%elem_of_cons; [|by eapply Hv]. destruct (Hp t eq_refl) as [[_ ->]|]; [left|done].
Qed.

Definition members_of (raw : json) : objmap := default [] (jsonObject (Some raw)).

Lemma dec_entry_shape raw e : dec_entry raw = Some e -> raw = JNull \/ exists top, raw = JObject top.
Proof. destruct raw; cbn; try done; eauto. Qed.

Lemma resolveToolset_Ok raw rs :
  unique_keys raw = true -> resolveToolset raw = Ok rs ->
  rs = builtins_of (members_of raw) /\ forall n p, (n, p) ∈ rs -> valid_policy p.
Proof.
  unfold resolveToolset. intros Hu H. destruct (dec_entry raw) as [e|] eqn:Ee; [|done]. apply bind_ok in H as ([] & Hr & [-> Hv]%resolve_defs_Ok).
  split; [|done]. destruct (dec_entry_shape _ _ Ee) as [->|[top ->]]; [by injection Ee as <-|].
  unfold builtins_of, members_of. cbn [jsonObject default]. apply rejectUnknownToolsetKeys_Ok in Hr.
  assert (Hn : Forall (fun n => n <> EmptyString) definitions) by by repeat constructor.
  revert Hn. generalize definitions. intros names Hn. induction Hn as [|n names Hne _ IH]; [done|]. cbn.
  by rewrite (effective_lookup agentToolsetType top e) by done; rewrite IH.
Qed.

(** ** An MCP toolset *)

(** The listing's usable tools, each name's first. *)
Fixpoint listed_once (seen : list string) (tools : list MCPTool) : list MCPTool :=
  match tools with
  | [] => []
  | t :: tools' =>
      if String.eqb (mt_name t) EmptyString || mem_string (mt_name t) seen then listed_once seen tools'
      else t :: listed_once (mt_name t :: seen) tools'
  end.

Definition mcp_tools_of (top : objmap) (listing : list MCPTool) : list (MCPTool * string) :=
  omap (fun t => p ← resolves DefaultMCPToolsetPolicy (effective top (mt_name t)); Some (t, p)) (listed_once [] listing).

Definition configured (top : objmap) : list string :=
  omap (fun item => item_name <$> jsonObject (Some item)) (jsonArray (obj_get top "configs")).

Definition policy_ok (s : setting) : Prop := match st_policy s with Some t => valid_policy t | None => True end.

Lemma over_ok a b : policy_ok a -> policy_ok b -> policy_ok (over a b).
Proof. unfold policy_ok, over. cbn. by destruct (st_policy b). Qed.

Lemma checkMCPConfigFields_Ok obj p : checkMCPConfigFields obj p = Ok tt -> policy_ok (setting_of obj).
Proof.
  unfold checkMCPConfigFields, policy_ok, setting_of, policy_of. cbn [st_policy].
  destruct (find _ _); [done|]. intros ([] & _ & H)%bind_ok. destruct (obj_get obj "permission_policy") as [[| | | | |pp]|]; cbn in H; try done.
  apply bind_ok in H as (t & [-> Hv]%policyType_Ok & _). by destruct (obj_get pp "type") as [[]|].
Qed.

Lemma check_mcp_items_Ok items : forall i, check_mcp_items i items = Ok tt ->
  forall item, item ∈ items -> exists obj, item = JObject obj /\ item_name obj <> EmptyString /\ policy_ok (setting_of obj).
Proof.
  induction items as [|x items IH]; intros i H item Hin; [by apply not_elem_of_nil in Hin|]. cbn [check_mcp_items] in H.
  destruct (jsonObject (Some x)) as [obj|] eqn:Ex; [|done]. apply jsonObject_Some in Ex as [= ->].
  destruct (String.eqb_spec (default EmptyString (decode_string (obj_get obj "name"))) EmptyString) as [|Hn]; [done|].
  apply bind_ok in H as ([] & Hc & Hr). apply elem_of_cons in Hin as [->|Hin]; [|by eapply IH].
  exists obj. split; [done|]. split; [exact Hn|by eapply checkMCPConfigFields_Ok].
Qed.

Lemma ValidateMCPToolset_Ok raw : ValidateMCPToolset raw = Ok tt -> exists top e, raw = JObject top /\ known_keys mcpToolsetType top /\
  dec_entry raw = Some e /\ policy_ok (default_setting top) /\
  forall item, item ∈ jsonArray (obj_get top "configs") -> exists obj, item = JObject obj /\ item_name obj <> EmptyString /\ policy_ok (setting_of obj).
Proof.
  unfold ValidateMCPToolset. destruct (jsonObject (Some raw)) as [top|] eqn:Et; [|done]. apply jsonObject_Some in Et as [= ->].
  intros ([] & Hk%rejectUnknownToolsetKeys_Ok & ([] & Hd & ([] & Hc & He)%bind_ok)%bind_ok)%bind_ok.
  destruct (dec_entry (JObject top)) as [e|] eqn:Ee; [|done]. exists top, e. split; [done|]. split; [done|]. split; [done|]. split.
  - unfold default_setting. destruct (obj_get top "default_config") as [[| | | | |dc]|]; cbn in Hd; try done. by eapply checkMCPConfigFields_Ok.
  - destruct (obj_get top "configs") as [[| | | |items|]|]; cbn in Hc |- *; try done; try (intros ? ?%not_elem_of_nil; done). by eapply check_mcp_items_Ok.
Qed.

Lemma effective_ok top name :
  policy_ok (default_setting top) ->
  (forall item, item ∈ jsonArray (obj_get top "configs") -> exists obj, item = JObject obj /\ item_name obj <> EmptyString /\ policy_ok (setting_of obj)) ->
  policy_ok (effective top name).
Proof.
  unfold effective. generalize (default_setting top). induction (jsonArray (obj_get top "configs")) as [|x l IH]; intros s Hs Hl; [done|].
  cbn. destruct (Hl x ltac:(left)) as (obj & -> & _ & Ho). cbn [item_setting jsonObject].
  destruct (String.eqb (item_name obj) name); cbn; (apply IH; [|intros; apply Hl; by right]); [by apply over_ok|done].
Qed.

Lemma resolve_one_valid kind fallback def o :
  policy_ok (over def o) -> resolve_one kind fallback def o = Ok (resolves fallback (over def o)).
Proof.
  unfold resolve_one, resolves, policy_ok, on. intros H. destruct (match st_enabled (over def o) with Some b => b | None => true end); [|done].
  destruct (st_policy (over def o)) as [t|]; [|done]. by rewrite (proj2 (policyType_Ok kind t t) (conj eq_refl H)).
Qed.

Lemma resolve_listed_valid def ov eff tools : forall seen,
  (forall n, n <> EmptyString -> over def (default unset (ov !! n)) = eff n /\ policy_ok (eff n)) ->
  resolve_listed def ov seen tools =
  Ok (omap (fun t => p ← resolves DefaultMCPToolsetPolicy (eff (mt_name t)); Some (t, p)) (listed_once seen tools)).
Proof.
  induction tools as [|t tools IH]; intros seen H; [done|]. cbn [resolve_listed listed_once].
  destruct (String.eqb_spec (mt_name t) EmptyString) as [|Hn]; cbn [orb]; [by apply IH|].
  destruct (mem_string (mt_name t) seen); [by apply IH|]. destruct (H _ Hn) as [E Hok].
  rewrite resolve_one_valid by by rewrite E. rewrite IH, E by done. cbn. by destruct (resolves _ _).
Qed.

Lemma named_all cs : (forall c, c ∈ cs -> c_name c <> EmptyString) -> named_configs cs = cs.
Proof. intros H. unfold named_configs. apply filter_all_true. by apply Forall_forall. Qed.

Lemma configured_names items :
  (forall item, item ∈ items -> exists obj, item = JObject obj /\ item_name obj <> EmptyString /\ policy_ok (setting_of obj)) ->
  map c_name (map item_config items) = omap (fun item => item_name <$> jsonObject (Some item)) items.
Proof.
  induction items as [|x items IH]; intros H; [done|]. destruct (H x ltac:(left)) as (obj & -> & _).
  cbn. f_equal. apply IH. intros. apply H. by right.
Qed.

Definition items_named (top : objmap) : Prop :=
  forall item, item ∈ jsonArray (obj_get top "configs") -> exists obj, item = JObject obj /\ item_name obj <> EmptyString /\ policy_ok (setting_of obj).

Lemma ResolveMCP_valid top e listing :
  unique_keys (JObject top) = true -> known_keys mcpToolsetType top -> dec_entry (JObject top) = Some e ->
  policy_ok (default_setting top) -> items_named top ->
  ResolveMCP (JObject top) listing =
  Ok (mcp_tools_of top listing, filter (fun n => n ∉ map mt_name listing) (first_names [] (configured top))).
Proof.
  intros Hu Hk He Hd Hitems. unfold ResolveMCP. rewrite He. destruct (dec_entry_exact _ _ _ Hu Hk He) as [Hdef Hcs]. rewrite named_all.
  - rewrite (resolve_listed_valid _ _ (effective top)).
    + rewrite Hcs. unfold configured. by rewrite configured_names.
    + intros n Hn. split; [by eapply effective_lookup|by apply effective_ok].
  - rewrite Hcs. intros c (item & -> & Hin)%list_elem_of_fmap. destruct (Hitems _ Hin) as (obj & -> & ? & _). done.
Qed.

(** A stored [mcp_toolset] entry the API accepts always resolves against a listing, whatever
    the server lists: each name's first listed tool, in the listing's order, is offered unless
    the entry turns it off, under the policy the entry's own keys give it and
    [always_ask] where they give none; the names it configures and the server does not list
    are told apart. *)
Theorem ResolveMCP_reads_map (top : objmap) (listing : list MCPTool)
    (Hu : unique_keys (JObject top) = true) (H : ValidateMCPToolset (JObject top) = Ok tt) :
  ResolveMCP (JObject top) listing =
  Ok (mcp_tools_of top listing, filter (fun n => n ∉ map mt_name listing) (first_names [] (configured top))).
Proof.
  apply ValidateMCPToolset_Ok in H as (top' & e & [= <-] & Hk & He & Hd & Hitems). by eapply ResolveMCP_valid.
Qed.

(** ** A concrete entry *)

Definition d_mcp_entry : json :=
  JObject [("type", JString mcpToolsetType); ("mcp_server_name", JString "docs");
           ("default_config", JObject [("enabled", JBool false)]);
           ("configs", JArray [
              JObject [("name", JString "search"); ("enabled", JBool true); ("permission_policy", JObject [("type", JString "always_allow")])];
              JObject [("name", JString "delete"); ("enabled", JBool true)]; JObject [("name", JString "gone")]])].

Definition d_listing : list MCPTool :=
  map (fun n => MkMCPTool n "a tool" None) ["delete"; "search"; "read"; "delete"].

Lemma ResolveMCP_reads_map_witness :
  (fun r => match r with Ok (out, unknown) => Ok (map (fun tp => (mt_name tp.1, tp.2)) out, unknown) | Err e => Err e end)
    (ResolveMCP d_mcp_entry d_listing) = Ok ([("delete", "always_ask"); ("search", "always_allow")], ["gone"]).
Proof.
  unfold d_mcp_entry. rewrite (ResolveMCP_reads_map _ d_listing); [vm_compute; reflexivity|vm_compute; reflexivity|vm_compute; reflexivity].
Defined.
