(* ===== verification/EchoSpec.v ===== *)
(** * EchoSpec: the entry a response shows is the entry that runs (Toolset.v)

    [Materialize] fills in what an entry left out.  Read back, what it renders is accepted
    where the entry was, and resolves to the same tools under the same policies. *)
From Stdlib Require Import Lia.
From S2P Require Import Prelude GoStrings Json Domain Consumption Inbound InboundSpec Turn Toolset ToolsetSpec.

(** ** What decodes *)

Definition policy_shape (raw : option json) : Prop :=
  match raw with
  | None | Some JNull => True
  | Some (JObject pp) => match obj_get pp "type" with None | Some JNull | Some (JString _) => True | _ => False end
  | _ => False
  end.

Definition enabled_shape (raw : option json) : Prop := match raw with None | Some JNull | Some (JBool _) => True | _ => False end.
Definition name_shape (raw : option json) : Prop := match raw with None | Some JNull | Some (JString _) => True | _ => False end.

(** A settings object whose values are of their types. *)
Definition shaped (obj : objmap) : Prop := enabled_shape (obj_get obj "enabled") /\ policy_shape (obj_get obj "permission_policy").

Lemma dec_setting_iff obj :
  unique_keys (JObject obj) = true -> config_keys obj -> is_Some (dec_setting unset (JObject obj)) <-> shaped obj.
Proof.
  intros Hu [Hk Hpp]. destruct (unique_object _ Hu) as [Hnd _]. unfold dec_setting, shaped, enabled_shape, policy_shape.
  rewrite !(fun dec f cur => decode_field_least dec _ f cur _ Hk Hnd) by reflexivity. cbn.
  assert (Hno : forall A, is_Some (@None A) <-> False) by (intros A; split; [by intros [? [=]]|done]).
  destruct (obj_get obj "enabled") as [[]|]; cbn; rewrite ?Hno; try tauto;
    (destruct (obj_get obj "permission_policy") as [[| | | | |pp]|] eqn:Ep; cbn; rewrite ?Hno; try tauto; try (split; [done|by eexists]));
    (specialize (Hpp pp eq_refl); destruct (unique_object _ (unique_member _ _ _ Hu Ep)) as [Hndp _];
     rewrite (decode_field_least _ _ _ _ _ Hpp Hndp) by reflexivity;
     destruct (obj_get pp "type") as [[]|]; cbn; rewrite ?Hno; try tauto; (split; [done|by eexists])).
Qed.

(** An element of [configs] that decodes. *)
Definition item_shaped (item : json) : Prop :=
  item = JNull \/ exists obj, item = JObject obj /\ name_shape (obj_get obj "name") /\ shaped obj.

Lemma dec_config_iff item :
  unique_keys item = true -> (forall obj, jsonObject (Some item) = Some obj -> config_keys obj) ->
  is_Some (dec_config zero_config item) <-> item_shaped item.
Proof.
  intros Hu Hk. unfold item_shaped. destruct item as [| | | | |obj]; cbn [dec_config];
    try (split; [by intros [? [=]]|by intros [?|(? & ? & _)]]); [split; [by left|by eexists]|].
  specialize (Hk obj eq_refl). destruct (unique_object _ Hu) as [Hnd _].
  rewrite (decode_field_least _ _ _ _ _ (proj1 Hk) Hnd) by reflexivity.
  pose proof (dec_setting_iff obj Hu Hk) as Hs. change (c_setting zero_config) with unset. unfold name_shape. split.
  - intros [c Hc]. right. exists obj. split; [done|].
    destruct (dec_setting unset (JObject obj)) as [s|]; [|by destruct (obj_get obj "name") as [[]|]].
    split; [by destruct (obj_get obj "name") as [[]|]|]. apply Hs. by eexists.
  - intros [?|(o & [= <-] & Hn & Ho)]; [done|]. apply Hs in Ho as [s ->]. destruct (obj_get obj "name") as [[]|]; try done; by eexists.
Qed.

(** A whole entry that decodes. *)
Definition entry_shaped (top : objmap) : Prop :=
  match obj_get top "default_config" with None | Some JNull => True | Some (JObject dc) => shaped dc | _ => False end /\
  match obj_get top "configs" with None | Some JNull => True | Some (JArray items) => Forall item_shaped items | _ => False end.

Lemma dec_items_iff items :
  (forall item, item ∈ items -> unique_keys item = true) ->
  (forall item obj, item ∈ items -> jsonObject (Some item) = Some obj -> config_keys obj) ->
  is_Some (dec_items [] items) <-> Forall item_shaped items.
Proof.
  induction items as [|x items IH]; intros Hu Hk; cbn [dec_items tail]; [split; [by constructor|by eexists]|].
  assert (Hx : is_Some (dec_config zero_config x) <-> item_shaped x) by (apply dec_config_iff; [apply Hu; left|intros; eapply Hk; [left|done]]).
  assert (Hr : is_Some (dec_items [] items) <-> Forall item_shaped items) by (apply IH; [intros; apply Hu; by right|intros; eapply Hk; [by right|done]]).
  rewrite Forall_cons, <- Hx, <- Hr. destruct (dec_config zero_config x) as [c|]; [|split; [by intros [? [=]]|by intros [[? [=]] _]]].
  cbn. destruct (dec_items [] items) as [r|]; cbn; [split; [intros _; split; by eexists|by eexists]|split; [by intros [? [=]]|by intros [_ [? [=]]]]].
Qed.

Lemma dec_entry_iff kind top :
  unique_keys (JObject top) = true -> known_keys kind top -> is_Some (dec_entry (JObject top)) <-> entry_shaped top.
Proof.
  intros Hu (Hk & Hd & Hc). destruct (unique_object _ Hu) as [Hnd _]. unfold dec_entry, body_field, entry_shaped.
  rewrite !(fun A dec f cur => @decode_field_least A dec _ f cur _ Hk Hnd) by reflexivity.
  transitivity (is_Some (match obj_get top "default_config" with Some v => dec_default None v | None => Some None end) /\
                is_Some (match obj_get top "configs" with Some v => dec_configs (MkSlice [] 0) v | None => Some (MkSlice [] 0) end)).
  { destruct (match obj_get top "default_config" with Some v => dec_default None v | None => Some None end); cbn; [|split; [by intros [? [=]]|by intros [[? [=]] _]]].
    destruct (match obj_get top "configs" with Some v => _ | None => _ end); cbn; [split; [intros _; split; by eexists|by eexists]|split; [by intros [? [=]]|by intros [_ [? [=]]]]]. }
  assert (H1 : is_Some (match obj_get top "default_config" with Some v => dec_default None v | None => Some None end) <->
    match obj_get top "default_config" with None | Some JNull => True | Some (JObject dc) => shaped dc | _ => False end).
  { destruct (obj_get top "default_config") as [[| | | | |dc]|] eqn:Ed; cbn [dec_default]; try (split; [by intros [? [=]]|done]); try (split; [done|by eexists]).
    rewrite fmap_is_Some. apply dec_setting_iff; [by eapply unique_member|by apply Hd]. }
  assert (H2 : is_Some (match obj_get top "configs" with Some v => dec_configs (MkSlice [] 0) v | None => Some (MkSlice [] 0) end) <->
    match obj_get top "configs" with None | Some JNull => True | Some (JArray items) => Forall item_shaped items | _ => False end).
  { destruct (obj_get top "configs") as [[| | | |items|]|] eqn:Ec; cbn [dec_configs]; try (split; [by intros [? [=]]|done]); try (split; [done|by eexists]).
    rewrite <- dec_items_iff; [|intros; eapply unique_item; [by eapply unique_member|done]|by apply Hc].
    destruct items as [|x items]; [split; intros _; by eexists|]. cbn [sl_back].
    destruct (dec_items [] (x :: items)); cbn; [split; intros _; by eexists|split; by intros [? [=]]]. }
  by rewrite H1, H2.
Qed.

(** ** The merged buckets *)

Definition fallback_of (kind : string) : string := if String.eqb kind agentToolsetType then DefaultAgentToolsetPolicy else DefaultMCPToolsetPolicy.

(** What the entries under a name say together. *)
Definition says (name : string) (items : list json) : setting := foldl over unset (omap (item_setting name) items).

Definition bucket_setting (m : merged) : setting :=
  MkSetting (match m_enabled m with Some (JBool b) => Some b | _ => None end) (policy_of (m_policy m)).

(** A policy object as an entry may hold it. *)
Definition policy_object (v : json) : Prop :=
  exists pp, v = JObject pp /\ policy_shape (Some v) /\ Least pp ["type"] = None /\ unique_keys v = true.

Definition bucket_ok (name : string) (m : merged) : Prop :=
  m_name m = JString name /\ match m_enabled m with None | Some (JBool _) => True | _ => False end /\
  match m_policy m with None => True | Some v => policy_object v end.

Definition is_merged (name : string) (s : slot) : bool := match s with Merged n => String.eqb n name | Verbatim _ => false end.

(** An element as the typed reading accepts it. *)
Definition item_good (item : json) : Prop :=
  item_shaped item /\ unique_keys item = true /\ forall obj, jsonObject (Some item) = Some obj -> config_keys obj.

Section buckets.
Context (kind : string).

(** What the loop knows after the elements [l]. *)
Definition bucketed (l : list json) (st : list slot * gmap string merged) : Prop :=
  (forall n, configurable kind n = true ->
     length (filter (fun s => is_merged n s = true) st.1) = (match st.2 !! n with Some _ => 1 | None => 0 end)%nat /\
     match st.2 !! n with
     | None => omap (item_setting n) l = []
     | Some m => bucket_ok n m /\ bucket_setting m = says n l /\ omap (item_setting n) l <> []
     end) /\
  (forall n, Merged n ∈ st.1 -> configurable kind n = true) /\
  (forall item, Verbatim item ∈ st.1 -> item ∈ l /\ forall obj, jsonObject (Some item) = Some obj -> configurable kind (item_name obj) = false).

Lemma says_snoc n l item : says n (l ++ [item]) = match item_setting n item with Some s => over (says n l) s | None => says n l end.
Proof. unfold says. rewrite omap_app, foldl_app. cbn. by destruct (item_setting n item). Qed.

Lemma verbatim_step l st item :
  bucketed l st -> (forall obj, jsonObject (Some item) = Some obj -> configurable kind (item_name obj) = false) ->
  bucketed (l ++ [item]) (st.1 ++ [Verbatim item], st.2).
Proof.
  intros (Hn & Hm & Hv) Hitem. split; [|split].
  - intros n Hc. cbn. rewrite filter_app, filter_cons_False, app_nil_r by done. destruct (Hn n Hc) as [-> H2]. split; [done|].
    assert (E : item_setting n item = None).
    { unfold item_setting. destruct (jsonObject (Some item)) as [obj|]; [|done]. specialize (Hitem obj eq_refl).
      destruct (String.eqb_spec (item_name obj) n); [congruence|done]. }
    rewrite says_snoc, omap_app, E. cbn [omap list_omap]. rewrite E, app_nil_r. by destruct (st.2 !! n).
  - intros n. cbn. rewrite elem_of_app, list_elem_of_singleton. intros [?|[=]]. by apply Hm.
  - intros x. cbn. rewrite !elem_of_app, !list_elem_of_singleton. intros [Hx|[= ->]]; [|by split; [right|]].
    destruct (Hv _ Hx). by split; [left|].
Qed.

Lemma later_ok obj : shaped obj -> unique_keys (JObject obj) = true -> config_keys obj ->
  (match present (obj_get obj "enabled") with None | Some (JBool _) => True | _ => False end) /\
  (match present (obj_get obj "permission_policy") with None => True | Some v => policy_object v end).
Proof.
  intros [He Hp] Hu [_ Hpp]. unfold enabled_shape in He. split; [by destruct (obj_get obj "enabled") as [[]|]|].
  destruct (obj_get obj "permission_policy") as [[| | | | |pp]|] eqn:E; cbn; try done.
  exists pp. split; [done|]. split; [done|]. split; [by apply Hpp|by eapply unique_member].
Qed.

Lemma merged_step l st obj :
  bucketed l st -> item_good (JObject obj) -> configurable kind (item_name obj) = true ->
  bucketed (l ++ [JObject obj]) (materialize_item kind st (JObject obj)).
Proof.
  intros (Hn & Hm & Hv) (Hs & Hu & Hk) Hc. unfold materialize_item. cbn [jsonObject]. fold (item_name obj). rewrite Hc. cbn [negb].
  destruct Hs as [?|(o & [= <-] & Hname & Hshape)]; [done|]. destruct (later_ok _ Hshape Hu (Hk _ eq_refl)) as [Hen Hpol].
  destruct (Hn _ Hc) as [Hlen Hbucket]. set (name := item_name obj) in *.
  set (m := default _ (st.2 !! name)). set (m' := MkMerged _ _ _).
  assert (Hjname : obj_get obj "name" = Some (JString name)).
  { unfold name, item_name in *. unfold configurable in Hc. unfold name_shape in Hname. by destruct (obj_get obj "name") as [[]|]. }
  assert (Hm0 : bucket_ok name m /\ bucket_setting m = says name l).
  { unfold m. destruct (st.2 !! name) as [m0|]; [by destruct Hbucket as (? & ? & _)|]. cbn. rewrite Hjname. split; [done|]. unfold says. by rewrite Hbucket. }
  destruct Hm0 as [(Ha & Hb & Hd) Hsays].
  assert (Hm' : bucket_ok name m' /\ bucket_setting m' = over (bucket_setting m) (setting_of obj)).
  { unfold bucket_ok, bucket_setting, setting_of, over, m'. cbn. split; [split; [done|]|].
    - destruct (present (obj_get obj "enabled")), (present (obj_get obj "permission_policy")); done.
    - f_equal; [destruct (obj_get obj "enabled") as [[]|]; cbn in *; try done; by destruct (m_enabled m) as [[]|]|].
      destruct (obj_get obj "permission_policy") as [[| | | | |pp]|]; cbn in *; try done; by destruct Hpol as (? & [=] & _). }
  assert (Hit : forall n, item_setting n (JObject obj) = if String.eqb name n then Some (setting_of obj) else None) by done.
  split; [|split].
  - intros n Hcn. cbn [fst snd]. rewrite filter_app, length_app, says_snoc, omap_app, Hit. cbn [omap list_omap]. rewrite Hit.
    destruct (String.eqb_spec name n) as [<-|Hne].
    + rewrite lookup_insert_eq, Hlen. destruct Hm' as [? ->]. rewrite Hsays. split; [|split; [done|]; split; [done|by destruct (omap (item_setting name) l)]]. destruct (st.2 !! name); cbv iota; [done|].
      by rewrite filter_cons_True by (cbn; apply String.eqb_refl).
    + rewrite lookup_insert_ne by done. destruct (Hn n Hcn) as [-> H2]. split.
      * destruct (st.2 !! name); cbv iota; [by rewrite filter_nil, Nat.add_0_r|].
        rewrite filter_cons_False by (cbn; by apply not_true_iff_false, String.eqb_neq). by rewrite filter_nil, Nat.add_0_r.
      * rewrite app_nil_r. by destruct (st.2 !! n).
  - intros n. cbn. rewrite elem_of_app. intros [?|H]; [by apply Hm|]. destruct (st.2 !! name); [by apply not_elem_of_nil in H|].
    apply list_elem_of_singleton in H as [= ->]. done.
  - intros x. cbn. rewrite !elem_of_app. intros [Hx|H]; [destruct (Hv _ Hx); by split; [left|]|].
    destruct (st.2 !! name); [by apply not_elem_of_nil in H|]. by apply list_elem_of_singleton in H.
Qed.

Lemma all_bucketed items : Forall item_good items -> bucketed items (foldl (materialize_item kind) ([], ∅) items).
Proof.
  induction items as [|item items IH] using rev_ind; intros H.
  - cbn [foldl]. split; [|split]; cbn [fst snd];
      [intros n _; by rewrite lookup_empty|intros n Hn; by apply not_elem_of_nil in Hn|intros x Hx; by apply not_elem_of_nil in Hx].
  - apply Forall_app in H as [Hi Hx]; rewrite Forall_singleton in Hx. rewrite foldl_app. cbn [foldl]. specialize (IH Hi).
    set (st := foldl _ _ items) in *. destruct (jsonObject (Some item)) as [obj|] eqn:Eo.
    + apply jsonObject_Some in Eo as [= ->]. destruct (configurable kind (item_name obj)) eqn:Ec; [by apply merged_step|].
      unfold materialize_item. cbn [jsonObject]. fold (item_name obj). rewrite Ec. apply verbatim_step; [done|]. intros o E. cbn in E. injection E as <-. exact Ec.
    + unfold materialize_item. rewrite Eo. apply verbatim_step; [done|]. by rewrite Eo.
Qed.
End buckets.

(** ** The rendered document *)

Lemma obj_get_app a b k : obj_get (a ++ b) k = match obj_get b k with Some v => Some v | None => obj_get a k end.
Proof. induction a as [|[k' v] a IH]; cbn; [by destruct (obj_get b k)|]. rewrite IH. by destruct (obj_get b k). Qed.

Lemma obj_get_drop ms k k' : obj_get (filter (fun kv : string * json => kv.1 <> k) ms) k' = if String.eqb k k' then None else obj_get ms k'.
Proof.
  induction ms as [|[k1 v] ms IH]; [by destruct (String.eqb k k')|]. destruct (decide (k1 = k)) as [->|Hne].
  - rewrite filter_cons_False by (cbn; tauto). rewrite IH. cbn [obj_get]. destruct (String.eqb_spec k k') as [->|]; [done|]. by destruct (obj_get ms k').
  - rewrite filter_cons_True by done. cbn [obj_get]. rewrite IH. destruct (String.eqb_spec k k') as [->|]; [by rewrite (proj2 (String.eqb_neq k1 k'))|done].
Qed.

Lemma obj_get_set ms k v k' : obj_get (obj_set ms k v) k' = if String.eqb k k' then Some v else obj_get ms k'.
Proof. unfold obj_set. rewrite obj_get_app, obj_get_drop. cbn. by destruct (String.eqb k k'). Qed.

Lemma marshal_unique ms : (forall k v, obj_get ms k = Some v -> unique_keys v = true) -> unique_keys (marshal_map ms) = true.
Proof.
  intros H. unfold marshal_map. cbn. apply andb_true_iff. split.
  - apply bool_decide_eq_true. rewrite <- list_fmap_compose. unfold compose. cbn. rewrite list_fmap_id, merge_sort_Permutation. apply NoDup_remove_dups.
  - apply forallb_forall. intros [k v] (k' & [= -> ->] & Hk)%list_elem_of_In%list_elem_of_fmap. cbn. destruct (obj_get ms k') eqn:E; [by eapply H|done].
Qed.

(** A configs element rendered from a bucket, by what the default gives it. *)
Definition filled_over (d : setting) (fb : string) (s : setting) : setting :=
  MkSetting (Some (default (on d) (st_enabled s))) (Some (default (default fb (st_policy d)) (st_policy s))).

Lemma resolves_filled d fb s : resolves fb (over (filled_over unset fb d) (filled_over d fb s)) = resolves fb (over d s) /\
  resolves fb (filled_over unset fb d) = resolves fb d.
Proof. destruct d as [[[]|][|]], s as [[[]|][|]]; done. Qed.

(** A default's settings as rendered: the flag, and a policy object with this policy. *)
Definition renders (fb : string) (d : setting) (en pol : json) : Prop :=
  en = JBool (on d) /\ policy_object pol /\ policy_of (Some pol) = Some (default fb (st_policy d)).

Lemma policy_json_object p : policy_object (policy_json p) /\ policy_of (Some (policy_json p)) = Some p.
Proof. split; [|done]. exists [("type", JString p)]. split; [done|]. split; [done|]. split; [done|]. done. Qed.

Lemma present_renders fb obj : shaped obj -> unique_keys (JObject obj) = true -> config_keys obj ->
  renders fb (setting_of obj) (default (JBool true) (present (obj_get obj "enabled"))) (default (policy_json fb) (present (obj_get obj "permission_policy"))).
Proof.
  intros Hs Hu Hk. destruct (later_ok _ Hs Hu Hk) as [He Hp]. split; [|split].
  - unfold setting_of, on. cbn. by destruct (obj_get obj "enabled") as [[]|].
  - destruct (present (obj_get obj "permission_policy")) as [v|]; [done|apply policy_json_object].
  - unfold setting_of. cbn [st_policy]. destruct (obj_get obj "permission_policy") as [[| | | | |pp]|]; cbn in Hp |- *; try done; by destruct Hp as (? & [=] & _).
Qed.

Lemma default_renders kind top : unique_keys (JObject top) = true -> known_keys kind top -> entry_shaped top -> forall en pol fb,
  resolveDefaultConfig (obj_get top "default_config") fb = (en, pol) -> renders fb (default_setting top) en pol.
Proof.
  intros Hu (_ & Hd & _) [Hs _] en pol fb. unfold resolveDefaultConfig, default_setting.
  destruct (obj_get top "default_config") as [[| | | | |dc]|] eqn:E; try done; cbn [jsonObject]; intros [= <- <-];
    try (split; [done|apply policy_json_object]). apply present_renders; [done|by eapply unique_member|by apply Hd].
Qed.

(** A rendered bucket reads as its name and the settings filled in. *)
Lemma merged_reads kind fb d en pol name m :
  renders fb d en pol -> bucket_ok name m ->
  exists obj, JObject ([("enabled", default en (m_enabled m)); ("name", m_name m); ("permission_policy", default pol (m_policy m))] ++
      (if String.eqb kind agentToolsetType then [("type", m_name m)] else [])) = JObject obj /\
    obj_get obj "enabled" = Some (JBool (default (on d) (st_enabled (bucket_setting m)))) /\ obj_get obj "name" = Some (JString name) /\
    (obj_get obj "type" = if String.eqb kind agentToolsetType then Some (JString name) else None) /\
    (exists v, obj_get obj "permission_policy" = Some v /\ policy_object v) /\
    item_name obj = name /\ setting_of obj = filled_over d fb (bucket_setting m) /\ unique_keys (JObject obj) = true.
Proof.
  intros (-> & Hpol & Hval) (Hn & He & Hp). eexists. split; [done|]. rewrite Hn.
  assert (Hv : policy_object (default pol (m_policy m))) by by destruct (m_policy m).
  assert (Hu : unique_keys (default pol (m_policy m)) = true) by by destruct Hv as (? & -> & _ & _ & ?).
  assert (Hen : default (JBool (on d)) (m_enabled m) = JBool (default (on d) (st_enabled (bucket_setting m)))) by (unfold bucket_setting; cbn [st_enabled]; by destruct (m_enabled m) as [[]|]).
  assert (Hset : policy_of (Some (default pol (m_policy m))) = Some (default (default fb (st_policy d)) (st_policy (bucket_setting m)))).
  { unfold bucket_setting. cbn [st_policy]. destruct (m_policy m) as [v|]; [by destruct Hp as (? & -> & _)|done]. }
  rewrite Hen. set (pv := default pol _) in *. clearbody pv.
  destruct (String.eqb kind agentToolsetType); (split; [done|]); (split; [done|]); (split; [done|]); (split; [by exists pv|]); (split; [done|]);
    (split; [unfold setting_of; cbn [obj_get app String.eqb Ascii.eqb]; unfold filled_over; f_equal; exact Hset|]);
    cbn [unique_keys app forallb fst snd]; rewrite Hu; done.
Qed.

(** ** What the key check takes, wherever it stands *)

Definition type_agrees (obj : objmap) : Prop :=
  match obj_get obj "type" with None => True | Some raw => exists t, raw = JString t /\ obj_get obj "name" = Some (JString t) end.

Lemma checkToolType_iff obj p : checkToolType obj p = Ok tt <-> type_agrees obj.
Proof.
  unfold checkToolType, type_agrees. destruct (obj_get obj "type") as [raw|]; [|done].
  destruct raw as [| | |t| |]; cbn [string_ptr]; try (split; [done|by intros (? & [=] & _)]).
  destruct (obj_get obj "name") as [[| | |n| |]|]; cbn [string_ptr]; try (split; [by destruct (builtinName (Some (JString t)))|by intros (? & _ & [=])]).
  destruct (String.eqb_spec t n) as [->|Hne]; split; try done; [by exists n|]. intros (? & [= <-] & [= <-]). done.
Qed.

Definition config_allowed (kind : string) (perTool : bool) : list string :=
  ["enabled"; "permission_policy"] ++ (if perTool then ["name"] else []) ++ (if perTool && String.eqb kind agentToolsetType then ["type"] else []).

Lemma rejectConfigKeys_iff kind obj p perTool : rejectConfigKeys kind obj p perTool = Ok tt <->
  Least obj (config_allowed kind perTool) = None /\
  (forall pp, jsonObject (obj_get obj "permission_policy") = Some pp -> Least pp ["type"] = None) /\
  (perTool && String.eqb kind agentToolsetType = true -> type_agrees obj).
Proof.
  unfold rejectConfigKeys, config_allowed. cbv zeta. destruct (Least obj _) as [k|] eqn:E.
  { split; [|by intros [? _]]. destruct (builtinName _); [by destruct (_ && negb _)|done]. }
  rewrite <- (checkToolType_iff obj p). destruct (perTool && _).
  - destruct (checkToolType obj p) as [[]|]; [|split; [done|]; intros (_ & _ & H); by discriminate H].
    destruct (jsonObject _) as [pp|]; [|naive_solver]. unfold rejectKeysOutside. destruct (Least pp _) eqn:Ep; [split; [done|]; intros (_ & H & _); by rewrite (H pp eq_refl) in Ep|naive_solver].
  - destruct (jsonObject _) as [pp|]; [|naive_solver]. unfold rejectKeysOutside. destruct (Least pp _) eqn:Ep; [split; [done|]; intros (_ & H & _); by rewrite (H pp eq_refl) in Ep|naive_solver].
Qed.

Lemma reject_items_iff kind items : forall i, reject_items kind i items = Ok tt <->
  forall item obj, item ∈ items -> jsonObject (Some item) = Some obj -> exists p, rejectConfigKeys kind obj p true = Ok tt.
Proof.
  induction items as [|x items IH]; intros i; cbn [reject_items]; [split; [intros _ ? ? H; by apply not_elem_of_nil in H|done]|]. split.
  - intros ([] & Hx & Hr)%bind_ok item obj [->|Hin]%elem_of_cons Ho; [rewrite Ho in Hx; by eexists|by eapply IH].
  - intros H. assert (Hr : reject_items kind (S i) items = Ok tt) by (apply IH; intros; eapply H; [by right|done]). rewrite Hr.
    destruct (jsonObject (Some x)) as [obj|] eqn:E; [|done]. destruct (H x obj ltac:(left) E) as [p Hp%rejectConfigKeys_iff].
    by rewrite (proj2 (rejectConfigKeys_iff kind obj (AtConfig i) true) Hp).
Qed.

(** ** The echo, whole *)

Section echo.
Context (top : objmap) (kind : string).
Hypothesis Hkind : kind = agentToolsetType \/ kind = mcpToolsetType.
Hypothesis Htype : obj_get top "type" = Some (JString kind).
Hypothesis Hu : unique_keys (JObject top) = true.
Hypothesis Hrej : rejectUnknownToolsetKeys kind (JObject top) = Ok tt.
Hypothesis Hs : entry_shaped top.

Let items := jsonArray (obj_get top "configs").
Let fb := fallback_of kind.
Let d := default_setting top.
Let st := foldl (materialize_item kind) ([], ∅) items.

Lemma items_good : Forall item_good items.
Proof.
  pose proof (rejectUnknownToolsetKeys_Ok _ _ Hrej) as Hk. subst items. destruct Hs as [_ Hc]. destruct Hk as (_ & _ & Hi).
  destruct (obj_get top "configs") as [[| | | |l|]|] eqn:E; cbn in *; try by constructor.
  apply Forall_forall. intros item Hin. rewrite Forall_forall in Hc. split; [by apply Hc|]. split.
  - eapply unique_item; [by eapply unique_member|done].
  - intros obj Ho. by eapply Hi.
Qed.

Lemma Materialize_form : exists mt en pol,
  Materialize (JObject top) = JObject mt /\ renders fb d en pol /\
  (forall k, obj_get mt k = if String.eqb "configs" k then Some (JArray (map (render_slot kind en pol st.2) st.1))
               else if String.eqb "default_config" k then Some (JObject [("enabled", en); ("permission_policy", pol)]) else obj_get top k) /\
  (forall k, k ∈ map fst mt -> k ∈ map fst top \/ k = "configs" \/ k = "default_config").
Proof.
  unfold Materialize. cbn [jsonObject]. rewrite Htype. cbn [decode_string].
  assert (Hmem : mem_string kind [agentToolsetType; mcpToolsetType] = true) by (destruct Hkind as [-> | ->]; done). rewrite Hmem.
  change (if String.eqb kind agentToolsetType then _ else _) with fb. cbv zeta.
  destruct (resolveDefaultConfig _ fb) as [en pol] eqn:Er. set (doc := obj_set _ _ _).
  assert (Hdoc : forall k, obj_get doc k = if String.eqb "configs" k then Some (JArray (map (render_slot kind en pol st.2) st.1))
               else if String.eqb "default_config" k then Some (JObject [("enabled", en); ("permission_policy", pol)]) else obj_get top k).
  { intros k. unfold doc. rewrite !obj_get_set. unfold materializeConfigs. fold items st. by destruct st as [slots byName]. }
  pose proof (obj_get_marshal doc) as Hm. pose proof (marshal_keys doc) as Hkeys. unfold marshal_map in *. eexists _, en, pol. split; [done|].
  split; [by apply (default_renders kind top Hu (rejectUnknownToolsetKeys_Ok _ _ Hrej))|]. split; [intros k; by rewrite Hm|]. intros k Hin%Hkeys. unfold doc, obj_set in Hin.
  rewrite map_app, elem_of_app in Hin. cbn in Hin. destruct Hin as [Hin|Hin%list_elem_of_singleton]; [|auto].
  apply list_elem_of_fmap in Hin as (kv & -> & [_ Hin]%list_elem_of_filter). apply elem_of_app in Hin as [Hin|Hin%list_elem_of_singleton]; [|subst kv; auto].
  apply list_elem_of_filter in Hin as [_ Hin]. left. apply list_elem_of_fmap. by exists kv.
Qed.

Lemma Materialize_marshal : exists ms, Materialize (JObject top) = marshal_map ms.
Proof.
  unfold Materialize. cbn [jsonObject]. rewrite Htype. cbn [decode_string].
  assert (Hmem : mem_string kind [agentToolsetType; mcpToolsetType] = true) by (destruct Hkind as [-> | ->]; done). rewrite Hmem.
  cbv zeta. destruct (resolveDefaultConfig _ _) as [en pol]. by eexists.
Qed.

(** What stands behind each slot. *)
Lemma slot_behind s : s ∈ st.1 ->
  match s with
  | Verbatim item => item ∈ items /\ forall obj, jsonObject (Some item) = Some obj -> configurable kind (item_name obj) = false
  | Merged n => configurable kind n = true /\ exists m, st.2 !! n = Some m /\ bucket_ok n m
  end.
Proof.
  destruct (all_bucketed kind items items_good) as (Hn & Hm & Hv). fold st in Hn, Hm, Hv. intros Hin. destruct s as [item|n]; [by apply Hv|].
  pose proof (Hm _ Hin) as Hc. split; [done|]. destruct (Hn _ Hc) as [Hlen Hb]. destruct (st.2 !! n) as [m|]; [by exists m; destruct Hb|].
  exfalso. apply nil_length_inv in Hlen. assert (Hin' : Merged n ∈ filter (fun s => is_merged n s = true) st.1)
    by (apply list_elem_of_filter; split; [apply String.eqb_refl|done]). rewrite Hlen in Hin'. by apply not_elem_of_nil in Hin'.
Qed.

Section rendered.
Context (en pol : json) (Hr : renders fb d en pol).

Lemma rendered_accepted s : s ∈ st.1 -> item_good (render_slot kind en pol st.2 s) /\
  forall obj, jsonObject (Some (render_slot kind en pol st.2 s)) = Some obj -> exists p, rejectConfigKeys kind obj p true = Ok tt.
Proof.
  intros Hin%slot_behind. destruct s as [item|n]; cbn [render_slot].
  - destruct Hin as [Hin _]. pose proof items_good as Hg. rewrite Forall_forall in Hg. split; [by apply Hg|].
    intros obj Ho. unfold rejectUnknownToolsetKeys in Hrej. cbn [jsonObject] in Hrej.
    apply bind_ok in Hrej as ([] & _ & ([] & _ & Hi)%bind_ok). by eapply reject_items_iff.
  - destruct Hin as (_ & m & -> & Hb). destruct (merged_reads kind fb d en pol n m Hr Hb) as (obj & E & He & Hn & Ht & (v & Hv & Hpo) & Hname & Hset & Huo).
    rewrite E. destruct Hpo as (pp & -> & Hsh & Hl & Hup).
    assert (Hkeys : Least obj (config_allowed kind true) = None) by (injection E as <-; unfold config_allowed; by destruct (String.eqb kind agentToolsetType)).
    assert (Hacc : forall p, rejectConfigKeys kind obj p true = Ok tt).
    { intros p. apply rejectConfigKeys_iff. split; [done|]. rewrite Hv. split; [by intros ? [= <-]|]. intros Ha. unfold type_agrees. rewrite Ht.
      cbn [andb] in Ha. rewrite Ha. by exists n. }
    split; [|intros ? [= <-]; by exists AtTop].
    split; [|split; [done|]].
    + right. exists obj. split; [done|]. unfold name_shape, shaped, enabled_shape. by rewrite Hn, He, Hv.
    + intros ? [= <-]. by apply (rejectConfigKeys_Ok kind obj AtTop true).
Qed.

(** A configurable name's rendered settings. *)
Lemma rendered_settings n : configurable kind n = true ->
  omap (item_setting n) (map (render_slot kind en pol st.2) st.1) =
  match omap (item_setting n) items with [] => [] | _ => [filled_over d fb (says n items)] end.
Proof.
  intros Hc. destruct (all_bucketed kind items items_good) as (Hn & _ & _). fold st in Hn. destruct (Hn n Hc) as [Hlen Hb].
  transitivity (omap (fun s => item_setting n (render_slot kind en pol st.2 s)) st.1); [apply omap_map|].
  rewrite (omap_marked (is_merged n) _ (filled_over d fb (says n items))).
  - rewrite Hlen. destruct (st.2 !! n) as [m|] eqn:Em; [|by rewrite Hb].
    destruct Hb as (_ & _ & Hfed). by destruct (omap (item_setting n) items).
  - intros s Hin%slot_behind. destruct s as [item|n']; cbn [render_slot is_merged].
    + destruct Hin as [_ Hnot]. unfold item_setting. destruct (jsonObject (Some item)) as [obj|]; [|done]. specialize (Hnot obj eq_refl).
      destruct (String.eqb_spec (item_name obj) n); [congruence|done].
    + destruct Hin as (_ & m & Em & Hok). rewrite Em. destruct (merged_reads kind fb d en pol n' m Hr Hok) as (obj & -> & _ & _ & _ & _ & Hname & Hset & _).
      cbn [item_setting jsonObject]. rewrite Hname, Hset. destruct (String.eqb_spec n' n) as [->|]; [|done]. rewrite Em in Hb. by destruct Hb as (_ & -> & _).
Qed.
End rendered.

(** Read back: no key repeated, every key known, every value of its type, and each name a
    toolset has resolved as before. *)
Lemma echo_reads : exists mt, Materialize (JObject top) = JObject mt /\ unique_keys (JObject mt) = true /\
  rejectUnknownToolsetKeys kind (JObject mt) = Ok tt /\ entry_shaped mt /\
  forall n, configurable kind n = true -> resolves fb (effective mt n) = resolves fb (effective top n).
Proof.
  destruct Materialize_form as (mt & en & pol & E & Hr & Hget & Hkeys). exists mt. split; [done|].
  pose proof (fun s => rendered_accepted en pol Hr s) as Hacc.
  assert (Hc : obj_get mt "configs" = Some (JArray (map (render_slot kind en pol st.2) st.1))) by by rewrite Hget.
  assert (Hd : obj_get mt "default_config" = Some (JObject [("enabled", en); ("permission_policy", pol)])) by by rewrite Hget.
  destruct Hr as (-> & Hpo & Hval). pose proof Hpo as (pp & Epol & Hsh & Hl & Hup).
  split; [|split; [|split]].
  - assert (Emt : exists ms, JObject mt = marshal_map ms) by (rewrite <- E; exact Materialize_marshal).
    destruct Emt as [ms Ems]. rewrite Ems. apply marshal_unique. intros k v Hv.
    assert (Hv' : obj_get mt k = Some v) by (pose proof (obj_get_marshal ms k) as Hm; rewrite <- Ems in Hm; by rewrite Hm).
    rewrite Hget in Hv'. destruct (String.eqb "configs" k); [|destruct (String.eqb "default_config" k); [|by eapply unique_member]].
    + injection Hv' as <-. cbn [unique_keys]. apply forallb_forall. intros x Hx%list_elem_of_In. apply list_elem_of_fmap in Hx as (s & -> & Hs'). by apply Hacc.
    + injection Hv' as <-. cbn [unique_keys forallb fst snd]. by rewrite Hup.
  - unfold rejectUnknownToolsetKeys in Hrej |- *. cbn [jsonObject] in *. apply bind_ok in Hrej as ([] & Htop & _).
    assert (Hl' : rejectKeysOutside kind mt AtTop (["type"; "configs"; "default_config"] ++ (if String.eqb kind mcpToolsetType then ["mcp_server_name"] else [])) = Ok tt).
    { unfold rejectKeysOutside in *. destruct (Least top _) eqn:El; [done|]. rewrite Least_None in El. rewrite (proj2 (Least_None mt _)); [done|].
      intros k Hk. destruct (Hkeys _ Hk) as [?|[-> | ->]]; [by apply El|set_solver..]. }
    rewrite Hl', Hd, Hc. cbn [jsonObject jsonArray].
    rewrite (proj2 (rejectConfigKeys_iff kind _ AtDefault false)); [|split; [done|]; split; [|done]; cbn; rewrite Epol; by intros ? [= <-]].
    apply reject_items_iff. intros item obj (s & -> & Hs')%list_elem_of_fmap Ho. by eapply Hacc.
  - unfold entry_shaped. rewrite Hd, Hc. split; [by split|]. apply Forall_forall. intros item (s & -> & Hs')%list_elem_of_fmap. by apply Hacc.
  - intros n Hn. unfold effective, default_setting. rewrite Hd, Hc. cbn [jsonObject jsonArray].
    rewrite (rendered_settings (JBool (on d)) pol) by done. fold (default_setting top). fold d items. rewrite (fold_over d). fold (says n items).
    assert (E0 : setting_of [("enabled", JBool (on d)); ("permission_policy", pol)] = filled_over unset fb d).
    { unfold setting_of, filled_over. cbn [obj_get String.eqb Ascii.eqb]. f_equal. exact Hval. }
    rewrite E0. destruct (resolves_filled d fb (says n items)) as [H1 H2]. unfold says in *. destruct (omap (item_setting n) items); [|exact H1].
    cbn [foldl]. cbn [foldl] in H1. rewrite H2. by rewrite (proj1 (over_unset d)).
Qed.
End echo.

(** ** Round trips *)

Lemma resolve_one_exact kind fallback def o : valid_policy fallback ->
  (forall t, resolves fallback (over def o) = Some t -> valid_policy t) -> resolve_one kind fallback def o = Ok (resolves fallback (over def o)).
Proof.
  intros Hf H. unfold resolve_one, resolves, on in *. destruct (match st_enabled (over def o) with Some b => b | None => true end); [|done].
  destruct (st_policy (over def o)) as [t|]; [|done]. by rewrite (proj2 (policyType_Ok kind t t) (conj eq_refl (H t eq_refl))).
Qed.

Lemma resolve_defs_exact def ov names :
  (forall n t, n ∈ names -> resolves DefaultAgentToolsetPolicy (over def (default unset (ov !! n))) = Some t -> valid_policy t) ->
  resolve_defs def ov names =
  Ok (omap (fun n => p ← resolves DefaultAgentToolsetPolicy (over def (default unset (ov !! n))); Some (n, p)) names).
Proof.
  induction names as [|n names IH]; intros H; [done|]. cbn. rewrite resolve_one_exact; [|left|intros t; apply H; left].
  rewrite IH by (intros ? ? ?; apply H; by right). by destruct (resolves _ _).
Qed.

Lemma definition_configurable n : n ∈ definitions -> configurable agentToolsetType n = true /\ n <> EmptyString.
Proof.
  intros Hn. assert (Hall : Forall (fun n => configurable agentToolsetType n = true /\ n <> EmptyString) definitions) by by repeat constructor.
  rewrite Forall_forall in Hall. by apply Hall.
Qed.

Lemma builtins_member top n t : n ∈ definitions -> resolves DefaultAgentToolsetPolicy (effective top n) = Some t -> (n, t) ∈ builtins_of top.
Proof. intros Hn Ht. apply list_elem_of_omap. exists n. split; [done|]. by rewrite Ht. Qed.

(** C16: the entry a response shows for a built-in toolset is the one that runs: read back, it is
    accepted, and it enables the same tools under the same policies. *)
Theorem Materialize_roundtrip (top : objmap) (rs : list (string * string))
    (Htype : obj_get top "type" = Some (JString agentToolsetType)) (Hu : unique_keys (JObject top) = true)
    (H : resolveToolset (JObject top) = Ok rs) :
  resolveToolset (Materialize (JObject top)) = Ok rs.
Proof.
  destruct (resolveToolset_Ok _ _ Hu H) as [-> Hv]. unfold members_of in *. cbn [jsonObject default] in *.
  unfold resolveToolset in H. destruct (dec_entry (JObject top)) as [e|] eqn:Ee; [|done]. apply bind_ok in H as ([] & Hrej & _).
  pose proof (rejectUnknownToolsetKeys_Ok _ _ Hrej) as Hk.
  destruct (echo_reads top agentToolsetType (or_introl eq_refl) Htype Hu Hrej) as (mt & -> & Hu' & Hrej' & Hs' & Heff).
  { apply (dec_entry_iff agentToolsetType); [done|done|by eexists]. }
  change (fallback_of agentToolsetType) with DefaultAgentToolsetPolicy in Heff.
  pose proof (rejectUnknownToolsetKeys_Ok _ _ Hrej') as Hk'. destruct (proj2 (dec_entry_iff _ _ Hu' Hk') Hs') as [e' Ee'].
  unfold resolveToolset. rewrite Ee', Hrej'. rewrite resolve_defs_exact.
  - f_equal. unfold builtins_of. apply omap_ext_in. intros n [Hc Hne]%definition_configurable.
    by rewrite (effective_lookup agentToolsetType mt e'), Heff.
  - intros n t Hn. destruct (definition_configurable _ Hn) as [Hc Hne]. rewrite (effective_lookup agentToolsetType mt e') by done.
    rewrite Heff by done. intros Ht. by eapply Hv, builtins_member.
Qed.

Definition d_builtin_entry : objmap :=
  [("type", JString agentToolsetType); ("default_config", JObject [("enabled", JBool false)]);
   ("configs", JArray [JObject [("name", JString "bash"); ("enabled", JBool true)]; JObject [("name", JString "unheard_of")];
                       JObject [("name", JString "bash"); ("permission_policy", JObject [("type", JString "always_ask")])];
                       JObject [("name", JString "read"); ("enabled", JBool true)]])].

Lemma Materialize_roundtrip_witness : resolveToolset (Materialize (JObject d_builtin_entry)) = Ok [("bash", "always_ask"); ("read", "always_allow")].
Proof. apply (Materialize_roundtrip d_builtin_entry); vm_compute; reflexivity. Defined.

(** ** A key repeated in a request

    A [jsonb] column keeps a repeated key's last value, as its documentation says, so what is
    stored repeats none. *)
Fixpoint keep_last (ms : objmap) : objmap :=
  match ms with
  | [] => []
  | (k, v) :: rest => if existsb (fun kv => String.eqb kv.1 k) rest then keep_last rest else (k, v) :: keep_last rest
  end.

Fixpoint jsonb (v : json) : json :=
  match v with
  | JArray items => JArray (map jsonb items)
  | JObject ms => JObject (keep_last (map (fun kv => (kv.1, jsonb kv.2)) ms))
  | _ => v
  end.

Lemma keep_last_in ms kv : kv ∈ keep_last ms -> kv ∈ ms.
Proof.
  induction ms as [|[k v] ms IH]; cbn; [done|]. destruct (existsb _ ms); [right; auto|]. intros [->|?]%elem_of_cons; [left|right; auto].
Qed.

Lemma keep_last_keys ms : NoDup (keep_last ms).*1.
Proof.
  induction ms as [|[k v] ms IH]; cbn; [by apply NoDup_nil_2|]. destruct (existsb _ ms) eqn:E; [done|]. cbn. apply NoDup_cons. split; [|done].
  intros (kv & -> & Hin%keep_last_in)%list_elem_of_fmap. cbn in E. apply not_true_iff_false in E. apply E, existsb_exists.
  exists kv. split; [by apply list_elem_of_In|apply String.eqb_refl].
Qed.

Lemma jsonb_unique v : unique_keys (jsonb v) = true.
Proof.
  induction v as [| | | | l IH|ms IH] using json_nested_ind; try done; cbn [jsonb unique_keys].
  - apply forallb_forall. intros x (y & <- & Hy)%in_map_iff. rewrite Forall_forall in IH. apply IH. by apply list_elem_of_In.
  - apply andb_true_iff. split; [apply bool_decide_eq_true, keep_last_keys|]. apply forallb_forall.
    intros kv Hkv%list_elem_of_In%keep_last_in. apply list_elem_of_fmap in Hkv as (kv' & -> & Hin). rewrite Forall_forall in IH. by apply IH.
Qed.

Lemma keep_last_id ms : NoDup ms.*1 -> keep_last ms = ms.
Proof.
  induction ms as [|[k v] ms IH]; cbn; [done|]. intros [Hk Hn]%NoDup_cons. rewrite (IH Hn). destruct (existsb _ ms) eqn:E; [|done].
  apply existsb_exists in E as ([k' v'] & Hin & E). apply String.eqb_eq in E. cbn in E. subst k'. destruct Hk.
  apply list_elem_of_fmap. exists (k, v'). split; [done|]. by apply list_elem_of_In.
Qed.

(** A document that repeats no key is stored as it is. *)
Lemma jsonb_id v : unique_keys v = true -> jsonb v = v.
Proof.
  induction v as [| | | | l IH|ms IH] using json_nested_ind; try done; cbn [jsonb unique_keys].
  - intros Hu. rewrite forallb_forall in Hu. rewrite Forall_forall in IH. f_equal. rewrite <- (map_id l) at 2. apply map_ext_in.
    intros x Hx. apply IH; [by apply list_elem_of_In|by apply Hu].
  - intros [Hn Hu]%andb_true_iff. rewrite forallb_forall in Hu. rewrite Forall_forall in IH.
    assert (E : map (fun kv : string * json => (kv.1, jsonb kv.2)) ms = ms).
    { rewrite <- (map_id ms) at 2. apply map_ext_in. intros [k v] Hx. cbn. f_equal.
      apply (IH (k, v)); [by apply list_elem_of_In|]. by apply (Hu (k, v)). }
    rewrite E, keep_last_id; [done|]. by apply bool_decide_eq_true in Hn.
Qed.

Definition d_repeated : json :=
  JObject [("type", JString agentToolsetType);
           ("default_config", JObject [("permission_policy", JObject [("type", JString "always_ask"); ("type", JNull)])])].

(** A request's entry that passes the check, and whose stored form fails every turn. *)
Example repeated_key_wedges : Validate d_repeated = Ok tt /\ Validate (jsonb d_repeated) = Err (UnknownPolicy agentToolsetType EmptyString).
Proof. split; vm_compute; reflexivity. Qed.
