(* ===== verification/AgentSpec.v ===== *)
(** * AgentSpec: the tools and MCP servers a request may give an agent
    (internal/api/wire.go, from [rawList] to [checkAgentSpec]).

    A refusal is a constructor with what its sentence names, but for the path prefix a
    route opens it with, which no condition reads. *)
From S2P Require Import Prelude GoStrings Json Domain Consumption Inbound Turn Toolset.

Inductive spec_refusal :=
| ListNotArray (field : string)
| ToolNotObject | ToolTypeUnknown (typ : string)
| ToolsetConfig (i : nat) (e : toolset_error)      (* in the reference's words *)
| ToolsetRefused (e : toolset_error)
| CustomIncomplete
| NameTooLong (i : nat) | NameEmpty (i : nat) | NameClass (i : nat) | NameReserved (i : nat) (name : string)
| ServerNameRequired
| ServerNotObject | ServerIncomplete | ServerNameTooLong (i : nat) | ServerNotURI (i : nat)
| TooManyTools | TooManyServers
| ServerTwice (name : string) | ServerUndeclared (name : string) | ToolNameTwice | ServerUnreferenced (name : string).

Definition rawList (raw : json) (key : string) : result spec_refusal (list json) :=
  match raw with JNull => Ok [] | JArray items => Ok items | _ => Err (ListNotArray key) end.

(** ** Tools *)

Definition MCPModelNamePrefix : string := "mcp__".
Definition maxCustomToolNameRunes : Z := 128.
Definition maxMCPServerNameRunes : Z := 255.

(** The Messages tool-name pattern, [^[a-zA-Z0-9_-]{1,128}$]; its class is the one a composed
    name is mangled into. *)
Definition customToolNameRE (name : string) : bool := all_bytes model_name_byte name && in_range 1 128 (slen name).

(** [capRunes] and [capOverrideRunes] refuse the same strings, in different words. *)
Definition over_runes (val : string) (limit : Z) : bool := limit <? Z.of_nat (length (runes val)).

Definition checkCustomToolName (name : string) (i : nat) (agentRoute : bool) : result spec_refusal unit :=
  if customToolNameRE name then Ok tt
  else if over_runes name maxCustomToolNameRunes then Err (NameTooLong i)
  else if agentRoute && String.eqb name EmptyString then Err (NameEmpty i)
  else Err (NameClass i).

(** Whether an error is a [toolset.ConfigError]. *)
Definition is_config_error (e : toolset_error) : bool :=
  match e with ExtraInput _ _ _ | NameMustBe _ _ => true | TypeNotName _ _ _ c => c | _ => false end.

Record tool_probe := MkToolProbe {
  tp_type : string; tp_name : option string; tp_description : string; tp_server : string; tp_schema : option json }.

Definition dec_tool_probe (item : json) : option tool_probe :=
  typ ← body_field dec_string EmptyString (Some item) "type";
  name ← body_field dec_string_ptr None (Some item) "name";
  description ← body_field dec_string EmptyString (Some item) "description";
  server ← body_field dec_string EmptyString (Some item) "mcp_server_name";
  schema ← body_field dec_raw None (Some item) "input_schema";
  Some (MkToolProbe typ name description server schema).

(** One entry of [parseToolsWith]'s loop. *)
Definition parse_tool (agentRoute : bool) (i : nat) (item : json) : result spec_refusal unit :=
  match dec_tool_probe item with
  | None => Err ToolNotObject
  | Some p =>
      if String.eqb (tp_type p) agentToolsetType then
        match Validate item with
        | Ok _ => Ok tt
        | Err e => Err (if agentRoute && is_config_error e then ToolsetConfig i e else ToolsetRefused e)
        end
      else if String.eqb (tp_type p) "custom" then
        match tp_name p, present (tp_schema p) with
        | Some name, Some _ =>
            if String.eqb (tp_description p) EmptyString then Err CustomIncomplete
            else
              try _ <- checkCustomToolName name i agentRoute;
              if HasPrefix name MCPModelNamePrefix then Err (NameReserved i name) else Ok tt
        | _, _ => Err CustomIncomplete
        end
      else if String.eqb (tp_type p) mcpToolsetType then
        if String.eqb (tp_server p) EmptyString then Err ServerNameRequired
        else match ValidateMCPToolset item with Ok _ => Ok tt | Err e => Err (ToolsetRefused e) end
      else Err (ToolTypeUnknown (tp_type p))
  end.

Fixpoint each_entry (check : nat -> json -> result spec_refusal unit) (i : nat) (items : list json) : result spec_refusal unit :=
  match items with
  | [] => Ok tt
  | item :: items' => try _ <- check i item; each_entry check (S i) items'
  end.

Definition parseToolsWith (raw : json) (agentRoute : bool) : result spec_refusal (list json) :=
  try items <- rawList raw "tools";
  try _ <- each_entry (parse_tool agentRoute) 0 items;
  Ok items.

(** ** MCP servers *)

Definition hasNonASCII (s : string) : bool := negb (all_bytes (fun c => ord c <? 128) s).

Definition parse_server (i : nat) (item : json) : result spec_refusal unit :=
  match body_field dec_string EmptyString (Some item) "type", body_field dec_string EmptyString (Some item) "name",
        body_field dec_string EmptyString (Some item) "url" with
  | Some typ, Some name, Some url =>
      if negb (String.eqb typ "url") || String.eqb name EmptyString || String.eqb url EmptyString then Err ServerIncomplete
      else if over_runes name maxMCPServerNameRunes then Err (ServerNameTooLong i)
      else if hasNonASCII url then Err (ServerNotURI i)
      else Ok tt
  | _, _, _ => Err ServerNotObject
  end.

Definition parseMCPServers (raw : json) : result spec_refusal (list json) :=
  try items <- rawList raw "mcp_servers";
  try _ <- each_entry parse_server 0 items;
  Ok items.

(** ** The whole spec *)

Definition maxAgentTools : Z := 128.
Definition maxAgentMCPServers : Z := 20.

(** The two lists of [domain.AgentSpec] the check reads. *)
Record agentSpec := MkSpec { sp_tools : list json; sp_servers : list json }.

(** The declared names, in order; [seen] holds those before. *)
Fixpoint check_servers (seen : list string) (items : list json) : result spec_refusal (list string) :=
  match items with
  | [] => Ok []
  | item :: items' =>
      match body_field dec_string EmptyString (Some item) "name" with
      | None => Err ServerNotObject
      | Some name =>
          if mem_string name seen then Err (ServerTwice name)
          else try names <- check_servers (name :: seen) items'; Ok (name :: names)
      end
  end.

(** Names join those taken, each once. *)
Fixpoint take_names (taken names : list string) : result spec_refusal (list string) :=
  match names with
  | [] => Ok taken
  | n :: names' => if mem_string n taken then Err ToolNameTwice else take_names (n :: taken) names'
  end.

(** One entry: the names taken and the servers referenced so far, and with it. *)
Definition check_spec_tool (servers : list string) (st : list string * list string) (item : json)
  : result spec_refusal (list string * list string) :=
  match body_field dec_string EmptyString (Some item) "type", body_field dec_string EmptyString (Some item) "name",
        body_field dec_string EmptyString (Some item) "mcp_server_name" with
  | Some typ, Some name, Some server =>
      if String.eqb typ mcpToolsetType then
        if negb (mem_string server servers) then Err (ServerUndeclared server)
        else match ValidateMCPToolset item with Err e => Err (ToolsetRefused e) | Ok _ => Ok (st.1, server :: st.2) end
      else if String.eqb typ agentToolsetType then
        match Policies item with
        | Err e => Err (ToolsetRefused e)
        | Ok policies => try taken <- take_names st.1 (map_to_list policies).*1; Ok (taken, st.2)
        end
      else try taken <- take_names st.1 [name]; Ok (taken, st.2)
  | _, _, _ => Err ToolNotObject
  end.

Definition checkAgentSpec (spec : agentSpec) (everyServerReferenced : bool) : result spec_refusal unit :=
  if maxAgentTools <? Z.of_nat (length (sp_tools spec)) then Err TooManyTools
  else if maxAgentMCPServers <? Z.of_nat (length (sp_servers spec)) then Err TooManyServers
  else
    try names <- check_servers [] (sp_servers spec);
    try '(_, referenced) <- fold_result (check_spec_tool names) ([], []) (sp_tools spec);
    if everyServerReferenced then
      match find (fun n => negb (mem_string n referenced)) names with
      | Some n => Err (ServerUnreferenced n)
      | None => Ok tt
      end
    else Ok tt.

Definition validateAgentSpec (spec : agentSpec) : result spec_refusal unit := checkAgentSpec spec true.
Definition validatePatchedSessionAgent (spec : agentSpec) : result spec_refusal unit := checkAgentSpec spec false.
