(* ===== verification/Surface.v ===== *)
(** * Surface: the tools a turn offers its model (internal/brain/mcptools.go).

    A thread's role, its agent's tools and the session's MCP listings become the
    definitions of one request and the class of every name the model may call back.  A
    note is a constructor with what its line names.  The definitions the platform renders
    itself are static text, and stand as their names; the bytes [json.Marshal] makes of a
    stored schema are an argument, a document here being its decoded value. *)
From Stdlib Require Import Lia.
From stdpp Require Import pretty.
From S2P Require Import Prelude GoStrings Queue Status Json Domain Consumption Log ToolQuery ToolFlow ToolSettle Outcomes Replay Threadmsg Grading Inbound Turn Delegate Toolset AgentSpec.

Inductive delegationRole := delegationNone | delegationCoordinator | delegationChild.

(** Rendered from [coordinatorDefinitions] and [workerDefinitions]. *)
Definition CoordinatorTools : list string := [ToolCreateAgent; ToolSendToAgent; ToolListAgents; ToolWaitForAgents].
Definition WorkerTools : list string := [ToolSubmitResult; ToolSendToParent].

Definition delegationTools (role : delegationRole) : list string :=
  match role with delegationNone => [] | delegationCoordinator => CoordinatorTools | delegationChild => WorkerTools end.

Definition hasRoster (raw : option json) : bool :=
  match roster_agents raw with Some (_ :: _) => true | _ => false end.

(** The thread's place in the session decides its role. *)
Definition role_of (threadID : string) (multiagent : option json) : delegationRole :=
  if negb (String.eqb threadID EmptyString) then delegationChild
  else if hasRoster multiagent then delegationCoordinator else delegationNone.

(** ** Bounds *)

Definition maxModelToolName : Z := 128.
Definition maxNoteLabel : Z := 256.
Definition maxToolNotes : nat := 16.
Definition maxMCPToolBytes : Z := 262144.
Definition maxUnsupportedNames : nat := maxToolNotes.
Definition maxReportLabel : Z := 4 * 255.

Definition mcpNameFits (server tool : string) : bool :=
  if String.eqb tool EmptyString then false
  else slen MCPModelNamePrefix + slen server + slen "__" + slen tool <=? maxModelToolName.

Definition noteLabel (s : string) : string :=
  if slen s <=? maxNoteLabel then s else TruncateRunes s maxNoteLabel +:+ "[truncated]".

Definition reportLabel (s : string) : string :=
  if slen s <=? maxReportLabel then s else TruncateRunes s maxReportLabel +:+ "[truncated]".

(** ** Notes *)

Inductive tool_note :=
| ShadowedByPlatform (name : string) | ShadowedByBuiltin (name : string) | ShadowedByCustom (name : string)
| NoListing (server : string) | NotReported (server name : string)
| DoesNotFit (tool server : string) | NameTaken (tool server name : string)
| OverBudget (n : Z) | FurtherTools (n : Z).

Record toolNotes := MkNotes { tn_lines : list tool_note; tn_dropped : Z }.

Definition add_note (n : toolNotes) (line : tool_note) : toolNotes :=
  if Nat.leb maxToolNotes (length (tn_lines n)) then MkNotes (tn_lines n) (tn_dropped n + 1)
  else MkNotes (tn_lines n ++ [line]) (tn_dropped n).

Definition render (n : toolNotes) : list tool_note :=
  if tn_dropped n =? 0 then tn_lines n else tn_lines n ++ [FurtherTools (tn_dropped n)].

(** ** Definitions *)

Inductive tool_def :=
| DelegationTool (name : string) | BuiltinTool (name : string)
| DeclaredTool (name description : string) (schema : option json).

Definition def_name (d : tool_def) : string :=
  match d with DelegationTool n | BuiltinTool n | DeclaredTool n _ _ => n end.

Record mcpUnsupported := MkUnsupported { un_server : string; un_tools : list string }.

(** The surface while it is laid down. *)
Record wip := MkWip { w_defs : list tool_def; w_class : gmap string toolClass; w_notes : toolNotes }.

Definition offer (w : wip) (d : tool_def) (c : toolClass) : wip :=
  MkWip (w_defs w ++ [d]) (<[def_name d := c]> (w_class w)) (w_notes w).

Definition note (w : wip) (line : tool_note) : wip := MkWip (w_defs w) (w_class w) (add_note (w_notes w) line).

(** The platform's own come first; inside a session that delegates, the other half of the
    six names is classed and not offered. *)
Definition inject (role : delegationRole) : wip :=
  let w := foldl (fun w n => offer w (DelegationTool n) settled_class) (MkWip [] ∅ (MkNotes [] 0)) (delegationTools role) in
  match role with
  | delegationNone => w
  | _ => MkWip (w_defs w)
           (foldl (fun m n => match m !! n with Some _ => m | None => <[n := settled_class]> m end) (w_class w) delegationToolNames)
           (w_notes w)
  end.

(** ** The agent's own tools *)

Inductive surface_error := AgentTool (e : option toolset_error) | CatalogUnreadable (server : string).

(** An entry as the first pass keeps it. *)
Record toolEntry := MkToolEntry {
  te_type : string; te_name : string; te_description : string; te_schema : option json; te_builtins : list (string * string) }.

Definition read_entry (raw : json) : result surface_error toolEntry :=
  match body_field dec_string EmptyString (Some raw) "type", body_field dec_string EmptyString (Some raw) "name",
        body_field dec_string EmptyString (Some raw) "description", body_field dec_raw None (Some raw) "input_schema" with
  | Some typ, Some name, Some description, Some schema =>
      if String.eqb typ agentToolsetType then
        match Resolve raw with
        | Ok bs => Ok (MkToolEntry typ name description schema bs)
        | Err e => Err (AgentTool (Some e))
        end
      else Ok (MkToolEntry typ name description schema [])
  | _, _, _, _ => Err (AgentTool None)
  end.

Fixpoint read_entries (tools : list json) : result surface_error (list toolEntry) :=
  match tools with
  | [] => Ok []
  | raw :: tools' => try e <- read_entry raw; try es <- read_entries tools'; Ok (e :: es)
  end.

(** Where each enabled built-in and each offerable custom tool sits last. *)
Fixpoint builtin_at (i : nat) (m : gmap string nat) (es : list toolEntry) : gmap string nat :=
  match es with
  | [] => m
  | e :: es' => builtin_at (S i) (foldl (fun m b => <[b.1 := i]> m) m (te_builtins e)) es'
  end.

Fixpoint custom_at (injected : list string) (i : nat) (m : gmap string nat) (es : list toolEntry) : gmap string nat :=
  match es with
  | [] => m
  | e :: es' =>
      custom_at injected (S i)
        (if String.eqb (te_type e) "custom" && negb (mem_string (te_name e) injected) then <[te_name e := i]> m else m) es'
  end.

(** A name also sits past entry [i]. *)
Definition sits_after (m : gmap string nat) (name : string) (i : nat) : bool :=
  match m !! name with Some at_ => Nat.ltb i at_ | None => false end.

Definition custom_class : toolClass := MkClass EventAgentCustomToolUse EmptyString EmptyString EmptyString false false.
Definition builtin_class (policy : string) : toolClass := MkClass EventAgentToolUse policy EmptyString EmptyString false true.

Definition offer_builtin (customAt : gmap string nat) (i : nat) (w : wip) (b : string * string) : wip :=
  if sits_after customAt b.1 i then note w (ShadowedByCustom (noteLabel b.1))
  else offer w (BuiltinTool b.1) (builtin_class b.2).

Definition offer_entry (injected : list string) (builtinAt customAt : gmap string nat) (i : nat) (w : wip) (e : toolEntry) : wip :=
  if String.eqb (te_type e) "custom" then
    if mem_string (te_name e) injected then note w (ShadowedByPlatform (noteLabel (te_name e)))
    else if sits_after builtinAt (te_name e) i then note w (ShadowedByBuiltin (noteLabel (te_name e)))
    else offer w (DeclaredTool (te_name e) (te_description e) (te_schema e)) custom_class
  else if String.eqb (te_type e) agentToolsetType then foldl (offer_builtin customAt i) w (te_builtins e)
  else w.

Fixpoint offer_entries (injected : list string) (builtinAt customAt : gmap string nat) (i : nat) (w : wip) (es : list toolEntry) : wip :=
  match es with
  | [] => w
  | e :: es' => offer_entries injected builtinAt customAt (S i) (offer_entry injected builtinAt customAt i w e) es'
  end.

(** ** The MCP servers' tools *)

Section mcp.
(** The length of a stored schema as a request writes it. *)
Context (schema_len : json -> Z).

(** A declared definition's length: [description], [input_schema] and [name]. *)
Definition def_len (name description : string) (schema : option json) : Z :=
  40 + slen (json_quote description) + (match schema with Some s => schema_len s | None => 4 end) + slen (json_quote name).

Record mcp_wip := MkMcpWip {
  m_w : wip; m_spent : Z; m_over : Z; m_reported : list string; m_unsupported : list mcpUnsupported }.

Definition with_w (st : mcp_wip) (w : wip) : mcp_wip := MkMcpWip w (m_spent st) (m_over st) (m_reported st) (m_unsupported st).

Definition mcp_class (server tool policy : string) : toolClass := MkClass EventAgentMCPToolUse policy server tool false false.

Definition offer_mcp (server : string) (st : mcp_wip) (r : MCPTool * string) : mcp_wip :=
  let '(t, policy) := r in
  let w := m_w st in
  if negb (mcpNameFits server (mt_name t)) then with_w st (note w (DoesNotFit (noteLabel (mt_name t)) (noteLabel server)))
  else
    let name := MCPModelName server (mt_name t) in
    match w_class w !! name with
    | Some _ => with_w st (note w (NameTaken (mt_name t) server name))
    | None =>
        let len := def_len name (mt_description t) (mt_schema t) in
        if maxMCPToolBytes <? m_spent st + len then MkMcpWip w (m_spent st) (m_over st + 1) (m_reported st) (m_unsupported st)
        else MkMcpWip (offer w (DeclaredTool name (mt_description t) (mt_schema t)) (mcp_class server (mt_name t) policy))
               (m_spent st + len) (m_over st) (m_reported st) (m_unsupported st)
    end.

(** What a server returned that no request can name, once per server. *)
Definition report_server (server : string) (listing : list MCPTool) (st : mcp_wip) : mcp_wip :=
  if mem_string server (m_reported st) then st
  else
    let tools := filter (fun n => mcpNameFits server n = false) (map mt_name listing) in
    MkMcpWip (m_w st) (m_spent st) (m_over st) (server :: m_reported st)
      (m_unsupported st ++ match tools with [] => [] | _ => [MkUnsupported server tools] end).

Definition expand_entry (cat : gmap string json) (st : mcp_wip) (raw : json) : result surface_error mcp_wip :=
  match body_field dec_string EmptyString (Some raw) "type", body_field dec_string EmptyString (Some raw) "mcp_server_name" with
  | Some typ, Some server =>
      if negb (String.eqb typ mcpToolsetType) then Ok st
      else
        match cat !! server with
        | None => Ok (with_w st (note (m_w st) (NoListing (noteLabel server))))
        | Some stored =>
            match dec_listing stored with
            | None => Err (CatalogUnreadable server)
            | Some listing =>
                match ResolveMCP raw listing with
                | Err e => Err (AgentTool (Some e))
                | Ok (resolved, unknown) =>
                    let w := foldl (fun w n => note w (NotReported (noteLabel server) (noteLabel n))) (m_w st) unknown in
                    Ok (report_server server listing (foldl (offer_mcp server) (with_w st w) resolved))
                end
            end
        end
  | _, _ => Err (AgentTool None)
  end.

(** ** The whole surface *)

Record resolution := MkResolution {
  rs_defs : list tool_def; rs_class : gmap string toolClass; rs_notes : list tool_note; rs_unsupported : list mcpUnsupported }.

Definition resolveTools (tools : list json) (cat : gmap string json) (role : delegationRole) : result surface_error resolution :=
  let injected := delegationTools role in
  try es <- read_entries tools;
  let w := offer_entries injected (builtin_at 0 ∅ es) (custom_at injected 0 ∅ es) 0 (inject role) es in
  try st <- fold_result (expand_entry cat) (MkMcpWip w 0 0 [] []) tools;
  let w := if 0 <? m_over st then note (m_w st) (OverBudget (m_over st)) else m_w st in
  Ok (MkResolution (w_defs w) (w_class w) (render (w_notes w)) (m_unsupported st)).
End mcp.

(** The built-ins a request offers, for the provider. *)
Definition builtinTools (class : gmap string toolClass) : gset string := dom (filter (fun kc => tc_builtin kc.2 = true) class).

(** ** The catalog *)

Record catalog_row := MkCatalogRow {
  cr_session : string; cr_thread : string; cr_server : string; cr_url : string; cr_status : string; cr_tools : json }.

Record mcpServerRef := MkServerRef { ms_name : string; ms_url : string }.

Fixpoint declaredMCPServers (servers : list json) : option (list mcpServerRef) :=
  match servers with
  | [] => Some []
  | raw :: servers' =>
      name ← body_field dec_string EmptyString (Some raw) "name";
      url ← body_field dec_string EmptyString (Some raw) "url";
      rest ← declaredMCPServers servers';
      Some (if String.eqb name EmptyString || String.eqb url EmptyString then rest else MkServerRef name url :: rest)
  end.

(** The usable listings, and the declared servers never listed at their endpoint. *)
Definition load_server (stored : gmap string catalog_row) (acc : gmap string json * list string) (s : mcpServerRef)
  : gmap string json * list string :=
  match stored !! ms_name s with
  | None => (acc.1, acc.2 ++ [ms_name s])
  | Some r =>
      if negb (String.eqb (cr_url r) (ms_url s)) then (acc.1, acc.2 ++ [ms_name s])
      else if negb (String.eqb (cr_status r) "ready") then acc
      else (<[ms_name s := cr_tools r]> acc.1, acc.2)
  end.

Definition loadMCPCatalog (rows : list catalog_row) (sid threadID : string) (declared : list mcpServerRef) : gmap string json * list string :=
  let mine := filter (fun r => cr_session r = sid /\ cr_thread r = threadID) rows in
  let stored : gmap string catalog_row := foldl (fun m r => <[cr_server r := r]> m) ∅ mine in
  foldl (load_server stored) (∅, []) declared.

(** ** The report *)

Definition quote_name (name : string) : string := "'" +:+ noteLabel name +:+ "'".

Definition unsupported_message (u : mcpUnsupported) : string :=
  let quoted := map quote_name (take maxUnsupportedNames (un_tools u)) in
  let rest := (length (un_tools u) - length quoted)%nat in
  let names := Join quoted ", " +:+ (if Nat.ltb 0 rest then " and " +:+ pretty (Z.of_nat rest) +:+ " more" else EmptyString) in
  let budget := maxModelToolName - slen MCPModelNamePrefix - slen "__" - slen (un_server u) in
  "MCP server '" +:+ reportLabel (un_server u) +:+ "' returned " +:+ pretty (Z.of_nat (length (un_tools u))) +:+
  " tool(s) with unsupported names: " +:+ names +:+ ". Tool names must match [a-zA-Z0-9_-] and be 1-" +:+ pretty budget +:+
  " characters. These tools were skipped.".

Definition unsupportedNamesEvent (u : mcpUnsupported) (threadID : string) : NewEvent :=
  MkNewEvent EmptyString EventSessionError
    (Some (JObject [("error", JObject [
       ("mcp_server_name", JString (reportLabel (un_server u)));
       ("message", JString (unsupported_message u));
       ("retry_status", JObject [("type", JString "retrying")]);
       ("type", JString "mcp_connection_failed_error")])]))
    None threadID false false.

(** The thread's request starts, newest first, by seq. *)
Definition starts (es : list erow) : list Z :=
  reverse (merge_sort Z.le (map e_seq (filter (fun e => e_type e = EventSpanModelRequestStart) es))).

(** Whether the request just started consumes a demand newer than the one before it. *)
Definition first_of_run (db : ldb) (sid threadID : string) : bool :=
  let mine := filter (fun e => e_session e = sid /\ e_thread e = threadID) (l_events db) in
  let after := match starts mine with _ :: prev :: _ => prev | _ => 0 end in
  existsb (fun e => mem_string (e_type e) ConsumedInputs && (after <? e_seq e)) mine.

Definition reportUnsupportedNames (rd : readings) (tb : tables) (sid threadID : string) (unsupported : list mcpUnsupported)
  : result settle_error tables :=
  match unsupported with
  | [] => Ok tb
  | _ =>
      if negb (first_of_run (tb_log tb) sid threadID) then Ok tb
      else append rd tb sid (map (fun u => unsupportedNamesEvent u threadID) unsupported)
             (MkOptions threadID None None 0 false None [] None)
  end.
