(* ===== verification/SurfaceSpec.v ===== *)
(** * SurfaceSpec: what a turn's tools are, whoever declared them (AgentSpec.v, Surface.v)

    The classes are those a turn's commit relies on; what a server lists only adds to what
    the agent's author declared, inside one budget; and a spec the API accepts always
    resolves, to distinct names a model request can carry. *)
From Stdlib Require Import Lia.
From S2P Require Import Prelude GoStrings Queue Status Json Domain Consumption Log ToolQuery ToolFlow ToolSettle Outcomes Replay Threadmsg Grading Inbound InboundSpec Turn Delegate TurnSpec Toolset ToolsetSpec EchoSpec AgentSpec Surface.

(** ** The platform's own names *)

Lemma inject_defs role : w_defs (inject role) = map DelegationTool (delegationTools role).
Proof. by destruct role. Qed.

Lemma injected_class names : forall w n c,
  w_class (foldl (fun w n => offer w (DelegationTool n) settled_class) w names) !! n = Some c ->
  c = settled_class /\ n ∈ names \/ w_class w !! n = Some c.
Proof.
  induction names as [|x names IH]; intros w n c H; [by right|]. cbn in H. destruct (IH _ _ _ H) as [[-> Hn]|Hw]; [left; split; [done|by right]|].
  cbn in Hw. apply lookup_insert_Some in Hw as [[-> <-]|[_ ?]]; [left; split; [done|left]|by right].
Qed.

Lemma unoffered_class names : forall (m : gmap string toolClass) n c,
  foldl (fun m n => match m !! n with Some _ => m | None => <[n := settled_class]> m end) m names !! n = Some c ->
  c = settled_class /\ n ∈ names \/ m !! n = Some c.
Proof.
  induction names as [|x names IH]; intros m n c H; [by right|]. cbn in H. destruct (IH _ _ _ H) as [[-> Hn]|Hw]; [left; split; [done|by right]|].
  destruct (m !! x); [by right|]. apply lookup_insert_Some in Hw as [[-> <-]|[_ ?]]; [left; split; [done|left]|by right].
Qed.

Lemma mem_of x l : x ∈ l -> mem_string x l = true.
Proof. intros H. apply existsb_exists. exists x. split; [by apply list_elem_of_In|apply String.eqb_refl]. Qed.

Lemma inject_class role n c : w_class (inject role) !! n = Some c -> c = settled_class /\ IsDelegationTool n = true.
Proof.
  intros H. assert (Hin : c = settled_class /\ n ∈ delegationToolNames \/ c = settled_class /\ n ∈ delegationTools role).
  { destruct role; unfold inject in H; cbn [w_class] in H; [|apply unoffered_class in H as [?|H]; [by left|]..];
      (apply injected_class in H as [?|H]; [by right|cbn [w_class] in H; by rewrite lookup_empty in H]). }
  assert (n ∈ delegationToolNames /\ c = settled_class) as [Hn ->]; [|split; [done|by apply mem_of]].
  destruct Hin as [[-> ?]|[-> Hn]]; [done|]. split; [|done]. apply member_in. apply mem_of in Hn. revert Hn.
  unfold mem_string. destruct role; cbn; rewrite ?orb_true_iff; tauto.
Qed.

Lemma inject_classed role d : d ∈ w_defs (inject role) -> is_Some (w_class (inject role) !! def_name d).
Proof.
  rewrite inject_defs. intros (n & -> & Hn)%list_elem_of_fmap. cbn [def_name].
  destruct role; cbn in Hn; repeat (apply elem_of_cons in Hn as [->|Hn]; [vm_compute; by eexists|]); by apply not_elem_of_nil in Hn.
Qed.

(** ** Composed names *)

Lemma appendModelName_len s : forall b, slen (appendModelName b s) = slen b + slen s.
Proof.
  induction s as [|c s IH]; intros b; cbn [appendModelName]; [change (slen EmptyString) with 0; lia|]. rewrite IH, slen_append. unfold slen. cbn [String.length]. lia.
Qed.

Lemma MCPModelName_len server tool : slen (MCPModelName server tool) = 7 + slen server + slen tool.
Proof. unfold MCPModelName. rewrite appendModelName_len, slen_append, appendModelName_len. change (slen "mcp__") with 5. change (slen "__") with 2. lia. Qed.

Lemma mcpNameFits_len server tool : mcpNameFits server tool = true -> 7 + slen server + slen tool <= maxModelToolName.
Proof. unfold mcpNameFits. destruct (String.eqb tool _); [done|]. change (slen MCPModelNamePrefix) with 5. change (slen "__") with 2. intros H. bool_prop. lia. Qed.

Lemma appendModelName_class s : forall b, all_bytes model_name_byte b = true -> all_bytes model_name_byte (appendModelName b s) = true.
Proof.
  induction s as [|c s IH]; intros b Hb; cbn [appendModelName]; [done|]. apply IH. rewrite all_bytes_app, Hb. cbn [all_bytes andb].
  destruct (model_name_byte c) eqn:E; [by rewrite E|done].
Qed.

Lemma composed_fits server tool : mcpNameFits server tool = true -> customToolNameRE (MCPModelName server tool) = true.
Proof.
  intros H%mcpNameFits_len. unfold customToolNameRE. apply andb_true_iff. split.
  - apply appendModelName_class. rewrite all_bytes_app, appendModelName_class by done. done.
  - rewrite MCPModelName_len. unfold in_range, maxModelToolName, slen in *. apply andb_true_iff. split; apply Z.leb_le; lia.
Qed.

(** ** The surface while it is laid down *)

(** What a turn's commit needs of a class at its name. *)
Definition class_ok (n : string) (c : toolClass) : Prop :=
  mem_string (tc_kind c) toolUseTypes = true /\
  (tc_settlement c = true -> tc_kind c = EventAgentToolUse /\ IsDelegationTool n = true /\ tc_policy c <> PolicyAlwaysAsk).

(** Each definition is classed, each class is one the commit knows, and a classed name that is
    not offered is one of the six, in a session that delegates. *)
Definition laid (role : delegationRole) (w : wip) : Prop :=
  surface (w_class w) /\ (forall d, d ∈ w_defs w -> is_Some (w_class w !! def_name d)) /\
  forall n c, w_class w !! n = Some c -> n ∈ map def_name (w_defs w) \/ role <> delegationNone /\ IsDelegationTool n = true /\ c = settled_class.

Lemma laid_offer role w d c : laid role w -> class_ok (def_name d) c -> laid role (offer w d c).
Proof.
  intros (Hs & Hd & Hn) Hc. split; [|split].
  - intros n k. cbn. intros [[<- <-]|[_ Hk]]%lookup_insert_Some; [done|by apply Hs].
  - intros x Hx. cbn in *. apply elem_of_app in Hx as [Hx|Hx%list_elem_of_singleton]; [|subst x; by rewrite lookup_insert_eq].
    destruct (decide (def_name d = def_name x)) as [->|Hne]; [by rewrite lookup_insert_eq|]. rewrite lookup_insert_ne by done. by apply Hd.
  - intros n k. cbn. rewrite map_app, elem_of_app. intros [[<- <-]|[_ Hk]]%lookup_insert_Some; [left; right; left|].
    destruct (Hn _ _ Hk); [by left; left|by right].
Qed.

Lemma laid_inject role : laid role (inject role).
Proof.
  split; [|split; [apply inject_classed|]].
  - intros n c [-> Hn]%inject_class. split; [done|]. intros _. by split.
  - intros n c Hc. destruct (inject_class _ _ _ Hc) as [-> Hn]. right. split; [|done]. intros ->. change (w_class (inject delegationNone)) with (∅ : gmap string toolClass) in Hc. by rewrite lookup_empty in Hc.
Qed.

Lemma custom_ok n : class_ok n custom_class. Proof. by split. Qed.
Lemma builtin_ok n p : class_ok n (builtin_class p). Proof. by split. Qed.
Lemma mcp_ok n s t p : class_ok n (mcp_class s t p). Proof. by split. Qed.
#[local] Hint Resolve laid_offer laid_inject custom_ok builtin_ok mcp_ok : go.

(** What the agent's own tools lay down, before any server's. *)
Definition own (es : list toolEntry) (role : delegationRole) : wip :=
  let injected := delegationTools role in
  offer_entries injected (builtin_at 0 ∅ es) (custom_at injected 0 ∅ es) 0 (inject role) es.

(** What the platform's share has, and notes and offers of the agent's own tools keep. *)
Lemma own_keeps (P : wip -> Prop) es role :
  P (inject role) -> (forall w line, P w -> P (note w line)) ->
  (forall w e, P w -> e ∈ es -> te_type e = "custom" -> te_name e ∉ delegationTools role ->
     P (offer w (DeclaredTool (te_name e) (te_description e) (te_schema e)) custom_class)) ->
  (forall w e b, P w -> e ∈ es -> te_type e = agentToolsetType -> b ∈ te_builtins e -> P (offer w (BuiltinTool b.1) (builtin_class b.2))) ->
  P (own es role).
Proof.
  intros H0 Hnote Hcustom Hbuiltin. unfold own. cbv zeta. generalize (builtin_at 0 ∅ es), (custom_at (delegationTools role) 0 ∅ es). intros bA cA.
  assert (Hall : forall l i w, (forall e, e ∈ l -> e ∈ es) -> P w -> P (offer_entries (delegationTools role) bA cA i w l)); [|by apply Hall].
  induction l as [|e l IH]; intros i w Hl Hw; [done|]. cbn [offer_entries]. apply IH; [intros; apply Hl; by right|]. specialize (Hl e ltac:(left)).
  unfold offer_entry. destruct (String.eqb_spec (te_type e) "custom") as [Hty|].
  - destruct (mem_string _ _) eqn:Em; [auto|]. destruct (sits_after _ _ _); [auto|]. apply Hcustom; auto. intros Hin%mem_of. congruence.
  - destruct (String.eqb_spec (te_type e) agentToolsetType) as [Hty|]; [|done].
    assert (Hbs : forall bs w, (forall b, b ∈ bs -> b ∈ te_builtins e) -> P w -> P (foldl (offer_builtin cA i) w bs)); [|by apply Hbs].
    induction bs as [|b bs IHb]; intros w' Hbs Hw'; [done|]. cbn. apply IHb; [intros; apply Hbs; by right|].
    unfold offer_builtin. destruct (sits_after _ _ _); [auto|]. eapply Hbuiltin; eauto. apply Hbs. left.
Qed.

Lemma laid_own es role : laid role (own es role).
Proof. apply own_keeps; auto with go. Qed.

Lemma own_no_mcp es role n c : w_class (own es role) !! n = Some c -> tc_kind c <> EventAgentMCPToolUse.
Proof.
  revert n c. apply (own_keeps (fun w => forall n c, w_class w !! n = Some c -> tc_kind c <> EventAgentMCPToolUse)).
  - by intros n c [-> _]%inject_class.
  - done.
  - intros w e H _ _ _ n c. cbn. intros [[_ <-]|[_ ?]]%lookup_insert_Some; [done|by eapply H].
  - intros w e b H _ _ _ n c. cbn. intros [[_ <-]|[_ ?]]%lookup_insert_Some; [done|by eapply H].
Qed.

(** ** The servers' share *)

Section mcp.
Context (schema_len : json -> Z).

(** An offer of a server's tool, granted. *)
Definition grants (server : string) (st : mcp_wip) (t : MCPTool) : Prop :=
  mcpNameFits server (mt_name t) = true /\ w_class (m_w st) !! MCPModelName server (mt_name t) = None /\
  m_spent st + def_len schema_len (MCPModelName server (mt_name t)) (mt_description t) (mt_schema t) <= maxMCPToolBytes.

Definition granted (server : string) (st : mcp_wip) (t : MCPTool) (p : string) : mcp_wip :=
  let name := MCPModelName server (mt_name t) in
  MkMcpWip (offer (m_w st) (DeclaredTool name (mt_description t) (mt_schema t)) (mcp_class server (mt_name t) p))
    (m_spent st + def_len schema_len name (mt_description t) (mt_schema t)) (m_over st) (m_reported st) (m_unsupported st).

(** A property of the state that notes and reports keep, and that granted offers keep, is kept. *)
Section keeps.
Context (tools : list json) (cat : gmap string json) (P : mcp_wip -> Prop).
Hypothesis Hside : forall st st', P st -> w_defs (m_w st') = w_defs (m_w st) -> w_class (m_w st') = w_class (m_w st) -> m_spent st' = m_spent st -> P st'.
Hypothesis Hgrant : forall st raw server listing resolved unknown t p,
  P st -> raw ∈ tools -> body_field dec_string EmptyString (Some raw) "type" = Some mcpToolsetType ->
  body_field dec_string EmptyString (Some raw) "mcp_server_name" = Some server ->
  ResolveMCP raw listing = Ok (resolved, unknown) -> (t, p) ∈ resolved -> grants server st t -> P (granted server st t p).

Lemma notes_kept {A} (f : A -> tool_note) l : forall w,
  w_defs (foldl (fun w x => note w (f x)) w l) = w_defs w /\ w_class (foldl (fun w x => note w (f x)) w l) = w_class w.
Proof. induction l as [|x l IH]; intros w; [done|]. cbn. by destruct (IH (note w (f x))) as [-> ->]. Qed.

Lemma expand_entry_keeps st raw st' : raw ∈ tools -> P st -> expand_entry schema_len cat st raw = Ok st' -> P st'.
Proof.
  intros Hin HP. unfold expand_entry.
  destruct (body_field _ _ _ "type") as [typ|] eqn:Ety; [|done]. destruct (body_field _ _ _ "mcp_server_name") as [server|] eqn:Esv; [|done].
  destruct (String.eqb_spec typ mcpToolsetType) as [->|]; cbn [negb]; [|by intros [= <-]].
  destruct (cat !! server) as [stored|]; [|intros [= <-]; by apply (Hside st)].
  destruct (dec_listing stored) as [listing|]; [|done]. destruct (ResolveMCP raw listing) as [[resolved unknown]|] eqn:Er; [|done].
  intros [= <-]. set (w := foldl _ _ unknown).
  assert (Hw : P (with_w st w)) by (destruct (notes_kept (fun n => NotReported (noteLabel server) (noteLabel n)) unknown (m_w st)); by apply (Hside st)).
  assert (Hall : forall rs, (forall r, r ∈ rs -> r ∈ resolved) -> forall st, P st -> P (foldl (offer_mcp schema_len server) st rs)).
  { clear -Hside Hgrant Hin Ety Esv Er. induction rs as [|[t p] rs IH]; intros Hrs st HP; [done|]. cbn [foldl]. apply IH; [intros; apply Hrs; by right|].
    unfold offer_mcp. destruct (mcpNameFits server (mt_name t)) eqn:Ef; cbn [negb]; [|by apply (Hside st)].
    destruct (w_class (m_w st) !! _) eqn:Ec; [by apply (Hside st)|]. destruct (maxMCPToolBytes <? _) eqn:Eb; [by apply (Hside st)|].
    bool_prop. apply (Hgrant st raw server listing resolved unknown t p); auto; [apply Hrs; left|by split]. }
  specialize (Hall resolved (fun _ h => h) _ Hw). unfold report_server. destruct (mem_string _ _); [done|by eapply Hside].
Qed.
End keeps.

(** ** The surface, whole *)

Lemma resolve_inv tools cat role rs : resolveTools schema_len tools cat role = Ok rs ->
  exists es st, read_entries tools = Ok es /\ fold_result (expand_entry schema_len cat) (MkMcpWip (own es role) 0 0 [] []) tools = Ok st /\
    rs_defs rs = w_defs (m_w st) /\ rs_class rs = w_class (m_w st).
Proof.
  unfold resolveTools. intros (es & He & (st & Hs & [= <-])%bind_ok)%bind_ok. exists es, st. split; [done|]. split; [done|].
  by destruct (0 <? m_over st).
Qed.

(** C15: whatever an agent declares and its servers list, the classes a turn is handed are those its
    commit relies on: every offered name is classed; a class commits as one of the three
    calls; and one the settlement answers is a delegation tool's and asks nobody.  A name
    classed and not offered is one of the six, in a session that delegates. *)
Theorem resolveTools_surface (tools : list json) (cat : gmap string json) (role : delegationRole) (rs : resolution)
    (H : resolveTools schema_len tools cat role = Ok rs) :
  surface (rs_class rs) /\
  (forall d, d ∈ rs_defs rs -> is_Some (rs_class rs !! def_name d)) /\
  (forall n c, rs_class rs !! n = Some c -> n ∈ map def_name (rs_defs rs) \/
     role <> delegationNone /\ IsDelegationTool n = true /\ c = settled_class).
Proof.
  destruct (resolve_inv _ _ _ _ H) as (es & st & _ & Hf & -> & ->). change (laid role (m_w st)). revert Hf.
  apply (fold_result_in _ (fun st => laid role (m_w st))); [|apply laid_own]. intros a x a' Hx Ha.
  apply (expand_entry_keeps tools cat (fun st => laid role (m_w st))); [|intros; cbn; auto with go|done|done].
  intros s s' Hs Hd Hc _. unfold laid. by rewrite Hd, Hc.
Qed.

(** ** What a server's listing may add *)

(** The bytes a definition takes of the budget. *)
Definition charged (d : tool_def) : Z := match d with DeclaredTool n d s => def_len schema_len n d s | _ => 0 end.
Definition total (ds : list tool_def) : Z := foldr (fun d z => charged d + z) 0 ds.

Lemma total_app a b : total (a ++ b) = total a + total b.
Proof. unfold total. induction a as [|x a IH]; cbn [app foldr]; lia. Qed.

(** A definition a server's tool got, under the class it commits as. *)
Definition from_server (class : gmap string toolClass) (d : tool_def) : Prop :=
  exists server tool policy, mcpNameFits server tool = true /\ def_name d = MCPModelName server tool /\
    class !! def_name d = Some (mcp_class server tool policy).

Definition added (w0 : wip) (st : mcp_wip) : Prop :=
  exists more, w_defs (m_w st) = w_defs w0 ++ more /\ w_class w0 ⊆ w_class (m_w st) /\ total more = m_spent st /\
    m_spent st <= maxMCPToolBytes /\
    Forall (fun d => w_class w0 !! def_name d = None /\ from_server (w_class (m_w st)) d) more.

Lemma from_server_mono c c' d : c ⊆ c' -> from_server c d -> from_server c' d.
Proof. intros Hs (sv & t & p & Hf & Hn & Hc). exists sv, t, p. split; [done|]. split; [done|]. by eapply lookup_weaken. Qed.

Lemma added_granted w0 server st t p : added w0 st -> grants server st t -> added w0 (granted server st t p).
Proof.
  intros (more & Hd & Hc & Ht & Hb & Hf) (Hfit & Hnone & Hlen). unfold granted. set (d := DeclaredTool _ _ _).
  assert (Hsub : w_class (m_w st) ⊆ <[def_name d := mcp_class server (mt_name t) p]> (w_class (m_w st))) by by apply insert_subseteq.
  exists (more ++ [d]). cbn [m_w m_spent offer w_defs w_class]. rewrite Hd, <- app_assoc. split; [done|]. split; [by etransitivity|].
  split; [rewrite total_app; unfold total at 2; cbn [foldr charged d]; lia|]. split; [done|]. apply Forall_app. split.
  - eapply Forall_impl; [done|]. intros x [? ?]. split; [done|by eapply from_server_mono].
  - apply Forall_singleton. split; [by eapply lookup_weaken_None|]. exists server, (mt_name t), p.
    split; [done|]. split; [done|]. by rewrite lookup_insert_eq.
Qed.

Lemma expand_none st raw st' cat : expand_entry schema_len cat st raw = Ok st' -> forall s, exists s', expand_entry schema_len ∅ s raw = Ok s' /\
  w_defs (m_w s') = w_defs (m_w s) /\ w_class (m_w s') = w_class (m_w s).
Proof.
  unfold expand_entry. destruct (body_field _ _ _ "type") as [typ|]; [|done]. destruct (body_field _ _ _ "mcp_server_name") as [server|]; [|done].
  intros _ s. destruct (negb _); [by exists s|]. rewrite lookup_empty. by eexists.
Qed.

Lemma expand_all_none tools cat : forall st st', fold_result (expand_entry schema_len cat) st tools = Ok st' -> forall s, exists s',
  fold_result (expand_entry schema_len ∅) s tools = Ok s' /\ w_defs (m_w s') = w_defs (m_w s) /\ w_class (m_w s') = w_class (m_w s).
Proof.
  induction tools as [|x tools IH]; intros st st' H s; [by exists s|]. cbn in H. apply bind_ok in H as (a & Hx & Hr).
  destruct (expand_none _ _ _ _ Hx s) as (s1 & E1 & Hd1 & Hc1). destruct (IH _ _ Hr s1) as (s2 & E2 & Hd2 & Hc2).
  exists s2. cbn. rewrite E1. split; [done|]. by rewrite Hd2, Hc2.
Qed.

(** What the servers list only adds: the surface with them keeps every definition, in its place,
    and every class it has without them, so a name the agent's author declared is never a
    server's; what they add commits as their own calls, under a composed name of at most 128
    bytes; and all of it together takes at most 256 KiB of the request. *)
Theorem catalog_only_adds (tools : list json) (cat : gmap string json) (role : delegationRole) (rs : resolution)
    (H : resolveTools schema_len tools cat role = Ok rs) :
  exists rs0 more, resolveTools schema_len tools ∅ role = Ok rs0 /\ rs_defs rs = rs_defs rs0 ++ more /\
    rs_class rs0 ⊆ rs_class rs /\ total more <= maxMCPToolBytes /\
    Forall (fun d => rs_class rs0 !! def_name d = None /\ slen (def_name d) <= maxModelToolName /\ from_server (rs_class rs) d) more.
Proof.
  destruct (resolve_inv _ _ _ _ H) as (es & st & He & Hf & -> & ->).
  destruct (expand_all_none _ _ _ _ Hf (MkMcpWip (own es role) 0 0 [] [])) as (s0 & E0 & Hd0 & Hc0).
  assert (Hadd : added (own es role) st).
  { revert Hf. apply (fold_result_in _ (added (own es role))); [|by exists []; cbn; rewrite app_nil_r].
    intros a x a' Hx Ha. apply (expand_entry_keeps tools cat (added (own es role))); [|intros; by apply added_granted|done|done].
    intros s s' Hs Hd Hc Hsp. unfold added in *. by rewrite Hd, Hc, Hsp. }
  destruct Hadd as (more & Hd & Hc & Ht & Hb & Hall). exists (MkResolution (w_defs (m_w s0)) (w_class (m_w s0)) (render (w_notes (if 0 <? m_over s0 then note (m_w s0) (OverBudget (m_over s0)) else m_w s0))) (m_unsupported s0)), more.
  cbn. rewrite Hd0, Hc0. split; [|split; [done|split; [done|split; [lia|]]]].
  - unfold resolveTools. rewrite He. cbv zeta. fold (own es role). rewrite E0. by destruct (0 <? m_over s0); cbn; rewrite Hd0, Hc0.
  - eapply Forall_impl; [done|]. intros d [Hn Hfs]. split; [done|]. split; [|done]. destruct Hfs as (sv & t & p & Hfit & -> & _).
    rewrite MCPModelName_len. by apply mcpNameFits_len.
Qed.

(** ** A spec the API accepted *)

(** Its tools parsed on a route, its whole checked, and no key of it repeated. *)
Definition accepted (spec : agentSpec) (agentRoute everyServerReferenced : bool) : Prop :=
  parseToolsWith (JArray (sp_tools spec)) agentRoute = Ok (sp_tools spec) /\
  checkAgentSpec spec everyServerReferenced = Ok tt /\
  unique_keys (JArray (sp_tools spec)) = true.

Lemma each_entry_Ok check items : forall i, each_entry check i items = Ok tt -> forall item, item ∈ items -> exists k, check k item = Ok tt.
Proof.
  induction items as [|x items IH]; intros i H item Hin; [by apply not_elem_of_nil in Hin|]. cbn in H. apply bind_ok in H as ([] & Hx & Hr).
  apply elem_of_cons in Hin as [->|Hin]; [by exists i|by eapply IH].
Qed.

Lemma parsed_each raw agentRoute items : parseToolsWith raw agentRoute = Ok items -> forall item, item ∈ items -> exists i, parse_tool agentRoute i item = Ok tt.
Proof. unfold parseToolsWith. intros (l & _ & ([] & H & [= <-])%bind_ok)%bind_ok. by eapply each_entry_Ok. Qed.

Lemma body_object {A} (dec : A -> json -> option A) zero raw f v :
  body_field dec zero (Some raw) f = Some v -> v = zero /\ raw = JNull \/ exists ms, raw = JObject ms /\ decode_field dec f zero ms = Some v.
Proof. destruct raw; cbn; try done; [intros [= <-]; by left|intros H; right; by eexists]. Qed.

(** A pointer that is set holds what the plain field does. *)
Lemma ptr_field f ms : forall (p : option string) s q, (forall x, p = Some x -> s = x) -> decode_field dec_string_ptr f p ms = Some q ->
  exists t, decode_field dec_string f s ms = Some t /\ forall x, q = Some x -> t = x.
Proof.
  induction ms as [|[k v] ms IH]; intros p s q Hp H; cbn in *; [injection H as <-; by exists s|].
  destruct (key_matches k f); [|by eapply IH]. destruct v; cbn in *; try done; (eapply IH; [|exact H]); naive_solver.
Qed.

Lemma ptr_body f raw q : body_field dec_string_ptr None (Some raw) f = Some q ->
  exists t, body_field dec_string EmptyString (Some raw) f = Some t /\ forall x, q = Some x -> t = x.
Proof.
  intros [[-> ->]|(ms & -> & H)]%body_object; [by exists EmptyString; split; [|intros ? [=]]|]. cbn. by apply (ptr_field f ms None).
Qed.

Lemma parse_mcp agentRoute i item :
  parse_tool agentRoute i item = Ok tt -> body_field dec_string EmptyString (Some item) "type" = Some mcpToolsetType -> ValidateMCPToolset item = Ok tt.
Proof.
  unfold parse_tool, dec_tool_probe. intros H Ht. rewrite Ht in H. cbn [mbind option_bind] in H.
  destruct (body_field dec_string_ptr _ _ _) as [nm|]; [|done]. destruct (body_field _ _ _ "description") as [ds|]; [|done].
  destruct (body_field _ _ _ "mcp_server_name") as [sv|]; [|done]. destruct (body_field dec_raw _ _ _) as [sc|]; [|done]. cbn in H.
  destruct (String.eqb sv _); [done|]. by destruct (ValidateMCPToolset item) as [[]|].
Qed.

(** C11: an MCP tool's calls run unconfirmed only where the agent's entry for its server, which
    as stored repeats no key, says [always_allow] for it, in its own keys or its default's: every other one it enables
    asks, and none it turns off is offered. *)
Theorem mcp_tools_ask (spec : agentSpec) (agentRoute everyServerReferenced : bool) (cat : gmap string json) (role : delegationRole) (rs : resolution)
    (Hspec : accepted spec agentRoute everyServerReferenced) (H : resolveTools schema_len (sp_tools spec) cat role = Ok rs) :
  forall n c, rs_class rs !! n = Some c -> tc_kind c = EventAgentMCPToolUse ->
  exists top, JObject top ∈ sp_tools spec /\ body_field dec_string EmptyString (Some (JObject top)) "mcp_server_name" = Some (tc_server c) /\
    on (effective top (tc_tool c)) = true /\
    (tc_policy c = PolicyAlwaysAsk \/ tc_policy c = PolicyAlwaysAllow /\ st_policy (effective top (tc_tool c)) = Some PolicyAlwaysAllow).
Proof.
  destruct Hspec as (Hp & _ & Hu). destruct (resolve_inv _ _ _ _ H) as (es & st & _ & Hf & _ & ->). revert Hf.
  apply (fold_result_in _ (fun st => forall n c, w_class (m_w st) !! n = Some c -> tc_kind c = EventAgentMCPToolUse -> _));
    [|intros n c Hc Hk; by apply own_no_mcp in Hc].
  intros a x a' Hx Ha.
  apply (expand_entry_keeps (sp_tools spec) cat (fun st => forall n c, w_class (m_w st) !! n = Some c -> tc_kind c = EventAgentMCPToolUse -> _)); [| |done|done].
  { intros s s' Hs _ Hc _ n c. rewrite Hc. by apply Hs. }
  intros s raw server listing resolved unknown t p Hs Hin Hty Hsv Hr Hmem _ n c. cbn. intros [[_ <-]|[_ Hc]]%lookup_insert_Some; [|by eapply Hs]. intros _. cbn.
  destruct (parsed_each _ _ _ Hp _ Hin) as (i & Hv%parse_mcp); [|done].
  destruct (ValidateMCPToolset_Ok _ Hv) as (top & e & -> & Hk & He & Hd & Hi). rewrite (ResolveMCP_valid _ e) in Hr by (done || by eapply unique_item).
  injection Hr as <- _. apply list_elem_of_omap in Hmem as (t' & _ & E). unfold resolves in E. destruct (on _) eqn:Eon; [|done]. cbn in E. injection E as -> <-.
  exists top. split; [done|]. split; [done|]. split; [done|]. pose proof (effective_ok top (mt_name t) Hd Hi) as Hok. unfold policy_ok in Hok.
  destruct (st_policy (effective top (mt_name t))) as [q|]; [|by left]. cbn.
  apply elem_of_cons in Hok as [->|[->|Hok]%elem_of_cons]; [by right|by left|by apply not_elem_of_nil in Hok].
Qed.

(** ** An accepted spec's entries, read *)

(** The names an entry of the agent's own tools takes. *)
Definition names_of (e : toolEntry) : list string :=
  if String.eqb (te_type e) "custom" then [te_name e] else if String.eqb (te_type e) agentToolsetType then map fst (te_builtins e) else [].

(** What an accepted entry reads as. *)
Definition entry_ok (item : json) (e : toolEntry) : Prop :=
  body_field dec_string EmptyString (Some item) "type" = Some (te_type e) /\
  body_field dec_string EmptyString (Some item) "name" = Some (te_name e) /\
  (exists server, body_field dec_string EmptyString (Some item) "mcp_server_name" = Some server) /\
  (te_type e = "custom" /\ customToolNameRE (te_name e) = true \/
   te_type e = agentToolsetType /\ resolveToolset item = Ok (te_builtins e) \/
   te_type e = mcpToolsetType /\ ValidateMCPToolset item = Ok tt).

Lemma checkCustomToolName_Ok name i agentRoute : checkCustomToolName name i agentRoute = Ok tt -> customToolNameRE name = true.
Proof. unfold checkCustomToolName. destruct (customToolNameRE name); [done|]. split_ifs; done. Qed.

Lemma parse_tool_reads agentRoute i item : parse_tool agentRoute i item = Ok tt -> exists e, read_entry item = Ok e /\ entry_ok item e.
Proof.
  unfold parse_tool, dec_tool_probe, read_entry, entry_ok. intros H.
  destruct (body_field dec_string _ _ "type") as [typ|]; [|done]. cbn [mbind option_bind] in H.
  destruct (body_field dec_string_ptr _ _ _) as [nm|] eqn:En; [|done]. destruct (ptr_body "name" item nm En) as (name & -> & Hname). cbn [mbind option_bind] in H.
  destruct (body_field _ _ _ "description") as [ds|]; [|done]. destruct (body_field _ _ _ "mcp_server_name") as [sv|]; [|done].
  destruct (body_field dec_raw _ _ _) as [sc|]; [|done]. cbn [mbind option_bind tp_type tp_name tp_description tp_server tp_schema] in H.
  destruct (String.eqb_spec typ agentToolsetType) as [->|].
  - unfold Validate, Resolve in *. destruct (resolveToolset item) as [rs|]; [|by destruct (agentRoute && _)]. eexists. split; [done|]. cbn. eauto 8.
  - eexists. split; [done|]. cbn. split; [done|]. split; [done|]. split; [by eexists|]. destruct (String.eqb_spec typ "custom") as [->|].
    + left. split; [done|]. destruct nm as [nm|]; [|done]. rewrite (Hname nm eq_refl). destruct (present sc); [|done]. destruct (String.eqb ds _); [done|].
      by apply bind_ok in H as ([] & H%checkCustomToolName_Ok & _).
    + right; right. destruct (String.eqb_spec typ mcpToolsetType) as [->|]; [|done]. split; [done|]. destruct (String.eqb sv _); [done|].
      by destruct (ValidateMCPToolset item) as [[]|].
Qed.

Lemma accepted_entries_read agentRoute items :
  (forall item, item ∈ items -> exists i, parse_tool agentRoute i item = Ok tt) ->
  exists es, read_entries items = Ok es /\ Forall2 entry_ok items es.
Proof.
  induction items as [|x items IH]; intros H; [by exists []|]. destruct (H x ltac:(left)) as [i Hx].
  destruct (parse_tool_reads _ _ _ Hx) as (e & Ee & He). destruct IH as (es & Es & Hes); [intros; apply H; by right|].
  exists (e :: es). cbn. rewrite Ee, Es. by split; [|constructor].
Qed.

(** Resolved built-ins are the wire's, each at most once. *)
Lemma omap_fst_sublist (f : string -> option string) names : (omap (fun n => p ← f n; Some (n, p)) names).*1 `sublist_of` names.
Proof. induction names as [|n names IH]; [done|]. cbn. destruct (f n); cbn; by constructor. Qed.

Lemma resolved_names raw rs : resolveToolset raw = Ok rs -> rs.*1 `sublist_of` definitions.
Proof.
  unfold resolveToolset. destruct (dec_entry raw); [|done]. intros ([] & _ & [-> _]%resolve_defs_Ok)%bind_ok. apply omap_fst_sublist.
Qed.

Lemma definitions_facts : NoDup definitions /\ Forall (fun n => customToolNameRE n = true /\ IsDelegationTool n = false) definitions.
Proof. split; [|by repeat constructor]. apply NoDup_ListNoDup. repeat constructor; cbn; intuition discriminate. Qed.

Lemma take_names_Ok names : forall taken taken', take_names taken names = Ok taken' -> NoDup taken -> NoDup taken' /\ taken' ≡ₚ names ++ taken.
Proof.
  induction names as [|n names IH]; intros taken taken' H Hnd; cbn in H; [by injection H as <-|].
  destruct (mem_string n taken) eqn:E; [done|]. destruct (IH _ _ H) as [Hnd' Hp].
  - apply NoDup_cons. split; [|done]. intros Hin%mem_of. congruence.
  - split; [done|]. rewrite Hp. symmetry. apply Permutation_middle.
Qed.

Lemma policies_names raw policies rs : Policies raw = Ok policies -> resolveToolset raw = Ok rs -> (map_to_list policies).*1 ≡ₚ rs.*1.
Proof.
  unfold Policies. intros H Hr. rewrite Hr in H. injection H as <-. rewrite map_to_list_to_map; [done|].
  eapply sublist_NoDup; [apply definitions_facts|by eapply resolved_names].
Qed.

(** The names the whole check takes are those the entries hold. *)
Lemma check_tools_names servers items es : Forall2 entry_ok items es -> forall st st',
  fold_result (check_spec_tool servers) st items = Ok st' -> NoDup st.1 -> NoDup st'.1 /\ st'.1 ≡ₚ (es ≫= names_of) ++ st.1.
Proof.
  induction 1 as [|item e items es He _ IH]; intros st st' H Hnd; [cbn in H; by injection H as <-|]. cbn [fold_result] in H.
  apply bind_ok in H as (st1 & Hx & Hr).
  assert (Hstep : NoDup st1.1 /\ st1.1 ≡ₚ names_of e ++ st.1).
  { unfold check_spec_tool in Hx. destruct He as (Ht & Hn & (sv & Hs) & Hcase). rewrite Ht, Hn, Hs in Hx. unfold names_of.
    destruct Hcase as [[Ety _]|[[Ety Hrs]|[Ety _]]]; rewrite Ety in Hx |- *; cbn [String.eqb] in Hx |- *.
    - apply bind_ok in Hx as (taken & Htk & [= <-]). by apply (take_names_Ok [te_name e]) in Htk.
    - change (String.eqb agentToolsetType mcpToolsetType) with false in Hx. change (String.eqb agentToolsetType agentToolsetType) with true in *.
      change (String.eqb agentToolsetType "custom") with false. cbv iota in Hx |- *. destruct (Policies item) as [pol|] eqn:Ep; [|done].
      apply bind_ok in Hx as (taken & Htk & [= <-]). apply take_names_Ok in Htk as [? Hp]; [|done]. split; [done|]. cbn [fst]. rewrite Hp.
      by rewrite (policies_names _ _ _ Ep Hrs).
    - change (String.eqb mcpToolsetType mcpToolsetType) with true in Hx. cbv iota in Hx. change (String.eqb mcpToolsetType "custom") with false.
      change (String.eqb mcpToolsetType agentToolsetType) with false. destruct (negb _); [done|]. destruct (ValidateMCPToolset item); [|done]. by injection Hx as <-. }
  destruct Hstep as [Hnd1 Hp1]. destruct (IH _ _ Hr Hnd1) as [Hnd2 Hp2]. split; [done|]. rewrite Hp2, Hp1. cbn. rewrite !app_assoc.
  apply Permutation_app_tail, Permutation_app_comm.
Qed.

(** ** What an accepted spec offers *)

Lemma builtin_names customAt i bs : forall w, exists l, l `sublist_of` map fst bs /\
  map def_name (w_defs (foldl (offer_builtin customAt i) w bs)) = map def_name (w_defs w) ++ l.
Proof.
  induction bs as [|b bs IH]; intros w; [exists []; split; [done|by rewrite app_nil_r]|]. cbn.
  destruct (IH (offer_builtin customAt i w b)) as (l & Hl & ->). unfold offer_builtin. destruct (sits_after _ _ _).
  - exists l. split; [by constructor|done].
  - exists (b.1 :: l). split; [by constructor|]. cbn. by rewrite map_app, <- app_assoc.
Qed.

Lemma entry_names injected bA cA i w e :
  exists l, l `sublist_of` names_of e /\ map def_name (w_defs (offer_entry injected bA cA i w e)) = map def_name (w_defs w) ++ l.
Proof.
  unfold offer_entry, names_of. destruct (String.eqb (te_type e) "custom").
  - destruct (mem_string _ _); [exists []; split; [by repeat constructor|by rewrite app_nil_r]|].
    destruct (sits_after _ _ _); [exists []; split; [by repeat constructor|by rewrite app_nil_r]|].
    exists [te_name e]. split; [done|]. cbn. by rewrite map_app.
  - destruct (String.eqb (te_type e) agentToolsetType); [apply builtin_names|exists []; split; [done|by rewrite app_nil_r]].
Qed.

Lemma entries_names injected bA cA es : forall i w, exists l, l `sublist_of` (es ≫= names_of) /\
  map def_name (w_defs (offer_entries injected bA cA i w es)) = map def_name (w_defs w) ++ l.
Proof.
  induction es as [|e es IH]; intros i w; [exists []; split; [done|by rewrite app_nil_r]|]. cbn.
  destruct (IH (S i) (offer_entry injected bA cA i w e)) as (l2 & Hl2 & ->). destruct (entry_names injected bA cA i w e) as (l1 & Hl1 & ->).
  exists (l1 ++ l2). split; [by apply sublist_app|by rewrite app_assoc].
Qed.

Lemma own_snoc base w d c :
  (forall l, map def_name (w_defs w) = base ++ l -> forall n, n ∈ l -> n ∉ base) -> def_name d ∉ base ->
  forall l, map def_name (w_defs (offer w d c)) = base ++ l -> forall n, n ∈ l -> n ∉ base.
Proof.
  intros Hw Hd l E n Hn. cbn in E. rewrite map_app in E. cbn in E. destruct l as [|y l _] using rev_ind; [by apply not_elem_of_nil in Hn|].
  rewrite app_assoc in E. apply app_inj_tail in E as [E <-]. apply elem_of_app in Hn as [Hn|Hn%list_elem_of_singleton]; [by eapply Hw|by subst n].
Qed.

(** The name of every definition the agent's own tools got is a name a request takes, and is
    none of the thread's delegation tools. *)
Lemma own_names tools es role : Forall2 entry_ok tools es ->
  Forall (fun d => customToolNameRE (def_name d) = true) (w_defs (own es role)) /\
  forall l, map def_name (w_defs (own es role)) = delegationTools role ++ l -> forall n, n ∈ l -> n ∉ delegationTools role.
Proof.
  intros Hes.
  assert (Hent : forall e, e ∈ es -> exists item, entry_ok item e).
  { intros e [i Hi]%list_elem_of_lookup. destruct (Forall2_lookup_r _ _ _ _ _ Hes Hi) as (item & _ & ?). by exists item. }
  assert (Hb : forall e b, e ∈ es -> te_type e = agentToolsetType -> b ∈ te_builtins e -> customToolNameRE b.1 = true /\ IsDelegationTool b.1 = false).
  { intros e b He Hty Hin. destruct (Hent _ He) as (item & _ & _ & _ & [[E _]|[[_ Hrs]|[E _]]]); try (rewrite E in Hty; discriminate).
    apply resolved_names in Hrs. destruct definitions_facts as [_ Hf]. rewrite Forall_forall in Hf. apply Hf.
    eapply elem_of_submseteq; [|by apply sublist_submseteq]. apply list_elem_of_fmap. by exists b. }
  assert (Hd : forall n, n ∈ delegationTools role -> customToolNameRE n = true /\ IsDelegationTool n = true).
  { intros n Hn. assert (Hall : Forall (fun n => customToolNameRE n = true /\ IsDelegationTool n = true) (delegationTools role)) by (destruct role; repeat constructor).
    rewrite Forall_forall in Hall. by apply Hall. }
  split.
  - apply (own_keeps (fun w => Forall (fun d => customToolNameRE (def_name d) = true) (w_defs w))).
    + rewrite inject_defs. apply Forall_forall. intros d (n & -> & Hn)%list_elem_of_fmap. by apply Hd.
    + done.
    + intros w e Hw He Hty _. cbn. apply Forall_app. split; [done|]. apply Forall_singleton. cbn.
      destruct (Hent _ He) as (item & _ & _ & _ & [[_ ?]|[[E _]|[E _]]]); [done|rewrite E in Hty; discriminate..].
    + intros w e b Hw He Hty Hin. cbn. apply Forall_app. split; [done|]. apply Forall_singleton. cbn. by eapply Hb.
  - apply (own_keeps (fun w => forall l, map def_name (w_defs w) = delegationTools role ++ l -> forall n, n ∈ l -> n ∉ delegationTools role)).
    + intros l. rewrite inject_defs, map_map. cbn. rewrite map_id. intros E%(f_equal length) n Hn. rewrite length_app in E. destruct l; [by apply not_elem_of_nil in Hn|cbn in E; lia].
    + done.
    + intros w e Hw _ _ Hnot. by apply own_snoc.
    + intros w e b Hw He Hty Hin. apply own_snoc; [done|]. intros Hin'. apply Hd in Hin' as [_ E1]. destruct (Hb _ _ He Hty Hin) as [_ E2]. cbn [def_name] in E1. congruence.
Qed.

Lemma own_distinct servers spec es role st :
  Forall2 entry_ok (sp_tools spec) es -> fold_result (check_spec_tool servers) ([], []) (sp_tools spec) = Ok st ->
  NoDup (map def_name (w_defs (own es role))).
Proof.
  intros Hes Hc. destruct (check_tools_names _ _ _ Hes _ _ Hc ltac:(apply NoDup_nil_2)) as [Hnd Hp]. cbn [fst] in Hp. rewrite app_nil_r in Hp.
  destruct (entries_names (delegationTools role) (builtin_at 0 ∅ es) (custom_at (delegationTools role) 0 ∅ es) es 0 (inject role)) as (l & Hl & E).
  assert (Ei : map def_name (w_defs (inject role)) = delegationTools role) by (rewrite inject_defs, map_map; apply map_id).
  rewrite Ei in E. destruct (own_names _ _ role Hes) as [_ Hdis]. change (offer_entries _ _ _ _ _ _) with (own es role) in E.
  rewrite E. apply NoDup_app. split; [by destruct role; apply NoDup_ListNoDup; repeat constructor; cbn; intuition discriminate|]. split.
  - intros n Hn Hl'. by eapply (Hdis l E).
  - eapply sublist_NoDup; [|done]. by rewrite <- Hp.
Qed.

(** Distinct names a request can carry. *)
Definition offers (role : delegationRole) (w : wip) : Prop :=
  laid role w /\ NoDup (map def_name (w_defs w)) /\ Forall (fun d => customToolNameRE (def_name d) = true) (w_defs w).

Lemma offers_granted role server st t p : offers role (m_w st) -> grants server st t -> offers role (m_w (granted server st t p)).
Proof.
  intros (Hl & Hn & Hre) (Hfit & Hnone & _). cbn. split; [auto with go|].
  cbn. rewrite map_app. split; [|apply Forall_app; split; [done|]; apply Forall_singleton; by apply composed_fits].
  apply NoDup_app. split; [done|]. split; [|apply NoDup_singleton]. intros n (d & -> & Hd)%list_elem_of_fmap Hs%list_elem_of_singleton.
  cbn in Hs. destruct Hl as (_ & Hl & _). destruct (Hl _ Hd) as [c Hcc]. congruence.
Qed.

(** C10: a spec that the API accepts and whose tools repeat no key never fails a turn, whatever
    its servers listed, so long as what was stored of them reads: its tools as they are
    stored always resolve, and the request they make names each tool once, every name in
    the shape a Messages endpoint takes.  A key that repeats is what breaks it
    ([EchoSpec.repeated_key_wedges]): the check reads the request and the turn what is
    stored. *)
Theorem accepted_spec_offers (spec : agentSpec) (agentRoute everyServerReferenced : bool) (cat : gmap string json) (role : delegationRole)
    (Hp : parseToolsWith (JArray (sp_tools spec)) agentRoute = Ok (sp_tools spec))
    (Hc : checkAgentSpec spec everyServerReferenced = Ok tt)
    (Hu : unique_keys (JArray (sp_tools spec)) = true)
    (Hcat : forall server stored, cat !! server = Some stored -> is_Some (dec_listing stored)) :
  exists rs, resolveTools schema_len (map jsonb (sp_tools spec)) cat role = Ok rs /\
    NoDup (map def_name (rs_defs rs)) /\
    Forall (fun d => customToolNameRE (def_name d) = true) (rs_defs rs).
Proof.
  assert (Hid : map jsonb (sp_tools spec) = sp_tools spec) by (pose proof (jsonb_id _ Hu) as E; cbn [jsonb] in E; by injection E).
  rewrite Hid. pose proof (parsed_each _ _ _ Hp) as Heach. destruct (accepted_entries_read _ _ Heach) as (es & Ees & Hes).
  destruct (fold_result_total (expand_entry schema_len cat) (sp_tools spec) (MkMcpWip (own es role) 0 0 [] [])) as (st & Hst).
  { intros a x Hx. destruct (Heach _ Hx) as (i & Hpx). destruct (parse_tool_reads _ _ _ Hpx) as (e & _ & Ht & _ & (sv & Hs) & _).
    unfold expand_entry. rewrite Ht, Hs. destruct (String.eqb_spec (te_type e) mcpToolsetType) as [Ety|]; cbn [negb]; [|by eexists].
    destruct (cat !! sv) as [stored|] eqn:Ecat; [|by eexists]. destruct (Hcat _ _ Ecat) as [listing ->]. rewrite Ety in Ht.
    destruct (ValidateMCPToolset_Ok _ (parse_mcp _ _ _ Hpx Ht)) as (top & e' & -> & Hk & He & Hd & Hi).
    rewrite (ResolveMCP_valid _ e') by (done || by eapply unique_item). by eexists. }
  assert (Hinv : offers role (m_w st)).
  { revert Hst. apply (fold_result_in _ (fun st => offers role (m_w st))).
    - intros a x a' Hx Ha. apply (expand_entry_keeps (sp_tools spec) cat (fun st => offers role (m_w st))); [| |done|done].
      + intros s s' Hs Hd Hcl _. unfold offers, laid. by rewrite Hd, Hcl.
      + intros s raw server listing resolved unknown t p Ho _ _ _ _ _ Hg. by apply offers_granted.
    - cbn. split; [apply laid_own|]. split; [|by eapply own_names]. unfold checkAgentSpec in Hc. destruct (maxAgentTools <? _); [done|].
      destruct (maxAgentMCPServers <? _); [done|]. apply bind_ok in Hc as (names & _ & Hc). destruct (fold_result _ _ _) as [[taken referenced]|] eqn:Ef; [|done].
      by eapply own_distinct. }
  exists (MkResolution (w_defs (m_w st)) (w_class (m_w st)) (render (w_notes (if 0 <? m_over st then note (m_w st) (OverBudget (m_over st)) else m_w st))) (m_unsupported st)).
  split; [|by destruct Hinv as (_ & ? & ?)]. unfold resolveTools. rewrite Ees. cbv zeta. fold (own es role). rewrite Hst. by destruct (0 <? m_over st).
Qed.
End mcp.

(** ** A concrete agent *)

Definition d_custom : json :=
  JObject [("type", JString "custom"); ("name", JString "lookup"); ("description", JString "looks a thing up"); ("input_schema", JObject [])].

Definition d_spec : agentSpec :=
  MkSpec [d_custom; JObject [("type", JString agentToolsetType)]; d_mcp_entry]
    [JObject [("type", JString "url"); ("name", JString "docs"); ("url", JString "https://docs.example")]].

Definition d_stored : json :=
  JArray (map (fun n => JObject [("name", JString n); ("description", JString "a tool"); ("input_schema", JObject [])]) ["delete"; "search"; "read"]).

Definition d_cat : gmap string json := {[ "docs" := d_stored ]}.

Definition d_len (v : json) : Z := 2.

Definition d_rs : resolution :=
  match resolveTools d_len (sp_tools d_spec) d_cat delegationCoordinator with Ok rs => rs | Err _ => MkResolution [] ∅ [] [] end.

Lemma d_resolved : resolveTools d_len (sp_tools d_spec) d_cat delegationCoordinator = Ok d_rs.
Proof. vm_compute. reflexivity. Qed.

Lemma d_accepted : accepted d_spec true true.
Proof. repeat split; vm_compute; reflexivity. Qed.

Lemma d_readable server stored : d_cat !! server = Some stored -> is_Some (dec_listing stored).
Proof. unfold d_cat. intros [_ <-]%lookup_singleton_Some. vm_compute. by eexists. Qed.

Lemma resolveTools_surface_witness : surface (rs_class d_rs).
Proof. exact (proj1 (resolveTools_surface d_len (sp_tools d_spec) d_cat delegationCoordinator d_rs d_resolved)). Defined.

Lemma catalog_only_adds_witness : exists rs0 more,
  resolveTools d_len (sp_tools d_spec) ∅ delegationCoordinator = Ok rs0 /\ rs_defs d_rs = rs_defs rs0 ++ more /\ total d_len more <= maxMCPToolBytes.
Proof.
  destruct (catalog_only_adds d_len (sp_tools d_spec) d_cat delegationCoordinator d_rs d_resolved) as (rs0 & more & H0 & H1 & _ & H2 & _).
  exists rs0, more. split; [exact H0|]. split; [exact H1|exact H2].
Defined.

Lemma mcp_tools_ask_witness : exists top, JObject top ∈ sp_tools d_spec /\
  st_policy (effective top "search") = Some PolicyAlwaysAllow.
Proof.
  destruct (mcp_tools_ask d_len d_spec true true d_cat delegationCoordinator d_rs d_accepted d_resolved
    "mcp__docs__search" (mcp_class "docs" "search" PolicyAlwaysAllow) ltac:(vm_compute; reflexivity) eq_refl) as (top & Hin & _ & _ & Hp).
  exists top. split; [exact Hin|]. destruct Hp as [Hp|[_ Hp]]; [discriminate Hp|exact Hp].
Defined.

Lemma accepted_spec_offers_witness : exists rs, resolveTools d_len (map jsonb (sp_tools d_spec)) d_cat delegationCoordinator = Ok rs /\ NoDup (map def_name (rs_defs rs)).
Proof.
  destruct d_accepted as (Hp & Hc & Hu).
  destruct (accepted_spec_offers d_len d_spec true true d_cat delegationCoordinator Hp Hc Hu d_readable) as (rs & H & Hn & _).
  exists rs. split; [exact H|exact Hn].
Defined.
