(* ===== verification/Pages.v ===== *)
(** * Pages: the cursors and page parameters of internal/api/page.go.

    A list answers one page and a token: an opaque string whose decoding is the position
    the next page starts behind.  The statement of a list, its rows in key order behind
    the position, is [fetch]; the tables it runs over are the lists' own.  The collation
    of the id columns is a parameter: any strict total order on strings. *)
From Stdlib Require Import Ascii Lia.
From stdpp Require Import pretty.
From S2P Require Import Prelude GoStrings GoTime Ids.

(** ** encoding/base64's RawURLEncoding

    Three bytes make four digits of six bits; a last group of two bytes makes three, of
    one byte two, and there is no padding.  The decoder passes over line ends and ignores
    the unused bits of a short group. *)
Definition base64url : string := "ABCDEFGHIJKLMNOPQRSTUVWXYZabcdefghijklmnopqrstuvwxyz0123456789-_".

Definition b64_char (v : Z) : ascii := default zero (String.get (Z.to_nat v) base64url).
Definition b64_value (c : ascii) : option Z := Z.of_nat <$> IndexByte base64url c.

Fixpoint b64_groups (l : list Z) : list Z :=
  match l with
  | a :: b :: c :: l' => a / 4 :: a mod 4 * 16 + b / 16 :: b mod 16 * 4 + c / 64 :: c mod 64 :: b64_groups l'
  | [a; b] => [a / 4; a mod 4 * 16 + b / 16; b mod 16 * 4]
  | [a] => [a / 4; a mod 4 * 16]
  | [] => []
  end.

Fixpoint b64_bytes (vs : list Z) : option (list Z) :=
  match vs with
  | v0 :: v1 :: v2 :: v3 :: vs' =>
      rest ← b64_bytes vs'; Some (v0 * 4 + v1 / 16 :: v1 mod 16 * 16 + v2 / 4 :: v2 mod 4 * 64 + v3 :: rest)
  | [v0; v1; v2] => Some [v0 * 4 + v1 / 16; v1 mod 16 * 16 + v2 / 4]
  | [v0; v1] => Some [v0 * 4 + v1 / 16]
  | [_] => None
  | [] => Some []
  end.

Definition bytes_list (s : string) : list Z := map ord (String.list_ascii_of_string s).
Definition of_bytes (l : list Z) : string := String.string_of_list_ascii (map (fun b => ascii_of_N (Z.to_N b)) l).

Definition b64_encode (s : string) : string := String.string_of_list_ascii (map b64_char (b64_groups (bytes_list s))).

Definition line_end (c : ascii) : bool := (ord c =? 10) || (ord c =? 13).

Definition b64_decode (s : string) : option string :=
  vs ← mapM b64_value (filter (fun c => line_end c = false) (String.list_ascii_of_string s));
  of_bytes <$> b64_bytes vs.

(** ** Query parameters *)

(** [url.Values] *)
Abbreviation values := (gmap string (list string)).

Definition Get (q : values) (k : string) : string := default EmptyString (q !! k ≫= head).
Definition Has (q : values) (k : string) : bool := bool_decide (is_Some (q !! k)).

(** [storableText]: valid UTF-8 without a NUL. *)
Definition storableText (s : string) : bool := ValidString s && all_bytes (fun c => negb (Ascii.eqb c zero)) s.

(** ** Cursors *)
Definition defaultLimit : Z := 20.
Definition maxLimit : Z := 100.
Definition maxEventLimit : Z := 1000.
Definition maxRunLimit : Z := 1000.

Definition dirNext : string := "n".
Definition dirPrev : string := "p".

Record cursor := MkCursor {
  c_dir : string; c_t : Z; c_id : string; c_versioned : bool; c_version : Z;
  c_seqKeyed : bool; c_seqDesc : bool; c_seq : Z; c_pathKeyed : bool; c_path : string }.

Definition time_cursor (dir : string) (t : Z) (id : string) : cursor :=
  MkCursor dir t id false 0 false false 0 false EmptyString.
Definition version_cursor (dir : string) (version : Z) : cursor :=
  MkCursor dir zero_time EmptyString true version false false 0 false EmptyString.
Definition path_cursor (dir path : string) : cursor :=
  MkCursor dir zero_time EmptyString false 0 false false 0 true path.
Definition seq_cursor (dir : string) (desc : bool) (seq : Z) : cursor :=
  MkCursor dir zero_time EmptyString false 0 true desc seq false EmptyString.

Definition foreignToTime (c : option cursor) : bool :=
  match c with Some c => c_versioned c || c_seqKeyed c || c_pathKeyed c | None => false end.

(** [t.UnixNano()] is a 64-bit count. *)
Definition encodeTimeCursor (dir : string) (t : Z) (id : string) : string :=
  b64_encode ("k1|" +:+ dir +:+ "|t|" +:+ pretty (wrap64 t) +:+ "|" +:+ id).
Definition encodeVersionCursor (version : Z) : string :=
  b64_encode ("k1|" +:+ dirNext +:+ "|v|" +:+ pretty version).
Definition encodePathCursor (path : string) : string :=
  b64_encode ("k1|" +:+ dirNext +:+ "|m|" +:+ b64_encode path).
Definition encodeSeqCursor (desc : bool) (seq : Z) : string :=
  b64_encode ("k1|" +:+ dirNext +:+ "|s|" +:+ (if desc then "d" else "a") +:+ "|" +:+ pretty seq).

Inductive page_error := BadLimit (max : Z) | BadCursor.

Definition known_dir (d : string) : bool := String.eqb d dirNext || String.eqb d dirPrev.

Definition decodeCursor (s : string) : result page_error cursor :=
  match b64_decode s with
  | None => Err BadCursor
  | Some raw =>
      match Split raw "|" with
      | k :: dir :: kind :: (a :: rest) as parts =>
          if negb (String.eqb k "k1") || negb (known_dir dir) then Err BadCursor
          else if String.eqb kind "t" then
            match rest with
            | [id] =>
                match Atoi a with
                | Some nanos => if String.eqb id EmptyString then Err BadCursor else Ok (time_cursor dir nanos id)
                | None => Err BadCursor
                end
            | _ => Err BadCursor
            end
          else if String.eqb kind "v" then
            match rest with
            | [] => match Atoi a with
                    | Some version => if version <? 1 then Err BadCursor else Ok (version_cursor dir version)
                    | None => Err BadCursor
                    end
            | _ => Err BadCursor
            end
          else if String.eqb kind "m" then
            match rest with
            | [] => match b64_decode a with
                    | Some path => if String.eqb path EmptyString || negb (storableText path) then Err BadCursor
                                   else Ok (path_cursor dir path)
                    | None => Err BadCursor
                    end
            | _ => Err BadCursor
            end
          else if String.eqb kind "s" then
            match rest with
            | [n] =>
                if negb (String.eqb a "a") && negb (String.eqb a "d") then Err BadCursor
                else match Atoi n with
                     | Some seq => if seq <? 1 then Err BadCursor else Ok (seq_cursor dir (String.eqb a "d") seq)
                     | None => Err BadCursor
                     end
            | _ => Err BadCursor
            end
          else Err BadCursor
      | _ => Err BadCursor
      end
  end.

Record pageParams := MkPage { pg_limit : Z; pg_cur : option cursor }.

Definition parse_limit (q : values) (def max : Z) : result page_error Z :=
  let s := Get q "limit" in
  if String.eqb s EmptyString then Ok def
  else match Atoi s with
       | Some n => if (n <? 1) || (max <? n) then Err (BadLimit max) else Ok n
       | None => Err (BadLimit max)
       end.

Definition parse_cursor (q : values) : result page_error (option cursor) :=
  let s := Get q "page" in
  if String.eqb s EmptyString then Ok None
  else
    try c <- decodeCursor s;
    if negb (String.eqb (c_id c) EmptyString) && negb (Valid (c_id c)) && negb (storableText (c_id c)) then Err BadCursor
    else Ok (Some c).

Definition parsePageWith (q : values) (def max : Z) : result page_error pageParams :=
  try limit <- parse_limit q def max;
  try cur <- parse_cursor q;
  Ok (MkPage limit cur).

Definition parsePageMax (q : values) (max : Z) := parsePageWith q defaultLimit max.
Definition parsePage (q : values) := parsePageMax q maxLimit.

(** ** The statement of a list: [WHERE key after the position ORDER BY key LIMIT limit + 1] *)
Section fetch.
Context {K R : Type} (before : relation K) `{forall a b, Decision (before a b)} (key : R -> K).

Definition not_after (x y : R) : Prop := ~ before (key y) (key x).
#[global] Instance not_after_dec x y : Decision (not_after x y).
Proof. unfold not_after. apply _. Defined.

Definition behind (cur : option K) (x : R) : Prop := match cur with None => True | Some k => before k (key x) end.
#[global] Instance behind_dec cur x : Decision (behind cur x).
Proof. destruct cur; apply _. Defined.

Definition fetch (cur : option K) (limit : Z) (rows : list R) : list R :=
  take (Z.to_nat limit + 1) (sort_stable not_after (filter (behind cur) rows)).

(** The loop over the fetched rows: a row past the limit is the probe of a further page,
    not part of this one. *)
Definition page_rows (limit : Z) (fetched : list R) : list R := take (Z.to_nat limit) fetched.
Definition more (limit : Z) (fetched : list R) : bool := limit <? Z.of_nat (length fetched).
End fetch.

(** Byte order, the "C" collation of a path column. *)
Definition path_lt (a b : string) : Prop := strict String.le a b.
#[global] Instance path_lt_dec a b : Decision (path_lt a b).
Proof. unfold path_lt, strict. apply _. Defined.

(** ** Lists ordered by (created_at, id) *)
Inductive sort_dir := ASC | DESC.
#[global] Instance sort_dir_eq_dec : EqDecision sort_dir.
Proof. solve_decision. Defined.

Definition flip_dir (d : sort_dir) : sort_dir := match d with ASC => DESC | DESC => ASC end.

(** [AND (created_at, id) cmp ($n, $n+1)] *)
Inductive comparison_op := Below | Above.

Definition keysetClause (sortDir : sort_dir) (cur : option cursor) : option comparison_op * sort_dir * bool :=
  match cur with
  | None => (None, sortDir, false)
  | Some c =>
      let forward := String.eqb (c_dir c) dirNext in
      let cmp := if Bool.eqb (bool_decide (sortDir = ASC)) forward then Above else Below in
      let orderDir := if forward then sortDir else flip_dir sortDir in
      (Some cmp, orderDir, negb forward)
  end.

Definition pageEdges {R} (rows : list R) (more hadCursor reversed : bool) (key : R -> Z * string) : option string * option string :=
  match head rows, last rows with
  | Some first, Some lst =>
      let nextc := encodeTimeCursor dirNext (key lst).1 (key lst).2 in
      let prevc := encodeTimeCursor dirPrev (key first).1 (key first).2 in
      if reversed then (Some nextc, if more then Some prevc else None)
      else (if more then Some nextc else None, if hadCursor then Some prevc else None)
  | _, _ => (None, None)
  end.

Section keyset.
Context (id_lt : relation string) `{forall a b, Decision (id_lt a b)}.

Definition key_lt (a b : Z * string) : Prop := a.1 < b.1 \/ (a.1 = b.1 /\ id_lt a.2 b.2).
#[global] Instance key_lt_dec a b : Decision (key_lt a b).
Proof. unfold key_lt. apply _. Defined.

(** The order the rows come in, first to last. *)
Definition dir_lt (d : sort_dir) : relation (Z * string) := match d with ASC => key_lt | DESC => flip key_lt end.
#[global] Instance dir_lt_dec d a b : Decision (dir_lt d a b).
Proof. destruct d; unfold dir_lt, flip; apply _. Defined.

Definition admitted_by (cmp : option comparison_op) (c : Z * string) {R} (key : R -> Z * string) (x : R) : Prop :=
  match cmp with None => True | Some Below => key_lt (key x) c | Some Above => key_lt c (key x) end.
#[global] Instance admitted_by_dec cmp c {R} (key : R -> Z * string) x : Decision (admitted_by cmp c key x).
Proof. destruct cmp as [[]|]; apply _. Defined.

(** The tail of a bidirectional list handler (listSessions): fetch in the walk's direction,
    turn a backwards page round, and say where its edges are. *)
Definition bi_page {R} (key : R -> Z * string) (sortDir : sort_dir) (page : pageParams) (rows : list R)
  : list R * option string * option string :=
  let '(cmp, orderDir, reversed) := keysetClause sortDir (pg_cur page) in
  let pos := match pg_cur page with Some c => (c_t c, c_id c) | None => (zero_time, EmptyString) end in
  let fetched := fetch (dir_lt orderDir) key None (pg_limit page) (filter (admitted_by cmp pos key) rows) in
  let data := page_rows (pg_limit page) fetched in
  let data := if reversed then rev data else data in
  let '(next, prev) := pageEdges data (more (pg_limit page) fetched) (bool_decide (is_Some (pg_cur page))) reversed key in
  (data, next, prev).
End keyset.
