(* ===== verification/PagesSpec.v ===== *)
(** * PagesSpec: tokens are read back as the position they name, and pages neither skip
    nor repeat.

    The first half inverts [encodeTimeCursor] and [encodePathCursor]; the second is about
    [fetch] over any key order: what a walk along next_page tokens shows while the rows
    under it change, and that a walk over rows that rest is their sorted list. *)
From Stdlib Require Import Ascii Lia.
From stdpp Require Import pretty.
From S2P Require Import Prelude GoStrings GoTime Ids Pages.

(** ** base64 *)
Lemma b64_value_char v : 0 <= v < 64 -> b64_value (b64_char v) = Some v /\ line_end (b64_char v) = false /\ b64_char v <> "|"%char.
Proof.
  intros Hv.
  assert (Hd : forallb (fun n => bool_decide (b64_value (b64_char (Z.of_nat n)) = Some (Z.of_nat n))
      && negb (line_end (b64_char (Z.of_nat n))) && negb (Ascii.eqb (b64_char (Z.of_nat n)) "|")) (seq 0 64) = true) by (vm_compute; reflexivity).
  rewrite forallb_forall in Hd. specialize (Hd (Z.to_nat v)). rewrite Z2Nat.id in Hd by lia.
  specialize (Hd ltac:(apply in_seq; lia)). bool_prop. split_and!; [done..|]. by apply Ascii.eqb_neq.
Qed.

Definition is_digit6 (v : Z) : Prop := 0 <= v < 64.

Lemma ord_byte c : is_byte (ord c).
Proof. unfold is_byte, ord. pose proof (N_ascii_bounded c). lia. Qed.

(** Lists whose length is taken three at a time. *)
Lemma three_ind {A} (P : list A -> Prop) :
  P [] -> (forall a, P [a]) -> (forall a b, P [a; b]) -> (forall a b c l, P l -> P (a :: b :: c :: l)) -> forall l, P l.
Proof.
  intros H0 H1 H2 H3. fix IH 1. intros [|a [|b [|c l]]]; [exact H0|apply H1|apply H2|]. apply H3, IH.
Qed.

Lemma b64_groups_digits l : Forall is_byte l -> Forall is_digit6 (b64_groups l).
Proof.
  unfold is_byte, is_digit6.
  induction l as [|a|a b|a b c l IH] using three_ind; cbn [b64_groups]; rewrite ?Forall_cons, ?Forall_nil; intros H;
    destruct_and?; split_and?; try done; try (Z.to_euclidean_division_equations; lia). by apply IH.
Qed.

Lemma b64_bytes_groups l : Forall is_byte l -> b64_bytes (b64_groups l) = Some l.
Proof.
  unfold is_byte.
  induction l as [|a|a b|a b c l IH] using three_ind; cbn [b64_groups b64_bytes]; rewrite ?Forall_cons; intros H;
    destruct_and?; [done|..]; [| |rewrite IH by done; cbn]; repeat f_equal; Z.to_euclidean_division_equations; lia.
Qed.

Lemma list_ascii_of_string_of l : String.list_ascii_of_string (String.string_of_list_ascii l) = l.
Proof. induction l as [|a l IH]; [done|]. cbn. by rewrite IH. Qed.

Lemma of_bytes_list s : of_bytes (bytes_list s) = s.
Proof.
  unfold of_bytes, bytes_list. rewrite map_map.
  rewrite (map_ext _ id); [rewrite map_id; apply String.string_of_list_ascii_of_string|].
  intros c. unfold ord. by rewrite N2Z.id, ascii_N_embedding.
Qed.

Lemma bytes_list_bytes s : Forall is_byte (bytes_list s).
Proof. apply Forall_map, Forall_forall. intros c _. apply ord_byte. Qed.

Lemma b64_roundtrip s : b64_decode (b64_encode s) = Some s.
Proof.
  unfold b64_decode, b64_encode. rewrite list_ascii_of_string_of.
  pose proof (b64_groups_digits _ (bytes_list_bytes s)) as Hd. rewrite Forall_forall in Hd.
  rewrite filter_all_true.
  2: { apply Forall_map, Forall_forall. intros v Hv. apply b64_value_char, Hd, Hv. }
  assert (Hm : mapM b64_value (map b64_char (b64_groups (bytes_list s))) = Some (b64_groups (bytes_list s))).
  { apply mapM_Some. revert Hd. generalize (b64_groups (bytes_list s)). intros l Hd.
    induction l as [|v l IH]; cbn; constructor; [apply b64_value_char, Hd; left|]. apply IH. intros w Hw. apply Hd. by right. }
  rewrite Hm. cbn. rewrite b64_bytes_groups by apply bytes_list_bytes. cbn. by rewrite of_bytes_list.
Qed.

Lemma b64_encode_bytes s : all_bytes (fun c => negb (Ascii.eqb c "|")) (b64_encode s) = true.
Proof.
  unfold b64_encode. rewrite all_bytes_string. apply forallb_forall. intros c (v & <- & Hv)%in_map_iff.
  pose proof (b64_groups_digits _ (bytes_list_bytes s)) as Hd. rewrite Forall_forall in Hd.
  apply negb_true_iff, Ascii.eqb_neq, b64_value_char, Hd. by apply list_elem_of_In.
Qed.

Lemma b64_encode_nonempty c s : b64_encode (String c s) <> EmptyString.
Proof.
  unfold b64_encode, bytes_list. cbn. destruct (map ord (String.list_ascii_of_string s)) as [|b [|c' l]]; done.
Qed.

(** ** Decimal numbers *)
Lemma pretty_digit x : (x < 10)%N -> in_range 48 57 (ord (pretty_N_char x)) = true /\ ord (pretty_N_char x) - 48 = Z.of_N x.
Proof.
  intros Hx.
  assert (Hd : forallb (fun n => in_range 48 57 (ord (pretty_N_char (N.of_nat n))) && (ord (pretty_N_char (N.of_nat n)) - 48 =? Z.of_nat n))
                 (seq 0 10) = true) by (vm_compute; reflexivity).
  rewrite forallb_forall in Hd. specialize (Hd (N.to_nat x)). rewrite N2Nat.id in Hd.
  specialize (Hd ltac:(apply in_seq; lia)). bool_prop. split; [done|]. lia.
Qed.

Lemma digits_N_go x : forall s, digits 0 (pretty_N_go x s) = digits (Z.of_N x) s.
Proof.
  induction (N.lt_wf_0 x) as [x _ IH]. intros s. destruct (decide (x = 0)%N) as [->|Hx]; [by rewrite pretty_N_go_0|].
  rewrite pretty_N_go_step by lia. rewrite IH by (apply N.div_lt; lia). cbn [digits].
  destruct (pretty_digit (x mod 10)) as [-> ->]; [by apply N.mod_lt|]. f_equal.
  rewrite N2Z.inj_div, N2Z.inj_mod. pose proof (Z.div_mod (Z.of_N x) 10). lia.
Qed.

Definition is_decimal (c : ascii) : bool := in_range 48 57 (ord c).

Lemma pretty_go_bytes x : forall s, all_bytes is_decimal s = true -> all_bytes is_decimal (pretty_N_go x s) = true.
Proof.
  induction (N.lt_wf_0 x) as [x _ IH]. intros s Hs. destruct (decide (x = 0)%N) as [->|Hx]; [by rewrite pretty_N_go_0|].
  rewrite pretty_N_go_step by lia. apply IH; [apply N.div_lt; lia|]. cbn. rewrite Hs.
  unfold is_decimal. by destruct (pretty_digit (x mod 10)) as [-> _]; [apply N.mod_lt|].
Qed.

Lemma pretty_pos p : exists c s, pretty (N.pos p) = String c s /\ is_decimal c = true /\ all_bytes is_decimal s = true /\
  digits 0 (String c s) = Some (Zpos p).
Proof.
  unfold pretty, pretty_N. rewrite decide_False by done.
  pose proof (pretty_go_bytes (N.pos p) EmptyString eq_refl) as Hb. pose proof (digits_N_go (N.pos p) EmptyString) as Hd.
  destruct (pretty_N_go (N.pos p) "") as [|c s]; [done|]. cbn [all_bytes] in Hb. bool_prop. exists c, s. split_and!; done.
Qed.

(** [strconv.ParseInt] reads back what [%d] prints. *)
Lemma Atoi_pretty z : min_int <= z <= max_int -> Atoi (pretty z) = Some z.
Proof.
  intros Hz. assert (Hr : in_range min_int max_int z = true) by (unfold in_range; lia).
  destruct z as [|p|p]; [done| |]; destruct (pretty_pos p) as (c & s & E & Hc & _ & Hd).
  - change (pretty (Z.pos p)) with (pretty (N.pos p)). rewrite E. unfold Atoi.
    assert (Hne : c <> "-"%char /\ c <> "+"%char) by (split; intros ->; done).
    destruct Hne as [H1 H2].
    destruct c as [[] [] [] [] [] [] [] []]; try done; rewrite Hd, Z.mul_1_l, Hr; done.
  - change (pretty (Z.neg p)) with ("-" +:+ pretty (N.pos p)). rewrite E. cbn -[digits]. rewrite Hd.
    change (-1 * Z.pos p) with (Z.neg p). by rewrite Hr.
Qed.

Definition no_bar (s : string) : Prop := no_byte "|" s.

Lemma decimal_no_bar c : is_decimal c = true -> negb (Ascii.eqb c "|") = true.
Proof. intros H. apply negb_true_iff, Ascii.eqb_neq. intros ->. done. Qed.

Lemma pretty_no_bar (z : Z) : no_bar (pretty z).
Proof.
  unfold no_bar, no_byte. destruct z as [|p|p]; [done| |]; destruct (pretty_pos p) as (c & s & E & Hc & Hs & _).
  - change (pretty (Z.pos p)) with (pretty (N.pos p)). rewrite E. cbn [all_bytes].
    rewrite (decimal_no_bar c Hc). cbn [andb]. eapply all_bytes_impl; [|exact Hs]. apply decimal_no_bar.
  - change (pretty (Z.neg p)) with ("-" +:+ pretty (N.pos p)). rewrite E. cbn [String.append all_bytes].
    rewrite (decimal_no_bar c Hc). cbn [andb]. eapply all_bytes_impl; [|exact Hs]. apply decimal_no_bar.
Qed.

(** ** Tokens *)
Lemma Split_one s : no_bar s -> Split s "|" = [s].
Proof.
  unfold no_bar, no_byte. induction s as [|a s IH]; [done|]. cbn [all_bytes Split]. intros H. bool_prop.
  rewrite IH by done. by destruct (Ascii.eqb a "|").
Qed.

Lemma Split_cons a s : no_bar a -> Split (a +:+ "|" +:+ s) "|" = a :: Split s "|".
Proof.
  unfold no_bar, no_byte. induction a as [|c a IH]; [done|]. cbn [all_bytes String.append Split]. intros H. bool_prop.
  cbn [String.append] in IH. rewrite IH by done. by destruct (Ascii.eqb c "|").
Qed.

Lemma known_dir_cases dir : known_dir dir = true -> dir = dirNext \/ dir = dirPrev.
Proof. unfold known_dir. intros [?%String.eqb_eq|?%String.eqb_eq]%orb_true_iff; auto. Qed.

Lemma dir_no_bar dir : known_dir dir = true -> no_bar dir.
Proof. by intros [-> | ->]%known_dir_cases. Qed.

Lemma decode_time dir t id :
  known_dir dir = true -> min_int <= t <= max_int -> id <> EmptyString -> no_bar id ->
  decodeCursor (encodeTimeCursor dir t id) = Ok (time_cursor dir t id).
Proof.
  intros Hd Ht Hid Hb. unfold decodeCursor, encodeTimeCursor. rewrite b64_roundtrip.
  assert (Hw : wrap64 t = t) by (unfold wrap64, min_int, max_int in *; rewrite Z.mod_small; lia). rewrite Hw.
  change ("k1|" +:+ dir +:+ "|t|" +:+ pretty t +:+ "|" +:+ id) with ("k1" +:+ "|" +:+ dir +:+ "|" +:+ "t" +:+ "|" +:+ pretty t +:+ "|" +:+ id).
  rewrite !Split_cons, Split_one by (done || (by apply dir_no_bar) || apply pretty_no_bar).
  rewrite Hd. cbn [negb orb String.eqb Ascii.eqb Bool.eqb]. rewrite Atoi_pretty by done. by apply String.eqb_neq in Hid as ->.
Qed.

Lemma decode_path path :
  path <> EmptyString -> storableText path = true ->
  decodeCursor (encodePathCursor path) = Ok (path_cursor dirNext path).
Proof.
  intros Hp Hs. unfold decodeCursor, encodePathCursor. rewrite b64_roundtrip.
  change ("k1|" +:+ dirNext +:+ "|m|" +:+ b64_encode path) with ("k1" +:+ "|" +:+ "n" +:+ "|" +:+ "m" +:+ "|" +:+ b64_encode path).
  rewrite !Split_cons, Split_one by (done || apply b64_encode_bytes).
  cbn. rewrite b64_roundtrip. apply String.eqb_neq in Hp as ->. by rewrite Hs.
Qed.

Lemma decode_version version : 1 <= version <= max_int -> decodeCursor (encodeVersionCursor version) = Ok (version_cursor dirNext version).
Proof.
  intros Hv. unfold decodeCursor, encodeVersionCursor. rewrite b64_roundtrip.
  change ("k1|" +:+ dirNext +:+ "|v|" +:+ pretty version) with ("k1" +:+ "|" +:+ "n" +:+ "|" +:+ "v" +:+ "|" +:+ pretty version).
  rewrite !Split_cons, Split_one by (done || apply pretty_no_bar).
  cbn. rewrite Atoi_pretty by (unfold min_int, max_int in *; lia). by rewrite (proj2 (Z.ltb_ge _ _)) by lia.
Qed.

Lemma decode_seq desc n : 1 <= n <= max_int -> decodeCursor (encodeSeqCursor desc n) = Ok (seq_cursor dirNext desc n).
Proof.
  intros Hv. unfold decodeCursor, encodeSeqCursor. rewrite b64_roundtrip.
  change ("k1|" +:+ dirNext +:+ "|s|" +:+ (if desc then "d" else "a") +:+ "|" +:+ pretty n)
    with ("k1" +:+ "|" +:+ "n" +:+ "|" +:+ "s" +:+ "|" +:+ (if desc then "d" else "a") +:+ "|" +:+ pretty n).
  rewrite !Split_cons, Split_one by (done || (by destruct desc) || apply pretty_no_bar).
  destruct desc; cbn; rewrite Atoi_pretty by (unfold min_int, max_int in *; lia); by rewrite (proj2 (Z.ltb_ge _ _)) by lia.
Qed.

(** An id the platform accepts can ride a cursor. *)
Lemma Valid_rides id : Valid id = true -> id <> EmptyString /\ no_bar id.
Proof.
  unfold Valid. destruct (Cut id underscore) as [[p tok] ok] eqn:E. intros H. bool_prop. destruct ok; [|done].
  apply Cut_found in E as ->. split; [by destruct p|]. unfold no_bar, no_byte. rewrite all_bytes_app. cbn [all_bytes].
  assert (Hp : all_bytes (fun a => negb (Ascii.eqb a "|")) p = true).
  { assert (Hk : forallb (all_bytes (fun a => negb (Ascii.eqb a "|"))) knownPrefixes = true) by (vm_compute; reflexivity).
    rewrite forallb_forall in Hk. apply Hk. by apply list_elem_of_In. }
  rewrite Hp. cbn. unfold validToken in *. bool_prop. eapply all_bytes_impl; [|eassumption].
  intros c Hc. apply negb_true_iff, Ascii.eqb_neq. intros ->. by vm_compute in Hc.
Qed.

#[global] Instance path_lt_strict : StrictOrder path_lt.
Proof. unfold path_lt. apply _. Qed.
#[global] Instance path_lt_trichotomy : Trichotomy path_lt.
Proof.
  intros a b. unfold path_lt, strict. destruct (decide (a = b)) as [->|Hne]; [by right; left|].
  assert (Hanti : ~ (String.le a b /\ String.le b a)) by (intros [H1 H2]; by apply Hne, (anti_symm String.le)).
  destruct (total String.le a b); [left|right; right]; tauto.
Qed.

(** ** Pages over a key order *)
Section order.
Context {K R : Type} (before : relation K) `{!forall a b, Decision (before a b), !StrictOrder before, !Trichotomy before} (key : R -> K).
#[local] Abbreviation fetch := (fetch before key).
#[local] Abbreviation not_after := (not_after before key).
#[local] Abbreviation behind := (behind before key).

Definition row_lt (x y : R) : Prop := before (key x) (key y).

#[global] Instance row_lt_strict : StrictOrder row_lt.
Proof. split; unfold row_lt; [intros x Hx; by apply (irreflexivity before (key x))|intros x y z Hxy Hyz; by trans (key y)]. Qed.

#[global] Instance not_after_total : Total not_after.
Proof.
  intros x y. destruct (decide (before (key y) (key x))) as [Hb|Hb]; [right|by left].
  intros Hb'. apply (irreflexivity before (key x)). by trans (key y).
Qed.

#[global] Instance not_after_trans : Transitive not_after.
Proof.
  intros x y z Hxy Hyz Hzx. destruct (trichotomy before (key x) (key y)) as [Hc|[Hc|Hc]]; [|by rewrite Hc in *|done].
  apply Hyz. by trans (key x).
Qed.

(** The rows of a table have distinct keys: the last component is the row's id. *)
Definition keyed (rows : list R) : Prop := NoDup (key <$> rows).

Definition sorted (rows : list R) : list R := sort_stable not_after rows.

Lemma sorted_perm rows : sorted rows ≡ₚ rows.
Proof. apply sort_stable_perm. Qed.

Lemma elem_of_sorted x rows : x ∈ sorted rows <-> x ∈ rows.
Proof. by rewrite sorted_perm. Qed.

Lemma sorted_strict rows : keyed rows -> StronglySorted row_lt (sorted rows).
Proof.
  intros Hk. assert (Hk' : NoDup (key <$> sorted rows)) by (by rewrite sorted_perm).
  pose proof (sort_stable_sorted not_after rows) as Hs. fold (sorted rows) in Hs. revert Hs Hk'.
  induction 1 as [|x l _ IH Hx]; cbn; [constructor|]. intros [Hin Hnd]%NoDup_cons. constructor; [auto|].
  rewrite Forall_forall in Hx |- *. intros y Hy. unfold row_lt.
  destruct (trichotomy before (key x) (key y)) as [Hc|[Hc|Hc]]; [done| |by destruct (Hx y Hy)].
  destruct Hin. rewrite Hc. by apply list_elem_of_fmap_2.
Qed.

Lemma keyed_filter (P : R -> Prop) `{forall x, Decision (P x)} rows : keyed rows -> keyed (filter P rows).
Proof. unfold keyed. intros Hk. eapply sublist_NoDup; [exact Hk|]. apply fmap_sublist, sublist_filter. Qed.

Lemma sorted_filter (P : R -> Prop) `{forall x, Decision (P x)} rows : keyed rows -> sorted (filter P rows) = filter P (sorted rows).
Proof.
  intros Hk. apply (strictly_sorted_ext row_lt).
  - by apply sorted_strict, keyed_filter.
  - by apply StronglySorted_filter, sorted_strict.
  - intros x. by rewrite elem_of_sorted, !list_elem_of_filter, elem_of_sorted.
Qed.

Lemma fetch_eq cur limit rows : keyed rows -> fetch cur limit rows = take (Z.to_nat limit + 1) (filter (behind cur) (sorted rows)).
Proof. intros Hk. unfold Pages.fetch. f_equal. by apply sorted_filter. Qed.

(** A walk over the tables [rows], one per request, and what it shows.  A list may hand
    out a token on a page no row follows; it may end only where none does. *)
Inductive walked (limit : Z) : option K -> list (list R) -> list (list R) -> Prop :=
| walked_last cur rows :
    keyed rows -> more limit (fetch cur limit rows) = false ->
    walked limit cur [rows] [page_rows limit (fetch cur limit rows)]
| walked_next cur rows tables shown x :
    keyed rows -> last (page_rows limit (fetch cur limit rows)) = Some x -> walked limit (Some (key x)) tables shown ->
    walked limit cur (rows :: tables) (page_rows limit (fetch cur limit rows) :: shown).

Lemma page_eq cur limit rows : keyed rows -> page_rows limit (fetch cur limit rows) = take (Z.to_nat limit) (filter (behind cur) (sorted rows)).
Proof. intros Hk. rewrite fetch_eq by done. unfold page_rows. rewrite take_take. f_equal. lia. Qed.

Lemma page_sorted cur limit rows :
  keyed rows -> StronglySorted row_lt (page_rows limit (fetch cur limit rows)) /\
  Forall (behind cur) (page_rows limit (fetch cur limit rows)) /\
  (forall x, x ∈ page_rows limit (fetch cur limit rows) -> x ∈ rows).
Proof.
  intros Hk. rewrite page_eq by done. split_and!.
  - by apply StronglySorted_take, StronglySorted_filter, sorted_strict.
  - apply Forall_take, Forall_forall. by intros x [? _]%list_elem_of_filter.
  - intros x Hx. assert (Hx' : x ∈ filter (behind cur) (sorted rows)) by (eapply sublist_subseteq; [apply sublist_take|exact Hx]).
    apply list_elem_of_filter in Hx' as [_ Hx']. by apply elem_of_sorted.
Qed.

Lemma sorted_last_max l x y : StronglySorted row_lt l -> last l = Some x -> y ∈ l -> y = x \/ row_lt y x.
Proof.
  induction 1 as [|z l Hl IH Hz]; [done|]. intros Hlast Hy. destruct l as [|w l].
  - injection Hlast as <-. apply list_elem_of_singleton in Hy. by left.
  - rewrite last_cons in Hlast. destruct (last (w :: l)) as [x'|] eqn:E; [|by destruct (last_None (w :: l)) as [Hn _]; apply Hn in E].
    injection Hlast as <-. apply elem_of_cons in Hy as [->|Hy]; [|by apply IH].
    right. rewrite Forall_forall in Hz. apply Hz. by apply last_Some_elem_of.
Qed.

(** No row is shown twice, and the pages come in order. *)
Lemma walked_sorted limit cur tables shown :
  walked limit cur tables shown -> StronglySorted row_lt (concat shown) /\ Forall (behind cur) (concat shown).
Proof.
  induction 1 as [cur rows Hk _|cur rows tables shown x Hk Hx _ [IHs IHb]]; cbn [concat];
    destruct (page_sorted cur limit rows Hk) as (Hs & Hb & _).
  - by rewrite app_nil_r.
  - assert (Hlt : forall y z, y ∈ page_rows limit (fetch cur limit rows) -> z ∈ concat shown -> row_lt y z).
    { intros y z Hy Hz. rewrite Forall_forall in IHb. specialize (IHb z Hz). cbn in IHb.
      destruct (sorted_last_max _ x y Hs Hx Hy) as [->|Hyx]; [exact IHb|]. unfold row_lt in *. by trans (key x). }
    split.
    + by apply StronglySorted_app.
    + apply Forall_app. split; [done|]. rewrite Forall_forall in IHb, Hb |- *. intros z Hz.
      specialize (Hlt x z ltac:(by apply last_Some_elem_of) Hz).
      specialize (Hb x ltac:(by apply last_Some_elem_of)). destruct cur as [k|]; cbn in *; [|done]. unfold row_lt in *. by trans (key x).
Qed.

(** Every page shows rows of the table it was served from. *)
Lemma walked_shows limit cur tables shown :
  walked limit cur tables shown -> Forall2 (fun rows page => forall x, x ∈ page -> x ∈ rows) tables shown.
Proof.
  induction 1 as [cur rows Hk _|cur rows tables shown x Hk Hx _ IH]; constructor; try done; by apply page_sorted.
Qed.

(** A key that is in every table from the cursor on is shown: inserts and deletes around
    it skip nothing. *)
Lemma walked_complete limit cur tables shown k :
  walked limit cur tables shown ->
  Forall (fun rows : list R => k ∈ key <$> rows) tables -> (match cur with None => True | Some c => before c k end) ->
  k ∈ key <$> concat shown.
Proof.
  induction 1 as [cur rows Hk Hm|cur rows tables shown x Hk Hx Hw IH]; cbn [concat]; intros [Hin Hins]%Forall_cons Hcur;
    apply list_elem_of_fmap in Hin as (r & -> & Hr);
    assert (Hr' : r ∈ filter (behind cur) (sorted rows)) by (apply list_elem_of_filter; split; [by destruct cur|by apply elem_of_sorted]).
  - rewrite app_nil_r. apply (list_elem_of_fmap_2 key). revert Hm. rewrite page_eq, fetch_eq by done. unfold more. intros Hm.
    bool_prop. rewrite length_take in Hm. rewrite take_ge; [done|]. lia.
  - rewrite fmap_app, elem_of_app. rewrite page_eq in Hx |- * by done.
    rewrite <- (take_drop (Z.to_nat limit) (filter _ _)) in Hr'. apply elem_of_app in Hr' as [Hr'|Hr'].
    + left. by apply (list_elem_of_fmap_2 key).
    + right. apply IH; [done|]. cbn.
      assert (Hs : StronglySorted row_lt (filter (behind cur) (sorted rows))) by (by apply StronglySorted_filter, sorted_strict).
      rewrite <- (take_drop (Z.to_nat limit) (filter _ _)) in Hs.
      eapply StronglySorted_app_1_elem_of in Hs; [exact Hs|by apply last_Some_elem_of|done].
Qed.
(** A page that leads on leaves fewer rows behind it. *)
Lemma page_progress cur limit rows x :
  keyed rows -> last (page_rows limit (fetch cur limit rows)) = Some x ->
  (length (filter (behind (Some (key x))) rows) < length (filter (behind cur) rows))%nat.
Proof.
  intros Hk Hx. destruct (page_sorted cur limit rows Hk) as (_ & Hb & Hin). apply last_Some_elem_of in Hx.
  rewrite Forall_forall in Hb. specialize (Hb x Hx). specialize (Hin x Hx).
  apply (submseteq_length (x :: filter (behind (Some (key x))) rows)), NoDup_submseteq.
  - constructor; [|by apply NoDup_filter, (NoDup_fmap_1 key)]. intros [Hxx _]%list_elem_of_filter. by apply (irreflexivity before (key x)).
  - intros y [->|[Hy Hyr]%list_elem_of_filter]%elem_of_cons; apply list_elem_of_filter; [done|]. split; [|done].
    destruct cur as [k|]; [|done]. cbn in *. by trans (key x).
Qed.

Lemma more_last limit cur rows : 1 <= limit -> more limit (fetch cur limit rows) = true -> is_Some (last (page_rows limit (fetch cur limit rows))).
Proof.
  unfold more, page_rows. intros Hl Hm. bool_prop. destruct (fetch cur limit rows) as [|y l]; [cbn in Hm; lia|].
  destruct (Z.to_nat limit) as [|n] eqn:En; [lia|]. cbn [take]. rewrite last_cons. destruct (last (take n l)); by eexists.
Qed.

End order.

(** Rows listed by a map's ids have distinct keys. *)
Lemma keyed_ids {A} (f : A -> Z) (l : list (string * A)) : NoDup (fst <$> l) -> keyed (fun kv : string * A => (f kv.2, kv.1)) l.
Proof.
  unfold keyed. induction l as [|[i w] l IH]; cbn; [constructor|]. intros [Hi Hl]%NoDup_cons. constructor; [|auto].
  intros ([j w'] & E & Hj)%list_elem_of_fmap. injection E as _ ->. apply Hi. by apply (list_elem_of_fmap_2 fst _ (j, w')).
Qed.

Lemma NoDup_filter_ids {A} (P : string * A -> Prop) `{forall x, Decision (P x)} (m : gmap string A) : NoDup (fst <$> filter P (map_to_list m)).
Proof. eapply sublist_NoDup; [exact (NoDup_fst_map_to_list m)|]. apply fmap_sublist, sublist_filter. Qed.

Lemma StronglySorted_map {A B} (R : relation A) (S : relation B) (f : A -> B) l :
  (forall x y, R x y -> S (f x) (f y)) -> StronglySorted R l -> StronglySorted S (map f l).
Proof.
  intros HRS. induction 1 as [|x l Hl IH Hx]; cbn; constructor; [done|]. apply Forall_map. eapply Forall_impl; [exact Hx|]. intros y Hy. by apply HRS.
Qed.

(** ** Going back *)
Section split.
Context {K R : Type} (before : relation K) `{!forall a b, Decision (before a b), !StrictOrder before, !Trichotomy before} (key : R -> K).

Lemma sorted_split l p x s :
  l = p ++ x :: s -> StronglySorted (row_lt before key) l ->
  filter (behind before key (Some (key x))) l = s /\ filter (fun y => before (key y) (key x)) l = p.
Proof.
  intros -> (Hps & Hp & Hs)%StronglySorted_app. apply StronglySorted_cons in Hs as [Hx Hs].
  rewrite Forall_forall in Hx. unfold row_lt in *.
  assert (Hirr : ~ before (key x) (key x)) by apply (irreflexivity before).
  split; rewrite filter_app, filter_cons_False by done.
  - rewrite filter_all_false, filter_all_true; [done|by apply Forall_forall|].
    apply Forall_forall. intros y Hy Hb. apply Hirr. trans (key y); [done|]. apply Hps; [done|left].
  - rewrite filter_all_true, filter_all_false; [by rewrite app_nil_r| |].
    + apply Forall_forall. intros y Hy Hb. apply Hirr. trans (key y); [by apply Hx|done].
    + apply Forall_forall. intros y Hy. apply Hps; [done|left].
Qed.

Lemma behind_suffix l cur : StronglySorted (row_lt before key) l -> exists a, l = a ++ filter (behind before key cur) l.
Proof.
  destruct cur as [k|]; [|exists []; rewrite filter_all_true; [done|by apply Forall_forall]].
  induction 1 as [|x l Hl [a IH] Hx]; [by exists []|]. rewrite Forall_forall in Hx. unfold row_lt in *.
  destruct (decide (before k (key x))) as [Hk|Hk].
  - exists []. cbn [app]. rewrite filter_all_true; [done|]. apply Forall_cons. split; [done|].
    apply Forall_forall. intros y Hy. cbn. trans (key x); auto.
  - exists (x :: a). cbn [app]. rewrite filter_cons_False by done. by f_equal.
Qed.

Lemma before_prefix l k : StronglySorted (row_lt before key) l -> exists s, l = filter (fun y => before (key y) k) l ++ s.
Proof.
  induction 1 as [|x l Hl [s IH] Hx]; [by exists []|]. rewrite Forall_forall in Hx. unfold row_lt in *.
  destruct (decide (before (key x) k)) as [Hk|Hk].
  - exists s. rewrite filter_cons_True by done. cbn [app]. by f_equal.
  - exists (x :: l). rewrite filter_cons_False, filter_all_false; [done| |done].
    apply Forall_forall. intros y Hy Hyk. apply Hk. trans (key y); [by apply Hx|done].
Qed.

Lemma sorted_flip rows : keyed key rows -> sorted (flip before) key rows = rev (sorted before key rows).
Proof.
  intros Hk. assert (HS : StrictOrder (flip before)).
  { split; [intros x Hx; by apply (irreflexivity before x)|intros x y z Hxy Hyz; unfold flip in *; by trans y]. }
  assert (HT : Trichotomy (flip before)).
  { intros x y. unfold flip. destruct (trichotomy before x y) as [?|[?|?]]; auto. }
  apply (strictly_sorted_ext (row_lt (flip before) key)).
  - by apply sorted_strict.
  - pose proof (sorted_strict before key rows Hk) as Hs. revert Hs. generalize (sorted before key rows).
    induction 1 as [|x l Hl IH Hx]; cbn; [constructor|]. apply StronglySorted_app. split_and!; [|done|by repeat constructor].
    intros y z Hy ->%list_elem_of_singleton. rewrite Forall_forall in Hx. apply Hx.
    by rewrite list_elem_of_In, <- in_rev, <- list_elem_of_In in Hy.
  - intros x. by rewrite (list_elem_of_In (rev _)), <- in_rev, <- list_elem_of_In, !elem_of_sorted.
Qed.
End split.

Section bidirectional.
Context (id_lt : relation string) `{!forall a b, Decision (id_lt a b), !StrictOrder id_lt, !Trichotomy id_lt}.
Context {R : Type} (key : R -> Z * string).

#[global] Instance key_lt_strict : StrictOrder (key_lt id_lt).
Proof.
  split; unfold key_lt; [intros [t i] [?|[_ Hi]]; cbn in *; [lia|by apply (irreflexivity id_lt i)]|].
  intros [t1 i1] [t2 i2] [t3 i3]; cbn. intros [?|[-> Hi]] [?|[-> Hj]]; [left; lia|by left|by left|].
  right. split; [done|]. by trans i2.
Qed.

#[global] Instance key_lt_trichotomy : Trichotomy (key_lt id_lt).
Proof.
  intros [t1 i1] [t2 i2]. unfold key_lt; cbn. destruct (Z.lt_trichotomy t1 t2) as [?|[->|?]]; [by left; left| |by right; right; left].
  destruct (trichotomy id_lt i1 i2) as [?|[->|?]]; [left; right|right; left|right; right; right]; done.
Qed.

#[global] Instance dir_lt_strict d : StrictOrder (dir_lt id_lt d).
Proof.
  destruct d; [apply _|]. split; [intros x Hx; by apply (irreflexivity (key_lt id_lt) x)|].
  intros x y z Hxy Hyz. unfold dir_lt, flip in *. by trans y.
Qed.

#[global] Instance dir_lt_trichotomy d : Trichotomy (dir_lt id_lt d).
Proof. destruct d; [apply _|]. intros x y. unfold dir_lt, flip. destruct (trichotomy (key_lt id_lt) x y) as [?|[?|?]]; auto. Qed.

Lemma dir_lt_flip d a b : dir_lt id_lt (flip_dir d) a b <-> flip (dir_lt id_lt d) a b.
Proof. by destruct d. Qed.

Definition cur_key (c : cursor) : Z * string := (c_t c, c_id c).

Definition shown_page sortDir (page : pageParams) rows : list R :=
  page_rows (pg_limit page) (fetch (dir_lt id_lt sortDir) key (cur_key <$> pg_cur page) (pg_limit page) rows).

Definition a_row_follows sortDir (page : pageParams) rows : bool :=
  more (pg_limit page) (fetch (dir_lt id_lt sortDir) key (cur_key <$> pg_cur page) (pg_limit page) rows).

Lemma filter_filter_eq {A} (P Q : A -> Prop) `{forall x, Decision (P x)} `{forall x, Decision (Q x)} (l : list A) :
  (forall x, P x <-> Q x) -> filter P l = filter Q l.
Proof. intros HPQ. induction l as [|x l IH]; [done|]. rewrite !filter_cons, IH. repeat case_decide; naive_solver. Qed.

(** A forwards page: the rows behind the cursor in the list's order. *)
Lemma bi_page_forward sortDir page rows :
  match pg_cur page with Some c => c_dir c = dirNext | None => True end ->
  bi_page id_lt key sortDir page rows =
  let data := shown_page sortDir page rows in
  let '(next, prev) := pageEdges data (a_row_follows sortDir page rows) (bool_decide (is_Some (pg_cur page))) false key in
  (data, next, prev).
Proof.
  intros Hc. unfold bi_page, shown_page, a_row_follows. destruct page as [limit [c|]]; cbn [pg_cur pg_limit keysetClause fmap option_fmap option_map] in *.
  - rewrite Hc. cbn [String.eqb]. replace (String.eqb dirNext dirNext) with true by done. cbn [negb].
    assert (Hf : fetch (dir_lt id_lt sortDir) key None limit
                   (filter (admitted_by id_lt (Some (if Bool.eqb (bool_decide (sortDir = ASC)) true then Above else Below)) (c_t c, c_id c) key) rows)
                 = fetch (dir_lt id_lt sortDir) key (Some (cur_key c)) limit rows).
    { unfold fetch. f_equal. f_equal. rewrite filter_all_true by (by apply Forall_forall). apply filter_filter_eq.
      intros x. by destruct sortDir. }
    cbn zeta. rewrite Hf. done.
  - assert (Hf : filter (admitted_by id_lt None (zero_time, EmptyString) key) rows = rows) by (apply filter_all_true; by apply Forall_forall).
    cbn zeta. rewrite Hf. done.
Qed.

(** A backwards page: the last rows ahead of the cursor, in the list's order. *)
Lemma bi_page_backward sortDir limit c rows :
  keyed key rows -> c_dir c <> dirNext ->
  exists m, bi_page id_lt key sortDir (MkPage limit (Some c)) rows =
  let data := rev (take (Z.to_nat limit) (rev (filter (fun x => dir_lt id_lt sortDir (key x) (cur_key c)) (sorted (dir_lt id_lt sortDir) key rows)))) in
  let '(next, prev) := pageEdges data m true true key in (data, next, prev).
Proof.
  intros Hk Hc. unfold bi_page. cbn [pg_cur pg_limit keysetClause]. apply String.eqb_neq in Hc. rewrite Hc.
  cbn [negb]. cbn zeta. set (fetched := fetch _ _ _ _ _). exists (more limit fetched).
  assert (Ed : rev (page_rows limit fetched) = rev (take (Z.to_nat limit)
    (rev (filter (fun x => dir_lt id_lt sortDir (key x) (cur_key c)) (sorted (dir_lt id_lt sortDir) key rows))))); [|by rewrite Ed].
  f_equal. unfold fetched, page_rows, fetch. rewrite take_take. replace (Z.to_nat limit `min` (Z.to_nat limit + 1))%nat with (Z.to_nat limit) by lia. f_equal.
  rewrite filter_all_true by (by apply Forall_forall).
  set (kept := filter _ rows).
  assert (Ek : kept = filter (fun x => dir_lt id_lt sortDir (key x) (cur_key c)) rows).
  { unfold kept. apply filter_filter_eq. intros x. by destruct sortDir. }
  rewrite Ek, <- sorted_filter by (apply _ || done).
  transitivity (sorted (flip (dir_lt id_lt sortDir)) key (filter (fun x => dir_lt id_lt sortDir (key x) (cur_key c)) rows)).
  - unfold sorted. generalize (filter (fun x => dir_lt id_lt sortDir (key x) (cur_key c)) rows). intros l.
    unfold sort_stable. induction l as [|x l IH]; [done|]. cbn. rewrite IH. generalize (foldr (sort_insert (not_after (flip (dir_lt id_lt sortDir)) key)) [] l).
    intros l'. induction l' as [|y l' IH']; [done|]. cbn. rewrite IH'.
    repeat case_decide; try done; exfalso; unfold not_after in *; by destruct sortDir.
  - apply sorted_flip; [apply _..|]. by apply keyed_filter.
Qed.

(** The request's cursor, if it has one, points ahead. *)
Definition forwards (cur : option cursor) : Prop := match cur with Some c => c_dir c = dirNext | None => True end.
#[global] Instance forwards_dec cur : Decision (forwards cur).
Proof. destruct cur; apply _. Defined.

(** A page with a next token, whichever way it was fetched: the last rows of what the list
    holds up to the row the token names. *)
Lemma next_page_block sortDir limit cur rows data next1 prev1 :
  1 <= limit -> keyed key rows -> bi_page id_lt key sortDir (MkPage limit cur) rows = (data, Some next1, prev1) ->
  exists upto rest lst, sorted (dir_lt id_lt sortDir) key rows = upto ++ rest /\ last upto = Some lst /\ lst ∈ rows /\
    data = rev (take (Z.to_nat limit) (rev upto)) /\ last data = Some lst /\ is_Some (head data) /\
    next1 = encodeTimeCursor dirNext (key lst).1 (key lst).2 /\
    (forwards cur -> rest <> []).
Proof.
  intros Hl Hk H1. set (before := dir_lt id_lt sortDir). pose proof (sorted_strict before key rows Hk) as Hs.
  pose proof (elem_of_sorted before key) as Hel. set (n := Z.to_nat limit). remember (sorted before key rows) as l eqn:El.
  assert (Hlast : forall (d : list R) lst, last d = Some lst -> is_Some (head d)) by (intros [|x d] lst; [done|by eexists]).
  destruct (decide (forwards cur)) as [Hcur|Hcur].
  - rewrite bi_page_forward in H1 by done. cbn zeta in H1. unfold shown_page, a_row_follows in H1. cbn [pg_limit pg_cur] in H1.
    rewrite page_eq, fetch_eq in H1 by (apply _ || done). fold before n in H1. rewrite <- El in H1.
    destruct (behind_suffix before key l (cur_key <$> cur) Hs) as [a Ha]. remember (filter _ l) as f eqn:Ef. clear Ef.
    unfold pageEdges in H1. destruct (head (take n f)) eqn:Eh; [|done]. destruct (last (take n f)) as [lst|] eqn:E; [|done].
    destruct (more limit (take (n + 1) f)) eqn:Hm; [|done]. injection H1 as <- <- _.
    assert (Hln : (n < length f)%nat) by (unfold more in Hm; bool_prop; rewrite length_take in *; lia).
    exists (a ++ take n f), (drop n f), lst. split_and!; [by rewrite <- app_assoc, take_drop|by rewrite last_app, E| | | |by eexists|done|].
    + apply Hel. rewrite <- El, Ha, elem_of_app. right. eapply sublist_subseteq; [apply (sublist_take f n)|by apply last_Some_elem_of].
    + rewrite rev_app_distr, take_app_le, (take_ge (rev _)), rev_involutive by (rewrite length_rev, length_take; lia). done.
    + done.
    + intros _ Hn. apply (f_equal length) in Hn. rewrite length_drop in Hn. cbn in Hn. lia.
  - destruct cur as [c|]; [|by destruct Hcur]. destruct (bi_page_backward sortDir limit c rows Hk Hcur) as [m Hb].
    fold before n in Hb. rewrite <- El in Hb. rewrite Hb in H1. cbn zeta in H1.
    destruct (before_prefix before key l (cur_key c) Hs) as [rest Hr]. remember (filter _ l) as f eqn:Ef. clear Ef.
    unfold pageEdges in H1. destruct (head (rev (take n (rev f)))) eqn:Eh; [|done].
    destruct (last (rev (take n (rev f)))) as [lst|] eqn:E; [|done]. injection H1 as <- <- _.
    assert (Hlf : last f = Some lst).
    { assert (Hrev : forall t : list R, last (rev t) = head t) by (intros [|x t]; [done|cbn; by rewrite last_snoc]).
      rewrite Hrev in E. rewrite <- (rev_involutive f), Hrev. destruct (rev f), n; done. }
    exists f, rest, lst. split_and!; try done; try by eexists. all: try by intros ?. apply Hel. rewrite <- El, Hr, elem_of_app. left. by apply last_Some_elem_of.
Qed.

(** C32: the two tokens of a page undo each other.  Over rows that rest, the next_page of
    any page, whatever the order and the limit and whichever way and from wherever the page
    was fetched, decodes; the page it leads to, if it shows a row, has a prev_page; that
    decodes too, and leads back to the first page, with the same next_page.  Behind a page
    fetched forwards there is a row to show. *)
Theorem prev_undoes_next sortDir limit cur rows data1 next1 prev1 :
  1 <= limit -> keyed key rows ->
  (forall x, x ∈ rows -> min_int <= (key x).1 <= max_int /\ Valid (key x).2 = true) ->
  bi_page id_lt key sortDir (MkPage limit cur) rows = (data1, Some next1, prev1) ->
  exists c2 data2 next2 prev2, decodeCursor next1 = Ok c2 /\
    bi_page id_lt key sortDir (MkPage limit (Some c2)) rows = (data2, next2, prev2) /\
    (forwards cur -> data2 <> []) /\
    (data2 <> [] -> exists tok c3 prev3, prev2 = Some tok /\ decodeCursor tok = Ok c3 /\
       bi_page id_lt key sortDir (MkPage limit (Some c3)) rows = (data1, Some next1, prev3)).
Proof.
  intros Hl Hk Hin H1. set (before := dir_lt id_lt sortDir).
  assert (Hdec : forall dir x, known_dir dir = true -> x ∈ rows ->
    decodeCursor (encodeTimeCursor dir (key x).1 (key x).2) = Ok (time_cursor dir (key x).1 (key x).2)).
  { intros dir x Hd (Ht & [Hne Hb]%Valid_rides)%Hin. by apply decode_time. }
  destruct (next_page_block _ _ _ _ _ _ _ Hl Hk H1) as (upto & rest & lst & El & Hu & Hlr & -> & Hld & [fst Hhd] & -> & Hrest).
  fold before in El. pose proof (sorted_strict before key rows Hk) as Hs. pose proof (elem_of_sorted before key) as Hel.
  set (n := Z.to_nat limit) in *. assert (Hn : exists n', n = S n') by (exists (pred n); unfold n; lia). destruct Hn as [n' Hn].
  destruct (proj1 (last_Some upto lst) Hu) as [d Hd].
  assert (El1 : sorted before key rows = d ++ lst :: rest) by (by rewrite El, Hd, <- app_assoc).
  destruct (sorted_split before key _ _ _ _ El1 Hs) as [Hf2 _].
  assert (Hck : forall dir x, cur_key (time_cursor dir (key x).1 (key x).2) = key x) by (intros dir x; unfold cur_key; cbn; by destruct (key x)).
  exists (time_cursor dirNext (key lst).1 (key lst).2). rewrite bi_page_forward by done. cbn zeta. unfold shown_page, a_row_follows.
  cbn [pg_limit pg_cur fmap option_fmap option_map]. rewrite page_eq, fetch_eq, Hck by (apply _ || done). fold before n. rewrite Hf2.
  destruct (pageEdges (take n rest) _ _ false key) as [next2 prev2] eqn:Ep.
  exists (take n rest), next2, prev2. split_and!; [by apply Hdec|done| |].
  { intros Hc. specialize (Hrest Hc). rewrite Hn. by destruct rest. }
  intros Hne. destruct rest as [|y s]; [by rewrite take_nil in Hne|].
  assert (Hp : prev2 = Some (encodeTimeCursor dirPrev (key y).1 (key y).2)).
  { unfold pageEdges in Ep. rewrite Hn in Ep. cbn [take head] in Ep. destruct (last (y :: take n' s)) eqn:Ey; [|by apply last_None in Ey].
    by injection Ep. }
  assert (Hyr : y ∈ rows) by (apply Hel; rewrite El, elem_of_app; right; left).
  eexists _, (time_cursor dirPrev (key y).1 (key y).2). rewrite Hp.
  destruct (sorted_split before key _ _ _ _ El Hs) as [_ Hf3].
  destruct (bi_page_backward sortDir limit (time_cursor dirPrev (key y).1 (key y).2) rows Hk ltac:(done)) as [m Hb].
  rewrite Hck in Hb. fold before n in Hb. rewrite Hf3 in Hb. rewrite Hb. cbn zeta. unfold pageEdges. rewrite Hld, Hhd.
  eexists. split_and!; [done|by apply Hdec|done].
Qed.
End bidirectional.

(** Four rows, two pages of two: next, and back. *)
Definition ex_rows : list (Z * string) := [(1, "mem_a"); (2, "mem_b"); (2, "mem_c"); (4, "mem_d")].
Definition ex_page (cur : option cursor) : list (Z * string) * option string * option string :=
  bi_page path_lt id DESC (MkPage 2 cur) ex_rows.
Definition ex_follow (tok : option string) : cursor :=
  match decodeCursor (default EmptyString tok) with Ok c => c | Err _ => time_cursor EmptyString 0 EmptyString end.
Definition ex_second : cursor := ex_follow (ex_page None).1.2.
Definition ex_back : cursor := ex_follow (ex_page (Some ex_second)).2.

Lemma ex_rows_ok :
  keyed id ex_rows /\ (forall x, x ∈ ex_rows -> min_int <= x.1 <= max_int /\ Valid x.2 = true).
Proof.
  split; [apply (bool_decide_unpack _); vm_compute; exact I|].
  assert (Hr : Forall (fun x : Z * string => min_int <= x.1 <= max_int /\ Valid x.2 = true) ex_rows)
    by (repeat constructor; vm_compute; (reflexivity || discriminate)).
  by rewrite Forall_forall in Hr.
Qed.

(** The first page, fetched backwards from the second, leads on and back once more. *)
Lemma prev_undoes_next_witness :
  (ex_page (Some ex_second)).1.1 = [(2, "mem_b"); (1, "mem_a")] /\ c_dir ex_back = dirPrev /\
  exists next1 c2 next2 prev2, decodeCursor next1 = Ok c2 /\ ex_page (Some c2) = ([(2, "mem_b"); (1, "mem_a")], next2, prev2) /\
    exists tok c3 prev3, prev2 = Some tok /\ decodeCursor tok = Ok c3 /\ ex_page (Some c3) = ([(4, "mem_d"); (2, "mem_c")], Some next1, prev3).
Proof.
  split; [vm_compute; reflexivity|]. split; [vm_compute; reflexivity|].
  destruct (ex_page (Some ex_back)) as [[data1 [next1|]] prev1] eqn:E; [|vm_compute in E; discriminate].
  assert (E' : bi_page path_lt id DESC (MkPage 2 (Some ex_back)) ex_rows = (data1, Some next1, prev1)) by exact E.
  generalize E'. generalize (Some ex_back) as back. intros back Eb.
  destruct (prev_undoes_next path_lt id DESC 2 back ex_rows data1 next1 prev1 ltac:(lia) (proj1 ex_rows_ok) (proj2 ex_rows_ok) Eb)
    as (c2 & data2 & next2 & prev2 & Hd2 & H2 & _ & Hback).
  assert (E1 : data1 = [(4, "mem_d"); (2, "mem_c")]) by (vm_compute in E; by injection E as <- _ _).
  assert (E2 : data2 = [(2, "mem_b"); (1, "mem_a")]).
  { clear Hback. vm_compute in E. injection E as _ <- _. vm_compute in Hd2. injection Hd2 as <-. vm_compute in H2. by injection H2 as <- _ _. }
  subst data1 data2. exists next1, c2, next2, prev2. split; [exact Hd2|]. split; [exact H2|]. by apply Hback.
Defined.
