(* ===== verification/Wire.v ===== *)
(** * Wire: what the control plane's handlers share, internal/api/wire.go.

    A request is its path values (arguments of a handler), its query and its body; the
    body is given as its decoding found it.  An error is the kind of response it makes,
    with the handler's own words where it writes them. *)
From Stdlib Require Import Ascii Lia.
From S2P Require Import Prelude GoStrings Json Ids Inbound Memsync Pages.

Definition objmap := list (string * json).

(** [io.ReadAll] of the body, and what it is as JSON. *)
Inductive request_body := Blank | Oversize | NotUTF8 | NotJSON | Document (v : json).

(** Who is calling: the work token's session, the API key's row, the signed-in person. *)
Record auth := MkAuth { au_session : string; au_key : string; au_identity : option string }.

Record request := MkRequest { rq_auth : auth; rq_query : values; rq_query_whole : bool; rq_body : request_body }.

Inductive api_error :=
| Invalid (msg : string) | InvalidPath (e : path_error) | InvalidContent (e : content_error)
| UnknownKey (key : string) | HasNULByte | BadPage (e : page_error)
| TooLarge | NotFound (msg : string)
| PathConflict (id path msg : string) | PreconditionFailed (msg : string)
| Internal.

(** A plain word in double quotes. *)
Definition quoted (w : string) : string := String "034" (w +:+ String "034" EmptyString).

Definition principalFrom (a : auth) : string :=
  if negb (String.eqb (au_key a) EmptyString) then au_key a else default EmptyString (au_identity a).

Definition decodeObject (rq : request) : result api_error objmap :=
  match rq_body rq with
  | Oversize => Err TooLarge
  | Blank => Ok []
  | NotUTF8 => Err (Invalid "request body must be valid UTF-8")
  | NotJSON => Err (Invalid "request body must be a JSON object")
  | Document JNull => Ok []
  | Document (JObject ms) => if json_nul (JObject ms) then Err HasNULByte else Ok ms
  | Document _ => Err (Invalid "request body must be a JSON object")
  end.

(** [queryValues]: a query with a pair that does not parse is refused whole. *)
Definition queryValues (rq : request) : result api_error values :=
  if rq_query_whole rq then Ok (rq_query rq) else Err (Invalid "malformed query string").

Definition checkID (id resource : string) : result api_error unit :=
  if Valid id then Ok tt else Err (NotFound (resource +:+ " " +:+ id +:+ " not found")).

Definition rejectUnknownKeys (obj : objmap) (allowed : list string) : result api_error unit :=
  match Least obj allowed with Some key => Err (UnknownKey key) | None => Ok tt end.

(** [present]: neither absent nor null. *)
Definition present (raw : option json) : option json := match raw with Some JNull => None | r => r end.

(** [(val, set, null)] *)
Definition stringField (obj : objmap) (key : string) : result api_error (string * bool * bool) :=
  match obj_get obj key with
  | None => Ok (EmptyString, false, false)
  | Some JNull => Ok (EmptyString, true, true)
  | Some (JString s) => Ok (s, true, false)
  | Some _ => Err (Invalid (key +:+ " must be a string"))
  end.

Definition requiredString (obj : objmap) (key : string) : result api_error string :=
  try '(val, set, null) <- stringField obj key;
  if negb set || null || String.eqb val EmptyString then Err (Invalid (key +:+ " is required")) else Ok val.

Definition RuneCountInString (s : string) : Z := Z.of_nat (length (runes s)).

(** ** Metadata *)
Definition metadata := gmap string string.

Definition errEmptyMetadataKey : api_error := Invalid "metadata keys cannot be empty".

(** [json.Unmarshal] into a [map[string]*string]: a member overwrites the one before it. *)
Fixpoint decode_strings (acc : gmap string (option string)) (ms : objmap) : option (gmap string (option string)) :=
  match ms with
  | [] => Some acc
  | (k, JString s) :: ms' => decode_strings (<[k := Some s]> acc) ms'
  | (k, JNull) :: ms' => decode_strings (<[k := None]> acc) ms'
  | _ => None
  end.

Definition parseMetadata (obj : objmap) : result api_error metadata :=
  match present (obj_get obj "metadata") with
  | None => Ok ∅
  | Some (JObject ms) =>
      match decode_strings ∅ ms with
      | None => Err (Invalid "metadata must be an object of string values")
      | Some md => if bool_decide (is_Some (md !! EmptyString)) then Err errEmptyMetadataKey
                   else Ok (default EmptyString <$> md)
      end
  | Some _ => Err (Invalid "metadata must be an object of string values")
  end.

Definition splitMetadataPatch (raw : json) (emptyDeletes : bool) : result api_error (metadata * gset string) :=
  match (match raw with JNull => Some ∅ | JObject ms => decode_strings ∅ ms | _ => None end) with
  | None => Err (Invalid "metadata must be an object of string-or-null values")
  | Some patch =>
      let deletes (v : option string) := match v with None => true | Some s => emptyDeletes && String.eqb s EmptyString end in
      let upserts := omap (fun v => if deletes v then None else v) patch in
      if bool_decide (is_Some (upserts !! EmptyString)) then Err errEmptyMetadataKey
      else Ok (upserts, dom (filter (fun kv => deletes kv.2 = true) patch))
  end.

Definition patchMetadata (existing : metadata) (raw : json) (emptyDeletes : bool) : result api_error metadata :=
  match raw with
  | JNull => Ok existing
  | _ =>
      try '(upserts, deletes) <- splitMetadataPatch raw emptyDeletes;
      Ok (upserts ∪ filter (fun kv => kv.1 ∉ deletes) existing)
  end.

Definition metadataMaxPairs : Z := 16.
Definition metadataKeyMax : Z := 64.
Definition metadataValueMax : Z := 512.

Fixpoint check_metadata (md : list (string * string)) : result api_error unit :=
  match md with
  | [] => Ok tt
  | (k, v) :: rest =>
      if metadataKeyMax <? RuneCountInString k then Err (Invalid "metadata keys cannot exceed 64 characters")
      else if metadataValueMax <? RuneCountInString v then Err (Invalid "metadata values cannot exceed 512 characters")
      else check_metadata rest
  end.

(** [slices.Sorted(maps.Keys(md))] *)
Definition key_le (a b : string * string) : Prop := String.le a.1 b.1.
#[global] Instance key_le_dec a b : Decision (key_le a b).
Proof. unfold key_le. apply _. Defined.

Definition validateMetadataCaps (md : metadata) : result api_error unit :=
  if metadataMaxPairs <? Z.of_nat (size md) then Err (Invalid "metadata cannot exceed 16 pairs")
  else check_metadata (sort_stable key_le (map_to_list md)).

(** ** Query parameters *)
Definition parseBool (s : string) : option bool :=
  if bool_decide (s ∈ ["1"; "t"; "T"; "TRUE"; "true"; "True"]) then Some true
  else if bool_decide (s ∈ ["0"; "f"; "F"; "FALSE"; "false"; "False"]) then Some false else None.

Definition parseBoolParam (q : values) (key : string) : result api_error bool :=
  let s := Get q key in
  if String.eqb s EmptyString then Ok false
  else match parseBool s with Some v => Ok v | None => Err (Invalid (key +:+ " must be true or false")) end.

(** [parse] is [time.Parse(time.RFC3339, _)]. *)
Definition parseTimeParam (parse : string -> option Z) (q : values) (key : string) : result api_error (option Z) :=
  let s := Get q key in
  if String.eqb s EmptyString then Ok None
  else match parse s with Some t => Ok (Some t) | None => Err (Invalid (key +:+ " must be an RFC 3339 timestamp")) end.
