(* ===== verification/Memories.v ===== *)
(** * Memories: the memory-store routes of internal/api (memories.go, memorystores.go,
    memoryversions.go) and the sweep of memoryretention.go.

    They share their tables with the executor's settlement ([MemSettle]).  A handler is a
    function from a request and the tables to a response and the tables its transaction
    commits; a refusal leaves them as they were.  Beyond [MemSettle]'s parameters, the
    collation of the id columns and the reading of RFC 3339 instants are arguments. *)
From Stdlib Require Import Ascii Lia.
From S2P Require Import Prelude GoStrings GoTime Json Ids Memsync MemSettle Pages Wire.

Definition PrefixMemoryStore : string := "memstore".

(** ** Wire shapes *)
Record memoryJSON := MkMemoryJSON {
  mj_id : string; mj_store : string; mj_path : string; mj_content : option string; mj_size : Z; mj_sha : string;
  mj_version : string; mj_created : Z; mj_updated : Z }.

Inductive memory_item := MemoryItem (m : memoryJSON) | MemoryPrefix (path : string).

Record memoryPage := MkMemoryPage { mp_data : list memory_item; mp_next : option string }.

Record memoryVersionJSON := MkVersionJSON {
  vj_id : string; vj_store : string; vj_memory : string; vj_operation : operation; vj_path : option string;
  vj_content : option string; vj_size : option Z; vj_sha : option string; vj_created_by : option actor;
  vj_created : Z; vj_redacted : option (Z * option actor) }.

Record memoryStoreJSON := MkStoreJSON {
  sj_id : string; sj_name : string; sj_description : string; sj_metadata : metadata;
  sj_created : Z; sj_updated : Z; sj_archived : option Z }.

Definition viewBasic : string := "basic".
Definition viewFull : string := "full".
Definition memoryFullViewLimit : Z := 20.
Definition memoryListSchemaLimit : Z := 1000.

Definition renderMemory (storeID id : string) (m : memory) (full : bool) : memoryJSON :=
  MkMemoryJSON id storeID (m_path m) (if full then Some (m_content m) else None) (m_size m) (m_sha m) (m_version m)
    (m_created m) (m_updated m).

Definition renderMemoryVersion (storeID id : string) (v : version) (full : bool) : memoryVersionJSON :=
  MkVersionJSON id storeID (v_memory v) (v_operation v) (v_path v) (if full then v_content v else None) (v_size v) (v_sha v)
    (v_created_by v) (v_created v) (v_redacted v).

Definition renderMemoryStore (id : string) (s : store) : memoryStoreJSON :=
  MkStoreJSON id (s_name s) (s_description s) (s_metadata s) (s_created s) (s_updated s) (s_archived s).

Definition parseMemoryView (q : values) (def : string) : result api_error string :=
  let v := Get q "view" in
  if String.eqb v EmptyString then Ok def
  else if String.eqb v viewBasic || String.eqb v viewFull then Ok v
  else Err (Invalid ("view must be " +:+ quoted viewBasic +:+ " or " +:+ quoted viewFull)).

Definition memoryActor (a : auth) : option actor :=
  if negb (String.eqb (au_session a) EmptyString) then Some (SessionActor (au_session a))
  else if negb (String.eqb (au_key a) EmptyString) then Some (ApiActor (au_key a))
  else UserActor <$> au_identity a.

(** ** Refusals *)
Definition errNotFound (what id : string) : api_error := NotFound (what +:+ " " +:+ id +:+ " not found").

Definition errMemoryStoreArchived (storeID : string) : api_error :=
  Invalid ("cannot modify archived resource: memory store " +:+ storeID).

Definition errMemoryPathOccupied (path conflictID conflictPath exactTail : string) : api_error :=
  if String.eqb conflictPath path then
    PathConflict conflictID conflictPath ("path `" +:+ path +:+ "` is already used by `" +:+ conflictID +:+ "`; " +:+ exactTail)
  else
    PathConflict conflictID conflictPath ("path `" +:+ path +:+ "` conflicts with existing memory at `" +:+ conflictPath +:+
      "`: a memory and a path prefix of it cannot coexist. Delete or rename the other memory first.").

Definition errStaleContent : api_error := PreconditionFailed "precondition content_sha256 failed: content has changed".

Definition errDigestShape (field : string) : api_error :=
  Invalid (field +:+ ": must be 64 characters (and 1 more validation errors)").

Definition hex_rune (r : Z) : bool := in_range 48 57 r || in_range 97 102 r || in_range 65 70 r.

Definition failsBothDigestRules (v : string) : bool :=
  negb (RuneCountInString v =? 64) &&
  (String.eqb v EmptyString || existsb (fun rb => negb (hex_rune rb.1)) (runes v)).

(** [parsePrecondition]: the digest an update is conditioned on, if any. *)
Definition parsePrecondition (raw : option json) : result api_error (option string) :=
  match present raw with
  | None => Ok None
  | Some (JObject obj) =>
      try _ <- rejectUnknownKeys obj ["type"; "content_sha256"];
      try '(kind, kindSet, _) <- stringField obj "type";
      if negb kindSet then Err (Invalid "Failed to parse request: precondition.type: Field required")
      else if negb (String.eqb kind "content_sha256") then Err (Invalid ("precondition.type must be " +:+ quoted "content_sha256"))
      else
        try '(sha, set, null) <- stringField obj "content_sha256";
        if null then Err (Invalid "precondition.content_sha256: Value is not nullable")
        else if negb set || String.eqb sha EmptyString then Err (errDigestShape "precondition.content_sha256")
        else Ok (Some sha)
  | Some _ => Err (Invalid "precondition must be an object")
  end.

(** ** Statements *)

(** Whether the store is archived, or that it is not there. *)
Definition lockMemoryStore (d : db) (storeID : string) : result api_error bool :=
  match db_stores d !! storeID with
  | None => Err (errNotFound "memory store" storeID)
  | Some s => Ok (bool_decide (is_Some (s_archived s)))
  end.

Definition lockMemoryStoreForWrite (d : db) (storeID : string) : result api_error unit :=
  try archived <- lockMemoryStore d storeID;
  if archived then Err (errMemoryStoreArchived storeID) else Ok tt.

Definition checkMemoryStore (d : db) (storeID : string) : result api_error unit :=
  if bool_decide (is_Some (db_stores d !! storeID)) then Ok tt else Err (errNotFound "memory store" storeID).

(** A memory of the store, by id. *)
Definition memory_in (d : db) (storeID memoryID : string) : option memory :=
  m ← db_memories d !! memoryID; if String.eqb (m_store m) storeID then Some m else None.

Definition version_in (d : db) (storeID versionID : string) : option version :=
  v ← db_versions d !! versionID; if String.eqb (v_store v) storeID then Some v else None.

Definition by_path (a b : string * memory) : Prop := String.le (m_path a.2) (m_path b.2).
#[global] Instance by_path_dec a b : Decision (by_path a b).
Proof. unfold by_path. apply _. Defined.

(** [... AND id <> except AND (path = $3 OR ...) ORDER BY path LIMIT 1] *)
Definition occupiedBy (d : db) (storeID path except : string) : option (string * string) :=
  (fun kv => (kv.1, m_path kv.2)) <$>
  head (sort_stable by_path
    (filter (fun kv => kv.1 <> except /\ occupies path (m_path kv.2) = true) (store_memories d storeID))).

Definition set_versions (d : db) v := MkDb (db_stores d) (db_memories d) v (db_fresh d).
Definition set_stores (d : db) s := MkDb s (db_memories d) (db_versions d) (db_fresh d).

Section handlers.
Context (IsNormalString : string -> bool) (sha256hex : string -> string) (rnd : supply)
  (id_lt : relation string) `{forall a b, Decision (id_lt a b)}.

Definition contentDigest (content : string) : string := sha256hex content.

Definition insertMemoryVersion (d : db) (id storeID memoryID : string) (op : operation) (path : string)
    (content : option string) (who : option actor) : result api_error db :=
  let '(at_, d) := now rnd d in
  if bool_decide (is_Some (db_versions d !! id)) then Err Internal
  else Ok (set_versions d
    (<[id := MkVersion storeID memoryID op (Some path) content (contentDigest <$> content) (slen <$> content) who at_ None]>
       (db_versions d))).

(** [INSERT INTO memories]: the primary key and UNIQUE (memory_store_id, path). *)
Definition insert_memory (d : db) (id : string) (m : memory) : result api_error db :=
  if bool_decide (is_Some (db_memories d !! id))
     || existsb (fun kv => String.eqb (m_path kv.2) (m_path m)) (store_memories d (m_store m))
  then Err Internal
  else Ok (set_memories d (<[id := m]> (db_memories d))).

(** [UPDATE memories]: the same unique index. *)
Definition update_memory (d : db) (id : string) (m : memory) : result api_error db :=
  if existsb (fun kv => negb (String.eqb kv.1 id) && String.eqb (m_path kv.2) (m_path m)) (store_memories d (m_store m))
  then Err Internal
  else Ok (set_memories d (<[id := m]> (db_memories d))).

(** ** Memories *)
Definition createMemory (rq : request) (storeID : string) (d : db) : result api_error (memoryJSON * db) :=
  try _ <- checkID storeID "memory store";
  try view <- parseMemoryView (rq_query rq) viewBasic;
  try obj <- decodeObject rq;
  try _ <- rejectUnknownKeys obj ["path"; "content"];
  try path <- requiredString obj "path";
  match ValidatePath IsNormalString path with
  | Some e => Err (InvalidPath e)
  | None =>
      try '(content, set, null) <- stringField obj "content";
      if negb set || null then Err (Invalid "content: value is required")
      else match ValidateContent content with
      | Some e => Err (InvalidContent e)
      | None =>
          try _ <- lockMemoryStoreForWrite d storeID;
          match occupiedBy d storeID path EmptyString with
          | Some (conflictID, conflictPath) =>
              Err (errMemoryPathOccupied path conflictID conflictPath "use update to modify it")
          | None =>
              if MaxMemoriesPerStore <=? Z.of_nat (length (store_memories d storeID))
              then Err (Invalid ("memory store " +:+ storeID +:+ " holds 2000 memories"))
              else
                let '(memoryID, d) := NewMemoryID rnd d in
                let '(versionID, d) := NewVersionID rnd d in
                let '(at_, d) := now rnd d in
                let row := MkMemory storeID path content (contentDigest content) (slen content) versionID at_ at_ in
                try d <- insert_memory d memoryID row;
                try d <- insertMemoryVersion d versionID storeID memoryID created path (Some content) (memoryActor (rq_auth rq));
                Ok (renderMemory storeID memoryID row (String.eqb view viewFull), d)
          end
      end
  end.

Definition getMemory (rq : request) (storeID memoryID : string) (d : db) : result api_error memoryJSON :=
  try _ <- checkID storeID "memory store";
  let memoryNotFound := NotFound ("memory `" +:+ memoryID +:+ "` not found") in
  if negb (Valid memoryID) then Err memoryNotFound
  else
    try view <- parseMemoryView (rq_query rq) viewFull;
    match memory_in d storeID memoryID with
    | None => try _ <- checkMemoryStore d storeID; Err memoryNotFound
    | Some row => Ok (renderMemory storeID memoryID row (String.eqb view viewFull))
    end.

(** What an update asks for: the fields it sets and the digest it is conditioned on. *)
Record update := MkUpdate { up_content : option string; up_path : option string; up_precondition : option string }.

Definition parse_update (obj : objmap) : result api_error update :=
  try _ <- rejectUnknownKeys obj ["content"; "path"; "precondition"];
  try '(content, contentSet, contentNull) <- stringField obj "content";
  try '(path, pathSet, pathNull) <- stringField obj "path";
  let contentSet := contentSet && negb contentNull in
  let pathSet := pathSet && negb pathNull in
  if negb contentSet && negb pathSet
  then Err (Invalid "v1_update_memory_params: at least one of content or path must be provided")
  else match (if contentSet then ValidateContent content else None) with
  | Some e => Err (InvalidContent e)
  | None =>
      match (if pathSet then ValidatePath IsNormalString path else None) with
      | Some e => Err (InvalidPath e)
      | None =>
          try precondition <- parsePrecondition (obj_get obj "precondition");
          Ok (MkUpdate (if contentSet then Some content else None) (if pathSet then Some path else None) precondition)
      end
  end.

(** The row the update would leave, its version and stamps apart. *)
Definition next_row (row : memory) (u : update) : memory :=
  let content := default (m_content row) (up_content u) in
  MkMemory (m_store row) (default (m_path row) (up_path u)) content
    (match up_content u with Some c => contentDigest c | None => m_sha row end)
    (match up_content u with Some c => slen c | None => m_size row end)
    (m_version row) (m_created row) (m_updated row).

Definition updateMemory (rq : request) (storeID memoryID : string) (d : db) : result api_error (memoryJSON * db) :=
  try _ <- checkID storeID "memory store";
  try _ <- checkID memoryID "memory";
  try view <- parseMemoryView (rq_query rq) viewBasic;
  try obj <- decodeObject rq;
  try u <- parse_update obj;
  try _ <- lockMemoryStoreForWrite d storeID;
  match memory_in d storeID memoryID with
  | None => Err (errNotFound "memory" memoryID)
  | Some row =>
      if match up_path u with Some path => negb (String.eqb path (m_path row)) && IsMarkerPath path | None => false end
      then Err (Invalid ("path " +:+ default EmptyString (up_path u) +:+ " is reserved for the memory store's marker file"))
      else
        let nxt := next_row row u in
        let unchanged := String.eqb (m_content nxt) (m_content row) && String.eqb (m_path nxt) (m_path row) in
        if match up_precondition u with Some sha => negb (String.eqb sha (m_sha row)) && negb unchanged | None => false end
        then Err errStaleContent
        else if unchanged then Ok (renderMemory storeID memoryID row (String.eqb view viewFull), d)
        else
          match (if String.eqb (m_path nxt) (m_path row) then None else occupiedBy d storeID (m_path nxt) memoryID) with
          | Some (conflictID, conflictPath) =>
              Err (errMemoryPathOccupied (m_path nxt) conflictID conflictPath "delete it first to rename-and-replace")
          | None =>
              let '(versionID, d) := NewVersionID rnd d in
              let '(at_, d) := now rnd d in
              let nxt := MkMemory (m_store nxt) (m_path nxt) (m_content nxt) (m_sha nxt) (m_size nxt) versionID (m_created nxt) at_ in
              try d <- update_memory d memoryID nxt;
              try d <- insertMemoryVersion d versionID storeID memoryID modified (m_path nxt) (Some (m_content nxt))
                         (memoryActor (rq_auth rq));
              Ok (renderMemory storeID memoryID nxt (String.eqb view viewFull), d)
          end
  end.

Definition deleteMemory (rq : request) (storeID memoryID : string) (d : db) : result api_error (string * db) :=
  try _ <- checkID storeID "memory store";
  try _ <- checkID memoryID "memory";
  try q <- queryValues rq;
  let expected := Get q "expected_content_sha256" in
  if Has q "expected_content_sha256" && negb (IsDigest expected) then
    if failsBothDigestRules expected then Err (errDigestShape "expected_content_sha256")
    else Err (Invalid "expected_content_sha256: must be 64 lowercase hex characters")
  else
    try _ <- lockMemoryStore d storeID;
    match memory_in d storeID memoryID with
    | None => Err (errNotFound "memory" memoryID)
    | Some row =>
        if negb (String.eqb expected EmptyString) && negb (String.eqb expected (m_sha row)) then Err errStaleContent
        else
          let '(versionID, d) := NewVersionID rnd d in
          try d <- insertMemoryVersion d versionID storeID memoryID deleted (m_path row) None (memoryActor (rq_auth rq));
          Ok (memoryID, set_memories d (delete memoryID (db_memories d)))
    end.

(** ** The list of memories *)

(** [strconv.Atoi]'s three answers: a run of digits that overflows 64 bits is out of range
    whatever follows it. *)
Inductive int_parse := IntOk (z : Z) | IntRange (neg : bool) | IntSyntax.

Fixpoint parse_uint (acc : Z) (s : string) : option (option Z) :=
  match s with
  | EmptyString => Some (Some acc)
  | String c s' =>
      if in_range 48 57 (ord c) then
        let n := 10 * acc + (ord c - 48) in
        if 2 ^ 64 <=? n then Some None else parse_uint n s'
      else None
  end.

Definition parse_int (s : string) : int_parse :=
  let signed (neg : bool) (body : string) :=
    match body with
    | EmptyString => IntSyntax
    | _ =>
        match parse_uint 0 body with
        | None => IntSyntax
        | Some None => IntRange neg
        | Some (Some n) =>
            let z := if neg then - n else n in
            if in_range min_int max_int z then IntOk z else IntRange neg
        end
    end in
  match s with
  | String "-" body => signed true body
  | String "+" body => signed false body
  | _ => signed false s
  end.

Definition parse_depth (v : string) : result api_error bool :=
  if String.eqb v EmptyString then Ok false
  else
    let too_small := Err (Invalid "depth: must be greater than or equal to 1") in
    let too_big := Err (Invalid "depth must be 0 or 1 when provided") in
    match parse_int v with
    | IntSyntax => too_big
    | IntRange neg => if neg then too_small else too_big
    | IntOk n => if n <? 1 then too_small else if 1 <? n then too_big else Ok true
    end.

Definition parse_prefix (q : values) : result api_error string :=
  if negb (Has q "path_prefix") then Ok "/"
  else
    let v := Get q "path_prefix" in
    if String.eqb v EmptyString then Err (Invalid "invalid parameter 'path_prefix' in query: empty value is not allowed")
    else if negb (storableText v) then Err (Invalid "path_prefix must be valid text")
    else if negb (HasSuffix v "/") then Err (Invalid "path_prefix must be segment-aligned and end with /")
    else Ok v.

Definition limit_bounds (q : values) : result api_error unit :=
  match Atoi (Get q "limit") with
  | Some n =>
      if memoryListSchemaLimit <? n then Err (Invalid "limit: must be greater than or equal to 1 and less than or equal to 1000")
      else if maxLimit <? n then Err (Invalid "limit: value must be greater than or equal to 1 and less than or equal to 100")
      else Ok tt
  | None => Ok tt
  end.

(** [parsePage] in the words of a list that has its own for an unreadable token. *)
Definition parse_page_worded (q : values) : result api_error pageParams :=
  match parsePage q with
  | Ok page => Ok page
  | Err BadCursor => Err (Invalid "invalid page token")
  | Err e => Err (BadPage e)
  end.

Definition memoryCursorMismatch : string :=
  "page token does not match this request's parameters or API version; restart pagination from the first page".

(** The rows of the store under the prefix. *)
Definition under_prefix (d : db) (storeID prefix : string) : list (string * memory) :=
  filter (fun kv => HasPrefix (m_path kv.2) prefix = true) (store_memories d storeID).

Definition time_key (kv : string * memory) : Z * string := (m_created kv.2, kv.1).

(** At depth 1 a row's key is its path, or the prefix and the first segment below it. *)
Record entry := MkEntry { en_key : string; en_prefix : bool; en_row : string * memory }.

Definition depth_entry (prefix : string) (kv : string * memory) : entry :=
  let rest := TrimPrefix (m_path kv.2) prefix in
  match Cut rest slash with
  | (segment, _, true) => MkEntry (prefix +:+ segment +:+ "/") true kv
  | _ => MkEntry (m_path kv.2) false kv
  end.

(** [SELECT DISTINCT ON (key)]: one row for each key. *)
Definition distinct_entries (es : list entry) : list entry :=
  map snd (map_to_list (list_to_map (M := gmap string entry) (map (fun e => (en_key e, e)) es))).

Definition render_entry (storeID : string) (full : bool) (e : entry) : memory_item :=
  if en_prefix e then MemoryPrefix (en_key e) else MemoryItem (renderMemory storeID (en_row e).1 (en_row e).2 full).

Definition flat_page (storeID : string) (full : bool) (limit : Z) (fetched : list (string * memory)) : memoryPage :=
  let rows := page_rows limit fetched in
  MkMemoryPage (map (fun kv => MemoryItem (renderMemory storeID kv.1 kv.2 full)) rows)
    (if more limit fetched then (fun kv => encodeTimeCursor dirNext (m_created kv.2) kv.1) <$> last rows else None).

Definition depth_page (storeID : string) (full : bool) (limit : Z) (fetched : list entry) : memoryPage :=
  let rows := page_rows limit fetched in
  let lastIsPrefix := match last rows with Some e => en_prefix e | None => false end in
  MkMemoryPage (map (render_entry storeID full) rows)
    (if more limit fetched || (Z.of_nat (length fetched) =? limit) && lastIsPrefix
     then (fun e => encodePathCursor (en_key e)) <$> last rows else None).

(** What the query asks for, and the position it starts behind. *)
Record list_query := MkListQuery { lq_full : bool; lq_limit : Z; lq_cur : option cursor; lq_prefix : string; lq_depth1 : bool }.

Definition parse_list_query (q : values) : result api_error list_query :=
  try view <- parseMemoryView q viewBasic;
  try _ <- limit_bounds q;
  try page <- parse_page_worded q;
  let full := String.eqb view viewFull in
  let limit := if full && (memoryFullViewLimit <? pg_limit page) then memoryFullViewLimit else pg_limit page in
  try prefix <- parse_prefix q;
  try depth1 <- parse_depth (Get q "depth");
  Ok (MkListQuery full limit (pg_cur page) prefix depth1).

(** The statement of either depth, behind the cursor of its own kind. *)
Definition memory_page (d : db) (storeID : string) (lq : list_query) : result api_error memoryPage :=
  let rows := under_prefix d storeID (lq_prefix lq) in
  if lq_depth1 lq then
    try after <- (match lq_cur lq with
                  | None => Ok None
                  | Some c => if negb (c_pathKeyed c) || negb (String.eqb (c_dir c) dirNext)
                              then Err (Invalid memoryCursorMismatch) else Ok (Some (c_path c))
                  end);
    Ok (depth_page storeID (lq_full lq) (lq_limit lq)
          (fetch path_lt en_key after (lq_limit lq) (distinct_entries (map (depth_entry (lq_prefix lq)) rows))))
  else
    try after <- (match lq_cur lq with
                  | None => Ok None
                  | Some c => if foreignToTime (Some c) || negb (String.eqb (c_dir c) dirNext)
                              then Err (Invalid memoryCursorMismatch) else Ok (Some (c_t c, c_id c))
                  end);
    Ok (flat_page storeID (lq_full lq) (lq_limit lq) (fetch (dir_lt id_lt DESC) time_key after (lq_limit lq) rows)).

Definition listMemories (rq : request) (storeID : string) (d : db) : result api_error memoryPage :=
  try q <- queryValues rq;
  try lq <- parse_list_query q;
  try _ <- checkID storeID "memory store";
  try _ <- checkMemoryStore d storeID;
  memory_page d storeID lq.
End handlers.
