(* ===== verification/MemoryStores.v ===== *)
(** * MemoryStores: the stores, their version history and its retention, internal/api
    (memorystores.go, memoryversions.go, memoryretention.go).  Conventions as in
    [Memories]. *)
From Stdlib Require Import Ascii Lia.
From S2P Require Import Prelude GoStrings GoTime Json Ids MemSettle Pages Wire Memories.

(** ** Stores *)
Definition memoryStoreNameMax : Z := 255.
Definition memoryStoreDescriptionMax : Z := 1024.

Definition validateMemoryStoreName (name : string) : result api_error unit :=
  if String.eqb name EmptyString then Err (Invalid "name is required")
  else if memoryStoreNameMax <? RuneCountInString name then Err (Invalid "name cannot exceed 255 characters")
  else if existsb (fun rb => unicode_Cc rb.1) (runes name) then Err (Invalid "name cannot contain control characters")
  else Ok tt.

Definition validateMemoryStoreDescription (description : string) : result api_error unit :=
  if memoryStoreDescriptionMax <? RuneCountInString description then Err (Invalid "description cannot exceed 1024 characters")
  else Ok tt.

Section stores.
Context (sha256hex : string -> string) (rnd : supply) (parseRFC3339 : string -> option Z)
  (id_lt : relation string) `{forall a b, Decision (id_lt a b)}.

Definition NewStoreID (d : db) : string * db :=
  (NewID PrefixMemoryStore (rnd (db_fresh d)), MkDb (db_stores d) (db_memories d) (db_versions d) (S (db_fresh d))).

Definition createMemoryStore (rq : request) (d : db) : result api_error (memoryStoreJSON * db) :=
  try obj <- decodeObject rq;
  try _ <- rejectUnknownKeys obj ["name"; "description"; "metadata"];
  try '(name, nameSet, nameNull) <- stringField obj "name";
  if negb nameSet then Err (Invalid "name: Field required")
  else if nameNull then Err (Invalid "name is required")
  else if String.eqb name EmptyString then Err (Invalid "name: minimum string length is 1")
  else
    try _ <- validateMemoryStoreName name;
    try '(description, _, _) <- stringField obj "description";
    try _ <- validateMemoryStoreDescription description;
    try md <- parseMetadata obj;
    try _ <- validateMetadataCaps md;
    let p := principalFrom (rq_auth rq) in
    let createdBy := if String.eqb p EmptyString then None else Some p in
    let '(id, d) := NewStoreID d in
    let '(at_, d) := now rnd d in
    let row := MkStore name description md createdBy at_ at_ None in
    if bool_decide (is_Some (db_stores d !! id)) then Err Internal
    else Ok (renderMemoryStore id row, set_stores d (<[id := row]> (db_stores d))).

Definition getMemoryStore (id : string) (d : db) : result api_error memoryStoreJSON :=
  let notFound := NotFound ("memory store not found: " +:+ id) in
  if negb (Valid id) then Err notFound
  else match db_stores d !! id with Some row => Ok (renderMemoryStore id row) | None => Err notFound end.

(** A field an update sets, once the row is at hand. *)
Definition updateMemoryStore (rq : request) (id : string) (d : db) : result api_error (memoryStoreJSON * db) :=
  try _ <- checkID id "memory store";
  try obj <- decodeObject rq;
  try _ <- rejectUnknownKeys obj ["name"; "description"; "metadata"];
  if bool_decide (obj = []) then Err (Invalid "at least one of name, description, or metadata must be provided")
  else match obj_get obj "metadata" with
  | Some JNull => Err (Invalid ("Failed to parse request: params: field " +:+ quoted "metadata" +:+ ": null is not a valid value for a map field; omit the field to preserve, or set individual keys to null to delete them"))
  | metadataRaw =>
      try '(name, nameSet, nameNull) <- stringField obj "name";
      try '(description, descriptionSet, descriptionNull) <- stringField obj "description";
      try _ <- (match metadataRaw with Some raw => patchMetadata ∅ raw false | None => Ok ∅ end);
      match db_stores d !! id with
      | None => Err (errNotFound "memory store" id)
      | Some row =>
          if bool_decide (is_Some (s_archived row)) then Err (errMemoryStoreArchived id)
          else
            try newName <- (if nameSet then
                              if nameNull || String.eqb name EmptyString then Err (Invalid "name cannot be empty")
                              else try _ <- validateMemoryStoreName name; Ok name
                            else Ok (s_name row));
            try newDescription <- (if descriptionSet then
                                     let description := if descriptionNull then EmptyString else description in
                                     try _ <- validateMemoryStoreDescription description; Ok description
                                   else Ok (s_description row));
            try newMetadata <- (match metadataRaw with
                                | Some raw => try md <- patchMetadata (s_metadata row) raw false; try _ <- validateMetadataCaps md; Ok md
                                | None => Ok (s_metadata row)
                                end);
            if String.eqb newName (s_name row) && String.eqb newDescription (s_description row)
               && bool_decide (newMetadata = s_metadata row)
            then Ok (renderMemoryStore id row, d)
            else
              let '(at_, d) := now rnd d in
              let row := MkStore newName newDescription newMetadata (s_created_by row) (s_created row) at_ (s_archived row) in
              Ok (renderMemoryStore id row, set_stores d (<[id := row]> (db_stores d)))
      end
  end.

(** [updated_at = CASE WHEN archived_at IS NULL THEN now() ELSE updated_at END,
    archived_at = COALESCE(archived_at, now())] *)
Definition archive_row (row : store) (at_ : Z) : store :=
  match s_archived row with
  | Some _ => row
  | None => MkStore (s_name row) (s_description row) (s_metadata row) (s_created_by row) (s_created row) at_ (Some at_)
  end.

Definition archiveMemoryStore (id : string) (d : db) : result api_error (memoryStoreJSON * db) :=
  try _ <- checkID id "memory store";
  let '(at_, d) := now rnd d in
  match db_stores d !! id with
  | None => Err (errNotFound "memory store" id)
  | Some row => let row := archive_row row at_ in Ok (renderMemoryStore id row, set_stores d (<[id := row]> (db_stores d)))
  end.

(** [DELETE FROM memory_stores], with the cascades of its two tables. *)
Definition deleteMemoryStore (id : string) (d : db) : result api_error (string * db) :=
  try _ <- checkID id "memory store";
  match db_stores d !! id with
  | None => Err (errNotFound "memory store" id)
  | Some _ => Ok (id, MkDb (delete id (db_stores d)) (filter (fun kv => m_store kv.2 <> id) (db_memories d))
                        (filter (fun kv => v_store kv.2 <> id) (db_versions d)) (db_fresh d))
  end.

(** The page of a list ordered by (created_at, id), newest first. *)
Definition time_page {R} (key : R -> Z * string) (after : option (Z * string)) (limit : Z) (rows : list R) : list R * option string :=
  let fetched := fetch (dir_lt id_lt DESC) key after limit rows in
  let data := page_rows limit fetched in
  (data, if more limit fetched then (fun x => encodeTimeCursor dirNext (key x).1 (key x).2) <$> last data else None).

Definition within (gte lte : option Z) (t : Z) : bool :=
  match gte with Some g => g <=? t | None => true end && match lte with Some l => t <=? l | None => true end.

(** The position a forward time-keyed list starts behind; another list's cursor is refused. *)
Definition forward_position (refusal : string) (cur : option cursor) : result api_error (option (Z * string)) :=
  match cur with
  | None => Ok None
  | Some c => if foreignToTime (Some c) || negb (String.eqb (c_dir c) dirNext) then Err (Invalid refusal)
              else Ok (Some (c_t c, c_id c))
  end.

Definition listMemoryStores (rq : request) (d : db) : result api_error (list memoryStoreJSON * option string) :=
  try q <- queryValues rq;
  try page <- parse_page_worded q;
  try includeArchived <- parseBoolParam q "include_archived";
  try gte <- parseTimeParam parseRFC3339 q "created_at[gte]";
  try lte <- parseTimeParam parseRFC3339 q "created_at[lte]";
  try after <- forward_position memoryCursorMismatch (pg_cur page);
  let rows := filter (fun kv => (includeArchived || bool_decide (s_archived kv.2 = None)) && within gte lte (s_created kv.2) = true)
                (map_to_list (db_stores d)) in
  let '(data, next) := time_page (fun kv : string * store => (s_created kv.2, kv.1)) after (pg_limit page) rows in
  Ok (map (fun kv => renderMemoryStore kv.1 kv.2) data, next).

(** ** Versions *)
Definition getMemoryVersion (rq : request) (storeID versionID : string) (d : db) : result api_error memoryVersionJSON :=
  try _ <- checkID storeID "memory store";
  try _ <- checkID versionID "memory version";
  try view <- parseMemoryView (rq_query rq) viewFull;
  match version_in d storeID versionID with
  | None => Err (errNotFound "memory version" versionID)
  | Some v => Ok (renderMemoryVersion storeID versionID v (String.eqb view viewFull))
  end.

(** [created_by->>'session_id'] and its two siblings; no writer records a service account. *)
Definition actor_field (field : string) (a : option actor) : option string :=
  match a with
  | Some (SessionActor s) => if String.eqb field "session_id" then Some s else None
  | Some (ApiActor k) => if String.eqb field "api_key_id" then Some k else None
  | _ => None
  end.

(** A filter that was sent, once its shape is checked. *)
Definition filter_param (q : values) (param : string) (ok : string -> bool) (refusal : string) : result api_error (option string) :=
  let v := Get q param in
  if String.eqb v EmptyString then Ok None else if ok v then Ok (Some v) else Err (Invalid (param +:+ refusal)).

Definition same (want : option string) (have : option string) : bool :=
  match want with None => true | Some w => bool_decide (have = Some w) end.

Definition operation_name (o : operation) : string :=
  match o with created => "created" | modified => "modified" | deleted => "deleted" end.

Definition listMemoryVersions (rq : request) (storeID : string) (d : db) : result api_error (list memoryVersionJSON * option string) :=
  try _ <- checkID storeID "memory store";
  try q <- queryValues rq;
  try view <- parseMemoryView q viewBasic;
  let full := String.eqb view viewFull in
  try page <- (match parsePage q with Ok page => Ok page | Err e => Err (BadPage e) end);
  let limit := if full && (memoryFullViewLimit <? pg_limit page) then memoryFullViewLimit else pg_limit page in
  try gte <- parseTimeParam parseRFC3339 q "created_at[gte]";
  try lte <- parseTimeParam parseRFC3339 q "created_at[lte]";
  try memory <- filter_param q "memory_id" Valid " must be a valid id";
  try session <- filter_param q "session_id" Valid " must be a valid id";
  try key <- filter_param q "api_key_id" storableText " must be valid text";
  try account <- filter_param q "service_account_id" storableText " must be valid text";
  try op <- filter_param q "operation" (fun v => bool_decide (v ∈ ["created"; "modified"; "deleted"]))
              (" must be " +:+ quoted "created" +:+ ", " +:+ quoted "modified" +:+ " or " +:+ quoted "deleted");
  try after <- forward_position "invalid page cursor" (pg_cur page);
  try _ <- checkMemoryStore d storeID;
  let rows := filter (fun kv => (String.eqb (v_store kv.2) storeID && same memory (Some (v_memory kv.2))
                && same session (actor_field "session_id" (v_created_by kv.2)) && same key (actor_field "api_key_id" (v_created_by kv.2))
                && same account (actor_field "service_account_id" (v_created_by kv.2)) && same op (Some (operation_name (v_operation kv.2)))
                && within gte lte (v_created kv.2)) = true) (map_to_list (db_versions d)) in
  let '(data, next) := time_page (fun kv : string * version => (v_created kv.2, kv.1)) after limit rows in
  Ok (map (fun kv => renderMemoryVersion storeID kv.1 kv.2 full) data, next).

(** The live memory of the store this version is the head of. *)
Definition head_of (d : db) (storeID versionID : string) : option string :=
  head (map fst (filter (fun kv => m_version kv.2 = versionID) (store_memories d storeID))).

Definition redact (v : version) (at_ : Z) (who : option actor) : version :=
  MkVersion (v_store v) (v_memory v) (v_operation v) None None None None (v_created_by v) (v_created v) (Some (at_, who)).

Definition redactMemoryVersion (rq : request) (storeID versionID : string) (d : db) : result api_error (memoryVersionJSON * db) :=
  try _ <- checkID storeID "memory store";
  try _ <- checkID versionID "memory version";
  try _ <- lockMemoryStore d storeID;
  match version_in d storeID versionID with
  | None => Err (errNotFound "memory version" versionID)
  | Some v =>
      if bool_decide (is_Some (v_redacted v)) then Ok (renderMemoryVersion storeID versionID v true, d)
      else match head_of d storeID versionID with
      | Some head => Err (Invalid ("version is the current content of " +:+ head +:+ "; write a new version first"))
      | None =>
          let '(at_, d) := now rnd d in
          let v := redact v at_ (memoryActor (rq_auth rq)) in
          Ok (renderMemoryVersion storeID versionID v true, set_versions d (<[versionID := v]> (db_versions d)))
      end
  end.

(** ** Retention *)
Definition memoryVersionRetention : Z := 30 * 24 * hour.
Definition memoryVersionsKept : Z := 5.

Definition version_key (kv : string * version) : Z * string := (v_created kv.2, kv.1).

(** [SELECT k.id ... ORDER BY k.created_at DESC, k.id DESC LIMIT keep]: the newest of a
    memory's versions. *)
Definition lineage (d : db) (v : version) : list (string * version) :=
  filter (fun kv => v_store kv.2 = v_store v /\ v_memory kv.2 = v_memory v) (map_to_list (db_versions d)).

Definition newest (d : db) (keep : Z) (v : version) : list string :=
  map fst (take (Z.to_nat keep) (sort_stable (not_after (dir_lt id_lt DESC) version_key) (lineage d v))).

Definition is_head (d : db) (versionID : string) : bool :=
  existsb (fun kv => String.eqb (m_version kv.2) versionID) (map_to_list (db_memories d)).

Definition prunable (d : db) (at_ retention keep : Z) (id : string) (v : version) : bool :=
  (v_created v <? at_ - retention) && negb (is_head d id) && negb (bool_decide (id ∈ newest d keep v)).

(** The rows it removed are counted. *)
Definition pruneMemoryVersions (retention keep : Z) (d : db) : Z * db :=
  let '(at_, d) := now rnd d in
  let kept := filter (fun kv => prunable d at_ retention keep kv.1 kv.2 = false) (db_versions d) in
  (Z.of_nat (size (db_versions d)) - Z.of_nat (size kept), set_versions d kept).
End stores.
