(* ===== verification/MemoriesSpec.v ===== *)
(** * MemoriesSpec: what the memory tables hold across the routes, the settlement and the
    sweep.

    [step] is one committed transaction of any of the three writers, as [Memories],
    [MemoryStores] and [MemSettle] define them; [table_step] is the abstract contract: a
    write of one store by [MemSettleSpec.store_step], a redaction, a pruning that spares
    heads, a store's own row, a store's deletion.  [step_refines] shows the first to be a
    sequence of the second; the theorems are inductions over either. *)
From Stdlib Require Import Ascii Lia.
From S2P Require Import Prelude GoStrings GoTime Json Ids Memsync MemPlan MemSettle MemSettleSpec Pages Wire Memories MemoryStores.

Set Default Proof Using "Type".

(** Run a handler: split every computation it branches on, keeping the branches that
    return. *)
Ltac returns H :=
  repeat match type of H with
  | match ?x with _ => _ end = Ok _ => let E := fresh "E" in destruct x eqn:E; try discriminate H
  | (if ?x then _ else _) = Ok _ => let E := fresh "E" in destruct x eqn:E; try discriminate H
  end.

(** ** The contract *)
Section contract.
Context (sha256hex : string -> string).

(** Rows go, and what is written says so. *)
Definition erases (d d' : db) : Prop :=
  db_memories d' ⊆ db_memories d /\
  forall vid v, db_versions d' !! vid = Some v -> db_versions d !! vid = Some v \/ v_operation v = deleted.

Inductive table_step : db -> db -> Prop :=
| ts_write id s who d d' :
    db_stores d !! id = Some s -> (s_archived s = None \/ erases d d') ->
    store_step sha256hex id who d d' -> table_step d d'
| ts_redact vid v at_ who d n :
    db_versions d !! vid = Some v -> v_redacted v = None -> is_head d vid = false ->
    table_step d (MkDb (db_stores d) (db_memories d) (<[vid := redact v at_ who]> (db_versions d)) n)
| ts_prune (drop : string -> version -> bool) d n :
    (forall vid v, drop vid v = true -> is_head d vid = false) ->
    table_step d (MkDb (db_stores d) (db_memories d) (filter (fun kv => drop kv.1 kv.2 = false) (db_versions d)) n)
| ts_store id s' d n :
    (forall s, db_stores d !! id = Some s -> is_Some (s_archived s) -> s' = s) ->
    table_step d (MkDb (<[id := s']> (db_stores d)) (db_memories d) (db_versions d) n)
| ts_delete_store id d n :
    table_step d (MkDb (delete id (db_stores d)) (filter (fun kv => m_store kv.2 <> id) (db_memories d))
                    (filter (fun kv => v_store kv.2 <> id) (db_versions d)) n).

(** The tables are sound: [MemSettleSpec]'s two invariants, the cap, and every row's store
    there. *)
Record tables_ok (d : db) : Prop := {
  ok_tree : tree_ok d;
  ok_heads : heads_ok sha256hex d;
  ok_cap : forall id, count id d <= MaxMemoriesPerStore;
  ok_ids : db_memories d !! EmptyString = None;
  ok_memory_store : forall i m, db_memories d !! i = Some m -> is_Some (db_stores d !! m_store m);
  ok_version_store : forall i v, db_versions d !! i = Some v -> is_Some (db_stores d !! v_store v) }.

Lemma is_head_false d vid : is_head d vid = false <-> forall i m, db_memories d !! i = Some m -> m_version m <> vid.
Proof.
  unfold is_head. rewrite <- not_true_iff_false, existsb_exists. split.
  - intros H i m Hi E. apply H. exists (i, m). split; [by apply list_elem_of_In, elem_of_map_to_list|]. by apply String.eqb_eq.
  - intros H ([i m] & Hin & E%String.eqb_eq). apply list_elem_of_In, elem_of_map_to_list in Hin. by apply (H i m).
Qed.

Lemma store_step_stores id who d d' : store_step sha256hex id who d d' -> db_stores d' = db_stores d.
Proof. by intros []. Qed.

Lemma store_count_same id d d' : db_memories d' = db_memories d -> count id d' = count id d.
Proof. unfold count, store_memories. by intros ->. Qed.

Lemma count_filter id d vs st n :
  count id (MkDb st (filter (fun kv => m_store kv.2 <> id) (db_memories d)) vs n) = 0.
Proof.
  unfold count. destruct (store_memories _ id) as [|[i m] l] eqn:E; [done|]. exfalso.
  assert (Hin : (i, m) ∈ store_memories (MkDb st (filter (fun kv => m_store kv.2 <> id) (db_memories d)) vs n) id) by (rewrite E; left).
  apply elem_of_store_memories in Hin as [Hi Hm]. by apply map_lookup_filter_Some in Hi as [_ Hi].
Qed.

Lemma count_le id d d' : db_memories d' ⊆ db_memories d -> count id d' <= count id d.
Proof.
  intros Hs. unfold count. apply inj_le. apply submseteq_length, NoDup_submseteq.
  - apply NoDup_filter, NoDup_map_to_list.
  - intros [i m]. rewrite !elem_of_store_memories. intros [Hi Hm]. split; [by eapply lookup_weaken|done].
Qed.

Lemma store_write_ok id s who d d' :
  db_stores d !! id = Some s -> store_step sha256hex id who d d' -> tables_ok d -> tables_ok d'.
Proof.
  intros Hs Hstep [Ht Hh Hc Hi Hm Hv]. pose proof (store_step_stores _ _ _ _ Hstep) as Hst. split.
  - by eapply step_tree_ok.
  - by eapply step_heads_ok.
  - intros id'. destruct (decide (id' = id)) as [->|Hne].
    + pose proof (step_count _ _ _ _ _ Hstep). specialize (Hc id). lia.
    + rewrite (count_others id id' d d'); [apply Hc| |done]. intros i m. by eapply step_others.
  - destruct Hstep; cbn [db_memories]; [done|by rewrite lookup_insert_ne| |by rewrite lookup_delete_None; right].
    rewrite lookup_insert_ne; [done|]. intros ->. match goal with H : row_at _ _ _ _ _ |- _ => destruct H as (x & Hx & _) end. congruence.
  - rewrite Hst. intros i m Hl. destruct (decide (m_store m = id)) as [->|Hne]; [by eexists|].
    apply (Hm i). by apply (step_others _ _ _ _ _ i m Hstep Hne).
  - rewrite Hst. intros i v. destruct Hstep; cbn [db_versions]; [apply Hv|..];
      rewrite lookup_insert; case_decide; try apply Hv; intros [= <-]; by eexists.
Qed.

Lemma table_step_ok d d' : tables_ok d -> table_step d d' -> tables_ok d'.
Proof.
  intros Hok Hstep. destruct Hstep as [id s who d d' Hs Ha Hw|vid v at_ who d n Hl Hr Hd|drop d n Hd|id s' d n Ha|id d n];
    [by eapply store_write_ok|destruct Hok as [Ht Hh Hc Hi Hm Hv]..].
  - split; [done| |done|done|done|].
    + intros i m Hli. destruct (Hh i m Hli) as (? & ? & w & Hw & ?). split_and!; [done..|]. exists w. split; [|done].
      cbn [db_versions]. rewrite lookup_insert_ne; [done|]. rewrite is_head_false in Hd. intros E. by eapply Hd.
    + intros i w. cbn [db_versions db_stores]. rewrite lookup_insert. case_decide; [|apply Hv]. intros [= <-]. cbn. by apply (Hv vid).
  - split; [done| |done|done|done|].
    + intros i m Hli. destruct (Hh i m Hli) as (? & ? & w & Hw & ?). split_and!; [done..|]. exists w. split; [|done].
      cbn [db_versions]. apply map_lookup_filter_Some. split; [done|]. cbn. apply not_true_iff_false. intros Hb%Hd.
      rewrite is_head_false in Hb. by eapply Hb.
    + intros i w [Hw _]%map_lookup_filter_Some. by eapply Hv.
  - split; [done..| |]; cbn [db_memories db_versions db_stores].
    + intros i m Hli. rewrite lookup_insert. case_decide; [by eexists|by eapply Hm].
    + intros i w Hli. rewrite lookup_insert. case_decide; [by eexists|by eapply Hv].
  - split; cbn [db_memories db_versions db_stores].
    + intros i j mi mj [Hli _]%map_lookup_filter_Some [Hlj _]%map_lookup_filter_Some. by apply Ht.
    + intros i m [Hli Hne]%map_lookup_filter_Some. destruct (Hh i m Hli) as (? & ? & w & Hw & Hop & Hws & ?). split_and!; [done..|].
      exists w. split; [|done]. cbn [db_versions]. apply map_lookup_filter_Some. split; [done|]. cbn in *. congruence.
    + intros id'. etrans; [|apply (Hc id')]. apply count_le; cbn. apply map_filter_subseteq.
    + apply map_lookup_filter_None. by left.
    + intros i m [Hli Hne]%map_lookup_filter_Some. cbn in Hne. rewrite lookup_delete_ne by congruence. by eapply Hm.
    + intros i w [Hli Hne]%map_lookup_filter_Some. cbn in Hne. rewrite lookup_delete_ne by congruence. by eapply Hv.
Qed.
End contract.

(** ** Statements *)
Lemma occupiedBy_None d storeID path except :
  occupiedBy d storeID path except = None <->
  forall i m, db_memories d !! i = Some m -> m_store m = storeID -> i <> except -> occupies path (m_path m) = false.
Proof.
  unfold occupiedBy. rewrite fmap_None. set (hits := filter _ _).
  assert (Hh : head (sort_stable by_path hits) = None <-> hits = []).
  { pose proof (sort_stable_perm by_path hits) as Hp. split.
    - destruct (sort_stable by_path hits); [|done]. intros _. by apply Permutation_nil in Hp.
    - intros ->. done. }
  rewrite Hh. unfold hits. split.
  - intros Hn i m Hi Hm Hne. apply not_true_iff_false. intros Ho.
    assert (Hin : (i, m) ∈ filter (fun kv : string * memory => kv.1 <> except /\ occupies path (m_path kv.2) = true) (store_memories d storeID)).
    { apply list_elem_of_filter. split; [done|]. by apply elem_of_store_memories. }
    rewrite Hn in Hin. by apply elem_of_nil in Hin.
  - intros Hf. apply elem_of_nil_inv. intros [i m] [[Hne Ho] Hin]%list_elem_of_filter. cbn in *.
    apply elem_of_store_memories in Hin as [Hi Hm]. by rewrite (Hf i m) in Ho.
Qed.

Lemma memory_in_Some d storeID mid m : memory_in d storeID mid = Some m <-> db_memories d !! mid = Some m /\ m_store m = storeID.
Proof.
  unfold memory_in. destruct (db_memories d !! mid) as [m'|]; cbn; [|naive_solver].
  destruct (String.eqb_spec (m_store m') storeID); naive_solver.
Qed.

Lemma version_in_Some d storeID vid v : version_in d storeID vid = Some v <-> db_versions d !! vid = Some v /\ v_store v = storeID.
Proof.
  unfold version_in. destruct (db_versions d !! vid) as [v'|]; cbn; [|naive_solver].
  destruct (String.eqb_spec (v_store v') storeID); naive_solver.
Qed.

Lemma lock_for_write d storeID : lockMemoryStoreForWrite d storeID = Ok tt -> exists s, db_stores d !! storeID = Some s /\ s_archived s = None.
Proof.
  unfold lockMemoryStoreForWrite, lockMemoryStore. destruct (db_stores d !! storeID) as [s|]; [|done].
  case_bool_decide as Ha; [done|]. intros _. exists s. split; [done|]. by apply eq_None_not_Some.
Qed.

Lemma lock_any d storeID b : lockMemoryStore d storeID = Ok b -> is_Some (db_stores d !! storeID).
Proof. unfold lockMemoryStore. by destruct (db_stores d !! storeID). Qed.

Lemma NewID_nonempty p b : p <> EmptyString -> NewID p b <> EmptyString.
Proof. by destruct p. Qed.

(** ** The transactions *)
Section steps.
Context (IsNormalString : string -> bool) (sha256hex : string -> string)
  (id_lt : relation string) `{!forall a b, Decision (id_lt a b)}.
#[local] Abbreviation table_step := (table_step sha256hex).
#[local] Abbreviation tables_ok := (tables_ok sha256hex).

(** One committed transaction, with whatever it was given. *)
Inductive step (d : db) : db -> Prop :=
| s_settle rnds sid stores d' out :
    Forall (coherent sha256hex) stores -> settleMemory IsNormalString sha256hex rnds d sid stores = (d', out) -> step d d'
| s_createMemory rnd rq sid j d' : createMemory IsNormalString sha256hex rnd rq sid d = Ok (j, d') -> step d d'
| s_updateMemory rnd rq sid mid j d' : updateMemory IsNormalString sha256hex rnd rq sid mid d = Ok (j, d') -> step d d'
| s_deleteMemory rnd rq sid mid j d' : deleteMemory sha256hex rnd rq sid mid d = Ok (j, d') -> step d d'
| s_redact rnd rq sid vid j d' : redactMemoryVersion rnd rq sid vid d = Ok (j, d') -> step d d'
| s_createStore rnd rq j d' : createMemoryStore rnd rq d = Ok (j, d') -> step d d'
| s_updateStore rnd rq sid j d' : updateMemoryStore rnd rq sid d = Ok (j, d') -> step d d'
| s_archive rnd sid j d' : archiveMemoryStore rnd sid d = Ok (j, d') -> step d d'
| s_deleteStore sid j d' : deleteMemoryStore sid d = Ok (j, d') -> step d d'
| s_prune rnd retention keep n d' : pruneMemoryVersions rnd id_lt retention keep d = (n, d') -> step d d'.

Lemma insertMemoryVersion_Ok rnd d vid storeID mid op path content who d' :
  insertMemoryVersion sha256hex rnd d vid storeID mid op path content who = Ok d' ->
  db_versions d !! vid = None /\ exists at_ n,
  d' = MkDb (db_stores d) (db_memories d) (<[vid := written sha256hex storeID mid op path content who at_]> (db_versions d)) n.
Proof.
  unfold insertMemoryVersion. cbn. case_bool_decide as Hd; [done|]. intros [= <-]. split; [by apply eq_None_not_Some|]. eauto.
Qed.

Lemma createMemory_refines rnd rq storeID d j d' :
  tables_ok d -> createMemory IsNormalString sha256hex rnd rq storeID d = Ok (j, d') -> table_step d d'.
Proof.
  intros Hok Hret. unfold createMemory, NewMemoryID, NewVersionID, now in Hret. returns Hret.
  match goal with E : lockMemoryStoreForWrite _ _ = Ok ?u |- _ => destruct u; apply lock_for_write in E as (row & Hs & Ha) end.
  match goal with E : occupiedBy _ _ _ _ = None |- _ => rename E into Eo end.
  match goal with E : (_ <=? _) = false |- _ => rename E into Ec end. rewrite occupiedBy_None in Eo. bool_prop.
  match goal with E : insert_memory _ _ _ = Ok _ |- _ => unfold insert_memory in E; cbn [db_memories db_stores db_versions db_fresh m_store m_path] in E;
    destruct (_ || _) eqn:Ei in E; [discriminate|]; injection E as <- end.
  match goal with E : insertMemoryVersion _ _ _ _ _ _ _ _ _ _ = Ok _ |- _ => apply insertMemoryVersion_Ok in E as (Hv & at_ & n & ->) end.
  injection Hret as <- <-. bool_prop. cbn [set_memories db_stores db_memories db_versions db_fresh] in *.
  rewrite <- eq_None_not_Some in *. eapply ts_write; [exact Hs|by left|].
  apply step_create; try done.
  apply occupied_false. intros i m Hi Hm. apply (Eo i m Hi Hm). intros ->. by rewrite (ok_ids _ _ Hok) in Hi.
Qed.

(** What an update that returns has done: nothing, where the row already is as asked, or
    one row and one version. *)
Lemma updateMemory_cases rnd rq storeID mid d j d' :
  updateMemory IsNormalString sha256hex rnd rq storeID mid d = Ok (j, d') ->
  exists obj u row st, decodeObject rq = Ok obj /\ parse_update IsNormalString obj = Ok u /\
    db_stores d !! storeID = Some st /\ s_archived st = None /\ db_memories d !! mid = Some row /\ m_store row = storeID /\
    let nxt := next_row sha256hex row u in
    (m_content nxt = m_content row /\ m_path nxt = m_path row /\ d' = d \/
     (m_content nxt <> m_content row \/ m_path nxt <> m_path row) /\
     (forall sha, up_precondition u = Some sha -> sha = m_sha row) /\
     (m_path nxt = m_path row \/ occupiedBy d storeID (m_path nxt) mid = None) /\
     exists vid at1 at2 n, db_versions d !! vid = None /\
       d' = MkDb (db_stores d)
         (<[mid := MkMemory storeID (m_path nxt) (m_content nxt) (m_sha nxt) (m_size nxt) vid (m_created row) at1]> (db_memories d))
         (<[vid := written sha256hex storeID mid modified (m_path nxt) (Some (m_content nxt)) (memoryActor (rq_auth rq)) at2]>
            (db_versions d)) n).
Proof.
  intros Hret. unfold updateMemory, NewVersionID, now in Hret. cbn zeta in Hret. returns Hret;
    match goal with E : lockMemoryStoreForWrite _ _ = Ok ?u |- _ => destruct u; apply lock_for_write in E as (st & Hst & Ha) end;
    match goal with E : memory_in _ _ _ = Some _ |- _ => apply memory_in_Some in E as [Hm Hs] end;
    eexists _, _, _, _; do 6 (split; [first [eassumption|reflexivity]|]); cbn zeta; cbn [m_content m_path] in *.
  - injection Hret as <- <-. bool_prop. left. split_and!; [by apply String.eqb_eq|by apply String.eqb_eq|done].
  - right.
    match goal with E : update_memory _ _ _ = Ok _ |- _ => unfold update_memory in E; cbn [db_memories db_stores db_versions db_fresh m_store m_path] in E;
      destruct (existsb _ _) in E; [discriminate|]; injection E as <- end.
    match goal with E : insertMemoryVersion _ _ _ _ _ _ _ _ _ _ = Ok _ |- _ => apply insertMemoryVersion_Ok in E as (Hv & at2 & n & ->) end.
    injection Hret as <- <-. cbn [set_memories db_stores db_memories db_versions db_fresh m_content m_path m_store m_sha m_size] in *.
    match goal with E : _ && _ = false |- _ => rename E into Ech end.
    match goal with E : match up_precondition _ with _ => _ end = false |- _ => rename E into Epre end. split_and!.
    + apply andb_false_iff in Ech as [Ec%String.eqb_neq|Ep%String.eqb_neq]; [by left|by right].
    + intros sha Hsha. rewrite Hsha in Epre. rewrite andb_true_r in Epre. bool_prop. by apply String.eqb_eq.
    + match goal with E : (if ?b then None else _) = None |- _ => destruct b eqn:Eb in E; [left; by apply String.eqb_eq|by right] end.
    + eexists _, _, at2, n. split; [exact Hv|]. rewrite Hs. done.
Qed.

(** The row an update leaves agrees with its own content. *)
Lemma next_row_coherent d mid row u :
  heads_ok sha256hex d -> db_memories d !! mid = Some row ->
  m_sha (next_row sha256hex row u) = sha256hex (m_content (next_row sha256hex row u)) /\
  m_size (next_row sha256hex row u) = slen (m_content (next_row sha256hex row u)).
Proof. intros Hh Hm. destruct (Hh mid row Hm) as (Hsha & Hsize & _). unfold next_row. cbn. by destruct (up_content u). Qed.

Lemma updateMemory_refines rnd rq storeID mid d j d' :
  tables_ok d -> updateMemory IsNormalString sha256hex rnd rq storeID mid d = Ok (j, d') -> d' = d \/ table_step d d'.
Proof.
  intros Hok (obj & u & row & st & _ & _ & Hst & Ha & Hm & Hs & Hcase)%updateMemory_cases. cbn zeta in Hcase.
  destruct Hcase as [(_ & _ & ->)|(_ & _ & Hfree & vid & at1 & at2 & n & Hv & ->)]; [by left|].
  destruct (next_row_coherent d mid row u (ok_heads _ _ Hok) Hm) as [-> ->].
  right. eapply ts_write; [exact Hst|by left|].
  eapply step_update; [exists row; eauto|by rewrite Hm|done|].
  destruct Hfree as [->|Hfree]; [by left|right]. rewrite occupiedBy_None in Hfree.
  intros i m Hne Hi Hmi. by apply (Hfree i m).
Qed.

Lemma deleteMemory_cases rnd rq storeID mid d j d' :
  deleteMemory sha256hex rnd rq storeID mid d = Ok (j, d') ->
  exists row, is_Some (db_stores d !! storeID) /\ db_memories d !! mid = Some row /\ m_store row = storeID /\
    (Get (rq_query rq) "expected_content_sha256" = EmptyString \/ Get (rq_query rq) "expected_content_sha256" = m_sha row) /\
    exists vid at_ n, db_versions d !! vid = None /\
      d' = MkDb (db_stores d) (delete mid (db_memories d))
             (<[vid := written sha256hex storeID mid deleted (m_path row) None (memoryActor (rq_auth rq)) at_]> (db_versions d)) n.
Proof.
  intros Hret. unfold deleteMemory, NewVersionID, queryValues in Hret. cbn zeta in Hret.
  destruct (rq_query_whole rq); [|by returns Hret]. returns Hret.
  match goal with E : lockMemoryStore _ _ = Ok _ |- _ => apply lock_any in E as Hst end.
  match goal with E : memory_in _ _ _ = Some ?m |- _ => apply memory_in_Some in E as [Hm Hs]; exists m end.
  match goal with E : insertMemoryVersion _ _ _ _ _ _ _ _ _ _ = Ok _ |- _ => apply insertMemoryVersion_Ok in E as (Hv & at_ & n & ->) end.
  injection Hret as <- <-. do 3 (split; [done|]). split.
  - match goal with E : negb _ && negb _ = false |- _ => apply andb_false_iff in E as [E|E]; apply negb_false_iff, String.eqb_eq in E; auto end.
  - by eexists _, _, n.
Qed.

Lemma deleteMemory_refines rnd rq storeID mid d j d' :
  deleteMemory sha256hex rnd rq storeID mid d = Ok (j, d') -> table_step d d'.
Proof.
  intros (row & [st Hst] & Hm & Hs & _ & vid & at_ & n & Hv & ->)%deleteMemory_cases.
  eapply ts_write; [exact Hst|right; split; cbn; [apply delete_subseteq|]|].
  - intros i v. rewrite lookup_insert. case_decide; [intros [= <-]; by right|by left].
  - eapply step_delete; [exists row; eauto|done].
Qed.

Lemma redact_cases rnd rq storeID vid d j d' :
  redactMemoryVersion rnd rq storeID vid d = Ok (j, d') ->
  exists v, db_versions d !! vid = Some v /\ v_store v = storeID /\
   (is_Some (v_redacted v) /\ d' = d \/
    v_redacted v = None /\ head_of d storeID vid = None /\ exists at_ n,
      d' = MkDb (db_stores d) (db_memories d) (<[vid := redact v at_ (memoryActor (rq_auth rq))]> (db_versions d)) n).
Proof.
  intros Hret. unfold redactMemoryVersion, now in Hret. cbn zeta in Hret. returns Hret;
    match goal with E : version_in _ _ _ = Some ?v |- _ => apply version_in_Some in E as [Hv Hs]; exists v end; do 2 (split; [done|]).
  - injection Hret as _ <-. left. split; [|done]. by case_bool_decide.
  - injection Hret as _ <-. right. case_bool_decide as Hr; [done|]. split; [by apply eq_None_not_Some|]. split; [done|]. by eexists _, _.
Qed.

Lemma head_of_None d storeID vid :
  head_of d storeID vid = None <-> forall i m, db_memories d !! i = Some m -> m_store m = storeID -> m_version m <> vid.
Proof.
  unfold head_of. set (l := filter _ _). split.
  - intros Hh i m Hi Hm Hv. assert (Hin : (i, m) ∈ l).
    { apply list_elem_of_filter. split; [done|]. by apply elem_of_store_memories. }
    destruct l as [|x l]; [by apply elem_of_nil in Hin|done].
  - intros Hf. destruct l as [|[i m] l'] eqn:E; [done|]. exfalso.
    assert (Hin : (i, m) ∈ l) by (rewrite E; left). apply list_elem_of_filter in Hin as [Hv [Hi Hm]%elem_of_store_memories].
    by apply (Hf i m).
Qed.

Lemma redact_refines rnd rq storeID vid d j d' :
  tables_ok d -> redactMemoryVersion rnd rq storeID vid d = Ok (j, d') -> d' = d \/ table_step d d'.
Proof.
  intros Hok (v & Hv & Hs & [(_ & ->)|(Hr & Hh & at_ & n & ->)])%redact_cases; [by left|].
  right. apply ts_redact; [done..|]. apply is_head_false. intros i m Hm E.
  rewrite head_of_None in Hh. apply (Hh i m Hm); [|done].
  destruct (ok_heads _ _ Hok i m Hm) as (_ & _ & w & Hw & _ & Hws & _). congruence.
Qed.

Lemma createStore_cases rnd rq d j d' :
  createMemoryStore rnd rq d = Ok (j, d') ->
  exists id s n, db_stores d !! id = None /\ d' = MkDb (<[id := s]> (db_stores d)) (db_memories d) (db_versions d) n.
Proof.
  intros Hret. unfold createMemoryStore, NewStoreID, now in Hret. cbn zeta in Hret. returns Hret. injection Hret as _ <-.
  match goal with E : bool_decide _ = false |- _ => apply bool_decide_eq_false, eq_None_not_Some in E end.
  unfold set_stores. cbn [db_stores db_memories db_versions db_fresh] in *. by eexists _, _, _.
Qed.

Lemma updateStore_cases rnd rq id d j d' :
  updateMemoryStore rnd rq id d = Ok (j, d') ->
  exists s, db_stores d !! id = Some s /\ s_archived s = None /\
    (d' = d \/ exists s' n, s_archived s' = None /\ d' = MkDb (<[id := s']> (db_stores d)) (db_memories d) (db_versions d) n).
Proof.
  intros Hret. unfold updateMemoryStore, now in Hret. cbn zeta in Hret. returns Hret; injection Hret as _ <-;
    match goal with E : db_stores _ !! _ = Some ?s |- _ => exists s; split; [done|] end;
    match goal with E : bool_decide (is_Some (s_archived _)) = false |- _ => apply bool_decide_eq_false, eq_None_not_Some in E; split; [done|] end;
    first [by left|right; eexists _, _; split; [|reflexivity]; done].
Qed.

Lemma archive_cases rnd id d j d' :
  archiveMemoryStore rnd id d = Ok (j, d') ->
  exists s at_ n, db_stores d !! id = Some s /\ d' = MkDb (<[id := archive_row s at_]> (db_stores d)) (db_memories d) (db_versions d) n.
Proof.
  intros Hret. unfold archiveMemoryStore, now in Hret. cbn zeta in Hret. returns Hret. injection Hret as _ <-.
  unfold set_stores. cbn [db_stores db_memories db_versions db_fresh] in *. by eexists _, _, _.
Qed.

Lemma deleteStore_cases id d j d' :
  deleteMemoryStore id d = Ok (j, d') ->
  is_Some (db_stores d !! id) /\
  d' = MkDb (delete id (db_stores d)) (filter (fun kv => m_store kv.2 <> id) (db_memories d))
         (filter (fun kv => v_store kv.2 <> id) (db_versions d)) (db_fresh d).
Proof. intros Hret. unfold deleteMemoryStore in Hret. returns Hret. injection Hret as _ <-. split; [by eexists|done]. Qed.

Lemma prune_refines rnd retention keep d n d' :
  pruneMemoryVersions rnd id_lt retention keep d = (n, d') -> table_step d d'.
Proof.
  unfold pruneMemoryVersions, now. cbn zeta. intros [= _ <-]. unfold set_versions. cbn [db_stores db_memories db_versions db_fresh].
  apply (ts_prune _ (fun vid v => prunable id_lt _ _ retention keep vid v)).
  intros vid v Hp. unfold prunable in Hp. bool_prop. done.
Qed.

(** A settlement's steps are writes of stores that take them. *)
Definition write_step (d d' : db) : Prop :=
  exists id s who, db_stores d !! id = Some s /\ s_archived s = None /\ store_step sha256hex id who d d'.

Lemma write_step_table d d' : write_step d d' -> table_step d d'.
Proof. intros (id & s & who & Hs & Ha & Hst). eapply ts_write; [exact Hs|by left|exact Hst]. Qed.

Lemma store_steps_write id s who d d' :
  db_stores d !! id = Some s -> s_archived s = None -> rtc (store_step sha256hex id who) d d' -> rtc write_step d d'.
Proof.
  intros Hs Ha Hr. induction Hr as [|d1 d2 d3 Hst _ IH]; [done|].
  eapply rtc_l; [by exists id, s, who|]. apply IH. by rewrite (store_step_stores _ _ _ _ _ Hst).
Qed.

Lemma settleStore_writes rnd d sid st d' st' :
  coherent sha256hex st -> settleStore IsNormalString sha256hex rnd d sid st = Ok (d', st') -> rtc write_step d d'.
Proof.
  intros Hco E. destruct (db_stores d !! ref_store (ref st)) as [s|] eqn:Hs.
  - destruct (decide (is_Some (s_archived s))) as [Ha|Ha%eq_None_not_Some].
    + assert (d' = d) as ->; [|done]. eapply settleStore_pull_only; [exact Hs|right; by left|exact E].
    + eapply store_steps_write; [exact Hs|done|]. eapply settleStore_steps; [reflexivity|exact Hco|exact E].
  - unfold settleStore in E. rewrite Hs in E. by injection E as <- _.
Qed.

Lemma settleMemory_writes rnds d sid stores d' out :
  Forall (coherent sha256hex) stores -> settleMemory IsNormalString sha256hex rnds d sid stores = (d', out) -> rtc write_step d d'.
Proof.
  unfold settleMemory. generalize (@nil storeSync). intros done Hco. revert d done.
  induction Hco as [|st stores Hst Hco IH]; intros d done; cbn [foldl].
  { by intros [= <- _]. }
  unfold settle_one at 2. destruct (skipped st); [apply IH|].
  destruct (settleStore _ _ _ _ _ _) as [[d1 st1]|e] eqn:E; [|apply IH].
  intros Hf. etrans; [by eapply settleStore_writes|by eapply IH].
Qed.

(** A transaction is a settlement's writes or at most one step of the contract. *)
Lemma step_shape d d' : tables_ok d -> step d d' -> rtc write_step d d' \/ d' = d \/ table_step d d'.
Proof.
  intros Hok Hstep. destruct Hstep.
  - left. by eapply settleMemory_writes.
  - right; right. by eapply createMemory_refines.
  - right. by eapply updateMemory_refines.
  - right; right. by eapply deleteMemory_refines.
  - right. by eapply redact_refines.
  - match goal with E : createMemoryStore _ _ _ = _ |- _ => apply createStore_cases in E as (i & s & n & Hn & ->) end.
    right; right. apply ts_store. intros s0 Hs0. congruence.
  - match goal with E : updateMemoryStore _ _ _ _ = _ |- _ => apply updateStore_cases in E as (s & Hs & Ha & [->|(s' & n & Ha' & ->)]) end;
      [right; by left|]. right; right. apply ts_store. intros s0 Hs0 [t Ht]. congruence.
  - match goal with E : archiveMemoryStore _ _ _ = _ |- _ => apply archive_cases in E as (s & at_ & n & Hs & ->) end.
    right; right. apply ts_store. intros s0 Hs0 [t Ht]. assert (s0 = s) as -> by congruence. unfold archive_row. by rewrite Ht.
  - match goal with E : deleteMemoryStore _ _ = _ |- _ => apply deleteStore_cases in E as [_ ->] end. right; right. apply ts_delete_store.
  - right; right. by eapply prune_refines.
Qed.

Lemma table_steps_ok d d' : tables_ok d -> rtc table_step d d' -> tables_ok d'.
Proof. intros Hok Hr. revert Hok. induction Hr as [|d1 d2 d3 Ht _ IHr]; [done|]. intros Hok. apply IHr. by eapply table_step_ok. Qed.

Lemma step_refines d d' : tables_ok d -> step d d' -> rtc table_step d d'.
Proof.
  intros Hok [Hw|[->|Ht]]%step_shape; [|done|by apply rtc_once|done].
  eapply rtc_subrel, Hw. intros ? ?. apply write_step_table.
Qed.

Lemma steps_refine d d' : tables_ok d -> rtc step d d' -> tables_ok d' /\ rtc table_step d d'.
Proof.
  intros Hok Hs. revert Hok. induction Hs as [d|d1 d2 d3 Hst _ IH]; intros Hok; [done|].
  pose proof (step_refines _ _ Hok Hst) as Hr. destruct (IH (table_steps_ok _ _ Hok Hr)) as [Hok3 Hr3]. split; [done|]. by etrans.
Qed.

Lemma empty_ok : tables_ok (MkDb ∅ ∅ ∅ 0).
Proof. split; cbn; try done; try (intros ? ?; by rewrite lookup_empty). Qed.

(** C25: the memory tables stay sound whatever writes them.  From an empty database, after
    any sequence of requests on memories, stores and versions, settlements of sessions'
    directories and retention sweeps: no two memories of a store are at, above or below
    one another's path; every memory's digest, size and head pointer agree with its
    content and name an unredacted version row of that very write, which neither a
    redaction nor the sweep ever takes; no store holds more than 2,000 memories; every row's
    store exists; and each of those transactions is a sequence of steps of the contract. *)
Theorem memory_tables_sound d :
  rtc step (MkDb ∅ ∅ ∅ 0) d -> tables_ok d /\ rtc table_step (MkDb ∅ ∅ ∅ 0) d.
Proof.
  apply steps_refine, empty_ok.
Qed.

(** ** An archived store *)
(** [v] as it was, or with what it said erased. *)
Definition same_or_redacted (v v' : version) : Prop :=
  v' = v \/ v_redacted v = None /\ exists at_ who, v' = redact v at_ who.

Lemma same_or_redacted_trans v1 v2 v3 : same_or_redacted v1 v2 -> same_or_redacted v2 v3 -> same_or_redacted v1 v3.
Proof.
  intros [->|(Hr & at_ & who & ->)] H2; [done|]. destruct H2 as [->|(Hr2 & _)]; [|done]. right. split; [done|]. by exists at_, who.
Qed.

(** One transaction, seen from the store: its row and its memories stay, a memory may go;
    a version stays, is redacted or goes, and one that is new is a deletion's tombstone. *)
Definition sealed (id : string) (s : store) (d d' : db) : Prop :=
  db_stores d' !! id = Some s /\
  (forall i m, db_memories d' !! i = Some m -> m_store m = id -> db_memories d !! i = Some m) /\
  (forall vid v', db_versions d' !! vid = Some v' -> v_store v' = id ->
     match db_versions d !! vid with Some v => same_or_redacted v v' | None => v_operation v' = deleted end).

Lemma sealed_refl id s d : db_stores d !! id = Some s -> sealed id s d d.
Proof. intros Hs. split_and!; [done..|]. intros vid v Hv _. rewrite Hv. by left. Qed.

Lemma redacted_same v v' : same_or_redacted v v' -> v_store v' = v_store v /\ v_operation v' = v_operation v.
Proof. by intros [->|(_ & at_ & who & ->)]. Qed.

(** Writes take no version away, so two of them are one. *)
Lemma sealed_writes id s d1 d2 d3 :
  db_versions d1 ⊆ db_versions d2 -> db_versions d2 ⊆ db_versions d3 -> sealed id s d1 d2 -> sealed id s d2 d3 -> sealed id s d1 d3.
Proof.
  intros H12 H23 (_ & Hm1 & Hv1) (Hs & Hm2 & Hv2). split_and!; [done|eauto|].
  intros vid v Hl Hst. destruct (db_versions d1 !! vid) as [v1|] eqn:E1.
  { left. pose proof (lookup_weaken _ _ _ _ (lookup_weaken _ _ _ _ E1 H12) H23). congruence. }
  specialize (Hv2 vid v Hl Hst). destruct (db_versions d2 !! vid) as [v2|] eqn:E2; [|done].
  apply redacted_same in Hv2 as [Hst2 ->]. specialize (Hv1 vid v2 E2). rewrite E1 in Hv1. apply Hv1. congruence.
Qed.

(** What a sequence of them leaves of a version that is no tombstone. *)
Lemma sealed_rows id s d d' vid v :
  rtc (sealed id s) d d' -> db_versions d' !! vid = Some v -> v_store v = id -> v_operation v <> deleted ->
  exists v0, db_versions d !! vid = Some v0 /\ same_or_redacted v0 v.
Proof.
  intros Hr. revert v. induction Hr as [d|d1 d2 d3 (_ & _ & Hv) _ IH]; intros v Hl Hst Hop; [exists v; split; [done|by left]|].
  destruct (IH v Hl Hst Hop) as (v2 & Hl2 & Hr2). pose proof (redacted_same _ _ Hr2) as [Hs2 Ho2].
  specialize (Hv vid v2 Hl2 ltac:(congruence)). destruct (db_versions d1 !! vid) as [v1|]; [|congruence].
  exists v1. split; [done|]. by eapply same_or_redacted_trans.
Qed.

Lemma sealed_memories id s d d' i m :
  rtc (sealed id s) d d' -> db_memories d' !! i = Some m -> m_store m = id -> db_memories d !! i = Some m.
Proof. intros Hr. induction Hr as [d|d1 d2 d3 (_ & Hm & _) _ IH]; [done|]. intros Hl Hst. apply Hm; auto. Qed.

(** What a write of one store leaves of another's rows. *)
Lemma store_step_other_versions id who d d' vid v :
  store_step sha256hex id who d d' -> v_store v <> id -> db_versions d' !! vid = Some v -> db_versions d !! vid = Some v.
Proof. intros [] Hne; cbn [db_versions]; [done|..]; rewrite lookup_insert; case_decide; try done; intros [= <-]; by destruct Hne. Qed.

Lemma table_step_sealed id s d d' :
  table_step d d' -> db_stores d !! id = Some s -> is_Some (s_archived s) -> is_Some (db_stores d' !! id) -> sealed id s d d'.
Proof.
  intros Hstep Hs Ha. destruct Hstep as [id0 s0 who d d' Hs0 Hor Hw|vid v at_ who d n Hl Hr Hd|drop d n Hd|id0 s' d n Hs'|id0 d n];
    unfold sealed; cbn [db_stores db_memories db_versions].
  - intros _. pose proof (store_step_stores _ _ _ _ _ Hw) as Hst. pose proof (step_versions _ _ _ _ _ Hw) as Hvs. split; [by rewrite Hst|].
    assert (Hold : forall vid v v', db_versions d !! vid = Some v -> db_versions d' !! vid = Some v' -> v' = v).
    { intros vid v v' Hv Hv'. pose proof (lookup_weaken _ _ _ _ Hv Hvs). congruence. }
    destruct (decide (id0 = id)) as [->|Hne].
    + destruct Hor as [Hn|[Hsub Hv]]; [destruct Ha; congruence|]. split; [intros i m Hi _; by eapply lookup_weaken|].
      intros vid v Hl _. destruct (db_versions d !! vid) as [v0|] eqn:E0; [left; by eapply Hold|].
      destruct (Hv vid v Hl) as [Hl0|]; [congruence|done].
    + split.
      * intros i m Hi Hm. assert (Hm' : m_store m <> id0) by congruence. by apply (step_others _ _ _ _ _ i m Hw Hm').
      * intros vid v Hl Hst'. assert (Hl0 : db_versions d !! vid = Some v) by (eapply store_step_other_versions; [exact Hw|congruence|done]).
        rewrite Hl0. by left.
  - intros _. split_and!; [done..|]. intros i w. rewrite lookup_insert. case_decide as E; [|intros ->; by left].
    intros [= <-] _. subst i. rewrite Hl. right. eauto.
  - intros _. split_and!; [done..|]. intros i w [Hi _]%map_lookup_filter_Some _. rewrite Hi. by left.
  - assert (Hsame : forall vid v', db_versions d !! vid = Some v' -> v_store v' = id ->
      match db_versions d !! vid with Some v => same_or_redacted v v' | None => v_operation v' = deleted end) by (intros vid v' -> _; by left).
    rewrite lookup_insert. case_decide as E; [subst id0; rewrite (Hs' s Hs Ha)|]; intros _; split_and!; eauto.
  - rewrite lookup_delete. case_decide as E; [by intros []|]. intros _. split_and!; [done| |].
    + by intros i m [Hi _]%map_lookup_filter_Some.
    + intros i w [Hi _]%map_lookup_filter_Some _. rewrite Hi. by left.
Qed.

Lemma writes_versions d d' : rtc write_step d d' -> db_versions d ⊆ db_versions d'.
Proof.
  induction 1 as [|d1 d2 d3 (? & ? & ? & _ & _ & Hw) _ IH]; [done|]. etrans; [|exact IH]. by eapply step_versions.
Qed.

Lemma writes_sealed id s d d' : rtc write_step d d' -> db_stores d !! id = Some s -> is_Some (s_archived s) -> sealed id s d d'.
Proof.
  induction 1 as [d|d1 d2 d3 Hw Hr IH]; intros Hs Ha; [by apply sealed_refl|].
  assert (Hst : db_stores d2 = db_stores d1) by (destruct Hw as (? & ? & ? & _ & _ & Hw); by eapply store_step_stores).
  apply sealed_writes with d2; [by apply writes_versions, rtc_once|by apply writes_versions| |apply IH; [by rewrite Hst|done]].
  apply table_step_sealed; [by apply write_step_table|done..|by rewrite Hst, Hs].
Qed.

Lemma step_sealed id s d d' :
  tables_ok d -> step d d' -> db_stores d !! id = Some s -> is_Some (s_archived s) -> is_Some (db_stores d' !! id) -> sealed id s d d'.
Proof.
  intros Hok Hst Hs Ha Hk. destruct (step_shape _ _ Hok Hst) as [Hw|[->|Ht]];
    [by apply writes_sealed|by apply sealed_refl|by apply table_step_sealed].
Qed.

(** A sequence of transactions none of which deletes the store. *)
Definition step_keeping (id : string) (d d' : db) : Prop := step d d' /\ is_Some (db_stores d' !! id).

Lemma keeping_sealed id s d d' :
  tables_ok d -> db_stores d !! id = Some s -> is_Some (s_archived s) -> rtc (step_keeping id) d d' ->
  rtc (sealed id s) d d' /\ db_stores d' !! id = Some s.
Proof.
  intros Hok Hs Ha Hr. revert Hok Hs. induction Hr as [d|d1 d2 d3 [Hst Hk] _ IH]; intros Hok Hs; [done|].
  pose proof (step_sealed id s _ _ Hok Hst Hs Ha Hk) as Hse.
  destruct IH as [Hr' Hs']; [|by apply Hse|split; [by eapply rtc_l|done]].
  eapply table_steps_ok; [exact Hok|]. by apply step_refines.
Qed.

(** C28: archiving a store is one-way and takes no new content.  Whatever transactions follow
    short of the store's deletion, requests, settlements of sessions that mount it and the
    sweep alike: its row stays as archived; every memory it holds afterwards it held before,
    unchanged; in each transaction a version it had stays as it was, is redacted or goes,
    and one it gains is the tombstone of a deletion, under an id no version had; so every
    version it ends with that is no tombstone it had at first, as it was or redacted. *)
Theorem archived_store_sealed id s d d' :
  tables_ok d -> db_stores d !! id = Some s -> is_Some (s_archived s) -> rtc (step_keeping id) d d' ->
  db_stores d' !! id = Some s /\
  (forall i m, db_memories d' !! i = Some m -> m_store m = id -> db_memories d !! i = Some m) /\
  rtc (sealed id s) d d' /\
  (forall vid v, db_versions d' !! vid = Some v -> v_store v = id -> v_operation v <> deleted ->
     exists v0, db_versions d !! vid = Some v0 /\ same_or_redacted v0 v).
Proof.
  intros Hok Hs Ha Hr. destruct (keeping_sealed id s d d' Hok Hs Ha Hr) as [Hse Hs']. split_and!; [done| |done|].
  - intros i m. by apply (sealed_memories id s).
  - intros vid v. by apply (sealed_rows id s).
Qed.
End steps.

(** ** A run: a store, a memory, its update, the store's archive, the memory's deletion. *)
Definition no_db : db := MkDb ∅ ∅ ∅ 0.
Definition committed {A} (r : result api_error (A * db)) : db := match r with Ok (_, d) => d | Err _ => no_db end.

Lemma committed_Ok {A} (r : result api_error (A * db)) : is_ok r = true -> exists j, r = Ok (j, committed r).
Proof. destruct r as [[j d]|]; [|done]. by exists j. Qed.

Definition ex_auth : auth := MkAuth EmptyString "apikey_1" None.
Definition post (ms : objmap) : request := MkRequest ex_auth ∅ true (Document (JObject ms)).

Definition ex_d1 : db := committed (createMemoryStore ex_rnd (post [("name", JString "notes")]) no_db).
Definition ex_sid : string := NewID PrefixMemoryStore (ex_rnd 0%nat).
Definition ex_create : result api_error (memoryJSON * db) :=
  createMemory (fun _ => true) ex_sha ex_rnd (post [("path", JString "/a.md"); ("content", JString "one")]) ex_sid ex_d1.
Definition ex_d2 : db := committed ex_create.
Definition ex_mid : string := NewID PrefixMemory (ex_rnd 2%nat).
Definition ex_conditioned : request :=
  post [("content", JString "two"); ("precondition", JObject [("type", JString "content_sha256"); ("content_sha256", JString "one")])].
Definition ex_update : result api_error (memoryJSON * db) := updateMemory (fun _ => true) ex_sha ex_rnd ex_conditioned ex_sid ex_mid ex_d2.
Definition ex_d3 : db := committed ex_update.
Definition ex_d4 : db := committed (archiveMemoryStore ex_rnd ex_sid ex_d3).
Definition ex_d5 : db := committed (deleteMemory ex_sha ex_rnd (post []) ex_sid ex_mid ex_d4).

#[local] Abbreviation ex_step := (step (fun _ => true) ex_sha path_lt).

Lemma ex_run : rtc ex_step no_db ex_d3 /\ ex_step ex_d3 ex_d4 /\ ex_step ex_d4 ex_d5.
Proof.
  assert (E1 : ex_step no_db ex_d1) by (destruct (committed_Ok (createMemoryStore ex_rnd (post [("name", JString "notes")]) no_db)) as [j E];
    [vm_compute; reflexivity|by eapply s_createStore]).
  assert (E2 : ex_step ex_d1 ex_d2) by (destruct (committed_Ok ex_create) as [j E]; [vm_compute; reflexivity|by eapply s_createMemory]).
  assert (E3 : ex_step ex_d2 ex_d3) by (destruct (committed_Ok ex_update) as [j E]; [vm_compute; reflexivity|by eapply s_updateMemory]).
  split_and!.
  - eapply rtc_l; [exact E1|]. eapply rtc_l; [exact E2|]. by apply rtc_once.
  - destruct (committed_Ok (archiveMemoryStore ex_rnd ex_sid ex_d3)) as [j E]; [vm_compute; reflexivity|by eapply s_archive].
  - destruct (committed_Ok (deleteMemory ex_sha ex_rnd (post []) ex_sid ex_mid ex_d4)) as [j E]; [vm_compute; reflexivity|by eapply s_deleteMemory].
Qed.

Lemma ex_ok : tables_ok ex_sha ex_d2 /\ tables_ok ex_sha ex_d4.
Proof.
  destruct ex_run as (Hr & H4 & _). split.
  - destruct (committed_Ok ex_create) as [j E]; [vm_compute; reflexivity|].
    destruct (committed_Ok (createMemoryStore ex_rnd (post [("name", JString "notes")]) no_db)) as [j' E']; [vm_compute; reflexivity|].
    eapply (steps_refine (fun _ => true) ex_sha path_lt); [apply (empty_ok ex_sha)|].
    eapply rtc_l; [eapply s_createStore; exact E'|]. apply rtc_once. eapply s_createMemory. exact E.
  - eapply (steps_refine (fun _ => true) ex_sha path_lt); [apply (empty_ok ex_sha)|]. eapply rtc_r; [exact Hr|exact H4].
Qed.

Lemma memory_tables_sound_witness :
  map (fun kv => (m_path kv.2, m_content kv.2)) (map_to_list (db_memories ex_d3)) = [("/a.md", "two")] /\ tables_ok ex_sha ex_d3.
Proof.
  split; [vm_compute; reflexivity|]. exact (proj1 (memory_tables_sound (fun _ => true) ex_sha path_lt ex_d3 (proj1 ex_run))).
Defined.

Lemma archived_store_sealed_witness :
  exists s, is_Some (s_archived s) /\ db_stores ex_d5 !! ex_sid = Some s /\ rtc (sealed ex_sid s) ex_d4 ex_d5 /\
    exists vid v, db_versions ex_d4 !! vid = None /\ db_versions ex_d5 !! vid = Some v /\ v_operation v = deleted.
Proof.
  destruct (db_stores ex_d4 !! ex_sid) as [s|] eqn:E; [|vm_compute in E; discriminate].
  assert (Ha : is_Some (s_archived s)) by (vm_compute in E; injection E as <-; vm_compute; eexists; reflexivity).
  exists s.
  assert (Hr : rtc (step_keeping (fun _ => true) ex_sha path_lt ex_sid) ex_d4 ex_d5).
  { apply rtc_once. split; [exact (proj2 (proj2 ex_run))|]. vm_compute. eexists; reflexivity. }
  destruct (archived_store_sealed (fun _ => true) ex_sha path_lt ex_sid s ex_d4 ex_d5 (proj2 ex_ok) E Ha Hr) as (Hs & _ & Hse & _).
  split_and!; [exact Ha|exact Hs|exact Hse|].
  exists (NewID PrefixMemoryVersion (ex_rnd (db_fresh ex_d4))). eexists.
  split; [vm_compute; reflexivity|]. split; [vm_compute; reflexivity|reflexivity].
Defined.
