(* ===== verification/HistorySpec.v ===== *)
(** * HistorySpec: a memory's versions as a record, the sweep's exact effect, and the effect
    of a conditioned update. *)
From Stdlib Require Import Ascii Lia.
From S2P Require Import Prelude GoStrings GoTime Json Ids Memsync MemSettle MemSettleSpec Pages PagesSpec Wire Memories MemoryStores MemoriesSpec.

Set Default Proof Using "Type".

(** ** Versions are written once *)
Section history.
Context (IsNormalString : string -> bool) (sha256hex : string -> string)
  (id_lt : relation string) `{!forall a b, Decision (id_lt a b)}.
#[local] Abbreviation step := (step IsNormalString sha256hex id_lt).
#[local] Abbreviation tables_ok := (tables_ok sha256hex).

Lemma table_step_version d d' vid v v' :
  table_step sha256hex d d' -> db_versions d !! vid = Some v -> db_versions d' !! vid = Some v' -> same_or_redacted v v'.
Proof.
  intros Hstep Hv. destruct Hstep as [id s who d d' _ _ Hw|vid' v0 at_ who d n Hl Hr Hd|drop d n Hd|id s' d n _|id d n]; cbn [db_versions].
  - intros Hv'. left. pose proof (lookup_weaken _ _ _ _ Hv (step_versions _ _ _ _ _ Hw)). congruence.
  - rewrite lookup_insert. case_decide as E; [|left; congruence]. intros [= <-]. right. assert (v0 = v) as -> by congruence.
    split; [done|]. by exists at_, who.
  - intros [Hv' _]%map_lookup_filter_Some. left. congruence.
  - left. congruence.
  - intros [Hv' _]%map_lookup_filter_Some. left. congruence.
Qed.

Lemma step_version d d' vid v v' :
  tables_ok d -> step d d' -> db_versions d !! vid = Some v -> db_versions d' !! vid = Some v' -> same_or_redacted v v'.
Proof.
  intros Hok Hst Hv Hv'. destruct (step_shape _ _ _ _ _ Hok Hst) as [Hw%writes_versions|[->|Ht]].
  - left. pose proof (lookup_weaken _ _ _ _ Hv Hw). congruence.
  - left. congruence.
  - by eapply table_step_version.
Qed.

(** A sequence of transactions that never takes the row. *)
Definition step_with (vid : string) (d d' : db) : Prop := step d d' /\ is_Some (db_versions d' !! vid).

(** C29: a version row is written once.  While it is there it is what was written, or that
    with its path, content, digest and size erased and who did so recorded, which happens
    once: its memory, operation, author and time never change, and nothing but a redaction
    touches it. *)
Theorem version_rows_immutable d d' vid v v' :
  tables_ok d -> rtc (step_with vid) d d' -> db_versions d !! vid = Some v -> db_versions d' !! vid = Some v' ->
  same_or_redacted v v'.
Proof.
  intros Hok Hr. revert v Hok. induction Hr as [d|d1 d2 d3 [Hst [w Hw]] _ IH]; intros v Hok Hv Hv'; [left; congruence|].
  eapply same_or_redacted_trans; [by eapply step_version|]. apply IH; [|done..].
  eapply table_steps_ok; [exact Hok|]. by eapply step_refines.
Qed.

(** C30: an update changes what it names and nothing else.  One that returns has left every
    other memory and every store as they were, the memory with the content and path it
    asked for and its own where it asked for none, its digest and size those of its
    content; it has written nothing where the memory already was so, and else one version
    row that the memory's head now names; and if it was conditioned on a digest, the
    memory held that digest when it changed: a write in between is never overwritten. *)
Theorem updateMemory_conditional rnd rq storeID mid d j d' :
  tables_ok d -> updateMemory IsNormalString sha256hex rnd rq storeID mid d = Ok (j, d') ->
  exists obj u m m', decodeObject rq = Ok obj /\ parse_update IsNormalString obj = Ok u /\
    db_memories d !! mid = Some m /\ m_store m = storeID /\
    db_stores d' = db_stores d /\ db_memories d' = <[mid := m']> (db_memories d) /\
    m_content m' = default (m_content m) (up_content u) /\ m_path m' = default (m_path m) (up_path u) /\
    m_sha m' = sha256hex (m_content m') /\ m_size m' = slen (m_content m') /\ m_created m' = m_created m /\
    (m' = m /\ d' = d \/
     (m_content m' <> m_content m \/ m_path m' <> m_path m) /\
     (forall sha, up_precondition u = Some sha -> m_sha m = sha) /\
     db_versions d !! m_version m' = None /\
     exists v, db_versions d' = <[m_version m' := v]> (db_versions d) /\ v_operation v = modified /\ v_memory v = mid /\
       v_path v = Some (m_path m') /\ v_content v = Some (m_content m') /\ v_created_by v = memoryActor (rq_auth rq)).
Proof.
  intros Hok (obj & u & row & st & Hobj & Hu & Hst & Ha & Hm & Hs & Hcase)%updateMemory_cases. cbn zeta in Hcase.
  destruct (next_row_coherent sha256hex d mid row u (ok_heads _ _ Hok) Hm) as [Hsha Hsize].
  exists obj, u, row. destruct Hcase as [(Hc & Hp & ->)|(Hch & Hpre & _ & vid & at1 & at2 & n & Hv & ->)].
  - exists row. rewrite insert_id by done. rewrite Hc in Hsha, Hsize. cbn in Hc, Hp.
    destruct (ok_heads _ _ Hok mid row Hm) as (Hsha' & Hsize' & _). split_and!; try done. by left.
  - eexists. split_and!; try done. right. split_and!; [done|intros sha Hs'; symmetry; by apply Hpre|done|]. eexists. by split_and!.
Qed.

End history.

(** ** The sweep *)
Section retention.
Context (id_lt : relation string) `{!forall a b, Decision (id_lt a b), !StrictOrder id_lt, !Trichotomy id_lt}.
Set Default Proof Using "Type*".
#[local] Abbreviation newest_first := (sort_stable (not_after (dir_lt id_lt DESC) version_key)).

Lemma lineage_keyed d v : keyed version_key (lineage d v).
Proof.
  apply (keyed_ids v_created). apply NoDup_filter_ids.
Qed.

Lemma take_filter {A} (P : A -> Prop) `{forall x, Decision (P x)} n (l : list A) :
  (forall x, x ∈ take n l -> P x) -> take n (filter P l) = take n l.
Proof.
  revert n. induction l as [|x l IH]; intros [|n] HP; try done. cbn [take] in *. rewrite filter_cons_True by (apply HP; left).
  cbn [take]. f_equal. apply IH. intros y Hy. apply HP. by right.
Qed.

Lemma elem_of_newest d keep v i : i ∈ newest id_lt d keep v -> exists w, (i, w) ∈ lineage d v.
Proof.
  unfold newest. intros ([i' w] & -> & Hin)%list_elem_of_fmap. exists w.
  rewrite <- (sort_stable_perm (not_after (dir_lt id_lt DESC) version_key)).
  eapply sublist_subseteq; [apply sublist_take|exact Hin].
Qed.

Section sweep.
Context (rnd : supply) (retention keep : Z) (d : db).
#[local] Abbreviation d' := (pruneMemoryVersions rnd id_lt retention keep d).2.
#[local] Abbreviation at_ := (clock rnd (db_fresh d)).

Lemma sweep_eq :
  d' = MkDb (db_stores d) (db_memories d) (filter (fun kv => prunable id_lt (now rnd d).2 at_ retention keep kv.1 kv.2 = false) (db_versions d)) (S (db_fresh d)).
Proof. done. Qed.

Lemma prunable_now i v :
  prunable id_lt (now rnd d).2 at_ retention keep i v = prunable id_lt d at_ retention keep i v.
Proof. done. Qed.

Lemma sweep_lookup i v : db_versions d' !! i = Some v <-> db_versions d !! i = Some v /\ prunable id_lt d at_ retention keep i v = false.
Proof. rewrite sweep_eq. cbn [db_versions]. by rewrite map_lookup_filter_Some. Qed.

Lemma lineage_swept v : newest_first (lineage d' v) = filter (fun kv => prunable id_lt d at_ retention keep kv.1 kv.2 = false) (newest_first (lineage d v)).
Proof.
  apply (strictly_sorted_ext (row_lt (dir_lt id_lt DESC) version_key)).
  - by apply (sorted_strict (dir_lt id_lt DESC) version_key), lineage_keyed.
  - apply StronglySorted_filter. by apply (sorted_strict (dir_lt id_lt DESC) version_key), lineage_keyed.
  - intros [i w]. rewrite list_elem_of_filter. rewrite !(sort_stable_perm (not_after (dir_lt id_lt DESC) version_key)).
    unfold lineage. rewrite !list_elem_of_filter, !elem_of_map_to_list, sweep_lookup. cbn. tauto.
Qed.

Lemma newest_same v w i : v_store v = v_store w -> v_memory v = v_memory w -> i ∈ newest id_lt d keep v <-> i ∈ newest id_lt d keep w.
Proof. intros Hs Hm. unfold newest, lineage. by rewrite Hs, Hm. Qed.

Lemma newest_swept v : newest id_lt d' keep v = newest id_lt d keep v.
Proof.
  unfold newest. rewrite lineage_swept. f_equal. apply take_filter. intros [i w] Hin. cbn. unfold prunable.
  assert (Hl : (i, w) ∈ lineage d v).
  { rewrite <- (sort_stable_perm (not_after (dir_lt id_lt DESC) version_key)). eapply sublist_subseteq; [apply sublist_take|exact Hin]. }
  assert (Hn : i ∈ newest id_lt d keep w).
  { apply list_elem_of_filter in Hl as [[Hs Hm] _]. cbn in Hs, Hm. apply (newest_same w v i Hs Hm). unfold newest. by apply (list_elem_of_fmap_2 fst _ (i, w)). }
  by rewrite bool_decide_true, !andb_false_r by done.
Qed.
End sweep.

(** C31: the sweep takes exactly what its rule says.  It leaves memories and stores alone; a
    version goes if and only if it is older than the window, is no memory's head and is
    not among the newest [keep] of its memory, deleted or not; every memory's history
    keeps its newest [keep] rows, so none becomes empty; the count it reports is the rows
    that went; and a second sweep at the same instant takes nothing. *)
Theorem pruneMemoryVersions_exact rnd retention keep d n d' :
  pruneMemoryVersions rnd id_lt retention keep d = (n, d') ->
  let at_ := clock rnd (db_fresh d) in
  db_memories d' = db_memories d /\ db_stores d' = db_stores d /\
  (forall i v, db_versions d' !! i = Some v <-> db_versions d !! i = Some v /\
     (at_ - retention <= v_created v \/ is_head d i = true \/ i ∈ newest id_lt d keep v)) /\
  (forall v, newest id_lt d' keep v = newest id_lt d keep v) /\
  n = Z.of_nat (size (db_versions d)) - Z.of_nat (size (db_versions d')) /\
  forall rnd2, clock rnd2 (db_fresh d') = at_ ->
    exists d2, pruneMemoryVersions rnd2 id_lt retention keep d' = (0, d2) /\ db_versions d2 = db_versions d'.
Proof.
  intros Hsweep. cbn zeta. pose proof (sweep_lookup rnd retention keep d) as Hl. pose proof (newest_swept rnd retention keep d) as Hn.
  pose proof (sweep_eq rnd retention keep d) as He. rewrite Hsweep in Hl, Hn, He. cbn [snd] in Hl, Hn, He. split_and!.
  - by rewrite He.
  - by rewrite He.
  - intros i v. rewrite Hl. unfold prunable. rewrite !andb_false_iff, negb_false_iff, negb_false_iff, bool_decide_eq_true, Z.ltb_ge. tauto.
  - exact Hn.
  - unfold pruneMemoryVersions in Hsweep. cbn in Hsweep. by injection Hsweep as <- <-.
  - intros rnd2 Hc. unfold pruneMemoryVersions. cbn zeta. unfold now. cbn beta iota. rewrite Hc.
    assert (Hk : filter (fun kv => prunable id_lt (MkDb (db_stores d') (db_memories d') (db_versions d') (S (db_fresh d')))
       (clock rnd (db_fresh d)) retention keep kv.1 kv.2 = false) (db_versions d') = db_versions d').
    { apply map_eq. intros i. apply option_eq. intros v. rewrite map_lookup_filter_Some. cbn. split; [by intros []|].
      intros Hi. split; [done|]. apply Hl in Hi as [Hi Hp]. unfold prunable in *.
      assert (Hh : is_head (MkDb (db_stores d') (db_memories d') (db_versions d') (S (db_fresh d'))) i = is_head d i).
      { unfold is_head. by rewrite He. }
      rewrite Hh. assert (Hw : newest id_lt (MkDb (db_stores d') (db_memories d') (db_versions d') (S (db_fresh d'))) keep v = newest id_lt d' keep v) by done.
      by rewrite Hw, Hn. }
    eexists. cbn [db_versions db_stores db_memories db_fresh set_versions]. rewrite Hk. split; [by rewrite Z.sub_diag|done].
Qed.
End retention.

(** ** The run of [MemoriesSpec], continued *)
Definition ex_head : string := NewID PrefixMemoryVersion (ex_rnd 3%nat).
Definition ex_redacted : db := committed (redactMemoryVersion ex_rnd (post []) ex_sid ex_head ex_d3).

Lemma version_rows_immutable_witness :
  exists v v', db_versions ex_d2 !! ex_head = Some v /\ v_content v = Some "one" /\ v_content v' = None /\ same_or_redacted v v'.
Proof.
  destruct (db_versions ex_d2 !! ex_head) as [v|] eqn:Ev; [|vm_compute in Ev; discriminate].
  destruct (db_versions ex_redacted !! ex_head) as [v'|] eqn:Ev'; [|vm_compute in Ev'; discriminate].
  exists v, v'. split_and!; [done|vm_compute in Ev; by injection Ev as <-|vm_compute in Ev'; by injection Ev' as <-|].
  refine (version_rows_immutable (fun _ => true) ex_sha path_lt ex_d2 ex_redacted ex_head v v' (proj1 ex_ok) _ Ev Ev').
  destruct (committed_Ok ex_update) as [j3 E3]; [vm_compute; reflexivity|].
  destruct (committed_Ok (redactMemoryVersion ex_rnd (post []) ex_sid ex_head ex_d3)) as [j4 E4]; [vm_compute; reflexivity|].
  eapply rtc_l; [split; [eapply s_updateMemory; exact E3|vm_compute; by eexists]|].
  apply rtc_once. split; [eapply s_redact; exact E4|vm_compute; by eexists].
Defined.

Lemma updateMemory_conditional_witness :
  exists m', db_memories ex_d3 = <[ex_mid := m']> (db_memories ex_d2) /\ m_content m' = "two" /\ m_path m' = "/a.md".
Proof.
  destruct (committed_Ok ex_update) as [j E]; [vm_compute; reflexivity|].
  destruct (updateMemory_conditional (fun _ => true) ex_sha ex_rnd ex_conditioned ex_sid ex_mid ex_d2 j ex_d3 (proj1 ex_ok) E)
    as (obj & u & m & m' & Ho & Hu & Hm & _ & _ & Hd & Hc & Hp & _).
  exists m'. split; [exact Hd|]. rewrite Hc, Hp. vm_compute in Ho. injection Ho as <-. vm_compute in Hu. injection Hu as <-.
  vm_compute in Hm. injection Hm as <-. by split.
Defined.

Definition ex_newest : string := NewID PrefixMemoryVersion (ex_rnd 6%nat).

Lemma pruneMemoryVersions_exact_witness :
  let '(n, d) := pruneMemoryVersions ex_rnd path_lt 0 0 ex_d3 in
  n = 1 /\ map fst (map_to_list (db_versions d)) = [ex_newest] /\
  db_memories d = db_memories ex_d3.
Proof.
  destruct (pruneMemoryVersions ex_rnd path_lt 0 0 ex_d3) as [n d] eqn:E. split_and!.
  - vm_compute in E. by injection E as <- _.
  - vm_compute in E. injection E as _ <-. vm_compute. reflexivity.
  - exact (proj1 (pruneMemoryVersions_exact path_lt ex_rnd 0 0 ex_d3 n d E)).
Defined.
