(* ===== verification/ListSpec.v ===== *)
(** * ListSpec: the list of memories, page after page.

    A walk follows a list's next_page tokens through the wire: each request carries the
    token of the response before it, and the tables may change in between. *)
From Stdlib Require Import Ascii Lia.
From stdpp Require Import pretty.
From S2P Require Import Prelude GoStrings GoTime Json Ids Memsync MemSettle MemSettleSpec Pages PagesSpec Wire Memories MemoriesSpec.

Set Default Proof Using "Type*".

(** ** A path cut behind a slash is text where the path is *)
Lemma decode_rune_tail s r x b rest :
  decode_rune s = Some (r, String x b, rest) -> (r =? RuneError) && Nat.eqb (String.length (String x b)) 1 = false ->
  all_bytes (fun c => negb (ord c <? 128)) b = true.
Proof.
  intros E Hv. destruct b as [|y b]; [done|]. unfold decode_rune in E.
  repeat match type of E with
  | context [match ?t with _ => _ end] => destruct t eqn:?; simplify_eq/=; try done
  end; repeat match goal with Hb : context [if ?c then _ else _] |- _ => destruct c end;
  unfold is_cont, in_range in *; bool_prop; cbn; rewrite ?andb_true_r, ?andb_true_iff, ?negb_true_iff, ?Z.ltb_ge; repeat split; lia.
Qed.

Lemma ValidString_unfold s r b rest :
  decode_rune s = Some (r, b, rest) -> ValidString s = negb ((r =? RuneError) && Nat.eqb (String.length b) 1) && ValidString rest.
Proof. intros E. unfold ValidString. rewrite (runes_unfold s), E. done. Qed.

Lemma decode_rune_nonempty s r b rest : decode_rune s = Some (r, b, rest) -> exists x b', b = String x b'.
Proof.
  unfold decode_rune. intros E. repeat match type of E with
  | context [match ?t with _ => _ end] => destruct t; simplify_eq/=; try done
  end; eauto.
Qed.

(** Two ways to cut a string: the shorter head starts the longer. *)
Lemma append_cut a b c e : a +:+ b = c +:+ e -> (String.length a <= String.length c)%nat -> exists m, c = a +:+ m /\ b = m +:+ e.
Proof.
  revert c. induction a as [|x a IH]; intros c; cbn [String.append String.length].
  - intros -> _. by exists c.
  - destruct c as [|y c]; cbn [String.append String.length]; [lia|]. intros [= -> E] Hl. destruct (IH c E ltac:(lia)) as (m & -> & ->). by exists m.
Qed.

Lemma ValidString_slash : forall n a b, (String.length a <= n)%nat -> ValidString (a +:+ "/" +:+ b) = true -> ValidString (a +:+ "/") = true.
Proof.
  induction n as [|n IH]; intros a b Hn Hv.
  { destruct a; [reflexivity|cbn in Hn; lia]. }
  destruct a as [|c a]; [reflexivity|].
  destruct (decode_rune (String c a +:+ "/" +:+ b)) as [[[r bs] rest]|] eqn:E.
  2: { exfalso. revert E. cbn [String.append]. unfold decode_rune. repeat case_match; done. }
  pose proof (decode_rune_append _ _ _ _ E) as Hs. destruct (decode_rune_nonempty _ _ _ _ E) as (x & bs' & Hbs). subst bs.
  rewrite (ValidString_unfold _ _ _ _ E) in Hv. apply andb_true_iff in Hv as [Hr Hrest]. apply negb_true_iff in Hr.
  pose proof (decode_rune_tail _ _ _ _ _ E Hr) as Htail.
  assert (Hshort : (String.length (String x bs') <= String.length (String c a))%nat).
  { destruct (Nat.le_gt_cases (String.length (String x bs')) (String.length (String c a))) as [|Hlt]; [done|]. exfalso.
    destruct (append_cut _ _ _ _ Hs ltac:(lia)) as (m & Hm & Hm2). destruct m as [|y m].
    { rewrite append_nil_r in Hm. rewrite Hm in Hlt. lia. }
    cbn in Hm2. injection Hm2 as <- _. cbn [String.append] in Hm. injection Hm as -> ->.
    rewrite all_bytes_app in Htail. cbn in Htail. by rewrite andb_false_r in Htail. }
  destruct (append_cut _ _ _ _ (eq_sym Hs) Hshort) as (m & Hm & Hm2).
  rewrite Hm2 in Hrest.
  assert (E2 : String c a +:+ "/" +:+ b = (String x bs' +:+ m +:+ "/") +:+ b) by (by rewrite Hm, !append_assoc).
  rewrite E2 in E. rewrite Hm.
  apply decode_rune_cut in E as (rest' & E & Hr'); [|rewrite length_append; lia].
  rewrite append_assoc. rewrite (ValidString_unfold _ _ _ _ E), Hr. cbn [negb andb].
  pose proof (decode_rune_append _ _ _ _ E) as Hrest'. apply append_inj_r in Hrest'. subst rest'.
  apply (IH m b); [|done]. apply (f_equal String.length) in Hm. rewrite length_append in Hm. cbn [String.length] in *. lia.
Qed.

Lemma storable_slash a b : storableText (a +:+ "/" +:+ b) = true -> storableText (a +:+ "/") = true.
Proof.
  unfold storableText. intros [Hv Hz]%andb_true_iff. rewrite (ValidString_slash (String.length a) a b) by done. cbn [andb].
  rewrite !all_bytes_app in *. bool_prop. repeat match goal with Hx : _ = true |- _ => rewrite Hx end. done.
Qed.

(** ** The query of a walk *)
Definition with_page (q : values) (tok : string) : values := <["page" := [tok]]> q.

Lemma Get_page q tok : Get (with_page q tok) "page" = tok.
Proof. unfold Get, with_page. by rewrite lookup_insert_eq. Qed.

Lemma Get_other q tok k : k <> "page" -> Get (with_page q tok) k = Get q k.
Proof. intros Hk. unfold Get, with_page. by rewrite lookup_insert_ne. Qed.

Lemma Has_other q tok k : k <> "page" -> Has (with_page q tok) k = Has q k.
Proof. intros Hk. unfold Has, with_page. by rewrite lookup_insert_ne. Qed.

Lemma parse_list_query_page q tok lq c :
  q !! "page" = None -> parse_list_query q = Ok lq -> parse_cursor (with_page q tok) = Ok c ->
  lq_cur lq = None /\ parse_list_query (with_page q tok) = Ok (MkListQuery (lq_full lq) (lq_limit lq) c (lq_prefix lq) (lq_depth1 lq)).
Proof.
  intros Hq Hl Hc. assert (Hn : parse_cursor q = Ok None) by (unfold parse_cursor, Get; by rewrite Hq).
  unfold parse_list_query, parse_page_worded, parsePage, parsePageMax, parsePageWith in *. rewrite Hc. rewrite Hn in Hl.
  unfold parseMemoryView, limit_bounds, parse_limit, parse_prefix in *. rewrite !Get_other, Has_other by done.
  revert Hl. generalize (Get q "view") (Get q "limit") (Get q "path_prefix") (Get q "depth") (Has q "path_prefix").
  intros view limit prefix depth hp Hl.
  repeat (case_match; simplify_eq/=; try done).
Qed.

Lemma parse_list_query_limit q lq : parse_list_query q = Ok lq -> 1 <= lq_limit lq.
Proof.
  intros Hl. unfold parse_list_query, parse_page_worded, parsePage, parsePageMax, parsePageWith in Hl.
  destruct (parseMemoryView _ _); [|done]. destruct (limit_bounds q); [|done].
  destruct (parse_limit q defaultLimit maxLimit) as [limit|e] eqn:E; [|by destruct e].
  assert (Hlim : 1 <= limit).
  { unfold parse_limit in E. destruct (String.eqb _ _); [by injection E as <-|]. destruct (Atoi _) as [n|]; [|done].
    destruct (_ || _) eqn:Eb; [done|]. injection E as <-. bool_prop. lia. }
  destruct (parse_cursor q) as [c|e]; [|by destruct e]. destruct (parse_prefix q); [|done]. destruct (parse_depth _); [|done].
  injection Hl as <-. cbn. case_match; [unfold memoryFullViewLimit; lia|done].
Qed.

Lemma parse_list_query_prefix q lq : parse_list_query q = Ok lq -> exists p, lq_prefix lq = p +:+ "/".
Proof.
  intros Hl. unfold parse_list_query in Hl. destruct (parseMemoryView _ _); [|done]. destruct (limit_bounds q); [|done].
  destruct (parse_page_worded q); [|done]. destruct (parse_prefix q) as [prefix|] eqn:E; [|done]. destruct (parse_depth _); [|done].
  injection Hl as <-. cbn. unfold parse_prefix in E. destruct (negb (Has _ _)); [injection E as <-; by exists EmptyString|].
  destruct (String.eqb _ _); [done|]. destruct (negb (storableText _)); [done|].
  destruct (HasSuffix (Get q "path_prefix") "/") eqn:Es; [|done]. injection E as <-. by apply HasSuffix_spec in Es as [p Hp]; exists p.
Qed.

(** ** One page, at either depth *)
Section walk.
Context (id_lt : relation string) `{!forall a b, Decision (id_lt a b), !StrictOrder id_lt, !Trichotomy id_lt}.

(** What a list needs of its rows: ids a cursor can carry, instants of 64 bits, and paths a
    text column can hold. *)
Definition listable (d : db) : Prop :=
  forall i m, db_memories d !! i = Some m -> Valid i = true /\ min_int <= m_created m <= max_int /\ storableText (m_path m) = true.

Definition with_token (rq : request) (tok : option string) : request :=
  match tok with None => rq | Some t => MkRequest (rq_auth rq) (with_page (rq_query rq) t) (rq_query_whole rq) (rq_body rq) end.

(** Requests one behind another, each with the token it was given, over the tables as
    they were then; the last response carries none. *)
Inductive list_walk (rq : request) (storeID : string) : option string -> list db -> list memoryPage -> Prop :=
| lw_last tok d pg : listMemories id_lt (with_token rq tok) storeID d = Ok pg -> mp_next pg = None -> list_walk rq storeID tok [d] [pg]
| lw_next tok d ds pg pgs t :
    listMemories id_lt (with_token rq tok) storeID d = Ok pg -> mp_next pg = Some t -> list_walk rq storeID (Some t) ds pgs ->
    list_walk rq storeID tok (d :: ds) (pg :: pgs).

Lemma elem_of_under_prefix d storeID prefix i m :
  (i, m) ∈ under_prefix d storeID prefix <-> db_memories d !! i = Some m /\ m_store m = storeID /\ HasPrefix (m_path m) prefix = true.
Proof. unfold under_prefix. rewrite list_elem_of_filter, elem_of_store_memories. cbn. tauto. Qed.

Lemma flat_keyed d storeID prefix : keyed time_key (under_prefix d storeID prefix).
Proof.
  apply (keyed_ids m_created). unfold under_prefix, store_memories.
  eapply sublist_NoDup; [apply (NoDup_filter_ids (fun kv : string * memory => m_store kv.2 = storeID) (db_memories d))|]. apply fmap_sublist, sublist_filter.
Qed.

(** *** Depth 1 *)
Definition entries (d : db) (storeID prefix : string) : list entry :=
  distinct_entries (map (depth_entry prefix) (under_prefix d storeID prefix)).

Lemma distinct_lookup es k e :
  (list_to_map (M := gmap string entry) (map (fun e => (en_key e, e)) es)) !! k = Some e -> k = en_key e /\ e ∈ es.
Proof. intros Hl%elem_of_list_to_map_2. apply list_elem_of_In, in_map_iff in Hl as (e' & [= <- <-] & Hin). split; [done|]. by apply list_elem_of_In. Qed.

Lemma distinct_keys es : en_key <$> distinct_entries es = (map_to_list (list_to_map (M := gmap string entry) (map (fun e => (en_key e, e)) es))).*1.
Proof.
  unfold distinct_entries. set (mp := list_to_map _).
  assert (Hk : Forall (fun ke => ke.1 = en_key ke.2) (map_to_list mp)).
  { apply Forall_forall. intros [k e] Hin%elem_of_map_to_list. by apply distinct_lookup in Hin as [-> _]. }
  induction Hk as [|[k e] l Hk _ IH]; [done|]. cbn in *. by rewrite Hk, IH.
Qed.

Lemma distinct_keyed es : keyed en_key (distinct_entries es).
Proof. unfold keyed. rewrite distinct_keys. apply NoDup_fst_map_to_list. Qed.

Lemma elem_of_distinct es e : e ∈ distinct_entries es -> e ∈ es.
Proof.
  unfold distinct_entries. intros Hin. apply list_elem_of_In, in_map_iff in Hin as ([k e'] & <- & Hin).
  apply list_elem_of_In, elem_of_map_to_list in Hin. by apply distinct_lookup in Hin as [_ Hin].
Qed.

Lemma distinct_key es e : e ∈ es -> en_key e ∈ en_key <$> distinct_entries es.
Proof.
  intros He. rewrite distinct_keys. set (mp := list_to_map _).
  assert (Hs : is_Some (mp !! en_key e)).
  { destruct (mp !! en_key e) as [e'|] eqn:E; [by eexists|]. exfalso.
    apply not_elem_of_list_to_map in E. apply E. rewrite list_elem_of_In, map_map. apply in_map_iff. exists e. by split; [|apply list_elem_of_In]. }
  destruct Hs as [e' He']. apply (list_elem_of_fmap_2 fst _ (en_key e, e')). by apply elem_of_map_to_list.
Qed.

(** The key of an entry can ride a token. *)
Lemma entry_key_ok d storeID p kv :
  listable d -> kv ∈ under_prefix d storeID (p +:+ "/") ->
  en_key (depth_entry (p +:+ "/") kv) <> EmptyString /\ storableText (en_key (depth_entry (p +:+ "/") kv)) = true.
Proof.
  destruct kv as [i m]. intros Hd (Hi & Hs & Hp)%elem_of_under_prefix. destruct (Hd i m Hi) as (_ & _ & Ht).
  apply HasPrefix_spec in Hp as [rest Hp]. unfold depth_entry. cbn [snd]. rewrite Hp.
  assert (Hr : TrimPrefix ((p +:+ "/") +:+ rest) (p +:+ "/") = rest) by (unfold TrimPrefix; by rewrite (proj2 (CutPrefix_Some _ _ rest) eq_refl)).
  rewrite Hr. destruct (Cut rest slash) as [[seg after] []] eqn:Ec; cbn [en_key].
  - apply Cut_found in Ec. split; [by destruct p|]. rewrite Hp, Ec in Ht.
    rewrite <- append_assoc. apply (storable_slash ((p +:+ "/") +:+ seg) after).
    change (String slash after) with ("/" +:+ after) in Ht. by rewrite !append_assoc in *.
  - rewrite <- Hp at 2. split; [by destruct p|done].
Qed.

(** *** Tokens *)
Definition flat_cur (pos : option (Z * string)) : option cursor := (fun k => time_cursor dirNext k.1 k.2) <$> pos.
Definition depth_cur (pos : option string) : option cursor := path_cursor dirNext <$> pos.

Lemma token_nonempty s : b64_encode ("k1|" +:+ s) <> EmptyString.
Proof. apply b64_encode_nonempty. Qed.

Lemma parse_flat_token q t i :
  min_int <= t <= max_int -> Valid i = true -> parse_cursor (with_page q (encodeTimeCursor dirNext t i)) = Ok (flat_cur (Some (t, i))).
Proof.
  intros Ht Hi. unfold parse_cursor. rewrite Get_page. pose proof (token_nonempty (dirNext +:+ "|t|" +:+ pretty (wrap64 t) +:+ "|" +:+ i)) as Hne.
  destruct (Valid_rides i Hi) as [Hn Hb]. rewrite decode_time by done.
  change (b64_encode ("k1|" +:+ dirNext +:+ "|t|" +:+ pretty (wrap64 t) +:+ "|" +:+ i)) with (encodeTimeCursor dirNext t i) in Hne.
  apply String.eqb_neq in Hne as ->. cbn [c_id time_cursor]. rewrite Hi, andb_false_r. done.
Qed.

Lemma parse_depth_token q k :
  k <> EmptyString -> storableText k = true -> parse_cursor (with_page q (encodePathCursor k)) = Ok (depth_cur (Some k)).
Proof.
  intros Hk Hs. unfold parse_cursor. rewrite Get_page. pose proof (token_nonempty (dirNext +:+ "|m|" +:+ b64_encode k)) as Hne.
  rewrite decode_path by done. change (b64_encode ("k1|" +:+ dirNext +:+ "|m|" +:+ b64_encode k)) with (encodePathCursor k) in Hne.
  by apply String.eqb_neq in Hne as ->.
Qed.

(** *** Pages *)
Lemma memory_page_flat d storeID full limit pos prefix :
  memory_page id_lt d storeID (MkListQuery full limit (flat_cur pos) prefix false) =
  Ok (flat_page storeID full limit (fetch (dir_lt id_lt DESC) time_key pos limit (under_prefix d storeID prefix))).
Proof. by destruct pos as [[t i]|]. Qed.

Lemma memory_page_depth d storeID full limit pos prefix :
  memory_page id_lt d storeID (MkListQuery full limit (depth_cur pos) prefix true) =
  Ok (depth_page storeID full limit (fetch path_lt en_key pos limit (entries d storeID prefix))).
Proof. by destruct pos as [k|]. Qed.

(** The request a walk makes next, and the tables it is answered from. *)
Lemma listMemories_page rq storeID lq tok c d :
  rq_query rq !! "page" = None -> parse_list_query (rq_query rq) = Ok lq ->
  match tok with None => c = None | Some t => parse_cursor (with_page (rq_query rq) t) = Ok c end ->
  listMemories id_lt (with_token rq tok) storeID d =
  (if rq_query_whole rq then
     try _ <- checkID storeID "memory store"; try _ <- checkMemoryStore d storeID;
     memory_page id_lt d storeID (MkListQuery (lq_full lq) (lq_limit lq) c (lq_prefix lq) (lq_depth1 lq))
   else Err (Invalid "malformed query string")).
Proof.
  intros Hq Hl Hc. unfold listMemories, queryValues, with_token. destruct tok as [t|]; cbn [rq_query rq_query_whole].
  - destruct (rq_query_whole rq); [|done]. by destruct (parse_list_query_page _ _ _ _ Hq Hl Hc) as [_ ->].
  - subst c. destruct (rq_query_whole rq); [|done]. rewrite Hl.
    assert (Hn : lq_cur lq = None).
    { unfold parse_list_query, parse_page_worded, parsePage, parsePageMax, parsePageWith, parse_cursor, Get in Hl. rewrite Hq in Hl. cbn in Hl.
      repeat (case_match; simplify_eq/=; try done). }
    destruct lq; cbn in *. by subst.
Qed.

(** Where an item stands: at its creation and id, or at its path. *)
Definition place (it : memory_item) (depth1 : bool) : (Z * string) + string :=
  match it with
  | MemoryItem j => if depth1 then inr (mj_path j) else inl (mj_created j, mj_id j)
  | MemoryPrefix p => inr p
  end.

Definition place_lt (a b : (Z * string) + string) : Prop :=
  match a, b with inl a, inl b => dir_lt id_lt DESC a b | inr a, inr b => path_lt a b | _, _ => False end.

(** What the list makes of a row of the table. *)
Definition item_of (lq : list_query) (storeID : string) (kv : string * memory) : memory_item :=
  if lq_depth1 lq then render_entry storeID (lq_full lq) (depth_entry (lq_prefix lq) kv)
  else MemoryItem (renderMemory storeID kv.1 kv.2 (lq_full lq)).

Lemma entry_path prefix kv : en_prefix (depth_entry prefix kv) = false -> en_key (depth_entry prefix kv) = m_path kv.2 /\ en_row (depth_entry prefix kv) = kv.
Proof. unfold depth_entry. by destruct (Cut _ _) as [[? ?] []]. Qed.

Lemma place_entry storeID full prefix kv :
  place (render_entry storeID full (depth_entry prefix kv)) true = inr (en_key (depth_entry prefix kv)).
Proof.
  unfold render_entry. destruct (en_prefix _) eqn:E; [done|]. apply entry_path in E as [Hk Hr]. cbn. by rewrite Hr, Hk.
Qed.

(** The walk's pages are those of [PagesSpec.walked], at either depth. *)
Lemma flat_walked rq storeID lq tok ds pgs pos :
  rq_query rq !! "page" = None -> parse_list_query (rq_query rq) = Ok lq -> lq_depth1 lq = false -> Forall listable ds ->
  match tok with None => pos = None | Some t => parse_cursor (with_page (rq_query rq) t) = Ok (flat_cur pos) end ->
  list_walk rq storeID tok ds pgs ->
  exists rows, walked (dir_lt id_lt DESC) time_key (lq_limit lq) pos (map (fun d => under_prefix d storeID (lq_prefix lq)) ds) rows /\
    map mp_data pgs = map (map (item_of lq storeID)) rows.
Proof.
  intros Hq Hl Hd Hds Htok Hw. revert pos Htok. pose proof (parse_list_query_limit _ _ Hl) as Hlim.
  assert (Hpage : forall tok d pg pos, listable d ->
    match tok with None => pos = None | Some t => parse_cursor (with_page (rq_query rq) t) = Ok (flat_cur pos) end ->
    listMemories id_lt (with_token rq tok) storeID d = Ok pg ->
    pg = flat_page storeID (lq_full lq) (lq_limit lq) (fetch (dir_lt id_lt DESC) time_key pos (lq_limit lq) (under_prefix d storeID (lq_prefix lq)))).
  { intros tok' d pg pos Hld Ht E. rewrite (listMemories_page rq storeID lq tok' (flat_cur pos) d Hq Hl) in E by (destruct tok'; [done|by subst]).
    rewrite Hd, memory_page_flat in E. returns E. by injection E. }
  assert (Hrender : forall l, map (fun kv : string * memory => MemoryItem (renderMemory storeID kv.1 kv.2 (lq_full lq))) l = map (item_of lq storeID) l).
  { intros l. apply map_ext. intros kv. unfold item_of. by rewrite Hd. }
  induction Hw as [tok d pg E Hn|tok d ds pg pgs t E Hn _ IH]; intros pos Htok; apply Forall_cons in Hds as [Hld Hds];
    apply (Hpage _ _ _ pos Hld Htok) in E; subst pg; cbn [map mp_data flat_page mp_next] in *.
  - eexists [_]. split; [|cbn [map]; by rewrite Hrender]. apply walked_last; [apply flat_keyed|].
    destruct (more _ _) eqn:Em; [|done]. apply more_last in Em as [x Hx]; [|apply flat_keyed || done..]. by rewrite Hx in Hn.
  - destruct (more _ _) eqn:Em; [|done]. destruct (last _) as [[i m]|] eqn:Ex; [|done]. injection Hn as <-.
    assert (Hin : (i, m) ∈ under_prefix d storeID (lq_prefix lq)).
    { destruct (page_sorted (dir_lt id_lt DESC) time_key pos (lq_limit lq) _ (flat_keyed d storeID (lq_prefix lq))) as (_ & _ & Hp).
      by apply Hp, last_Some_elem_of. }
    apply elem_of_under_prefix in Hin as (Hi & _). destruct (Hld i m Hi) as (Hv & Hr & _). cbn [fst snd] in IH.
    destruct (IH Hds (Some (m_created m, i))) as (rows & Hrw & Erw); [by apply parse_flat_token|].
    eexists (_ :: rows). split; [|cbn [map]; by rewrite Hrender, Erw]. eapply walked_next; [apply flat_keyed|exact Ex|exact Hrw].
Qed.

Lemma depth_walked rq storeID lq tok ds pgs pos :
  rq_query rq !! "page" = None -> parse_list_query (rq_query rq) = Ok lq -> lq_depth1 lq = true -> Forall listable ds ->
  match tok with None => pos = None | Some t => parse_cursor (with_page (rq_query rq) t) = Ok (depth_cur pos) end ->
  list_walk rq storeID tok ds pgs ->
  exists rows, walked path_lt en_key (lq_limit lq) pos (map (fun d => entries d storeID (lq_prefix lq)) ds) rows /\
    map mp_data pgs = map (map (render_entry storeID (lq_full lq))) rows.
Proof.
  intros Hq Hl Hd Hds Htok Hw. revert pos Htok. pose proof (parse_list_query_limit _ _ Hl) as Hlim.
  destruct (parse_list_query_prefix _ _ Hl) as [p Hp].
  assert (Hpage : forall tok d pg pos, listable d ->
    match tok with None => pos = None | Some t => parse_cursor (with_page (rq_query rq) t) = Ok (depth_cur pos) end ->
    listMemories id_lt (with_token rq tok) storeID d = Ok pg ->
    pg = depth_page storeID (lq_full lq) (lq_limit lq) (fetch path_lt en_key pos (lq_limit lq) (entries d storeID (lq_prefix lq)))).
  { intros tok' d pg pos Hld Ht E. rewrite (listMemories_page rq storeID lq tok' (depth_cur pos) d Hq Hl) in E by (destruct tok'; [done|by subst]).
    rewrite Hd, memory_page_depth in E. returns E. by injection E. }
  induction Hw as [tok d pg E Hn|tok d ds pg pgs t E Hn _ IH]; intros pos Htok; apply Forall_cons in Hds as [Hld Hds];
    apply (Hpage _ _ _ pos Hld Htok) in E; subst pg; cbn [map mp_data depth_page mp_next] in *.
  - eexists [_]. split; [|done]. apply walked_last; [apply distinct_keyed|].
    destruct (more _ _) eqn:Em; [|done]. apply more_last in Em as [x Hx]; [|apply distinct_keyed || done..]. cbn [orb] in Hn. by rewrite Hx in Hn.
  - destruct (_ || _) eqn:Em; [|done]. destruct (last _) as [e|] eqn:Ex; [|done]. injection Hn as <-.
    assert (Hin : e ∈ entries d storeID (lq_prefix lq)).
    { destruct (page_sorted path_lt en_key pos (lq_limit lq) _ (distinct_keyed (map (depth_entry (lq_prefix lq)) (under_prefix d storeID (lq_prefix lq))))) as (_ & _ & Hpg).
      apply Hpg. by apply last_Some_elem_of. }
    apply elem_of_distinct, list_elem_of_In, in_map_iff in Hin as (kv & <- & Hkv). apply list_elem_of_In in Hkv.
    rewrite Hp in Hkv. destruct (entry_key_ok d storeID p kv Hld Hkv) as [Hne Hst]. rewrite <- Hp in Hne, Hst.
    destruct (IH Hds (Some (en_key (depth_entry (lq_prefix lq) kv)))) as (rows & Hrw & Erw); [by apply parse_depth_token|].
    eexists (_ :: rows). split; [|cbn [map]; by rewrite Erw]. eapply walked_next; [apply distinct_keyed|exact Ex|exact Hrw].
Qed.

Lemma Forall2_pages {A B} (f : A -> list B) (g : B -> memory_item) ds pgs rows :
  Forall2 (fun rs page => forall x, x ∈ page -> x ∈ rs) (map f ds) rows -> map mp_data pgs = map (map g) rows ->
  Forall2 (fun d pg => forall it, it ∈ mp_data pg -> exists x, x ∈ f d /\ it = g x) ds pgs.
Proof.
  revert pgs rows. induction ds as [|d ds IH]; intros pgs rows HF; inversion HF as [|? page ? rows' Hp Hps]; subst; cbn [map].
  - destruct pgs; [constructor|done].
  - destruct pgs as [|pg pgs]; [done|]. cbn [map]. intros [= E1 E2]. constructor; [|by eapply IH].
    intros it. rewrite E1, list_elem_of_In, in_map_iff. intros (x & <- & Hx). exists x. split; [|done]. by apply Hp, list_elem_of_In.
Qed.

Lemma from_tables {A B} (f : A -> list B) ds rows :
  Forall2 (fun rs page => forall x, x ∈ page -> x ∈ rs) (map f ds) rows -> Forall (fun x => exists d, x ∈ f d) (concat rows).
Proof.
  revert rows. induction ds as [|d ds IH]; intros rows HF; inversion HF as [|? page ? rows' Hp Hps]; subst; cbn [concat]; [constructor|].
  apply Forall_app. split; [|by apply IH]. apply Forall_forall. intros x Hx. exists d. by apply Hp.
Qed.

(** What [listMemories_pages] states of a walk's pages. *)
Definition covers (lq : list_query) (storeID : string) (ds : list db) (pgs : list memoryPage) : Prop :=
  Forall2 (fun d pg => forall it, it ∈ mp_data pg -> exists kv, kv ∈ under_prefix d storeID (lq_prefix lq) /\ it = item_of lq storeID kv) ds pgs /\
  StronglySorted (fun a b => place_lt (place a (lq_depth1 lq)) (place b (lq_depth1 lq))) (concat (map mp_data pgs)) /\
  forall pl, Forall (fun d => exists kv, kv ∈ under_prefix d storeID (lq_prefix lq) /\ place (item_of lq storeID kv) (lq_depth1 lq) = pl) ds ->
    exists it, it ∈ concat (map mp_data pgs) /\ place it (lq_depth1 lq) = pl.

Lemma depth_covers rq storeID lq ds pgs :
  rq_query rq !! "page" = None -> parse_list_query (rq_query rq) = Ok lq -> lq_depth1 lq = true -> Forall listable ds ->
  list_walk rq storeID None ds pgs -> covers lq storeID ds pgs.
Proof.
  intros Hq Hl Hd Hds Hw. unfold covers. rewrite Hd.
  destruct (depth_walked rq storeID lq None ds pgs None Hq Hl Hd Hds eq_refl Hw) as (rows & Hwk & E).
  assert (Hc : concat (map mp_data pgs) = map (render_entry storeID (lq_full lq)) (concat rows)) by (by rewrite E, concat_map).
  destruct (walked_sorted path_lt en_key _ _ _ _ Hwk) as [Hs _]. pose proof (walked_shows path_lt en_key _ _ _ _ Hwk) as Hsh.
  assert (Hof : forall d e, e ∈ entries d storeID (lq_prefix lq) ->
    exists kv, kv ∈ under_prefix d storeID (lq_prefix lq) /\ e = depth_entry (lq_prefix lq) kv).
  { intros d e He%elem_of_distinct. apply list_elem_of_In, in_map_iff in He as (kv & <- & Hkv). exists kv. split; [|done]. by apply list_elem_of_In. }
  split_and!.
  - eapply Forall2_impl; [exact (Forall2_pages _ _ _ _ _ Hsh E)|]. intros d pg Hpg it Hit. destruct (Hpg it Hit) as (e & He & ->).
    destruct (Hof d e He) as (kv & Hkv & ->). exists kv. split; [done|]. unfold item_of. by rewrite Hd.
  - rewrite Hc. pose proof (from_tables _ _ _ Hsh) as Hin.
    revert Hs Hin. generalize (concat rows). intros l. induction 1 as [|e l _ IHl Hx]; cbn; [constructor|].
    intros [[d He] Hin]%Forall_cons. constructor; [by apply IHl|]. apply Forall_map. rewrite Forall_forall in Hx, Hin |- *.
    intros e' He'. destruct (Hof d e He) as (kv & _ & ->). destruct (Hin e' He') as [d' Hd']. destruct (Hof d' e' Hd') as (kv' & _ & ->).
    rewrite !place_entry. by apply Hx.
  - intros pl Hpl. assert (Hk : exists k, pl = inr k).
    { destruct Hw; apply Forall_cons in Hpl as [(kv & _ & <-) _]; unfold item_of; rewrite Hd, place_entry; eauto. }
    destruct Hk as [k ->]. destruct (proj1 (list_elem_of_fmap en_key (concat rows) k)) as (e & -> & He).
    { eapply (walked_complete path_lt en_key); [exact Hwk| |done]. apply Forall_map. eapply Forall_impl; [exact Hpl|].
      intros d (kv & Hkv & Hpl'). unfold item_of in Hpl'. rewrite Hd, place_entry in Hpl'. injection Hpl' as <-.
      apply distinct_key, list_elem_of_In, in_map_iff. exists kv. split; [done|]. by apply list_elem_of_In. }
    exists (render_entry storeID (lq_full lq) e). rewrite Hc. split; [by apply list_elem_of_In, in_map, list_elem_of_In|].
    assert (Hin : Forall (fun e => exists d, e ∈ entries d storeID (lq_prefix lq)) (concat rows)) by exact (from_tables _ _ _ Hsh).
    rewrite Forall_forall in Hin. destruct (Hin e He) as [d Hde]. destruct (Hof d e Hde) as (kv & _ & ->). apply place_entry.
Qed.

Lemma flat_covers rq storeID lq ds pgs :
  rq_query rq !! "page" = None -> parse_list_query (rq_query rq) = Ok lq -> lq_depth1 lq = false -> Forall listable ds ->
  list_walk rq storeID None ds pgs -> covers lq storeID ds pgs.
Proof.
  intros Hq Hl Hd Hds Hw. unfold covers. rewrite Hd.
  destruct (flat_walked rq storeID lq None ds pgs None Hq Hl Hd Hds eq_refl Hw) as (rows & Hwk & E).
  assert (Hc : concat (map mp_data pgs) = map (item_of lq storeID) (concat rows)) by (by rewrite E, concat_map).
  assert (Hpl1 : forall kv, place (item_of lq storeID kv) false = inl (time_key kv)) by (intros kv; unfold item_of; by rewrite Hd).
  split_and!.
  - exact (Forall2_pages _ _ _ _ _ (walked_shows (dir_lt id_lt DESC) time_key _ _ _ _ Hwk) E).
  - rewrite Hc. eapply StronglySorted_map; [|by eapply (walked_sorted (dir_lt id_lt DESC) time_key)]. intros x y Hxy. by rewrite !Hpl1.
  - intros pl Hpl. assert (Hk : exists k, pl = inl k).
    { destruct Hw; apply Forall_cons in Hpl as [(kv & _ & <-) _]; rewrite Hpl1; eauto. }
    destruct Hk as [k ->]. destruct (proj1 (list_elem_of_fmap time_key (concat rows) k)) as (kv & -> & Hkv).
    { eapply (walked_complete (dir_lt id_lt DESC) time_key); [exact Hwk| |done]. apply Forall_map. eapply Forall_impl; [exact Hpl|].
      intros d (kv & Hkv & Hpl'). rewrite Hpl1 in Hpl'. injection Hpl' as <-. by apply (list_elem_of_fmap_2 time_key). }
    exists (item_of lq storeID kv). rewrite Hc. split; [by apply list_elem_of_In, in_map, list_elem_of_In|apply Hpl1].
Qed.

(** C26: following next_page lists the memories of a store, neither skipping nor repeating,
    whatever happens between the requests.  At either depth, under any prefix, view and
    limit: every item of a page is a row of the table the page was served from; over all
    the pages the items come in the list's order, newest first or by path, and no place in
    it appears twice; and a row, or at depth 1 a rolled-up prefix, that keeps its place
    through the whole walk is shown. *)
Theorem listMemories_pages rq storeID lq ds pgs :
  rq_query rq !! "page" = None -> parse_list_query (rq_query rq) = Ok lq -> Forall listable ds ->
  list_walk rq storeID None ds pgs ->
  Forall2 (fun d pg => forall it, it ∈ mp_data pg -> exists kv, kv ∈ under_prefix d storeID (lq_prefix lq) /\ it = item_of lq storeID kv) ds pgs /\
  StronglySorted (fun a b => place_lt (place a (lq_depth1 lq)) (place b (lq_depth1 lq))) (concat (map mp_data pgs)) /\
  forall pl, Forall (fun d => exists kv, kv ∈ under_prefix d storeID (lq_prefix lq) /\ place (item_of lq storeID kv) (lq_depth1 lq) = pl) ds ->
    exists it, it ∈ concat (map mp_data pgs) /\ place it (lq_depth1 lq) = pl.
Proof.
  intros Hq Hl Hds Hw. change (covers lq storeID ds pgs).
  destruct (lq_depth1 lq) eqn:Hd; [by eapply depth_covers|by eapply flat_covers].
Qed.

(** A walk over tables that rest goes on while a page leads on; each page leaves fewer rows
    behind it. *)
Lemma walk_ends rq storeID d (next : option string -> nat -> Prop) :
  (forall tok n, next tok (S n) -> exists pg, listMemories id_lt (with_token rq tok) storeID d = Ok pg /\
     match mp_next pg with None => True | Some t => next (Some t) n end) ->
  (forall tok, ~ next tok O) ->
  forall n tok, next tok n -> exists pgs, list_walk rq storeID tok (replicate (length pgs) d) pgs /\ (length pgs <= n)%nat.
Proof.
  intros Hstep H0. induction n as [|n IH]; intros tok Hn; [by apply H0 in Hn|].
  destruct (Hstep tok n Hn) as (pg & Hpg & Hnext). destruct (mp_next pg) as [t|] eqn:Et.
  - destruct (IH (Some t) Hnext) as (pgs & Hw & Hl). exists (pg :: pgs). split; [|cbn; lia]. cbn. by eapply lw_next.
  - exists [pg]. split; [|cbn; lia]. by apply lw_last.
Qed.

Lemma length_entries d storeID prefix : (length (entries d storeID prefix) <= length (under_prefix d storeID prefix))%nat.
Proof.
  unfold entries. set (es := map _ _).
  assert (Hsub : (length (en_key <$> distinct_entries es) <= length (en_key <$> es))%nat).
  { apply submseteq_length, NoDup_submseteq; [apply distinct_keyed|]. intros k Hk.
    apply list_elem_of_fmap in Hk as (e & -> & He). by apply (list_elem_of_fmap_2 en_key), elem_of_distinct. }
  rewrite !length_fmap in Hsub. unfold es in *. by rewrite length_map in Hsub.
Qed.

(** C27: following next_page over tables that rest comes to an end.  Whatever the depth, the
    prefix and the limit, a list whose first request is well formed answers every request
    of the walk and ends it within one page more than there are rows, so, with
    [listMemories_pages], shows all of them. *)
Theorem listMemories_ends rq storeID lq d :
  rq_query_whole rq = true -> rq_query rq !! "page" = None -> parse_list_query (rq_query rq) = Ok lq ->
  Valid storeID = true -> is_Some (db_stores d !! storeID) -> listable d ->
  exists pgs, list_walk rq storeID None (replicate (length pgs) d) pgs /\
    (length pgs <= S (length (under_prefix d storeID (lq_prefix lq))))%nat.
Proof.
  intros Hw Hq Hl Hv Hs Hld. set (rows := under_prefix d storeID (lq_prefix lq)).
  assert (Hpage : forall tok c, match tok with None => c = None | Some t => parse_cursor (with_page (rq_query rq) t) = Ok c end ->
    listMemories id_lt (with_token rq tok) storeID d = memory_page id_lt d storeID (MkListQuery (lq_full lq) (lq_limit lq) c (lq_prefix lq) (lq_depth1 lq))).
  { intros tok c Hc. rewrite (listMemories_page rq storeID lq tok c d Hq Hl Hc), Hw. unfold checkID, checkMemoryStore. by rewrite Hv, bool_decide_true. }
  destruct (lq_depth1 lq) eqn:Hd.
  - apply (walk_ends rq storeID d (fun tok n => exists pos,
      match tok with None => pos = None | Some t => parse_cursor (with_page (rq_query rq) t) = Ok (depth_cur pos) end /\
      (length (filter (behind path_lt en_key pos) (entries d storeID (lq_prefix lq))) < n)%nat)).
    + intros tok n (pos & Ht & Hn). eexists. rewrite (Hpage tok (depth_cur pos)) by (destruct tok; [done|by subst]).
      rewrite memory_page_depth. split; [done|]. cbn [depth_page mp_next]. destruct (_ || _); [|done]. destruct (last _) as [e|] eqn:Ex; [|done]. cbn.
      pose proof (page_progress path_lt en_key pos (lq_limit lq) _ e (distinct_keyed _) Ex) as Hpr.
      exists (Some (en_key e)). split; [|unfold entries in *; eapply Nat.lt_le_trans; [exact Hpr|by apply Nat.lt_succ_r]].
      destruct (parse_list_query_prefix _ _ Hl) as [p Hp].
      destruct (page_sorted path_lt en_key pos (lq_limit lq) _ (distinct_keyed (map (depth_entry (lq_prefix lq)) rows))) as (_ & _ & Hin).
      specialize (Hin e ltac:(by apply last_Some_elem_of)). apply elem_of_distinct, list_elem_of_In, in_map_iff in Hin as (kv & <- & Hkv).
      apply list_elem_of_In in Hkv. unfold rows in Hkv. rewrite Hp in Hkv |- *. destruct (entry_key_ok d storeID p kv Hld Hkv). by apply parse_depth_token.
    + intros tok (pos & _ & Hn). lia.
    + exists None. split; [done|]. rewrite filter_all_true by (by apply Forall_forall). pose proof (length_entries d storeID (lq_prefix lq)). unfold rows. lia.
  - apply (walk_ends rq storeID d (fun tok n => exists pos,
      match tok with None => pos = None | Some t => parse_cursor (with_page (rq_query rq) t) = Ok (flat_cur pos) end /\
      (length (filter (behind (dir_lt id_lt DESC) time_key pos) rows) < n)%nat)).
    + intros tok n (pos & Ht & Hn). eexists. rewrite (Hpage tok (flat_cur pos)) by (destruct tok; [done|by subst]).
      rewrite memory_page_flat. split; [done|]. cbn [flat_page mp_next]. destruct (more _ _); [|done]. destruct (last _) as [[i m]|] eqn:Ex; [|done]. cbn.
      pose proof (page_progress (dir_lt id_lt DESC) time_key pos (lq_limit lq) _ (i, m) (flat_keyed _ _ _) Ex) as Hpr.
      exists (Some (m_created m, i)). split; [|eapply Nat.lt_le_trans; [exact Hpr|by apply Nat.lt_succ_r]].
      destruct (page_sorted (dir_lt id_lt DESC) time_key pos (lq_limit lq) _ (flat_keyed d storeID (lq_prefix lq))) as (_ & _ & Hin).
      specialize (Hin (i, m) ltac:(by apply last_Some_elem_of)). apply elem_of_under_prefix in Hin as (Hi & _).
      destruct (Hld i m Hi) as (Hvi & Hr & _). by apply parse_flat_token.
    + intros tok (pos & _ & Hn). lia.
    + exists None. split; [done|]. rewrite filter_all_true by (by apply Forall_forall). lia.
Qed.
End walk.

(** ** Two memories, a page each; the first is deleted once it was shown. *)
Definition ex_two : db :=
  committed (createMemory (fun _ => true) ex_sha ex_rnd (post [("path", JString "/b/c.md"); ("content", JString "two")]) ex_sid ex_d2).
Definition ex_newer : string := NewID PrefixMemory (ex_rnd 6%nat).
Definition ex_one : db := committed (deleteMemory ex_sha ex_rnd (post []) ex_sid ex_newer ex_two).

Definition ex_limit1 : values := {["limit" := ["1"]]}.
Definition ex_list : request := MkRequest ex_auth ex_limit1 true (Document (JObject [])).
Definition ex_list_query : list_query := MkListQuery false 1 None "/" false.

Definition ex_none : memoryPage := MkMemoryPage [] None.
Definition ex_page_of (tok : option string) (d : db) : memoryPage :=
  match listMemories path_lt (with_token ex_list tok) ex_sid d with Ok pg => pg | Err _ => ex_none end.
Definition ex_pages : list memoryPage := [ex_page_of None ex_two; ex_page_of (mp_next (ex_page_of None ex_two)) ex_one].

Lemma ex_list_parses : rq_query ex_list !! "page" = None /\ parse_list_query (rq_query ex_list) = Ok ex_list_query.
Proof. split; vm_compute; reflexivity. Qed.

Definition row_listable (i : string) (m : memory) : bool :=
  Valid i && in_range min_int max_int (m_created m) && storableText (m_path m).

Lemma listable_all d : forallb (fun kv => row_listable kv.1 kv.2) (map_to_list (db_memories d)) = true -> listable d.
Proof.
  intros Hf i m Hi%elem_of_map_to_list%list_elem_of_In. rewrite forallb_forall in Hf. specialize (Hf _ Hi).
  unfold row_listable, in_range in Hf. cbn in Hf. bool_prop. done.
Qed.

Lemma ex_walk : list_walk path_lt ex_list ex_sid None [ex_two; ex_one] ex_pages.
Proof.
  eapply (lw_next path_lt ex_list ex_sid None ex_two [ex_one] (ex_page_of None ex_two) _ (default EmptyString (mp_next (ex_page_of None ex_two))));
    [vm_compute; reflexivity..|].
  apply lw_last; vm_compute; reflexivity.
Qed.

Lemma listMemories_pages_witness :
  map (fun pg => map (fun it => place it false) (mp_data pg)) ex_pages =
    [[inl (108, ex_newer)]; [inl (104, ex_mid)]] /\
  StronglySorted (fun a b => place_lt path_lt (place a false) (place b false)) (concat (map mp_data ex_pages)).
Proof.
  split; [vm_compute; reflexivity|].
  refine (proj1 (proj2 (listMemories_pages path_lt ex_list ex_sid ex_list_query [ex_two; ex_one] ex_pages
    (proj1 ex_list_parses) (proj2 ex_list_parses) _ ex_walk))).
  apply Forall_cons; split; [|apply Forall_cons; split; [|constructor]]; apply listable_all; vm_compute; reflexivity.
Defined.

Lemma listMemories_ends_witness :
  length (under_prefix ex_two ex_sid "/") = 2%nat /\
  exists pgs, list_walk path_lt ex_list ex_sid None (replicate (length pgs) ex_two) pgs /\
    (length pgs <= S (length (under_prefix ex_two ex_sid "/")))%nat.
Proof.
  split; [vm_compute; reflexivity|].
  refine (listMemories_ends path_lt ex_list ex_sid ex_list_query ex_two eq_refl (proj1 ex_list_parses) (proj2 ex_list_parses) _ _ _).
  - vm_compute. reflexivity.
  - vm_compute. by eexists.
  - apply listable_all. vm_compute. reflexivity.
Defined.
