(* ===== verification/Deploy.v ===== *)
(** * Deploy: deployments and the scheduler that fires them (internal/api/deployments.go,
    deploymentparse.go, deploymentruns.go, deploymentscheduler.go).

    The tables are the deployments, their runs, and what a write looks up of environments
    and agents.  A handler is one transaction: it returns the tables it commits or an error
    that commits nothing.  The scheduler's sweep is two parts, as it is in the code: a scan
    that decides fires from one reading of the database's clock, and fires that each claim
    their occurrence in a transaction of their own.

    The creation of the fired session is an argument, a function of what the fire hands it
    to one of the three ways it ends.  What [vault_ids], [initial_events], [resources] and
    [metadata] must look like is checked by the readers they share with a session's create;
    a request here holds what those let through. *)
From Stdlib Require Import Lia.
From S2P Require Import Prelude GoStrings GoTime Ids Json Domain Inbound Cron.

(** ** The tables *)

(** The schedule's two columns are null together or not at all, which the type says. *)
Record deployment := MkDeployment {
  d_name : string; d_description : string; d_agent : string; d_version : Z; d_env : string;
  d_vaults : list string; d_initial : list json; d_resources : list json; d_metadata : list (string * string);
  d_schedule : option (string * string);
  d_resumed_at : Z;
  d_paused_at : option Z; d_paused_kind : option string; d_paused_error : option string;
  d_created_at : Z; d_updated_at : Z; d_archived_at : option Z }.

(** A row of [deployment_runs]; a scheduled run is one with an occurrence. *)
Record drun := MkRun {
  r_deployment : string; r_trigger : string; r_scheduled_at : option Z;
  r_agent : string; r_version : Z;
  r_session : option string; r_error : option (string * string);
  r_created_at : Z; r_succeeded_at : option Z }.

Record env_row := MkEnv { en_archived : option Z; en_internal : bool }.
Record agent_row := MkAgent { ag_version : Z; ag_archived : option Z; ag_internal : bool; ag_versions : list Z }.

Record ddb := MkDdb {
  deployments : gmap string deployment; runs : gmap string drun;
  envs : gmap string env_row; agents : gmap string agent_row }.

Definition with_deployment (d : ddb) (id : string) (row : deployment) : ddb :=
  MkDdb (<[id := row]> (deployments d)) (runs d) (envs d) (agents d).

Definition with_run (d : ddb) (id : string) (r : drun) : ddb :=
  MkDdb (deployments d) (<[id := r]> (runs d)) (envs d) (agents d).

(** ** The schedule of a request *)

Definition ScheduleCron : string := "cron".
Definition scheduleExpressionMax : Z := 256.

Inductive refusal :=
| ScheduleNotObject | UnknownKey (k : string) | ScheduleTypeRequired | ScheduleTypeUnsupported (t : string)
| ExpressionRequired | TimezoneAbsent | TimezoneRequired | ExpressionTooLong
| BadExpression | BadTimezone (tz : string) | BothDays | NoOccurrence | CronFault
| AgentShape | AgentTypeRequired | AgentTypeUnsupported (t : string) | AgentIDRequired | AgentVersionPositive
| AgentNotFound (id : string) | AgentArchived (id : string) | AgentVersionNotFound (id : string) (v : Z)
| NameBounds | DescriptionBounds | EnvironmentBounds | VaultBounds | InitialBounds | ResourceBounds
| EnvironmentNotFound (id : string) | EnvironmentArchived (id : string)
| NameCleared | EnvironmentCleared | AgentCleared
| DeploymentNotFound (id : string) | DeploymentArchived | RowConstraint.

Definition rejectUnknownNested (raw : json) (allowed : list string) : result refusal unit :=
  match decode_map raw with
  | Some obj => match Least obj allowed with Some key => Err (UnknownKey key) | None => Ok tt end
  | None => Ok tt
  end.

Section api.
Context (LoadLocation : string -> option location).

(** What is wrong with an expression and a zone at the instant [now], if anything. *)
Definition check_schedule (now : Z) (expr tz : string) : result refusal (string * string) :=
  match Upcoming LoadLocation expr tz now 1 with
  | Err ErrExpression => Err BadExpression
  | Err ErrTimezone => Err (BadTimezone tz)
  | Err _ => Err CronFault
  | Ok next =>
      if match RestrictsBothDays expr with Ok both => both | Err _ => false end then Err BothDays
      else match next with [] => Err NoOccurrence | _ => Ok (expr, tz) end
  end.

(** The object of a schedule. *)
Definition schedule_object (now : Z) (raw : json) : result refusal (string * string) :=
  let field := body_field dec_string_ptr None (Some raw) in
  match field "type", field "expression", field "timezone" with
  | Some type, Some expression, Some timezone =>
      try _ <- rejectUnknownNested raw ["type"; "expression"; "timezone"];
      match type with
      | None => Err ScheduleTypeRequired
      | Some t =>
          if negb (String.eqb t ScheduleCron) then Err (ScheduleTypeUnsupported t)
          else
            let expr := default EmptyString expression in
            let tz := default EmptyString timezone in
            if String.eqb expr EmptyString then Err ExpressionRequired
            else if String.eqb tz EmptyString then
              Err (match decode_map raw with
                   | Some keys => match obj_get keys "timezone" with None => TimezoneAbsent | Some _ => TimezoneRequired end
                   | None => TimezoneRequired
                   end)
            else if scheduleExpressionMax <? Z.of_nat (length (runes expr)) then Err ExpressionTooLong
            else check_schedule now expr tz
      end
  | _, _, _ => Err ScheduleNotObject
  end.

(** Absent, null, or the pair an object replaces it with. *)
Definition parseDeploymentSchedule (now : Z) (obj : list (string * json)) : result refusal (option (option (string * string))) :=
  match obj_get obj "schedule" with
  | None => Ok None
  | Some JNull => Ok (Some None)
  | Some raw => try pair <- schedule_object now raw; Ok (Some (Some pair))
  end.

(** ** The agent and the environment of a request *)

Definition dec_int_ptr (cur : option Z) (v : json) : option (option Z) :=
  match v with JNumber lit => Some <$> Atoi lit | JNull => Some None | _ => None end.

(** The union: a bare id, or a reference with or without a version. *)
Definition agent_union (raw : json) : result refusal (string * option Z) :=
  match decode_string (Some raw) with
  | Some id => Ok (id, None)
  | None =>
      match body_field dec_string_ptr None (Some raw) "type", body_field dec_string EmptyString (Some raw) "id",
            body_field dec_int_ptr None (Some raw) "version" with
      | Some type, Some id, Some version =>
          try _ <- rejectUnknownNested raw ["type"; "id"; "version"];
          match type with
          | None => Err AgentTypeRequired
          | Some t =>
              if negb (String.eqb t "agent") then Err (AgentTypeUnsupported t)
              else if String.eqb id EmptyString then Err AgentIDRequired
              else match version with
                   | Some v => if v <? 1 then Err AgentVersionPositive else Ok (id, version)
                   | None => Ok (id, None)
                   end
          end
      | _, _, _ => Err AgentShape
      end
  end.

Definition resolveDeploymentAgent (d : ddb) (raw : json) : result refusal (string * Z) :=
  try '(id, version) <- agent_union raw;
  if negb (Valid id) then Err (AgentNotFound id)
  else match agents d !! id with
  | None => Err (AgentNotFound id)
  | Some a =>
      if ag_internal a then Err (AgentNotFound id)
      else if bool_decide (is_Some (ag_archived a)) then Err (AgentArchived id)
      else match version with
           | None => Ok (id, ag_version a)
           | Some v => if existsb (Z.eqb v) (ag_versions a) then Ok (id, v) else Err (AgentVersionNotFound id v)
           end
  end.

Definition requireLiveEnvironment (d : ddb) (envID : string) : result refusal unit :=
  match envs d !! envID with
  | None => Err (EnvironmentNotFound envID)
  | Some e =>
      if en_internal e then Err (EnvironmentNotFound envID)
      else if bool_decide (is_Some (en_archived e)) then Err (EnvironmentArchived envID) else Ok tt
  end.

Definition deploymentNameMax : Z := 256.
Definition deploymentDescriptionMax : Z := 2048.
Definition deploymentEnvironmentMax : Z := 128.
Definition deploymentVaultIDsMax : Z := 50.
Definition deploymentResourcesMax : Z := 500.

Definition runeLen (s : string) : Z := Z.of_nat (length (runes s)).

Definition validateDeploymentBounds (name : string) (description : option string) (envID : string) (vaultIDs initialEvents resources : Z)
  : result refusal unit :=
  if String.eqb name EmptyString || (deploymentNameMax <? runeLen name) then Err NameBounds
  else if match description with Some t => deploymentDescriptionMax <? runeLen t | None => false end then Err DescriptionBounds
  else if String.eqb envID EmptyString || (deploymentEnvironmentMax <? slen envID) then Err EnvironmentBounds
  else if deploymentVaultIDsMax <? vaultIDs then Err VaultBounds
  else if initialEvents <? 1 then Err InitialBounds
  else if deploymentResourcesMax <? resources then Err ResourceBounds
  else Ok tt.

(** ** The management surface *)

Record create_request := MkCreate {
  c_name : string; c_description : option string; c_env : string; c_agent : json;
  c_vaults : list string; c_initial : list json; c_resources : list json; c_metadata : list (string * string);
  c_body : list (string * json) (* the whole body, which the schedule is read from *) }.

Definition createDeployment (wall now : Z) (id : string) (c : create_request) (d : ddb) : result refusal ddb :=
  try _ <- validateDeploymentBounds (c_name c) (c_description c) (c_env c) (Z.of_nat (length (c_vaults c)))
             (Z.of_nat (length (c_initial c))) (Z.of_nat (length (c_resources c)));
  try schedule <- parseDeploymentSchedule wall (c_body c);
  try _ <- requireLiveEnvironment d (c_env c);
  try '(agent, version) <- resolveDeploymentAgent d (c_agent c);
  if bool_decide (is_Some (deployments d !! id)) then Err RowConstraint else
  Ok (with_deployment d id
        (MkDeployment (c_name c) (default EmptyString (c_description c)) agent version (c_env c) (c_vaults c) (c_initial c) (c_resources c)
           (c_metadata c) (default None schedule) now None None None now now None)).

(** A mutating action's load: an archived deployment refuses. *)
Definition loadDeployment (d : ddb) (id : string) : result refusal deployment :=
  match deployments d !! id with
  | None => Err (DeploymentNotFound id)
  | Some row => if bool_decide (is_Some (d_archived_at row)) then Err DeploymentArchived else Ok row
  end.

(** What an update sends; [None] is a key left out, and where null is told apart,
    [Some None] is null.  [u_metadata] is the patched bag. *)
Record update_request := MkUpdate {
  u_name : option (option string); u_description : option (option string); u_env : option (option string); u_agent : option json;
  u_vaults : option (list string); u_initial : option (list json); u_resources : option (list json);
  u_metadata : option (list (string * string) -> list (string * string));
  u_body : list (string * json) }.

(** A field that cannot be cleared. *)
Definition kept_or {E A} (cur : A) (cleared : E) (sent : option (option A)) : result E A :=
  match sent with None => Ok cur | Some None => Err cleared | Some (Some v) => Ok v end.

Definition updateDeployment (wall now : Z) (id : string) (u : update_request) (d : ddb) : result refusal ddb :=
  if negb (Valid id) then Err (DeploymentNotFound id)
  else
    try schedule <- parseDeploymentSchedule wall (u_body u);
    try row <- loadDeployment d id;
    try name <- kept_or (d_name row) NameCleared (u_name u);
    let description := match u_description u with
                       | None => if String.eqb (d_description row) EmptyString then None else Some (d_description row)
                       | Some t => t
                       end in
    try env <- kept_or (d_env row) EnvironmentCleared (u_env u);
    try _ <- match u_env u with Some _ => requireLiveEnvironment d env | None => Ok tt end;
    let vaults := default (d_vaults row) (u_vaults u) in
    try '(agent, version) <- match u_agent u with
                             | None => Ok (d_agent row, d_version row)
                             | Some JNull => Err AgentCleared
                             | Some raw => resolveDeploymentAgent d raw
                             end;
    let initial := default (d_initial row) (u_initial u) in
    let resources := default (d_resources row) (u_resources u) in
    let metadata := match u_metadata u with Some patch => patch (d_metadata row) | None => d_metadata row end in
    (* the resources counted are the request's: a kept list is within the cap already *)
    try _ <- validateDeploymentBounds name description env (Z.of_nat (length vaults)) (Z.of_nat (length initial))
               (Z.of_nat (length (default [] (u_resources u))));
    Ok (with_deployment d id
          (MkDeployment name (default EmptyString description) agent version env vaults initial resources metadata
             (match schedule with Some s => s | None => d_schedule row end)
             (d_resumed_at row) (d_paused_at row) (d_paused_kind row) (d_paused_error row) (d_created_at row) now (d_archived_at row))).

Definition with_pause (row : deployment) (at_ : option Z) (kind err : option string) (resumed updated : Z) : deployment :=
  MkDeployment (d_name row) (d_description row) (d_agent row) (d_version row) (d_env row) (d_vaults row) (d_initial row) (d_resources row)
    (d_metadata row) (d_schedule row) resumed at_ kind err (d_created_at row) updated (d_archived_at row).

Definition archiveDeployment (now : Z) (id : string) (d : ddb) : result refusal ddb :=
  if negb (Valid id) then Err (DeploymentNotFound id)
  else match deployments d !! id with
  | None => Err (DeploymentNotFound id)
  | Some row =>
      Ok (with_deployment d id
            (MkDeployment (d_name row) (d_description row) (d_agent row) (d_version row) (d_env row) (d_vaults row) (d_initial row)
               (d_resources row) (d_metadata row) (d_schedule row) (d_resumed_at row) (d_paused_at row) (d_paused_kind row)
               (d_paused_error row) (d_created_at row)
               (match d_archived_at row with None => now | Some _ => d_updated_at row end)
               (Some (default now (d_archived_at row)))))
  end.

Definition PausedManual : string := "manual".
Definition PausedError : string := "error".

(** COALESCE *)
Definition coalesce {A} (x : option A) (y : A) : option A := match x with Some _ => x | None => Some y end.

Definition setDeploymentPause (now : Z) (pause : bool) (id : string) (d : ddb) : result refusal ddb :=
  if negb (Valid id) then Err (DeploymentNotFound id)
  else
    try row <- loadDeployment d id;
    Ok (with_deployment d id
          (if pause
           then with_pause row (coalesce (d_paused_at row) now) (coalesce (d_paused_kind row) PausedManual) (d_paused_error row)
                  (d_resumed_at row) (match d_paused_at row with None => now | Some _ => d_updated_at row end)
           else with_pause row None None None
                  (match d_paused_at row with None => d_resumed_at row | Some _ => now end)
                  (match d_paused_at row with None => d_updated_at row | Some _ => now end))).

(** [Deployment.Status] and [Deployment.Reason] *)
Definition Status (row : deployment) : string :=
  match d_archived_at row, d_paused_at row with None, Some _ => "paused" | _, _ => "active" end.

Definition Reason (row : deployment) : option (string * option string) :=
  if String.eqb (Status row) "paused"
  then let kind := default EmptyString (d_paused_kind row) in
       Some (kind, if String.eqb kind PausedError then Some (default EmptyString (d_paused_error row)) else None)
  else None.

(** ** Runs *)

(** How the creation of a session ends: created; refused for a reason a run records, with
    its type and wording; or failed for one it does not. *)
Inductive refusal_what := StoreGone | StoreArchived | OtherRefusal (text : string).
Inductive fire_result := Fired (sid : string) | Classified (typ : string) (what : refusal_what) | Unclassified.

(** What a fire hands the creation of its session. *)
Record createSessionIn := MkCreateIn {
  in_env : string; in_agent : string; in_version : Z; in_title : string; in_resources : list json; in_vaults : list string;
  in_initial : list json; in_deployment : string }.

Definition deploymentSessionIn (id : string) (row : deployment) : createSessionIn :=
  MkCreateIn (d_env row) (d_agent row) (d_version row) (d_name row) (d_resources row) (d_vaults row) (d_initial row) id.

Definition runWording (what : refusal_what) : string :=
  match what with
  | StoreGone => "session creation rejected: a referenced resource was not found; check deployment configuration"
  | StoreArchived => "session creation rejected: a referenced memory store is archived; check deployment resources"
  | OtherRefusal text => text
  end.

Definition deploymentPausingErrorTypes : list string :=
  ["agent_archived_error"; "environment_archived_error"; "environment_not_found_error"; "file_not_found_error";
   "mcp_egress_blocked_error"; "memory_store_archived_error"; "organization_disabled_error";
   "self_hosted_resources_unsupported_error"; "session_resource_not_found_error"; "skill_not_found_error"; "unknown_error";
   "vault_archived_error"; "vault_not_found_error"; "workspace_archived_error"].

(** The error types the table takes. *)
Definition run_error_types : list string :=
  deploymentPausingErrorTypes ++ ["session_creation_rejected_error"; "session_rate_limited_error"].

Inductive run_error :=
| RunRefused (e : refusal)   (* the handler's own answer *)
| RunUnclassified            (* the session's creation failed for a reason no run records *)
| RunConstraint              (* the database refused a row *)
| RunDeadlock | RunInfra.

(** [settleRun] with either arm; an error type outside the table's is refused by its CHECK. *)
Definition settleRun (d : ddb) (runID : string) (now : Z) (outcome : string + string * string) : result run_error ddb :=
  match runs d !! runID with
  | None => Err RunInfra
  | Some r =>
      match outcome with
      | inl sid => Ok (with_run d runID (MkRun (r_deployment r) (r_trigger r) (r_scheduled_at r) (r_agent r) (r_version r) (Some sid)
                                           (r_error r) (r_created_at r) (Some now)))
      | inr (typ, msg) =>
          if mem_string typ run_error_types
          then Ok (with_run d runID (MkRun (r_deployment r) (r_trigger r) (r_scheduled_at r) (r_agent r) (r_version r) (r_session r)
                                       (Some (typ, msg)) (r_created_at r) (r_succeeded_at r)))
          else Err RunConstraint
      end
  end.

(** The insert of a run, its primary key and the occurrence's index. *)
Definition claimed (d : ddb) (deployment : string) (occ : Z) : bool :=
  existsb (fun kv => String.eqb (r_deployment kv.2) deployment && bool_decide (r_scheduled_at kv.2 = Some occ)) (map_to_list (runs d)).

Definition new_run (deployment trigger : string) (occ : option Z) (row : Deploy.deployment) (now : Z) : drun :=
  MkRun deployment trigger occ (d_agent row) (d_version row) None None now None.

Definition insert_run (d : ddb) (runID : string) (r : drun) : result run_error ddb :=
  if bool_decide (is_Some (runs d !! runID)) then Err RunConstraint else Ok (with_run d runID r).

(** [runDeployment]: a manual run, which a paused deployment takes too. *)
Definition runDeployment (now : Z) (runID : string) (create : createSessionIn -> fire_result) (id : string) (d : ddb) : result run_error ddb :=
  if negb (Valid id) then Err (RunRefused (DeploymentNotFound id))
  else match deployments d !! id with
  | None => Err (RunRefused (DeploymentNotFound id))
  | Some row =>
      if bool_decide (is_Some (d_archived_at row)) then Err (RunRefused DeploymentArchived)
      else
        try d <- insert_run d runID (new_run id "manual" None row now);
        match create (deploymentSessionIn id row) with
        | Fired sid => settleRun d runID now (inl sid)
        | Classified typ what => settleRun d runID now (inr (typ, runWording what))
        | Unclassified => Err RunUnclassified
        end
  end.

(** ** The scan *)

Definition deploymentCatchupWindow : Z := hour.
Definition deploymentSkipScanCap : Z := 1000.

Record deploymentFire := MkFire { f_deployment : string; f_expr : string; f_tz : string; f_occ : Z; f_skipped : Z }.

(** MAX(scheduled_at) over a deployment's runs. *)
Definition watermark (d : ddb) (id : string) : option Z :=
  foldr (fun kv m => if String.eqb (r_deployment kv.2) id
                     then match r_scheduled_at kv.2, m with Some u, Some m => Some (Z.max u m) | Some u, None => Some u | None, m => m end
                     else m) None (map_to_list (runs d)).

(** The occurrences ahead of [occ] in an ascending list. *)
Fixpoint count_before (batch : list Z) (occ : Z) : Z :=
  match batch with
  | t :: batch' => if t <? occ then 1 + count_before batch' occ else 0
  | [] => 0
  end.

Definition occurrencesSkipped (expr tz : string) (lower occ : Z) : result cron_error Z :=
  try batch <- Upcoming LoadLocation expr tz lower deploymentSkipScanCap;
  Ok (count_before batch occ).

Definition scan_floor (d : ddb) (id : string) (row : deployment) : Z :=
  match watermark d id with
  | Some w => if d_resumed_at row <? w then w else d_resumed_at row
  | None => d_resumed_at row
  end.

(** The fire one row calls for at [now]. *)
Definition scan_row (d : ddb) (now : Z) (id : string) (row : deployment) : result cron_error (option deploymentFire) :=
  match d_schedule row, d_archived_at row, d_paused_at row with
  | Some (expr, tz), None, None =>
      let lower := scan_floor d id row in
      if negb (lower <? now) then Ok None
      else
        let w := now - deploymentCatchupWindow in
        let fireFloor := if lower <? w then w else lower in
        try due <- Due LoadLocation expr tz fireFloor now;
        match last due with
        | None => Ok None
        | Some occ =>
            try skipped <- (if lower <? fireFloor then occurrencesSkipped expr tz lower occ else Ok (Z.of_nat (length due) - 1));
            Ok (Some (MkFire id expr tz occ skipped))
        end
  | _, _, _ => Ok None
  end.

(** A row the clock cannot walk costs its own fires alone. *)
Definition tick_scan (d : ddb) (now : Z) : list deploymentFire * list (string * cron_error) :=
  foldr (fun kv acc => match scan_row d now kv.1 kv.2 with
                       | Ok (Some f) => (f :: acc.1, acc.2)
                       | Ok None => acc
                       | Err e => (acc.1, (kv.1, e) :: acc.2)
                       end) ([], []) (map_to_list (deployments d)).

(** ** The fire *)

(** What befalls a fire's transaction: nothing; a lock wait given up on at one of the two
    statements of its claim; a deadlock, a shutdown or a failure anywhere, which roll it back. *)
Inductive weather := Fair | LockLostAtRead | LockLostAtClaim | Deadlocked | ShuttingDown | Broken.

(** The clock of the transaction, the id it mints, the session's creation. *)
Record firing := MkFiring { fi_weather : weather; fi_now : Z; fi_run : string; fi_create : createSessionIn -> fire_result }.

Inductive fire_outcome := FireLost | FireCreated | FireFailed (typ : string).

(** The re-read's row: still live, still on the schedule the occurrence belongs to. *)
Definition still_due (row : deployment) (f : deploymentFire) : bool :=
  bool_decide (d_archived_at row = None) && bool_decide (d_paused_at row = None) &&
  bool_decide (d_schedule row = Some (f_expr f, f_tz f)) && (d_resumed_at row <? f_occ f).

Definition auto_pause (row : deployment) (now : Z) (typ : string) : deployment :=
  with_pause row (Some now) (Some PausedError) (Some typ) (d_resumed_at row) now.

Definition fireScheduledTx (fi : firing) (f : deploymentFire) (d : ddb) : result run_error (fire_outcome * ddb) :=
  let now := fi_now fi in
  match fi_weather fi with
  | Deadlocked => Err RunDeadlock
  | ShuttingDown | Broken => Err RunInfra
  | LockLostAtRead => Ok (FireLost, d)
  | w =>
      match deployments d !! f_deployment f with
      | None => Ok (FireLost, d)
      | Some row =>
          if negb (still_due row f) then Ok (FireLost, d)
          else if match w with LockLostAtClaim => true | _ => claimed d (f_deployment f) (f_occ f) end then Ok (FireLost, d)
          else
            try d <- insert_run d (fi_run fi) (new_run (f_deployment f) "schedule" (Some (f_occ f)) row now);
            match fi_create fi (deploymentSessionIn (f_deployment f) row) with
            | Unclassified => Err RunUnclassified
            | Classified typ what =>
                try d <- settleRun d (fi_run fi) now (inr (typ, runWording what));
                Ok (FireFailed typ,
                    if mem_string typ deploymentPausingErrorTypes then with_deployment d (f_deployment f) (auto_pause row now typ) else d)
            | Fired sid =>
                try d <- settleRun d (fi_run fi) now (inl sid);
                Ok (FireCreated, d)
            end
      end
  end.

(** What a fire leaves on the counters, and whether it reports an error. *)
Inductive fired := Quiet | Stopped | Abandoned | Counted (o : fire_outcome) (skipped : Z).

Definition fireScheduled (fi : firing) (f : deploymentFire) (d : ddb) : fired * ddb :=
  match fireScheduledTx fi f d with
  | Err RunDeadlock => (Quiet, d)
  | Err _ => (match fi_weather fi with ShuttingDown => Stopped | _ => Abandoned end, d)
  | Ok (FireLost, _) => (Quiet, d)
  | Ok (o, d') => (Counted o (f_skipped f), d')
  end.

(** The sweep of one replica with nothing in between its fires. *)
Fixpoint fire_all (fe : deploymentFire -> firing) (fires : list deploymentFire) (d : ddb) : list fired * ddb :=
  match fires with
  | [] => ([], d)
  | f :: fires' => let '(o, d) := fireScheduled (fe f) f d in let '(os, d) := fire_all fe fires' d in (o :: os, d)
  end.

Definition deploymentTick (now : Z) (fe : deploymentFire -> firing) (d : ddb) : list fired * list (string * cron_error) * ddb :=
  let '(fires, errs) := tick_scan d now in
  let '(os, d) := fire_all fe fires d in (os, errs, d).

(** ** What a reader sees of the schedule *)

Definition upcomingRunsCount : Z := 5.

(** The scheduled run that succeeded with the latest occurrence. *)
Definition last_run (d : ddb) (id : string) : option drun :=
  foldr (fun kv m =>
    if String.eqb (r_deployment kv.2) id && String.eqb (r_trigger kv.2) "schedule" && bool_decide (is_Some (r_succeeded_at kv.2))
    then match r_scheduled_at kv.2 with
         | None => m
         | Some u => match m with
                     | Some r => if default u (r_scheduled_at r) <=? u then Some kv.2 else m
                     | None => Some kv.2
                     end
         end
    else m) None (map_to_list (runs d)).

(** [fillScheduleTimestamps], of one row: [upcoming_runs_at] and [last_run_at]. *)
Definition fillScheduleTimestamps (d : ddb) (wall : Z) (id : string) (row : deployment) : result cron_error (option (list Z * option Z)) :=
  match d_schedule row with
  | None => Ok None
  | Some (expr, tz) =>
      try upcoming <- (if bool_decide (is_Some (d_archived_at row)) then Ok [] else Upcoming LoadLocation expr tz wall upcomingRunsCount);
      Ok (Some (upcoming, r_created_at <$> last_run d id))
  end.
End api.
