(* ===== verification/DeploySpec.v ===== *)
(** * DeploySpec: what the scheduler fires, and when (Deploy.v)

    The scan against the schedule's occurrences; one sweep end to end; and, over every
    interleaving of sweeps, manual runs and management requests, what the tables hold. *)
From Stdlib Require Import Lia.
From S2P Require Import Prelude GoStrings GoTime Ids Json Domain Inbound Cron CronSpec CronWalk CronMain Deploy.

(** ** The scan *)

Lemma count_before_sorted batch occ : StronglySorted Z.lt batch ->
  count_before batch occ = Z.of_nat (length (filter (fun t => t < occ) batch)).
Proof.
  induction 1 as [|t batch _ IH Hall]; [done|]. cbn [count_before]. rewrite filter_cons. destruct (Z.ltb_spec t occ) as [Hlt|Hge].
  - rewrite decide_True by done. cbn [length]. rewrite IH. lia.
  - rewrite decide_False by lia. rewrite filter_all_false; [done|].
    eapply Forall_impl; [exact Hall|]. cbn. lia.
Qed.

Section zones.
Context (LoadLocation : string -> option location) (since : Z).
Context (zones : forall tz loc, loadLocation LoadLocation tz = Ok loc -> ZoneOK loc since).

(** An expression and a zone, read. *)
Definition walks (expr tz : string) (s : schedule) (loc : location) : Prop := parse expr = Ok s /\ loadLocation LoadLocation tz = Ok loc.

(** A count of the occurrences passed over, exact up to the scan's cap. *)
Definition counts (n : Z) (passed : list Z) : Prop :=
  n = Z.of_nat (length passed) \/ (n = deploymentSkipScanCap /\ deploymentSkipScanCap <= Z.of_nat (length passed)).

Definition passed_over (s : schedule) (loc : location) (lower u : Z) (passed : list Z) : Prop :=
  StronglySorted Z.lt passed /\ forall v, v ∈ passed <-> scheduled s loc lower v /\ v < u.

Lemma passed_exists expr tz s loc lower u : walks expr tz s loc -> recent since lower -> lower < u -> u - 1 <> zero_time ->
  exists passed, passed_over s loc lower u passed.
Proof.
  intros [Hp Hl] Hr Hlt Hz. destruct (Due_exact LoadLocation expr tz s loc since Hp Hl (ZoneOK0 := zones _ _ Hl) lower (u - 1) Hr) as (l & _ & Hs & Hin);
    [lia|done|]. exists l. split; [done|]. intros v. rewrite Hin. split; intros [? ?]; (split; [done|lia]).
Qed.

Lemma occurrencesSkipped_counts expr tz s loc lower u passed : walks expr tz s loc -> recent since lower ->
  passed_over s loc lower u passed -> exists n, occurrencesSkipped LoadLocation expr tz lower u = Ok n /\ counts n passed.
Proof.
  intros [Hp Hl] Hr [Hps Hpin].
  destruct (Upcoming_first LoadLocation expr tz s loc since Hp Hl (ZoneOK0 := zones _ _ Hl) lower deploymentSkipScanCap Hr)
    as (l & Hu & Hs & Hlen & Hin & Hout); [done|].
  exists (count_before l u). unfold occurrencesSkipped. rewrite Hu. split; [done|]. rewrite count_before_sorted by done.
  pose proof (StronglySorted_filter Z.lt (fun t => t < u) l Hs) as Hfs.
  destruct (decide (Forall (fun v => v ∈ l) passed)) as [Hall|Hmiss].
  - left. f_equal. f_equal. apply (strictly_sorted_ext Z.lt); [exact Hfs|exact Hps|]. intros v. rewrite list_elem_of_filter, Hpin.
    rewrite Forall_forall in Hall. split; [intros [? ?]; auto|]. intros [? ?]. split; [done|]. apply Hall, Hpin. done.
  - right. apply not_Forall_Exists in Hmiss; [|apply _]. apply Exists_exists in Hmiss as (v & Hv & Hnin). cbn in Hnin.
    apply Hpin in Hv as [Hv Hvu]. destruct (Hout v Hv Hnin) as [Hfull Hbelow].
    rewrite (filter_all_true (fun t => t < u) l) by (apply Forall_forall; intros x Hx; specialize (Hbelow x Hx); cbn; lia).
    split; [done|]. rewrite <- Hfull. apply inj_le. apply submseteq_length. apply NoDup_submseteq.
    + by apply (strictly_sorted_NoDup Z.lt).
    + intros x Hx. apply Hpin. split; [by apply Hin|]. specialize (Hbelow x Hx). lia.
Qed.

(** The row may fire, on this schedule. *)
Definition runs_on (row : deployment) (expr tz : string) : Prop :=
  d_schedule row = Some (expr, tz) /\ d_archived_at row = None /\ d_paused_at row = None.

(** Behind this an occurrence no longer fires: claimed already, from before the schedule
    (re)started, or older than the window. *)
Definition fire_floor (d : ddb) (now : Z) (id : string) (row : deployment) : Z :=
  Z.max (scan_floor d id row) (now - deploymentCatchupWindow).

(** The fire of a row is its latest occurrence due, and the count it carries is what it
    passed over. *)
Definition calls_for (d : ddb) (now : Z) (id : string) (row : deployment) (s : schedule) (loc : location) (f : deploymentFire) : Prop :=
  f_deployment f = id /\ d_schedule row = Some (f_expr f, f_tz f) /\
  scheduled s loc (fire_floor d now id row) (f_occ f) /\ f_occ f <= now /\
  (forall v, scheduled s loc (fire_floor d now id row) v -> v <= now -> v <= f_occ f) /\
  exists passed, passed_over s loc (scan_floor d id row) (f_occ f) passed /\ counts (f_skipped f) passed.

Lemma sorted_last (l : list Z) x : StronglySorted Z.lt l -> last l = Some x -> exists pre, l = pre ++ [x] /\ StronglySorted Z.lt pre /\
  (forall v, v ∈ pre <-> v ∈ l /\ v < x) /\ forall v, v ∈ l -> v <= x.
Proof.
  intros Hs [pre ->]%last_Some. exists pre. split; [done|].
  assert (Hb : forall v, v ∈ pre -> v < x) by (intros v Hv; exact (StronglySorted_app_1_elem_of _ _ _ v x Hs Hv (list_elem_of_here _ _))).
  split; [by eapply StronglySorted_app_1_l|]. split; intros v; rewrite elem_of_app, list_elem_of_singleton.
  - split; [auto|]. intros [[?| ->] ?]; [done|lia].
  - intros [Hv | ->]; [specialize (Hb v Hv); lia|lia].
Qed.

(** For a row that may fire, the scan fires exactly the latest occurrence that is neither claimed, nor from
    before the schedule's start or resumption, nor an hour old — and nothing when there is none; with it goes the
    number of occurrences passed over since the last claim, exact up to a thousand. *)
Theorem scan_row_exact d now id row expr tz s loc : runs_on row expr tz -> walks expr tz s loc ->
  recent since (scan_floor d id row) -> zero_time + hour < now ->
  match scan_row LoadLocation d now id row with
  | Ok (Some f) => calls_for d now id row s loc f
  | Ok None => forall v, scheduled s loc (fire_floor d now id row) v -> now < v
  | Err _ => False
  end.
Proof.
  intros (Hsch & Har & Hpa) Hw Hr Hz. pose proof Hw as [Hp Hl]. unfold scan_row. rewrite Hsch, Har, Hpa. set (lower := scan_floor d id row) in *.
  destruct (Z.ltb_spec lower now) as [Hlt|Hge]; cbn [negb].
  2: { intros v (Hv & _). unfold fire_floor in Hv. fold lower in Hv. lia. }
  assert (Hfloor : (if lower <? now - deploymentCatchupWindow then now - deploymentCatchupWindow else lower) = fire_floor d now id row).
  { unfold fire_floor. fold lower. destruct (Z.ltb_spec lower (now - deploymentCatchupWindow)); lia. }
  rewrite Hfloor. set (floor := fire_floor d now id row) in *.
  assert (Hle : lower <= floor < now /\ now - hour <= floor)
    by (unfold floor, fire_floor, deploymentCatchupWindow, hour, minute, second in *; fold lower; lia).
  assert (Hzf : zero_time < now) by (unfold hour, minute, second in Hz; lia).
  assert (Hrf : recent since floor) by (apply (recent_mono since lower); [done|lia]).
  destruct (Due_exact LoadLocation expr tz s loc since Hp Hl (ZoneOK0 := zones _ _ Hl) floor now Hrf) as (due & Hdue & Hs & Hin); [lia|lia|].
  rewrite Hdue. destruct (last due) as [occ|] eqn:Elast.
  2: { apply last_None in Elast as ->. intros v Hv. destruct (Z.lt_ge_cases now v); [done|]. exfalso. by apply (not_elem_of_nil v), Hin. }
  destruct (sorted_last due occ Hs Elast) as (pre & -> & Hps & Hpre & Htop).
  pose proof (proj1 (Hin occ) ltac:(by apply last_Some_elem_of)) as [Hocc Hnow]. pose proof Hocc as [Hfo _].
  assert (Hcalls : forall n passed, passed_over s loc lower occ passed -> counts n passed ->
    calls_for d now id row s loc (MkFire id expr tz occ n)).
  { intros n passed Hpo Hc. split_and!; cbn; [done..| | |by exists passed]; [done|]. intros v Hv Hvn. by apply Htop, Hin. }
  destruct (Z.ltb_spec lower floor) as [Hcl|Heq].
  - destruct (passed_exists expr tz s loc lower occ Hw Hr) as [passed Hpo]; [lia|lia|].
    destruct (occurrencesSkipped_counts expr tz s loc lower occ passed Hw Hr Hpo) as (n & -> & Hc). by apply (Hcalls _ passed).
  - assert (lower = floor) as He by lia. apply (Hcalls _ pre); [|left; rewrite length_app; cbn; lia].
    split; [done|]. intros v. rewrite Hpre, Hin, He. split; [intros [[? _] ?]; done|]. intros [? ?]. split; [|done]. split; [done|lia].
Qed.

(** ** One fire *)

(** A committed run has a session or an error the table takes, never both nor neither. *)
Definition settled (r : drun) : Prop :=
  (is_Some (r_session r) /\ r_error r = None /\ is_Some (r_succeeded_at r)) \/
  (r_session r = None /\ r_succeeded_at r = None /\ exists typ msg, r_error r = Some (typ, msg) /\ mem_string typ run_error_types = true).

(** The transaction that made the run [r]. *)
Record adds (d d' : ddb) (rid : string) (r : drun) : Prop := {
  add_fresh : runs d !! rid = None;
  add_runs : runs d' = <[rid := r]> (runs d);
  add_settled : settled r }.

Lemma insert_settle d d1 d2 rid dep trig occ row now out : insert_run d rid (new_run dep trig occ row now) = Ok d1 ->
  settleRun d1 rid now out = Ok d2 -> exists r, adds d d2 rid r /\ deployments d2 = deployments d /\
    r_deployment r = dep /\ r_trigger r = trig /\ r_scheduled_at r = occ /\ r_created_at r = now /\
    (forall typ msg, out = inr (typ, msg) -> r_error r = Some (typ, msg)).
Proof.
  unfold insert_run. case_bool_decide as Hf; [done|]. rewrite <- eq_None_not_Some in Hf. intros [= <-]. unfold settleRun. cbn [with_run runs]. rewrite lookup_insert_eq.
  destruct out as [sid|[typ msg]]; [intros [= <-]|destruct (mem_string typ run_error_types) eqn:Et; [|done]; intros [= <-]];
    eexists; (split; [split; cbn; [done|by rewrite insert_insert_eq|]|split_and!; try done]).
  - left. cbn. eauto.
  - right. cbn. split_and!; [done|done|]. by exists typ, msg.
  - by intros ? ? [= -> ->].
Qed.

Lemma claimed_spec d id occ : claimed d id occ = true <->
  exists rid r, runs d !! rid = Some r /\ r_deployment r = id /\ r_scheduled_at r = Some occ.
Proof.
  unfold claimed. rewrite existsb_exists. split.
  - intros ([rid r] & Hin & H). apply list_elem_of_In, elem_of_map_to_list in Hin. apply andb_true_iff in H as [H1 H2].
    exists rid, r. split; [done|]. split; [by apply String.eqb_eq|]. by apply bool_decide_eq_true in H2.
  - intros (rid & r & Hr & Hd & Ho). exists (rid, r). split; [by apply list_elem_of_In, elem_of_map_to_list|]. cbn.
    by rewrite Hd, String.eqb_refl, bool_decide_true.
Qed.

Lemma still_due_spec row f : still_due row f = true <->
  d_archived_at row = None /\ d_paused_at row = None /\ d_schedule row = Some (f_expr f, f_tz f) /\ d_resumed_at row < f_occ f.
Proof. unfold still_due. rewrite !andb_true_iff, !bool_decide_eq_true, Z.ltb_lt. tauto. Qed.

(** What a fire that commits does: on a row still due, for an occurrence no run claims. *)
Definition commits (fi : firing) (f : deploymentFire) (d d' : ddb) : Prop :=
  exists row r, deployments d !! f_deployment f = Some row /\ still_due row f = true /\ claimed d (f_deployment f) (f_occ f) = false /\
    adds d d' (fi_run fi) r /\ r_deployment r = f_deployment f /\ r_trigger r = "schedule" /\ r_scheduled_at r = Some (f_occ f) /\
    r_created_at r = fi_now fi /\
    (deployments d' = deployments d \/
     exists typ msg, r_error r = Some (typ, msg) /\ mem_string typ deploymentPausingErrorTypes = true /\
       deployments d' = <[f_deployment f := auto_pause row (fi_now fi) typ]> (deployments d)).

Lemma fireScheduled_cases fi f d : (fireScheduled fi f d).2 = d \/ commits fi f d (fireScheduled fi f d).2.
Proof.
  unfold fireScheduled. destruct (fireScheduledTx fi f d) as [[o d']|e] eqn:H; [|left; by destruct e].
  revert H. unfold fireScheduledTx. destruct (deployments d !! f_deployment f) as [row|] eqn:Hrow;
    [|by destruct (fi_weather fi); intros [= <- <-] || intros; left].
  destruct (fi_weather fi); try done; try (intros [= <- <-]; by left);
    (destruct (still_due row f) eqn:Hdue; cbn [negb]; [|intros [= <- <-]; by left]); [|intros [= <- <-]; by left].
  destruct (claimed d (f_deployment f) (f_occ f)) eqn:Hc; [intros [= <- <-]; by left|].
  destruct (insert_run _ _ _) as [d1|] eqn:Hi; [|done]. intros H. right.
  destruct (fi_create fi _) as [sid|typ what|] eqn:Hcr; [| |done].
  - destruct (settleRun _ _ _ _) as [d2|] eqn:Hs; [|done]. injection H as <- <-. cbn [snd].
    destruct (insert_settle _ _ _ _ _ _ _ _ _ _ Hi Hs) as (r & Ha & Hd & H1 & H2 & H3 & H4 & _). exists row, r. split_and!; try done. by left.
  - destruct (settleRun _ _ _ _) as [d2|] eqn:Hs; [|done].
    destruct (insert_settle _ _ _ _ _ _ _ _ _ _ Hi Hs) as (r & [Hf Hr Hse] & Hd & H1 & H2 & H3 & H4 & He).
    destruct (mem_string typ deploymentPausingErrorTypes) eqn:Et; injection H as <- <-; cbn [snd]; exists row, r.
    + split_and!; try done. right. eexists _, _. split; [by apply He|]. split; [done|].
      cbn [with_deployment deployments]. by rewrite Hd.
    + split_and!; try done. by left.
Qed.

(** ** A sweep *)

Lemma watermark_covers d id rid r u : runs d !! rid = Some r -> r_deployment r = id -> r_scheduled_at r = Some u ->
  exists w, watermark d id = Some w /\ u <= w.
Proof.
  intros Hr Hd Hu. apply elem_of_map_to_list in Hr. unfold watermark. induction (map_to_list (runs d)) as [|kv l IH]; [by apply not_elem_of_nil in Hr|].
  cbn [foldr]. apply elem_of_cons in Hr as [<- | Hr].
  - cbn. rewrite Hd, String.eqb_refl, Hu. destruct (foldr _ _ _) as [m|]; [exists (Z.max u m)|exists u]; (split; [done|lia]).
  - destruct (IH Hr) as (w & -> & Hw). destruct (String.eqb _ _); [|eauto]. destruct (r_scheduled_at kv.2) as [v|]; [|eauto].
    exists (Z.max v w). split; [done|lia].
Qed.

Lemma scan_floor_bounds d id row : d_resumed_at row <= scan_floor d id row /\ forall w, watermark d id = Some w -> w <= scan_floor d id row.
Proof.
  unfold scan_floor. destruct (watermark d id) as [w|]; [|by split; [lia|]]. destruct (Z.ltb_spec (d_resumed_at row) w); (split; [lia|intros ? [= <-]; lia]).
Qed.

Lemma scan_row_id d now id row f : scan_row LoadLocation d now id row = Ok (Some f) -> f_deployment f = id.
Proof.
  unfold scan_row. destruct (d_schedule row) as [[expr tz]|]; [|done]. destruct (d_archived_at row); [done|]. destruct (d_paused_at row); [done|].
  destruct (negb _); [done|]. destruct (Due _ _ _ _ _) as [due|]; [|done]. destruct (last due); [|done].
  match goal with |- context [if ?b then ?x else ?y] => destruct (if b then x else y) as [n|] end; [|done]. by intros [= <-].
Qed.

(** The fires of the scan, at most one a deployment. *)
Lemma scan_fold d now (l : list (string * deployment)) : NoDup (map fst l) ->
  let out := foldr (fun (kv : string * deployment) (acc : list deploymentFire * list (string * cron_error)) => match scan_row LoadLocation d now kv.1 kv.2 with
                                  | Ok (Some f) => (f :: acc.1, acc.2)
                                  | Ok None => acc
                                  | Err e => (acc.1, (kv.1, e) :: acc.2)
                                  end) ([], []) l in
  NoDup (map f_deployment out.1) /\
  (forall f, f ∈ out.1 <-> exists id row, (id, row) ∈ l /\ scan_row LoadLocation d now id row = Ok (Some f)) /\
  (forall id e, (id, e) ∈ out.2 <-> exists row, (id, row) ∈ l /\ scan_row LoadLocation d now id row = Err e).
Proof.
  induction l as [|[k row] l IH]; cbn [map foldr fst snd].
  - intros _. split; [constructor|]. split; [intros f|intros id e]; (split; [by intros ?%not_elem_of_nil|]).
    + by intros (? & ? & ?%not_elem_of_nil & _).
    + by intros (? & ?%not_elem_of_nil & _).
  - intros [Hk Hnd]%NoDup_cons. destruct (IH Hnd) as (IHn & IHf & IHe). set (acc := foldr _ _ l) in *.
    assert (Hmore : forall id o, (exists row', (id, row') ∈ (k, row) :: l /\ scan_row LoadLocation d now id row' = o) <->
      (id = k /\ scan_row LoadLocation d now k row = o) \/ exists row', (id, row') ∈ l /\ scan_row LoadLocation d now id row' = o).
    { intros id o. setoid_rewrite elem_of_cons. split.
      - intros (row' & [[= -> ->] | Hin] & Hs); [by left|right; eauto].
      - intros [[-> Hs] | (row' & ? & ?)]; eauto 10. }
    assert (Hnew : forall f, f ∈ acc.1 -> scan_row LoadLocation d now k row = Ok (Some f) -> False).
    { intros f (id & row' & Hin & Hs)%IHf Hs'. apply Hk. rewrite <- (scan_row_id _ _ _ _ _ Hs'), (scan_row_id _ _ _ _ _ Hs).
      apply list_elem_of_fmap. by exists (id, row'). }
    destruct (scan_row LoadLocation d now k row) as [[f0|]|e0] eqn:E; cbn [fst snd].
    + split_and!.
      * cbn. apply NoDup_cons. split; [|done]. intros (f & Hid & Hf)%list_elem_of_fmap. pose proof Hf as (id & row' & Hin & Hs)%IHf.
        apply Hk. rewrite <- (scan_row_id _ _ _ _ _ E), Hid, (scan_row_id _ _ _ _ _ Hs). apply list_elem_of_fmap. by exists (id, row').
      * intros f. rewrite elem_of_cons, IHf. setoid_rewrite Hmore. split; [intros [-> | (id & ?)]; eauto|].
        intros (id & [[-> [= ->]] | ?]); eauto.
      * intros id e. rewrite IHe, Hmore. split; [auto|]. by intros [[_ ?]|?].
    + split_and!; [done| |].
      * intros f. rewrite IHf. setoid_rewrite Hmore. split; [intros (id & ?); eauto|]. intros (id & [[_ ?] | ?]); [done|eauto].
      * intros id e. rewrite IHe, Hmore. split; [auto|]. by intros [[_ ?]|?].
    + split_and!; [done| |].
      * intros f. rewrite IHf. setoid_rewrite Hmore. split; [intros (id & ?); eauto|]. intros (id & [[_ ?] | ?]); [done|eauto].
      * intros id e. rewrite elem_of_cons, IHe, Hmore. split; [intros [[= -> ->] | ?]; auto|]. intros [[-> [= ->]]|?]; auto.
Qed.

Lemma tick_scan_fires d now : NoDup (map f_deployment (tick_scan LoadLocation d now).1) /\
  forall f, f ∈ (tick_scan LoadLocation d now).1 <->
    exists id row, deployments d !! id = Some row /\ scan_row LoadLocation d now id row = Ok (Some f).
Proof.
  destruct (scan_fold d now (map_to_list (deployments d)) (NoDup_fst_map_to_list _)) as (Hn & Hf & _). split; [exact Hn|].
  intros f. unfold tick_scan. rewrite (Hf f). by setoid_rewrite elem_of_map_to_list.
Qed.

(** A fire of another deployment leaves this one's row and runs alone. *)
Definition same_for (id : string) (d d' : ddb) : Prop :=
  deployments d' !! id = deployments d !! id /\
  forall rid r, r_deployment r = id -> (runs d' !! rid = Some r <-> runs d !! rid = Some r).

Lemma adds_other d d' rid r id : adds d d' rid r -> r_deployment r <> id ->
  forall rid' r', r_deployment r' = id -> (runs d' !! rid' = Some r' <-> runs d !! rid' = Some r').
Proof.
  intros [Hf Hr _] Hne rid' r' Hid. rewrite Hr. destruct (decide (rid' = rid)) as [->|Hr']; [|by rewrite lookup_insert_ne].
  rewrite lookup_insert_eq, Hf. split; [|done]. by intros [= ->].
Qed.

Lemma fire_other fi f d id : f_deployment f <> id -> same_for id d (fireScheduled fi f d).2.
Proof.
  intros Hne. destruct (fireScheduled_cases fi f d) as [-> | (row & r & _ & _ & _ & Ha & Hd & _ & _ & _ & Hdep)]; [done|]. split.
  - destruct Hdep as [-> | (? & ? & _ & _ & ->)]; [done|]. by rewrite lookup_insert_ne.
  - eapply adds_other; [exact Ha|by rewrite Hd].
Qed.

Lemma fire_all_other fe fires id : (forall f, f ∈ fires -> f_deployment f <> id) -> forall d, same_for id d (fire_all fe fires d).2.
Proof.
  induction fires as [|f fires IH]; intros Hne d; [done|]. cbn [fire_all].
  pose proof (fire_other (fe f) f d id (Hne f (list_elem_of_here _ _))) as [H1 H2].
  destruct (fireScheduled (fe f) f d) as [o d1]. cbn [snd] in H1, H2.
  destruct (IH (fun g Hg => Hne g (list_elem_of_further _ _ _ Hg)) d1) as [H3 H4]. destruct (fire_all fe fires d1) as [os d2]. cbn [snd] in H3, H4 |- *.
  split; [congruence|]. intros rid r Hr. by rewrite H4, H2.
Qed.

Lemma fire_all_fresh fe fires rid : (forall f, f ∈ fires -> fi_run (fe f) <> rid) -> forall d, runs d !! rid = None -> runs (fire_all fe fires d).2 !! rid = None.
Proof.
  induction fires as [|f fires IH]; intros Hne d Hd; [done|]. cbn [fire_all].
  pose proof (fireScheduled_cases (fe f) f d) as Hc. destruct (fireScheduled (fe f) f d) as [o d1]. cbn [snd] in Hc.
  assert (Hd1 : runs d1 !! rid = None).
  { destruct Hc as [-> | (row & r & _ & _ & _ & [_ -> _] & _)]; [done|]. rewrite lookup_insert_ne; [done|]. apply Hne. left. }
  pose proof (IH (fun g Hg => Hne g (list_elem_of_further _ _ _ Hg)) d1 Hd1) as H. by destruct (fire_all fe fires d1).
Qed.

Lemma fire_all_app fe l1 l2 d : fire_all fe (l1 ++ l2) d =
  let '(o1, d1) := fire_all fe l1 d in let '(o2, d2) := fire_all fe l2 d1 in (o1 ++ o2, d2).
Proof.
  revert d. induction l1 as [|f l1 IH]; intros d; cbn [fire_all app]; [by destruct (fire_all fe l2 d)|].
  destruct (fireScheduled (fe f) f d) as [o d1]. rewrite IH. destruct (fire_all fe l1 d1) as [o1 d2]. by destruct (fire_all fe l2 d2).
Qed.

(** A creation a run can record. *)
Definition recordable (fr : fire_result) : Prop :=
  match fr with Fired _ => True | Classified typ _ => mem_string typ run_error_types = true | Unclassified => False end.

Lemma fire_fair fi f d row : deployments d !! f_deployment f = Some row -> still_due row f = true -> claimed d (f_deployment f) (f_occ f) = false ->
  runs d !! fi_run fi = None -> fi_weather fi = Fair -> recordable (fi_create fi (deploymentSessionIn (f_deployment f) row)) ->
  (exists o, (fireScheduled fi f d).1 = Counted o (f_skipped f)) /\ commits fi f d (fireScheduled fi f d).2.
Proof.
  intros Hrow Hdue Hc Hf Hw Hcr.
  assert (Htx : exists o d', fireScheduledTx fi f d = Ok (o, d') /\ o <> FireLost).
  { unfold fireScheduledTx, insert_run. rewrite Hw, Hrow, Hdue, Hc, bool_decide_false by (by rewrite Hf; intros [? ?]). cbn [negb].
    destruct (fi_create fi _) as [sid|typ what|]; [| |done]; unfold settleRun; cbn [with_run runs]; rewrite lookup_insert_eq; [by eauto|].
    unfold recordable in Hcr. rewrite Hcr. by eauto. }
  destruct Htx as (o & d' & Htx & Ho). assert (Hfs : fireScheduled fi f d = (Counted o (f_skipped f), d')).
  { unfold fireScheduled. rewrite Htx. by destruct o. }
  rewrite Hfs. split; [by eexists|]. destruct (fireScheduled_cases fi f d) as [Hsame | H]; rewrite Hfs in *; [|done].
  exfalso. cbn [snd] in Hsame. subst d'. revert Htx. unfold fireScheduledTx, insert_run.
  rewrite Hw, Hrow, Hdue, Hc, bool_decide_false by (by rewrite Hf; intros [? ?]). cbn [negb].
  assert (Hsome : forall out d2, settleRun (with_run d (fi_run fi) (new_run (f_deployment f) "schedule" (Some (f_occ f)) row (fi_now fi))) (fi_run fi) (fi_now fi) out = Ok d2 ->
    is_Some (runs d2 !! fi_run fi)).
  { intros out d2. unfold settleRun. cbn [with_run runs]. rewrite lookup_insert_eq. destruct out as [?|[t ?]]; [|destruct (mem_string t run_error_types); [|done]];
      intros [= <-]; cbn [with_run runs]; rewrite lookup_insert_eq; eauto. }
  destruct (fi_create fi _) as [sid|typ what|]; [| |done]; (destruct (settleRun _ _ _ _) as [d2|] eqn:Hs; [|done]); intros H; apply Hsome in Hs as [? Hs'].
  - injection H as _ ->. congruence.
  - destruct (mem_string typ deploymentPausingErrorTypes); injection H as _ H.
    + rewrite <- H in Hf. cbn [with_deployment runs] in Hf. congruence.
    + congruence.
Qed.

(** C35: Whatever else one sweep fires and however those fires end, a deployment that may run and has an
    occurrence due gets exactly one run of it — its latest, counted with what it passed over, settled on a
    session or an error — unless the database or an unclassified failure stops that fire. *)
Theorem tick_fires_once d now fe id row expr tz s loc : deployments d !! id = Some row -> runs_on row expr tz -> walks expr tz s loc ->
  recent since (scan_floor d id row) -> zero_time + hour < now ->
  (exists u, scheduled s loc (fire_floor d now id row) u /\ u <= now) ->
  (forall f, runs d !! fi_run (fe f) = None) -> (forall f g, fi_run (fe f) = fi_run (fe g) -> f_deployment f = f_deployment g) ->
  (forall f, f_deployment f = id -> fi_weather (fe f) = Fair /\ recordable (fi_create (fe f) (deploymentSessionIn id row))) ->
  let '(os, errs, d') := deploymentTick LoadLocation now fe d in
  exists f r o, calls_for d now id row s loc f /\ Counted o (f_skipped f) ∈ os /\
    runs d' !! fi_run (fe f) = Some r /\ r_deployment r = id /\ r_scheduled_at r = Some (f_occ f) /\ settled r /\
    forall rid r', r_deployment r' = id -> runs d' !! rid = Some r' -> (rid = fi_run (fe f) /\ r' = r) \/ runs d !! rid = Some r'.
Proof.
  intros Hrow Hon Hw Hr Hz (u & Hu & Hun) Hfresh Hinj Hfair.
  pose proof (scan_row_exact d now id row expr tz s loc Hon Hw Hr Hz) as Hscan.
  destruct (scan_row LoadLocation d now id row) as [[f|]|] eqn:Escan; [|specialize (Hscan u Hu); lia|done]. unfold deploymentTick.
  destruct (tick_scan_fires d now) as [Hnd Hin]. pose proof (proj2 (Hin f) ltac:(by exists id, row)) as Hf.
  destruct (tick_scan LoadLocation d now) as [fires errs]. cbn [fst] in Hnd, Hin, Hf.
  apply list_elem_of_split in Hf as (pre & post & ->). rewrite map_app in Hnd. cbn [map] in Hnd.
  pose proof Hscan as (Hid & Hsch & Hocc & _ & _ & _).
  assert (Hdist : forall g, g ∈ pre \/ g ∈ post -> f_deployment g <> id).
  { intros g Hg Heq. rewrite <- Hid in Heq. apply NoDup_app in Hnd as (_ & Hd1 & [Hd2 _]%NoDup_cons). destruct Hg as [Hg|Hg].
    - apply (Hd1 (f_deployment g)); [by apply list_elem_of_fmap_2|]. rewrite Heq. left.
    - apply Hd2. rewrite <- Heq. by apply list_elem_of_fmap_2. }
  rewrite fire_all_app. cbn [fire_all].
  pose proof (fire_all_other fe pre id (fun g Hg => Hdist g (or_introl Hg)) d) as [Hs1 Hs2].
  pose proof (fire_all_fresh fe pre (fi_run (fe f)) ltac:(intros g Hg Heq; apply (Hdist g (or_introl Hg)); rewrite <- Hid; by apply Hinj) d (Hfresh f)) as Hf1.
  destruct (fire_all fe pre d) as [o1 d1]. cbn [snd] in Hs1, Hs2, Hf1.
  destruct (Hfair f Hid) as [Hwf Hrec]. destruct Hocc as [Hocc _]. pose proof (scan_floor_bounds d id row) as [Hfl1 Hfl2].
  destruct (fire_fair (fe f) f d1 row) as [[o Ho] Hcom]; rewrite ?Hid; [congruence| | |done..| ].
  { apply still_due_spec. destruct Hon as (? & ? & ?). split_and!; [done..|]. unfold fire_floor in Hocc. lia. }
  { apply not_true_is_false. intros (rid & r & Hrun & Hrd & Hro)%claimed_spec. apply (Hs2 rid r Hrd) in Hrun.
    destruct (watermark_covers d id rid r _ Hrun Hrd Hro) as (w & Hwm & Hle). specialize (Hfl2 w Hwm). unfold fire_floor in Hocc. lia. }
  destruct (fireScheduled (fe f) f d1) as [o' d2]. cbn [fst snd] in Ho, Hcom. subst o'.
  destruct Hcom as (row' & r & _ & _ & _ & [_ Hruns Hset] & Hrd & _ & Hro & _ & _).
  pose proof (fire_all_other fe post id (fun g Hg => Hdist g (or_intror Hg)) d2) as [_ Hp2].
  destruct (fire_all fe post d2) as [o3 d3]. cbn [snd] in Hp2. exists f, r, o. rewrite Hid in Hrd.
  split; [done|]. split; [apply elem_of_app; right; left|]. split; [by apply Hp2; [done|]; rewrite Hruns, lookup_insert_eq|].
  split; [done|]. split; [done|]. split; [done|]. intros rid r' Hr' Hin'. apply (Hp2 rid r' Hr') in Hin'. rewrite Hruns in Hin'.
  apply lookup_insert_Some in Hin' as [[-> ->]|[_ Hin']]; [by left|right]. by apply (Hs2 rid r' Hr').
Qed.

(** ** Every interleaving *)

(** The tables, and the fires some replica has decided on, each with the clock its scan
    read.  A fire may be tried any number of times, by any replica. *)
Record world := MkWorld { wd : ddb; w_fires : list (Z * deploymentFire) }.

(** The instants the database's clock can read. *)
Context (epoch : Z) (Hepoch : recent since (epoch - hour)) (Hzero : zero_time + hour < epoch).

Inductive step (w : world) : world -> Prop :=
| step_scan now : epoch <= now ->
    step w (MkWorld (wd w) (map (pair now) (tick_scan LoadLocation (wd w) now).1 ++ w_fires w))
| step_fire fi f scanned : (scanned, f) ∈ w_fires w -> scanned <= fi_now fi ->
    step w (MkWorld (fireScheduled fi f (wd w)).2 (w_fires w))
| step_run now runID create id d' : epoch <= now -> runDeployment now runID create id (wd w) = Ok d' -> step w (MkWorld d' (w_fires w))
| step_create wall now id c d' : epoch <= now -> epoch <= wall -> createDeployment LoadLocation wall now id c (wd w) = Ok d' -> step w (MkWorld d' (w_fires w))
| step_update wall now id u d' : epoch <= now -> epoch <= wall -> updateDeployment LoadLocation wall now id u (wd w) = Ok d' -> step w (MkWorld d' (w_fires w))
| step_archive now id d' : epoch <= now -> archiveDeployment now id (wd w) = Ok d' -> step w (MkWorld d' (w_fires w))
| step_pause now pause id d' : epoch <= now -> setDeploymentPause now pause id (wd w) = Ok d' -> step w (MkWorld d' (w_fires w))
| step_others es ags : step w (MkWorld (MkDdb (deployments (wd w)) (runs (wd w)) es ags) (w_fires w)).

(** The CHECKs of the deployments table, and a schedule the scan can walk. *)
Definition row_ok (row : deployment) : Prop :=
  ((d_paused_at row = None /\ d_paused_kind row = None /\ d_paused_error row = None) \/
   (is_Some (d_paused_at row) /\ d_paused_kind row = Some PausedManual /\ d_paused_error row = None) \/
   (is_Some (d_paused_at row) /\ d_paused_kind row = Some PausedError /\
    exists typ, d_paused_error row = Some typ /\ mem_string typ deploymentPausingErrorTypes = true)) /\
  (forall expr tz, d_schedule row = Some (expr, tz) -> exists s loc, walks expr tz s loc) /\
  epoch <= d_resumed_at row.

(** The CHECKs of the runs table; a scheduled run began at or after its occurrence. *)
Definition run_ok (r : drun) : Prop :=
  settled r /\
  ((r_trigger r = "manual" /\ r_scheduled_at r = None) \/
   (r_trigger r = "schedule" /\ exists u, r_scheduled_at r = Some u /\ u <= r_created_at r)).

(** A decided fire: an occurrence of its own schedule, due at the scan and at most an hour
    old then. *)
Definition fire_ok (scanned : Z) (f : deploymentFire) : Prop :=
  scanned - deploymentCatchupWindow < f_occ f <= scanned /\
  exists s loc, walks (f_expr f) (f_tz f) s loc /\ occurs s loc (f_occ f).

Record tables_ok (w : world) : Prop := {
  ok_rows : forall id row, deployments (wd w) !! id = Some row -> row_ok row;
  ok_runs : forall rid r, runs (wd w) !! rid = Some r -> run_ok r;
  ok_once : forall i j ri rj u, runs (wd w) !! i = Some ri -> runs (wd w) !! j = Some rj -> r_deployment ri = r_deployment rj ->
      r_scheduled_at ri = Some u -> r_scheduled_at rj = Some u -> i = j;
  ok_fires : forall scanned f, (scanned, f) ∈ w_fires w -> fire_ok scanned f }.

Lemma scan_fire_ok d now f : epoch <= now -> (forall id row, deployments d !! id = Some row -> row_ok row) ->
  f ∈ (tick_scan LoadLocation d now).1 -> fire_ok now f.
Proof.
  intros He Hrows Hf. apply (proj2 (tick_scan_fires d now)) in Hf as (id & row & Hrow & Hs).
  destruct (Hrows id row Hrow) as (_ & Hwalk & Hres).
  assert (exists expr tz, runs_on row expr tz) as (expr & tz & Hon).
  { revert Hs. unfold scan_row, runs_on. destruct (d_schedule row) as [[expr tz]|]; [|done]. destruct (d_archived_at row); [done|].
    destruct (d_paused_at row); [done|]. eauto. }
  destruct (Hwalk expr tz (proj1 Hon)) as (s & loc & Hw).
  assert (Hrec : recent since (scan_floor d id row)).
  { apply (recent_mono since (epoch - hour)); [done|]. pose proof (proj1 (scan_floor_bounds d id row)). unfold hour, minute, second in *; lia. }
  pose proof (scan_row_exact d now id row expr tz s loc Hon Hw Hrec ltac:(lia)) as Hx. rewrite Hs in Hx.
  destruct Hx as (_ & Hsch & (Hocc & Hoc & _) & Hle & _). split; [unfold fire_floor in Hocc; lia|].
  destruct Hon as (Hsch' & _). rewrite Hsch in Hsch'. injection Hsch' as <- <-. by exists s, loc.
Qed.

Lemma check_schedule_walks wall expr tz pair : check_schedule LoadLocation wall expr tz = Ok pair -> pair = (expr, tz) /\ exists s loc, walks expr tz s loc.
Proof.
  unfold check_schedule, walks, Upcoming, compile. change (1 <? 0) with false. change (1 =? 0) with false.
  destruct (parse expr) as [s|e]; [|by destruct e]. destruct (loadLocation LoadLocation tz) as [loc|e]; [|by destruct e].
  destruct (match RestrictsBothDays expr with Ok _ => _ | Err _ => _ end); [done|]. destruct (walk s loc wall zero_time 1); [done|].
  intros [= <-]. split; [done|]. by exists s, loc.
Qed.

Lemma parsed_schedule_walks wall obj o expr tz : parseDeploymentSchedule LoadLocation wall obj = Ok o -> o = Some (Some (expr, tz)) ->
  exists s loc, walks expr tz s loc.
Proof.
  assert (Hobj : forall raw pair, schedule_object LoadLocation wall raw = Ok pair -> exists s loc, walks pair.1 pair.2 s loc).
  { intros raw pair. unfold schedule_object. destruct (body_field _ _ _ "type") as [[t|]|]; [| |done];
      (destruct (body_field _ _ _ "expression") as [ex|]; [|done]); (destruct (body_field _ _ _ "timezone") as [z|]; [|done]);
      (destruct (rejectUnknownNested _ _); [|done]); [|done].
    destruct (negb _); [done|]. destruct (String.eqb _ _); [done|]. destruct (String.eqb _ _); [done|]. destruct (_ <? _); [done|].
    intros [-> Hw]%check_schedule_walks. exact Hw. }
  unfold parseDeploymentSchedule. destruct (obj_get obj "schedule") as [raw|]; [|by intros [= <-]].
  destruct raw; [by intros [= <-]|..]; (destruct (schedule_object _ _ _) as [pair|] eqn:E; [|done]); apply Hobj in E; intros [= <-] [= ->]; exact E.
Qed.

(** *** What each transaction leaves *)

Lemma row_ok_keep row row' : row_ok row ->
  d_paused_at row' = d_paused_at row -> d_paused_kind row' = d_paused_kind row -> d_paused_error row' = d_paused_error row ->
  (forall expr tz, d_schedule row' = Some (expr, tz) -> exists s loc, walks expr tz s loc) -> d_resumed_at row' = d_resumed_at row -> row_ok row'.
Proof. intros (H1 & _ & H3) Ha Hk He Hs Hr. unfold row_ok. rewrite Ha, Hk, He, Hr. by split. Qed.

(** Only a row is written, and it is well formed. *)
Definition writes_row (id : string) (d d' : ddb) : Prop :=
  exists row, d' = with_deployment d id row /\ ((forall id row, deployments d !! id = Some row -> row_ok row) -> row_ok row).

Lemma create_writes wall now id c d d' : epoch <= now -> createDeployment LoadLocation wall now id c d = Ok d' -> writes_row id d d'.
Proof.
  intros Hnow. unfold createDeployment. destruct (validateDeploymentBounds _ _ _ _ _ _); [|done].
  destruct (parseDeploymentSchedule _ _ _) as [o|] eqn:Ep; [|done]. destruct (requireLiveEnvironment _ _); [|done].
  destruct (resolveDeploymentAgent _ _) as [[agent version]|]; [|done]. destruct (bool_decide _); [done|]. intros [= <-].
  eexists. split; [done|]. intros _. split; [by left|]. split; [|done]. cbn. intros expr tz Ho.
  destruct o as [[pair|]|]; [|done..]. cbn in Ho. injection Ho as ->. by eapply parsed_schedule_walks.
Qed.

Lemma update_writes wall now id u d d' : updateDeployment LoadLocation wall now id u d = Ok d' -> writes_row id d d'.
Proof.
  unfold updateDeployment. destruct (negb _); [done|]. destruct (parseDeploymentSchedule _ _ _) as [o|] eqn:Ep; [|done].
  unfold loadDeployment. destruct (deployments d !! id) as [row|] eqn:Hrow; [|done]. destruct (bool_decide _); [done|].
  destruct (kept_or (d_name row) _ _) as [name|]; [|done]. destruct (kept_or (d_env row) _ _) as [env|]; [|done].
  destruct (match u_env u with Some _ => _ | None => _ end); [|done].
  destruct (match u_agent u with Some _ => _ | None => _ end) as [[agent version]|]; [|done].
  destruct (validateDeploymentBounds _ _ _ _ _ _); [|done]. intros [= <-]. eexists. split; [done|]. intros Hrows.
  apply (row_ok_keep row); cbn; try done; [by apply (Hrows id)|]. intros expr tz Ho. destruct o as [[pair|]|]; [|done|].
  - injection Ho as ->. by eapply parsed_schedule_walks.
  - by apply (Hrows id row Hrow).
Qed.

Lemma archive_writes now id d d' : archiveDeployment now id d = Ok d' -> writes_row id d d'.
Proof.
  unfold archiveDeployment. destruct (negb _); [done|]. destruct (deployments d !! id) as [row|] eqn:Hrow; [|done]. intros [= <-].
  eexists. split; [done|]. intros Hrows. pose proof (Hrows id row Hrow) as Hok. apply (row_ok_keep row); try done. apply Hok.
Qed.

Lemma pause_writes now p id d d' : epoch <= now -> setDeploymentPause now p id d = Ok d' -> writes_row id d d'.
Proof.
  intros Hnow. unfold setDeploymentPause, loadDeployment. destruct (negb _); [done|]. destruct (deployments d !! id) as [row|] eqn:Hrow; [|done].
  destruct (bool_decide _); [done|]. intros [= <-]. eexists. split; [done|]. intros Hrows. destruct (Hrows id row Hrow) as (Hp & Hs & Hr).
  destruct p; unfold row_ok; cbn; (split; [|split; [exact Hs|]]); try done.
  - destruct Hp as [(-> & -> & ->)|[(Ha & -> & ->)|(Ha & -> & He)]]; cbn.
    + right; left. split_and!; [by eexists|done|done].
    + right; left. split_and!; [by destruct (d_paused_at row)|done|done].
    + right; right. split_and!; [by destruct (d_paused_at row)|done|done].
  - by left.
  - by destruct (d_paused_at row).
Qed.

Lemma runDeployment_adds now runID create id d d' : runDeployment now runID create id d = Ok d' ->
  exists row r, deployments d !! id = Some row /\ d_archived_at row = None /\ adds d d' runID r /\ deployments d' = deployments d /\
    r_deployment r = id /\ r_trigger r = "manual" /\ r_scheduled_at r = None.
Proof.
  unfold runDeployment. destruct (negb _); [done|]. destruct (deployments d !! id) as [row|] eqn:Hrow; [|done].
  case_bool_decide as Ha; [done|]. rewrite <- eq_None_not_Some in Ha. destruct (insert_run _ _ _) as [d1|] eqn:Hi; [|done].
  destruct (create _) as [sid|typ what|]; [| |done]; intros Hs;
    destruct (insert_settle _ _ _ _ _ _ _ _ _ _ Hi Hs) as (r & Had & Hd & H1 & H2 & H3 & _); exists row, r; by split_and!.
Qed.

(** *** The invariant *)

Lemma tables_ok_rows w id d' : tables_ok w -> writes_row id (wd w) d' -> tables_ok (MkWorld d' (w_fires w)).
Proof.
  intros [Hrows Hruns Honce Hfires] (row & -> & Hok). specialize (Hok Hrows). split; cbn; [|done..].
  intros id' row'. destruct (decide (id' = id)) as [->|Hne]; [rewrite lookup_insert_eq; by intros [= <-]|rewrite lookup_insert_ne by done; apply Hrows].
Qed.

Lemma tables_ok_adds w d' rid r : tables_ok w -> adds (wd w) d' rid r -> run_ok r ->
  (forall id row, deployments d' !! id = Some row -> row_ok row) ->
  (forall u, r_scheduled_at r = Some u -> claimed (wd w) (r_deployment r) u = false) -> tables_ok (MkWorld d' (w_fires w)).
Proof.
  intros [Hrows Hruns Honce Hfires] [Hfresh Hadd _] Hok Hrows' Hcl. split; cbn; [done| | |done].
  - intros rid' r'. rewrite Hadd. intros [[-> <-]|[_ H]]%lookup_insert_Some; [done|by eapply Hruns].
  - assert (Hno : forall i ri u, runs (wd w) !! i = Some ri -> r_deployment ri = r_deployment r -> r_scheduled_at ri = Some u ->
      r_scheduled_at r = Some u -> False).
    { intros i ri u Hi Hd Hu Hru. specialize (Hcl u Hru). apply not_true_iff_false in Hcl. apply Hcl, claimed_spec. by exists i, ri. }
    intros i j ri rj u. rewrite Hadd. intros [[-> <-]|[_ Hi]]%lookup_insert_Some [[-> <-]|[_ Hj]]%lookup_insert_Some Hd Hui Huj; [done| | |by eapply Honce].
    + exfalso. by eapply (Hno j rj u).
    + exfalso. by eapply (Hno i ri u).
Qed.

Lemma auto_pause_ok row now typ : row_ok row -> mem_string typ deploymentPausingErrorTypes = true -> row_ok (auto_pause row now typ).
Proof. intros (_ & Hs & Hr) Ht. split; [|split; [exact Hs|exact Hr]]. right; right. cbn -[mem_string]. split_and!; [by eexists|done|by exists typ]. Qed.

Lemma commits_rows fi f d d' : commits fi f d d' -> (forall id row, deployments d !! id = Some row -> row_ok row) ->
  forall id row, deployments d' !! id = Some row -> row_ok row.
Proof.
  intros (row & r & Hrow & _ & _ & _ & _ & _ & _ & _ & Hdep) Hrows id row'. destruct Hdep as [-> | (typ & msg & _ & Ht & ->)]; [apply Hrows|].
  intros [[<- <-]|[_ H]]%lookup_insert_Some; [|by eapply Hrows]. apply auto_pause_ok; [by eapply Hrows|done].
Qed.

Lemma commits_run_ok fi f d d' scanned : commits fi f d d' -> fire_ok scanned f -> scanned <= fi_now fi ->
  exists r, adds d d' (fi_run fi) r /\ run_ok r /\ forall u, r_scheduled_at r = Some u -> claimed d (r_deployment r) u = false.
Proof.
  intros (row & r & _ & _ & Hc & Ha & Hd & Ht & Ho & Hn & _) [[_ Hle] _] Hs. exists r. split; [done|]. split.
  - split; [apply Ha|]. right. split; [done|]. exists (f_occ f). split; [done|lia].
  - intros u. rewrite Ho, Hd. by intros [= <-].
Qed.

Lemma step_tables w w' : step w w' -> tables_ok w -> tables_ok w'.
Proof.
  intros Hs Hok. destruct Hs as [now He|fi f scanned Hin Hle|now runID create id d' He H|wall now id c d' He Hw H|wall now id u d' He Hw H|now id d' He H|now p id d' He H|es ags].
  - destruct Hok as [Hrows Hruns Honce Hfires]. split; cbn; [done..|]. intros scanned f [Hf|Hf]%elem_of_app; [|by apply Hfires].
    apply list_elem_of_fmap in Hf as (f' & [= -> ->] & Hf). by eapply scan_fire_ok.
  - destruct (fireScheduled_cases fi f (wd w)) as [-> | Hc]; [by destruct w|].
    destruct (commits_run_ok _ _ _ _ scanned Hc (ok_fires _ Hok _ _ Hin) Hle) as (r & Ha & Hr & Hcl).
    eapply tables_ok_adds; [done|exact Ha|done| |done]. eapply commits_rows; [exact Hc|apply Hok].
  - destruct (runDeployment_adds _ _ _ _ _ _ H) as (row & r & _ & _ & Ha & Hd & _ & Ht & Hsch).
    eapply tables_ok_adds; [done|exact Ha| | |by rewrite Hsch].
    + split; [apply Ha|]. left. done.
    + rewrite Hd. apply Hok.
  - eapply tables_ok_rows; [done|]. exact (create_writes _ _ _ _ _ _ He H).
  - eapply tables_ok_rows; [done|]. by eapply update_writes.
  - eapply tables_ok_rows; [done|]. by eapply archive_writes.
  - eapply tables_ok_rows; [done|]. exact (pause_writes _ _ _ _ _ He H).
  - by destruct Hok.
Qed.

(** Reached from tables without a deployment. *)
Definition reached (w : world) : Prop := exists es ags, rtc step (MkWorld (MkDdb ∅ ∅ es ags) []) w.

Lemma reached_tables w : reached w -> tables_ok w.
Proof.
  intros (es & ags & Hr). assert (H0 : tables_ok (MkWorld (MkDdb ∅ ∅ es ags) [])).
  { split; cbn; [by intros ? ? ?%lookup_empty_Some|by intros ? ? ?%lookup_empty_Some|by intros ? ? ? ? ? ?%lookup_empty_Some|].
    by intros ? ? ?%not_elem_of_nil. }
  revert H0. induction Hr as [w|w1 w2 w3 Hs _ IH]; [done|]. intros H. by eapply IH, step_tables.
Qed.

(** C36: Whatever sweeps, of however many replicas, manual runs and management requests have run, in whatever
    order: no occurrence of a deployment has two runs, every run has a session or an error and never both, a
    scheduled run began no earlier than its occurrence, a pause has a kind and exactly an automatic one has an
    error type, one that pauses, and every stored schedule can be walked. *)
Theorem deployment_tables w : reached w ->
  (forall i j ri rj u, runs (wd w) !! i = Some ri -> runs (wd w) !! j = Some rj -> r_deployment ri = r_deployment rj ->
     r_scheduled_at ri = Some u -> r_scheduled_at rj = Some u -> i = j) /\
  (forall rid r, runs (wd w) !! rid = Some r -> run_ok r) /\
  (forall id row, deployments (wd w) !! id = Some row -> row_ok row) /\
  forall now, epoch <= now -> (tick_scan LoadLocation (wd w) now).2 = [].
Proof.
  intros Hr%reached_tables. split; [apply Hr|]. split; [apply Hr|]. split; [apply Hr|]. intros now Hnow.
  destruct (scan_fold (wd w) now (map_to_list (deployments (wd w))) (NoDup_fst_map_to_list _)) as (_ & _ & He).
  apply elem_of_nil_inv. intros [id e] Hin. unfold tick_scan in Hin. apply He in Hin as (row & Hrow%elem_of_map_to_list & Hs).
  destruct (ok_rows _ Hr id row Hrow) as (_ & Hwalk & Hres). revert Hs.
  destruct (d_schedule row) as [[expr tz]|] eqn:Hsch; [|by unfold scan_row; rewrite Hsch].
  destruct (d_archived_at row) eqn:Ha; [by unfold scan_row; rewrite Hsch, Ha|]. destruct (d_paused_at row) eqn:Hp; [by unfold scan_row; rewrite Hsch, Ha, Hp|].
  destruct (Hwalk expr tz eq_refl) as (s & loc & Hw). intros Hs.
  assert (Hrec : recent since (scan_floor (wd w) id row)).
  { apply (recent_mono since (epoch - hour)); [done|]. pose proof (proj1 (scan_floor_bounds (wd w) id row)). unfold hour, minute, second in *; lia. }
  pose proof (scan_row_exact (wd w) now id row expr tz s loc ltac:(done) Hw Hrec ltac:(lia)) as Hx. by rewrite Hs in Hx.
Qed.

(** The deployment's schedule starts, at the clock [t]: it is created, or a pause of it ends. *)
Definition starts (id : string) (t : Z) (w w' : world) : Prop :=
  (exists wall c, createDeployment LoadLocation wall t id c (wd w) = Ok (wd w')) \/
  (exists row, deployments (wd w) !! id = Some row /\ is_Some (d_paused_at row) /\ setDeploymentPause t false id (wd w) = Ok (wd w')).

(** Any step that does not. *)
Definition runs_on_step (id : string) (w w' : world) : Prop := step w w' /\ forall t, ~ starts id t w w'.

Definition resumed (d : ddb) (id : string) (t : Z) : Prop := exists row, deployments d !! id = Some row /\ d_resumed_at row = t.

Lemma starts_resumed id t w w' : starts id t w w' -> resumed (wd w') id t.
Proof.
  intros [(wall & c & H)|(row & Hrow & [at_ Ha] & H)].
  - revert H. unfold createDeployment. destruct (validateDeploymentBounds _ _ _ _ _ _); [|done]. destruct (parseDeploymentSchedule _ _ _); [|done].
    destruct (requireLiveEnvironment _ _); [|done]. destruct (resolveDeploymentAgent _ _) as [[? ?]|]; [|done]. destruct (bool_decide _); [done|].
    intros [= <-]. eexists. cbn. by rewrite lookup_insert_eq.
  - revert H. unfold setDeploymentPause, loadDeployment. destruct (negb _); [done|]. rewrite Hrow. destruct (bool_decide _); [done|].
    intros [= <-]. eexists. cbn. by rewrite lookup_insert_eq, Ha.
Qed.

Lemma writes_resumed id id' d d' t : writes_row id' d d' -> (id' = id -> resumed d' id t) -> resumed d id t -> resumed d' id t.
Proof.
  intros (row & -> & _) Hsame (r & Hr & Ht). destruct (decide (id' = id)) as [->|Hne]; [by apply Hsame|].
  exists r. cbn. by rewrite lookup_insert_ne.
Qed.

(** Nothing else moves the instant it started at. *)
Lemma runs_on_resumed id t w w' : runs_on_step id w w' -> resumed (wd w) id t -> resumed (wd w') id t.
Proof.
  intros [Hs Hno] Hres. pose proof Hres as (row & Hrow & Ht).
  destruct Hs as [now He|fi f scanned Hin Hle|now runID create id' d' He H|wall now id' c d' He Hw H|wall now id' x d' He Hw H|now id' d' He H|now p id' d' He H|es ags];
    cbn [wd] in *; [done| | | | | | |done].
  - destruct (fireScheduled_cases fi f (wd w)) as [-> | (row2 & r & Hrow2 & _ & _ & _ & _ & _ & _ & _ & Hdep)]; [done|].
    destruct Hdep as [E | (typ & msg & _ & _ & E)]; unfold resumed; rewrite E; [by exists row|].
    destruct (decide (f_deployment f = id)) as [Ef|Hne]; [|exists row; by rewrite lookup_insert_ne].
    rewrite Ef, lookup_insert_eq. eexists. split; [done|]. rewrite Ef, Hrow in Hrow2. injection Hrow2 as <-. exact Ht.
  - apply runDeployment_adds in H as (_ & _ & _ & _ & _ & Hd & _). unfold resumed. rewrite Hd. by exists row.
  - eapply writes_resumed; [exact (create_writes _ _ _ _ _ _ He H)| |done]. intros ->. exfalso. apply (Hno now). left. by exists wall, c.
  - eapply writes_resumed; [by eapply update_writes| |done]. intros ->. revert H.
    unfold updateDeployment. destruct (negb _); [done|]. destruct (parseDeploymentSchedule _ _ _) as [o|]; [|done].
    unfold loadDeployment. rewrite Hrow. destruct (bool_decide _); [done|]. destruct (kept_or (d_name row) _ _) as [name|]; [|done].
    destruct (kept_or (d_env row) _ _) as [env|]; [|done]. destruct (match u_env x with Some _ => _ | None => _ end); [|done].
    destruct (match u_agent x with Some _ => _ | None => _ end) as [[agent version]|]; [|done].
    destruct (validateDeploymentBounds _ _ _ _ _ _); [|done]. intros [= <-]. eexists. cbn. by rewrite lookup_insert_eq.
  - eapply writes_resumed; [by eapply archive_writes| |done]. intros ->. revert H. unfold archiveDeployment. destruct (negb _); [done|].
    rewrite Hrow. intros [= <-]. eexists. cbn. by rewrite lookup_insert_eq.
  - eapply writes_resumed; [exact (pause_writes _ _ _ _ _ He H)| |done]. intros ->. pose proof H as Hp. revert H.
    unfold setDeploymentPause, loadDeployment. destruct (negb _); [done|]. rewrite Hrow. destruct (bool_decide _); [done|]. intros [= E].
    destruct p; [rewrite <- E; eexists; cbn; by rewrite lookup_insert_eq|].
    destruct (d_paused_at row) as [at_|] eqn:Ea; [|rewrite <- E; eexists; cbn; by rewrite lookup_insert_eq].
    exfalso. apply (Hno now). right. exists row. split; [done|]. split; [by eexists|done].
Qed.

Lemma started_resumed id t wa wb w : starts id t wa wb -> rtc (runs_on_step id) wb w -> resumed (wd w) id t.
Proof. intros H%starts_resumed Hr. induction Hr as [|w1 w2 w3 Hs _ IH]; [done|]. by eapply IH, runs_on_resumed. Qed.

(** C37: A transaction that makes a scheduled run makes it for a deployment that is then neither archived nor
    paused, at an instant its current schedule names, not in the future, and claimed by no run before.  The instant
    is past the clock of the transaction that last created or unpaused the deployment, so what fell due during a
    pause is never fired.  (An update is no restart: an occurrence of the schedule it sets may be fired though it
    fell due before the update.) *)
Theorem fires_on_schedule w w' rid r u : reached w -> step w w' -> runs (wd w) !! rid = None -> runs (wd w') !! rid = Some r -> r_scheduled_at r = Some u ->
  exists row expr tz s loc, deployments (wd w) !! r_deployment r = Some row /\ d_archived_at row = None /\ d_paused_at row = None /\
    d_schedule row = Some (expr, tz) /\ walks expr tz s loc /\ occurs s loc u /\
    d_resumed_at row < u <= r_created_at r /\ claimed (wd w) (r_deployment r) u = false /\
    forall wa wb t, starts (r_deployment r) t wa wb -> rtc (runs_on_step (r_deployment r)) wb w -> t < u.
Proof.
  intros Hok%reached_tables Hs Hno Hr Hu. destruct Hs as [now He|fi f scanned Hin Hle|now runID create id d' He H|wall now id c d' He Hw H|wall now id x d' He Hw H|now id d' He H|now p id d' He H|es ags];
    cbn [wd runs] in Hr; try congruence.
  2: { destruct (runDeployment_adds _ _ _ _ _ _ H) as (row & r' & _ & _ & [_ Ha _] & _ & _ & _ & Hsch).
       rewrite Ha in Hr. apply lookup_insert_Some in Hr as [[_ <-]|[_ Hr]]; congruence. }
  2: { apply create_writes in H as (? & -> & _); [|exact He]. cbn in Hr. congruence. }
  2: { apply update_writes in H as (? & -> & _). cbn in Hr. congruence. }
  2: { apply archive_writes in H as (? & -> & _). cbn in Hr. congruence. }
  2: { apply pause_writes in H as (? & -> & _); [|exact He]. cbn in Hr. congruence. }
  destruct (fireScheduled_cases fi f (wd w)) as [Heq | (row & r' & Hrow & Hdue & Hc & [_ Ha _] & Hd & _ & Ho & Hn & _)]; [rewrite Heq in Hr; congruence|].
  rewrite Ha in Hr. apply lookup_insert_Some in Hr as [[_ <-]|[_ Hr]]; [|congruence]. rewrite Ho in Hu. injection Hu as <-.
  apply still_due_spec in Hdue as (H1 & H2 & H3 & H4). destruct (ok_fires _ Hok _ _ Hin) as [[_ Hocc] (s & loc & Hw & Hoc)].
  rewrite Hd. exists row, (f_expr f), (f_tz f), s, loc. split_and!; try done; [lia..|].
  intros wa wb t Hst Hon. destruct (started_resumed _ _ _ _ _ Hst Hon) as (row2 & Hrow2 & <-). rewrite Hrow in Hrow2. by injection Hrow2 as <-.
Qed.

Lemma writes_other id id' d d' : writes_row id' d d' -> id' <> id -> same_for id d d'.
Proof. intros (row & -> & _) Hne. split; [|done]. cbn. by rewrite lookup_insert_ne. Qed.

(** No transaction touches an archived deployment. *)
Lemma step_archived w w' id row : deployments (wd w) !! id = Some row -> is_Some (d_archived_at row) -> step w w' -> same_for id (wd w) (wd w').
Proof.
  intros Hrow Ha Hs. pose proof Ha as [at_ Hat].
  assert (Hload : loadDeployment (wd w) id = Err DeploymentArchived) by (unfold loadDeployment; by rewrite Hrow, bool_decide_true).
  destruct Hs as [now He|fi f scanned Hin Hle|now runID create id' d' He H|wall now id' c d' He Hw H|wall now id' x d' He Hw H|now id' d' He H|now p id' d' He H|es ags];
    cbn [wd]; [done| | | | | | |done].
  - destruct (decide (f_deployment f = id)) as [Hid|Hid]; [|by apply fire_other].
    destruct (fireScheduled_cases fi f (wd w)) as [-> | (row2 & r & Hrow2 & (H1 & _)%still_due_spec & _)]; [done|congruence].
  - destruct (runDeployment_adds _ _ _ _ _ _ H) as (row2 & r & Hrow2 & Ha2 & Had & Hd & Hrd & _).
    split; [by rewrite Hd|]. eapply adds_other; [exact Had|]. intros <-. congruence.
  - destruct (decide (id' = id)) as [->|Hid]; [|by eapply writes_other; [exact (create_writes _ _ _ _ _ _ He H)|]].
    exfalso. revert H. unfold createDeployment. destruct (validateDeploymentBounds _ _ _ _ _ _); [|done]. destruct (parseDeploymentSchedule _ _ _); [|done].
    destruct (requireLiveEnvironment _ _); [|done]. destruct (resolveDeploymentAgent _ _) as [[? ?]|]; [|done]. by rewrite Hrow, bool_decide_true.
  - destruct (decide (id' = id)) as [->|Hid]; [|by eapply writes_other; [exact (update_writes _ _ _ _ _ _ H)|]].
    exfalso. revert H. unfold updateDeployment. destruct (negb _); [done|]. destruct (parseDeploymentSchedule _ _ _); [|done].
    by rewrite Hload.
  - destruct (decide (id' = id)) as [->|Hid]; [|by eapply writes_other; [exact (archive_writes _ _ _ _ H)|]].
    revert H. unfold archiveDeployment. destruct (negb _); [done|]. rewrite Hrow. intros [= <-]. split; [|done]. cbn. rewrite lookup_insert_eq, Hrow, Hat.
    f_equal. cbn. rewrite <- Hat. by destruct row.
  - destruct (decide (id' = id)) as [->|Hid]; [|by eapply writes_other; [exact (pause_writes _ _ _ _ _ He H)|]].
    exfalso. revert H. unfold setDeploymentPause. destruct (negb _); [done|]. by rewrite Hload.
Qed.

(** Archiving is final: whatever happens afterwards, an archived deployment keeps its row as it is, gets no
    run and loses none. *)
Theorem archived_is_final w w' id row : deployments (wd w) !! id = Some row -> is_Some (d_archived_at row) -> rtc step w w' ->
  deployments (wd w') !! id = Some row /\ forall rid r, r_deployment r = id -> (runs (wd w') !! rid = Some r <-> runs (wd w) !! rid = Some r).
Proof.
  intros Hrow Ha Hr. induction Hr as [w|w1 w2 w3 Hs _ IH]; [done|]. destruct (step_archived w1 w2 id row Hrow Ha Hs) as [Hrow2 Hruns].
  rewrite Hrow in Hrow2. destruct (IH Hrow2) as [Hrow3 Hruns3]. split; [done|]. intros rid r Hid. by rewrite Hruns3, Hruns.
Qed.
(** *** What a reader sees *)

(** A scheduled run of the deployment that made a session. *)
Definition succeeded (id : string) (r : drun) : Prop :=
  r_deployment r = id /\ r_trigger r = "schedule" /\ is_Some (r_succeeded_at r).

(** The latest by occurrence of the runs kept, over any list of runs. *)
Definition latest_in (id : string) (l : list (string * drun)) (o : option drun) : Prop :=
  match o with
  | None => forall rid r u, (rid, r) ∈ l -> succeeded id r -> r_scheduled_at r = Some u -> False
  | Some r => exists rid u, (rid, r) ∈ l /\ succeeded id r /\ r_scheduled_at r = Some u /\
      forall rid' r' u', (rid', r') ∈ l -> succeeded id r' -> r_scheduled_at r' = Some u' -> u' <= u
  end.

Lemma latest_skip id k x l o : (forall u, r_scheduled_at x = Some u -> succeeded id x -> False) -> latest_in id l o -> latest_in id ((k, x) :: l) o.
Proof.
  intros Hno. destruct o as [r|]; cbn.
  - intros (rid & u & Hr & Hs & Hu & Htop). exists rid, u. split; [by right|]. split; [exact Hs|]. split; [exact Hu|].
    intros rid' r' u' [[= -> ->] | Hin]%elem_of_cons Hs' Hu'; [by destruct (Hno u')|by eapply Htop].
  - intros H rid r u [[= -> ->] | Hin]%elem_of_cons Hs Hu; [by eapply Hno|by eapply H].
Qed.

Lemma latest_take id k x l o u : succeeded id x -> r_scheduled_at x = Some u -> latest_in id l o ->
  latest_in id ((k, x) :: l) (match o with Some r => if default u (r_scheduled_at r) <=? u then Some x else o | None => Some x end).
Proof.
  intros Hx Hux. destruct o as [r|].
  - intros (rid & v & Hr & Hs & Hv & Htop). rewrite Hv. change (default u (Some v)) with v. destruct (Z.leb_spec v u); cbn [latest_in].
    + exists k, u. split; [left|]. split; [exact Hx|]. split; [exact Hux|].
      intros rid' r' u' [[= -> ->] | Hin]%elem_of_cons Hs' Hu'; [|specialize (Htop _ _ _ Hin Hs' Hu'); lia]. simplify_eq. lia.
    + exists rid, v. split; [by right|]. split; [exact Hs|]. split; [exact Hv|].
      intros rid' r' u' [[= -> ->] | Hin]%elem_of_cons Hs' Hu'; [|by eapply Htop]. simplify_eq. lia.
  - cbn [latest_in]. intros H. exists k, u. split; [left|]. split; [exact Hx|]. split; [exact Hux|].
    intros rid' r' u' [[= -> ->] | Hin]%elem_of_cons Hs' Hu'; [|by destruct (H _ _ _ Hin Hs' Hu')]. simplify_eq. lia.
Qed.

Lemma last_run_latest d id : latest_in id (map_to_list (runs d)) (last_run d id).
Proof.
  unfold last_run. induction (map_to_list (runs d)) as [|[k x] l IH]; cbn [foldr fst snd]; [by intros ? ? ? ?%not_elem_of_nil|].
  destruct (String.eqb (r_deployment x) id && _ && _) eqn:Eb.
  - apply andb_true_iff in Eb as [[Ed%String.eqb_eq Et%String.eqb_eq]%andb_true_iff Es%bool_decide_eq_true].
    destruct (r_scheduled_at x) as [u|] eqn:Eu; [by apply latest_take|]. apply latest_skip; [congruence|done].
  - apply latest_skip; [|done]. intros u _ (H1 & H2 & H3). by rewrite H1, H2, !String.eqb_refl, bool_decide_true in Eb.
Qed.

(** What a reader of a deployment sees: its reason to be paused exactly when it is, an automatic pause with
    its error; the next occurrences of its schedule, at most five, the earliest, none once archived; and the
    start of the run that last succeeded by occurrence, whatever the manual runs since. *)
Theorem deployment_as_read w id row wall : reached w -> deployments (wd w) !! id = Some row -> epoch <= wall ->
  (Reason row = None <-> Status row = "active") /\
  (forall kind err, Reason row = Some (kind, err) -> d_paused_kind row = Some kind /\ err = d_paused_error row) /\
  match d_schedule row with
  | None => fillScheduleTimestamps LoadLocation (wd w) wall id row = Ok None
  | Some (expr, tz) => exists upcoming s loc, walks expr tz s loc /\
      fillScheduleTimestamps LoadLocation (wd w) wall id row = Ok (Some (upcoming, r_created_at <$> last_run (wd w) id)) /\
      StronglySorted Z.lt upcoming /\ Z.of_nat (length upcoming) <= upcomingRunsCount /\
      (forall u, u ∈ upcoming -> scheduled s loc wall u) /\ (is_Some (d_archived_at row) -> upcoming = []) /\
      (d_archived_at row = None -> forall u, scheduled s loc wall u -> u ∉ upcoming ->
         Z.of_nat (length upcoming) = upcomingRunsCount /\ forall v, v ∈ upcoming -> v < u)
  end /\
  latest_in id (map_to_list (runs (wd w))) (last_run (wd w) id).
Proof.
  intros Hr%reached_tables Hrow Hwall. destruct (ok_rows _ Hr id row Hrow) as (Hp & Hwalk & _). split; [|split; [|split; [|by apply last_run_latest]]].
  - unfold Reason, Status. destruct (d_archived_at row), (d_paused_at row); cbn; split; done.
  - unfold Reason, Status. intros kind err. destruct (d_archived_at row); [done|].
    destruct Hp as [(-> & _)|[(Ha & -> & ->)|(Ha & -> & typ & -> & _)]]; [done| |]; destruct (d_paused_at row); try (by destruct Ha); by intros [= <- <-].
  - unfold fillScheduleTimestamps. destruct (d_schedule row) as [[expr tz]|]; [|done]. destruct (Hwalk expr tz eq_refl) as (s & loc & Hw). pose proof Hw as [Hp' Hl].
    case_bool_decide as Ha.
    { exists [], s, loc. split_and!; try done; [constructor|by intros u ?%not_elem_of_nil|]. intros Hna. by rewrite Hna in Ha. }
    rewrite <- eq_None_not_Some in Ha.
    destruct (Upcoming_first LoadLocation expr tz s loc since Hp' Hl (ZoneOK0 := zones _ _ Hl) wall upcomingRunsCount) as (l & Hu & Hs & Hlen & Hin & Hout); [|done|].
    { apply (recent_mono since (epoch - hour)); [done|]. unfold hour, minute, second in *; lia. }
    rewrite Hu. exists l, s, loc. split_and!; try done. rewrite Ha. by intros [? ?].
Qed.
End zones.

(** ** Witnesses: noon in New York *)

Lemma eastern_zones tz loc : loadLocation eastern_db tz = Ok loc -> ZoneOK loc 1767225600.
Proof.
  unfold loadLocation, eastern_db. destruct (String.eqb tz ""); [done|]. destruct (String.eqb tz "Local"); [done|].
  destruct (String.eqb tz "America/New_York"); [|done]. intros [= <-]. exact eastern_ok.
Qed.

Definition noon_expr : string := "*/20 12 * * *".
Definition new_york : string := "America/New_York".
Definition noon_schedule : schedule := match parse noon_expr with Ok s => s | Err _ => fall_back_schedule end.

Definition x_row : deployment :=
  MkDeployment "nightly" "" "agent_1" 3 "env_1" [] [JObject []] [] [] (Some (noon_expr, new_york)) (march + 61140 * second) None None None march march None.

Definition x_ddb : ddb := MkDdb {["depl_1" := x_row]} ∅ ∅ ∅.

(** A quarter to one, Eastern, started a minute before noon: two occurrences were passed over. *)
Definition x_now : Z := march + (61200 + 2700) * second.

Definition x_fire (f : deploymentFire) : firing := MkFiring Fair x_now ("drun_" +:+ f_deployment f) (fun _ => Fired "sesn_1").

Lemma scan_row_exact_witness :
  exists f, scan_row eastern_db x_ddb x_now "depl_1" x_row = Ok (Some f) /\ f_skipped f = 2 /\
    calls_for x_ddb x_now "depl_1" x_row noon_schedule eastern f.
Proof.
  assert (H1 : runs_on x_row noon_expr new_york) by (split; [reflexivity|split; reflexivity]).
  assert (H2 : walks eastern_db noon_expr new_york noon_schedule eastern) by (split; [vm_compute; reflexivity|reflexivity]).
  assert (H3 : recent 1767225600 (scan_floor x_ddb "depl_1" x_row)) by (vm_compute; discriminate).
  assert (H4 : zero_time + hour < x_now) by (vm_compute; reflexivity).
  pose proof (scan_row_exact eastern_db 1767225600 eastern_zones x_ddb x_now "depl_1" x_row noon_expr new_york noon_schedule eastern H1 H2 H3 H4) as H.
  destruct (scan_row eastern_db x_ddb x_now "depl_1" x_row) as [[f|]|e] eqn:E; [|vm_compute in E; discriminate E..].
  exists f. split; [reflexivity|]. split; [vm_compute in E; injection E as <-; reflexivity|exact H].
Defined.

Lemma tick_fires_once_witness :
  exists r, runs (deploymentTick eastern_db x_now x_fire x_ddb).2 !! "drun_depl_1" = Some r /\ r_session r = Some "sesn_1" /\ settled r.
Proof.
  pose proof (tick_fires_once eastern_db 1767225600 eastern_zones x_ddb x_now x_fire "depl_1" x_row noon_expr new_york noon_schedule eastern) as H.
  destruct (deploymentTick eastern_db x_now x_fire x_ddb) as [[os errs] d'] eqn:E.
  destruct H as (f & r & o & Hc & _ & Hr & _ & _ & Hs & _).
  - reflexivity.
  - split; [reflexivity|split; reflexivity].
  - split; [vm_compute; reflexivity|reflexivity].
  - vm_compute; discriminate.
  - vm_compute; reflexivity.
  - exists (march + (61200 + 2400) * second). split; [split; [vm_compute; reflexivity|split; [split; vm_compute; reflexivity|vm_compute; discriminate]]|vm_compute; discriminate].
  - intros f. reflexivity.
  - intros f g Hfg. cbn in Hfg. by injection Hfg.
  - intros f _. split; [reflexivity|exact I].
  - destruct Hc as [Hid _]. cbn in Hr. rewrite Hid in Hr. exists r. split; [exact Hr|]. split; [|exact Hs].
    assert (Hd : runs d' = runs (deploymentTick eastern_db x_now x_fire x_ddb).2) by (rewrite E; reflexivity).
    rewrite Hd in Hr. vm_compute in Hr. injection Hr as <-. reflexivity.
Defined.

(** A deployment created, scanned, fired and archived. *)
Definition ok_or {E A} (r : result E A) (x : A) : A := match r with Ok a => a | Err _ => x end.

Definition x_request : create_request :=
  MkCreate "nightly" None "env_1" (JString "agent_0") [] [JObject []] [] []
    [("schedule", JObject [("type", JString "cron"); ("expression", JString noon_expr); ("timezone", JString new_york)])].

Definition x_start : ddb := MkDdb ∅ ∅ {["env_1" := MkEnv None false]} {["agent_0" := MkAgent 3 None false [3]]}.
Definition x_created : ddb := ok_or (createDeployment eastern_db march (march + 61140 * second) "depl_1" x_request x_start) x_start.
Definition x_f : deploymentFire := MkFire "depl_1" noon_expr new_york (march + (61200 + 2400) * second) 2.
Definition x_w1 : world := MkWorld x_created [].
Definition x_w2 : world := MkWorld x_created [(x_now, x_f)].
Definition x_w3 : world := MkWorld (fireScheduled (x_fire x_f) x_f x_created).2 [(x_now, x_f)].
Definition x_archived : ddb := ok_or (archiveDeployment x_now "depl_1" (wd x_w3)) x_start.
Definition x_w4 : world := MkWorld x_archived [(x_now, x_f)].

Lemma x_step1 : step eastern_db march (MkWorld x_start []) x_w1.
Proof.
  apply (step_create eastern_db march (MkWorld x_start []) march (march + 61140 * second) "depl_1" x_request x_created);
    [vm_compute; discriminate|vm_compute; discriminate|vm_compute; reflexivity].
Qed.

Lemma x_step2 : step eastern_db march x_w1 x_w2.
Proof.
  assert (Hf : (tick_scan eastern_db x_created x_now).1 = [x_f]) by (vm_compute; reflexivity).
  pose proof (step_scan eastern_db march x_w1 x_now ltac:(vm_compute; discriminate)) as H. cbn [wd w_fires x_w1] in H. by rewrite Hf in H.
Qed.

Lemma x_step3 : step eastern_db march x_w2 x_w3.
Proof. apply (step_fire eastern_db march x_w2 (x_fire x_f) x_f x_now); [left|vm_compute; discriminate]. Qed.

Lemma x_reached : reached eastern_db march x_w2.
Proof. exists {["env_1" := MkEnv None false]}, {["agent_0" := MkAgent 3 None false [3]]}. eapply rtc_l; [exact x_step1|]. apply rtc_once, x_step2. Qed.

Lemma x_epoch : recent 1767225600 (march - hour) /\ zero_time + hour < march.
Proof. split; [vm_compute; discriminate|vm_compute; reflexivity]. Qed.

Definition x_run : drun := default (new_run "" "" None x_row 0) (runs (wd x_w3) !! "drun_depl_1").

Lemma deployment_tables_witness : reached eastern_db march x_w3 /\ run_ok x_run /\ (tick_scan eastern_db (wd x_w3) x_now).2 = [].
Proof.
  assert (Hr : reached eastern_db march x_w3) by (destruct x_reached as (es & ags & H); exists es, ags; exact (rtc_r _ _ _ H x_step3)).
  destruct (deployment_tables eastern_db 1767225600 eastern_zones march (proj1 x_epoch) (proj2 x_epoch) x_w3 Hr) as (_ & Hruns & _ & Hscan).
  split; [exact Hr|]. split; [apply (Hruns "drun_depl_1"); vm_compute; reflexivity|]. apply Hscan. vm_compute; discriminate.
Defined.

Lemma fires_on_schedule_witness : exists s loc, walks eastern_db noon_expr new_york s loc /\ occurs s loc (f_occ x_f).
Proof.
  destruct (fires_on_schedule eastern_db 1767225600 eastern_zones march (proj1 x_epoch) (proj2 x_epoch) x_w2 x_w3 "drun_depl_1" x_run (f_occ x_f) x_reached x_step3)
    as (row & expr & tz & s & loc & Hrow & _ & _ & Hsch & Hw & Ho & _); [vm_compute; reflexivity..|].
  vm_compute in Hrow. injection Hrow as <-. injection Hsch as <- <-. exists s, loc. split; [exact Hw|exact Ho].
Defined.

(** The fire, tried again after the archive, is lost. *)
Definition x_w5 : world := MkWorld (fireScheduled (x_fire x_f) x_f x_archived).2 [(x_now, x_f)].

Lemma archived_is_final_witness : runs (wd x_w5) !! "drun_depl_1" = Some x_run /\ runs (wd x_w5) = runs (wd x_w4).
Proof.
  destruct (deployments (wd x_w4) !! "depl_1") as [row|] eqn:E; [|vm_compute in E; discriminate E]. split; [|vm_compute; reflexivity].
  apply (archived_is_final eastern_db march x_w4 x_w5 "depl_1" row E); [vm_compute in E; injection E as <-; by eexists| |vm_compute; reflexivity..].
  apply rtc_once, (step_fire eastern_db march x_w4 (x_fire x_f) x_f x_now); [left|vm_compute; discriminate].
Defined.

Lemma deployment_as_read_witness : exists upcoming,
  fillScheduleTimestamps eastern_db (wd x_w3) (march + 61200 * second) "depl_1" (default x_row (deployments (wd x_w3) !! "depl_1")) = Ok (Some (upcoming, Some x_now)) /\
  Z.of_nat (length upcoming) = upcomingRunsCount.
Proof.
  assert (Hr : reached eastern_db march x_w3) by (destruct x_reached as (es & ags & H); exists es, ags; exact (rtc_r _ _ _ H x_step3)).
  destruct (deployments (wd x_w3) !! "depl_1") as [row|] eqn:E; [|vm_compute in E; discriminate E].
  destruct (deployment_as_read eastern_db 1767225600 eastern_zones march (proj1 x_epoch) (proj2 x_epoch) x_w3 "depl_1" row (march + 61200 * second) Hr E ltac:(vm_compute; discriminate))
    as (_ & _ & H & _). vm_compute in E. injection E as <-. cbn [d_schedule] in H. destruct H as (l & s & loc & _ & Hf & _).
  exists l. split; [exact Hf|]. vm_compute in Hf. injection Hf as <-. reflexivity.
Defined.
