(* ===== verification/Frame.v ===== *)
(** * Frame: a platform script's own output (internal/sandbox/frame.go).

    A script prints a begin and an end line around what it says on each stream; the
    reader cuts each stream at them.  A stream is a string whether the code holds it as
    a string or as bytes: [cutFrame] is one generic function there too. *)
From Stdlib Require Import Ascii Lia.
From S2P Require Import Prelude GoStrings.

Definition nl : string := String "010" EmptyString.
Definition dquote : string := String "034" EmptyString.

Record Frame := MkFrame { f_begin : string; f_end : string }.

Definition frameNonceDigits : nat := 16.
Definition frameNonceTrusted : nat := 8.

Definition is_digit (c : ascii) : bool := in_range 48 57 (ord c).
Definition is_lower (c : ascii) : bool := in_range 97 122 (ord c).
Definition is_hex_lower (c : ascii) : bool := is_digit c || in_range 97 102 (ord c).

(** [frameLabel], [frameNonce]: the two regular expressions, anchored at both ends. *)
Definition frameLabel (s : string) : bool :=
  all_bytes (fun c => is_lower c || is_digit c) s && negb (Nat.eqb (String.length s) 0).

Definition frameNonce (s : string) : bool :=
  all_bytes is_hex_lower s && Nat.eqb (String.length s) frameNonceDigits.

(** [FrameOf]; its panics are [None]. *)
Definition FrameOf (label nonce : string) : option Frame :=
  if negb (frameLabel label) then None
  else if negb (frameNonce nonce) then None
  else Some (MkFrame ("map-" +:+ label +:+ "-begin-" +:+ nonce)
                     ("map-" +:+ label +:+ "-end-" +:+ nonce)).

Definition hex_digit (n : Z) : ascii :=
  ascii_of_N (Z.to_N (if n <? 10 then 48 + n else 87 + n)).

(** [hex.EncodeToString] *)
Fixpoint EncodeToString (bs : list Z) : string :=
  match bs with
  | [] => EmptyString
  | b :: bs' => String (hex_digit (Z.shiftr b 4)) (String (hex_digit (Z.land b 15)) (EncodeToString bs'))
  end.

(** [NewFrame], of the eight bytes the random source gave. *)
Definition NewFrame (label : string) (rand : list Z) : option Frame := FrameOf label (EncodeToString rand).

Definition Lines (f : Frame) : string * string := (nl +:+ f_begin f +:+ nl, nl +:+ f_end f +:+ nl).

(** ** The script *)

Definition ScriptPreamble : string :=
  "set +e +f" +:+ nl +:+
  "if [ -n " +:+ dquote +:+ "${BASH_VERSION-}" +:+ dquote +:+ " ]; then trap - ERR; set +p; fi" +:+ nl +:+
  "unset GLOBIGNORE GLOBSORT" +:+ nl +:+
  "shopt -u dotglob extglob failglob globstar nocaseglob nullglob 2>/dev/null" +:+ nl.

Definition Open (f : Frame) : string :=
  "close_frame() { trap - EXIT; printf '\n%s\n' '" +:+ f_end f +:+ "'; printf '\n%s\n' '" +:+ f_end f
    +:+ "' >&2; exit " +:+ dquote +:+ "$1" +:+ dquote +:+ "; }" +:+ nl
    +:+ ScriptPreamble
    +:+ "printf '\n%s\n' '" +:+ f_begin f +:+ "'; printf '\n%s\n' '" +:+ f_begin f +:+ "' >&2" +:+ nl.

Definition wrapClose : string :=
  nl +:+ ") || close_frame " +:+ dquote +:+ "$?" +:+ dquote +:+ nl +:+ "close_frame 0" +:+ nl.

Definition Wrap (f : Frame) (script : string) : string :=
  Open f +:+ "(" +:+ nl +:+ script +:+ wrapClose.

(** ** Cutting a stream *)

(** The end line's start at the tail of [rest]: the longest of at most [k] bytes. *)
Fixpoint tail_start (end_ rest : string) (k : nat) : option nat :=
  match k with
  | O => None
  | S k' =>
      if String.eqb (drop_bytes (String.length rest - k) rest) (take_bytes k end_) then Some k
      else tail_start end_ rest k'
  end.

(** [cutFrame]: the text, whether it was framed, whether the cap cut it short.  A [room]
    below one bounds nothing, as 0 does. *)
Definition cutFrame (f : Frame) (s : string) (truncated : bool) (room : nat) : string * bool * bool :=
  let '(begin_, end_) := Lines f in
  let head := if (0 <? room)%nat then Nat.min (String.length s) (room + String.length begin_)
              else String.length s in
  let i := match LastIndex (take_bytes head s) begin_ with
           | Some i => Some i
           | None => if (head <? String.length s)%nat then LastIndex s begin_ else None
           end in
  let cut :=
    match i with
    | Some i => Some (drop_bytes (i + String.length begin_) s)
    | None => if HasPrefix s (drop_bytes 1 begin_) then Some (drop_bytes (String.length begin_ - 1) s)
              else None
    end in
  match cut with
  | None => (EmptyString, false, false)
  | Some rest =>
      let from := (String.length rest - room - String.length end_)%nat in
      let near := if ((0 <? room) && (0 <? from))%nat
                  then (fun k => (from + k)%nat) <$> Index (drop_bytes from rest) end_ else None in
      match (match near with Some j => Some j | None => Index rest end_ end) with
      | Some j => (take_bytes j rest, true, false)
      | None =>
          if negb truncated then (EmptyString, false, false)
          else
            let constant := (String.length end_ - frameNonceDigits - 1)%nat in
            match tail_start end_ rest (Nat.min (String.length end_ - 1) (String.length rest)) with
            | Some k => (take_bytes (String.length rest - k) rest, true,
                         (k <? constant + frameNonceTrusted)%nat)
            | None => (rest, true, true)
            end
      end
  end.

Definition Cut (f : Frame) (s : string) (truncated : bool) : string * bool * bool := cutFrame f s truncated 0.
Definition CutBytes (f : Frame) (b : string) (truncated : bool) : string * bool * bool := cutFrame f b truncated 0.
Definition CutBytesWithin (f : Frame) (b : string) (truncated : bool) (room : nat) : string * bool * bool :=
  cutFrame f b truncated room.

(** The loop of [CutInBegin], from [n + least] bytes of the begin line down to [least]. *)
Fixpoint ends_in_begin (begin_ s : string) (least n : nat) : bool :=
  HasSuffix s (take_bytes (least + n) begin_) ||
  match n with O => false | S n' => ends_in_begin begin_ s least n' end.

Definition CutInBegin (f : Frame) (s : string) : bool :=
  let '(begin_, _) := Lines f in
  if HasSuffix s begin_ then false
  else
    let least := (String.length begin_ - 1 - frameNonceDigits + frameNonceTrusted)%nat in
    let k := Nat.min (String.length begin_ - 1) (String.length s) in
    if (k <? least)%nat then false else ends_in_begin begin_ s least (k - least).

Definition Began (f : Frame) (s : string) : bool :=
  let '(begin_, _) := Lines f in
  Contains s begin_ || HasPrefix s (drop_bytes 1 begin_) || CutInBegin f s.

(** ** Reading an exec's result *)

Record ExecResult := MkExecResult {
  Stdout : string;
  Stderr : string;
  ExitCode : Z;
  TimedOut : bool;
  StdoutTruncated : bool;
  StderrTruncated : bool;
}.

(** Why a run gave no answer. *)
Inductive NoAnswer :=
| StartupOutputError (What : string)
| ErrOutputLost (What : string)
| StartupExitError (What : string) (Status : Z).

Definition Unanswered (f : Frame) (what : string) (res : ExecResult) : NoAnswer :=
  if StdoutTruncated res then StartupOutputError what
  else if Began f (Stdout res) || Began f (Stderr res) then ErrOutputLost what
  else if StderrTruncated res then StartupOutputError what
  else StartupExitError what (ExitCode res).

Definition with_stdout (res : ExecResult) (s : string) (cut : bool) : ExecResult :=
  MkExecResult s (Stderr res) (ExitCode res) (TimedOut res) cut (StderrTruncated res).
Definition with_stderr (res : ExecResult) (s : string) (cut : bool) : ExecResult :=
  MkExecResult (Stdout res) s (ExitCode res) (TimedOut res) (StdoutTruncated res) cut.

Definition Unframe (f : Frame) (res : ExecResult) : ExecResult * bool :=
  let '(out, framed, outShort) := Cut f (Stdout res) (StdoutTruncated res) in
  if negb framed then (res, false)
  else
    let '(msg, msgFramed, msgShort) := Cut f (Stderr res) (StderrTruncated res) in
    (with_stderr (with_stdout res out outShort) msg
       (msgShort || (StderrTruncated res && negb msgFramed)), framed).

Definition UnframeStatus (f : Frame) (res : ExecResult) : ExecResult * bool :=
  let '(out, ok) := Unframe f res in
  if ok && negb (StdoutTruncated out) then (out, true)
  else
    let '(msg, framed, short) := Cut f (Stderr res) (StderrTruncated res) in
    if negb framed || short then (res, false)
    else if ok : bool then (with_stderr out msg false, true)
    else (with_stderr (with_stdout res EmptyString (StdoutTruncated res)) msg false, true).

Definition Answer (f : Frame) (what : string) (res : ExecResult) : ExecResult * option NoAnswer :=
  let '(out, ok) := UnframeStatus f res in
  if ok : bool then (out, None) else (res, Some (Unanswered f what res)).

(** ** Running framed: [exec] is the sandbox's [Exec], a result and its own error *)

Record ExecRequest := MkExecRequest { Command : string; Timeout : Z }.

Section exec.
Context {E : Type} (exec : ExecRequest -> ExecResult * option E).

(** [ExecFramed], under the frame [NewFrame] made. *)
Definition ExecFramed (f : Frame) (req : ExecRequest) : ExecResult * bool * option E :=
  let '(res, err) := exec (MkExecRequest (Wrap f (Command req)) (Timeout req)) in
  match err with
  | Some e => (res, false, Some e)
  | None => let '(res, framed) := Unframe f res in (res, framed, None)
  end.

(** [ExecStatus]: the sandbox's error, or the reason there is no answer. *)
Definition ExecStatus (f : Frame) (what : string) (req : ExecRequest) : ExecResult * option (E + NoAnswer) :=
  let '(res, err) := exec (MkExecRequest (Wrap f (Command req)) (Timeout req)) in
  match err with
  | Some e => (res, Some (inl e))
  | None =>
      if TimedOut res then
        let '(out, ok) := UnframeStatus f res in
        if ok : bool then (out, None)
        else
          let '(o, _, _) := Cut f (Stdout res) true in
          let '(e, _, _) := Cut f (Stderr res) true in
          (with_stderr (with_stdout res o (StdoutTruncated res)) e (StderrTruncated res), None)
      else
        let '(out, err) := Answer f what res in (out, inr <$> err)
  end.
End exec.
