(* ===== verification/FrameSpec.v ===== *)
(** * FrameSpec: what a framed run says, and when its status counts.

    A script's stream is [lead ++ begin line ++ text ++ end line ++ trailing], perhaps
    cut somewhere by the sandbox's cap.  Lead and trailing are what else printed; the
    text may be anything that does not hold the frame's own lines. *)
From Stdlib Require Import Ascii Lia.
From S2P Require Import Prelude GoStrings Frame.

Definition nlc : ascii := "010".

(** [l] on a line of its own, as a stream carries it. *)
Definition line (l : string) : string := nl +:+ l +:+ nl.

(** [l] is one of the lines of [s]. *)
Definition has_line (s l : string) : bool := Contains (nl +:+ s +:+ nl) (line l).

Definition frame_ok (f : Frame) : Prop :=
  no_byte nlc (f_begin f) /\ no_byte nlc (f_end f) /\ f_begin f <> f_end f /\
  (frameNonceDigits <= String.length (f_end f))%nat /\ (frameNonceDigits <= String.length (f_begin f))%nat.

Lemma Lines_eq f : Lines f = (line (f_begin f), line (f_end f)).
Proof. done. Qed.

Lemma length_line l : String.length (line l) = (String.length l + 2)%nat.
Proof. unfold line, nl. cbn. rewrite length_append. cbn. lia. Qed.

Lemma label_no_nl s : frameLabel s = true -> no_byte nlc s.
Proof.
  unfold frameLabel. intros [H _]%andb_true_iff. revert H. apply all_bytes_impl.
  intros a Ha. destruct (Ascii.eqb_spec a nlc) as [->|]; [by vm_compute in Ha|done].
Qed.

Lemma nonce_no_nl s : frameNonce s = true -> no_byte nlc s /\ String.length s = frameNonceDigits.
Proof.
  unfold frameNonce. intros [H Hl%Nat.eqb_eq]%andb_true_iff. split; [|done]. revert H. apply all_bytes_impl.
  intros a Ha. destruct (Ascii.eqb_spec a nlc) as [->|]; [by vm_compute in Ha|done].
Qed.

Lemma FrameOf_ok label nonce f : FrameOf label nonce = Some f -> frame_ok f.
Proof.
  unfold FrameOf. destruct (frameLabel label) eqn:Hl; [|done]. destruct (frameNonce nonce) eqn:Hn; [|done].
  cbn [negb]. intros [= <-]. apply label_no_nl in Hl. apply nonce_no_nl in Hn as [Hn Hlen].
  unfold frame_ok, no_byte in *. cbn. rewrite !all_bytes_app, !length_append. cbn.
  rewrite Hl, Hn, Hlen. cbn. split_and!; [done..| |lia|lia].
  intros H. apply (f_equal String.length) in H. cbn in H. rewrite !length_append in H. cbn in H. lia.
Qed.

(** ** Where a line can occur *)

Lemma no_byte_split c t u l r :
  no_byte c l -> t +:+ String c u = l +:+ r ->
  exists t', t = l +:+ t' /\ r = t' +:+ String c u.
Proof.
  revert t; induction l as [|x l IH]; intros t; [by exists t|].
  unfold no_byte. cbn [all_bytes]. intros [Hx Hl]%andb_true_iff. destruct t as [|y t]; cbn.
  - intros [= -> _]. by rewrite Ascii.eqb_refl in Hx.
  - intros [= -> H]. destruct (IH t Hl H) as (t' & -> & ->). by exists t'.
Qed.

Lemma no_byte_same c t u l r :
  no_byte c t -> no_byte c l -> t +:+ String c u = l +:+ String c r -> t = l /\ u = r.
Proof.
  intros Ht Hl H. pose proof (Cut_at t c u Ht) as H1. rewrite H, (Cut_at l c r Hl) in H1. by simplify_eq.
Qed.

(** An occurrence of a line in two parts joined by a newline is in the first part or at
    or after its end. *)
Lemma line_overlap t u a l r :
  no_byte nlc l -> t +:+ nl +:+ u = a +:+ line l +:+ r ->
  (exists r', t +:+ nl = a +:+ line l +:+ r') \/
  (exists a', a = t +:+ a' /\ nl +:+ u = a' +:+ line l +:+ r).
Proof.
  intros Hl H. destruct (decide (String.length t <= String.length a)%nat) as [Hle|Hgt].
  - right. destruct (append_split _ _ _ _ H Hle) as (m & -> & Hm). by exists m.
  - left. symmetry in H. destruct (append_split _ _ _ _ H ltac:(lia)) as (m & -> & Hm).
    destruct m as [|x m]; [rewrite append_nil_r in Hgt; lia|].
    unfold line, nl in Hm. cbn in Hm. injection Hm as <- Hm. rewrite append_assoc in Hm.
    symmetry in Hm. apply no_byte_split in Hm as (t' & -> & Ht); [|done].
    destruct t' as [|y t']; cbn in Ht.
    + exists EmptyString. unfold line, nl. rewrite !append_nil_r, !append_assoc. done.
    + injection Ht as <- Ht. exists (t' +:+ nl). unfold line, nl. rewrite !append_assoc. cbn.
      by rewrite !append_assoc.
Qed.

(** A word with no newline in it holds no line, before the newline that ends it. *)
Lemma word_no_line t a l r :
  no_byte nlc t -> no_byte nlc l -> t +:+ nl <> a +:+ line l +:+ r.
Proof.
  intros Ht Hl H. assert (Hlen : (String.length a <= String.length t)%nat).
  { apply (f_equal String.length) in H. rewrite !length_append, length_line in H. cbn in H. lia. }
  assert (Ha : no_byte nlc a).
  { pose proof H as H'. symmetry in H'. destruct (append_split _ _ _ _ H' Hlen) as (m & -> & _).
    unfold no_byte in *. rewrite all_bytes_app in Ht. by apply andb_true_iff in Ht as [? _]. }
  destruct (no_byte_same nlc t EmptyString a (l +:+ nl +:+ r) Ht Ha) as [_ Hr].
  - etransitivity; [exact H|]. unfold line, nl. by rewrite !append_assoc.
  - apply (f_equal String.length) in Hr. rewrite !length_append in Hr. cbn in Hr. lia.
Qed.

Lemma has_line_false s l a r : has_line s l = false -> nl +:+ s +:+ nl <> a +:+ line l +:+ r.
Proof.
  intros Hf H. assert (has_line s l = true); [|congruence]. apply Contains_spec. eauto.
Qed.

(** The frame's first line stands at the head of [b ++ nl ++ text ++ line e ++ trailing] and
    nowhere after it. *)
Lemma no_later_begin f text trailing a r :
  frame_ok f -> has_line text (f_begin f) = false -> has_line trailing (f_begin f) = false ->
  f_begin f +:+ nl +:+ text +:+ line (f_end f) +:+ trailing <> a +:+ line (f_begin f) +:+ r.
Proof.
  intros (Hb & He & Hne & _) Ht Htr H.
  apply line_overlap in H as [[r' H]|(a1 & _ & H)]; [by apply word_no_line in H| |done].
  assert (H' : (nl +:+ text) +:+ nl +:+ (f_end f +:+ nl +:+ trailing) = a1 +:+ line (f_begin f) +:+ r).
  { rewrite <- H. unfold line. by rewrite !append_assoc. }
  clear H. apply line_overlap in H' as [[r' H]|(a2 & _ & H)]; [|clear a1|done].
  { apply (has_line_false text (f_begin f) a1 r'); [done|]. by rewrite <- H, append_assoc. }
  destruct a2 as [|x a2].
  { unfold line, nl in H. cbn in H. injection H as H. rewrite append_assoc in H.
    by apply no_byte_same in H as [H _]. }
  unfold nl at 1 in H. cbn in H. injection H as <- H.
  apply line_overlap in H as [[r' H]|(a3 & _ & H)]; [by apply word_no_line in H| |done].
  apply (has_line_false trailing (f_begin f) a3 (r +:+ nl)); [done|].
  rewrite <- !append_assoc. rewrite H. by rewrite !append_assoc.
Qed.

Lemma no_earlier_end e text trailing a r :
  no_byte nlc e -> (forall a' r', text +:+ nl <> a' +:+ line e +:+ r') ->
  text +:+ line e +:+ trailing = a +:+ line e +:+ r ->
  (String.length text <= String.length a)%nat.
Proof.
  intros He Ht H. unfold line in H at 1. rewrite !append_assoc in H.
  apply line_overlap in H as [[r' H]|(a' & -> & _)]; [by apply Ht in H| |done].
  rewrite length_append. lia.
Qed.

Lemma has_line_after s l a r : has_line s l = false -> s +:+ nl <> a +:+ line l +:+ r.
Proof.
  intros Hf H. apply (has_line_false s l (nl +:+ a) r Hf). by rewrite H, append_assoc.
Qed.

(** ** The two halves of [cutFrame] *)

Definition after_begin (f : Frame) (s : string) (room : nat) : option string :=
  let begin_ := line (f_begin f) in
  let head := if (0 <? room)%nat then Nat.min (String.length s) (room + String.length begin_)
              else String.length s in
  match (match LastIndex (take_bytes head s) begin_ with
         | Some i => Some i
         | None => if (head <? String.length s)%nat then LastIndex s begin_ else None
         end) with
  | Some i => Some (drop_bytes (i + String.length begin_) s)
  | None => if HasPrefix s (drop_bytes 1 begin_) then Some (drop_bytes (String.length begin_ - 1) s)
            else None
  end.

Definition end_at (f : Frame) (rest : string) (room : nat) : option nat :=
  let end_ := line (f_end f) in
  let from := (String.length rest - room - String.length end_)%nat in
  match (if ((0 <? room) && (0 <? from))%nat
         then (fun k => (from + k)%nat) <$> Index (drop_bytes from rest) end_ else None) with
  | Some j => Some j
  | None => Index rest end_
  end.

(** The bytes of the end line that are the end line's whatever the script printed: its
    constant part and the trusted digits of the nonce. *)
Definition trusted (f : Frame) : nat :=
  (String.length (line (f_end f)) - frameNonceDigits - 1 + frameNonceTrusted)%nat.

Definition cut_tail (f : Frame) (rest : string) : string * bool * bool :=
  let end_ := line (f_end f) in
  match tail_start end_ rest (Nat.min (String.length end_ - 1) (String.length rest)) with
  | Some k => (take_bytes (String.length rest - k) rest, true, (k <? trusted f)%nat)
  | None => (rest, true, true)
  end.

Lemma cutFrame_parts f s truncated room :
  cutFrame f s truncated room =
    match after_begin f s room with
    | None => (EmptyString, false, false)
    | Some rest =>
        match end_at f rest room with
        | Some j => (take_bytes j rest, true, false)
        | None => if negb truncated then (EmptyString, false, false) else cut_tail f rest
        end
    end.
Proof. reflexivity. Qed.

Lemma take_bytes_all n s : (String.length s <= n)%nat -> take_bytes n s = s.
Proof. revert s; induction n as [|n IH]; intros [|x s]; cbn; intros; [done|lia|done|]. by rewrite IH by lia. Qed.

Lemma drop_bytes_prefix n a b :
  (n <= String.length a)%nat -> drop_bytes n (a +:+ b) = drop_bytes n a +:+ b.
Proof. revert a; induction n as [|n IH]; intros [|x a]; cbn; intros; [done..|lia|]. by rewrite IH by lia. Qed.

Lemma take_bytes_prefix n a b :
  (n <= String.length a)%nat -> take_bytes n (a +:+ b) = take_bytes n a.
Proof. revert a; induction n as [|n IH]; intros [|x a]; cbn; intros; [by destruct b|done|lia|]. by rewrite IH by lia. Qed.

Lemma take_bytes_plus n a b : take_bytes (String.length a + n) (a +:+ b) = a +:+ take_bytes n b.
Proof. induction a as [|x a IH]; cbn; [done|by rewrite IH]. Qed.

Lemma drop_bytes_drop n m s : drop_bytes (n + m) s = drop_bytes m (drop_bytes n s).
Proof. revert s; induction n as [|n IH]; intros [|x s]; cbn; [done..|by destruct m|by rewrite IH]. Qed.

(** What stands before the begin line's word: nothing, or anything and a newline. *)
Definition lead_ok (lead : string) : Prop := lead = EmptyString \/ exists noise, lead = noise +:+ nl.

Lemma last_begin f noise p :
  (forall a r, f_begin f +:+ nl +:+ p <> a +:+ line (f_begin f) +:+ r) ->
  LastIndex (noise +:+ line (f_begin f) +:+ p) (line (f_begin f)) = Some (String.length noise).
Proof.
  intros Hno. apply LastIndex_at. intros a' b' H.
  destruct (decide (String.length a' <= String.length noise)%nat) as [|Hgt]; [done|].
  destruct (append_split _ _ _ _ H ltac:(lia)) as (m & -> & Hm).
  destruct m as [|x m]; [rewrite append_nil_r in Hgt; lia|].
  exfalso. unfold line at 1, nl at 1 in Hm. cbn in Hm. injection Hm as <- Hm.
  rewrite append_assoc in Hm. by apply Hno in Hm.
Qed.

Lemma after_begin_all f lead p :
  lead_ok lead -> (forall a r, f_begin f +:+ nl +:+ p <> a +:+ line (f_begin f) +:+ r) ->
  after_begin f (lead +:+ f_begin f +:+ nl +:+ p) 0 = Some p.
Proof.
  intros Hlead Hno. unfold after_begin.
  rewrite !Nat.ltb_irrefl, take_bytes_all by lia.
  destruct Hlead as [->|[noise ->]].
  - cbn [String.append]. rewrite LastIndex_absent by exact Hno.
    assert (Hd : drop_bytes 1 (line (f_begin f)) = f_begin f +:+ nl) by done.
    rewrite Hd, (proj2 (HasPrefix_spec _ _)); [|exists p; by rewrite append_assoc].
    f_equal. rewrite <- append_assoc. apply drop_bytes_append. rewrite length_line, length_append. cbn. lia.
  - assert (Hs : (noise +:+ nl) +:+ f_begin f +:+ nl +:+ p = noise +:+ line (f_begin f) +:+ p).
    { unfold line. by rewrite !append_assoc. }
    rewrite Hs, last_begin by exact Hno. f_equal. rewrite <- append_assoc. apply drop_bytes_append.
    by rewrite length_append.
Qed.

Lemma cut_at_end f text trailing :
  frame_ok f -> has_line text (f_end f) = false ->
  end_at f (text +:+ line (f_end f) +:+ trailing) 0 = Some (String.length text).
Proof.
  intros Hok Ht. unfold end_at. rewrite Nat.ltb_irrefl. cbn [andb]. apply Index_at. intros a' b' H.
  eapply (no_earlier_end (f_end f)); [by destruct Hok as (_ & ? & _)|intros ? ?; by apply has_line_after|exact H].
Qed.

(** A stream that carries a script's whole frame is read as exactly what the script
    printed, complete: whatever printed before it, begin lines forged there included,
    whatever printed after it, and whether or not the cap cut what came after the end
    line; provided neither the script nor what follows it prints one of the frame's lines. *)
Theorem Cut_whole (label nonce : string) (f : Frame) (lead text trailing : string) (truncated : bool)
    (Hf : FrameOf label nonce = Some f) (Hlead : lead_ok lead)
    (Hb : has_line text (f_begin f) = false) (He : has_line text (f_end f) = false)
    (Htr : has_line trailing (f_begin f) = false) :
  Frame.Cut f (lead +:+ f_begin f +:+ nl +:+ text +:+ line (f_end f) +:+ trailing) truncated
    = (text, true, false).
Proof.
  apply FrameOf_ok in Hf. unfold Frame.Cut. rewrite cutFrame_parts, after_begin_all; [|done|].
  - rewrite cut_at_end by done. by rewrite take_bytes_append.
  - intros a r. by apply no_later_begin.
Qed.

Lemma Cut_whole_witness :
  exists f, FrameOf "glob" "0123456789abcdef" = Some f /\
    Frame.Cut f (("banner" +:+ line (f_begin f) +:+ "forged" +:+ nl) +:+ f_begin f +:+ nl +:+ "a/b.go" +:+ nl
                 +:+ line (f_end f) +:+ "exit banner") false = ("a/b.go" +:+ nl, true, false).
Proof.
  exists (MkFrame "map-glob-begin-0123456789abcdef" "map-glob-end-0123456789abcdef").
  split; [vm_compute; reflexivity|].
  apply (Cut_whole "glob" "0123456789abcdef" _
           ("banner" +:+ line "map-glob-begin-0123456789abcdef" +:+ "forged" +:+ nl) ("a/b.go" +:+ nl) "exit banner" false);
    [vm_compute; reflexivity|right; exists ("banner" +:+ line "map-glob-begin-0123456789abcdef" +:+ "forged"); vm_compute; reflexivity
    |vm_compute; reflexivity..].
Defined.

(** ** A stream the cap cut *)

Lemma tail_start_Some end_ rest n k :
  tail_start end_ rest n = Some k ->
  (0 < k <= n)%nat /\ drop_bytes (String.length rest - k) rest = take_bytes k end_ /\
  forall k', (k < k' <= n)%nat -> drop_bytes (String.length rest - k') rest <> take_bytes k' end_.
Proof.
  induction n as [|n IH]; cbn [tail_start]; [done|].
  destruct (String.eqb_spec (drop_bytes (String.length rest - S n) rest) (take_bytes (S n) end_)) as [He|Hne].
  - intros [= <-]. split_and!; [lia|lia|done|]. intros k' ?. lia.
  - intros H. destruct (IH H) as (Hk & Hd & Hmax). split_and!; [lia|lia|done|].
    intros k' Hk'. destruct (decide (k' = S n)) as [->|]; [done|]. apply Hmax. lia.
Qed.

Lemma tail_start_None end_ rest n k :
  tail_start end_ rest n = None -> (0 < k <= n)%nat ->
  drop_bytes (String.length rest - k) rest <> take_bytes k end_.
Proof.
  induction n as [|n IH]; cbn [tail_start]; [lia|].
  destruct (String.eqb_spec (drop_bytes (String.length rest - S n) rest) (take_bytes (S n) end_)); [done|].
  intros H Hk. destruct (decide (k = S n)) as [->|]; [done|]. apply IH; [done|lia].
Qed.

(** The end line's start holds its newline once. *)
Lemma end_start_single m1 m2 e a :
  no_byte nlc e -> (0 < m2)%nat -> (m1 < String.length (line e))%nat ->
  take_bytes m1 (line e) = a +:+ take_bytes m2 (line e) -> a = EmptyString.
Proof.
  intros He H2 H1 H. destruct a as [|x a]; [done|]. exfalso. unfold line, nl in H.
  destruct m2 as [|m2]; [lia|]. destruct m1 as [|m1]; [done|]. cbn in H. injection H as _ H.
  rewrite length_line in H1. rewrite take_bytes_prefix in H by lia.
  assert (Hn : no_byte nlc (take_bytes m1 e)).
  { unfold no_byte in *. rewrite <- (take_drop_bytes m1 e), all_bytes_app in He.
    by apply andb_true_iff in He as [? _]. }
  rewrite H in Hn. unfold no_byte in Hn. rewrite all_bytes_app in Hn. cbn in Hn.
  by rewrite andb_false_r in Hn.
Qed.

(** The tail of a text and [m] bytes of the end line after it: those bytes. *)
Lemma tail_start_end text e m :
  no_byte nlc e -> (0 < m < String.length (line e))%nat ->
  let rest := text +:+ take_bytes m (line e) in
  tail_start (line e) rest (Nat.min (String.length (line e) - 1) (String.length rest)) = Some m.
Proof.
  intros He Hm rest. assert (Hlm : String.length (take_bytes m (line e)) = m) by (rewrite length_take_bytes; lia).
  assert (Hlr : String.length rest = (String.length text + m)%nat) by (unfold rest; rewrite length_append; lia).
  assert (Hq : drop_bytes (String.length rest - m) rest = take_bytes m (line e)).
  { unfold rest at 2. apply drop_bytes_append. lia. }
  destruct (tail_start _ _ _) as [k|] eqn:E.
  - apply tail_start_Some in E as (Hk & Hd & Hmax). f_equal.
    destruct (decide (k = m)) as [|Hne]; [done|]. exfalso. destruct (decide (k < m)%nat) as [Hlt|].
    + by apply (Hmax m); [lia|].
    + unfold rest at 2 in Hd. rewrite drop_bytes_prefix in Hd by lia. symmetry in Hd.
      apply end_start_single in Hd; [|done|lia|lia].
      apply (f_equal String.length) in Hd. rewrite length_drop_bytes in Hd. cbn in Hd. lia.
  - eapply tail_start_None in E; [|split; [apply Hm|lia]]. done.
Qed.

Lemma no_line_empty l : (0 < String.length l)%nat -> has_line EmptyString l = false.
Proof.
  intros Hl. destruct (has_line EmptyString l) eqn:E; [|done].
  apply Contains_spec in E as (a & b & H). apply (f_equal String.length) in H.
  rewrite !length_append, length_line in H. cbn in H. lia.
Qed.

(** The begin line of a stream cut after it is still its last. *)
Lemma after_begin_cut f lead text k :
  frame_ok f -> lead_ok lead -> has_line text (f_begin f) = false ->
  after_begin f (lead +:+ f_begin f +:+ nl +:+ take_bytes k (text +:+ line (f_end f))) 0
    = Some (take_bytes k (text +:+ line (f_end f))).
Proof.
  intros Hok Hlead Hb. apply after_begin_all; [done|]. intros a r H.
  apply (no_later_begin f text EmptyString a (r +:+ drop_bytes k (text +:+ line (f_end f))) Hok Hb).
  - apply no_line_empty. destruct Hok as (_ & _ & _ & _ & Hl). unfold frameNonceDigits in Hl. lia.
  - transitivity ((a +:+ line (f_begin f) +:+ r) +:+ drop_bytes k (text +:+ line (f_end f)));
      [|by rewrite !append_assoc].
    rewrite <- H, !append_assoc, take_drop_bytes. by rewrite append_nil_r.
Qed.

Lemma end_absent_cut f text k :
  frame_ok f -> has_line text (f_end f) = false -> (k < String.length text + String.length (line (f_end f)))%nat ->
  end_at f (take_bytes k (text +:+ line (f_end f))) 0 = None.
Proof.
  intros Hok He Hk. unfold end_at. rewrite Nat.ltb_irrefl. cbn [andb]. apply Index_absent. intros a r H.
  pose proof (f_equal (fun x => x +:+ drop_bytes k (text +:+ line (f_end f))) H) as H'. cbn beta in H'.
  rewrite take_drop_bytes, !append_assoc in H'.
  rewrite <- (append_nil_r (line (f_end f))) in H' at 1.
  apply no_earlier_end in H'; [|by destruct Hok as (_ & ? & _)|intros ? ?; by apply has_line_after].
  apply (f_equal String.length) in H. rewrite length_take_bytes, !length_append in H. lia.
Qed.

Lemma trusted_bounds f : frame_ok f -> (0 < trusted f < String.length (line (f_end f)) - 1)%nat.
Proof.
  intros (_ & _ & _ & Hl & _). unfold trusted. rewrite length_line.
  unfold frameNonceDigits, frameNonceTrusted in *. lia.
Qed.

(** What a cut inside the text leaves, less the start of an end line at its tail. *)
Lemma cut_tail_text f p :
  frame_ok f -> Contains p (take_bytes (trusted f) (line (f_end f))) = false ->
  exists got lost, cut_tail f p = (got, true, true) /\ p = got +:+ lost /\
    (String.length lost < trusted f)%nat.
Proof.
  intros Hok Hn. pose proof (trusted_bounds f Hok) as Ht. unfold cut_tail.
  destruct (tail_start _ _ _) as [k|] eqn:E.
  - apply tail_start_Some in E as (Hk & Hd & _).
    exists (take_bytes (String.length p - k) p), (drop_bytes (String.length p - k) p).
    rewrite take_drop_bytes. rewrite length_drop_bytes.
    assert (Hlt : (k < trusted f)%nat); [|rewrite (proj2 (Nat.ltb_lt _ _) Hlt); split_and!; [done..|lia]].
    destruct (decide (k < trusted f)%nat) as [|Hge]; [done|]. exfalso.
    assert (Hc : Contains p (take_bytes (trusted f) (line (f_end f))) = true); [|congruence].
    apply Contains_spec. exists (take_bytes (String.length p - k) p), (drop_bytes (trusted f) (take_bytes k (line (f_end f)))).
    rewrite <- (take_drop_bytes (String.length p - k) p) at 1. f_equal. rewrite Hd.
    rewrite <- (take_drop_bytes (trusted f) (take_bytes k (line (f_end f)))) at 1. f_equal.
    rewrite <- (take_drop_bytes k (line (f_end f))) at 2. rewrite take_bytes_prefix; [done|].
    rewrite length_take_bytes. lia.
  - exists p, EmptyString. rewrite append_nil_r. split_and!; [done..|cbn [String.length]; lia].
Qed.

(** A stream the cap cut after [k] bytes of the script's output and end line.  What is
    read is a prefix of what the script printed, the whole of it once the cut fell past it,
    never a byte of the end line, and never missing more of what arrived than an end line's
    start short of 8 nonce digits; it is reported short exactly while fewer than 8 nonce
    digits of the end line arrived.  The same stream without the cap's flag is no frame. *)
Theorem Cut_truncated (label nonce : string) (f : Frame) (lead text : string) (k : nat)
    (Hf : FrameOf label nonce = Some f) (Hlead : lead_ok lead)
    (Hb : has_line text (f_begin f) = false) (He : has_line text (f_end f) = false)
    (Hn : Contains text (take_bytes (trusted f) (line (f_end f))) = false)
    (Hk : (k < String.length text + String.length (line (f_end f)))%nat) :
  let s := lead +:+ f_begin f +:+ nl +:+ take_bytes k (text +:+ line (f_end f)) in
  (exists got lost short, Frame.Cut f s true = (got, true, short) /\ text = got +:+ lost /\
     (short = false <-> (String.length text + trusted f <= k)%nat) /\
     ((String.length text < k)%nat -> lost = EmptyString) /\
     (Nat.min k (String.length text) < String.length got + trusted f)%nat) /\
  Frame.Cut f s false = (EmptyString, false, false).
Proof.
  apply FrameOf_ok in Hf. pose proof (trusted_bounds f Hf) as Ht. intros s.
  assert (Hcut : forall tr, Frame.Cut f s tr =
    if negb tr then (EmptyString, false, false) else cut_tail f (take_bytes k (text +:+ line (f_end f)))).
  { intros tr. unfold Frame.Cut, s. rewrite cutFrame_parts, after_begin_cut by done.
    by rewrite end_absent_cut. }
  rewrite !Hcut. cbn [negb]. split; [|done].
  destruct (decide (String.length text < k)%nat) as [Hlt|Hge].
  - exists text, EmptyString. rewrite append_nil_r.
    set (m := (k - String.length text)%nat).
    assert (Hp : take_bytes k (text +:+ line (f_end f)) = text +:+ take_bytes m (line (f_end f))).
    { rewrite <- take_bytes_plus. f_equal. unfold m. lia. }
    rewrite Hp. unfold cut_tail. rewrite tail_start_end; [|by destruct Hf as (_ & ? & _)|unfold m; lia].
    exists (m <? trusted f)%nat. rewrite take_bytes_append.
    2:{ rewrite length_append, length_take_bytes. unfold m in *. lia. }
    split_and!; [done..| |done|lia]. rewrite Nat.ltb_ge. unfold m. lia.
  - rewrite take_bytes_prefix by lia.
    destruct (cut_tail_text f (take_bytes k text) Hf) as (got & lost & Hg & Hp & Hl).
    { destruct (Contains (take_bytes k text) _) eqn:E; [|done].
      apply Contains_spec in E as (a & b & E).
      assert (Hc : Contains text (take_bytes (trusted f) (line (f_end f))) = true); [|congruence].
      apply Contains_spec. exists a, (b +:+ drop_bytes k text).
      rewrite <- (take_drop_bytes k text) at 1. by rewrite E, !append_assoc. }
    exists got, (lost +:+ drop_bytes k text), true. rewrite <- append_assoc, <- Hp, take_drop_bytes.
    split_and!; [done..| |lia|].
    + split; [done|lia].
    + apply (f_equal String.length) in Hp. rewrite length_take_bytes, length_append in Hp. lia.
Qed.

Lemma Cut_truncated_witness :
  exists f, FrameOf "read" "0123456789abcdef" = Some f /\
    let s := ("hello" +:+ nl) +:+ f_begin f +:+ nl +:+ take_bytes 29 ("0123456789" +:+ line (f_end f)) in
    Frame.Cut f s true = ("0123456789", true, true) /\
    (exists got lost short, Frame.Cut f s true = (got, true, short) /\ "0123456789" = got +:+ lost /\
       (short = false <-> (10 + trusted f <= 29)%nat) /\ ((10 < 29)%nat -> lost = EmptyString) /\
       (Nat.min 29 10 < String.length got + trusted f)%nat) /\
    Frame.Cut f s false = (EmptyString, false, false).
Proof.
  exists (MkFrame "map-read-begin-0123456789abcdef" "map-read-end-0123456789abcdef").
  split; [vm_compute; reflexivity|]. intros s. split; [vm_compute; reflexivity|].
  apply (Cut_truncated "read" "0123456789abcdef" _ ("hello" +:+ nl) "0123456789" 29);
    [vm_compute; reflexivity|right; by exists "hello"|vm_compute; reflexivity..|vm_compute; lia].
Defined.

(** ** Looking near the ends *)

Lemma within_begin f noise file trailing room :
  frame_ok f -> (0 < room)%nat -> (String.length noise <= room)%nat ->
  has_line (take_bytes room file) (f_begin f) = false -> has_line trailing (f_begin f) = false ->
  after_begin f (noise +:+ line (f_begin f) +:+ file +:+ line (f_end f) +:+ trailing) room
    = Some (file +:+ line (f_end f) +:+ trailing).
Proof.
  intros Hok Hr Hn Hb Htr. unfold after_begin. rewrite (proj2 (Nat.ltb_lt _ _) Hr).
  set (body := file +:+ line (f_end f) +:+ trailing).
  set (head := Nat.min _ _). set (n := (head - String.length noise - String.length (line (f_begin f)))%nat).
  assert (Hhead : take_bytes head (noise +:+ line (f_begin f) +:+ body)
                  = noise +:+ line (f_begin f) +:+ take_bytes n body).
  { rewrite <- !take_bytes_plus. f_equal. unfold n, head. rewrite !length_append. lia. }
  assert (Hbody : take_bytes n body = take_bytes n (take_bytes room file +:+ line (f_end f) +:+ trailing)).
  { unfold body. assert (Hnr : (n <= room)%nat) by (unfold n, head; lia).
    destruct (decide (room <= String.length file)%nat) as [Hle|Hgt].
    - rewrite !take_bytes_prefix; [|rewrite length_take_bytes; lia|lia].
      rewrite <- (take_drop_bytes room file) at 1. apply take_bytes_prefix. rewrite length_take_bytes. lia.
    - by rewrite (take_bytes_all room file) by lia. }
  rewrite Hhead, last_begin.
  - f_equal. rewrite <- append_assoc. apply drop_bytes_append. by rewrite length_append.
  - intros a r H. rewrite Hbody in H.
    apply (no_later_begin f (take_bytes room file) trailing a
             (r +:+ drop_bytes n (take_bytes room file +:+ line (f_end f) +:+ trailing)) Hok Hb Htr).
    transitivity ((a +:+ line (f_begin f) +:+ r)
      +:+ drop_bytes n (take_bytes room file +:+ line (f_end f) +:+ trailing)); [|by rewrite !append_assoc].
    by rewrite <- H, !append_assoc, take_drop_bytes.
Qed.

Lemma within_end f file trailing room :
  frame_ok f -> (0 < room)%nat -> (String.length trailing <= room)%nat ->
  has_line (drop_bytes (String.length file - room) file) (f_end f) = false ->
  end_at f (file +:+ line (f_end f) +:+ trailing) room = Some (String.length file).
Proof.
  intros Hok Hr Ht He. unfold end_at. set (from := (_ - _ - _)%nat).
  assert (Hfrom : from = (String.length file + String.length trailing - room)%nat)
    by (unfold from; rewrite !length_append; lia).
  assert (Hend : no_byte nlc (f_end f)) by (by destruct Hok as (_ & ? & _)).
  destruct ((0 <? room) && (0 <? from))%nat eqn:Hb.
  - apply andb_true_iff in Hb as [_ Hpos%Nat.ltb_lt].
    set (d := (String.length file - room)%nat) in *.
    assert (Hdd : drop_bytes from file = drop_bytes (from - d) (drop_bytes d file)).
    { rewrite <- drop_bytes_drop. f_equal. unfold d. lia. }
    rewrite drop_bytes_prefix by lia. rewrite Index_at.
    + cbn. f_equal. rewrite length_drop_bytes. lia.
    + intros a' b'. apply no_earlier_end; [done|]. intros a r H.
      apply (has_line_after _ _ (take_bytes (from - d) (drop_bytes d file) +:+ a) r He).
      rewrite append_assoc, <- H, <- append_assoc, Hdd. by rewrite take_drop_bytes.
  - apply Index_at. intros a' b'. apply no_earlier_end; [done|]. intros a r.
    apply has_line_after. revert He. replace (String.length file - room)%nat with O; [done|].
    apply andb_false_iff in Hb as [Hb%Nat.ltb_ge|Hb%Nat.ltb_ge]; lia.
Qed.

(** A file read within a room is the file, even one that holds the frame's own lines,
    as long as it does not hold the begin line among its first [room] bytes nor the end
    line among its last [room] bytes, and what printed around the frame fits the room. *)
Theorem CutBytesWithin_file (label nonce : string) (f : Frame) (noise file trailing : string) (room : nat) (truncated : bool)
    (Hf : FrameOf label nonce = Some f) (Hr : (0 < room)%nat)
    (Hn : (String.length noise <= room)%nat) (Ht : (String.length trailing <= room)%nat)
    (Hb : has_line (take_bytes room file) (f_begin f) = false)
    (He : has_line (drop_bytes (String.length file - room) file) (f_end f) = false)
    (Htr : has_line trailing (f_begin f) = false) :
  CutBytesWithin f (noise +:+ line (f_begin f) +:+ file +:+ line (f_end f) +:+ trailing) truncated room
    = (file, true, false).
Proof.
  apply FrameOf_ok in Hf. unfold CutBytesWithin.
  by rewrite cutFrame_parts, within_begin, within_end, take_bytes_append.
Qed.

Lemma CutBytesWithin_file_witness :
  exists f, FrameOf "read" "0123456789abcdef" = Some f /\
    let pad := "0123456789012345678901234567890123456789" in
    let file := pad +:+ line (f_begin f) +:+ "middle" +:+ line (f_end f) +:+ pad in
    CutBytesWithin f ("banner" +:+ line (f_begin f) +:+ file +:+ line (f_end f) +:+ "trap") false 40 = (file, true, false).
Proof.
  exists (MkFrame "map-read-begin-0123456789abcdef" "map-read-end-0123456789abcdef").
  split; [vm_compute; reflexivity|]. intros pad file.
  apply (CutBytesWithin_file "read" "0123456789abcdef");
    [vm_compute; reflexivity|vm_compute; lia..|vm_compute; reflexivity|vm_compute; reflexivity|vm_compute; reflexivity].
Defined.

(** [l] stands as a line of its own at one place of [s] at most. *)
Definition once (s l : string) : Prop :=
  forall a r a' r', s = a +:+ line l +:+ r -> s = a' +:+ line l +:+ r' -> String.length a = String.length a'.

Lemma LastIndex_once s l a r : once s l -> s = a +:+ line l +:+ r -> LastIndex s (line l) = Some (String.length a).
Proof.
  intros Ho ->. apply LastIndex_at. intros a' b' H. by rewrite (Ho _ _ _ _ H eq_refl).
Qed.

Lemma Index_once s l a r : once s l -> s = a +:+ line l +:+ r -> Index s (line l) = Some (String.length a).
Proof.
  intros Ho ->. apply Index_at. intros a' b' H. by rewrite (Ho _ _ _ _ H eq_refl).
Qed.

Lemma once_suffix s l n : once s l -> once (drop_bytes n s) l.
Proof.
  intros Ho a r a' r' H H'.
  specialize (Ho (take_bytes n s +:+ a) r (take_bytes n s +:+ a') r').
  rewrite !append_assoc, <- H, <- H', take_drop_bytes in Ho. specialize (Ho eq_refl eq_refl).
  rewrite !length_append in Ho. lia.
Qed.

Lemma after_begin_suffix f s room rest : after_begin f s room = Some rest -> exists n, rest = drop_bytes n s.
Proof.
  unfold after_begin. repeat case_match; intros [= <-]; eauto.
Qed.

(** On a stream that holds each of the frame's lines once at most, the room is only
    a way to find them sooner: [CutBytesWithin] answers as [CutBytes] does, for every
    room and whether or not the cap cut the stream. *)
Theorem CutBytesWithin_CutBytes (f : Frame) (s : string) (truncated : bool) (room : nat)
    (Hb : once s (f_begin f)) (He : once s (f_end f)) :
  CutBytesWithin f s truncated room = CutBytes f s truncated.
Proof.
  unfold CutBytesWithin, CutBytes. rewrite !cutFrame_parts.
  assert (Hab : after_begin f s room = after_begin f s 0).
  { unfold after_begin. rewrite Nat.ltb_irrefl, (take_bytes_all (String.length s)), Nat.ltb_irrefl by lia.
    set (head := if (0 <? room)%nat then _ else _).
    destruct (LastIndex (take_bytes head s) _) as [i|] eqn:E.
    - apply LastIndex_Some in E as (a & b & Hab & <- & _).
      rewrite (LastIndex_once s _ a (b +:+ drop_bytes head s)); [done..|].
      rewrite <- (take_drop_bytes head s) at 1. by rewrite Hab, !append_assoc.
    - destruct (head <? String.length s)%nat eqn:Hh; [by destruct (LastIndex s _)|].
      apply Nat.ltb_ge in Hh. rewrite take_bytes_all in E by done. by rewrite E. }
  rewrite Hab. destruct (after_begin f s 0) as [rest|] eqn:Er; [|done].
  assert (Hea : end_at f rest room = end_at f rest 0); [|by rewrite Hea].
  apply after_begin_suffix in Er as [n ->]. apply (once_suffix _ _ n) in He. revert He.
  generalize (drop_bytes n s). clear. intros rest He. unfold end_at. rewrite Nat.ltb_irrefl. cbn [andb].
  destruct ((0 <? room) && _)%nat; [|done]. set (from := (_ - _ - _)%nat).
  destruct (Index (drop_bytes from rest) _) as [k|] eqn:E; [|done].
  apply Index_Some in E as (a & b & Hab & <- & _). cbn [fmap option_fmap option_map].
  rewrite (Index_once rest _ (take_bytes from rest +:+ a) b); [|done|].
  - rewrite length_append, length_take_bytes. f_equal.
    assert (from <= String.length rest)%nat; [unfold from; lia|lia].
  - rewrite append_assoc, <- Hab. by rewrite take_drop_bytes.
Qed.

(** ** When the status answers *)

(** The stream carries a frame whole. *)
Definition whole (f : Frame) (s : string) (truncated : bool) : Prop :=
  exists text, Frame.Cut f s truncated = (text, true, false).

Lemma no_end_not_whole f s truncated :
  frame_ok f -> Contains s (take_bytes (trusted f) (line (f_end f))) = false -> ~ whole f s truncated.
Proof.
  intros Hok Hn [text H]. unfold Frame.Cut in H. rewrite cutFrame_parts in H.
  destruct (after_begin f s 0) as [rest|] eqn:Er; [|done].
  assert (Hnr : Contains rest (take_bytes (trusted f) (line (f_end f))) = false).
  { apply after_begin_suffix in Er as [n ->]. destruct (Contains (drop_bytes n s) _) eqn:E; [|done].
    apply Contains_spec in E as (a & b & E).
    assert (Hc : Contains s (take_bytes (trusted f) (line (f_end f))) = true); [|congruence].
    apply Contains_spec. exists (take_bytes n s +:+ a), b.
    by rewrite append_assoc, <- E, take_drop_bytes. }
  unfold end_at in H. rewrite Nat.ltb_irrefl in H. cbn [andb] in H.
  destruct (Index rest _) as [j|] eqn:Ej.
  - apply Index_Some in Ej as (a & b & -> & _).
    assert (Hc : Contains (a +:+ line (f_end f) +:+ b) (take_bytes (trusted f) (line (f_end f))) = true); [|congruence].
    apply Contains_spec. exists a, (drop_bytes (trusted f) (line (f_end f)) +:+ b).
    rewrite <- (append_assoc (take_bytes _ _)), take_drop_bytes. done.
  - destruct truncated; cbn [negb] in H; [|done].
    destruct (cut_tail_text f rest Hok Hnr) as (got & lost & Hg & _). congruence.
Qed.

Lemma Answer_iff f what res :
  (Answer f what res).2 = None <->
    whole f (Stdout res) (StdoutTruncated res) \/ whole f (Stderr res) (StderrTruncated res).
Proof.
  unfold Answer, UnframeStatus, Unframe, whole.
  destruct (Frame.Cut f (Stdout res) _) as [[out framed] short] eqn:Eo.
  destruct (Frame.Cut f (Stderr res) _) as [[msg mframed] mshort] eqn:Em.
  destruct framed, short, mframed, mshort; cbn; split;
    try (intros [[? ?]|[? ?]]; congruence); try done; intros _;
    first [left; by eexists|right; by eexists].
Qed.

(** A run's exit status is taken for the script's exactly when one of its streams
    carries the frame whole, the end line included; so a run whose streams never got 8
    nonce digits into an end line (a shell killed before [close_frame], an image's startup
    that exited on its own, a transport that lost the tail) has no answer whatever status
    it ended with.  The status and the deadline flag are never changed, and where there is
    no answer the result is what the sandbox reported and the reason is [Unanswered]'s. *)
Theorem Answer_status (label nonce : string) (f : Frame) (what : string) (res : ExecResult)
    (Hf : FrameOf label nonce = Some f) :
  let '(out, err) := Answer f what res in
  (err = None <-> whole f (Stdout res) (StdoutTruncated res) \/ whole f (Stderr res) (StderrTruncated res)) /\
  (Contains (Stdout res) (take_bytes (trusted f) (line (f_end f))) = false ->
   Contains (Stderr res) (take_bytes (trusted f) (line (f_end f))) = false -> err = Some (Unanswered f what res)) /\
  ExitCode out = ExitCode res /\ TimedOut out = TimedOut res /\
  (err <> None -> out = res).
Proof.
  apply FrameOf_ok in Hf. pose proof (Answer_iff f what res) as Hiff.
  destruct (Answer f what res) as [out err] eqn:Ea. cbn [snd] in Hiff.
  assert (Hshape : err = None \/ (err = Some (Unanswered f what res) /\ out = res)).
  { unfold Answer in Ea. destruct (UnframeStatus f res) as [o []]; simplify_eq; auto. }
  split; [done|]. split.
  { intros Ho He. destruct Hshape as [->|[-> _]]; [|done].
    destruct (proj1 Hiff eq_refl) as [H|H]; by apply no_end_not_whole in H. }
  assert (Hkeep : ExitCode out = ExitCode res /\ TimedOut out = TimedOut res);
    [|destruct Hkeep; split_and!; [done..|intros Hne; by destruct Hshape as [->|[_ ->]]]].
  revert Ea. clear. unfold Answer, UnframeStatus, Unframe.
  repeat case_match; intros [= <- _]; simplify_eq/=; done.
Qed.

Lemma Answer_status_witness :
  exists f, FrameOf "probe" "0123456789abcdef" = Some f /\
    let res := MkExecResult ("motd" +:+ nl) EmptyString 3 false false false in
    Answer f "the probe" res = (res, Some (StartupExitError "the probe" 3)) /\
    Contains (Stdout res) (take_bytes (trusted f) (line (f_end f))) = false.
Proof.
  exists (MkFrame "map-probe-begin-0123456789abcdef" "map-probe-end-0123456789abcdef").
  split; [vm_compute; reflexivity|]. intros res.
  pose proof (Answer_status "probe" "0123456789abcdef"
    (MkFrame "map-probe-begin-0123456789abcdef" "map-probe-end-0123456789abcdef") "the probe" res) as H.
  specialize (H ltac:(vm_compute; reflexivity)).
  split; [|vm_compute; reflexivity].
  destruct (Answer _ _ _) as [out err]. destruct H as (_ & Hn & _ & _ & Hr).
  rewrite Hn in Hr by (vm_compute; reflexivity). rewrite Hr by done. rewrite Hn by (vm_compute; reflexivity).
  vm_compute. reflexivity.
Defined.
