(* ===== verification/GoNet.v ===== *)
(** * GoNet: the parts of Go's [net] and [net/netip] packages the code uses.

    A [net.IP] is a slice of bytes: 4 or 16 of them, or a value of another length, which
    every predicate answers false for.  A [netip.Addr] is one of the two families, an
    IPv6 one with its zone. *)
From Stdlib Require Import Ascii Lia.
From S2P Require Import Prelude GoStrings.

(** ** net.IP *)

Definition IP := list Z.

Definition bytes_eqb (a b : list Z) : bool := bool_decide (a = b).

Definition v4InV6Prefix : list Z := [0; 0; 0; 0; 0; 0; 0; 0; 0; 0; 255; 255].

(** [IPv4]: the sixteen-byte form. *)
Definition IPv4 (a b c d : Z) : IP := v4InV6Prefix ++ [a; b; c; d].

Definition To4 (ip : IP) : option IP :=
  if Nat.eqb (length ip) 4 then Some ip
  else if Nat.eqb (length ip) 16 && bytes_eqb (take 12 ip) v4InV6Prefix then Some (drop 12 ip)
  else None.

Definition To16 (ip : IP) : option IP :=
  if Nat.eqb (length ip) 4 then Some (v4InV6Prefix ++ ip)
  else if Nat.eqb (length ip) 16 then Some ip
  else None.

(** [Equal]: an IPv4 address and its mapped form are equal. *)
Definition IP_Equal (ip x : IP) : bool :=
  if Nat.eqb (length ip) (length x) then bytes_eqb ip x
  else if Nat.eqb (length ip) 4 && Nat.eqb (length x) 16
  then bytes_eqb (take 12 x) v4InV6Prefix && bytes_eqb ip (drop 12 x)
  else if Nat.eqb (length ip) 16 && Nat.eqb (length x) 4
  then bytes_eqb (take 12 ip) v4InV6Prefix && bytes_eqb (drop 12 ip) x
  else false.

Definition byte_at (ip : IP) (i : nat) : Z := nth i ip 0.

Definition IPv4zero : IP := IPv4 0 0 0 0.
Definition IPv6unspecified : IP := repeat 0 16.
Definition IPv6loopback : IP := repeat 0 15 ++ [1].

Definition IsUnspecified (ip : IP) : bool := IP_Equal ip IPv4zero || IP_Equal ip IPv6unspecified.

Definition IsLoopback (ip : IP) : bool :=
  match To4 ip with
  | Some ip4 => byte_at ip4 0 =? 127
  | None => IP_Equal ip IPv6loopback
  end.

Definition IsMulticast (ip : IP) : bool :=
  match To4 ip with
  | Some ip4 => Z.land (byte_at ip4 0) 0xf0 =? 0xe0
  | None => Nat.eqb (length ip) 16 && (byte_at ip 0 =? 0xff)
  end.

Definition IsLinkLocalMulticast (ip : IP) : bool :=
  match To4 ip with
  | Some ip4 => (byte_at ip4 0 =? 224) && (byte_at ip4 1 =? 0) && (byte_at ip4 2 =? 0)
  | None => Nat.eqb (length ip) 16 && (byte_at ip 0 =? 0xff) && (Z.land (byte_at ip 1) 0x0f =? 0x02)
  end.

Definition IsLinkLocalUnicast (ip : IP) : bool :=
  match To4 ip with
  | Some ip4 => (byte_at ip4 0 =? 169) && (byte_at ip4 1 =? 254)
  | None => Nat.eqb (length ip) 16 && (byte_at ip 0 =? 0xfe) && (Z.land (byte_at ip 1) 0xc0 =? 0x80)
  end.

(** ** netip.Addr *)

Inductive Addr := Addr4 (b : list Z) | Addr6 (b : list Z) (zone : string).

#[global] Instance Addr_eq_dec : EqDecision Addr.
Proof. solve_decision. Defined.

Definition AddrFromSlice (s : list Z) : option Addr :=
  if Nat.eqb (length s) 4 then Some (Addr4 s)
  else if Nat.eqb (length s) 16 then Some (Addr6 s EmptyString)
  else None.

Definition Is4 (a : Addr) : bool := match a with Addr4 _ => true | Addr6 _ _ => false end.

Definition Is4In6 (a : Addr) : bool :=
  match a with Addr4 _ => false | Addr6 b _ => bytes_eqb (take 12 b) v4InV6Prefix end.

Definition Unmap (a : Addr) : Addr :=
  match a with
  | Addr4 _ => a
  | Addr6 b _ => if Is4In6 a then Addr4 (drop 12 b) else a
  end.

Definition WithZone (a : Addr) (zone : string) : Addr :=
  match a with Addr4 _ => a | Addr6 b _ => Addr6 b zone end.

Definition AsSlice (a : Addr) : list Z := match a with Addr4 b => b | Addr6 b _ => b end.

Definition Zone (a : Addr) : string := match a with Addr4 _ => EmptyString | Addr6 _ z => z end.

(** *** Spelling an address *)

Definition digit_char (n : Z) : ascii :=
  ascii_of_N (Z.to_N (if n <? 10 then 48 + n else 87 + n)).

(** A byte in decimal, a 16-bit group in hexadecimal; no leading zeros. *)
Definition dec_byte (n : Z) : string :=
  (if n <? 100 then EmptyString else String (digit_char (n / 100)) EmptyString) +:+
  (if n <? 10 then EmptyString else String (digit_char ((n / 10) mod 10)) EmptyString) +:+
  String (digit_char (n mod 10)) EmptyString.

Definition hex_group (n : Z) : string :=
  (if n <? 4096 then EmptyString else String (digit_char (n / 4096)) EmptyString) +:+
  (if n <? 256 then EmptyString else String (digit_char ((n / 256) mod 16)) EmptyString) +:+
  (if n <? 16 then EmptyString else String (digit_char ((n / 16) mod 16)) EmptyString) +:+
  String (digit_char (n mod 16)) EmptyString.

Definition string4 (b : list Z) : string := Join (map dec_byte b) ".".

Definition group (b : list Z) (i : nat) : Z := 256 * byte_at b (2 * i) + byte_at b (2 * i + 1).

Definition groups (b : list Z) : list Z := map (group b) (seq 0 8).

Fixpoint zero_run (gs : list Z) : nat :=
  match gs with 0 :: gs' => S (zero_run gs') | _ => O end.

(** The first of the longest runs of at least two zero groups: where, how many. *)
Fixpoint longest_run (gs : list Z) (i : nat) (best : nat * nat) : nat * nat :=
  match gs with
  | [] => best
  | _ :: gs' =>
      let l := zero_run gs in
      longest_run gs' (S i) (if (2 <=? l)%nat && (snd best <? l)%nat then (i, l) else best)
  end.

Definition string6 (b : list Z) : string :=
  let gs := groups b in
  let '(start, len) := longest_run gs 0 (O, O) in
  let hex l := Join (map hex_group l) ":" in
  if Nat.eqb len 0 then hex gs
  else hex (take start gs) +:+ "::" +:+ hex (drop (start + len) gs).

Definition Addr_String (a : Addr) : string :=
  match a with
  | Addr4 b => string4 b
  | Addr6 b zone =>
      (if Is4In6 a then "::ffff:" +:+ string4 (drop 12 b) else string6 b) +:+
      (if String.eqb zone EmptyString then EmptyString else "%" +:+ zone)
  end.

(** *** Reading an address *)

Definition ipv4_byte (f : string) : option Z :=
  match f with
  | EmptyString => None
  | String "0" (String _ _) => None
  | _ => match digits 0 f with Some v => if v <=? 255 then Some v else None | None => None end
  end.

Definition parse4 (s : string) : option (list Z) :=
  let fs := Split s "." in
  if Nat.eqb (length fs) 4 then mapM ipv4_byte fs else None.

Definition hex_value (c : ascii) : option Z :=
  if in_range 48 57 (ord c) then Some (ord c - 48)
  else if in_range 97 102 (ord c) then Some (ord c - 87)
  else if in_range 65 70 (ord c) then Some (ord c - 55)
  else None.

(** A group's digits, at most [n] of them: the value, what follows; [None] past [n]. *)
Fixpoint hex_digits (n : nat) (acc : Z) (s : string) : option (Z * string) :=
  match s with
  | EmptyString => Some (acc, s)
  | String c s' =>
      match hex_value c with
      | None => Some (acc, s)
      | Some d => match n with O => None | S n' => hex_digits n' (acc * 16 + d) s' end
      end
  end.

(** The groups from [s] on: the bytes read and, where an ellipsis was met, how many bytes
    stood before it.  [i] bytes are read so far, [ell] is the ellipsis met so far, [n]
    bounds the groups left. *)
Fixpoint parse_groups (n i : nat) (ell : option nat) (acc : list Z) (s : string)
  : option (list Z * option nat) :=
  match n with
  | O => if String.eqb s EmptyString then Some (acc, ell) else None
  | S n' =>
      match hex_digits 4 0 s with
      | None => None
      | Some (v, rest) =>
          if String.eqb rest s then None
          else match rest with
               | EmptyString => Some (acc ++ [v / 256; v mod 256], ell)
               | String "." _ =>
                   if (negb (Nat.eqb i 12) && bool_decide (ell = None)) || (16 <? i + 4)%nat then None
                   else match parse4 s with
                        | Some b => Some (acc ++ b, ell)
                        | None => None
                        end
               | String ":" (String c rest' as more) =>
                   if Ascii.eqb c ":" then
                     match ell with
                     | Some _ => None
                     | None =>
                         if String.eqb rest' EmptyString
                         then Some (acc ++ [v / 256; v mod 256], Some (i + 2)%nat)
                         else parse_groups n' (i + 2) (Some (i + 2)%nat) (acc ++ [v / 256; v mod 256]) rest'
                     end
                   else parse_groups n' (i + 2) ell (acc ++ [v / 256; v mod 256]) more
               | String _ _ => None
               end
      end
  end.

(** The address's sixteen bytes, the ellipsis expanded to at least one group. *)
Definition expand (bs : list Z) (ell : option nat) : option (list Z) :=
  match ell with
  | None => if Nat.eqb (length bs) 16 then Some bs else None
  | Some e =>
      if (length bs <? 16)%nat
      then Some (take e bs ++ repeat 0 (16 - length bs) ++ drop e bs)
      else None
  end.

Definition parse6 (in_ : string) : option Addr :=
  let '(s, zone, scoped) := Cut in_ "%" in
  if (scoped : bool) && String.eqb zone EmptyString then None
  else
    let zone := if scoped then zone else EmptyString in
    let parsed :=
      match CutPrefix s "::" with
      | Some EmptyString => Some (repeat 0 16)
      | Some s' =>
          match parse_groups 8 0 (Some O) [] s' with
          | Some (bs, ell) => expand bs ell
          | None => None
          end
      | None =>
          match parse_groups 8 0 None [] s with
          | Some (bs, ell) => expand bs ell
          | None => None
          end
      end in
    (fun b => Addr6 b zone) <$> parsed.

(** The first of the three bytes that say what kind of text this is. *)
Fixpoint addr_kind (s : string) : option ascii :=
  match s with
  | EmptyString => None
  | String c s' => if Ascii.eqb c "." || Ascii.eqb c ":" || Ascii.eqb c "%" then Some c else addr_kind s'
  end.

Definition ParseAddr (s : string) : option Addr :=
  match addr_kind s with
  | Some c => if Ascii.eqb c "." then Addr4 <$> parse4 s
              else if Ascii.eqb c ":" then parse6 s else None
  | None => None
  end.

(** [net.ParseIP]: no zone, sixteen bytes. *)
Definition ParseIP (s : string) : option IP :=
  match ParseAddr s with
  | Some a => if String.eqb (Zone a) EmptyString then To16 (AsSlice a) else None
  | None => None
  end.

(** ** Hosts and ports *)

Definition contains_byte (s : string) (c : ascii) : bool := negb (all_bytes (fun a => negb (Ascii.eqb a c)) s).

Inductive split_error := missingPort | tooManyColons | missingBracket | unexpectedBracket.

(** [net.SplitHostPort] *)
Definition SplitHostPort (hostport : string) : result split_error (string * string) :=
  match LastIndex hostport ":" with
  | None => Err missingPort
  | Some i =>
      let finish (host : string) (j k : nat) :=
        if contains_byte (drop_bytes j hostport) "[" then Err unexpectedBracket
        else if contains_byte (drop_bytes k hostport) "]" then Err unexpectedBracket
        else Ok (host, drop_bytes (S i) hostport) in
      if HasPrefix hostport "[" then
        match Index hostport "]" with
        | None => Err missingBracket
        | Some e =>
            if Nat.eqb (S e) (String.length hostport) then Err missingPort
            else if Nat.eqb (S e) i then finish (take_bytes (e - 1) (drop_bytes 1 hostport)) 1%nat (S e)
            else if HasPrefix (drop_bytes (S e) hostport) ":" then Err tooManyColons
            else Err missingPort
        end
      else
        let host := take_bytes i hostport in
        if contains_byte host ":" then Err tooManyColons else finish host O O
  end.

Definition JoinHostPort (host port : string) : string :=
  if contains_byte host ":" then "[" +:+ host +:+ "]:" +:+ port else host +:+ ":" +:+ port.
