(* ===== verification/DialGuard.v ===== *)
(** * DialGuard: which addresses may be dialled (internal/dialguard/dialguard.go) and the
    dialler that asks (internal/dialguard/resolvedial.go).

    The guard judges addresses; the dialler resolves a name once, has every address
    judged, and dials what is left.  An instant is a count of nanoseconds; the clock is
    passed from call to call. *)
From Stdlib Require Import Ascii Lia.
From S2P Require Import Prelude GoStrings GoNet.

(** ** The guard *)

(** The two refusals of [IPAllowed]; both wrap [ErrRefused]. *)
Inductive refusal := UnusableAddress | DisallowedAddress (ip : IP).

Definition refused (ip : IP) : bool :=
  IsLoopback ip || IsLinkLocalUnicast ip || IsLinkLocalMulticast ip ||
  IsUnspecified ip || IsMulticast ip.

Definition v4 (a b c d : Z) : IP := [a; b; c; d].

Definition isZero (b : list Z) : bool := forallb (fun v => v =? 0) b.

(** [^b] on a byte. *)
Definition byte_not (b : Z) : Z := Z.lxor b 255.

Definition embeddedIPv4 (ip : IP) : list IP :=
  match To16 ip with
  | None => []
  | Some b =>
      if bool_decide (is_Some (To4 ip)) then []
      else
        let at_ := byte_at b in
        let out :=
          if (at_ 0%nat =? 0x20) && (at_ 1%nat =? 0x02)
          then [v4 (at_ 2%nat) (at_ 3%nat) (at_ 4%nat) (at_ 5%nat)]
          else if (at_ 0%nat =? 0x20) && (at_ 1%nat =? 0x01) && (at_ 2%nat =? 0) && (at_ 3%nat =? 0)
          then [v4 (byte_not (at_ 12%nat)) (byte_not (at_ 13%nat)) (byte_not (at_ 14%nat)) (byte_not (at_ 15%nat))]
          else if (at_ 0%nat =? 0) && (at_ 1%nat =? 0x64) && (at_ 2%nat =? 0xff) && (at_ 3%nat =? 0x9b)
          then [v4 (at_ 4%nat) (at_ 5%nat) (at_ 6%nat) (at_ 7%nat);
                v4 (at_ 5%nat) (at_ 6%nat) (at_ 7%nat) (at_ 9%nat);
                v4 (at_ 6%nat) (at_ 7%nat) (at_ 9%nat) (at_ 10%nat);
                v4 (at_ 7%nat) (at_ 9%nat) (at_ 10%nat) (at_ 11%nat);
                v4 (at_ 9%nat) (at_ 10%nat) (at_ 11%nat) (at_ 12%nat);
                v4 (at_ 12%nat) (at_ 13%nat) (at_ 14%nat) (at_ 15%nat)]
          else if isZero (take 8 b) && (at_ 8%nat =? 0xff) && (at_ 9%nat =? 0xff)
                  && (at_ 10%nat =? 0) && (at_ 11%nat =? 0)
          then [v4 (at_ 12%nat) (at_ 13%nat) (at_ 14%nat) (at_ 15%nat)]
          else if isZero (take 12 b)
          then [v4 (at_ 12%nat) (at_ 13%nat) (at_ 14%nat) (at_ 15%nat)]
          else [] in
        out ++
        (if (Z.land (at_ 8%nat) 0xfd =? 0) && (at_ 9%nat =? 0) && (at_ 10%nat =? 0x5e) && (at_ 11%nat =? 0xfe)
         then [v4 (at_ 12%nat) (at_ 13%nat) (at_ 14%nat) (at_ 15%nat)] else [])
  end.

(** The loop over the embedded targets: the first that is refused, an unspecified one
    skipped. *)
Fixpoint embedded_refused (targets : list IP) : bool :=
  match targets with
  | [] => false
  | target :: targets' =>
      if IsUnspecified target then embedded_refused targets'
      else if refused target then true else embedded_refused targets'
  end.

Definition IPAllowed (ip : IP) : result refusal unit :=
  match To16 ip with
  | None => Err UnusableAddress
  | Some _ =>
      if refused ip then Err (DisallowedAddress ip)
      else if embedded_refused (embeddedIPv4 ip) then Err (DisallowedAddress ip)
      else Ok tt
  end.

(** ** The dialler *)

Definition millisecond : Z := 1000000.
Definition second : Z := 1000000000.

Definition defaultFallbackDelay : Z := 300 * millisecond.
Definition minPartialTimeout : Z := 2 * second.

(** An answer of the resolver. *)
Record IPAddr := MkIPAddr { ia_IP : IP; ia_Zone : string }.

(** A context: its deadline, and the error it reports at an instant. *)
Record Ctx (E : Type) := MkCtx { Deadline : option Z; CtxErr : Z -> option E }.
Arguments MkCtx {E}. Arguments Deadline {E}. Arguments CtxErr {E}.

Definition portCarrying (network : string) : bool :=
  String.eqb network "tcp" || String.eqb network "tcp4" || String.eqb network "tcp6" ||
  String.eqb network "udp" || String.eqb network "udp4" || String.eqb network "udp6".

Definition wantedFamilies (network : string) : bool * bool :=
  if String.eqb network "tcp4" || String.eqb network "udp4" then (true, false)
  else if String.eqb network "tcp6" || String.eqb network "udp6" then (false, true)
  else (true, true).

Definition is4 (a : Addr) : bool := Is4 a || Is4In6 a.

(** One answer as [addrsOf] reads it, if it keeps it. *)
Definition addr_of (want4 want6 : bool) (ip : IPAddr) : option Addr :=
  match AddrFromSlice (ia_IP ip) with
  | None => None
  | Some a =>
      let a := Unmap a in
      if (Is4 a && negb want4) || (negb (Is4 a) && negb want6) then None
      else Some (WithZone a (ia_Zone ip))
  end.

(** [addrsOf]; no address left is its error. *)
Definition addrsOf (ips : list IPAddr) (network : string) : option (list Addr) :=
  let '(want4, want6) := wantedFamilies network in
  match omap (addr_of want4 want6) ips with
  | [] => None
  | out => Some out
  end.

Fixpoint partition (primaryIs4 : bool) (addrs : list Addr) : list Addr * list Addr :=
  match addrs with
  | [] => ([], [])
  | a :: addrs' =>
      let '(primary, fallback) := partition primaryIs4 addrs' in
      if Bool.eqb (is4 a) primaryIs4 then (a :: primary, fallback) else (primary, a :: fallback)
  end.

Definition joinAddrPort (a : Addr) (port : string) : string := JoinHostPort (Addr_String a) port.

(** [context.WithTimeout]: never later than its parent. *)
Definition WithTimeout {E} (ctx : Ctx E) (now d : Z) (expired : E) : Ctx E :=
  let dl := match Deadline ctx with Some p => Z.min p (now + d) | None => now + d end in
  MkCtx (Some dl) (fun t => match CtxErr ctx t with
                            | Some e => Some e
                            | None => if dl <=? t then Some expired else None
                            end).

(** [partialDeadline], at the instant [now]. *)
Definition partialDeadline {E} (ctx : Ctx E) (now : Z) (remaining : Z) (expired : E) : Ctx E :=
  match Deadline ctx with
  | None => ctx
  | Some deadline =>
      if remaining <=? 1 then ctx
      else
        let left := deadline - now in
        if left <=? 0 then ctx
        else
          let share := Z.quot left remaining in
          let share := if share <? minPartialTimeout
                       then if left <? minPartialTimeout then left else minPartialTimeout
                       else share in
          WithTimeout ctx now share expired
  end.

Section dialer.
(** [E]: the errors of contexts and sockets; [A]: the refusals of [Allow]; [Conn]: what a
    socket gives.  [allow] is [d.allow], [lookup] is [d.lookup], both already applied to
    the request's context; [dial] opens one socket, from an instant to an instant. *)
Context {E A Conn : Type}.

Inductive dial_error :=
| ErrEnv (e : E)                  (* the resolver's, the socket's or the context's own *)
| ErrAllow (a : A)                (* the floor's *)
| ErrNetwork (network : string)   (* no host and port to judge *)
| ErrNoSuitable                   (* the answer holds no address of the network's family *)
| ErrNoAddress.                   (* "no address to dial" *)

Record Dialer := MkDialer { Timeout : Z; FallbackDelay : Z }.

Definition fallbackDelay (d : Dialer) : Z :=
  if 0 <? FallbackDelay d then FallbackDelay d else defaultFallbackDelay.

(** [admitted]: what the floor admits, in order, and its first refusal. *)
Fixpoint admitted (allow : IP -> option A) (addrs : list Addr) : list Addr * option A :=
  match addrs with
  | [] => ([], None)
  | a :: addrs' =>
      let '(out, refusal) := admitted allow addrs' in
      match allow (AsSlice a) with
      | Some e => (out, Some e)
      | None => (a :: out, refusal)
      end
  end.

(** How a dial that was not refused goes on. *)
Inductive dial_plan :=
| Fail (e : dial_error)
| DialOne (addr : string)
| Serial (addrs : list Addr) (port : string)
| Race (primary fallback : list Addr) (port : string).

Definition dialAll (d : Dialer) (network : string) (primaryIs4 : bool) (addrs : list Addr) (port : string)
  : dial_plan :=
  if negb (String.eqb network "tcp") || (FallbackDelay d <? 0) then Serial addrs port
  else
    let '(primary, fallback) := partition primaryIs4 addrs in
    match primary, fallback with
    | [], _ | _, [] => Serial addrs port
    | _, _ => Race primary fallback port
    end.

(** The context a dial runs under. *)
Definition dial_ctx (d : Dialer) (ctx : Ctx E) (now : Z) (expired : E) : Ctx E :=
  if Timeout d =? 0 then ctx else WithTimeout ctx now (Timeout d) expired.

(** [DialContext], up to the sockets. *)
Definition DialContext (allow : IP -> option A) (lookup : string -> result E (list IPAddr))
    (d : Dialer) (network addr : string) : dial_plan :=
  if negb (portCarrying network) then Fail (ErrNetwork network)
  else
    let judge (ip : IP) : dial_plan :=
      match allow ip with Some e => Fail (ErrAllow e) | None => DialOne addr end in
    match SplitHostPort addr with
    | Err _ => judge []
    | Ok (host, port) =>
        match ParseIP host with
        | Some ip => judge ip
        | None =>
            if String.eqb host EmptyString || contains_byte host ":" || contains_byte host "%" then judge []
            else
              match lookup host with
              | Err e => Fail (ErrEnv e)
              | Ok ips =>
                  match addrsOf ips network with
                  | None => Fail ErrNoSuitable
                  | Some all =>
                      let '(adm, refusal) := admitted allow all in
                      match adm with
                      | [] => match refusal with Some e => Fail (ErrAllow e) | None => Fail ErrNoAddress end
                      | _ => dialAll d network (match all with a :: _ => is4 a | [] => false end) adm port
                      end
                  end
              end
        end
    end.

(** *** One address after another *)

Section serial.
Context (dial : Z -> Ctx E -> string -> string -> result E Conn * Z) (expired : E).

(** An attempt: when it started, the context it ran under, where it went. *)
Record attempt := MkAttempt { at_start : Z; at_ctx : Ctx E; at_addr : Addr; at_end : Z }.

(** The loop of [dialSerial]: [first] is the first error so far. *)
Fixpoint dialSerial_go (ctx : Ctx E) (network : string) (addrs : list Addr) (port : string)
    (first : option E) (now : Z) : result dial_error Conn * list attempt :=
  match addrs with
  | [] => (Err (match first with Some e => ErrEnv e | None => ErrNoAddress end), [])
  | a :: addrs' =>
      match CtxErr ctx now with
      | Some e => (Err (ErrEnv e), [])
      | None =>
          let actx := partialDeadline ctx now (Z.of_nat (length addrs)) expired in
          let '(r, now') := dial now actx network (joinAddrPort a port) in
          match r with
          | Ok c => (Ok c, [MkAttempt now actx a now'])
          | Err e =>
              let '(res, tried) :=
                dialSerial_go ctx network addrs' port
                  (match first with Some _ => first | None => Some e end) now' in
              (res, MkAttempt now actx a now' :: tried)
          end
      end
  end.

Definition dialSerial (ctx : Ctx E) (network : string) (addrs : list Addr) (port : string) (now : Z)
  : result dial_error Conn * list attempt := dialSerial_go ctx network addrs port None now.
End serial.

(** *** Two families at once

    [dialRace]'s loop over what it selects on: the timer, and the outcome of a family's
    [dialSerial]. *)
Inductive race_event :=
| TimerFired
| Outcome (isPrimary : bool) (r : result dial_error Conn).

Inductive race_state :=
| Racing (pending : nat) (fallbackStarted : bool) (primaryErr : option dial_error)
| Won (conn : Conn) (pending : nat) (closed : list Conn)  (* returned; the closer still waits *)
| Lost (e : dial_error).

Definition race_start : race_state := Racing 1 false None.

Definition race_step (s : race_state) (ev : race_event) : race_state :=
  match s, ev with
  | Racing pending started perr, TimerFired =>
      Racing (if started then pending else S pending) true perr
  | Racing pending started perr, Outcome isPrimary r =>
      let pending := (pending - 1)%nat in
      match r with
      | Ok c => Won c pending []
      | Err e =>
          let perr := if isPrimary : bool then Some e else perr in
          let pending := if started then pending else S pending in
          if Nat.eqb pending 0
          then Lost (match perr with Some pe => pe | None => e end)
          else Racing pending true perr
      end
  | Won c (S n) closed, Outcome _ r =>
      Won c n (match r with Ok c' => closed ++ [c'] | Err _ => closed end)
  | _, _ => s
  end.
End dialer.

Arguments dial_error : clear implicits.
Arguments dial_plan : clear implicits.
Arguments race_event : clear implicits.
Arguments race_state : clear implicits.
