(* ===== verification/DialGuardSpec.v ===== *)
(** * DialGuardSpec: what the guard refuses, and where the dialler goes.

    The reserved classes and the ways an IPv6 address carries an IPv4 one are stated
    here as relations, from the RFCs the code cites, and the guard is shown to be their
    combination. *)
From Stdlib Require Import Ascii Lia.
From S2P Require Import Prelude GoStrings GoNet DialGuard.

Definition is_byte (b : Z) : Prop := 0 <= b < 256.

(** An IPv4 address that is loopback, link-local, unspecified or multicast. *)
Definition reserved4 (t : IP) : Prop :=
  exists a b c d, t = [a; b; c; d] /\
    (a = 127 \/ (a = 169 /\ b = 254) \/ 224 <= a <= 239 \/ (a = 0 /\ b = 0 /\ c = 0 /\ d = 0)).

(** An IPv6 address that is: [::1], [fe80::/10], [::], [ff00::/8]. *)
Definition reserved6 (ip : IP) : Prop :=
  ip = IPv6loopback \/ ip = IPv6unspecified \/
  (exists b1 rest, ip = 0xfe :: b1 :: rest /\ 128 <= b1 <= 191) \/ (exists rest, ip = 0xff :: rest).

Definition mapped (t : IP) : IP := v4InV6Prefix ++ t.

(** [carries ip t]: the IPv6 address [ip] is a transition form of the IPv4 address [t]. *)
Inductive carries : IP -> IP -> Prop :=
| c_6to4 a b c d rest : carries (0x20 :: 0x02 :: a :: b :: c :: d :: rest) [a; b; c; d]
| c_teredo m1 m2 m3 m4 m5 m6 m7 m8 w x y z :
    carries [0x20; 0x01; 0; 0; m1; m2; m3; m4; m5; m6; m7; m8; w; x; y; z]
            [byte_not w; byte_not x; byte_not y; byte_not z]
| c_nat64_32 a b c d rest : carries (0 :: 0x64 :: 0xff :: 0x9b :: a :: b :: c :: d :: rest) [a; b; c; d]
| c_nat64_40 p a b c u d rest :
    carries (0 :: 0x64 :: 0xff :: 0x9b :: p :: a :: b :: c :: u :: d :: rest) [a; b; c; d]
| c_nat64_48 p q a b u c d rest :
    carries (0 :: 0x64 :: 0xff :: 0x9b :: p :: q :: a :: b :: u :: c :: d :: rest) [a; b; c; d]
| c_nat64_56 p q r a u b c d rest :
    carries (0 :: 0x64 :: 0xff :: 0x9b :: p :: q :: r :: a :: u :: b :: c :: d :: rest) [a; b; c; d]
| c_nat64_64 p q r s u a b c d rest :
    carries (0 :: 0x64 :: 0xff :: 0x9b :: p :: q :: r :: s :: u :: a :: b :: c :: d :: rest) [a; b; c; d]
| c_nat64_96 p q r s u v w x a b c d :
    carries [0; 0x64; 0xff; 0x9b; p; q; r; s; u; v; w; x; a; b; c; d] [a; b; c; d]
| c_translated a b c d :
    carries [0; 0; 0; 0; 0; 0; 0; 0; 0xff; 0xff; 0; 0; a; b; c; d] [a; b; c; d]
| c_compatible a b c d : carries [0; 0; 0; 0; 0; 0; 0; 0; 0; 0; 0; 0; a; b; c; d] [a; b; c; d]
| c_isatap p1 p2 p3 p4 p5 p6 p7 p8 u a b c d :
    u = 0 \/ u = 2 ->
    carries [p1; p2; p3; p4; p5; p6; p7; p8; u; 0; 0x5e; 0xfe; a; b; c; d] [a; b; c; d].

(** ** The classes *)

(** A fact of one byte is checked on the 256 of them. *)
Lemma byte_check (P : Z -> bool) b : forallb P (seqZ 0 256) = true -> is_byte b -> P b = true.
Proof.
  intros H Hb. rewrite forallb_forall in H. apply H. apply list_elem_of_In, elem_of_seqZ.
  unfold is_byte in Hb. lia.
Qed.

Lemma byte_multicast b : is_byte b -> (Z.land b 0xf0 =? 0xe0) = in_range 224 239 b.
Proof.
  intros Hb. apply Bool.eqb_prop.
  apply (byte_check (fun b => Bool.eqb (Z.land b 0xf0 =? 0xe0) (in_range 224 239 b))); [vm_compute; reflexivity|done].
Qed.

Lemma byte_linklocal b : is_byte b -> (Z.land b 0xc0 =? 0x80) = in_range 128 191 b.
Proof.
  intros Hb. apply Bool.eqb_prop.
  apply (byte_check (fun b => Bool.eqb (Z.land b 0xc0 =? 0x80) (in_range 128 191 b))); [vm_compute; reflexivity|done].
Qed.

Lemma byte_isatap b : is_byte b -> (Z.land b 0xfd =? 0) = (b =? 0) || (b =? 2).
Proof.
  intros Hb. apply Bool.eqb_prop.
  apply (byte_check (fun b => Bool.eqb (Z.land b 0xfd =? 0) ((b =? 0) || (b =? 2)))); [vm_compute; reflexivity|done].
Qed.

Lemma bytes_eqb_true a b : bytes_eqb a b = true <-> a = b.
Proof. unfold bytes_eqb. apply bool_decide_eq_true. Qed.

Lemma length4 (t : IP) : length t = 4%nat -> exists a b c d, t = [a; b; c; d].
Proof. destruct t as [|a [|b [|c [|d [|]]]]]; try done. eauto. Qed.

Lemma To4_4 a b c d : To4 [a; b; c; d] = Some [a; b; c; d].
Proof. reflexivity. Qed.

Lemma To4_mapped t : length t = 4%nat -> To4 (mapped t) = Some t.
Proof. intros (a & b & c & d & ->)%length4. unfold To4, mapped. cbn. by rewrite (proj2 (bytes_eqb_true _ _)). Qed.

Lemma To4_other ip : length ip = 16%nat -> (forall t, ip <> mapped t) -> To4 ip = None.
Proof.
  intros Hl Hm. unfold To4. rewrite Hl. cbn.
  destruct (bytes_eqb (take 12 ip) v4InV6Prefix) eqn:E; [|done]. apply bytes_eqb_true in E.
  destruct (Hm (drop 12 ip)). unfold mapped. by rewrite <- E, take_drop.
Qed.

Lemma IsUnspecified_4 a b c d : IsUnspecified [a; b; c; d] = bool_decide ([a; b; c; d] = [0; 0; 0; 0]).
Proof.
  unfold IsUnspecified, IP_Equal, bytes_eqb. cbn [length Nat.eqb andb].
  rewrite (bool_decide_eq_true_2 (take 12 IPv4zero = v4InV6Prefix)) by reflexivity.
  rewrite (bool_decide_eq_false_2 (take 12 IPv6unspecified = v4InV6Prefix)) by (intros [=]).
  by rewrite orb_false_r.
Qed.

Lemma IsUnspecified_mapped t : length t = 4%nat -> IsUnspecified (mapped t) = bool_decide (t = [0; 0; 0; 0]).
Proof.
  intros (a & b & c & d & ->)%length4. unfold IsUnspecified, IP_Equal, mapped.
  cbn [length IPv4zero IPv4 v4InV6Prefix app IPv6unspecified repeat Nat.eqb].
  unfold bytes_eqb. rewrite (bool_decide_eq_false_2 (_ = [0;0;0;0;0;0;0;0;0;0;0;0;0;0;0;0])) by congruence.
  rewrite orb_false_r. apply bool_decide_ext. split; congruence.
Qed.

Lemma refused_v4 t ip :
  To4 ip = Some t -> length t = 4%nat -> Forall is_byte t -> IsUnspecified ip = bool_decide (t = [0; 0; 0; 0]) ->
  refused ip = true <-> reserved4 t.
Proof.
  intros H4 Hl Hb Hu. unfold refused, IsLoopback, IsLinkLocalUnicast, IsLinkLocalMulticast, IsMulticast.
  rewrite H4, Hu. apply length4 in Hl as (a & b & c & d & ->). cbn [byte_at nth].
  apply Forall_cons in Hb as [Ha _]. unfold byte_at. cbn [nth].
  rewrite byte_multicast by done. unfold reserved4, in_range.
  rewrite !orb_true_iff, !andb_true_iff, !Z.eqb_eq, !Z.leb_le, bool_decide_eq_true.
  split.
  - intros H. exists a, b, c, d. split; [done|].
    destruct H as [[[[?|?]|?]|H]|?]; [lia..| |lia]. injection H as -> -> -> ->. lia.
  - intros (a' & b' & c' & d' & H & Hr). injection H as <- <- <- <-.
    destruct Hr as [?|[?|[?|(-> & -> & -> & ->)]]]; auto 6 with lia.
Qed.

Lemma IP_Equal_same ip x : length ip = length x -> IP_Equal ip x = bytes_eqb ip x.
Proof. intros H. unfold IP_Equal. by rewrite H, Nat.eqb_refl. Qed.

Lemma refused_v6 ip :
  length ip = 16%nat -> Forall is_byte ip -> (forall t, ip <> mapped t) ->
  refused ip = true <-> reserved6 ip.
Proof.
  intros Hl Hb Hm. unfold refused, IsLoopback, IsLinkLocalUnicast, IsLinkLocalMulticast, IsMulticast.
  rewrite (To4_other ip) by done. unfold IsUnspecified. rewrite !IP_Equal_same by (by rewrite Hl).
  rewrite Hl, Nat.eqb_refl. cbn [andb].
  assert (Hz : bytes_eqb ip IPv4zero = false).
  { apply bool_decide_eq_false. intros ->. by apply (Hm [0; 0; 0; 0]). }
  rewrite Hz. cbn [orb].
  destruct ip as [|b0 [|b1 rest]]; try done. unfold byte_at. cbn [nth].
  apply Forall_cons in Hb as [H0 Hb]. apply Forall_cons in Hb as [H1 _].
  rewrite byte_linklocal by done. unfold reserved6, in_range.
  rewrite !orb_true_iff, !andb_true_iff, !Z.eqb_eq, !Z.leb_le, !bytes_eqb_true.
  split.
  - intros [[[[?|(-> & ?)]|(-> & _)]|?]| ->]; eauto 8.
  - intros [?|[?|[(b & r & [= -> -> <-] & ?)|(r & [= -> <-])]]]; auto 6.
Qed.

(** ** What an address carries *)

Lemma isZero_8 a b c d e f g h : isZero [a; b; c; d; e; f; g; h] = true ->
  a = 0 /\ b = 0 /\ c = 0 /\ d = 0 /\ e = 0 /\ f = 0 /\ g = 0 /\ h = 0.
Proof. unfold isZero. cbn. rewrite !andb_true_iff, !Z.eqb_eq. tauto. Qed.

Lemma embedded_carries ip t :
  length ip = 16%nat -> Forall is_byte ip -> (forall u, ip <> mapped u) ->
  t ∈ embeddedIPv4 ip <-> carries ip t.
Proof.
  intros Hl Hb Hm. unfold embeddedIPv4, To16. rewrite Hl. cbn [Nat.eqb].
  rewrite To4_other by done. rewrite (bool_decide_eq_false_2 (is_Some None)) by (by intros [? ?]).
  do 16 (destruct ip as [|? ip]; [done|]). destruct ip; [|done]. clear Hl.
  unfold byte_at. cbn [nth take]. unfold v4. rewrite elem_of_app.
  rewrite byte_isatap by (rewrite !Forall_cons in Hb; tauto). split.
  - intros [H|H].
    + repeat match type of H with
      | context [if ?c then _ else _] => let E := fresh "E" in destruct c eqn:E
      end; bool_prop; subst; rewrite ?elem_of_cons, ?elem_of_nil in H; try done.
      all: repeat match goal with
        | H : isZero _ = true |- _ => unfold isZero in H; cbn in H; bool_prop; subst
        end.
      all: repeat destruct H as [H|H]; try done; subst; econstructor.
    + destruct (_ && _) eqn:E in H; [|by apply elem_of_nil in H]. bool_prop. subst.
      apply list_elem_of_singleton in H as ->. constructor.
      match goal with H : _ || _ = true |- _ => apply orb_true_iff in H as [?|?]; bool_prop; auto end.
  - intros H. inversion H; subst; try (left; cbn; rewrite ?elem_of_cons; tauto).
    right. match goal with H : _ \/ _ |- _ => destruct H as [-> | ->] end; cbn; by apply list_elem_of_singleton.
Qed.

Lemma carries_bytes ip t : Forall is_byte ip -> carries ip t -> length t = 4%nat /\ Forall is_byte t.
Proof.
  assert (Hn : forall b, is_byte b -> is_byte (byte_not b)).
  { intros b Hb. pose proof (byte_check (fun b => (0 <=? byte_not b) && (byte_not b <? 256)) b) as H.
    specialize (H ltac:(vm_compute; reflexivity) Hb). cbn beta in H. bool_prop. by split. }
  intros Hb H. inversion H; subst; (split; [done|]); rewrite ?Forall_cons in Hb;
    repeat (apply Forall_cons; split); try apply Forall_nil; try apply Hn; tauto.
Qed.

Lemma embedded_refused_spec ts :
  embedded_refused ts = true <-> exists t, t ∈ ts /\ IsUnspecified t = false /\ refused t = true.
Proof.
  induction ts as [|t ts IH]; cbn [embedded_refused].
  { split; [done|]. by intros (t & ?%not_elem_of_nil & _). }
  destruct (IsUnspecified t) eqn:Hu; [|destruct (refused t) eqn:Hr]; rewrite ?IH; split.
  - intros (t' & ? & ?). exists t'. rewrite elem_of_cons. auto.
  - intros (t' & [->|?]%elem_of_cons & ? & ?); [congruence|eauto].
  - intros _. exists t. rewrite elem_of_cons. auto.
  - done.
  - intros (t' & ? & ?). exists t'. rewrite elem_of_cons. auto.
  - intros (t' & [->|?]%elem_of_cons & ? & ?); [congruence|eauto].
Qed.

Lemma refused_4 t : length t = 4%nat -> Forall is_byte t -> refused t = true <-> reserved4 t.
Proof.
  intros Hl Hb. apply refused_v4; try done.
  - by apply length4 in Hl as (a & b & c & d & ->).
  - apply length4 in Hl as (a & b & c & d & ->). apply IsUnspecified_4.
Qed.

(** The address itself is of a reserved class. *)
Definition reserved (ip : IP) : Prop :=
  (exists t, length t = 4%nat /\ (ip = t \/ ip = mapped t) /\ reserved4 t) \/
  (length ip = 16%nat /\ (forall t, ip <> mapped t) /\ reserved6 ip).

(** It is a transition form of a reserved IPv4 address, other than the unspecified one. *)
Definition smuggles (ip : IP) : Prop :=
  (forall t, ip <> mapped t) /\ exists t, carries ip t /\ t <> [0; 0; 0; 0] /\ reserved4 t.

Lemma IPAllowed_4 ip : Forall is_byte ip -> length ip = 4%nat ->
  IPAllowed ip = Ok tt <->
    (length ip = 4%nat \/ length ip = 16%nat) /\ ~ reserved ip /\ ~ (length ip = 16%nat /\ smuggles ip).
Proof.
  intros Hb H4. unfold IPAllowed.
  assert (He : embeddedIPv4 ip = []).
  { apply length4 in H4 as (a & b & c & d & ->). by unfold embeddedIPv4. }
  unfold To16. rewrite H4, He. cbn [Nat.eqb embedded_refused].
  pose proof (refused_4 ip H4 Hb) as Hr. unfold reserved. rewrite H4.
  assert (Hm : forall t, length t = 4%nat -> ip <> mapped t) by (intros t Ht ->; unfold mapped in H4; rewrite length_app, Ht in H4; done).
  destruct (refused ip); split; try done.
  - intros (_ & H & _). destruct H. left. exists ip. naive_solver.
  - intros _. split_and!; [by left| |by intros [? _]].
    intros [(t & Ht & [-> | ->] & Hres)|(? & _)]; [naive_solver|by destruct (Hm t)|done].
Qed.

(** The guard admits an address exactly when it is one (4 or 16 bytes), it is not of a
    reserved class itself, and no IPv4 address it carries under any of the transition
    layouts (6to4, Teredo, the six NAT64 prefix lengths, IPv4-translated,
    IPv4-compatible, ISATAP) is; the unspecified address as a target is padding.  So a
    reserved address is refused however it is wrapped, and nothing else is refused: the
    private IPv4 ranges are admitted. *)
Theorem IPAllowed_iff (ip : IP) (Hb : Forall is_byte ip) :
  IPAllowed ip = Ok tt <->
    (length ip = 4%nat \/ length ip = 16%nat) /\ ~ reserved ip /\ ~ (length ip = 16%nat /\ smuggles ip).
Proof.
  destruct (decide (length ip = 4%nat)) as [H4|Hn4]; [by apply IPAllowed_4|]. unfold IPAllowed.
  destruct (decide (length ip = 16%nat)) as [H16|Hn16].
  2:{ unfold To16. rewrite (proj2 (Nat.eqb_neq _ _) Hn4), (proj2 (Nat.eqb_neq _ _) Hn16). naive_solver. }
  unfold To16. rewrite H16. cbn [Nat.eqb].
  destruct (decide (take 12 ip = v4InV6Prefix)) as [Hp|Hp].
  - assert (exists t, ip = mapped t /\ length t = 4%nat /\ Forall is_byte t) as (t & -> & Ht & Htb).
    { exists (drop 12 ip). unfold mapped. rewrite <- Hp, take_drop, length_drop.
      split_and!; [done|lia|by apply Forall_drop]. }
    assert (He : embeddedIPv4 (mapped t) = []).
    { unfold embeddedIPv4. rewrite To4_mapped by done. by destruct (To16 _). }
    rewrite He. cbn [embedded_refused].
    assert (Hr : refused (mapped t) = true <-> reserved4 t).
    { apply refused_v4; [by apply To4_mapped|done..|by apply IsUnspecified_mapped]. }
    destruct (refused (mapped t)); split; try done.
    + intros (_ & H & _). destruct H. left. exists t. naive_solver.
    + intros _. split_and!; [by right| |intros (_ & H & _); by apply (H t)].
      intros [(t' & Ht' & [Heq|Heq] & Hres)|(_ & H & _)]; [rewrite Heq in H16; lia| |by apply (H t)].
      apply app_inj_2 in Heq as [_ ->]; [naive_solver|congruence].
  - assert (Hm : forall t, ip <> mapped t).
    { intros t ->. by destruct Hp. }
    pose proof (refused_v6 ip H16 Hb Hm) as Hr.
    destruct (refused ip) eqn:Er.
    { split; [done|]. intros (_ & H & _). destruct H. right. naive_solver. }
    assert (Hres : ~ reserved ip).
    { intros [(t & Ht & [-> | ->] & _)|(_ & _ & H)]; [lia|by apply (Hm t)|naive_solver]. }
    pose proof (embedded_refused_spec (embeddedIPv4 ip)) as Hs.
    assert (Hse : embedded_refused (embeddedIPv4 ip) = true <-> smuggles ip).
    { rewrite Hs. unfold smuggles. split.
      - intros (t & Ht & Hu & Hrt). split; [done|]. exists t. apply embedded_carries in Ht; [|done..].
        destruct (carries_bytes ip t Hb Ht) as [Hl Htb]. apply refused_4 in Hrt; [|done..].
        split_and!; [done| |done]. intros ->. by vm_compute in Hu.
      - intros (_ & t & Hc & Hne & Hrt). exists t. destruct (carries_bytes ip t Hb Hc) as [Hl Htb].
        rewrite embedded_carries by done. split_and!; [done| |by apply refused_4].
        apply length4 in Hl as (a & b & c & d & ->). rewrite IsUnspecified_4. by apply bool_decide_eq_false. }
    destruct (embedded_refused _); split; try done; naive_solver.
Qed.

(** The metadata endpoint under a /48 NAT64 prefix, and a private address. *)
Lemma IPAllowed_iff_witness :
  IPAllowed [0; 0x64; 0xff; 0x9b; 0; 1; 169; 254; 0; 169; 254; 0; 8; 8; 8; 8]
    = Err (DisallowedAddress [0; 0x64; 0xff; 0x9b; 0; 1; 169; 254; 0; 169; 254; 0; 8; 8; 8; 8]) /\
  ~ reserved [10; 0; 0; 7].
Proof.
  split; [vm_compute; reflexivity|].
  assert (Hb : Forall is_byte [10; 0; 0; 7]) by (repeat constructor; unfold is_byte; lia).
  apply (IPAllowed_iff [10; 0; 0; 7] Hb). vm_compute. reflexivity.
Defined.

(** ** The dialler *)

Section dialer.
Context {E A Conn : Type}.

Implicit Types (allow : IP -> option A) (lookup : string -> result E (list IPAddr)).

Lemma admitted_spec allow addrs :
  admitted allow addrs =
    (filter (fun a => allow (AsSlice a) = None) addrs, head (omap (fun a => allow (AsSlice a)) addrs)).
Proof.
  induction addrs as [|a addrs IH]; cbn [admitted]; [done|]. rewrite IH. rewrite filter_cons. cbn [omap list_omap].
  destruct (allow (AsSlice a)) as [e|] eqn:Ea; case_decide; try done; congruence.
Qed.

Lemma partition_spec b addrs :
  partition b addrs = (filter (fun a => is4 a = b) addrs, filter (fun a => is4 a <> b) addrs).
Proof.
  induction addrs as [|a addrs IH]; cbn [partition]; [done|]. rewrite IH, !filter_cons.
  destruct (is4 a), b; cbn [Bool.eqb]; repeat case_decide; congruence.
Qed.

(** What [DialContext] hands its guard where it resolves nothing: the literal address, or
    no address at all for an authority it cannot read. *)
Definition judged_as (addr : string) (ip : IP) : Prop :=
  match SplitHostPort addr with
  | Err _ => ip = []
  | Ok (host, _) =>
      match ParseIP host with
      | Some lit => ip = lit
      | None => ip = [] /\ (host = EmptyString \/ contains_byte host ":" = true \/ contains_byte host "%" = true)
      end
  end.

(** [addrs] is what the guard admitted of one resolution of the authority's host. *)
Definition resolved allow lookup (network addr port : string) (all addrs : list Addr) : Prop :=
  exists host ips, SplitHostPort addr = Ok (host, port) /\ ParseIP host = None /\
    lookup host = Ok ips /\ addrsOf ips network = Some all /\
    addrs = filter (fun a => allow (AsSlice a) = None) all /\ addrs <> [].

(** Everything the dialler connects to was judged first, and nothing else.  A literal
    address is dialled as written once the guard admitted it; an authority that cannot be
    read is dialled only if the guard admits no address at all; a name is resolved once,
    and what is dialled is the addresses of that answer the guard admitted, in the
    resolver's order, one after another or as two families raced, the one that led the
    whole answer first.  A network without ports is never dialled.  Where the guard fails
    a name, it refused every address and its first refusal is the error. *)
Theorem DialContext_judged allow lookup (d : Dialer) (network addr : string) :
  match DialContext allow lookup d network addr with
  | DialOne a => a = addr /\ portCarrying network = true /\ exists ip, judged_as addr ip /\ allow ip = None
  | Serial addrs port =>
      portCarrying network = true /\ exists all, resolved allow lookup network addr port all addrs
  | Race primary fallback port =>
      network = "tcp" /\ 0 <= FallbackDelay d /\ exists lead all addrs,
        resolved allow lookup network addr port (lead :: all) addrs /\
        primary = filter (fun a => is4 a = is4 lead) addrs /\ primary <> [] /\
        fallback = filter (fun a => is4 a <> is4 lead) addrs /\ fallback <> []
  | Fail (ErrAllow e) =>
      (exists ip, judged_as addr ip /\ allow ip = Some e) \/
      (exists host port ips all, SplitHostPort addr = Ok (host, port) /\ lookup host = Ok ips /\
         addrsOf ips network = Some all /\ Forall (fun a => allow (AsSlice a) <> None) all /\
         (exists a rest, all = a :: rest /\ allow (AsSlice a) = Some e))
  | Fail (ErrNetwork n) => n = network /\ portCarrying network = false
  | Fail ErrNoAddress => False
  | Fail _ => exists host port, SplitHostPort addr = Ok (host, port) /\ ParseIP host = None
  end.
Proof.
  unfold DialContext. destruct (portCarrying network) eqn:Hn; cbn [negb]; [|done].
  assert (Hj : forall ip, judged_as addr ip ->
    match (match allow ip with Some e => Fail (ErrAllow e) | None => DialOne addr end : dial_plan E A) with
    | DialOne a => a = addr /\ true = true /\ exists ip, judged_as addr ip /\ allow ip = None
    | Fail (ErrAllow e) => (exists ip, judged_as addr ip /\ allow ip = Some e) | _ => False end).
  { intros ip Hip. destruct (allow ip) eqn:Ea; eauto. }
  unfold judged_as in *. destruct (SplitHostPort addr) as [[host port]|se] eqn:Hs.
  2:{ specialize (Hj [] eq_refl). destruct (allow []); eauto. }
  destruct (ParseIP host) as [lit|] eqn:Hp.
  { specialize (Hj lit eq_refl). destruct (allow lit); eauto. }
  destruct (String.eqb host EmptyString || contains_byte host ":" || contains_byte host "%") eqn:Hc.
  { assert (Hor : host = EmptyString \/ contains_byte host ":" = true \/ contains_byte host "%" = true).
    { rewrite !orb_true_iff, String.eqb_eq in Hc. tauto. }
    specialize (Hj [] (conj eq_refl Hor)). destruct (allow []); eauto. }
  clear Hj. destruct (lookup host) as [ips|le] eqn:Hl; [|eauto].
  destruct (addrsOf ips network) as [all|] eqn:Ha; [|eauto].
  rewrite admitted_spec. set (adm := filter _ all). destruct adm as [|a0 adm'] eqn:Eadm.
  - assert (Hall : Forall (fun a => allow (AsSlice a) <> None) all).
    { apply Forall_forall. intros a Hin Hno. assert (H : a ∈ adm) by (by apply list_elem_of_filter).
      rewrite Eadm in H. by apply not_elem_of_nil in H. }
    assert (Hne : all <> []).
    { unfold addrsOf in Ha. destruct (wantedFamilies network). destruct (omap _ ips); [done|congruence]. }
    destruct all as [|a all']; [done|]. cbn [omap list_omap]. apply Forall_cons in Hall as [Ha0 Hall].
    destruct (allow (AsSlice a)) as [e|] eqn:Eal; [|done]. cbn [head].
    right. exists host, port, ips, (a :: all'). split_and!; eauto. constructor; [congruence|done].
  - assert (Hres : resolved allow lookup network addr port all (a0 :: adm')).
    { exists host, ips. split_and!; done. }
    unfold dialAll. destruct (negb (String.eqb network "tcp") || (FallbackDelay d <? 0)) eqn:Hr.
    { split; [done|]. eauto. }
    apply orb_false_iff in Hr as [Hr Hd]. bool_prop. apply String.eqb_eq in Hr.
    destruct all as [|lead all']; [done|].
    rewrite partition_spec.
    destruct (filter (fun a => is4 a = is4 lead) (a0 :: adm')) as [|p ps] eqn:Ep; [split; [done|]; eauto|].
    destruct (filter (fun a => is4 a <> is4 lead) (a0 :: adm')) as [|f fs] eqn:Ef; [split; [done|]; eauto|].
    split_and!; [done|done|]. exists lead, all', (a0 :: adm'). split_and!; [done|by symmetry|done|by symmetry|done].
Qed.

(** A share of the budget: within it, floored at two seconds or what is left, and at most
    half of a budget that can hold two floors, so that the first address cannot spend it. *)
Lemma partialDeadline_share (ctx : Ctx E) now n expired dl :
  1 <= n -> Deadline ctx = Some dl -> now < dl ->
  exists dl', Deadline (partialDeadline ctx now n expired) = Some dl' /\ now < dl' <= dl /\
    Z.min (dl - now) minPartialTimeout <= dl' - now /\
    (2 <= n -> 2 * minPartialTimeout <= dl - now -> 2 * (dl' - now) <= dl - now) /\
    (n * minPartialTimeout <= dl - now -> dl' - now = (dl - now) / n).
Proof.
  intros Hn Hdl Hlt. unfold partialDeadline. rewrite Hdl.
  assert (Hm : minPartialTimeout = 2000000000) by (vm_compute; reflexivity). rewrite Hm in *.
  destruct (n <=? 1) eqn:H1; bool_prop.
  { exists dl. split; [done|]. assert (n = 1) as -> by lia. rewrite Z.div_1_r. lia. }
  destruct (dl - now <=? 0) eqn:H2; bool_prop; [lia|].
  unfold WithTimeout. rewrite Hdl. cbn [Deadline].
  rewrite Z.quot_div_nonneg by lia.
  pose proof (Z.mul_div_le (dl - now) n ltac:(lia)) as Hq.
  pose proof (Z.mul_succ_div_gt (dl - now) n ltac:(lia)) as Hq'.
  destruct ((dl - now) / n <? 2000000000) eqn:H3; bool_prop;
    [destruct (dl - now <? 2000000000) eqn:H4; bool_prop|];
    (eexists; split; [reflexivity|]; split_and!; try lia; nia).
Qed.

Section serial.
Context (dial : Z -> Ctx E -> string -> string -> result E Conn * Z) (expired : E).

(** The attempts were made by [dialSerial] from [now] with [addrs] left to try. *)
Fixpoint attempts_ok (ctx : Ctx E) (network port : string) (addrs : list Addr) (now : Z)
    (tried : list attempt) : Prop :=
  match tried with
  | [] => True
  | at_ :: tried' =>
      match addrs with
      | [] => False
      | a :: addrs' =>
          at_addr at_ = a /\ at_start at_ = now /\ CtxErr ctx now = None /\
          at_ctx at_ = partialDeadline ctx now (Z.of_nat (length addrs)) expired /\
          at_end at_ = (dial now (at_ctx at_) network (joinAddrPort a port)).2 /\
          (tried' <> [] -> exists e, (dial now (at_ctx at_) network (joinAddrPort a port)).1 = Err e) /\
          attempts_ok ctx network port addrs' (at_end at_) tried'
      end
  end.

(** The error of an attempt. *)
Definition attempt_result (network port : string) (at_ : @attempt E) : result E Conn :=
  (dial (at_start at_) (at_ctx at_) network (joinAddrPort (at_addr at_) port)).1.

Lemma dialSerial_go_spec ctx network port addrs : forall first now,
  let '(r, tried) := dialSerial_go dial (A := A) expired ctx network addrs port first now in
  attempts_ok ctx network port addrs now tried /\
  match r with
  | Ok c => exists at_, last tried = Some at_ /\ attempt_result network port at_ = Ok c
  | Err err =>
      Forall (fun at_ => exists e, attempt_result network port at_ = Err e) tried /\
      ((map at_addr tried = addrs /\
        match first, tried with
        | Some e, _ => err = ErrEnv e
        | None, at_ :: _ => exists e, attempt_result network port at_ = Err e /\ err = ErrEnv e
        | None, [] => err = ErrNoAddress
        end) \/
       ((length tried < length addrs)%nat /\ exists e, err = ErrEnv e /\
          CtxErr ctx (match last tried with Some at_ => at_end at_ | None => now end) = Some e))
  end.
Proof.
  induction addrs as [|a addrs IH]; intros first now; cbn [dialSerial_go].
  { split; [done|]. split; [constructor|]. left. split; [done|]. by destruct first. }
  destruct (CtxErr ctx now) as [e|] eqn:Ec.
  { split; [done|]. split; [constructor|]. right. split; [cbn; lia|]. exists e. done. }
  set (actx := partialDeadline ctx now _ expired).
  destruct (dial now actx network (joinAddrPort a port)) as [r now'] eqn:Ed. destruct r as [c|e].
  { assert (Hr : attempt_result network port (MkAttempt now actx a now') = Ok c).
    { unfold attempt_result. cbn [at_start at_ctx at_addr]. by rewrite Ed. }
    split; [|by eexists]. cbn [attempts_ok at_addr at_start at_ctx at_end]. rewrite Ed.
    split_and!; try done. by destruct addrs. }
  set (first' := match first with Some _ => first | None => Some e end).
  specialize (IH first' now').
  destruct (dialSerial_go dial expired ctx network addrs port first' now') as [r tried].
  destruct IH as [Hok Hr].
  assert (Hthis : attempt_result network port (MkAttempt now actx a now') = Err e).
  { unfold attempt_result. cbn [at_start at_ctx at_addr]. by rewrite Ed. }
  split. { cbn [attempts_ok at_addr at_start at_ctx at_end]. rewrite Ed. split_and!; try done. intros _. by exists e. }
  destruct r as [c|err].
  - destruct Hr as (at_ & Hlast & Hres). exists at_. split; [|done]. rewrite last_cons, Hlast. done.
  - destruct Hr as (Hall & Hcase). split; [constructor; eauto|].
    destruct Hcase as [[Hm Hf]|(Hlt & e' & -> & He')].
    + left. split; [cbn; by rewrite Hm|]. unfold first' in Hf. destruct first as [e0|]; [done|].
      exists e. done.
    + right. split; [cbn; lia|]. exists e'. split; [done|]. rewrite last_cons.
      by destruct (last tried).
Qed.

(** [dialSerial] tries the addresses in order, each from the instant the one before it
    failed and under its share of what was left, never past the caller's deadline; it
    returns the first connection that comes up; when none does it has tried them all and
    returns the first error, unless the budget ran out, and then the context's. *)
Theorem dialSerial_in_order (ctx : Ctx E) (network port : string) (addrs : list Addr) (now : Z)
    (Hne : addrs <> []) :
  let '(r, tried) := dialSerial dial (A := A) expired ctx network addrs port now in
  attempts_ok ctx network port addrs now tried /\
  match r with
  | Ok c => exists at_, last tried = Some at_ /\ attempt_result network port at_ = Ok c
  | Err err =>
      Forall (fun at_ => exists e, attempt_result network port at_ = Err e) tried /\
      ((map at_addr tried = addrs /\ exists at_ e, head tried = Some at_ /\
          attempt_result network port at_ = Err e /\ err = ErrEnv e) \/
       ((length tried < length addrs)%nat /\ exists e, err = ErrEnv e /\
          CtxErr ctx (match last tried with Some at_ => at_end at_ | None => now end) = Some e))
  end.
Proof.
  unfold dialSerial. pose proof (dialSerial_go_spec ctx network port addrs None now) as H.
  destruct (dialSerial_go _ _ _ _ _ _ _ _) as [r tried]. destruct H as [Hok Hr]. split; [done|].
  destruct r as [c|err]; [done|]. destruct Hr as (Hall & [[Hm Hf]|Hctx]); (split; [done|]); [left|by right].
  split; [done|]. destruct tried as [|at_ tried']; [by subst addrs|].
  destruct Hf as (e & He & ->). exists at_, e. done.
Qed.
End serial.

(** ** The race, against what the two families report *)

(** What has happened around the loop: which families were started and reported, whether
    the timer fired, the connections that came up, and the primary family's error. *)
Record race_world := MkWorld {
  primary_done : bool;
  fallback_started : bool;
  fallback_done : bool;
  timer_fired : bool;
  came_up : list Conn;
  primary_error : option (dial_error E A);
}.

Definition world_start : race_world := MkWorld false false false false [] None.

Definition starts_fallback (s : race_state E A Conn) : bool :=
  match s with Racing _ started _ => started | _ => false end.

Definition conns (r : result (dial_error E A) Conn) : list Conn :=
  match r with Ok c => [c] | Err _ => [] end.

(** Every interleaving: the timer at any time, each family's outcome once, after its start. *)
Inductive race_run : race_state E A Conn -> race_world -> Prop :=
| run_start : race_run race_start world_start
| run_timer s w :
    race_run s w ->
    race_run (race_step s TimerFired)
      (MkWorld (primary_done w) (fallback_started w || starts_fallback (race_step s TimerFired)) (fallback_done w)
         true (came_up w) (primary_error w))
| run_primary s w r :
    race_run s w -> primary_done w = false ->
    race_run (race_step s (Outcome true r))
      (MkWorld true (fallback_started w || starts_fallback (race_step s (Outcome true r))) (fallback_done w)
         (timer_fired w) (came_up w ++ conns r)
         (match r with Err e => Some e | Ok _ => None end))
| run_fallback s w r :
    race_run s w -> fallback_started w = true -> fallback_done w = false ->
    race_run (race_step s (Outcome false r))
      (MkWorld (primary_done w) true true (timer_fired w) (came_up w ++ conns r) (primary_error w)).

Definition running (w : race_world) : nat :=
  ((if primary_done w then 0 else 1) + (if fallback_started w && negb (fallback_done w) then 1 else 0))%nat.

Definition race_inv (s : race_state E A Conn) (w : race_world) : Prop :=
  (fallback_done w = true -> fallback_started w = true) /\
  (fallback_started w = true -> timer_fired w = true \/ primary_error w <> None) /\
  (primary_done w = false -> primary_error w = None) /\
  match s with
  | Racing pending started perr =>
      pending = running w /\ (0 < pending)%nat /\ started = fallback_started w /\ came_up w = [] /\
      perr = primary_error w /\ (primary_done w = true -> perr <> None)
  | Won c n closed => n = running w /\ came_up w = c :: closed
  | Lost e => running w = O /\ fallback_started w = true /\ came_up w = [] /\ primary_error w = Some e
  end.

Lemma race_run_inv s w : race_run s w -> race_inv s w.
Proof.
  induction 1 as [|s w _ (Hd & Hc & He & IH)|s w r _ (Hd & Hc & He & IH) Hp|s w r _ (Hd & Hc & He & IH) Hs Hf].
  { unfold race_inv, race_start, running. cbn. split_and!; try done. lia. }
  all: destruct w as [pd fs fd tf cs pe]; unfold race_inv, running in *; cbn in *; subst.
  all: destruct s as [p st perr|c n closed|e]; cbn in *; try destruct r as [c'|e']; destruct_and?; simplify_eq/=;
    try destruct fs; try destruct fd; try destruct pd; cbn in *; try lia; rewrite ?app_nil_r;
    try (exfalso; by eauto); try destruct pe; try (exfalso; by eauto); try (specialize (He eq_refl); simplify_eq);
    cbn in *; split_and?; try done; try lia; auto.
  match goal with H : true = true -> None <> None |- _ => by destruct (H eq_refl) end.
Qed.

(** However the timer and the two families' outcomes interleave, the race returns
    exactly one answer and leaks nothing.  While it waits, a family is still running and
    no connection has come up.  Once it has won, the connection returned is the first
    that came up, every later one is closed, and the closer waits for exactly the
    families still running.  It is lost only when both families failed, with the primary
    family's error.  The other family is started only by the timer or by the primary's
    failure. *)
Theorem dialRace_outcome (s : race_state E A Conn) (w : race_world) (Hrun : race_run s w) :
  (fallback_started w = true -> timer_fired w = true \/ primary_error w <> None) /\
  match s with
  | Racing _ _ _ => (0 < running w)%nat /\ came_up w = []
  | Won c n closed => came_up w = c :: closed /\ n = running w
  | Lost e => running w = O /\ fallback_done w = true /\ came_up w = [] /\ primary_error w = Some e
  end.
Proof.
  apply race_run_inv in Hrun as (Hd & Hc & _ & Hs). split; [done|].
  destruct s as [p st perr|c n closed|e]; [naive_solver..|].
  destruct Hs as (H0 & Hfs & Hcu & Hpe). split_and!; [done| |done..].
  unfold running in H0. rewrite Hfs in H0. destruct (fallback_done w), (primary_done w); cbn in H0; lia || done.
Qed.
End dialer.

(** A dual-stack name whose first family hangs: the timer starts the other, which wins,
    and the first one's late connection is closed. *)
Lemma dialRace_outcome_witness :
  let evs := [TimerFired; Outcome false (Ok "v4"); Outcome true (Ok "v6")] in
  fold_left race_step evs (race_start : race_state unit unit string) = Won "v4" 0 ["v6"] /\
  exists w, race_run (Won "v4" 0 ["v6"] : race_state unit unit string) w /\
    came_up w = ["v4"; "v6"] /\ running w = O.
Proof.
  intros evs. split; [reflexivity|].
  pose proof (run_timer (E := unit) (A := unit) (Conn := string) _ _ run_start) as H1.
  pose proof (run_fallback _ _ (Ok "v4") H1 eq_refl eq_refl) as H2.
  pose proof (run_primary _ _ (Ok "v6") H2 eq_refl) as H3. cbn in H3.
  eexists. split; [exact H3|]. destruct (dialRace_outcome _ _ H3) as (_ & Hc & Hn).
  split; [exact Hc|]. by rewrite <- Hn.
Defined.

(** Two addresses, the first refused by its peer. *)
Lemma dialSerial_in_order_witness :
  let dial (now : Z) (ctx : Ctx string) (network addr : string) :=
    (if String.eqb addr "192.0.2.1:443" then Err "refused" else Ok addr, now + second) in
  let addrs := [Addr4 [192; 0; 2; 1]; Addr4 [192; 0; 2; 2]] in
  let ctx := MkCtx (Some (30 * second)) (fun t => if 30 * second <=? t then Some "expired" else None) in
  let '(r, tried) := dialSerial dial (A := unit) "expired" ctx "tcp" addrs "443" 0 in
  r = Ok "192.0.2.2:443" /\ attempts_ok dial "expired" ctx "tcp" "443" addrs 0 tried /\
  map at_start tried = [0; second].
Proof.
  intros dial addrs ctx.
  pose proof (dialSerial_in_order (A := unit) dial "expired" ctx "tcp" "443" addrs 0 ltac:(discriminate)) as H.
  assert (Hr : (dialSerial dial (A := unit) "expired" ctx "tcp" addrs "443" 0).1 = Ok "192.0.2.2:443")
    by (vm_compute; reflexivity).
  assert (Ht : map at_start (dialSerial dial (A := unit) "expired" ctx "tcp" addrs "443" 0).2 = [0; second])
    by (vm_compute; reflexivity).
  destruct (dialSerial dial (A := unit) "expired" ctx "tcp" addrs "443" 0) as [r tried].
  destruct H as [Hok _]. done.
Defined.

Lemma partialDeadline_share_witness :
  let ctx := MkCtx (Some (30 * second)) (fun t => None : option unit) in
  exists dl', Deadline (partialDeadline ctx 0 3 tt) = Some dl' /\ dl' = 10 * second.
Proof.
  intros ctx. destruct (partialDeadline_share ctx 0 3 tt (30 * second)) as (dl' & H & _ & _ & _ & He);
    [lia|reflexivity|vm_compute; reflexivity|].
  exists dl'. split; [exact H|]. specialize (He ltac:(vm_compute; discriminate)).
  assert (Hq : (30 * second - 0) / 3 = 10 * second) by (vm_compute; reflexivity). lia.
Defined.
