(* ===== verification/Egress.v ===== *)
(** * Egress: which hosts a sandbox may reach, and with which secrets
      (internal/egress, internal/gate/policy.go)

    The host matcher shared by a credential's allowed_hosts and an environment's
    networking policy (hostset.go), the substitution engine that puts secrets in the
    place of placeholders (engine.go), the admission of MCP servers (mcphost.go), the
    curated registries (registries.go) and the gate's request policy (policy.go).

    IDNA conversion is golang.org/x/net/idna, and the digest of a placeholder is a
    hash: both are parameters.  Everything else is executable. *)
From stdpp Require Import base gmap strings list.
From Stdlib Require Import Ascii.
From S2P Require Import Prelude GoStrings.

(** [idna.Lookup.ToASCII]; [None] is the error, whose accompanying value every
    caller discards. *)
Class Idna := ToASCII : string -> option string.

(** ** Canonical names *)

Definition hasUpperASCII (s : string) : bool :=
  negb (all_bytes (fun c => negb (in_range 65 90 (ord c))) s).

Definition isASCII (s : string) : bool := all_bytes (fun c => ord c <? 128) s.

Definition lower_byte (c : ascii) : ascii :=
  if in_range 65 90 (ord c) then ascii_of_N (N_of_ascii c + 32) else c.

Fixpoint lower_bytes (s : string) : string :=
  match s with EmptyString => EmptyString | String c s' => String (lower_byte c) (lower_bytes s') end.

Definition foldASCII (h : string) : string :=
  if negb (hasUpperASCII h) then h else lower_bytes h.

Definition maxCanonicalHost : Z := 1024.

(** U+3002, U+FF0E and U+FF61, in UTF-8, each to be read as a dot. *)
Definition bytes3 (a b c : nat) : string :=
  String (ascii_of_nat a) (String (ascii_of_nat b) (String (ascii_of_nat c) EmptyString)).

Definition idnaFullStops : list (string * string) :=
  [(bytes3 227 128 130, "."); (bytes3 239 188 142, "."); (bytes3 239 189 161, ".")]%string.

Definition hasEmptyLabel (host : string) : bool :=
  let host := if isASCII host then host else Replace idnaFullStops host in
  existsb (fun label => String.eqb label EmptyString) (Split host ".").

Section names.
Context `{Idna}.

Definition canonicalName (h : string) : string :=
  let h := foldASCII h in
  if String.eqb h EmptyString || (slen h >? maxCanonicalHost) then h
  else if isASCII h then h
  else match ToASCII h with None => h | Some a => a end.

(** [strings.IndexByte(h, '%')] cuts the zone identifier off; it is kept as written. *)
Definition CanonicalHost (h : string) : string :=
  let '(name, zone, scoped) := Cut h "%" in
  if scoped then canonicalName name +:+ String "%" zone else canonicalName h.

Definition canonicalDeRooted (h : string) : string :=
  let '(name, zone, scoped) := Cut h "%" in
  if scoped then TrimSuffix (canonicalName name) "." +:+ String "%" zone
  else TrimSuffix (canonicalName h) ".".

Definition CanonicalLookup (h : string) : string := canonicalDeRooted (TrimSpace h).
End names.

(** ** Host sets *)

Record HostSet := mkHostSet {
  exact : gset string;
  suffixes : list string;
}.

Section hostset.
Context `{Idna}.

Definition live_key (k : string) : bool :=
  negb (String.eqb k EmptyString) && negb (hasEmptyLabel k).

(** The body of the loop over the entries. *)
Definition add_entry (s : HostSet) (e : string) : HostSet :=
  let e := TrimSpace e in
  match CutPrefix e "*." with
  | Some rest =>
      let rest := canonicalDeRooted rest in
      if live_key rest then mkHostSet (exact s) (suffixes s ++ [rest]) else s
  | None =>
      let e := canonicalDeRooted e in
      if live_key e then mkHostSet ({[e]} ∪ exact s) (suffixes s) else s
  end.

Definition NewHostSet (entries : list string) : HostSet :=
  fold_left add_entry entries (mkHostSet ∅ []).

(** [None] is the nil set. *)
Definition Match (s : option HostSet) (host : string) : bool :=
  match s with
  | None => false
  | Some s =>
      if slen host >? maxCanonicalHost then false
      else
        let host := CanonicalLookup host in
        if String.eqb host EmptyString || hasEmptyLabel host then false
        else if bool_decide (host ∈ exact s) then true
        else existsb (fun suf => HasSuffix host ("." +:+ suf)) (suffixes s)
  end.

Definition CoversEntry (s : option HostSet) (entry : string) : bool :=
  match s with
  | None => false
  | Some s0 =>
      let entry := TrimSpace entry in
      match CutPrefix entry "*." with
      | Some rest =>
          let rest := canonicalDeRooted rest in
          if String.eqb rest EmptyString || hasEmptyLabel rest then false
          else existsb (fun suf => String.eqb rest suf || HasSuffix rest ("." +:+ suf)) (suffixes s0)
      | None => Match s entry
      end
  end.
End hostset.

(** ** The entry grammar *)

(** The refusals, each quoting the spelling to display. *)
Inductive host_error :=
| ErrWildcardPrefix (display : string)
| ErrNotHost (display : string)
| ErrWildcardIP (display : string)
| ErrTooLong (display : string)
| ErrNotIdna (display : string).

(** [net.ParseIP] on a string without a colon: four decimal fields of at most 255,
    none of them empty or with a leading zero. *)
Definition ipv4_field (f : string) : bool :=
  match f with
  | EmptyString => false
  | String "0" (String _ _) => false
  | _ => match digits 0 f with Some v => v <=? 255 | None => false end
  end.

Definition ParseIPv4 (s : string) : bool :=
  let fs := Split s "." in Nat.eqb (length fs) 4 && forallb ipv4_field fs.

(** One label's runes: [None] for a rune out of the grammar, otherwise [allNumeric]. *)
Fixpoint check_label (rs : list (Z * string)) (allNumeric : bool) : option bool :=
  match rs with
  | [] => Some allNumeric
  | (r, _) :: rs' =>
      if in_range 97 122 r || in_range 65 90 r || (r =? 45) then check_label rs' false
      else if in_range 48 57 r then check_label rs' allNumeric
      else None
  end.

Fixpoint check_labels (labels : list string) (allNumeric : bool) : option bool :=
  match labels with
  | [] => Some allNumeric
  | label :: labels' =>
      if String.eqb label EmptyString || HasPrefix label "-" || HasSuffix label "-" then None
      else match check_label (runes label) allNumeric with
           | None => None
           | Some n => check_labels labels' n
           end
  end.

Definition validateHostEntry (h display : string) : result host_error unit :=
  let wildcard := HasPrefix h "*." in
  let host := TrimPrefix h "*." in
  if String.eqb host EmptyString || Contains host "*" then Err (ErrWildcardPrefix display)
  else if Contains host ":" then Err (ErrNotHost display)
  else if ParseIPv4 host then (if wildcard then Err (ErrWildcardIP display) else Ok tt)
  else match check_labels (Split host ".") true with
       | None => Err (ErrNotHost display)
       | Some allNumeric => if allNumeric then Err (ErrNotHost display) else Ok tt
       end.

Definition ValidateHostEntry (h : string) : result host_error unit := validateHostEntry h h.

Definition CanonicalEntry `{Idna} (h : string) : result host_error string :=
  try e <- (if negb (isASCII h) then
              let '(rest, wildcard) := match CutPrefix h "*." with
                                       | Some r => (r, true) | None => (h, false) end in
              if slen rest >? maxCanonicalHost then Err (ErrTooLong h)
              else match ToASCII rest with
                   | None => Err (ErrNotIdna h)
                   | Some a => Ok (if (wildcard : bool) then ("*." +:+ a)%string else a)
                   end
            else Ok h);
  try u <- validateHostEntry e h;
  Ok e.
