(* ===== verification/EgressSpec.v ===== *)
(** * EgressSpec: what a host set admits

    The matcher against a declarative reading of the entries, coverage of one
    entry by a set, and the storage form of an entry. *)
From stdpp Require Import base gmap strings list.
From Stdlib Require Import Ascii Lia.
From S2P Require Import Prelude GoStrings Egress.

(** ** Labels *)

(** The labels of a name: the pieces between its dots, the three IDNA full stops
    counting as dots. *)
Definition labels (h : string) : list string := Split (Replace idnaFullStops h) ".".

(** A name fit to be compared: nonempty, and no label of it is empty. *)
Definition well_formed (h : string) : Prop := h <> "" /\ Forall (fun l => l <> "") (labels h).

Lemma idnaFullStops_nonempty : Forall (fun p : string * string => p.1 <> EmptyString) idnaFullStops.
Proof. repeat constructor; discriminate. Qed.

(** The old strings of the replacer start with a byte no ASCII string holds. *)
Lemma stops_lookup_ascii ig c s : (ord c <? 128) = true -> replacer_lookup idnaFullStops ig (String c s) = None.
Proof.
  intros Hc. unfold idnaFullStops, bytes3. simpl. unfold HasPrefix. simpl.
  assert (Hne : forall n, (128 <= n < 256)%nat -> Ascii.eqb (ascii_of_nat n) c = false).
  { intros n Hn. apply Ascii.eqb_neq. intros <-. unfold ord in Hc.
    revert Hc. unfold ascii_of_nat.
    rewrite N_ascii_embedding by lia. intros Hc. bool_prop. lia. }
  pose proof (Hne 227%nat ltac:(lia)) as H1. pose proof (Hne 239%nat ltac:(lia)) as H2.
  unfold ascii_of_nat in *. simpl in *. by rewrite H1, H2.
Qed.

Lemma Replace_stops_ascii h : isASCII h = true -> Replace idnaFullStops h = h.
Proof.
  unfold isASCII. induction h as [|c h IH]; [done|]. simpl. intros [Hc Hh]%andb_true_iff.
  rewrite Replace_unfold, stops_lookup_ascii by (done || apply idnaFullStops_nonempty).
  by rewrite IH.
Qed.

(** The branch on [isASCII] only saves time. *)
Lemma hasEmptyLabel_spec h : hasEmptyLabel h = false <-> Forall (fun l => l <> "") (labels h).
Proof.
  unfold hasEmptyLabel, labels.
  replace (if isASCII h then h else _) with (Replace idnaFullStops h)
    by (destruct (isASCII h) eqn:E1; [by apply Replace_stops_ascii|done]).
  induction (Split _ _) as [|l ls IH]; simpl; [split; [constructor|done]|].
  rewrite orb_false_iff, String.eqb_neq, IH, Forall_cons. done.
Qed.

(** No old string reaches across a dot. *)
Lemma HasPrefix_across a b p :
  no_byte "." p -> HasPrefix (a +:+ String "." b) p = HasPrefix a p.
Proof.
  unfold no_byte, HasPrefix. revert a; induction p as [|x p IH]; intros a; simpl.
  - by destruct a.
  - intros [Hx Hp]%andb_true_iff. destruct a as [|y a]; simpl.
    + apply negb_true_iff in Hx. by rewrite Hx.
    + destruct (Ascii.eqb x y); [by apply IH|done].
Qed.

Lemma TrimPrefix_across a b p :
  HasPrefix a p = true -> TrimPrefix (a +:+ String "." b) p = TrimPrefix a p +:+ String "." b.
Proof.
  unfold HasPrefix, TrimPrefix. destruct (CutPrefix a p) as [r|] eqn:E1; [|done]. intros _.
  apply CutPrefix_Some in E1 as ->. rewrite append_assoc.
  by rewrite (proj2 (CutPrefix_Some _ p (r +:+ String "." b))).
Qed.

Lemma replacer_lookup_across pairs ig a b :
  Forall (fun p => no_byte "." p.1) pairs ->
  replacer_lookup pairs ig (a +:+ String "." b) = replacer_lookup pairs ig a.
Proof.
  induction 1 as [|[o n] pairs Ho _ IH]; simpl; [done|].
  rewrite HasPrefix_across by done. by rewrite IH.
Qed.

Lemma Replace_dot a b :
  Replace idnaFullStops (a +:+ String "." b) =
  Replace idnaFullStops a +:+ String "." (Replace idnaFullStops b).
Proof.
  assert (Hnb : Forall (fun p : string * string => no_byte "." p.1) idnaFullStops)
    by (repeat constructor).
  remember (String.length a) as n eqn:Hn. revert a Hn.
  induction (lt_wf n) as [n _ IH]; intros a ->.
  pose proof idnaFullStops_nonempty as Hne.
  rewrite (Replace_unfold _ (a +:+ _)), (Replace_unfold _ a) by done.
  rewrite replacer_lookup_across by done.
  destruct (replacer_lookup idnaFullStops false a) as [[o w]|] eqn:E1.
  - apply replacer_lookup_Some in E1 as [Hin Hp]. rewrite Forall_forall in Hne.
    specialize (Hne _ Hin). simpl in Hne.
    rewrite TrimPrefix_across, append_assoc by done. f_equal.
    pose proof (TrimPrefix_length _ _ Hp).
    assert (String.length o <> 0)%nat by (by destruct o). eapply IH; [|done]. lia.
  - destruct a as [|c a]; simpl; [done|]. f_equal. eapply IH; [|done]. simpl. lia.
Qed.

Lemma Split_dot a b c : Split (a +:+ String c b) c = Split a c ++ Split b c.
Proof.
  induction a as [|x a IH]; simpl; [by rewrite Ascii.eqb_refl|].
  rewrite IH. destruct (Ascii.eqb x c); [done|].
  destruct (Split a c) eqn:E1; [|done]. exfalso. revert E1.
  destruct a; simpl; [done|]. repeat case_match; done.
Qed.

(** A dot separates labels. *)
Lemma labels_dot a b : labels (a +:+ "." +:+ b) = labels a ++ labels b.
Proof. unfold labels. simpl. by rewrite Replace_dot, Split_dot. Qed.

Lemma labels_nil : labels "" = [""].
Proof. vm_compute. reflexivity. Qed.

(** Both sides of a dot in a well-formed name are well formed. *)
Lemma well_formed_dot a b : well_formed (a +:+ "." +:+ b) -> well_formed a /\ well_formed b.
Proof.
  unfold well_formed. rewrite labels_dot, Forall_app. intros [_ [Ha Hb]].
  split; (split; [|done]); intros ->; rewrite labels_nil in *;
    match goal with H : Forall _ [""] |- _ => by apply Forall_cons in H as [[] _] end.
Qed.

Lemma live_key_spec k : live_key k = true <-> well_formed k.
Proof.
  unfold live_key, well_formed. rewrite andb_true_iff, !negb_true_iff, String.eqb_neq.
  by rewrite hasEmptyLabel_spec.
Qed.

Lemma dead_key_spec k : String.eqb k EmptyString || hasEmptyLabel k = false <-> well_formed k.
Proof.
  unfold well_formed. by rewrite orb_false_iff, String.eqb_neq, hasEmptyLabel_spec.
Qed.

(** ** What an entry names *)

Section hostset.
Context `{Idna}.

(** The canonical host [c] is one the entry [e] names: itself, or, for a
    "*."-prefixed entry, a proper subdomain of the rest. *)
Definition names_host (e c : string) : Prop :=
  match CutPrefix (TrimSpace e) "*." with
  | Some rest => exists sub, sub <> "" /\ c = sub +:+ "." +:+ canonicalDeRooted rest
  | None => c = canonicalDeRooted (TrimSpace e)
  end.

(** The test of a canonical host against a set. *)
Definition holds_host (s : HostSet) (c : string) : Prop :=
  c ∈ exact s \/ exists suf sub, suf ∈ suffixes s /\ c = sub +:+ "." +:+ suf.

Lemma Match_holds s host :
  Match (Some s) host = true <->
  slen host <= maxCanonicalHost /\ well_formed (CanonicalLookup host) /\
  holds_host s (CanonicalLookup host).
Proof.
  unfold Match. rewrite <- dead_key_spec, Z.gtb_ltb.
  destruct (Z.ltb_spec maxCanonicalHost (slen host)); [split; [done|lia]|].
  destruct (_ || _); [split; [done|by intros (_ & ? & _)]|].
  unfold holds_host. case_bool_decide; [split; naive_solver|].
  rewrite existsb_exists. split.
  - intros (suf & Hin & Hs). apply HasSuffix_spec in Hs as [sub Hs].
    split; [lia|]. split; [done|]. right. exists suf, sub. by rewrite list_elem_of_In.
  - intros (_ & _ & [?|(suf & sub & Hin & Hs)]); [done|]. exists suf.
    split; [by apply list_elem_of_In|]. apply HasSuffix_spec. by exists sub.
Qed.

Lemma holds_host_add s e c :
  well_formed c -> holds_host (add_entry s e) c <-> holds_host s c \/ names_host e c.
Proof.
  intros Hc. unfold add_entry, names_host.
  destruct (CutPrefix (TrimSpace e) "*.") as [rest|]; cbv zeta.
  - set (k := canonicalDeRooted rest). destruct (live_key k) eqn:Hk; unfold holds_host; simpl.
    + split.
      * intros [?|(suf & sub & [?|Hk']%elem_of_app & ->)]; [naive_solver..|].
        apply list_elem_of_singleton in Hk' as ->.
        right. exists sub. split; [|done]. apply (well_formed_dot sub k) in Hc as [[? _] _]. done.
      * intros [[?|(suf & sub & ? & ->)]|(sub & _ & ->)]; [by left|right..].
        -- exists suf, sub. rewrite elem_of_app. auto.
        -- exists k, sub. rewrite elem_of_app, list_elem_of_singleton. auto.
    + split; [naive_solver|]. intros [?|(sub & _ & ->)]; [done|].
      apply (well_formed_dot sub k) in Hc as [_ Hc]. apply live_key_spec in Hc. congruence.
  - set (k := canonicalDeRooted _). destruct (live_key k) eqn:Hk; unfold holds_host; simpl.
    + rewrite elem_of_union, elem_of_singleton. naive_solver.
    + split; [naive_solver|]. intros [?| ->]; [done|]. apply live_key_spec in Hc. congruence.
Qed.

Lemma holds_host_fold es s c :
  well_formed c ->
  holds_host (fold_left add_entry es s) c <-> holds_host s c \/ exists e, e ∈ es /\ names_host e c.
Proof.
  intros Hc. revert s; induction es as [|e es IH]; intros s; simpl.
  - split; [by left|]. intros [?|(e & He & _)]; [done|by apply not_elem_of_nil in He].
  - rewrite IH, holds_host_add by done. split.
    + intros [[?|?]|(x & ? & ?)]; [by left|right; exists e; split; [left|done]|right].
      exists x. split; [by right|done].
    + intros [?|(x & [->|Hx]%elem_of_cons & ?)]; [by left; left|by left; right|right; eauto].
Qed.

(** The host is one of those a list of entries names. *)
Definition listed (es : list string) (host : string) : Prop :=
  slen host <= maxCanonicalHost /\ well_formed (CanonicalLookup host) /\
  exists e, e ∈ es /\ names_host e (CanonicalLookup host).

Lemma NewHostSet_holds es c :
  well_formed c -> holds_host (NewHostSet es) c <-> exists e, e ∈ es /\ names_host e c.
Proof.
  intros Hc. unfold NewHostSet. rewrite holds_host_fold by done. unfold holds_host. simpl.
  split; [|by right]. intros [[?|(? & ? & Hin & _)]|?]; [set_solver|by apply not_elem_of_nil in Hin|done].
Qed.

Lemma Match_listed es host : Match (Some (NewHostSet es)) host = true <-> listed es host.
Proof.
  rewrite Match_holds. unfold listed.
  split; intros (? & Hw & Hh); (split; [done|]; split; [done|]); by apply NewHostSet_holds.
Qed.
End hostset.

(** ** The storage form of an entry *)

(** What the Lookup profile documents: names are case-folded before anything else,
    and with the STD3 rules a converted name holds lower-case letters, digits,
    hyphens and dots alone. *)
Definition ldh (c : ascii) : bool :=
  in_range 97 122 (ord c) || in_range 48 57 (ord c) || (ord c =? 45) || (ord c =? 46).

Class IdnaLaws `{Idna} : Prop := {
  ToASCII_fold h : ToASCII (foldASCII h) = ToASCII h;
  ToASCII_ldh h a : ToASCII h = Some a -> all_bytes ldh a = true;
}.

Lemma ldh_range c : ldh c = true -> 45 <= ord c <= 122 /\ in_range 65 90 (ord c) = false.
Proof.
  unfold ldh, in_range. rewrite !orb_true_iff, !andb_true_iff, andb_false_iff, !Z.leb_le, !Z.leb_gt, !Z.eqb_eq.
  lia.
Qed.

Lemma ldh_ascii a : all_bytes ldh a = true -> isASCII a = true.
Proof. apply all_bytes_impl. intros c [Hc _]%ldh_range. apply Z.ltb_lt. lia. Qed.

Lemma ldh_visible a : all_bytes ldh a = true -> all_bytes (fun c => in_range 33 126 (ord c)) a = true.
Proof.
  apply all_bytes_impl. intros c [Hc _]%ldh_range. unfold in_range.
  apply andb_true_iff. rewrite !Z.leb_le. lia.
Qed.

Lemma ldh_fold a : all_bytes ldh a = true -> foldASCII a = a.
Proof.
  intros Ha. unfold foldASCII, hasUpperASCII. rewrite negb_involutive.
  rewrite (all_bytes_impl _ _ _ (fun c Hc => f_equal negb (proj2 (ldh_range c Hc))) Ha). done.
Qed.

Lemma ldh_no_percent a : all_bytes ldh a = true -> no_byte "%" a.
Proof.
  apply all_bytes_impl. intros c [Hc _]%ldh_range. apply negb_true_iff, Ascii.eqb_neq.
  intros ->. change (ord "%") with 37 in Hc. lia.
Qed.

Lemma ldh_no_star a : all_bytes ldh a = true -> CutPrefix a "*." = None.
Proof.
  intros Ha. destruct a as [|c a]; [done|]. cbn [CutPrefix]. cbn [all_bytes] in Ha. apply andb_true_iff in Ha as [[Hc _]%ldh_range _].
  destruct (Ascii.eqb_spec "*" c) as [<-|]; [|done]. change (ord "*") with 42 in Hc. lia.
Qed.

Lemma length_lower_bytes s : String.length (lower_bytes s) = String.length s.
Proof. induction s as [|c s IH]; simpl; [done|by rewrite IH]. Qed.

Lemma slen_foldASCII h : slen (foldASCII h) = slen h.
Proof. unfold foldASCII, slen. destruct (negb _); [done|]. by rewrite length_lower_bytes. Qed.

Lemma lower_byte_ascii c : (ord (lower_byte c) <? 128) = (ord c <? 128).
Proof.
  unfold lower_byte. destruct (in_range 65 90 (ord c)) eqn:E1; [|done].
  unfold in_range in E1. bool_prop. unfold ord in *. rewrite N_ascii_embedding by lia.
  apply eq_true_iff_eq. rewrite !Z.ltb_lt. lia.
Qed.

Lemma isASCII_fold h : isASCII (foldASCII h) = isASCII h.
Proof.
  unfold foldASCII, isASCII. destruct (negb _); [done|].
  induction h as [|c h IH]; simpl; [done|]. by rewrite lower_byte_ascii, IH.
Qed.

Section entries.
Context `{IdnaLaws}.

Lemma canonicalName_ldh a : all_bytes ldh a = true -> canonicalName a = a.
Proof.
  intros Ha. unfold canonicalName. rewrite (ldh_fold a Ha), (ldh_ascii a Ha). by destruct (_ || _).
Qed.

(** Converting the written name is converting its fold. *)
Lemma canonicalName_converts h a :
  isASCII h = false -> slen h <= maxCanonicalHost -> ToASCII h = Some a -> canonicalName h = a.
Proof.
  intros Ha Hl Hc. unfold canonicalName. rewrite slen_foldASCII, isASCII_fold, Ha, ToASCII_fold, Hc.
  rewrite Z.gtb_ltb. destruct (Z.ltb_spec maxCanonicalHost (slen h)); [lia|]. rewrite orb_false_r.
  destruct (String.eqb_spec (foldASCII h) "") as [E1|]; [|done].
  rewrite <- isASCII_fold, E1 in Ha. done.
Qed.

Lemma canonicalDeRooted_stored h a :
  isASCII h = false -> no_byte "%" h -> slen h <= maxCanonicalHost -> ToASCII h = Some a ->
  canonicalDeRooted a = canonicalDeRooted h.
Proof.
  intros Ha Hp Hl Hc. pose proof (ToASCII_ldh _ _ Hc) as Hldh.
  unfold canonicalDeRooted. rewrite (Cut_none a) by (by apply ldh_no_percent).
  rewrite (Cut_none h) by done. by rewrite canonicalName_ldh, (canonicalName_converts h a).
Qed.
End entries.

Lemma CutPrefix_app p r : CutPrefix (p +:+ r) p = Some r.
Proof. by apply CutPrefix_Some. Qed.

(** Two entries of one shape with one key are one entry. *)
Lemma add_entry_wildcard `{Idna} s r1 r2 :
  TrimSpace ("*." +:+ r1) = "*." +:+ r1 -> TrimSpace ("*." +:+ r2) = "*." +:+ r2 ->
  canonicalDeRooted r1 = canonicalDeRooted r2 -> add_entry s ("*." +:+ r1) = add_entry s ("*." +:+ r2).
Proof. intros H1 H2 Hk. unfold add_entry. cbv zeta. by rewrite H1, H2, !CutPrefix_app, Hk. Qed.

Lemma add_entry_plain `{Idna} s e1 e2 :
  TrimSpace e1 = e1 -> TrimSpace e2 = e2 -> CutPrefix e1 "*." = None -> CutPrefix e2 "*." = None ->
  canonicalDeRooted e1 = canonicalDeRooted e2 -> add_entry s e1 = add_entry s e2.
Proof. intros H1 H2 C1 C2 Hk. unfold add_entry. cbv zeta. by rewrite H1, H2, C1, C2, Hk. Qed.

Lemma validateHostEntry_display h d d' :
  validateHostEntry h d = Ok tt -> validateHostEntry h d' = Ok tt.
Proof. unfold validateHostEntry. repeat case_match; done. Qed.

(** ** The theorems *)

Section theorems.
Context `{Idna}.

(** A host set admits exactly the hosts its entries name.  A host matches iff it
    is within the length cap, its canonical form is well formed (nonempty, no empty
    label, the ideographic full stops counting as dots), and some entry names that
    form: an exact entry its own canonical form, a "*." entry a proper subdomain, at
    any depth, of the rest.  Hence never the apex of a wildcard, and the keys
    [NewHostSet] drops change no answer. *)
Theorem Match_exact es host :
  Match (Some (NewHostSet es)) host = true <->
  slen host <= maxCanonicalHost /\ well_formed (CanonicalLookup host) /\
  exists e, e ∈ es /\ names_host e (CanonicalLookup host).
Proof.
  exact (Match_listed es host).
Qed.

(** The config-conflict probe is sound.  If a set covers an entry, every host a
    set made of that entry alone would match is matched by the covering set: a
    credential that is not reported unreachable can use each host it names.  An
    entry without a wildcard is covered exactly when the set matches it, and a set
    without wildcards covers no wildcard entry. *)
Theorem CoversEntry_sound s e :
  (CoversEntry (Some s) e = true ->
   forall host, Match (Some (NewHostSet [e])) host = true -> Match (Some s) host = true) /\
  (CutPrefix (TrimSpace e) "*." = None -> CoversEntry (Some s) e = Match (Some s) (TrimSpace e)) /\
  (suffixes s = [] -> CutPrefix (TrimSpace e) "*." <> None -> CoversEntry (Some s) e = false).
Proof.
  unfold CoversEntry. cbv zeta. split; [|split].
  - intros Hcov host. rewrite !Match_holds. intros (? & Hw & Hh). split; [done|]. split; [done|].
    apply NewHostSet_holds in Hh as (e' & He & Hn); [|done].
    apply list_elem_of_singleton in He as ->. revert Hn Hcov. unfold names_host.
    destruct (CutPrefix (TrimSpace e) "*.") as [rest|].
    + intros (sub & _ & ->). destruct (_ || _); [done|]. rewrite existsb_exists.
      intros (suf & Hin & Hs). apply list_elem_of_In in Hin. right.
      apply orb_true_iff in Hs as [->%String.eqb_eq|[r ->]%HasSuffix_spec]; [by exists suf, sub|].
      exists suf, (sub +:+ "." +:+ r). split; [done|]. by rewrite !append_assoc.
    + intros ->. rewrite Match_holds. unfold CanonicalLookup.
      by rewrite TrimSpace_idemp; intros (_ & _ & ?).
  - by intros ->.
  - intros Hs. destruct (CutPrefix (TrimSpace e) "*."); [|done]. rewrite Hs. by destruct (_ || _).
Qed.

(** The form an entry is stored in is faithful to the one that was written.  When
    [CanonicalEntry] accepts an entry with no surrounding space and no zone, what it
    returns is ASCII, passes [ValidateHostEntry] again, is the entry itself when that
    was ASCII, and makes the same host set: whatever the operator's spelling matches,
    the stored one matches, and the reverse. *)
Theorem CanonicalEntry_same_hosts `{!IdnaLaws} h e :
  CanonicalEntry h = Ok e -> TrimSpace h = h -> no_byte "%" h ->
  isASCII e = true /\ ValidateHostEntry e = Ok tt /\ (isASCII h = true -> e = h) /\
  NewHostSet [e] = NewHostSet [h].
Proof.
  unfold CanonicalEntry. intros Hc Ht Hp.
  destruct (isASCII h) eqn:Ha; cbn [negb] in Hc.
  { destruct (validateHostEntry h h) as [[]|] eqn:Hv; [|done]. by injection Hc as <-. }
  unfold ValidateHostEntry, NewHostSet. cbn [fold_left].
  destruct (CutPrefix h "*.") as [rest|] eqn:Hcut; cbn iota in Hc.
  - apply CutPrefix_Some in Hcut as ->.
    destruct (slen rest >? maxCanonicalHost) eqn:Hlen; [done|].
    destruct (ToASCII rest) as [a|] eqn:Ea; [|done]. cbn iota in Hc.
    destruct (validateHostEntry _ _) as [[]|] eqn:Hv; [|done]. injection Hc as <-.
    pose proof (ToASCII_ldh _ _ Ea) as Hldh. rewrite Z.gtb_ltb in Hlen. bool_prop.
    split; [by apply ldh_ascii in Hldh|]. split; [by eapply validateHostEntry_display|].
    split; [done|]. apply add_entry_wildcard; [|done|by apply canonicalDeRooted_stored].
    apply TrimSpace_visible. by apply ldh_visible in Hldh.
  - destruct (slen h >? maxCanonicalHost) eqn:Hlen; [done|].
    destruct (ToASCII h) as [a|] eqn:Ea; [|done].
    destruct (validateHostEntry _ _) as [[]|] eqn:Hv; [|done]. injection Hc as <-.
    pose proof (ToASCII_ldh _ _ Ea) as Hldh. rewrite Z.gtb_ltb in Hlen. bool_prop.
    split; [by apply ldh_ascii|]. split; [by eapply validateHostEntry_display|]. split; [done|].
    apply add_entry_plain; [by apply TrimSpace_visible, ldh_visible|done|by apply ldh_no_star|done|].
    by apply canonicalDeRooted_stored.
Qed.
End theorems.

(** ** Witnesses *)

(** A conversion that knows one U-label, in either case, and refuses the rest. *)
Definition one_label : Idna :=
  fun h => if String.eqb (foldASCII h) "ä.example" then Some "xn--4ca.example" else None.

Lemma lower_byte_idemp c : lower_byte (lower_byte c) = lower_byte c.
Proof.
  unfold lower_byte at 2 3. destruct (in_range 65 90 (ord c)) eqn:E1.
  - unfold lower_byte. unfold in_range in *. bool_prop. unfold ord in *.
    rewrite N_ascii_embedding by lia.
    replace (Z.of_N (N_of_ascii c + 32) <=? 90) with false by (symmetry; apply Z.leb_gt; lia).
    by rewrite andb_false_r.
  - unfold lower_byte. by rewrite E1.
Qed.

Lemma foldASCII_lower h : foldASCII h = lower_bytes h.
Proof.
  unfold foldASCII, hasUpperASCII. rewrite negb_involutive. destruct (all_bytes _ h) eqn:E1; [|done].
  induction h as [|c h IH]; simpl; [done|]. simpl in E1. apply andb_true_iff in E1 as [Hc Hh].
  unfold lower_byte. apply negb_true_iff in Hc. rewrite Hc. by rewrite <- IH.
Qed.

#[export] Instance one_label_laws : IdnaLaws (H := one_label).
Proof.
  split; unfold ToASCII, one_label.
  - intros h. replace (foldASCII (foldASCII h)) with (foldASCII h); [done|].
    rewrite !foldASCII_lower. induction h as [|c h IH]; simpl; [done|]. by rewrite lower_byte_idemp, <- IH.
  - intros h a. destruct (String.eqb _ _); [|done]. by intros [= <-].
Qed.

(** "*.api.example.com" is covered by "*.example.com", so a request host under it matches. *)
Lemma CoversEntry_sound_witness :
  let s := NewHostSet (H := one_label) ["*.example.com"] in
  CoversEntry (H := one_label) (Some s) "*.api.example.com" = true /\
  Match (H := one_label) (Some s) "v1.API.example.com." = true.
Proof.
  intros s.
  assert (Hc : CoversEntry (H := one_label) (Some s) "*.api.example.com" = true) by (vm_compute; reflexivity).
  split; [exact Hc|].
  apply (proj1 (@CoversEntry_sound one_label s "*.api.example.com") Hc). vm_compute. reflexivity.
Defined.

(** "*.Ä.example" is stored as its A-label, and is the same set. *)
Lemma CanonicalEntry_same_hosts_witness :
  let e := "*.xn--4ca.example" in let h := "*.ä.example" in
  CanonicalEntry (H := one_label) h = Ok e /\
  NewHostSet (H := one_label) [e] = NewHostSet (H := one_label) [h].
Proof.
  intros e h.
  assert (Hc : CanonicalEntry (H := one_label) h = Ok e) by (vm_compute; reflexivity).
  split; [exact Hc|].
  apply (@CanonicalEntry_same_hosts one_label one_label_laws h e Hc); vm_compute; reflexivity.
Defined.
