(* ===== verification/Gate.v ===== *)
(** * Gate: secrets, MCP servers and the request policy
      (internal/egress/engine.go, mcphost.go, registries.go; internal/gate/policy.go)

    The substitution engine of an outbound request, the predicate session create and
    the executor ask about an MCP server, and the policy the gate's handlers ask
    before any request leaves.  All three use the host sets of [Egress]. *)
From stdpp Require Import base gmap strings list.
From Stdlib Require Import Ascii.
From S2P Require Import Prelude GoStrings Egress.

(** ** engine.go *)

Definition PlaceholderPrefix : string := "vltph_".

(** The hex form of the first 16 bytes of a SHA-256 digest is a parameter. *)
Definition Placeholder (hex128 : string -> string) (sessionID secretName : string) : string :=
  PlaceholderPrefix +:+ hex128 (sessionID +:+ String (ascii_of_nat 0) secretName).

Inductive Location := LocationHeader | LocationBody.

Record Credential := mkCredential {
  c_Placeholder : string;
  c_Secret : string;
  c_Hosts : option HostSet;
  c_Unrestricted : bool;
  c_Header : bool;
  c_Body : bool;
}.

Definition enabled (c : Credential) (loc : Location) : bool :=
  match loc with LocationHeader => c_Header c | LocationBody => c_Body c end.

Section engine.
Context `{Idna}.

(** [c.Unrestricted || c.Hosts.Match(host)] *)
Definition usable (c : Credential) (host : string) : bool :=
  c_Unrestricted c || Match (c_Hosts c) host.

(** The loop over the credentials: the replacement pairs and the unreachable ones. *)
Definition collect (host : string) (loc : Location) (s : string)
    (acc : list (string * string) * list Credential) (c : Credential)
  : list (string * string) * list Credential :=
  let '(pairs, unreachable) := acc in
  if negb (enabled c loc) || negb (Contains s (c_Placeholder c)) then (pairs, unreachable)
  else if usable c host then (pairs ++ [(c_Placeholder c, c_Secret c)], unreachable)
  else (pairs, unreachable ++ [c]).

Definition Substitute (creds : list Credential) (host : string) (loc : Location) (s : string)
  : string * list Credential :=
  let '(pairs, unreachable) := fold_left (collect host loc s) creds ([], []) in
  if Nat.eqb (length pairs) 0 then (s, unreachable) else (Replace pairs s, unreachable).
End engine.

(** ** The environment's networking block (domain/environment.go) *)

(** The type is a string of the stored configuration, so an unknown one can occur. *)
Definition NetUnrestricted : string := "unrestricted".
Definition NetLimited : string := "limited".
Definition EnvSelfHosted : string := "self_hosted".

Record Networking := mkNetworking {
  net_Type : string;
  AllowedHosts : list string;
  AllowMCPServers : bool;
  AllowPackageManagers : bool;
}.

Record EnvironmentConfig := mkEnvironmentConfig {
  env_Type : string;
  env_Packages : gmap string (list string);
  env_Networking : Networking;
}.

(** ** registries.go *)

Definition packageRegistryHosts : list string :=
  ["pypi.org"; "files.pythonhosted.org";
   "registry.npmjs.org"; "registry.yarnpkg.com"; "nodejs.org";
   "crates.io"; "index.crates.io"; "static.crates.io";
   "rubygems.org"; "index.rubygems.org";
   "proxy.golang.org"; "sum.golang.org";
   "archive.ubuntu.com"; "security.ubuntu.com"; "ppa.launchpad.net";
   "packagist.org";
   "repo.maven.apache.org"; "repo1.maven.org"; "plugins.gradle.org";
   "github.com"; "api.github.com"; "raw.githubusercontent.com"; "codeload.github.com";
   "objects.githubusercontent.com"; "gitlab.com"; "bitbucket.org";
   "ghcr.io"; "registry-1.docker.io"; "auth.docker.io"; "download.docker.com"]%string.

Definition PackageRegistryHosts : list string := packageRegistryHosts.

(** ** policy.go *)

Inductive admission :=
| admitNone | admitUnrestricted | admitOperator | admitMCP | admitRegistry.

Definition floored (a : admission) : bool :=
  match a with admitOperator => false | _ => true end.

Definition rooted (a : admission) : bool :=
  match a with admitRegistry => true | _ => false end.

Record policy := mkPolicy {
  admitAll : bool;
  allowed : option HostSet;
  mcp : gset string;
  packages : option HostSet;
}.

Section policy.
Context `{Idna}.

Definition MCPServerAdmitted (cfg : EnvironmentConfig) (host : string) : bool :=
  let net := env_Networking cfg in
  if String.eqb (env_Type cfg) EnvSelfHosted && String.eqb (net_Type net) "" then true
  else if String.eqb (net_Type net) NetUnrestricted then true
  else if String.eqb (net_Type net) NetLimited then
    if AllowMCPServers net then true else Match (Some (NewHostSet (AllowedHosts net))) host
  else false.

Definition endpointKey (host port : string) : string :=
  CanonicalLookup host +:+ ":" +:+ TrimLeft port "0".

Definition packageRegistries : HostSet := NewHostSet PackageRegistryHosts.

Definition add_endpoint (m : gset string) (e : string) : gset string :=
  let '(host, port, ok) := Cut (TrimSpace e) ":" in
  if (ok : bool) then {[endpointKey host port]} ∪ m else m.

Definition newPolicy (net : Networking) (mcpEndpoints : list string) : policy :=
  if String.eqb (net_Type net) NetUnrestricted then mkPolicy true None ∅ None
  else if String.eqb (net_Type net) NetLimited then
    mkPolicy false (Some (NewHostSet (AllowedHosts net)))
      (if AllowMCPServers net then fold_left add_endpoint mcpEndpoints ∅ else ∅)
      (if AllowPackageManagers net then Some packageRegistries else None)
  else mkPolicy false None ∅ None.

Definition policy_admit (p : policy) (host port : string) : admission :=
  if String.eqb host EmptyString then admitNone
  else if admitAll p then admitUnrestricted
  else if Match (allowed p) host then admitOperator
  else if Match (packages p) host then admitRegistry
  else if bool_decide (endpointKey host port ∈ mcp p) then admitMCP
  else admitNone.
End policy.
