(* ===== verification/GateSpec.v ===== *)
(** * GateSpec: what leaves the sandbox, and with which secrets

    The policy against a declarative reading of the environment's networking block,
    its agreement with the MCP admission predicate, and two theorems on substitution:
    a secret its host may not see has no influence on what is sent, and the order of
    the credentials has none either. *)
From stdpp Require Import base gmap strings list.
From Stdlib Require Import Ascii Lia.
From S2P Require Import Prelude GoStrings Egress EgressSpec Gate.

(** ** Endpoints *)

Section endpoints.
Context `{IdnaLaws}.

Lemma no_colon_lower h : no_byte ":" h -> no_byte ":" (foldASCII h).
Proof.
  rewrite foldASCII_lower. unfold no_byte. induction h as [|c h IH]; simpl; [done|].
  intros [Hc Hh]%andb_true_iff. rewrite IH, andb_true_r by done.
  apply negb_true_iff, Ascii.eqb_neq. apply negb_true_iff, Ascii.eqb_neq in Hc.
  unfold lower_byte. destruct (in_range 65 90 (ord c)) eqn:E1; [|done].
  intros E2. apply (f_equal ord) in E2. unfold in_range in E1. bool_prop.
  unfold ord in *. rewrite N_ascii_embedding in E2 by lia. change (Z.of_N (N_of_ascii ":")) with 58 in E2. lia.
Qed.

Lemma no_colon_name h : no_byte ":" h -> no_byte ":" (canonicalName h).
Proof.
  intros Hh. apply no_colon_lower in Hh. unfold canonicalName.
  destruct (_ || _); [done|]. destruct (isASCII _); [done|].
  destruct (ToASCII _) as [a|] eqn:Ea; [|done]. apply ToASCII_ldh in Ea. revert Ea.
  apply all_bytes_impl. intros c Hc. apply negb_true_iff, Ascii.eqb_neq. by intros ->.
Qed.

Lemma no_colon_lookup h : no_byte ":" h -> no_byte ":" (CanonicalLookup h).
Proof.
  intros Hh. unfold CanonicalLookup, canonicalDeRooted. apply all_bytes_TrimSpace in Hh.
  destruct (Cut (TrimSpace h) "%") as [[name zone] []] eqn:E1.
  - apply Cut_found in E1. rewrite E1 in Hh. unfold no_byte in *.
    rewrite all_bytes_app in Hh |- *. apply andb_true_iff in Hh as [Hn Hz].
    apply andb_true_iff. split; [|done]. by apply all_bytes_TrimSuffix, no_colon_name.
  - by apply all_bytes_TrimSuffix, no_colon_name.
Qed.

(** On hosts without a colon the key tells host and port apart. *)
Lemma endpointKey_inj h1 p1 h2 p2 :
  no_byte ":" h1 -> no_byte ":" h2 -> endpointKey h1 p1 = endpointKey h2 p2 ->
  CanonicalLookup h1 = CanonicalLookup h2 /\ TrimLeft p1 "0" = TrimLeft p2 "0".
Proof.
  intros H1%no_colon_lookup H2%no_colon_lookup Hk. unfold endpointKey in Hk.
  apply (f_equal (fun s => Cut s ":")) in Hk. simpl in Hk. rewrite !Cut_at in Hk by done.
  by injection Hk.
Qed.
End endpoints.

Lemma Cut_before_no_sep s c b r f : Cut s c = (b, r, f) -> no_byte c b.
Proof.
  unfold no_byte. revert b; induction s as [|a s IH]; intros b; simpl; [by intros [= <- _ _]|].
  destruct (Ascii.eqb a c) eqn:E1; [by intros [= <- _ _]|].
  destruct (Cut s c) as [[b' r'] f']. intros [= <- <- <-]. simpl. by rewrite E1, IH.
Qed.

(** ** What the networking block admits *)

Section policy.
Context `{Idna}.

(** The endpoint [e] declares the host and port asked for: one host in canonical
    form, one port up to leading zeros. *)
Definition declares (e host port : string) : Prop :=
  exists h p, Cut (TrimSpace e) ":" = (h, p, true) /\
    CanonicalLookup h = CanonicalLookup host /\ TrimLeft p "0" = TrimLeft port "0".

Definition declared (eps : list string) (host port : string) : Prop :=
  exists e, e ∈ eps /\ declares e host port.

(** The reading of the networking block: which set lets a request out, the
    operator's before the registries', the registries' before the agent's. *)
Inductive admits (net : Networking) (eps : list string) (host port : string) : admission -> Prop :=
| admits_unrestricted :
    host <> "" -> net_Type net = NetUnrestricted ->
    admits net eps host port admitUnrestricted
| admits_operator :
    host <> "" -> net_Type net = NetLimited -> listed (AllowedHosts net) host ->
    admits net eps host port admitOperator
| admits_registry :
    host <> "" -> net_Type net = NetLimited -> ~ listed (AllowedHosts net) host ->
    AllowPackageManagers net = true -> listed PackageRegistryHosts host ->
    admits net eps host port admitRegistry
| admits_mcp :
    host <> "" -> net_Type net = NetLimited -> ~ listed (AllowedHosts net) host ->
    (AllowPackageManagers net = true -> ~ listed PackageRegistryHosts host) ->
    AllowMCPServers net = true -> declared eps host port ->
    admits net eps host port admitMCP
| admits_none :
    host = "" \/ (net_Type net <> NetUnrestricted /\ net_Type net <> NetLimited) \/
    (net_Type net = NetLimited /\ ~ listed (AllowedHosts net) host /\
     (AllowPackageManagers net = true -> ~ listed PackageRegistryHosts host) /\
     (AllowMCPServers net = true -> ~ declared eps host port)) ->
    admits net eps host port admitNone.

Lemma add_endpoint_fold eps m k :
  k ∈ fold_left add_endpoint eps m <->
  k ∈ m \/ exists e h p, e ∈ eps /\ Cut (TrimSpace e) ":" = (h, p, true) /\ k = endpointKey h p.
Proof.
  revert m; induction eps as [|e eps IH]; intros m; simpl.
  { split; [by left|]. intros [?|(e & h & p & He & _)]; [done|by apply not_elem_of_nil in He]. }
  rewrite IH. unfold add_endpoint. destruct (Cut (TrimSpace e) ":") as [[h p] []] eqn:E1.
  - rewrite elem_of_union, elem_of_singleton. setoid_rewrite elem_of_cons. split.
    + intros [[->|?]|(e' & h' & p' & ? & ? & ?)]; [right; exists e, h, p; auto|by left|].
      right. exists e', h', p'. auto.
    + intros [?|(e' & h' & p' & [->|?] & E2 & ?)]; [auto|left; left; congruence|].
      right. exists e', h', p'. auto.
  - setoid_rewrite elem_of_cons. split.
    + intros [?|(e' & h' & p' & ? & ? & ?)]; [by left|]. right. exists e', h', p'. auto.
    + intros [?|(e' & h' & p' & [->|?] & E2 & ?)]; [by left|congruence|]. right. exists e', h', p'. auto.
Qed.

Lemma Match_listed_false es host : Match (Some (NewHostSet es)) host = false <-> ~ listed es host.
Proof. rewrite <- Match_listed. by destruct (Match _ _). Qed.
End policy.

Lemma mcp_declared `{IdnaLaws} eps host port :
  no_byte ":" host ->
  endpointKey host port ∈ fold_left add_endpoint eps (∅ : gset string) <-> declared eps host port.
Proof.
  intros Hh. rewrite add_endpoint_fold. split.
  - intros [?|(e & h & p & Hin & Hcut & Hk)]; [set_solver|]. exists e. split; [done|]. exists h, p.
    split; [done|]. apply endpointKey_inj in Hk as [? ?]; [done..|by eapply Cut_before_no_sep].
  - intros (e & Hin & h & p & Hcut & Hk & Hp). right. exists e, h, p. split; [done|]. split; [done|].
    unfold endpointKey. by rewrite Hk, Hp.
Qed.

Lemma packageRegistries_eq `{Idna} : packageRegistries = NewHostSet PackageRegistryHosts.
Proof. reflexivity. Qed.

(** The policy computes the reading: one direction here, the other because the
    reading gives every request one answer. *)
Lemma admit_admits `{IdnaLaws} net eps host port :
  no_byte ":" host -> admits net eps host port (policy_admit (newPolicy net eps) host port).
Proof.
  intros Hh. unfold policy_admit, newPolicy. rewrite packageRegistries_eq.
  destruct (String.eqb_spec host "") as [->|Hne]; [constructor; auto|].
  destruct (String.eqb_spec (net_Type net) NetUnrestricted) as [Hu|Hu]; [by constructor|].
  destruct (String.eqb_spec (net_Type net) NetLimited) as [Hl|Hl].
  2: { cbn. rewrite bool_decide_false by set_solver. constructor. auto. }
  cbn [admitAll allowed packages mcp].
  destruct (Match (Some (NewHostSet (AllowedHosts net))) host) eqn:Ea.
  { constructor; [done..|]. by apply Match_listed. }
  apply Match_listed_false in Ea.
  destruct (Match (if AllowPackageManagers net then _ else _) host) eqn:Ep.
  { destruct (AllowPackageManagers net) eqn:Ef; [|done]. apply (proj1 (Match_listed _ _)) in Ep.
    by constructor. }
  assert (Hp : AllowPackageManagers net = true -> ~ listed PackageRegistryHosts host).
  { intros Ef. rewrite Ef in Ep. apply (proj1 (Match_listed_false _ _)) in Ep. exact Ep. }
  case_bool_decide as Em; destruct (AllowMCPServers net) eqn:Ef; [|by apply not_elem_of_empty in Em|..].
  - constructor; [done..|]. by apply mcp_declared.
  - constructor. right; right. split_and!; [done..|]. intros _ Hd. by apply Em, mcp_declared.
  - constructor. right; right. split_and!; [done..|]. congruence.
Qed.

Lemma NetLimited_not_unrestricted : NetLimited <> NetUnrestricted.
Proof. discriminate. Qed.

Lemma admits_functional `{Idna} net eps host port a b :
  admits net eps host port a -> admits net eps host port b -> a = b.
Proof.
  pose proof NetLimited_not_unrestricted as Hlu.
  destruct 1; destruct 1; try done; exfalso;
    repeat match goal with
    | H : _ \/ _ |- _ => destruct H
    | H : _ /\ _ |- _ => destruct H
    end; (congruence || tauto).
Qed.

(** ** Substitution *)

Section substitute.
Context `{Idna}.

(** The placeholder of [c] stands in [s] where [c] may be injected. *)
Definition triggered (loc : Location) (s : string) (c : Credential) : bool :=
  enabled c loc && Contains s (c_Placeholder c).

Lemma collect_fold host loc s creds pairs unreachable :
  fold_left (collect host loc s) creds (pairs, unreachable) =
  (pairs ++ map (fun c => (c_Placeholder c, c_Secret c))
              (List.filter (fun c => triggered loc s c && usable c host) creds),
   unreachable ++ List.filter (fun c => triggered loc s c && negb (usable c host)) creds).
Proof.
  revert pairs unreachable; induction creds as [|c creds IH]; intros pairs unreachable.
  - simpl. by rewrite !app_nil_r.
  - cbn [fold_left List.filter].
    replace (collect host loc s (pairs, unreachable) c) with
      (if triggered loc s c then
         if usable c host then (pairs ++ [(c_Placeholder c, c_Secret c)], unreachable)
         else (pairs, unreachable ++ [c])
       else (pairs, unreachable))
      by (unfold collect, triggered; by destruct (enabled c loc), (Contains s (c_Placeholder c))).
    destruct (triggered loc s c); [|apply IH].
    destruct (usable c host); cbn [negb andb map]; rewrite IH, <- app_assoc; done.
Qed.

(** The pairs and the unreachable credentials are two filters of the list. *)
Lemma Substitute_filter creds host loc s :
  Substitute creds host loc s =
  (let pairs := map (fun c => (c_Placeholder c, c_Secret c))
                  (List.filter (fun c => triggered loc s c && usable c host) creds) in
   if Nat.eqb (length pairs) 0 then s else Replace pairs s,
   List.filter (fun c => triggered loc s c && negb (usable c host)) creds).
Proof.
  unfold Substitute. rewrite collect_fold. simpl. by destruct (Nat.eqb _ 0).
Qed.

(** Two credentials an observer of a request to [host] may not tell apart: all but
    the secret is the same, and so is the secret where it may be sent. *)
Definition same_to (host : string) (loc : Location) (s : string) (c c' : Credential) : Prop :=
  c_Placeholder c = c_Placeholder c' /\ c_Hosts c = c_Hosts c' /\
  c_Unrestricted c = c_Unrestricted c' /\ c_Header c = c_Header c' /\ c_Body c = c_Body c' /\
  (triggered loc s c = true -> usable c host = true -> c_Secret c = c_Secret c').

Lemma same_to_guards host loc s c c' :
  same_to host loc s c c' ->
  triggered loc s c' = triggered loc s c /\ usable c' host = usable c host.
Proof.
  intros (Hp & Hh & Hu & Hhd & Hb & _). unfold triggered, usable, enabled.
  rewrite Hp, Hh, Hu, Hhd, Hb. done.
Qed.

Lemma same_to_filters host loc s creds creds' :
  Forall2 (same_to host loc s) creds creds' ->
  map (fun c => (c_Placeholder c, c_Secret c))
    (List.filter (fun c => triggered loc s c && usable c host) creds) =
  map (fun c => (c_Placeholder c, c_Secret c))
    (List.filter (fun c => triggered loc s c && usable c host) creds') /\
  map c_Placeholder (List.filter (fun c => triggered loc s c && negb (usable c host)) creds) =
  map c_Placeholder (List.filter (fun c => triggered loc s c && negb (usable c host)) creds').
Proof.
  induction 1 as [|c c' creds creds' Hc _ [IH1 IH2]]; [done|].
  destruct (same_to_guards _ _ _ _ _ Hc) as [Ht Hu]. destruct Hc as (Hp & _ & _ & _ & _ & Hs).
  cbn [List.filter]. rewrite Ht, Hu.
  destruct (triggered loc s c), (usable c host); cbn [andb negb map];
    rewrite ?IH1, ?IH2, ?Hp, ?Hs by done; done.
Qed.
End substitute.

(** A lookup whose pairs exclude each other does not depend on their order. *)
Lemma replacer_lookup_perm pairs pairs' ig s :
  pairs ≡ₚ pairs' ->
  (forall x y, x ∈ pairs -> y ∈ pairs -> HasPrefix s x.1 = true -> HasPrefix s y.1 = true -> x = y) ->
  replacer_lookup pairs ig s = replacer_lookup pairs' ig s.
Proof.
  induction 1 as [|[o n] l l' Hl IH|[o n] [o' n'] l|l1 l2 l3 H12 IH12 H23 IH23]; intros Hx; simpl.
  - done.
  - rewrite IH; [done|]. intros x y ? ?. apply Hx; by right.
  - destruct (HasPrefix s o) eqn:E1, (HasPrefix s o') eqn:E2; cbn [andb]; try done.
    assert (Heq : (o', n') = (o, n)) by (apply Hx; [left|right; left|done..]).
    injection Heq as -> ->. by destruct (negb _).
  - rewrite IH12 by done. apply IH23. intros x y. rewrite <- H12. apply Hx.
Qed.

Lemma replacer_go_perm fuel pairs pairs' prev s :
  pairs ≡ₚ pairs' ->
  (forall s x y, x ∈ pairs -> y ∈ pairs -> HasPrefix s x.1 = true -> HasPrefix s y.1 = true -> x = y) ->
  replacer_go fuel pairs prev s = replacer_go fuel pairs' prev s.
Proof.
  intros Hp Hx. revert prev s; induction fuel as [|fuel IH]; intros prev s; simpl; [done|].
  rewrite (replacer_lookup_perm pairs pairs') by eauto.
  destruct (replacer_lookup pairs' prev s) as [[o n]|]; [destruct (String.eqb _ _)|destruct s]; by rewrite ?IH.
Qed.

(** Two prefixes of one string with one length are one string. *)
Lemma HasPrefix_same_length s a b :
  HasPrefix s a = true -> HasPrefix s b = true -> String.length a = String.length b -> a = b.
Proof.
  rewrite !HasPrefix_spec. intros [x ->] [y Hy]. revert b Hy.
  induction a as [|c a IH]; intros [|d b] Hy; simpl in *; try done.
  injection Hy as -> Hy. intros [= Hl]. f_equal. by apply IH.
Qed.

Lemma NoDup_map_inj {A B} (f : A -> B) l x y :
  NoDup (map f l) -> x ∈ l -> y ∈ l -> f x = f y -> x = y.
Proof.
  induction l as [|z l IH]; simpl; [by intros _ ?%not_elem_of_nil|].
  intros [Hz Hl]%NoDup_cons Hx Hy Hf.
  apply elem_of_cons in Hx as [->|Hx]; apply elem_of_cons in Hy as [->|Hy]; [done|..|by apply IH].
  - destruct Hz. rewrite Hf. by apply list_elem_of_fmap_2.
  - destruct Hz. rewrite <- Hf. by apply list_elem_of_fmap_2.
Qed.

Lemma list_filter_perm {A} (f : A -> bool) l l' : l ≡ₚ l' -> List.filter f l ≡ₚ List.filter f l'.
Proof.
  induction 1; simpl; repeat case_match; try done; [by constructor..|by etrans].
Qed.

(** ** The theorems *)

(** C40: the gate's decision is the reading of the networking block.  For a request
    host without a colon the policy built from the block and the agent's endpoints
    answers [a] exactly when [admits] says so: nothing for an empty host or an unknown
    type, the operator's list first, then the registries, then the agent's endpoints,
    each only under its own flag.  And the address floor is lifted only for a host the
    operator listed. *)
Theorem admit_exact `{IdnaLaws} net eps host port :
  no_byte ":" host ->
  (forall a, policy_admit (newPolicy net eps) host port = a <-> admits net eps host port a) /\
  (floored (policy_admit (newPolicy net eps) host port) = false ->
   net_Type net = NetLimited /\ listed (AllowedHosts net) host).
Proof.
  intros Hh. pose proof (admit_admits net eps host port Hh) as Ha. split.
  - intros a. split; [by intros <-|]. intros Hb. exact (admits_functional _ _ _ _ _ _ Ha Hb).
  - intros Hf. inversion Ha as [? ? E1|? ? ? E1|? ? ? ? ? E1|? ? ? ? ? ? E1|? E1];
      rewrite <- E1 in Hf; try discriminate Hf; auto.
Qed.

Lemma MCPServerAdmitted_limited `{Idna} cfg host :
  net_Type (env_Networking cfg) = NetLimited ->
  MCPServerAdmitted cfg host =
  AllowMCPServers (env_Networking cfg) ||
  Match (Some (NewHostSet (AllowedHosts (env_Networking cfg)))) host.
Proof.
  intros Hl. unfold MCPServerAdmitted. cbv zeta. rewrite Hl.
  replace (String.eqb NetLimited "") with false by done.
  replace (String.eqb NetLimited NetUnrestricted) with false by done.
  replace (String.eqb NetLimited NetLimited) with true by done.
  rewrite andb_false_r. by destruct (AllowMCPServers _).
Qed.

Lemma admit_limited `{Idna} net eps host port :
  host <> "" -> net_Type net = NetLimited ->
  policy_admit (newPolicy net eps) host port =
  if Match (Some (NewHostSet (AllowedHosts net))) host then admitOperator
  else if Match (if AllowPackageManagers net then Some packageRegistries else None) host then admitRegistry
  else if bool_decide (endpointKey host port ∈
            (if AllowMCPServers net then fold_left add_endpoint eps ∅ else ∅ : gset string))
  then admitMCP else admitNone.
Proof.
  intros Hne Hl. unfold newPolicy, policy_admit. rewrite Hl.
  replace (String.eqb NetLimited NetUnrestricted) with false by done.
  replace (String.eqb NetLimited NetLimited) with true by done.
  by destruct (String.eqb_spec host "").
Qed.

(** The executor and the gate agree on the MCP servers an agent declares.  For a
    declared endpoint under a networking block, whatever session create and the
    executor's dial policy_admit the sandbox's gate admits too; and what they refuse the gate
    refuses, unless the host is a package registry that the operator's own flag opened. *)
Theorem MCPServerAdmitted_gate `{Idna} cfg eps e host port :
  host <> "" -> net_Type (env_Networking cfg) <> "" ->
  e ∈ eps -> Cut (TrimSpace e) ":" = (host, port, true) ->
  let a := policy_admit (newPolicy (env_Networking cfg) eps) host port in
  (MCPServerAdmitted cfg host = true -> a <> admitNone) /\
  (MCPServerAdmitted cfg host = false -> a = admitNone \/ a = admitRegistry).
Proof.
  intros Hne Hty Hin Hcut a. subst a. set (net := env_Networking cfg) in *.
  destruct (decide (net_Type net = NetLimited)) as [Hl|Hl].
  - rewrite (MCPServerAdmitted_limited cfg host Hl), (admit_limited net eps host port Hne Hl). fold net.
    destruct (Match (Some (NewHostSet (AllowedHosts net))) host); [by rewrite orb_true_r|].
    rewrite orb_false_r. destruct (Match (if AllowPackageManagers net then _ else _) host); [auto|].
    destruct (AllowMCPServers net).
    + rewrite bool_decide_true; [done|]. apply add_endpoint_fold. right. by exists e, host, port.
    + rewrite bool_decide_false by (apply not_elem_of_empty). auto.
  - unfold MCPServerAdmitted, newPolicy, policy_admit. fold net. cbv zeta.
    destruct (String.eqb_spec (net_Type net) ""); [done|]. rewrite andb_false_r.
    destruct (String.eqb_spec host ""); [done|].
    destruct (String.eqb_spec (net_Type net) NetLimited); [done|].
    destruct (String.eqb_spec (net_Type net) NetUnrestricted); [done|].
    cbn [admitAll allowed packages mcp Match]. rewrite bool_decide_false by (apply not_elem_of_empty). auto.
Qed.

(** C39: a secret reaches only requests it may be used for.  Take two credential lists
    that agree on everything but the secrets of credentials that are not enabled for the
    location, do not occur in the text, or whose hosts do not policy_admit the request's: the
    text sent out is the same, and so are the placeholders reported unreachable.  So
    what leaves carries no information on those secrets. *)
Theorem Substitute_noninterference `{Idna} creds creds' host loc s :
  Forall2 (same_to host loc s) creds creds' ->
  (Substitute creds host loc s).1 = (Substitute creds' host loc s).1 /\
  map c_Placeholder (Substitute creds host loc s).2 = map c_Placeholder (Substitute creds' host loc s).2.
Proof.
  intros Hs. rewrite !Substitute_filter. cbn [fst snd].
  destruct (same_to_filters _ _ _ _ _ Hs) as [-> ->]. done.
Qed.

(** Substitution does not depend on the order of the credentials.  When the
    placeholders are distinct and of one length, as the derived tokens are, reordering
    the credentials changes neither the text nor which of them are unreachable. *)
Theorem Substitute_order_independent `{Idna} creds creds' host loc s n :
  creds ≡ₚ creds' -> NoDup (map c_Placeholder creds) ->
  Forall (fun c => String.length (c_Placeholder c) = n) creds ->
  (Substitute creds host loc s).1 = (Substitute creds' host loc s).1 /\
  (Substitute creds host loc s).2 ≡ₚ (Substitute creds' host loc s).2.
Proof.
  intros Hp Hnd Hlen. rewrite !Substitute_filter. cbn [fst snd]. split; [|by apply list_filter_perm].
  set (f := fun c => triggered loc s c && usable c host). set (g := fun c => (c_Placeholder c, c_Secret c)).
  assert (Hpp : map g (List.filter f creds) ≡ₚ map g (List.filter f creds'))
    by (by apply Permutation_map, list_filter_perm).
  cbv zeta. rewrite <- (Permutation_length Hpp). destruct (Nat.eqb _ 0); [done|].
  apply replacer_go_perm; [done|]. intros t x y Hx Hy Hpx Hpy.
  apply list_elem_of_fmap in Hx as (cx & -> & Hx). apply list_elem_of_fmap in Hy as (cy & -> & Hy).
  apply list_elem_of_In, filter_In in Hx as [Hx _]. apply list_elem_of_In, filter_In in Hy as [Hy _].
  apply list_elem_of_In in Hx, Hy. rewrite Forall_forall in Hlen. cbn [fst g] in Hpx, Hpy.
  assert (Hpl : c_Placeholder cx = c_Placeholder cy)
    by (apply (HasPrefix_same_length t); [done..|by rewrite !Hlen]).
  assert (cx = cy) as ->; [|done]. by apply (NoDup_map_inj c_Placeholder creds).
Qed.

(** ** Witnesses *)

Definition example_net : Networking := mkNetworking NetLimited ["*.example.com"] true true.
Definition example_eps : list string := ["mcp.vendor.io:0443"; "pypi.org:443"].

(** pypi.org, also an endpoint of the agent, goes out as the registry it is. *)
Lemma admit_exact_witness :
  policy_admit (H := one_label) (newPolicy (H := one_label) example_net example_eps) "PyPI.org" "443" = admitRegistry /\
  admits (H := one_label) example_net example_eps "PyPI.org" "443" admitRegistry.
Proof.
  assert (Ha : policy_admit (H := one_label) (newPolicy (H := one_label) example_net example_eps) "PyPI.org" "443"
               = admitRegistry) by (vm_compute; reflexivity).
  assert (Hh : no_byte ":" "PyPI.org") by (vm_compute; reflexivity).
  split; [exact Ha|].
  exact (proj1 (proj1 (@admit_exact one_label one_label_laws example_net example_eps "PyPI.org" "443" Hh)
                  admitRegistry) Ha).
Defined.

Definition example_cfg : EnvironmentConfig := mkEnvironmentConfig "cloud" ∅ example_net.

(** A server declared at mcp.vendor.io:0443 is admitted by both. *)
Lemma MCPServerAdmitted_gate_witness :
  MCPServerAdmitted (H := one_label) example_cfg "mcp.vendor.io" = true /\
  policy_admit (H := one_label) (newPolicy (H := one_label) example_net example_eps) "mcp.vendor.io" "0443" <> admitNone.
Proof.
  assert (Hm : MCPServerAdmitted (H := one_label) example_cfg "mcp.vendor.io" = true)
    by (vm_compute; reflexivity).
  assert (Hc : Cut (TrimSpace "mcp.vendor.io:0443") ":" = ("mcp.vendor.io", "0443", true))
    by (vm_compute; reflexivity).
  assert (Hin : ("mcp.vendor.io:0443" : string) ∈ example_eps) by left.
  split; [exact Hm|].
  refine (proj1 (@MCPServerAdmitted_gate one_label example_cfg example_eps "mcp.vendor.io:0443"
                   "mcp.vendor.io" "0443" _ _ Hin Hc) Hm); discriminate.
Defined.

(** Two credentials: one for api.example.com, one for other.com alone. *)
Definition example_cred (n secret host : string) : Credential :=
  mkCredential ("vltph_" +:+ n) secret (Some (NewHostSet (H := one_label) [host])) false true false.

(** The secret of the one for other.com has no influence on a request to api.example.com. *)
Lemma Substitute_noninterference_witness :
  let creds x := [example_cred "1" "key" "api.example.com"; example_cred "2" x "other.com"] in
  let out x := (Substitute (H := one_label) (creds x) "api.example.com" LocationHeader "vltph_1 vltph_2").1 in
  out "hunter2" = out "swordfish" /\ out "hunter2" = "key vltph_2".
Proof.
  intros creds out.
  assert (Hu : usable (H := one_label) (example_cred "2" "hunter2" "other.com") "api.example.com" = false)
    by (vm_compute; reflexivity).
  assert (Hs : Forall2 (same_to (H := one_label) "api.example.com" LocationHeader "vltph_1 vltph_2")
                 (creds "hunter2") (creds "swordfish")).
  { repeat constructor. intros _ Hu'. rewrite Hu in Hu'. discriminate Hu'. }
  split; [exact (proj1 (@Substitute_noninterference one_label _ _ _ _ _ Hs))|vm_compute; reflexivity].
Defined.

(** Swapping two admitted credentials changes nothing, though one secret holds the
    other's placeholder. *)
Lemma Substitute_order_independent_witness :
  let a := example_cred "1" "vltph_2" "*.example.com" in let b := example_cred "2" "key" "*.example.com" in
  let out l := (Substitute (H := one_label) l "api.example.com" LocationHeader "vltph_1 vltph_2").1 in
  out [a; b] = out [b; a] /\ out [a; b] = "vltph_2 key".
Proof.
  intros a b out.
  assert (Hnd : NoDup (map c_Placeholder [a; b])).
  { simpl. repeat (apply NoDup_cons; split); [|apply not_elem_of_nil|apply NoDup_nil_2].
    intros Hx%list_elem_of_singleton. discriminate Hx. }
  assert (Hl : Forall (fun c => String.length (c_Placeholder c) = 7%nat) [a; b]) by (repeat constructor).
  split; [|vm_compute; reflexivity].
  exact (proj1 (@Substitute_order_independent one_label [a; b] [b; a] "api.example.com" LocationHeader
                  "vltph_1 vltph_2" 7%nat (Permutation_swap b a []) Hnd Hl)).
Defined.
